(* ===== verification/_CoqProject ===== *)
-Q . S2P
Prelude.v
Strconv.v
Prog.v
Regexp.v
Reference.v
RefStore.v
MFlag.v
GoPath.v
GoNet.v
Opts.v
Ports.v
RunConfig.v
HyperCmd.v
GoMatch.v
Json.v
Utf8.v
Dockerfile.v
ShellWord.v
Digest.v
Builder.v
BuilderFacts.v
BuildCache.v
IdTools.v
LayerDiff.v
LayerStore.v
DigestSet.v
LayerDiffFacts.v
LayerDiffRoundTrip.v
ImageStore.v
ImageDelete.v
StdCopy.v
Symlink.v
Registrar.v
TruncIndex.v
Naming.v
Transfer.v
Container.v
Volume.v
VolumeStore.v
Mounts.v
VolumeFacts.v
MountsFacts.v
Ioutils.v
IoutilsFacts.v
TarUpload.v
JsonEncode.v
CliConfig.v
CliConfigFacts.v
ClientRun.v
ClientCommands.v
HostConfigCheck.v
JsonLog.v
JsonLogFacts.v
JsonFileLog.v
JsonFileLogFacts.v
DeviceSet.v
DeviceSetFacts.v
DeviceSetRestart.v
