(* ===== verification/Prelude.v ===== *)
(** * A verification of the Hyper command line and of the engine it is built on

    The repository is [hypercli], the command-line client of hyper.sh, which keeps
    the source of the Docker engine it was forked from.  This development models the
    parts of it that decide something: what a reference or a command line means, what
    configuration a container gets, what a Dockerfile says, which tags, images and
    layers exist and for how long, and when a container is restarted.  Everything is
    a shallow embedding: Go functions are Gallina functions, with state passed
    explicitly, errors as values of [result] or of the source's error types, and
    everything executable.

    ** The parts, and where they are modelled

    - [Prelude]: Go strings as lists of bytes, package [strings], the [result] type
      and its notations, the tactics and generic lemmas the other files share.
    - [Strconv], [Regexp], [Json], [Utf8], [GoPath], [GoNet]: what the program uses of Go's
      [strconv], [regexp], [encoding/json], [unicode/utf8], [path/filepath] and [net].
    - [Reference]: image references ([src/reference/reference.go] and the vendored
      [distribution/reference]): parsing, normalisation, printing.
    - [RefStore]: the tag store ([src/reference/store.go]) with its inverse index and
      its file; it implements the class [TagStore], the interface its clients use.
    - [MFlag]: the flag parser [src/pkg/mflag/flag.go].
    - [Opts], [Ports]: option values and validators ([src/opts], [src/runconfig/opts]),
      port specifications (vendored [go-connections/nat]) and mount options
      ([src/pkg/mount]).
    - [RunConfig]: [Parse] of [src/runconfig/opts/parse.go], from the command line of
      [run] and [create] to the container's configuration, built on the four above.
    - [HyperCmd]: the commands of hyper.sh itself, [cron] and [service]
      ([src/api/client/cron.go], [service.go]), from their arguments to the requests.
    - [Dockerfile], [ShellWord]: the Dockerfile parser ([src/builder/dockerfile/parser])
      and the words, flags and dispatch of instructions ([shell_parser.go], [bflag.go],
      [evaluator.go]).
    - [GoMatch]: the shell patterns of [path/filepath].
    - [Builder], [BuilderFacts], [BuildCache]: the builder of images
      ([src/builder/dockerfile], every instruction) over an arbitrary daemon and build
      context, with the trace of what it asks; the theorems about it; and the
      comparison of configurations behind the build cache
      ([src/runconfig/compare.go], [src/daemon/daemon.go]).
    - [Digest]: content addresses: SHA-256 written out, and chain IDs of layers.
    - [LayerStore]: the layer store ([src/layer]): shared read-only layers under
      reference counts, and mounts on top of them; operations are cut where they give up
      a lock, and run in any interleaving of the pieces.
    - [DigestSet]: the sorted set of digests searched for short IDs.
    - [ImageStore]: images, their parents, their layers and their backend
      ([src/image/store.go], [fs.go]); it uses layers through the class
      [LayerGetReleaser], which [LayerStore] implements.
    - [ImageDelete]: the deletion of images by the daemon ([src/daemon/image_delete.go]),
      proved against [TagStore] and [LayerGetReleaser].
    - [Registrar], [TruncIndex], [Naming]: how the daemon finds containers: the name
      registrar ([src/pkg/registrar]) with Go's shared slices, the prefix index of IDs
      ([src/pkg/truncindex]) over the class [Trie], and the operations on the daemon's
      four indexes ([src/daemon/daemon.go], [rename.go], [delete.go], [links.go]).
    - [Transfer]: the scheduler of layer transfers ([src/distribution/xfer]).
    - [StdCopy]: multiplexed output streams ([src/pkg/stdcopy]) over any [io.Reader].
    - [Symlink]: path resolution inside a root ([src/pkg/symlink]).
    - [Container]: the state of a container, its restart monitor and the store of
      containers ([src/container]).
    - [DeviceSet], [DeviceSetFacts], [DeviceSetRestart]: the devices of the devicemapper
      graph driver ([src/daemon/graphdriver/devmapper]) in memory, on disk and in the
      pool of the kernel; what its operations keep; and the start after a stop.
    - [IdTools]: the mappings of user and group IDs ([src/pkg/idtools]).
    - [LayerDiff], [LayerDiffFacts], [LayerDiffRoundTrip]: the differences between a
      layer and its parent, their archive, and its extraction
      ([src/daemon/graphdriver/fsdiff.go], [src/pkg/archive]); which files they name; and
      that they are inverse.
    - [Volume], [VolumeStore], [Mounts]: mount specifications and volume drivers
      ([src/volume], [src/volume/local], [src/volume/drivers]), the store of volumes
      ([src/volume/store]) over the class [VolumeDriver], and the mount points of
      containers ([src/daemon/volumes.go], [mounts.go], [create_unix.go]); their
      theorems are in [VolumeFacts] and [MountsFacts].
    - [Ioutils], [IoutilsFacts]: the tail of a file, pipes of bytes and the concatenation
      of readers ([src/pkg/tailfile], [src/pkg/ioutils]), over the class [ReadSeeker].
    - [JsonLog], [JsonFileLog]: the entries of JSON logs ([src/pkg/jsonlog]), and the way
      of a container's output to [docker logs] ([src/daemon/logger], [logs.go]): copier,
      logger, rotated files and reader; their theorems are in [JsonLogFacts] and
      [JsonFileLogFacts].
    - [JsonEncode], [CliConfig], [CliConfigFacts]: the encoder of [encoding/json], and the
      configuration of the client with its keys and credentials ([src/cliconfig],
      [src/api/client/config.go], [login.go]).
    - [Prog], [ClientRun], [ClientCommands], [TarUpload]: commands of the client as programs of
      calls that are answered in any way: creating and running containers with the
      volumes made for them ([create.go], [run.go], [volume.go]), commands over several
      names and floating IPs ([stop.go] and the like, [fip.go], [compose.go]), and the
      archive that uploads a local volume ([tarfile.go]).
    - [HostConfigCheck]: the checks of resources and settings when a container is created,
      started or updated, their defaults, and sets of processors ([src/daemon/daemon_unix.go],
      [daemon.go], [update.go], [src/runconfig], [src/pkg/parsers], [src/pkg/sysinfo]).

    ** What the theorems show

    References: it is said exactly which texts are accepted and what is made of them, and
    printing and parsing are inverse on normalised names.  The tag store refines a plain partial map, under
    every sequence of requests and every failure of its file, and survives a restart
    when its names are normalised.  Flags: parsing always ends, leaves a suffix of the
    arguments, and reads back every assignment that is written out.  A command line,
    whatever it says, yields an unprivileged configuration; its ports, binds and
    labels are exactly those asked for.  A cron job or a service that is asked for has a
    consistent request.  A host configuration that is accepted at the creation of a
    container is accepted at its start.  Dockerfile parsing and variable substitution
    always end; assignments, exec forms and escaped words are read back exactly, and
    the lines recorded for instructions are disjoint and in order.  A build makes every
    container from the image of the step before and commits such containers only, takes a prefix of its steps from the cache, never commits the
    values of build arguments, and removes its intermediate containers when it is told
    to, whatever the daemon answers; the cache returns a child of the parent with the
    same configuration.  Layers: the count
    of every layer is the number of its holders, in every interleaving and whichever
    external calls fail, so nothing panics; without failing removals no layer is
    leaked; chain IDs are those of the diffs.  Images hold the layers that their
    configurations name, are found by unambiguous prefixes, and know their children.
    Deleting images always ends, never takes an image that a running container uses or
    that has a child left, leaves no reference to a deleted image, and reports what it
    did.  A container's flags are coherent in every state that the daemon's writes reach; its monitor ends
    within the number of retries allowed and leaves it cleaned up and at rest.
    Containers are found by their IDs and names in every state of the daemon, as long as
    none is renamed to its own name, and the registrar behaves like a list of reservations.  The transfer manager counts its
    slots exactly, never deadlocks, and never cancels what somebody watches.  What is
    written to multiplexed streams is read back whole, however it is cut.  A path
    resolved inside a root stays there.  The layers of the devicemapper driver have
    devices of their own that are in the pool, whichever calls but the removal of a
    metadata file fail; a stop of the machine at any point of an operation, followed by a start, undoes it on disk.  The
    differences between a layer and its parent, applied to the parent, give the layer,
    if no name looks like a whiteout and stat shows the changes.
    A volume that a container uses is not removed, as long as containers are started
    without a configuration; the local driver stays below its root; mount
    specifications are read as they are written.  What a container writes to its two
    outputs is, in UTF-8 and without a maximal size of the log, what the client of
    [docker logs] gets on each, through all the parts in between; a log with a maximal size loses old messages only when its files are full,
    and is bounded.  A pipe is a queue of bytes, readers in a row are one reader for
    the seeks that the program makes, and the tail of a file is its last lines.  The client's configuration is read back as it was
    saved, if the file can hold it, and the keys of the default cloud that are configured
    are used.  A client that cannot create a container
    removes the volumes it made for it and nothing otherwise; [--rm] deletes what was
    started, on every path; a command over several names tries all of them.  A local
    volume is uploaded whole.

    Some theorems show behaviour that contradicts a comment or that is plainly not
    intended; they are stated as such.

    ** Conventions and bounds

    Recursion that is not structural takes fuel, and a theorem shows that what the
    code is given is enough: the length of the input for parsers and for substitution
    (each step consumes a character), the number of images for the deletion of images
    and of layers for a release (each round removes one).  The depth of a chain of
    layers is counted to one more than the limit of 125, which decides the comparison
    with it.  Integers that can overflow are [Z] wrapped at their width.  The outcomes
    of calls to the file system, to the graph driver and to the metadata store are
    arguments, so the theorems hold whichever of them fail, unless a hypothesis says
    otherwise.  Locks are modelled by the granularity of the steps: what runs under one
    lock is one step, and an operation of the layer store that lets its lock go is as
    many, with what it holds in between in the state of the system; in [Transfer] a step is what a goroutine does under one of the
    two mutexes.  The demultiplexer of [StdCopy] needs as many steps as its reader
    answers calls, plus one per byte.  Device IDs have a number of bits that is a
    parameter, 24 in the source; the search for one and the loop that creates a device
    take as much fuel as there are IDs.  Each call of [DeviceSet] to the kernel or the
    file system takes its outcome from a list: it succeeds, fails, or the machine stops.
    The walk over two directories and the changes between them take the depth of the
    trees as fuel.  Uploads of volumes that run at the same time, and the release of a
    floating IP that runs on its own, are made one after the other.

    Letters, case and white space are ASCII in the string functions.  The JSON reader
    keeps the text of numbers; it replaces what is not UTF-8 in configuration files, and
    elsewhere keeps it.  Writes to a Go map are taken to be atomic.  The scanner that reads a
    Dockerfile is taken without its limit of 64 KiB for a line.

    ** Not modelled

    The lists, inspections and streams of [src/api/client] and the routers of [src/api/server] (HTTP
    and terminal I/O around the parts above); the daemon's operations on containers, the
    execution drivers, the other graph drivers and the set-up of the devicemapper pool,
    networks and plugins (system calls); the
    pull and push of images but for their scheduling (the rest of [src/distribution],
    [src/registry]: network protocols);
    following a log, and the other log drivers; compression, the tar format and hard
    links; the reload of the layer store; usage messages; tables of
    data (errors, seccomp profiles, names); and the integration tests. *)

From Stdlib Require Export Ascii String.
From Stdlib Require Export ZArith Lia.
From stdpp Require Export base list gmap sorting strings.

(** ** Go strings

    A Go [string] is an immutable byte sequence; it is modelled as a list of
    8-bit characters, so that slicing [s[i:j]] is [take]/[drop], concatenation is
    [++] and [len] is [length].  String literals are written between double
    quotes in [go_scope]. *)

Declare Scope go_scope.
Delimit Scope go_scope with go.

Abbreviation gostring := (list ascii).

Definition literal_of_bytes (l : list Byte.byte) : string := string_of_list_byte l.
Definition bytes_of_literal (s : string) : option (list Byte.byte) :=
  match s with EmptyString => None | _ => Some (list_byte_of_string s) end.

#[warnings="-via-type-mismatch"]
String Notation list literal_of_bytes bytes_of_literal
  (via string mapping [[nil] => EmptyString, [cons] => String]) : go_scope.

#[global] Open Scope go_scope.

(** A character literal, written ['x'] in Go. *)
Notation "'ch' c" := (c%char : ascii) (at level 5, c at level 0, only parsing) : go_scope.

(** Go's [==] on strings, as a boolean. *)
Definition streqb (s t : gostring) : bool := bool_decide (s = t).
Notation "s =s t" := (streqb s t) (at level 70) : go_scope.
Lemma streqb_ne (s t : gostring) : s ≠ t → (s =s t) = false.
Proof. apply bool_decide_eq_false_2. Qed.
Definition chareqb (c d : ascii) : bool := bool_decide (c = d).
Notation "c =c d" := (chareqb c d) (at level 70) : go_scope.

(** ** Results of fallible code

    A Go function [f(...) (T, error)] whose value is meaningless on error is a
    function into [result E T]. *)

Inductive result (E A : Type) : Type :=
| Ok (a : A)
| Err (e : E).
Arguments Ok {E A} _.
Arguments Err {E A} _.

#[global] Instance result_eq_dec {E A} `{EqDecision E, EqDecision A} : EqDecision (result E A).
Proof. solve_decision. Defined.

Definition is_ok {E A} (r : result E A) : bool :=
  match r with Ok _ => true | Err _ => false end.

Definition rbind {E A B} (r : result E A) (f : A → result E B) : result E B :=
  match r with Ok a => f a | Err e => Err e end.

Notation "'let!' x := e 'in' k" := (rbind e (fun x => k))
  (at level 10, x pattern, k at level 200) : go_scope.
Notation "'check!' e 'in' k" := (rbind e (fun _ => k))
  (at level 10, k at level 200) : go_scope.

Fixpoint rmapM {E A B} (f : A → result E B) (l : list A) : result E (list B) :=
  match l with
  | [] => Ok []
  | x :: l => let! y := f x in let! ys := rmapM f l in Ok (y :: ys)
  end.

Fixpoint rfoldM {E A B} (f : B → A → result E B) (b : B) (l : list A) : result E B :=
  match l with
  | [] => Ok b
  | x :: l => let! b' := f b x in rfoldM f b' l
  end.

Lemma rbind_ok {E A B} (r : result E A) (f : A → result E B) b :
  rbind r f = Ok b ↔ ∃ a, r = Ok a ∧ f a = Ok b.
Proof. destruct r; simpl; naive_solver. Qed.

Lemma rbind_err {E A B} (r : result E A) (f : A → result E B) e :
  rbind r f = Err e ↔ r = Err e ∨ ∃ a, r = Ok a ∧ f a = Err e.
Proof. destruct r; simpl; naive_solver. Qed.

Lemma rmapM_ok {E A B} (f : A → result E B) l ys :
  rmapM f l = Ok ys ↔ Forall2 (fun x y => f x = Ok y) l ys.
Proof.
  revert ys. induction l as [|x l IH]; intros ys; simpl.
  - split; [naive_solver constructor|]. by inversion 1.
  - rewrite rbind_ok. setoid_rewrite rbind_ok. setoid_rewrite IH. split.
    + intros (y & Hy & ys' & Hys & [= <-]). by constructor.
    + inversion 1; subst. eauto 10.
Qed.

(** Folding with a partial step preserves an invariant of the accumulator. *)
Lemma rfoldM_inv {E A B} (P : B → Prop) (f : B → A → result E B) b l b' :
  (∀ b x b', P b → f b x = Ok b' → P b') →
  P b → rfoldM f b l = Ok b' → P b'.
Proof.
  intros Hf. revert b. induction l as [|x l IH]; simpl; intros b Hb; [naive_solver|].
  intros (b1 & H1 & H2)%rbind_ok. eauto.
Qed.

(** A filter that drops nothing. *)
Lemma list_filter_all {A} (P : A → Prop) `{∀ x, Decision (P x)} l : Forall P l → filter P l = l.
Proof. induction 1 as [|x l Hx _ IH]; [done|]. by rewrite filter_cons_True, IH. Qed.

(** ** The development's tactics *)

(** Split every successful bind in the context into its steps. *)
Ltac inv_ok :=
  repeat match goal with
  | H : rbind _ _ = Ok _ |- _ => apply rbind_ok in H; destruct H as (? & ? & ?)
  | H : Ok _ = Ok _ |- _ => injection H as H; try subst
  | H : Err _ = Err _ |- _ => injection H as H; try subst
  | H : Err _ = Ok _ |- _ => discriminate H
  | H : Ok _ = Err _ |- _ => discriminate H
  end.

(** Case on the scrutinee of a match of the goal or of the context. *)
Ltac case_scrut :=
  match goal with
  | |- context [match ?x with _ => _ end] => destruct x eqn:?
  | _ : context [match ?x with _ => _ end] |- _ => destruct x eqn:?
  end.

(** Boolean string tests to propositions, in the goal and in the context. *)
Ltac str_bool :=
  unfold streqb, chareqb in *;
  rewrite ?bool_decide_eq_true, ?bool_decide_eq_false, ?andb_true_iff, ?andb_false_iff,
    ?orb_true_iff, ?orb_false_iff, ?negb_true_iff, ?negb_false_iff in *.

Ltac res_solve := intros; repeat (inv_ok; simplify_eq/=; try case_scrut); eauto.

(** Decide a closed proposition by evaluation. *)
Ltac vm_decide :=
  match goal with |- ?P => refine (bool_decide_eq_true_1 P _); vm_compute; reflexivity end.

Create HintDb gostr.

(** ** The [strings] package *)

Module Strings.

(** [strings.HasPrefix] and [strings.TrimPrefix]. *)
Fixpoint strip_prefix (p s : gostring) : option gostring :=
  match p, s with
  | [], _ => Some s
  | c :: p, d :: s => if decide (c = d) then strip_prefix p s else None
  | _ :: _, [] => None
  end.
Definition HasPrefix (s p : gostring) : bool :=
  match strip_prefix p s with Some _ => true | None => false end.
Definition TrimPrefix (s p : gostring) : gostring := default s (strip_prefix p s).
Definition HasSuffix (s p : gostring) : bool := HasPrefix (rev s) (rev p).
Definition TrimSuffix (s p : gostring) : gostring := rev (TrimPrefix (rev s) (rev p)).

(** First occurrence of [sep]: what precedes it and what follows it. *)
Fixpoint Cut (sep s : gostring) : option (gostring * gostring) :=
  match strip_prefix sep s with
  | Some after => Some ([], after)
  | None =>
      match s with
      | [] => None
      | c :: s => '(a, b) ← Cut sep s; Some (c :: a, b)
      end
  end.

(** [strings.Index], [None] for -1. *)
Definition Index (s sep : gostring) : option nat := (length ∘ fst) <$> Cut sep s.
Definition Contains (s sep : gostring) : bool := bool_decide (is_Some (Cut sep s)).

(** [strings.SplitN(s, sep, n)] for [n > 0] and a non-empty separator, and
    [strings.Split]; a string of length [n] has at most [n] separators. *)
Fixpoint SplitN (s sep : gostring) (n : nat) : list gostring :=
  match n with
  | O => []
  | S n =>
      match n with
      | O => [s]
      | S _ => match Cut sep s with
               | Some (a, b) => a :: SplitN b sep n
               | None => [s]
               end
      end
  end.
Definition Split (s sep : gostring) : list gostring := SplitN s sep (S (length s)).

(** [strings.Join]. *)
Fixpoint Join (l : list gostring) (sep : gostring) : gostring :=
  match l with
  | [] => []
  | [s] => s
  | s :: l => s ++ sep ++ Join l sep
  end.

(** [strings.Count] for a non-empty substring. *)
Definition Count (s sep : gostring) : nat := pred (length (Split s sep)).

Definition ContainsRune (s : gostring) (c : ascii) : bool := bool_decide (c ∈ s).
Definition ContainsAny (s chars : gostring) : bool := existsb (fun c => bool_decide (c ∈ chars)) s.

(** [strings.TrimLeft]/[TrimRight]/[Trim] with a cutset, [strings.TrimSpace]. *)
Fixpoint drop_while (f : ascii → bool) (s : gostring) : gostring :=
  match s with
  | [] => []
  | c :: s' => if f c then drop_while f s' else s
  end.
Definition TrimLeftFunc (s : gostring) (f : ascii → bool) : gostring := drop_while f s.
Definition TrimRightFunc (s : gostring) (f : ascii → bool) : gostring := rev (drop_while f (rev s)).
Definition TrimFunc (s : gostring) (f : ascii → bool) : gostring := TrimRightFunc (TrimLeftFunc s f) f.
Definition TrimLeft (s cutset : gostring) : gostring := TrimLeftFunc s (fun c => bool_decide (c ∈ cutset)).
Definition TrimRight (s cutset : gostring) : gostring := TrimRightFunc s (fun c => bool_decide (c ∈ cutset)).
Definition Trim (s cutset : gostring) : gostring := TrimFunc s (fun c => bool_decide (c ∈ cutset)).

(** [unicode.IsSpace] on the single-byte characters. *)
Definition IsSpace (c : ascii) : bool :=
  match N_of_ascii c with
  | 9 | 10 | 11 | 12 | 13 | 32 => true
  | _ => false
  end%N.
Definition TrimSpace (s : gostring) : gostring := TrimFunc s IsSpace.

(** Character ranges, on byte values. *)
Definition in_range (lo hi c : ascii) : bool :=
  (N_of_ascii lo <=? N_of_ascii c)%N && (N_of_ascii c <=? N_of_ascii hi)%N.
Definition is_lower : ascii → bool := in_range "a" "z".
Definition is_upper : ascii → bool := in_range "A" "Z".
Definition is_digit : ascii → bool := in_range "0" "9".
Definition is_alpha (c : ascii) : bool := is_lower c || is_upper c.
Definition is_alnum (c : ascii) : bool := is_alpha c || is_digit c.
Definition is_xdigit (c : ascii) : bool := is_digit c || in_range "a" "f" c || in_range "A" "F" c.

(** [strings.ToLower]/[ToUpper] on the ASCII letters. *)
Definition lower_char (c : ascii) : ascii :=
  if is_upper c then ascii_of_N (N_of_ascii c + 32) else c.
Definition upper_char (c : ascii) : ascii :=
  if is_lower c then ascii_of_N (N_of_ascii c - 32) else c.
Definition ToLower (s : gostring) : gostring := lower_char <$> s.
Definition ToUpper (s : gostring) : gostring := upper_char <$> s.

(** [strings.Fields]: the maximal runs of non-space characters. *)
Fixpoint fields_go (cur : gostring) (s : gostring) : list gostring :=
  match s with
  | [] => match cur with [] => [] | _ => [rev cur] end
  | c :: s =>
      if IsSpace c
      then match cur with [] => fields_go [] s | _ => rev cur :: fields_go [] s end
      else fields_go (c :: cur) s
  end.
Definition Fields (s : gostring) : list gostring := fields_go [] s.

(** Go's [<] on strings: lexicographic on bytes. *)
Fixpoint leb (s t : gostring) : bool :=
  match s, t with
  | [], _ => true
  | _ :: _, [] => false
  | c :: s, d :: t =>
      if (N_of_ascii c <? N_of_ascii d)%N then true
      else if (N_of_ascii d <? N_of_ascii c)%N then false
      else leb s t
  end.

End Strings.

Section string_lemmas.
Import Strings.
Implicit Types (s t p sep : gostring) (c : ascii).

Lemma strip_prefix_Some p s t : strip_prefix p s = Some t ↔ s = p ++ t.
Proof.
  revert s. induction p as [|c p IH]; intros [|d s]; simpl; try naive_solver.
  case_decide; [subst; rewrite IH|]; naive_solver.
Qed.

Lemma strip_prefix_app p t : strip_prefix p (p ++ t) = Some t.
Proof. by apply strip_prefix_Some. Qed.

Lemma HasPrefix_spec s p : HasPrefix s p = true ↔ ∃ t, s = p ++ t.
Proof.
  unfold HasPrefix. destruct (strip_prefix p s) as [t|] eqn:E.
  - apply strip_prefix_Some in E. naive_solver.
  - split; [done|]. intros [t ->]. by rewrite strip_prefix_app in E.
Qed.

Lemma TrimPrefix_app p t : TrimPrefix (p ++ t) p = t.
Proof. unfold TrimPrefix. by rewrite strip_prefix_app. Qed.

Lemma TrimPrefix_no s p : HasPrefix s p = false → TrimPrefix s p = s.
Proof. unfold HasPrefix, TrimPrefix. by destruct (strip_prefix p s). Qed.

Lemma HasSuffix_spec s p : HasSuffix s p = true ↔ ∃ t, s = t ++ p.
Proof.
  unfold HasSuffix. rewrite HasPrefix_spec. split.
  - intros [t Ht]. exists (rev t). rewrite <-(rev_involutive s), Ht, rev_app_distr.
    by rewrite rev_involutive.
  - intros [t ->]. exists (rev t). by rewrite rev_app_distr.
Qed.

Lemma Cut_Some_eq sep s a b : Cut sep s = Some (a, b) → s = a ++ sep ++ b.
Proof.
  revert a b. induction s as [|c s IH]; intros a b; simpl;
    destruct (strip_prefix sep _) as [r|] eqn:E.
  - apply strip_prefix_Some in E. naive_solver.
  - done.
  - apply strip_prefix_Some in E. naive_solver.
  - destruct (Cut sep s) as [[a' b']|]; simpl; [|done].
    intros [= <- <-]. rewrite (IH a' b' eq_refl). done.
Qed.

(** Single-character separators: the cut is at the first occurrence. *)
Lemma Cut_char_Some c s a b :
  Cut [c] s = Some (a, b) ↔ s = a ++ c :: b ∧ c ∉ a.
Proof.
  revert a b. induction s as [|d s IH]; intros a b; simpl.
  { split; [done|]. intros [Heq _]. by destruct a. }
  case_decide as Hd.
  - subst d. split.
    + intros [= <- <-]. split; [done|]. set_solver.
    + intros [Heq Hc]. destruct a as [|x a]; simplify_eq/=; [done|]. set_solver.
  - destruct (Cut [c] s) as [[a' b']|] eqn:E; simpl.
    + destruct (proj1 (IH a' b') eq_refl) as [-> Hc]. split.
      * intros [= <- <-]. split; [done|]. set_solver.
      * intros [Heq Hc']. destruct a as [|x a]; simplify_eq/=.
        assert (Some (a', b') = Some (a, b)) as [= -> ->]; [|done].
        apply IH. set_solver.
    + split; [done|]. intros [Heq Hc]. destruct a as [|x a]; simplify_eq/=.
      assert (None = Some (a, b)); [|done]. apply IH. set_solver.
Qed.

Lemma Cut_char_None c s : Cut [c] s = None ↔ c ∉ s.
Proof.
  induction s as [|d s IH]; simpl.
  { split; [|done]. set_solver. }
  case_decide as Hd; [subst; set_solver|].
  destruct (Cut [c] s) as [[a b]|]; simpl.
  - split; [done|]. intros Hn. destruct IH as [_ IH]. discriminate IH. set_solver.
  - split; [|done]. intros _. destruct IH as [IH _]. set_solver.
Qed.

Lemma Cut_char_app c a b : c ∉ a → Cut [c] (a ++ c :: b) = Some (a, b).
Proof. intros. by apply Cut_char_Some. Qed.

Lemma Contains_char s c : Contains s [c] = bool_decide (c ∈ s).
Proof.
  unfold Contains. apply bool_decide_ext. destruct (Cut [c] s) as [[a b]|] eqn:E.
  - apply Cut_char_Some in E as [-> _]. split; [set_solver|]. eauto.
  - apply Cut_char_None in E. split; [by intros [? ?]|done].
Qed.

(** Splitting loses nothing: joining the parts gives the string back. *)
Lemma Join_SplitN s sep n : 0 < n → Join (SplitN s sep n) sep = s.
Proof.
  revert s. induction n as [|n IH]; intros s Hn; [lia|]. simpl.
  destruct n as [|n]; [done|].
  destruct (Cut sep s) as [[a b]|] eqn:E; [|done].
  specialize (IH b ltac:(lia)).
  assert (Hne : SplitN b sep (S n) ≠ []).
  { simpl. destruct n; [done|]. by destruct (Cut sep b) as [[]|]. }
  destruct (SplitN b sep (S n)) as [|x l] eqn:El; [done|].
  apply Cut_Some_eq in E. subst s. by rewrite <-IH.
Qed.

Lemma Join_Split s sep : Join (Split s sep) sep = s.
Proof. apply Join_SplitN. lia. Qed.

Lemma SplitN_length s sep n : length (SplitN s sep n) ≤ n.
Proof.
  revert s. induction n as [|n IH]; intros s; simpl; [done|].
  destruct n; [done|]. destruct (Cut sep s) as [[a b]|]; simpl; [|lia].
  specialize (IH b). simpl in *. lia.
Qed.

Lemma SplitN_ne s sep n : 0 < n → SplitN s sep n ≠ [].
Proof.
  destruct n as [|[|n]]; simpl; [lia|done|]. by destruct (Cut sep s) as [[]|].
Qed.

Lemma SplitN_SS s sep n :
  SplitN s sep (S (S n)) =
  match Cut sep s with Some (a, b) => a :: SplitN b sep (S n) | None => [s] end.
Proof. reflexivity. Qed.

(** [SplitN(s, sep, 2)] on a single-character separator. *)
Lemma SplitN_2_char s c :
  SplitN s [c] 2 = match Cut [c] s with Some (a, b) => [a; b] | None => [s] end.
Proof. reflexivity. Qed.

(** The parts of a full split do not contain the separator character. *)
Lemma SplitN_char_free c s n x :
  length s < n → x ∈ SplitN s [c] n → c ∉ x.
Proof.
  revert s. induction n as [|n IH]; intros s Hn Hx; [set_solver|].
  simpl in Hx. destruct n as [|n].
  { assert (s = []) as -> by (apply nil_length_inv; lia).
    apply list_elem_of_singleton in Hx as ->. apply not_elem_of_nil. }
  destruct (Cut [c] s) as [[a b]|] eqn:E.
  - apply Cut_char_Some in E as [-> Ha].
    apply elem_of_cons in Hx as [->|Hx]; [done|]. apply (IH b); [|done].
    rewrite length_app in Hn. simpl in Hn. lia.
  - apply Cut_char_None in E. by apply list_elem_of_singleton in Hx as ->.
Qed.

Lemma Split_char_free c s x : x ∈ Split s [c] → c ∉ x.
Proof. apply SplitN_char_free. lia. Qed.

(** Splitting a join of separator-free parts gives the parts back. *)
Lemma SplitN_Join_char c l n :
  l ≠ [] → Forall (fun x => c ∉ x) l → length l ≤ n →
  SplitN (Join l [c]) [c] n = l.
Proof.
  revert l. induction n as [|n IH]; intros l Hne Hl Hn; [destruct l; simpl in *; [done|lia]|].
  destruct l as [|x l]; [done|]. apply Forall_cons in Hl as [Hx Hl].
  destruct l as [|y l].
  - simpl. destruct n; [done|]. by rewrite (proj2 (Cut_char_None c x) Hx).
  - change (Join (x :: y :: l) [c]) with (x ++ c :: Join (y :: l) [c]).
    destruct n as [|n]; [simpl in Hn; lia|].
    rewrite SplitN_SS, Cut_char_app by done. f_equal. apply IH; [done|done|simpl in *; lia].
Qed.

Lemma Join_length_ge c l : length l ≤ S (length (Join l [c])).
Proof.
  induction l as [|x l IH]; simpl; [lia|]. destruct l; [simpl; lia|].
  rewrite length_app. simpl in *. lia.
Qed.

Lemma Split_Join_char c l :
  l ≠ [] → Forall (fun x => c ∉ x) l → Split (Join l [c]) [c] = l.
Proof. intros. apply SplitN_Join_char; [done..|]. apply Join_length_ge. Qed.

Lemma Split_char_nil c s : c ∉ s → Split s [c] = [s].
Proof. intros. by apply (Split_Join_char c [s]); [|apply Forall_singleton]. Qed.

Lemma Join_app (l k : list gostring) sep : l ≠ [] → k ≠ [] → Join (l ++ k) sep = Join l sep ++ sep ++ Join k sep.
Proof.
  intros Hl Hk. induction l as [|x [|y l] IH]; [done| |].
  - simpl. by destruct k.
  - change (Join ((x :: y :: l) ++ k) sep) with (x ++ sep ++ Join ((y :: l) ++ k) sep).
    rewrite IH by done. change (Join (x :: y :: l) sep) with (x ++ sep ++ Join (y :: l) sep).
    by rewrite <-!(assoc_L (++)).
Qed.

Lemma Split_ne (s sep : gostring) : Split s sep ≠ [].
Proof. apply SplitN_ne. lia. Qed.

Lemma Split_app c a b : Split (a ++ c :: b) [c] = Split a [c] ++ Split b [c].
Proof.
  rewrite <-(Split_Join_char c (Split a [c] ++ Split b [c])).
  - rewrite Join_app by apply Split_ne. by rewrite !Join_Split.
  - pose proof (Split_ne a [c]). by destruct (Split a [c]).
  - apply Forall_app; split; apply Forall_forall; intros x; apply Split_char_free.
Qed.

Lemma Count_char_zero c s : Count s [c] = 0 ↔ c ∉ s.
Proof.
  unfold Count. split.
  - intros H Hin. destruct s as [|d s]; [by apply elem_of_nil in Hin|].
    unfold Split in H. change (length (d :: s)) with (S (length s)) in H.
    rewrite SplitN_SS in H. destruct (Cut [c] (d :: s)) as [[x y]|] eqn:E.
    + apply nil_length_inv in H. by apply (SplitN_ne y [c] (S (length s))); [lia|].
    + by apply Cut_char_None in E.
  - intros. by rewrite Split_char_nil.
Qed.

Lemma drop_while_Forall (f : ascii → bool) s : Forall (fun c => f c = false) s → drop_while f s = s.
Proof. destruct s as [|c s]; simpl; [done|]. by intros [-> _]%Forall_cons. Qed.

Lemma drop_while_suffix (f : ascii → bool) s : ∃ a, s = a ++ drop_while f s ∧ Forall (fun c => f c = true) a.
Proof.
  induction s as [|c s (a & Hs & Ha)]; simpl; [by exists []|].
  destruct (f c) eqn:E; [|by exists []].
  exists (c :: a). simpl. split; [by f_equal|]. by constructor.
Qed.

Lemma drop_while_head (f : ascii → bool) s c t : drop_while f s = c :: t → f c = false.
Proof. induction s as [|d s IH]; simpl; [done|]. destruct (f d) eqn:E; [done|]. naive_solver. Qed.

Lemma drop_while_idemp (f : ascii → bool) s : drop_while f (drop_while f s) = drop_while f s.
Proof.
  destruct (drop_while f s) as [|c t] eqn:E; [done|]. simpl.
  by rewrite (drop_while_head _ _ _ _ E).
Qed.

End string_lemmas.

#[export] Hint Resolve strip_prefix_app TrimPrefix_app Join_Split SplitN_length : gostr.
#[export] Hint Rewrite Contains_char strip_prefix_app : gostr.
