(* ===== verification/Strconv.v ===== *)
(** * Strconv: machine integers and the [strconv] package

    Go's fixed-width integers are values of [Z] with the width's bounds written
    out.  [ParseUint] and [ParseInt] follow the loop of Go's [strconv]: they
    return a value together with an optional error, since callers such as
    [pkg/mflag] store the value even when the error is set. *)

From S2P Require Import Prelude.
Import Strings.

Local Open Scope Z_scope.

Module Strconv.

Inductive NumError := ErrSyntax | ErrRange.

#[global] Instance NumError_eq_dec : EqDecision NumError.
Proof. solve_decision. Defined.

Definition maxUint (bits : Z) : Z := 2 ^ bits - 1.

(** The value of a digit in bases up to 36. *)
Definition digit_val (c : ascii) : option Z :=
  let n := Z.of_N (N_of_ascii c) in
  if is_digit c then Some (n - 48)
  else if is_lower c then Some (n - 87)
  else if is_upper c then Some (n - 55)
  else None.

(** The digit loop of [ParseUint]: the first bad digit or overflow ends it. *)
Fixpoint uint_loop (base maxVal n : Z) (s : gostring) : Z * option NumError :=
  match s with
  | [] => (n, None)
  | c :: s =>
      match digit_val c with
      | None => (0, Some ErrSyntax)
      | Some v =>
          if base <=? v then (0, Some ErrSyntax)
          else if maxVal <? n * base + v then (maxVal, Some ErrRange)
          else uint_loop base maxVal (n * base + v) s
      end
  end.

(** [strconv.ParseUint(s, base, bitSize)]; base 0 reads the base from the prefix. *)
Definition ParseUint (s : gostring) (base bits : Z) : Z * option NumError :=
  match s with
  | [] => (0, Some ErrSyntax)
  | c :: rest =>
      if base =? 0 then
        match rest with
        | x :: hex =>
            if (c =c "0") && ((x =c "x") || (x =c "X")) then
              match hex with
              | [] => (0, Some ErrSyntax)
              | _ => uint_loop 16 (maxUint bits) 0 hex
              end
            else uint_loop (if c =c "0" then 8 else 10) (maxUint bits) 0 s
        | [] => uint_loop (if c =c "0" then 8 else 10) (maxUint bits) 0 s
        end
      else uint_loop base (maxUint bits) 0 s
  end.

(** [strconv.ParseInt(s, base, bitSize)]: the sign, then the magnitude clamped
    to the signed range. *)
Definition int_of_magnitude (base bits : Z) (neg : bool) (s : gostring) : Z * option NumError :=
  let cutoff := 2 ^ (bits - 1) in
  let '(un, err) := ParseUint s base bits in
  if decide (err = Some ErrSyntax) then (0, Some ErrSyntax)
  else if negb neg && (cutoff <=? un) then (cutoff - 1, Some ErrRange)
  else if neg && (cutoff <? un) then (- cutoff, Some ErrRange)
  else (if neg then - un else un, None).
Definition ParseInt (s : gostring) (base bits : Z) : Z * option NumError :=
  match s with
  | [] => (0, Some ErrSyntax)
  | c :: rest =>
      if c =c "+" then int_of_magnitude base bits false rest
      else if c =c "-" then int_of_magnitude base bits true rest
      else int_of_magnitude base bits false s
  end.

(** [strconv.Atoi] on a 64-bit platform. *)
Definition Atoi (s : gostring) : Z * option NumError := ParseInt s 10 64.

(** [strconv.ParseBool]. *)
Definition ParseBool (s : gostring) : bool * option NumError :=
  if bool_decide (s ∈ ["1"; "t"; "T"; "TRUE"; "true"; "True"]) then (true, None)
  else if bool_decide (s ∈ ["0"; "f"; "F"; "FALSE"; "false"; "False"]) then (false, None)
  else (false, Some ErrSyntax).

(** [strconv.FormatUint(n, 10)] and [strconv.FormatInt(n, 10)]. *)
Definition digit_char (d : Z) : ascii := ascii_of_N (Z.to_N (d + 48)).
Fixpoint format_loop (fuel : nat) (n : Z) (acc : gostring) : gostring :=
  match fuel with
  | O => acc
  | S fuel =>
      if n <? 10 then digit_char n :: acc
      else format_loop fuel (n / 10) (digit_char (n mod 10) :: acc)
  end.
Definition FormatUint (n : Z) : gostring := format_loop (S (Z.to_nat (Z.log2 n))) n [].
Definition FormatInt (n : Z) : gostring :=
  if n <? 0 then ch "-" :: FormatUint (- n) else FormatUint n.

(** Conversions to the fixed-width types. *)
Definition to_uint64 (n : Z) : Z := n mod 2 ^ 64.
Definition to_uint16 (n : Z) : Z := n mod 2 ^ 16.
Definition to_int64 (n : Z) : Z := (n + 2 ^ 63) mod 2 ^ 64 - 2 ^ 63.

End Strconv.

(** An error value as the source builds it: the format and arguments of
    [fmt.Errorf], kept unformatted, or a [strconv] error passed on. *)
Inductive goerror :=
| Errorf (fmt : gostring) (fargs : list gostring)
| ErrNum (e : Strconv.NumError).

#[global] Instance goerror_eq_dec : EqDecision goerror.
Proof. solve_decision. Defined.

Import Strconv.

(** A [strconv] result as a [result]: the value is dropped on error. *)
Definition num_result {A} (p : A * option NumError) : result goerror A :=
  match p with
  | (a, None) => Ok a
  | (_, Some e) => Err (ErrNum e)
  end.

Lemma uint_loop_bounds base maxVal n s v e :
  0 <= n <= maxVal → 0 < base → uint_loop base maxVal n s = (v, e) → 0 <= v <= maxVal.
Proof.
  intros Hn Hb. revert n Hn. induction s as [|c s IH]; simpl; intros n Hn H; [naive_solver|].
  destruct (digit_val c) as [d|] eqn:Ed; [|by simplify_eq; lia].
  assert (0 <= d).
  { revert Ed. unfold digit_val, is_digit, is_lower, is_upper, in_range.
    repeat case_match; intros; simplify_eq; 
      rewrite ?andb_true_iff, ?N.leb_le in *; simpl in *; lia. }
  repeat case_match; simplify_eq; try lia.
  eapply IH; [|done]. nia.
Qed.

Lemma ParseUint_bounds s base bits v e :
  0 <= base → 0 <= bits → ParseUint s base bits = (v, e) → 0 <= v <= maxUint bits.
Proof.
  intros Hb Hbits. assert (0 <= maxUint bits) by (unfold maxUint; pose proof (Z.pow_pos_nonneg 2 bits); lia).
  unfold ParseUint. repeat case_match; intros; simplify_eq; try lia;
    (eapply uint_loop_bounds; [| |eassumption]; lia).
Qed.

Lemma int_of_magnitude_bounds base bits neg s v e :
  0 <= base → 0 < bits → int_of_magnitude base bits neg s = (v, e) →
  - 2 ^ (bits - 1) <= v <= 2 ^ (bits - 1) - 1.
Proof.
  intros Hb Hbits. unfold int_of_magnitude.
  pose proof (Z.pow_pos_nonneg 2 (bits - 1) ltac:(lia) ltac:(lia)).
  destruct (ParseUint s base bits) as [un err] eqn:Eu.
  apply ParseUint_bounds in Eu; [|lia..].
  destruct neg; simpl; repeat case_match; intros; simplify_eq;
    rewrite ?Z.leb_le, ?Z.leb_gt, ?Z.ltb_lt, ?Z.ltb_ge in *; lia.
Qed.

Lemma ParseInt_bounds s base bits v e :
  0 <= base → 0 < bits → ParseInt s base bits = (v, e) →
  - 2 ^ (bits - 1) <= v <= 2 ^ (bits - 1) - 1.
Proof.
  intros Hb Hbits. unfold ParseInt.
  pose proof (Z.pow_pos_nonneg 2 (bits - 1) ltac:(lia) ltac:(lia)).
  destruct s as [|c s]; [intros; simplify_eq; lia|].
  repeat case_match; eauto using int_of_magnitude_bounds.
Qed.

(** Printing then parsing an unsigned number gives it back. *)
Lemma digit_char_val d : 0 <= d < 10 → digit_val (digit_char d) = Some d.
Proof.
  intros Hd. assert (d ∈ seqZ 0 10) as Hin by (apply elem_of_seqZ; lia).
  clear Hd. vm_compute in Hin. repeat (apply elem_of_cons in Hin as [->|Hin]; [done|]).
  by apply elem_of_nil in Hin.
Qed.

Lemma digit_char_digit d : 0 <= d < 10 → is_digit (digit_char d) = true.
Proof.
  intros Hd. assert (d ∈ seqZ 0 10) as Hin by (apply elem_of_seqZ; lia).
  clear Hd. vm_compute in Hin. repeat (apply elem_of_cons in Hin as [->|Hin]; [done|]).
  by apply elem_of_nil in Hin.
Qed.

Lemma format_loop_parse fuel n maxVal acc :
  0 <= n → n < 10 ^ Z.of_nat fuel → (0 < fuel)%nat → n <= maxVal →
  uint_loop 10 maxVal 0 (format_loop fuel n acc) = uint_loop 10 maxVal n acc.
Proof.
  revert n acc. induction fuel as [|fuel IH]; intros n acc Hn Hlt Hf Hmax; [lia|]. simpl.
  destruct (Z.ltb_spec n 10).
  - cbn [uint_loop]. rewrite digit_char_val by lia. rewrite Z.mul_0_l, Z.add_0_l.
    rewrite (proj2 (Z.leb_gt 10 n)) by lia. by rewrite (proj2 (Z.ltb_ge maxVal n)) by lia.
  - destruct fuel as [|fuel]; [simpl in Hlt; lia|].
    rewrite IH; [|apply Z.div_pos; lia| |lia|].
    + cbn [uint_loop]. rewrite digit_char_val by (apply Z.mod_pos_bound; lia).
      pose proof (Z.mod_pos_bound n 10 ltac:(lia)).
      rewrite (proj2 (Z.leb_gt 10 (n mod 10))) by lia.
      replace (n / 10 * 10 + n mod 10) with n by (pose proof (Z.div_mod n 10); lia).
      by rewrite (proj2 (Z.ltb_ge maxVal n)) by lia.
    + apply Z.div_lt_upper_bound; [lia|]. rewrite Nat2Z.inj_succ, Z.pow_succ_r in Hlt; lia.
    + pose proof (Z.div_le_upper_bound n 10 n); lia.
Qed.

Lemma format_fuel_enough n : 0 <= n → n < 10 ^ Z.of_nat (S (Z.to_nat (Z.log2 n))).
Proof.
  intros Hn. destruct (Z.eq_dec n 0) as [->|]; [done|].
  destruct (Z.log2_spec n ltac:(lia)) as [_ Hlt]. pose proof (Z.log2_nonneg n).
  rewrite Nat2Z.inj_succ, Z2Nat.id by lia.
  eapply Z.lt_le_trans; [exact Hlt|]. apply Z.pow_le_mono_l. lia.
Qed.

Lemma ParseUint_FormatUint n bits :
  0 <= n <= maxUint bits → ParseUint (FormatUint n) 10 bits = (n, None).
Proof.
  intros Hn. assert (H : uint_loop 10 (maxUint bits) 0 (FormatUint n) = (n, None)).
  { unfold FormatUint. rewrite format_loop_parse; [done|lia| |lia|lia].
    apply format_fuel_enough. lia. }
  unfold ParseUint. destruct (FormatUint n) as [|c s] eqn:E; [|done].
  exfalso. revert E. unfold FormatUint. clear.
  assert (∀ f m (acc : gostring), (0 < f)%nat ∨ acc ≠ [] → format_loop f m acc ≠ []) as Hne.
  { induction f as [|f IH]; intros m acc Hor; simpl; [destruct Hor; [lia|done]|].
    case_match; [done|]. apply IH. by right. }
  apply Hne. left. lia.
Qed.

Lemma FormatUint_digits n : 0 <= n → Forall (fun c => is_digit c = true) (FormatUint n).
Proof.
  intros Hn. unfold FormatUint.
  assert (H : ∀ f m (acc : gostring), 0 <= m → Forall (fun c => is_digit c = true) acc →
    Forall (fun c => is_digit c = true) (format_loop f m acc)).
  { induction f as [|f IH]; intros m acc Hm Hacc; simpl; [done|]. destruct (Z.ltb_spec m 10).
    - constructor; [apply digit_char_digit; lia|done].
    - apply IH; [apply Z.div_pos; lia|]. constructor; [|done]. apply digit_char_digit, Z.mod_pos_bound. lia. }
  by apply H.
Qed.

#[export] Hint Resolve ParseUint_FormatUint : gostr.
