(* ===== verification/Prog.v ===== *)
(** * Prog: programs of calls

    A command that talks to something else is a program of calls: it ends with a result,
    or it makes a call and goes on with the answer.  The calls are those of its client;
    the other side answers them as it likes, depending on what it was asked before. *)

From S2P Require Import Prelude.

Module Prog.
Section prog.
  Context (call : Type → Type).

Inductive prog (A : Type) : Type := Ret (a : A) | Do {B} (c : call B) (k : B → prog A).
Fixpoint bind {A B} (p : prog A) (f : A → prog B) : prog B :=
  match p with Ret _ a => f a | Do _ c k => Do _ c (fun x => bind (k x) f) end.
(** A call with its answer, and the other side. *)
Record event := mkEvent { reply_type : Type; asked : call reply_type; reply : reply_type }.
Definition server := list event → ∀ B, call B → B.
(** The trace of a program, and its result. *)
Fixpoint run {A} (srv : server) (h : list event) (p : prog A) : list event * A :=
  match p with
  | Ret _ a => ([], a)
  | Do _ c k => let r := srv h _ c in let '(t, a) := run srv (h ++ [mkEvent _ c r]) (k r) in (mkEvent _ c r :: t, a)
  end.
Definition ask {B} (c : call B) : prog B := Do _ c (Ret _).
Fixpoint for_each {A} (f : A → prog unit) (l : list A) : prog unit :=
  match l with [] => Ret _ tt | x :: l => bind (f x) (fun _ => for_each f l) end.
End prog.
Arguments Ret {call A}.
Arguments Do {call A B}.
Arguments ask {call B}.
Arguments bind {call A B}.
Arguments run {call A}.
Arguments for_each {call A}.
Arguments mkEvent {call}.
Arguments asked {call}.
Arguments reply {call}.
Declare Scope prog_scope.
Delimit Scope prog_scope with prog.
Notation "x <- m ;; k" := (bind m (fun x => k)) (at level 100, m at next level, right associativity) : prog_scope.
Notation "' p <- m ;; k" := (bind m (fun p => k)) (at level 100, p pattern, m at next level, right associativity) : prog_scope.
End Prog.
