(* ===== verification/Regexp.v ===== *)
(** * Regexp: the regular expressions of Go's [regexp] package

    The repository validates names, tags, digests, domains, container names and
    Dockerfile lines with compiled regular expressions.  [re] is the fragment it
    uses (classes, sequences, alternatives, greedy repetition, capturing
    groups); [bt] is a backtracking matcher with Go's leftmost-first priorities
    and captures, [lang] the language of an expression.  The theorems relate
    the two: a whole-string match succeeds exactly on the language, and the
    captures of a match are substrings that the groups accept. *)

From S2P Require Import Prelude.
Import Strings.

Module Regexp.

Inductive re :=
| Eps
| Chr (f : ascii → bool)
| Seq (a b : re)
| Alt (a b : re)
| Star (a : re)
| Cap (i : nat) (a : re).

(** Captured groups, by group number; an absent group reads as the empty string. *)
Abbreviation caps := (gmap nat gostring).
Definition group (c : caps) (i : nat) : gostring := default [] (c !! i).

Fixpoint bt (r : re) (s : gostring) (c : caps)
    (k : gostring → caps → option caps) : option caps :=
  match r with
  | Eps => k s c
  | Chr f => match s with
             | x :: s' => if f x then k s' c else None
             | [] => None
             end
  | Seq a b => bt a s c (fun s' c' => bt b s' c' k)
  | Alt a b => match bt a s c k with
               | Some res => Some res
               | None => bt b s c k
               end
  | Star a =>
      (fix star (n : nat) (s : gostring) (c : caps) : option caps :=
         match n with
         | O => k s c
         | S n =>
             match bt a s c (fun s' c' =>
                 if Nat.ltb (length s') (length s) then star n s' c' else None) with
             | Some res => Some res
             | None => k s c
             end
         end) (length s) s c
  | Cap i a => bt a s c (fun s' c' => k s' (<[i := take (length s - length s') s]> c'))
  end.

(** [^r$]: [FindStringSubmatch] and [MatchString] on an anchored expression. *)
Definition at_end (s : gostring) (c : caps) : option caps :=
  match s with [] => Some c | _ => None end.
Definition FullMatch (r : re) (s : gostring) : option caps := bt r s ∅ at_end.
Definition MatchString (r : re) (s : gostring) : bool := bool_decide (is_Some (FullMatch r s)).

(** [^r]: an expression anchored at the start only. *)
Definition PrefixMatch (r : re) (s : gostring) : option caps := bt r s ∅ (fun _ c => Some c).

(** An unanchored search, at the leftmost position where the expression matches. *)
Fixpoint Find (r : re) (s : gostring) : option caps :=
  match PrefixMatch r s with
  | Some c => Some c
  | None => match s with [] => None | _ :: s => Find r s end
  end.

(** Derived forms. *)
Fixpoint Lit (s : gostring) : re :=
  match s with
  | [] => Eps
  | [c] => Chr (fun x => x =c c)
  | c :: s => Seq (Chr (fun x => x =c c)) (Lit s)
  end.
Definition Opt (r : re) : re := Alt r Eps.
Definition Plus (r : re) : re := Seq r (Star r).
Fixpoint UpTo (n : nat) (r : re) : re :=
  match n with O => Eps | S n => Opt (Seq r (UpTo n r)) end.
Fixpoint Times (n : nat) (r : re) : re :=
  match n with O => Eps | S n => Seq r (Times n r) end.
Definition AtLeast (n : nat) (r : re) : re := Seq (Times n r) (Star r).

(** The language of an expression. *)
Inductive lang : re → gostring → Prop :=
| lang_eps : lang Eps []
| lang_chr f x : f x = true → lang (Chr f) [x]
| lang_seq a b u v : lang a u → lang b v → lang (Seq a b) (u ++ v)
| lang_alt_l a b u : lang a u → lang (Alt a b) u
| lang_alt_r a b u : lang b u → lang (Alt a b) u
| lang_star_nil a : lang (Star a) []
| lang_star_cons a u v : lang a u → lang (Star a) v → lang (Star a) (u ++ v)
| lang_cap i a u : lang a u → lang (Cap i a) u.

(** The same with the captures a match may leave. *)
Inductive langc : re → gostring → caps → caps → Prop :=
| langc_eps c : langc Eps [] c c
| langc_chr f x c : f x = true → langc (Chr f) [x] c c
| langc_seq a b u v c c1 c2 : langc a u c c1 → langc b v c1 c2 → langc (Seq a b) (u ++ v) c c2
| langc_alt_l a b u c c' : langc a u c c' → langc (Alt a b) u c c'
| langc_alt_r a b u c c' : langc b u c c' → langc (Alt a b) u c c'
| langc_star_nil a c : langc (Star a) [] c c
| langc_star_cons a u v c c1 c2 :
    langc a u c c1 → langc (Star a) v c1 c2 → langc (Star a) (u ++ v) c c2
| langc_cap i a u c c' : langc a u c c' → langc (Cap i a) u c (<[i := u]> c').

(** No capturing group inside. *)
Fixpoint nocap (r : re) : bool :=
  match r with
  | Eps | Chr _ => true
  | Seq a b | Alt a b => nocap a && nocap b
  | Star a => nocap a
  | Cap _ _ => false
  end.

(** Every character the expression can consume satisfies [p]; decidable for the
    concrete classes since there are 256 characters. *)
Definition all_chars : list ascii := ascii_of_nat <$> seq 0 256.
Fixpoint chars_in (p : ascii → bool) (r : re) : bool :=
  match r with
  | Eps => true
  | Chr f => forallb (fun c => implb (f c) (p c)) all_chars
  | Seq a b | Alt a b => chars_in p a && chars_in p b
  | Star a => chars_in p a
  | Cap _ a => chars_in p a
  end.

(** Whether the empty string is in the language. *)
Fixpoint nullable (r : re) : bool :=
  match r with
  | Eps => true
  | Chr _ => false
  | Seq a b => nullable a && nullable b
  | Alt a b => nullable a || nullable b
  | Star _ => true
  | Cap _ a => nullable a
  end.

End Regexp.

Import Regexp.

#[export] Hint Constructors lang langc : gostr.

Lemma langc_lang r u c c' : langc r u c c' → lang r u.
Proof. induction 1; eauto with gostr. Qed.

Lemma langc_nocap r u c c' : langc r u c c' → nocap r = true → c' = c.
Proof.
  induction 1; simpl; intros Hn; try (apply andb_true_iff in Hn as [??]);
    try done; intuition (subst; eauto).
Qed.

(** ** Soundness of the matcher *)

Section sound.
Implicit Types (r : re) (s u v : gostring) (c : caps) (k : gostring → caps → option caps).

Definition sound_at r : Prop := ∀ s c k res, bt r s c k = Some res →
  ∃ u v c', s = u ++ v ∧ langc r u c c' ∧ k v c' = Some res.

Lemma sound_star a : sound_at a → sound_at (Star a).
Proof.
  intros IH s c k res. simpl. generalize (length s) at 1 as n. intros n. revert s c res.
  induction n as [|n IHn]; intros s c res H.
  { exists [], s, c. eauto with gostr. }
  destruct (bt a s c _) as [res'|] eqn:E; simplify_eq.
  - apply IH in E as (u & v & c1 & -> & Hu & Hk).
    case_match; [|done]. apply IHn in Hk as (u2 & v2 & c2 & -> & Hu2 & Hk2).
    exists (u ++ u2), v2, c2. rewrite (assoc_L (++)). eauto with gostr.
  - exists [], s, c. eauto with gostr.
Qed.

Lemma bt_sound r : sound_at r.
Proof.
  induction r as [|f|a IHa b IHb|a IHa b IHb|a IHa|i a IHa]; intros s c k res H; simpl in H.
  - exists [], s, c. eauto with gostr.
  - destruct s as [|x s]; [done|]. case_match; [|done].
    exists [x], s, c. eauto with gostr.
  - apply IHa in H as (u & v & c1 & -> & Hu & H).
    apply IHb in H as (u2 & v2 & c2 & -> & Hu2 & H).
    exists (u ++ u2), v2, c2. rewrite (assoc_L (++)). eauto with gostr.
  - destruct (bt a s c k) as [res'|] eqn:E; simplify_eq.
    + apply IHa in E as (u & v & c1 & -> & Hu & E). eauto 10 with gostr.
    + apply IHb in H as (u & v & c1 & -> & Hu & H). eauto 10 with gostr.
  - by apply (sound_star a IHa).
  - apply IHa in H as (u & v & c1 & -> & Hu & H).
    replace (take _ (u ++ v)) with u in H; [by eauto 10 with gostr|].
    rewrite length_app, Nat.add_sub. by rewrite take_app_length.
Qed.
End sound.

(** ** Completeness: enough backtracking *)

(** An iteration that consumes nothing can be dropped. *)
Lemma lang_star_nonempty a u :
  lang (Star a) u → u = [] ∨
  ∃ u1 u2, u = u1 ++ u2 ∧ u1 ≠ [] ∧ lang a u1 ∧ lang (Star a) u2.
Proof.
  intros H. remember (Star a) as r eqn:Er. induction H; simplify_eq; [by left|].
  destruct u as [|x u]; [by apply IHlang2|]. right. exists (x :: u), v. eauto.
Qed.

Definition complete_at (r : re) : Prop := ∀ u v c k,
  lang r u → (∀ c', is_Some (k v c')) → is_Some (bt r (u ++ v) c k).

Lemma complete_star a : complete_at a → complete_at (Star a).
Proof.
  intros IH u v c k Hu Hk. simpl.
  assert (length u ≤ length (u ++ v)) as Hn by (rewrite length_app; lia).
  revert Hn. generalize (length (u ++ v)) at 1 2 as n. intros n.
  revert u c Hu. induction n as [|n IHn]; intros u c Hu Hn.
  { destruct u; [by apply Hk|simpl in Hn; lia]. }
  destruct (lang_star_nonempty _ _ Hu) as [->|(u1 & u2 & -> & Hne & Hu1 & Hu2)].
  { simpl. case_match; eauto. }
  rewrite <-(assoc_L (++)).
  assert (Hgo : ∀ c', is_Some ((fun s' c' => if length s' <? length (u1 ++ u2 ++ v) then
    (fix star (n : nat) (s : gostring) (c : caps) : option caps :=
         match n with
         | O => k s c
         | S n =>
             match bt a s c (fun s' c' =>
                 if Nat.ltb (length s') (length s) then star n s' c' else None) with
             | Some res => Some res
             | None => k s c
             end
         end) n s' c' else None) (u2 ++ v) c')).
  { intros c'. destruct u1 as [|x u1]; [done|]. simpl in Hn. rewrite length_app in Hn.
    rewrite (proj2 (Nat.ltb_lt _ _)) by (simpl; rewrite !length_app; lia).
    apply IHn; [done|lia]. }
  destruct (IH u1 (u2 ++ v) c _ Hu1 Hgo) as [res ->]. by eexists.
Qed.

Lemma bt_complete r : complete_at r.
Proof.
  induction r as [|f|a IHa b IHb|a IHa b IHb|a IHa|i a IHa]; intros u v c k Hu Hk; simpl.
  - inversion Hu; subst. apply Hk.
  - inversion Hu as [|? x Hx| | | | | |]; subst. simpl. rewrite Hx. apply Hk.
  - inversion Hu; subst. rewrite <-(assoc_L (++)). apply IHa; [done|]. intros c'. by apply IHb.
  - inversion Hu; subst.
    + edestruct (IHa u v c k) as [res ->]; eauto.
    + case_match; [by eexists|]. by apply IHb.
  - by apply (complete_star a IHa).
  - inversion Hu; subst. apply IHa; [done|]. intros c'. apply Hk.
Qed.

(** ** The matcher decides the language *)

Lemma FullMatch_langc r s c : FullMatch r s = Some c → langc r s ∅ c.
Proof.
  intros (u & v & c' & -> & Hu & Hk)%bt_sound. destruct v; simplify_eq/=.
  by rewrite app_nil_r.
Qed.

Lemma FullMatch_is_Some r s : is_Some (FullMatch r s) ↔ lang r s.
Proof.
  split.
  - intros [c Hc]. eapply langc_lang, FullMatch_langc, Hc.
  - intros H. unfold FullMatch. rewrite <-(app_nil_r s). apply bt_complete; [done|].
    intros c'. by eexists.
Qed.

Lemma MatchString_lang r s : MatchString r s = true ↔ lang r s.
Proof. unfold MatchString. rewrite bool_decide_eq_true. apply FullMatch_is_Some. Qed.

Lemma MatchString_false r s : MatchString r s = false ↔ ¬ lang r s.
Proof. rewrite <-MatchString_lang. by destruct (MatchString r s). Qed.

(** ** Inversion of the derived forms *)

Lemma lang_Seq a b s : lang (Seq a b) s ↔ ∃ u v, s = u ++ v ∧ lang a u ∧ lang b v.
Proof. split; [inversion 1; eauto|]. intros (u & v & -> & ? & ?). eauto with gostr. Qed.
Lemma lang_Alt a b s : lang (Alt a b) s ↔ lang a s ∨ lang b s.
Proof. split; [inversion 1; eauto|]. intros [?|?]; eauto with gostr. Qed.
Lemma lang_Eps s : lang Eps s ↔ s = [].
Proof. split; [by inversion 1|]. intros ->. constructor. Qed.
Lemma lang_Chr f s : lang (Chr f) s ↔ ∃ x, s = [x] ∧ f x = true.
Proof. split; [inversion 1; eauto|]. intros (x & -> & ?). eauto with gostr. Qed.
Lemma lang_Cap i a s : lang (Cap i a) s ↔ lang a s.
Proof. split; [by inversion 1|]. eauto with gostr. Qed.
Lemma lang_Opt r s : lang (Opt r) s ↔ lang r s ∨ s = [].
Proof. unfold Opt. by rewrite lang_Alt, lang_Eps. Qed.
Lemma lang_Lit l s : lang (Lit l) s ↔ s = l.
Proof.
  revert s. induction l as [|c l IH]; intros s; simpl; [apply lang_Eps|].
  assert (Hc : ∀ s, lang (Chr (λ x, x =c c)) s ↔ s = [c]).
  { intros t. rewrite lang_Chr. split; [|by exists c; str_bool].
    intros (x & -> & Hx). str_bool. by subst. }
  destruct l as [|d l]; [apply Hc|]. rewrite lang_Seq. setoid_rewrite Hc. setoid_rewrite IH.
  split; [by intros (u & v & -> & -> & ->)|]. intros ->. by exists [c], (d :: l).
Qed.

Lemma lang_Star_Forall f s : lang (Star (Chr f)) s ↔ Forall (fun c => f c = true) s.
Proof.
  split.
  - intros H. remember (Star (Chr f)) as r eqn:Er. induction H; simplify_eq; [done|].
    apply Forall_app. split; [|by apply IHlang2].
    apply lang_Chr in H as (x & -> & Hx). by apply Forall_singleton.
  - induction 1 as [|x s Hx _ IH]; [constructor|].
    apply (lang_star_cons _ [x] s); [by constructor|done].
Qed.

Lemma lang_Plus_Forall f s : lang (Plus (Chr f)) s ↔ s ≠ [] ∧ Forall (fun c => f c = true) s.
Proof.
  unfold Plus. rewrite lang_Seq. setoid_rewrite lang_Chr. setoid_rewrite lang_Star_Forall. split.
  - intros (u & v & -> & (x & -> & Hx) & Hv). split; [done|]. by constructor.
  - intros [Hne H]. destruct s as [|x s]; [done|]. apply Forall_cons in H as [Hx Hs].
    exists [x], s. eauto.
Qed.

(** ** Character sets and the empty string *)

Lemma all_chars_spec (p : ascii → bool) : forallb p all_chars = true → ∀ c, p c = true.
Proof.
  intros H c. rewrite forallb_forall in H. apply H. unfold all_chars.
  apply list_elem_of_In, list_elem_of_fmap. exists (nat_of_ascii c).
  split; [by rewrite ascii_nat_embedding|]. apply elem_of_seq.
  pose proof (nat_ascii_bounded c). lia.
Qed.

Lemma chars_in_sound p r s : chars_in p r = true → lang r s → Forall (fun c => p c = true) s.
Proof.
  intros Hp H. induction H as [|f x Hf| | | | | |]; cbn [chars_in] in *.
  2: { apply Forall_singleton. pose proof (all_chars_spec _ Hp x) as Hx. cbv beta in Hx.
       by rewrite Hf in Hx. }
  all: rewrite ?andb_true_iff in Hp; try (by constructor);
    try (by apply Forall_app; naive_solver); naive_solver.
Qed.

Lemma nullable_sound r : lang r [] → nullable r = true.
Proof.
  intros H. remember [] as s eqn:Es. induction H; simpl; try done; simplify_eq.
  - apply app_nil in Es as [-> ->]. by rewrite IHlang1, IHlang2.
  - by rewrite IHlang.
  - rewrite IHlang by done. apply orb_true_r.
  - by apply IHlang.
Qed.

#[export] Hint Rewrite lang_Seq lang_Alt lang_Eps lang_Chr lang_Cap lang_Opt lang_Lit
  lang_Star_Forall lang_Plus_Forall : lang.
