(* ===== verification/Reference.v ===== *)
(** * Reference: image references

    Models [src/reference/reference.go] (normalisation, hostnames, tagged and
    canonical references) on top of the reference grammar it imports,
    [src/vendor/src/github.com/docker/distribution/reference] and [digest].
    The grammar's regular expressions are built with the same combinators and
    matched by [Regexp.bt].

    The theorems: the grammar is unambiguous, so the captures of a match are the
    only way to read a reference; printing then parsing a normalised reference
    gives it back; parsing only produces references of the grammar; and the two
    normalisation corner cases in which the code does not reach a fixed point. *)

From S2P Require Import Prelude Regexp.
Import Strings Regexp.

(** ** distribution/reference: grammar *)

Module DistRef.

Definition class (s : gostring) : ascii → bool := fun c => bool_decide (c ∈ s).
Definition lower_alnum (c : ascii) : bool := is_lower c || is_digit c.
Definition word (c : ascii) : bool := is_alnum c || (c =c "_").

(** The combinators of regexp.go. *)
Fixpoint expression (rs : list re) : re :=
  match rs with
  | [] => Eps
  | [r] => r
  | r :: rs => Seq r (expression rs)
  end.
Definition optional (rs : list re) : re := Opt (expression rs).
Definition repeated (rs : list re) : re := Plus (expression rs).
Definition capture (i : nat) (rs : list re) : re := Cap i (expression rs).

Definition alphaNumericRegexp : re := Plus (Chr lower_alnum).
Definition separatorRegexp : re :=
  Alt (Chr (class "._")) (Alt (Lit "__") (Star (Chr (class "-")))).
Definition nameComponentRegexp : re :=
  expression [alphaNumericRegexp; optional [repeated [separatorRegexp; alphaNumericRegexp]]].
Definition hostnameComponentRegexp : re :=
  Alt (Chr lower_alnum)
    (expression [Chr lower_alnum; Star (Chr (fun c => lower_alnum c || (c =c "-"))); Chr lower_alnum]).
Definition hostnameRegexp : re :=
  expression [hostnameComponentRegexp;
              optional [repeated [Lit "."; hostnameComponentRegexp]];
              optional [Lit ":"; Plus (Chr is_digit)]].
Definition TagRegexp : re :=
  Seq (Chr word) (UpTo 127 (Chr (fun c => word c || class ".-" c))).
Definition DigestRegexp : re :=
  expression [Chr is_alpha; Star (Chr is_alnum);
              Star (expression [Chr (class "-_+."); Chr is_alpha; Star (Chr is_alnum)]);
              Lit ":"; AtLeast 32 (Chr is_xdigit)].
Definition NameRegexp : re :=
  expression [optional [hostnameRegexp; Lit "/"];
              nameComponentRegexp;
              optional [repeated [Lit "/"; nameComponentRegexp]]].
(** [anchoredNameRegexp]; the anchors are those of [FullMatch]. *)
Definition anchoredNameRegexp : re :=
  expression [optional [capture 1 [hostnameRegexp]; Lit "/"];
              capture 2 [nameComponentRegexp; optional [repeated [Lit "/"; nameComponentRegexp]]]].
Definition ReferenceRegexp : re :=
  expression [capture 1 [NameRegexp];
              optional [Lit ":"; capture 2 [TagRegexp]];
              optional [Lit "@"; capture 3 [DigestRegexp]]].

Definition NameTotalLengthMax : nat := 255.

Inductive error :=
| ErrReferenceInvalidFormat
| ErrTagInvalidFormat
| ErrDigestInvalidFormat
| ErrNameEmpty
| ErrNameTooLong
| ErrChecksumInvalidFormat   (* digest.ErrDigestInvalidFormat *)
| ErrChecksumInvalidLength   (* digest.ErrDigestInvalidLength *)
| ErrChecksumUnsupported.    (* digest.ErrDigestUnsupported *)

(** [digest.Digest.Validate]. *)
Definition digestAnchored : re :=
  expression [Plus (Chr (fun c => is_alnum c || class "-_+." c)); Lit ":"; Plus (Chr is_xdigit)].
Definition algorithmSize (alg : gostring) : option nat :=
  if alg =s "sha256" then Some 32
  else if alg =s "sha384" then Some 48
  else if alg =s "sha512" then Some 64
  else None.
Definition Validate (s : gostring) : result error unit :=
  if negb (MatchString digestAnchored s) then Err ErrChecksumInvalidFormat
  else match Cut ":" s with
       | None => Err ErrChecksumInvalidFormat
       | Some (alg, hex) =>
           if decide (hex = []) then Err ErrChecksumInvalidFormat
           else match algorithmSize alg with
                | Some n => if decide (n * 2 = length hex) then Ok tt
                            else Err ErrChecksumInvalidLength
                | None => Err ErrChecksumUnsupported
                end
       end.
Definition ParseDigest (s : gostring) : result error gostring :=
  check! Validate s in Ok s.

(** The reference types of reference.go. *)
Inductive Reference :=
| Repository (name : gostring)
| TaggedReference (name tag : gostring)
| CanonicalReference (name digest : gostring)
| DigestReference (digest : gostring)
| FullReference (name tag digest : gostring).

Definition getBestReferenceType (name tag digest : gostring) : option Reference :=
  if decide (name = []) then
    if decide (digest = []) then None else Some (DigestReference digest)
  else if decide (tag = []) then
    if decide (digest = []) then Some (Repository name)
    else Some (CanonicalReference name digest)
  else if decide (digest = []) then Some (TaggedReference name tag)
  else Some (FullReference name tag digest).

Definition Parse (s : gostring) : result error Reference :=
  match FullMatch ReferenceRegexp s with
  | None => if decide (s = []) then Err ErrNameEmpty else Err ErrReferenceInvalidFormat
  | Some m =>
      if Nat.ltb NameTotalLengthMax (length (group m 1)) then Err ErrNameTooLong
      else
        let! digest := (if decide (group m 3 = []) then Ok [] else ParseDigest (group m 3)) in
        match getBestReferenceType (group m 1) (group m 2) digest with
        | None => Err ErrNameEmpty
        | Some r => Ok r
        end
  end.

Definition WithName (name : gostring) : result error gostring :=
  if Nat.ltb NameTotalLengthMax (length name) then Err ErrNameTooLong
  else if negb (MatchString anchoredNameRegexp name) then Err ErrReferenceInvalidFormat
  else Ok name.
Definition WithTag (name tag : gostring) : result error (gostring * gostring) :=
  if negb (MatchString TagRegexp tag) then Err ErrTagInvalidFormat else Ok (name, tag).
Definition WithDigest (name digest : gostring) : result error (gostring * gostring) :=
  if negb (MatchString DigestRegexp digest) then Err ErrDigestInvalidFormat else Ok (name, digest).

End DistRef.

(** ** reference/reference.go *)

Module Reference.

Definition DefaultTag : gostring := "latest".
Definition DefaultHostname : gostring := "docker.io".
Definition LegacyDefaultHostname : gostring := "index.docker.io".
Definition DefaultRepoPrefix : gostring := "library/".

(** [namedRef], [taggedRef] and [canonicalRef]. *)
Inductive Named :=
| namedRef (name : gostring)
| taggedRef (name tag : gostring)
| canonicalRef (name digest : gostring).

#[global] Instance Named_eq_dec : EqDecision Named.
Proof. solve_decision. Defined.

Inductive error :=
| ErrInvalidRepositoryTag (s : gostring)   (* "Error parsing reference: %q is not a valid repository/tag" *)
| ErrHexName (name : gostring)             (* "... cannot specify 64-byte hexadecimal strings" *)
| ErrDist (e : DistRef.error).

Definition dist {A} (r : result DistRef.error A) : result error A :=
  match r with Ok a => Ok a | Err e => Err (ErrDist e) end.

Definition Name (r : Named) : gostring :=
  match r with namedRef n | taggedRef n _ | canonicalRef n _ => n end.
Definition String (r : Named) : gostring :=
  match r with
  | namedRef n => n
  | taggedRef n t => n ++ ":" ++ t
  | canonicalRef n d => n ++ "@" ++ d
  end.

(** [image/v1.ValidateID]: 64 lower-case hexadecimal digits. *)
Definition validHex : re := Times 64 (Chr (fun c => in_range "a" "f" c || is_digit c)).
Definition ValidateID (id : gostring) : bool := MatchString validHex id.
Definition validateName (name : gostring) : result error unit :=
  if ValidateID name then Err (ErrHexName name) else Ok tt.

Definition splitHostname (name : gostring) : gostring * gostring :=
  let '(hostname, remoteName) :=
    match Cut "/" name with
    | Some (host, rest) =>
        if negb (ContainsAny host ".:") && negb (host =s "localhost")
        then (DefaultHostname, name)
        else (host, rest)
    | None => (DefaultHostname, name)
    end in
  let hostname := if hostname =s LegacyDefaultHostname then DefaultHostname else hostname in
  let remoteName :=
    if (hostname =s DefaultHostname) && negb (ContainsRune remoteName "/")
    then DefaultRepoPrefix ++ remoteName else remoteName in
  (hostname, remoteName).

Definition normalize (name : gostring) : gostring :=
  let '(host, remoteName) := splitHostname name in
  if host =s DefaultHostname then
    if HasPrefix remoteName DefaultRepoPrefix
    then TrimPrefix remoteName DefaultRepoPrefix
    else remoteName
  else name.

Definition WithName (name : gostring) : result error Named :=
  let name := normalize name in
  check! validateName name in
  let! r := dist (DistRef.WithName name) in
  Ok (namedRef r).
Definition WithTag (name : Named) (tag : gostring) : result error Named :=
  let! (n, t) := dist (DistRef.WithTag (Name name) tag) in Ok (taggedRef n t).
Definition WithDigest (name : Named) (digest : gostring) : result error Named :=
  let! (n, d) := dist (DistRef.WithDigest (Name name) digest) in Ok (canonicalRef n d).

Definition ParseNamed (s : gostring) : result error Named :=
  match DistRef.Parse s with
  | Err _ => Err (ErrInvalidRepositoryTag s)
  | Ok named =>
      match named with
      | DistRef.DigestReference _ => Err (ErrInvalidRepositoryTag s)
      | DistRef.Repository n => WithName n
      | DistRef.CanonicalReference n d | DistRef.FullReference n _ d =>
          let! r := WithName n in WithDigest r d
      | DistRef.TaggedReference n t =>
          let! r := WithName n in WithTag r t
      end
  end.

Definition FullName (r : Named) : gostring :=
  let '(hostname, remoteName) := splitHostname (Name r) in hostname ++ "/" ++ remoteName.
Definition Hostname (r : Named) : gostring := (splitHostname (Name r)).1.
Definition RemoteName (r : Named) : gostring := (splitHostname (Name r)).2.

Definition IsNameOnly (r : Named) : bool :=
  match r with taggedRef _ _ | canonicalRef _ _ => false | namedRef _ => true end.

(** [ref, _ = WithTag(ref, DefaultTag)]: the error is dropped; [DefaultTag] is a
    valid tag, so the nil reference it would leave never arises. *)
Definition WithDefaultTag (r : Named) : Named :=
  if IsNameOnly r then
    match WithTag r DefaultTag with Ok r' => r' | Err _ => r end
  else r.

(** A reference as the rest of the program may hold it. *)
Definition wf_name (n : gostring) : Prop :=
  lang DistRef.NameRegexp n ∧ length n ≤ DistRef.NameTotalLengthMax ∧ ValidateID n = false.
Definition wf (r : Named) : Prop :=
  wf_name (Name r) ∧
  match r with
  | namedRef _ => True
  | taggedRef _ t => lang DistRef.TagRegexp t
  | canonicalRef _ d => lang DistRef.DigestRegexp d ∧ is_ok (DistRef.Validate d) = true
  end.

End Reference.

Import Reference.

(** ** Character sets of the grammar *)

Section charsets.
Import DistRef.

Definition name_char (c : ascii) : bool := lower_alnum c || class "._-/:" c.
Definition component_char (c : ascii) : bool := lower_alnum c || class "._-/" c.
Definition tag_char (c : ascii) : bool := word c || class ".-" c.
Definition digest_char (c : ascii) : bool := is_alnum c || class "-_+.:" c.

Lemma chars_not p r s c : chars_in p r = true → p c = false → lang r s → c ∉ s.
Proof.
  intros Hr Hc Hs Hin. apply (chars_in_sound p) in Hs; [|done].
  rewrite Forall_forall in Hs. apply Hs in Hin. congruence.
Qed.

Lemma name_no_at n : lang NameRegexp n → ch "@" ∉ n.
Proof. apply (chars_not name_char); vm_compute; done. Qed.
Lemma tag_no c t : c ∈ [ch ":"; ch "/"; ch "@"] → lang TagRegexp t → c ∉ t.
Proof.
  intros Hc. apply (chars_not tag_char); [vm_compute; done|].
  set_unfold in Hc. destruct_or?; simplify_eq; by vm_compute.
Qed.
Lemma digest_no_at d : lang DigestRegexp d → ch "@" ∉ d.
Proof. apply (chars_not digest_char); vm_compute; done. Qed.
Lemma name_ne n : lang NameRegexp n → n ≠ [].
Proof. intros H ->. by apply nullable_sound in H. Qed.
Lemma tag_ne t : lang TagRegexp t → t ≠ [].
Proof. intros H ->. by apply nullable_sound in H. Qed.
Lemma digest_ne d : lang DigestRegexp d → d ≠ [].
Proof. intros H ->. by apply nullable_sound in H. Qed.

(** A colon of a name belongs to its host, so a slash follows it. *)
Lemma name_colon_slash a b : lang NameRegexp (a ++ ch ":" :: b) → ch "/" ∈ b.
Proof.
  intros H. apply lang_Seq in H as (u & v & Heq & Hu & Hv).
  assert (Hv' : ch ":" ∉ v) by (revert Hv; apply (chars_not component_char); by vm_compute).
  apply lang_Opt in Hu as [Hu| ->].
  - cbn [expression] in Hu. apply lang_Seq in Hu as (h & sl & -> & _ & Hsl).
    apply lang_Lit in Hsl as ->. rewrite <-(assoc_L (++)) in Heq. simpl in Heq.
    assert (Hv2 : ch ":" ∉ ch "/" :: v) by set_solver.
    apply app_eq_inv in Heq as [(k & -> & Hk)|(k & -> & Hk)].
    + exfalso. apply Hv2. rewrite Hk. set_solver.
    + destruct k as [|x k]; simplify_eq/=; set_solver.
  - simpl in Heq. exfalso. apply Hv'. rewrite <-Heq. set_solver.
Qed.
End charsets.

(** ** The grammar is unambiguous *)

Section grammar.
Import DistRef.

(** A reference as written: a name, an optional tag, an optional digest. *)
Definition show (n : gostring) (ot od : option gostring) : gostring :=
  (n ++ from_option (fun t => ":" ++ t) [] ot) ++ from_option (fun d => "@" ++ d) [] od.
Definition parts (n : gostring) (ot od : option gostring) : Prop :=
  lang NameRegexp n ∧ (∀ t, ot = Some t → lang TagRegexp t) ∧ (∀ d, od = Some d → lang DigestRegexp d).

Lemma app_sep_inj c (x y u v : gostring) :
  c ∉ x → c ∉ u → x ++ c :: y = u ++ c :: v → x = u ∧ y = v.
Proof.
  intros Hx Hu H. pose proof (Cut_char_app c x y Hx) as H1.
  rewrite H, Cut_char_app in H1 by done. by simplify_eq.
Qed.

Lemma parts_no_at n ot od : parts n ot od → ch "@" ∉ n ++ from_option (fun t => ":" ++ t) [] ot.
Proof.
  intros (Hn & Ht & _). apply not_elem_of_app. split; [by apply name_no_at|].
  destruct ot as [t|]; simpl; [|set_solver].
  specialize (Ht t eq_refl). apply (tag_no "@") in Ht; set_solver.
Qed.

(** A name followed by a tag is never a name. *)
Lemma name_tag_not_name n t : lang TagRegexp t → ¬ lang NameRegexp (n ++ ch ":" :: t).
Proof. intros Ht Hn%name_colon_slash. apply (tag_no "/") in Ht; set_solver. Qed.

Lemma name_tag_inj n1 ot1 od1 n2 ot2 od2 :
  parts n1 ot1 od1 → parts n2 ot2 od2 →
  n1 ++ from_option (fun t => ":" ++ t) [] ot1 = n2 ++ from_option (fun t => ":" ++ t) [] ot2 →
  n1 = n2 ∧ ot1 = ot2.
Proof.
  intros (Hn1 & Ht1 & _) (Hn2 & Ht2 & _) H.
  destruct ot1 as [t1|], ot2 as [t2|]; simpl in *; rewrite ?app_nil_r in H.
  - specialize (Ht1 t1 eq_refl). specialize (Ht2 t2 eq_refl).
    apply (f_equal (@rev ascii)) in H. rewrite !rev_app_distr in H. simpl in H.
    rewrite <-!(assoc_L (++)) in H. simpl in H.
    apply app_sep_inj in H as [Ht Hn].
    + apply (f_equal (@rev ascii)) in Ht, Hn. rewrite !rev_involutive in Ht, Hn. by subst.
    + rewrite list_elem_of_In, <-in_rev, <-list_elem_of_In. apply tag_no; [set_solver|done].
    + rewrite list_elem_of_In, <-in_rev, <-list_elem_of_In. apply tag_no; [set_solver|done].
  - subst n2. by apply name_tag_not_name in Hn2; eauto.
  - subst n1. by apply name_tag_not_name in Hn1; eauto.
  - by subst.
Qed.

Lemma show_inj n1 ot1 od1 n2 ot2 od2 :
  parts n1 ot1 od1 → parts n2 ot2 od2 → show n1 ot1 od1 = show n2 ot2 od2 →
  n1 = n2 ∧ ot1 = ot2 ∧ od1 = od2.
Proof.
  intros H1 H2 H. pose proof (parts_no_at _ _ _ H1) as A1. pose proof (parts_no_at _ _ _ H2) as A2.
  unfold show in H. simpl in A1, A2. destruct od1 as [d1|], od2 as [d2|]; simpl in H; rewrite ?app_nil_r in H.
  - apply app_sep_inj in H as [H ->]; [|done..].
    by destruct (name_tag_inj _ _ _ _ _ _ H1 H2 H) as [-> ->].
  - rewrite <-H in A2. set_solver.
  - rewrite H in A1. set_solver.
  - by destruct (name_tag_inj _ _ _ _ _ _ H1 H2 H) as [-> ->].
Qed.

Lemma NameRegexp_nocap : nocap NameRegexp = true.
Proof. done. Qed.

Lemma langc_Opt_inv r u c c' : langc (Opt r) u c c' → langc r u c c' ∨ (u = [] ∧ c' = c).
Proof. inversion 1; subst; [by left|]. right. match goal with H : langc Eps _ _ _ |- _ => by inversion H end. Qed.
Lemma langc_Lit l u c c' : langc (Lit l) u c c' → u = l ∧ c' = c.
Proof.
  intros H. split; [by apply langc_lang, lang_Lit in H|].
  apply langc_nocap in H; [done|]. clear. induction l as [|x [|y l] IH]; simpl in *; done.
Qed.
Lemma langc_Cap_inv i r u c c' :
  langc (Cap i r) u c c' → nocap r = true → lang r u ∧ c' = <[i := u]> c.
Proof.
  intros H Hn. inversion H as [| | | | | | |? ? ? ? c1 H1]; subst.
  split; [by eapply langc_lang|]. by apply langc_nocap in H1 as ->.
Qed.
Lemma langc_Seq_inv a b u c c' :
  langc (Seq a b) u c c' → ∃ u1 u2 c1, u = u1 ++ u2 ∧ langc a u1 c c1 ∧ langc b u2 c1 c'.
Proof. inversion 1; subst. eauto 10. Qed.

(** A captured optional suffix: either the group is set to what follows the
    literal or nothing is consumed. *)
Lemma langc_optional_capture l i r u c c' :
  langc (optional [Lit l; capture i [r]]) u c c' → nocap r = true →
  (∃ t, u = l ++ t ∧ lang r t ∧ c' = <[i := t]> c) ∨ (u = [] ∧ c' = c).
Proof.
  intros H Hn. apply langc_Opt_inv in H as [H|[-> ->]]; [left|by right].
  cbn [expression] in H. apply langc_Seq_inv in H as (u1 & u2 & c1 & -> & H1 & H2).
  apply langc_Lit in H1 as [-> ->]. apply langc_Cap_inv in H2 as [H2 ->]; eauto.
Qed.

Lemma FullMatch_parts s c :
  FullMatch ReferenceRegexp s = Some c →
  ∃ n ot od, parts n ot od ∧ s = show n ot od ∧
    group c 1 = n ∧ group c 2 = default [] ot ∧ group c 3 = default [] od.
Proof.
  intros H%FullMatch_langc. unfold ReferenceRegexp in H. cbn [expression] in H.
  apply langc_Seq_inv in H as (n & u1 & c1 & -> & H1 & H).
  apply langc_Cap_inv in H1 as [Hn ->]; [|done].
  apply langc_Seq_inv in H as (u2 & u3 & c2 & -> & H2 & H3).
  apply langc_optional_capture in H2; [|done]. apply langc_optional_capture in H3; [|done].
  destruct H2 as [(t & -> & Ht & ->)|[-> ->]], H3 as [(d & -> & Hd & ->)|[-> ->]].
  - exists n, (Some t), (Some d). unfold parts, show, group. simplify_map_eq/=.
    rewrite <-!(assoc_L (++)). split_and!; intros; simplify_eq; done.
  - exists n, (Some t), None. unfold parts, show, group. simplify_map_eq/=.
    rewrite <-!(assoc_L (++)). split_and!; intros; simplify_eq; done.
  - exists n, None, (Some d). unfold parts, show, group. simplify_map_eq/=.
    rewrite app_nil_r. split_and!; intros; simplify_eq; done.
  - exists n, None, None. unfold parts, show, group. simplify_map_eq/=. rewrite !app_nil_r. split_and!; intros; simplify_eq; done.
Qed.

Lemma lang_optional_capture l i r (o : option gostring) :
  (∀ t, o = Some t → lang r t) →
  lang (optional [Lit l; capture i [r]]) (from_option (fun t => l ++ t) [] o).
Proof.
  intros H. unfold optional. rewrite lang_Opt. destruct o as [t|]; [left|by right].
  cbn [expression capture]. rewrite lang_Seq. exists l, t.
  split_and!; [done|by apply lang_Lit|]. constructor. by apply H.
Qed.

Lemma lang_show n ot od : parts n ot od → lang ReferenceRegexp (show n ot od).
Proof.
  intros (Hn & Ht & Hd). unfold show, ReferenceRegexp. cbn [expression].
  rewrite <-(assoc_L (++)). constructor; [by constructor|].
  constructor; by apply lang_optional_capture.
Qed.

(** The captures of a match are the parts. *)
Lemma FullMatch_show n ot od :
  parts n ot od → ∃ c, FullMatch ReferenceRegexp (show n ot od) = Some c ∧
    group c 1 = n ∧ group c 2 = default [] ot ∧ group c 3 = default [] od.
Proof.
  intros Hp. destruct (proj2 (FullMatch_is_Some _ _) (lang_show _ _ _ Hp)) as [c Hc].
  exists c. split; [done|]. apply FullMatch_parts in Hc as (n' & ot' & od' & Hp' & Hs & Hg).
  destruct (show_inj _ _ _ _ _ _ Hp Hp' Hs) as (-> & -> & ->). done.
Qed.

(** What the distribution parser returns on a written reference. *)
Definition best_type (n : gostring) (ot od : option gostring) : DistRef.Reference :=
  match ot, od with
  | None, None => Repository n
  | Some t, None => TaggedReference n t
  | None, Some d => CanonicalReference n d
  | Some t, Some d => FullReference n t d
  end.

Lemma getBest_parts n ot od :
  parts n ot od → getBestReferenceType n (default [] ot) (default [] od) = Some (best_type n ot od).
Proof.
  intros (Hn & Ht & Hd). unfold getBestReferenceType.
  rewrite decide_False by by apply name_ne.
  destruct ot as [t|], od as [d|]; simpl;
    rewrite ?(decide_False (P := t = [])) by (by apply tag_ne, Ht);
    rewrite ?(decide_False (P := d = [])) by (by apply digest_ne, Hd); done.
Qed.

Lemma Parse_show n ot od :
  parts n ot od → length n ≤ NameTotalLengthMax → (∀ d, od = Some d → Validate d = Ok tt) →
  Parse (show n ot od) = Ok (best_type n ot od).
Proof.
  intros Hp Hlen Hv. destruct (FullMatch_show _ _ _ Hp) as (c & Hc & H1 & H2 & H3).
  unfold Parse. rewrite Hc, H1, H2, H3. rewrite (proj2 (Nat.ltb_ge _ _)) by done.
  pose proof (getBest_parts _ _ _ Hp) as Hb.
  destruct od as [d|]; simpl in *.
  - rewrite decide_False by (apply digest_ne, Hp; done).
    unfold ParseDigest. rewrite Hv by done. simpl. by rewrite Hb.
  - rewrite Hb. done.
Qed.

Lemma Parse_Ok s r :
  Parse s = Ok r → ∃ n ot od, parts n ot od ∧ s = show n ot od ∧ r = best_type n ot od ∧
    length n ≤ NameTotalLengthMax ∧ (∀ d, od = Some d → Validate d = Ok tt).
Proof.
  unfold Parse. destruct (FullMatch _ s) as [c|] eqn:Hc; [|by case_decide].
  apply FullMatch_parts in Hc as (n & ot & od & Hp & -> & -> & -> & ->).
  case_match eqn:Hlen; [done|]. apply Nat.ltb_ge in Hlen. intros H. inv_ok.
  assert (x = default [] od ∧ ∀ d, od = Some d → Validate d = Ok tt) as [-> Hv].
  { destruct od as [d|]; simpl in *.
    - rewrite decide_False in H by (apply digest_ne, Hp; done).
      unfold ParseDigest in H. inv_ok. destruct x0. split; [done|]. by intros ? [= <-].
    - by simplify_eq. }
  rewrite getBest_parts in H0 by done. simplify_eq. eauto 10.
Qed.

(** The two name expressions accept the same names. *)
Lemma anchoredName_lang n : lang anchoredNameRegexp n ↔ lang NameRegexp n.
Proof.
  unfold anchoredNameRegexp, NameRegexp, capture, optional. cbn [expression].
  rewrite !lang_Seq. setoid_rewrite lang_Cap. setoid_rewrite lang_Opt.
  setoid_rewrite lang_Seq. setoid_rewrite lang_Cap. done.
Qed.
End grammar.

(** ** Hostnames and normalisation *)

Definition hostlike (h : gostring) : bool := ContainsAny h ".:" || (h =s "localhost").
Definition with_library (r : gostring) : gostring :=
  if ContainsRune r "/" then r else DefaultRepoPrefix ++ r.

(** Names whose remote part is read back as it is written: either an official
    image, or a path whose first component is not itself a hostname. *)
Definition plain_remote (r : gostring) : bool :=
  match Cut "/" r with
  | Some (first, rest) => if first =s "library" then negb (ContainsRune rest "/") else negb (hostlike first)
  | None => false
  end.

Lemma splitHostname_eq n :
  splitHostname n =
  match Cut "/" n with
  | Some (host, rest) =>
      if hostlike host then
        if (host =s DefaultHostname) || (host =s LegacyDefaultHostname)
        then (DefaultHostname, with_library rest) else (host, rest)
      else (DefaultHostname, with_library n)
  | None => (DefaultHostname, with_library n)
  end.
Proof.
  unfold splitHostname, with_library, hostlike.
  destruct (Cut "/" n) as [[host rest]|]; [|by destruct (ContainsRune n "/")].
  rewrite <-negb_orb. destruct (ContainsAny host ".:" || (host =s "localhost")) eqn:Eh; simpl;
    [|by destruct (ContainsRune n "/")].
  destruct (host =s LegacyDefaultHostname) eqn:El; simpl.
  - rewrite orb_true_r. by destruct (ContainsRune rest "/").
  - rewrite orb_false_r. destruct (host =s DefaultHostname) eqn:Ed; simpl; [|done].
    apply bool_decide_eq_true in Ed as ->. by destruct (ContainsRune rest "/").
Qed.

Lemma with_library_slash r : ch "/" ∈ with_library r.
Proof. unfold with_library, ContainsRune. case_bool_decide; [done|]. set_solver. Qed.

(** The hostname found is a hostname, has no slash, and is never the legacy one;
    under the default hostname the remote name has a slash. *)
Lemma splitHostname_shape n h r :
  splitHostname n = (h, r) →
  hostlike h = true ∧ ch "/" ∉ h ∧ h ≠ LegacyDefaultHostname ∧ (h = DefaultHostname → ch "/" ∈ r).
Proof.
  assert (Hd : hostlike DefaultHostname = true ∧ ch "/" ∉ DefaultHostname ∧
    DefaultHostname ≠ LegacyDefaultHostname) by (split_and!; [done|set_solver|done]).
  rewrite splitHostname_eq. destruct (Cut "/" n) as [[host rest]|] eqn:E.
  2: { intros [= <- <-]. naive_solver eauto using with_library_slash. }
  apply Cut_char_Some in E as [-> Hslash]. destruct (hostlike host) eqn:Eh.
  2: { intros [= <- <-]. naive_solver eauto using with_library_slash. }
  destruct ((host =s DefaultHostname) || (host =s LegacyDefaultHostname)) eqn:Ed; intros [= <- <-].
  - naive_solver eauto using with_library_slash.
  - str_bool. naive_solver.
Qed.

Lemma splitHostname_join n h r :
  splitHostname n = (h, r) → splitHostname (h ++ "/" ++ r) = (h, r).
Proof.
  intros (Hh & Hs & Hl & Hr)%splitHostname_shape. rewrite splitHostname_eq.
  simpl. rewrite Cut_char_app by done. rewrite Hh.
  rewrite (bool_decide_eq_false_2 (h = LegacyDefaultHostname) Hl : (h =s LegacyDefaultHostname) = false).
  rewrite orb_false_r. destruct (h =s DefaultHostname) eqn:Ed; [|done].
  apply bool_decide_eq_true in Ed as ->. unfold with_library, ContainsRune.
  by rewrite bool_decide_eq_true_2 by auto.
Qed.

Lemma plain_remote_shape r :
  plain_remote r = true →
  (∃ x, r = DefaultRepoPrefix ++ x ∧ ch "/" ∉ x) ∨
  (HasPrefix r DefaultRepoPrefix = false ∧ ∃ f rest, Cut "/" r = Some (f, rest) ∧ hostlike f = false).
Proof.
  unfold plain_remote. destruct (Cut "/" r) as [[f rest]|] eqn:E; [|done].
  pose proof E as E'. apply Cut_char_Some in E as [-> Hf].
  destruct (f =s "library") eqn:El; intros Hp.
  - apply bool_decide_eq_true in El as ->. left. exists rest. split; [done|].
    unfold ContainsRune in Hp. by apply negb_true_iff, bool_decide_eq_false in Hp.
  - right. split; [|by exists f, rest; rewrite negb_true_iff in Hp].
    apply not_true_iff_false. intros [t Ht]%HasPrefix_spec.
    change (f ++ ch "/" :: rest = "library" ++ ch "/" :: t) in Ht.
    apply app_sep_inj in Ht as [-> _]; [done|done|set_solver].
Qed.

Lemma plain_remote_read r :
  plain_remote r = true →
  splitHostname (if HasPrefix r DefaultRepoPrefix then TrimPrefix r DefaultRepoPrefix else r)
  = (DefaultHostname, r).
Proof.
  intros [(x & -> & Hx)|(-> & f & rest & E & Hf)]%plain_remote_shape; rewrite splitHostname_eq.
  - rewrite (proj2 (HasPrefix_spec _ _)) by eauto. rewrite TrimPrefix_app.
    rewrite (proj2 (Cut_char_None _ _) Hx). unfold with_library, ContainsRune.
    by rewrite bool_decide_eq_false_2.
  - rewrite E, Hf. apply Cut_char_Some in E as [-> _]. unfold with_library, ContainsRune.
    by rewrite bool_decide_eq_true_2 by set_solver.
Qed.

Lemma normalize_splitHostname n h r :
  splitHostname n = (h, r) → (h = DefaultHostname → plain_remote r = true) →
  splitHostname (normalize n) = (h, r).
Proof.
  intros E Hp. unfold normalize. rewrite E.
  destruct (h =s DefaultHostname) eqn:Ed; [|done].
  apply bool_decide_eq_true in Ed as ->. by rewrite plain_remote_read by auto.
Qed.

(** ** Constructors *)

Lemma WithName_Ok n r : WithName n = Ok r ↔ r = namedRef (normalize n) ∧ wf_name (normalize n).
Proof.
  unfold WithName, wf_name, validateName, DistRef.WithName.
  rewrite <-anchoredName_lang, <-MatchString_lang.
  destruct (ValidateID (normalize n)) eqn:Ev; simpl; [naive_solver|].
  destruct (Nat.ltb_spec DistRef.NameTotalLengthMax (length (normalize n))); simpl.
  { split; [done|]. intros [_ (_ & ? & _)]. lia. }
  destruct (MatchString DistRef.anchoredNameRegexp (normalize n)); naive_solver.
Qed.

Lemma WithTag_Ok r t r' : WithTag r t = Ok r' ↔ r' = taggedRef (Name r) t ∧ lang DistRef.TagRegexp t.
Proof.
  unfold WithTag, DistRef.WithTag. rewrite <-MatchString_lang.
  destruct (MatchString DistRef.TagRegexp t); naive_solver.
Qed.
Lemma WithDigest_Ok r d r' :
  WithDigest r d = Ok r' ↔ r' = canonicalRef (Name r) d ∧ lang DistRef.DigestRegexp d.
Proof.
  unfold WithDigest, DistRef.WithDigest. rewrite <-MatchString_lang.
  destruct (MatchString DistRef.DigestRegexp d); naive_solver.
Qed.

Lemma DefaultTag_valid : lang DistRef.TagRegexp DefaultTag.
Proof. apply MatchString_lang. by vm_compute. Qed.

Lemma WithDefaultTag_eq r :
  WithDefaultTag r = match r with namedRef n => taggedRef n DefaultTag | _ => r end.
Proof.
  unfold WithDefaultTag. destruct r; simpl; [|done..].
  destruct (WithTag (namedRef name) DefaultTag) as [r'|e] eqn:E.
  - by apply WithTag_Ok in E as [-> _].
  - exfalso. assert (WithTag (namedRef name) DefaultTag = Ok (taggedRef name DefaultTag)) as E'
      by (apply WithTag_Ok; auto using DefaultTag_valid). congruence.
Qed.

(** The written form of a reference. *)
Definition named_parts (r : Named) : gostring * option gostring * option gostring :=
  match r with
  | namedRef n => (n, None, None)
  | taggedRef n t => (n, Some t, None)
  | canonicalRef n d => (n, None, Some d)
  end.
Lemma String_show r : String r = (let '(n, ot, od) := named_parts r in show n ot od).
Proof. destruct r; unfold show; simpl; by rewrite ?app_nil_r. Qed.

Lemma wf_parts r :
  wf r → let '(n, ot, od) := named_parts r in
  parts n ot od ∧ length n ≤ DistRef.NameTotalLengthMax ∧ (∀ d, od = Some d → DistRef.Validate d = Ok tt).
Proof.
  intros [(Hn & Hl & Hx) Hr]. destruct r; simpl in *; unfold parts.
  - split_and!; naive_solver.
  - split_and!; naive_solver.
  - destruct Hr as [Hd Hv]. destruct (DistRef.Validate digest) as [[]|] eqn:Ev; [|done].
    split_and!; naive_solver.
Qed.

Lemma String_inj r1 r2 : wf r1 → wf r2 → String r1 = String r2 → r1 = r2.
Proof.
  intros H1%wf_parts H2%wf_parts. rewrite !String_show.
  destruct (named_parts r1) as [[n1 ot1] od1] eqn:E1, (named_parts r2) as [[n2 ot2] od2] eqn:E2.
  destruct H1 as [H1 _], H2 as [H2 _]. intros H.
  destruct (show_inj _ _ _ _ _ _ H1 H2 H) as (-> & -> & ->).
  destruct r1, r2; naive_solver.
Qed.

Example parse_ubuntu : ParseNamed "ubuntu:14.04" = Ok (taggedRef "ubuntu" "14.04").
Proof. vm_compute. reflexivity. Qed.
Example parse_port : ParseNamed "127.0.0.1:5000/docker/docker" = Ok (namedRef "127.0.0.1:5000/docker/docker").
Proof. vm_compute. reflexivity. Qed.
Example parse_lib : ParseNamed "index.docker.io/library/debian" = Ok (namedRef "debian").
Proof. vm_compute. reflexivity. Qed.
Example parse_bad : ParseNamed "docker.io/docker///docker" = Err (ErrInvalidRepositoryTag "docker.io/docker///docker").
Proof. vm_compute. reflexivity. Qed.

(** ** Properties *)

(** Printing and parsing, as a lemma for the stores. *)
Lemma ParseNamed_show r :
  wf r → normalize (Name r) = Name r → ParseNamed (String r) = Ok r.
Proof.
  intros Hwf Hn. pose proof (wf_parts r Hwf) as Hp. destruct Hwf as [Hname Hr].
  rewrite String_show. unfold ParseNamed.
  destruct r as [n|n t|n d]; simpl in *; destruct Hp as (Hp & Hl & Hv);
    rewrite Parse_show by done; simpl.
  - apply WithName_Ok. by rewrite Hn.
  - rewrite (proj2 (WithName_Ok n (namedRef n))) by (by rewrite Hn). simpl. by apply WithTag_Ok.
  - rewrite (proj2 (WithName_Ok n (namedRef n))) by (by rewrite Hn). simpl.
    apply WithDigest_Ok. naive_solver.
Qed.

(** C31: a well-formed reference whose name is normalised survives printing and
    parsing: [ParseNamed(r.String())] returns [r], for bare, tagged and
    canonical references alike. *)
Theorem ParseNamed_String r :
  wf r → normalize (Name r) = Name r → ParseNamed (String r) = Ok r.
Proof. intros Hwf Hn. by apply ParseNamed_show. Qed.

Lemma ParseNamed_String_witness :
  ParseNamed (String (taggedRef "127.0.0.1:5000/docker/app" "v1.2")) =
  Ok (taggedRef "127.0.0.1:5000/docker/app" "v1.2").
Proof.
  apply (ParseNamed_String (taggedRef "127.0.0.1:5000/docker/app" "v1.2")).
  - split; [split_and!|].
    + apply MatchString_lang. vm_compute. reflexivity.
    + vm_compute. lia.
    + vm_compute. reflexivity.
    + apply MatchString_lang. vm_compute. reflexivity.
  - vm_compute. reflexivity.
Defined.

Lemma ParseNamed_sound s r :
  ParseNamed s = Ok r →
  wf r ∧ ∃ n ot od, s = show n ot od ∧ parts n ot od ∧ Name r = normalize n.
Proof.
  unfold ParseNamed. destruct (DistRef.Parse s) as [m|] eqn:E; [|done].
  apply Parse_Ok in E as (n & ot & od & Hp & -> & -> & Hl & Hv).
  assert (∀ r, wf r ∧ Name r = normalize n →
    wf r ∧ ∃ n0 ot0 od0, show n ot od = show n0 ot0 od0 ∧ parts n0 ot0 od0 ∧ Name r = normalize n0)
    as Hgoal by naive_solver.
  intros H. apply Hgoal. clear Hgoal. unfold wf.
  destruct ot as [t|], od as [d|]; simpl in H; inv_ok.
  - apply WithName_Ok in H as [-> Hw]. apply WithDigest_Ok in H0 as [-> Hd]. simpl.
    rewrite (Hv d eq_refl). done.
  - apply WithName_Ok in H as [-> Hw]. by apply WithTag_Ok in H0 as [-> Ht].
  - apply WithName_Ok in H as [-> Hw]. apply WithDigest_Ok in H0 as [-> Hd]. simpl.
    rewrite (Hv d eq_refl). done.
  - by apply WithName_Ok in H as [-> Hw].
Qed.

(** What a repository is stored as, by the way it was written.  A name starts with a
    hostname if its first component has a dot or a colon or is [localhost].  The hostnames
    of the default registry are dropped, and behind them, or where there is none, one
    [library/] is; every other name stays as it is. *)
Definition no_host (x : gostring) : Prop := ∀ h p, ch "/" ∉ h → x = h ++ "/" ++ p → hostlike h = false.
Definition default_prefix (q : gostring) : Prop := q = [] ∨ q = DefaultHostname ++ "/" ∨ q = LegacyDefaultHostname ++ "/".
Inductive stored_as : gostring → gostring → Prop :=
| stored_elsewhere h p : hostlike h = true → ch "/" ∉ h → h ≠ DefaultHostname → h ≠ LegacyDefaultHostname → stored_as (h ++ "/" ++ p) (h ++ "/" ++ p)
| stored_official q x : default_prefix q → stored_as (q ++ DefaultRepoPrefix ++ x) x
| stored_default q x : default_prefix q → HasPrefix x DefaultRepoPrefix = false → (q = [] → no_host x) → stored_as (q ++ x) x.
(** A reference with a tag or a digest; the digest is what counts. *)
Definition with_parts (n : gostring) (ot od : option gostring) : Named :=
  match od, ot with Some d, _ => canonicalRef n d | None, Some t => taggedRef n t | None, None => namedRef n end.

Definition strip_library (x : gostring) : gostring := if HasPrefix x DefaultRepoPrefix then TrimPrefix x DefaultRepoPrefix else x.
Lemma strip_official x : strip_library (DefaultRepoPrefix ++ x) = x.
Proof. unfold strip_library. by rewrite (proj2 (HasPrefix_spec _ _)), TrimPrefix_app by eauto. Qed.
Lemma strip_with_library x : strip_library (with_library x) = strip_library x.
Proof.
  unfold with_library, ContainsRune. case_bool_decide as Hs; [done|]. rewrite strip_official. unfold strip_library.
  destruct (HasPrefix x DefaultRepoPrefix) eqn:E; [|done]. apply HasPrefix_spec in E as [t ->]. exfalso. apply Hs. apply elem_of_app. left. set_solver.
Qed.
Lemma normalize_eq n : normalize n =
  match Cut "/" n with
  | Some (h, p) => if hostlike h then if (h =s DefaultHostname) || (h =s LegacyDefaultHostname) then strip_library p else n else strip_library n
  | None => strip_library n
  end.
Proof.
  unfold normalize. rewrite splitHostname_eq. change (if HasPrefix ?x DefaultRepoPrefix then TrimPrefix ?x DefaultRepoPrefix else ?x) with (strip_library x).
  destruct (Cut "/" n) as [[h p]|]; [|apply strip_with_library]. destruct (hostlike h); [|apply strip_with_library].
  destruct (h =s DefaultHostname) eqn:Ed; simpl orb; cbn iota; [apply strip_with_library|].
  destruct (h =s LegacyDefaultHostname); [apply strip_with_library|]. by rewrite Ed.
Qed.
Lemma strip_stored q x : default_prefix q → (q = [] → no_host x) → stored_as (q ++ x) (strip_library x).
Proof.
  intros Hq Hx. unfold strip_library. destruct (HasPrefix x DefaultRepoPrefix) eqn:E; [|by apply stored_default].
  apply HasPrefix_spec in E as [t ->]. rewrite TrimPrefix_app. by apply stored_official.
Qed.
Lemma normalize_stored n : stored_as n (normalize n).
Proof.
  rewrite normalize_eq. destruct (Cut "/" n) as [[h p]|] eqn:E.
  2: { apply (strip_stored []); [by left|]. intros _ h p Hh ->. simpl in E. by rewrite Cut_char_app in E. }
  apply Cut_char_Some in E as [-> Hs]. destruct (hostlike h) eqn:Eh.
  2: { apply (strip_stored []); [by left|]. intros _ h' p' Hh' Heq. by apply app_sep_inj in Heq as [<- _]. }
  destruct ((h =s DefaultHostname) || (h =s LegacyDefaultHostname)) eqn:Ed.
  - change (h ++ ch "/" :: p) with (h ++ ["/"%char] ++ p). rewrite (assoc_L app). apply strip_stored; [|by destruct h].
    apply orb_true_iff in Ed as [->%bool_decide_eq_true| ->%bool_decide_eq_true]; [by right; left|by right; right].
  - apply orb_false_iff in Ed as [H1%bool_decide_eq_false H2%bool_decide_eq_false]. by apply stored_elsewhere.
Qed.
Lemma stored_normalize n x : stored_as n x → normalize n = x.
Proof.
  assert (Hd : ∀ q m, default_prefix q → (q = [] → no_host m) → normalize (q ++ m) = strip_library m).
  { intros q m [->|Hq] Hm; rewrite normalize_eq.
    - simpl app. destruct (Cut "/" m) as [[h p]|] eqn:E; [|done]. apply Cut_char_Some in E as [-> Hs]. by rewrite (Hm eq_refl h p).
    - destruct Hq as [->| ->]; done. }
  destruct 1 as [h p Hh Hs H1 H2|q x Hq|q x Hq Hx Hn].
  - rewrite normalize_eq. simpl. rewrite Cut_char_app by done. rewrite Hh. by rewrite !streqb_ne by done.
  - rewrite Hd; [apply strip_official|done|]. intros -> h p Hh Heq. change ("library" ++ ch "/" :: x = h ++ ch "/" :: p) in Heq. apply app_sep_inj in Heq as [<- _]; [done|set_solver|done].
  - rewrite Hd by done. unfold strip_library. by rewrite Hx.
Qed.

(** C30: [ParseNamed] accepts exactly the texts of a name with an optional tag and an
    optional digest (of the grammar, the name not longer than 255 bytes, the digest valid
    and of a supported algorithm) whose stored name is a name of the grammar, not longer
    either and not 64 hexadecimal digits; and it returns this name, without the default
    registry and without one [library/] behind it, with the digest that was written, or
    else the tag. *)
Theorem ParseNamed_exact s r :
  ParseNamed s = Ok r ↔ ∃ n ot od n', s = show n ot od ∧ parts n ot od ∧ length n ≤ DistRef.NameTotalLengthMax ∧ (∀ d, od = Some d → DistRef.Validate d = Ok tt) ∧
    stored_as n n' ∧ wf_name n' ∧ r = with_parts n' ot od.
Proof.
  unfold ParseNamed. split.
  - destruct (DistRef.Parse s) as [m|] eqn:E; [|done]. apply Parse_Ok in E as (n & ot & od & Hp & -> & -> & Hl & Hv). intros H.
    exists n, ot, od, (normalize n). split_and!; [done..|apply normalize_stored| |]; destruct ot as [t|], od as [d|]; simpl in H; inv_ok;
      repeat match goal with H : WithName _ = Ok _ |- _ => apply WithName_Ok in H as [-> ?] | H : WithTag _ _ = Ok _ |- _ => apply WithTag_Ok in H as [-> ?] | H : WithDigest _ _ = Ok _ |- _ => apply WithDigest_Ok in H as [-> ?] end; done.
  - intros (n & ot & od & n' & -> & Hp & Hl & Hv & Hst & Hw & ->). apply stored_normalize in Hst as <-. rewrite Parse_show by done.
    destruct Hp as (_ & Ht & Hd). destruct ot as [t|], od as [d|]; simpl; rewrite (proj2 (WithName_Ok n (namedRef (normalize n)))) by done; simpl; [apply WithDigest_Ok|apply WithTag_Ok|apply WithDigest_Ok|done]; auto.
Qed.
Example stored_forms : Forall (fun n => normalize n = "debian") ["debian"; "library/debian"; "docker.io/debian"; "index.docker.io/library/debian"]%go.
Proof. repeat constructor. Qed.

(** [FullName] is canonical: splitting it again yields the same hostname and
    remote name, the hostname is never the legacy [index.docker.io], and names
    under the default hostname always carry a repository prefix. *)
Theorem FullName_canonical r :
  splitHostname (FullName r) = (Hostname r, RemoteName r) ∧
  Hostname r ≠ LegacyDefaultHostname ∧
  (Hostname r = DefaultHostname → ContainsRune (RemoteName r) "/" = true).
Proof.
  unfold FullName, Hostname, RemoteName.
  destruct (splitHostname (Name r)) as [h m] eqn:E. simpl.
  pose proof (splitHostname_shape _ _ _ E) as (_ & _ & Hl & Hs).
  split_and!; [by eapply splitHostname_join|done|].
  intros ->. unfold ContainsRune. rewrite bool_decide_eq_true. auto.
Qed.

(** Normalisation preserves the identity of a repository and is idempotent, as
    long as the remote part under the default registry is plain (it is
    [library/x], or its first component is not a hostname). *)
Theorem normalize_preserves n :
  ((splitHostname n).1 = DefaultHostname → plain_remote (splitHostname n).2 = true) →
  splitHostname (normalize n) = splitHostname n ∧ normalize (normalize n) = normalize n.
Proof.
  intros Hp. destruct (splitHostname n) as [h r] eqn:E. simpl in Hp.
  pose proof (normalize_splitHostname n h r E Hp) as E'. split; [done|].
  unfold normalize at 1. rewrite E'. unfold normalize. rewrite E.
  destruct (h =s DefaultHostname); [done|done].
Qed.

Lemma normalize_preserves_witness :
  splitHostname (normalize "docker.io/library/debian") = splitHostname "docker.io/library/debian" ∧
  normalize (normalize "docker.io/library/debian") = normalize "docker.io/library/debian".
Proof. apply (normalize_preserves "docker.io/library/debian"). intros _. vm_compute. reflexivity. Defined.

(** Outside that case normalisation is not a fixed point: the default
    hostname is stripped from a name whose next component reads as a hostname,
    so an accepted reference to the default registry comes back as a reference
    to another registry, and a doubled [library/] prefix is stripped twice. *)
Theorem normalize_not_fixpoint :
  (∃ r, ParseNamed "docker.io/localhost/app" = Ok r ∧
        (splitHostname "docker.io/localhost/app").1 = DefaultHostname ∧
        Hostname r = "localhost") ∧
  (∃ r r', ParseNamed "library/library/app" = Ok r ∧
           ParseNamed (String r) = Ok r' ∧ FullName r = "docker.io/library/app" ∧
           Name r = "library/app" ∧ Name r' = "app").
Proof.
  split.
  - exists (namedRef "localhost/app"). split_and!; vm_compute; reflexivity.
  - exists (namedRef "library/app"), (namedRef "app"). split_and!; vm_compute; reflexivity.
Qed.

(** [WithDefaultTag] never returns a bare name, keeps tagged and canonical
    references, gives a bare name the tag [latest], and preserves
    well-formedness. *)
Theorem WithDefaultTag_spec r :
  IsNameOnly (WithDefaultTag r) = false ∧ Name (WithDefaultTag r) = Name r ∧
  (IsNameOnly r = false → WithDefaultTag r = r) ∧
  (IsNameOnly r = true → String (WithDefaultTag r) = Name r ++ ":latest") ∧
  (wf r → wf (WithDefaultTag r)).
Proof.
  rewrite WithDefaultTag_eq. destruct r; simpl; split_and!; try done.
  intros [Hn _]. split; [done|]. apply DefaultTag_valid.
Qed.
