(* ===== verification/RefStore.v ===== *)
(** * RefStore: the tag store

    Models [src/reference/store.go]: the map of repositories, the inverse index
    [referencesByIDCache], and the JSON file both are saved to and reloaded
    from.  The file system is an argument: each save is given the outcome of
    its write-and-rename, and on success the repositories become the file's
    contents (the JSON codec is the identity on them).

    The inverse index is proved to stay exactly the inverse of the repositories
    through every operation, the store to implement a plain partial map from
    references to image IDs, and a saved store to reload to itself. *)

From S2P Require Import Prelude Regexp Reference.
Import Strings Regexp Reference.

Module RefStore.

(** [image.ID]. *)
Abbreviation ID := gostring.
(** [repository]: stringified references to image IDs.  A nil map reads as the
    empty map. *)
Abbreviation repository := (gmap gostring ID).

Record store := mkStore {
  jsonPath : gostring;
  Repositories : gmap gostring repository;
  referencesByIDCache : gmap ID (gmap gostring Named);
  (** contents of the file at [jsonPath], [None] when it does not exist *)
  disk : option (gmap gostring repository)
}.

Inductive error :=
| ErrDoesNotExist
| ErrTagWithDigest                               (* refusing to create a tag with a digest reference *)
| ErrAmbiguousName                               (* refusing to create an ambiguous tag ... *)
| ErrOverwriteDigest (digest : gostring)         (* Cannot overwrite digest %s *)
| ErrConflict (ref : gostring) (oldID : ID)      (* Conflict: Tag %s is already set to image %s *)
| ErrIO.                                         (* marshal, write, rename or open *)

(** Outcome of the file operations of one save: [true] when all succeed. *)
Definition save (io : bool) (st : store) : store * option error :=
  if io then (mkStore (jsonPath st) (Repositories st) (referencesByIDCache st)
                (Some (Repositories st)), None)
  else (st, Some ErrIO).

(** Remove [refStr] from the set of references of an image, and the image from
    the index with its last reference. *)
Definition drop_cache (id : ID) (refStr : gostring)
    (cache : gmap ID (gmap gostring Named)) : gmap ID (gmap gostring Named) :=
  match cache !! id with
  | None => cache
  | Some m =>
      let m' := delete refStr m in
      if decide (m' = ∅) then delete id cache else <[id := m']> cache
  end.

Definition add_cache (id : ID) (refStr : gostring) (ref : Named)
    (cache : gmap ID (gmap gostring Named)) : gmap ID (gmap gostring Named) :=
  <[id := <[refStr := ref]> (default ∅ (cache !! id))]> cache.

Definition addReference (io : bool) (ref : Named) (id : ID) (force : bool) (st : store)
    : store * option error :=
  if Name ref =s "sha256" then (st, Some ErrAmbiguousName)
  else
    let repository := default ∅ (Repositories st !! Name ref) in
    (* a missing repository is created before the checks *)
    let st := mkStore (jsonPath st) (<[Name ref := repository]> (Repositories st))
                (referencesByIDCache st) (disk st) in
    let refStr := String ref in
    let commit (cache : gmap ID (gmap gostring Named)) :=
      save io (mkStore (jsonPath st)
                 (<[Name ref := <[refStr := id]> repository]> (Repositories st))
                 (add_cache id refStr ref cache) (disk st)) in
    match repository !! refStr with
    | Some oldID =>
        match ref with
        | canonicalRef _ d => (st, Some (ErrOverwriteDigest d))
        | _ => if negb force then (st, Some (ErrConflict refStr oldID))
               else commit (drop_cache oldID refStr (referencesByIDCache st))
        end
    | None => commit (referencesByIDCache st)
    end.

Definition AddTag (io : bool) (ref : Named) (id : ID) (force : bool) (st : store)
    : store * option error :=
  match ref with
  | canonicalRef _ _ => (st, Some ErrTagWithDigest)
  | _ => addReference io (WithDefaultTag ref) id force st
  end.

(** The argument is a [Canonical]. *)
Definition AddDigest (io : bool) (name digest : gostring) (id : ID) (force : bool) (st : store)
    : store * option error :=
  addReference io (canonicalRef name digest) id force st.

Definition Delete (io : bool) (ref : Named) (st : store) : store * (bool * option error) :=
  let ref := WithDefaultTag ref in
  match Repositories st !! Name ref with
  | None => (st, (false, Some ErrDoesNotExist))
  | Some repository =>
      let refStr := String ref in
      match repository !! refStr with
      | None => (st, (false, Some ErrDoesNotExist))
      | Some id =>
          let repository' := delete refStr repository in
          let repos := if decide (repository' = ∅) then delete (Name ref) (Repositories st)
                       else <[Name ref := repository']> (Repositories st) in
          let '(st', err) :=
            save io (mkStore (jsonPath st) repos
                       (drop_cache id refStr (referencesByIDCache st)) (disk st)) in
          (st', (true, err))
      end
  end.

Definition Get (ref : Named) (st : store) : result error ID :=
  let ref := WithDefaultTag ref in
  match Repositories st !! Name ref with
  | None => Err ErrDoesNotExist
  | Some repository =>
      match repository !! String ref with
      | None => Err ErrDoesNotExist
      | Some id => Ok id
      end
  end.

(** [lexicalRefs] and [lexicalAssociations]. *)
Definition ref_le (a b : Named) : Prop := leb (String a) (String b) = true.
#[global] Instance ref_le_dec : RelDecision ref_le.
Proof. intros a b. unfold ref_le. apply _. Defined.
Definition assoc_le (a b : Named * ID) : Prop := ref_le a.1 b.1.
#[global] Instance assoc_le_dec : RelDecision assoc_le.
Proof. intros a b. unfold assoc_le. apply _. Defined.

Definition References (id : ID) (st : store) : list Named :=
  merge_sort ref_le (snd <$> map_to_list (default ∅ (referencesByIDCache st !! id))).

(** An unparsable key makes the whole result nil. *)
Definition ReferencesByName (ref : Named) (st : store) : list (Named * ID) :=
  match Repositories st !! Name ref with
  | None => []
  | Some repository =>
      match rmapM (fun '(refStr, refID) =>
               let! r := ParseNamed refStr in Ok (r, refID)) (map_to_list repository) with
      | Err _ => []
      | Ok assocs => merge_sort assoc_le assocs
      end
  end.

(** Loading the file: the repositories as decoded, and the index rebuilt from
    them; keys that do not parse are skipped. *)
Definition index_entry (refStr : gostring) (refID : ID)
    (cache : gmap ID (gmap gostring Named)) : gmap ID (gmap gostring Named) :=
  match ParseNamed refStr with
  | Err _ => cache
  | Ok ref => add_cache refID refStr ref cache
  end.
Definition rebuild (repos : gmap gostring repository) (cache : gmap ID (gmap gostring Named))
    : gmap ID (gmap gostring Named) :=
  map_fold (fun _ repository cache => map_fold index_entry cache repository) cache repos.
Definition reload (st : store) : result error store :=
  match disk st with
  | None => Err ErrIO
  | Some repos => Ok (mkStore (jsonPath st) repos (rebuild repos (referencesByIDCache st)) (disk st))
  end.

Definition NewReferenceStore (io : bool) (jsonPath : gostring)
    (file : option (gmap gostring repository)) : result error store :=
  let st := mkStore jsonPath ∅ ∅ file in
  match file with
  | Some _ => reload st
  | None => match save io st with
            | (st', None) => Ok st'
            | (_, Some e) => Err e
            end
  end.

End RefStore.

Import RefStore.

(** ** The order used for listing *)

Lemma leb_refl s : leb s s = true.
Proof. induction s as [|c s IH]; simpl; [done|]. by rewrite N.ltb_irrefl. Qed.
Lemma leb_total s t : leb s t = true ∨ leb t s = true.
Proof.
  revert t. induction s as [|c s IH]; intros [|d t]; simpl; auto.
  destruct (N.ltb_spec (N_of_ascii c) (N_of_ascii d)), (N.ltb_spec (N_of_ascii d) (N_of_ascii c)); auto.
Qed.
Lemma leb_trans s t u : leb s t = true → leb t u = true → leb s u = true.
Proof.
  revert t u. induction s as [|c s IH]; intros [|d t] [|e u]; simpl; auto; [done|].
  destruct (N.ltb_spec (N_of_ascii c) (N_of_ascii d)), (N.ltb_spec (N_of_ascii d) (N_of_ascii c)),
    (N.ltb_spec (N_of_ascii d) (N_of_ascii e)), (N.ltb_spec (N_of_ascii e) (N_of_ascii d)),
    (N.ltb_spec (N_of_ascii c) (N_of_ascii e)), (N.ltb_spec (N_of_ascii e) (N_of_ascii c));
    intros; try lia; eauto.
Qed.
#[global] Instance ref_le_total : Total ref_le.
Proof. intros a b. apply leb_total. Qed.
#[global] Instance ref_le_trans : Transitive ref_le.
Proof. intros a b c. apply leb_trans. Qed.

(** ** Nested lookups *)

Section cache.
Implicit Types (cache : gmap ID (gmap gostring Named)) (id s : gostring) (r : Named).

Definition lookup2 {A} (m : gmap gostring (gmap gostring A)) (k s : gostring) : option A :=
  m !! k ≫= (.!! s).
Definition no_empty {A} (m : gmap gostring (gmap gostring A)) : Prop :=
  ∀ k x, m !! k = Some x → x ≠ ∅.

Lemma lookup2_insert {A} (m : gmap gostring (gmap gostring A)) k x k' s' :
  lookup2 (<[k := x]> m) k' s' = if decide (k = k') then x !! s' else lookup2 m k' s'.
Proof. unfold lookup2. rewrite lookup_insert. by case_decide. Qed.

Lemma lookup2_default {A} (m : gmap gostring (gmap gostring A)) k s :
  default ∅ (m !! k) !! s = lookup2 m k s.
Proof. unfold lookup2. by destruct (m !! k). Qed.

Lemma lookup2_add id s r cache id' s' :
  lookup2 (add_cache id s r cache) id' s' =
  if decide (id = id' ∧ s = s') then Some r else lookup2 cache id' s'.
Proof.
  unfold add_cache. rewrite lookup2_insert. case_decide as Hid; subst.
  - rewrite lookup_insert, lookup2_default. repeat case_decide; naive_solver.
  - rewrite decide_False by naive_solver. done.
Qed.

Lemma lookup2_drop id s cache id' s' :
  lookup2 (drop_cache id s cache) id' s' =
  if decide (id = id' ∧ s = s') then None else lookup2 cache id' s'.
Proof.
  unfold drop_cache. destruct (cache !! id) as [m|] eqn:E.
  - assert (Hm : ∀ s', m !! s' = lookup2 cache id s') by (intros; unfold lookup2; by rewrite E).
    case_decide as Hempty.
    + unfold lookup2 at 1. rewrite lookup_delete. case_decide; subst; simpl.
      * case_decide; [done|]. rewrite <-Hm. apply (f_equal (.!! s')) in Hempty.
        rewrite lookup_delete_ne, lookup_empty in Hempty; naive_solver.
      * rewrite decide_False by naive_solver. done.
    + rewrite lookup2_insert. case_decide; subst.
      * rewrite lookup_delete, Hm. repeat case_decide; naive_solver.
      * rewrite decide_False by naive_solver. done.
  - case_decide as H; [|done]. destruct H as [-> ->]. unfold lookup2. by rewrite E.
Qed.

Lemma no_empty_insert {A} (m : gmap gostring (gmap gostring A)) k x :
  no_empty m → x ≠ ∅ → no_empty (<[k := x]> m).
Proof. intros Hm Hx k' x' [[<- <-]|[_ H]]%lookup_insert_Some; [done|]. by eapply Hm. Qed.
Lemma no_empty_delete {A} (m : gmap gostring (gmap gostring A)) k : no_empty m → no_empty (delete k m).
Proof. intros Hm k' x' [_ H]%lookup_delete_Some. by eapply Hm. Qed.
Lemma no_empty_add id s r cache : no_empty cache → no_empty (add_cache id s r cache).
Proof. intros. apply no_empty_insert; [done|]. apply insert_non_empty. Qed.
Lemma no_empty_drop id s cache : no_empty cache → no_empty (drop_cache id s cache).
Proof.
  intros H. unfold drop_cache. destruct (cache !! id); [|done].
  case_decide; [by apply no_empty_delete|by apply no_empty_insert].
Qed.
End cache.

#[export] Hint Resolve no_empty_insert no_empty_delete no_empty_add no_empty_drop insert_non_empty : refstore.

(** ** The invariant *)

(** What the store keeps: well-formed references with a tag or a digest. *)
Definition stored (r : Named) : Prop := wf r ∧ IsNameOnly r = false.

(** The abstract view of a store: a partial map from references to image IDs. *)
Definition lookup_ref (st : store) (r : Named) : option ID := lookup2 (Repositories st) (Name r) (String r).

Record inv (st : store) : Prop := {
  inv_repo n s id : lookup2 (Repositories st) n s = Some id → ∃ r, stored r ∧ Name r = n ∧ String r = s;
  inv_index id s r :
    lookup2 (referencesByIDCache st) id s = Some r ↔ stored r ∧ s = String r ∧ lookup_ref st r = Some id;
  inv_repos_ne : no_empty (Repositories st);
  inv_cache_ne : no_empty (referencesByIDCache st)
}.

Lemma stored_inj r1 r2 : stored r1 → stored r2 → String r1 = String r2 → r1 = r2.
Proof. intros [? _] [? _]. by apply String_inj. Qed.

Lemma stored_WithDefaultTag r : wf r → stored (WithDefaultTag r).
Proof.
  intros Hr. rewrite WithDefaultTag_eq. destruct r; split; try done.
  destruct Hr as [Hn _]. split; [done|]. apply DefaultTag_valid.
Qed.

(** An update of the repositories and of the index at one reference keeps the
    invariant when both say the same. *)
Lemma inv_update st st' r (v : option ID) :
  inv st → stored r →
  (∀ n s, lookup2 (Repositories st') n s =
     if decide (Name r = n ∧ String r = s) then v else lookup2 (Repositories st) n s) →
  (∀ id s, lookup2 (referencesByIDCache st') id s =
     if decide (String r = s) then (if decide (v = Some id) then Some r else None)
     else lookup2 (referencesByIDCache st) id s) →
  no_empty (Repositories st') → no_empty (referencesByIDCache st') →
  inv st' ∧ ∀ r', stored r' → lookup_ref st' r' = if decide (r' = r) then v else lookup_ref st r'.
Proof.
  intros Hinv Hr Hrepo Hcache Hne1 Hne2.
  assert (Hlk : ∀ r', stored r' → lookup_ref st' r' = if decide (r' = r) then v else lookup_ref st r').
  { intros r' Hr'. unfold lookup_ref. rewrite Hrepo.
    destruct (decide (r' = r)) as [->|Hn]; [by rewrite decide_True by done|].
    rewrite decide_False; [done|]. intros [_ ?]. apply Hn. symmetry. by apply stored_inj. }
  split; [|done]. split; [| |done|done].
  - intros n s id. rewrite Hrepo. case_decide as Hd.
    + intros ->. destruct Hd as [<- <-]. eauto.
    + apply Hinv.
  - intros id s r'. rewrite Hcache. case_decide as Hs.
    + subst s. split.
      * case_decide; [|done]. intros [= <-]. rewrite Hlk, decide_True by done. done.
      * intros (Hr' & Heq & Hv). apply stored_inj in Heq; [|done..]. subst r'.
        rewrite Hlk, decide_True in Hv by done. by rewrite decide_True.
    + rewrite (inv_index _ Hinv). split; intros (Hr' & -> & Hv);
        (split_and!; [done|done|]); revert Hv; rewrite Hlk by done;
        (rewrite decide_False by (by intros ->)); done.
Qed.

Lemma index_only_old st r oldID id s :
  inv st → stored r → lookup_ref st r = Some oldID → String r = s →
  lookup2 (referencesByIDCache st) id s = if decide (id = oldID) then Some r else None.
Proof.
  intros Hinv Hr Hold <-. case_decide as Hid.
  - subst. apply (inv_index _ Hinv). done.
  - destruct (lookup2 _ id (String r)) as [r'|] eqn:E; [|done].
    apply (inv_index _ Hinv) in E as (Hr' & Heq & E).
    apply stored_inj in Heq; [|done..]. subst. congruence.
Qed.

Lemma index_none st r id s :
  inv st → stored r → lookup_ref st r = None → String r = s →
  lookup2 (referencesByIDCache st) id s = None.
Proof.
  intros Hinv Hr Hold <-. destruct (lookup2 _ id (String r)) as [r'|] eqn:E; [|done].
  apply (inv_index _ Hinv) in E as (Hr' & Heq & E).
  apply stored_inj in Heq; [|done..]. subst. congruence.
Qed.

(** ** What one operation does to the abstract map *)

Lemma addReference_noop_repo st n :
  no_empty (Repositories st) → is_Some (Repositories st !! n) →
  <[n := default ∅ (Repositories st !! n)]> (Repositories st) = Repositories st.
Proof. intros _ [m E]. rewrite E. by apply insert_id. Qed.

(** The commit branch: the reference now maps to [id]. *)
Lemma commit_spec st st' ref id cache d :
  inv st → stored ref →
  (∀ i s, lookup2 cache i s =
     if decide (String ref = s) then None else lookup2 (referencesByIDCache st) i s) →
  no_empty cache →
  st' = mkStore (jsonPath st)
          (<[Name ref := <[String ref := id]> (default ∅ (Repositories st !! Name ref))]> (Repositories st))
          (add_cache id (String ref) ref cache) d →
  inv st' ∧ ∀ r, stored r → lookup_ref st' r = if decide (r = ref) then Some id else lookup_ref st r.
Proof.
  intros Hinv Hr Hc Hne ->. apply inv_update; simpl; [done|done| | | |].
  - intros n s. rewrite lookup2_insert. destruct (decide (Name ref = n)) as [<-|Hn].
    + rewrite lookup_insert, lookup2_default. repeat case_decide; naive_solver.
    + rewrite decide_False by naive_solver. done.
  - intros i s. rewrite lookup2_add, Hc. repeat case_decide; naive_solver.
  - apply no_empty_insert; [apply Hinv|apply insert_non_empty].
  - by apply no_empty_add.
Qed.

Lemma save_fields io st :
  Repositories (save io st).1 = Repositories st ∧
  referencesByIDCache (save io st).1 = referencesByIDCache st.
Proof. by destruct io. Qed.

Lemma inv_ext st st' :
  Repositories st' = Repositories st → referencesByIDCache st' = referencesByIDCache st →
  inv st → inv st'.
Proof. intros H1 H2 [A B C D]. split; unfold lookup_ref in *; rewrite ?H1, ?H2; done. Qed.

Lemma inv_save io st : inv st → inv (save io st).1.
Proof. destruct (save_fields io st). by apply inv_ext. Qed.

Lemma lookup_ref_save io st r : lookup_ref (save io st).1 r = lookup_ref st r.
Proof. unfold lookup_ref. by rewrite (proj1 (save_fields io st)). Qed.

(** The outcome of [addReference] as a specification: which error, if any, the
    checks give for the current binding of the reference. *)
Definition add_error (st : store) (ref : Named) (force : bool) : option error :=
  if Name ref =s "sha256" then Some ErrAmbiguousName
  else match lookup_ref st ref with
       | None => None
       | Some oldID =>
           match ref with
           | canonicalRef _ d => Some (ErrOverwriteDigest d)
           | _ => if force then None else Some (ErrConflict (String ref) oldID)
           end
       end.

Lemma add_old_cache st ref oldID i s :
  inv st → stored ref → lookup_ref st ref = Some oldID →
  lookup2 (drop_cache oldID (String ref) (referencesByIDCache st)) i s =
  if decide (String ref = s) then None else lookup2 (referencesByIDCache st) i s.
Proof.
  intros Hinv Hr Hold. rewrite lookup2_drop.
  destruct (decide (String ref = s)) as [Hs|Hs]; [|by rewrite decide_False by naive_solver].
  case_decide; [done|].
  rewrite (index_only_old st ref oldID) by done. rewrite decide_False; naive_solver.
Qed.

Lemma addReference_spec io ref id force st st' e :
  inv st → stored ref → addReference io ref id force st = (st', e) →
  inv st' ∧
  match add_error st ref force with
  | Some err => e = Some err ∧ ∀ r, lookup_ref st' r = lookup_ref st r
  | None => e = (if io then None else Some ErrIO) ∧
            ∀ r, stored r → lookup_ref st' r = if decide (r = ref) then Some id else lookup_ref st r
  end.
Proof.
  intros Hinv Hr. unfold addReference, add_error.
  destruct (Name ref =s "sha256"); [naive_solver|].
  rewrite lookup2_default. fold (lookup_ref st ref).
  destruct (lookup_ref st ref) as [oldID|] eqn:Hold.
  - assert (Hnoop : <[Name ref := default ∅ (Repositories st !! Name ref)]> (Repositories st) = Repositories st).
    { apply addReference_noop_repo; [apply Hinv|]. unfold lookup_ref, lookup2 in Hold.
      destruct (Repositories st !! Name ref); [by eexists|done]. }
    simpl. rewrite !Hnoop.
    destruct (commit_spec st _ ref id (drop_cache oldID (String ref) (referencesByIDCache st)) (disk st)
      Hinv Hr (fun i s => add_old_cache st ref oldID i s Hinv Hr Hold)
      (no_empty_drop _ _ _ (inv_cache_ne _ Hinv)) eq_refl) as [Hinv' Hlk].
    assert (Hsame : ∀ x, (mkStore (jsonPath st) (Repositories st) (referencesByIDCache st) (disk st), x) = (st', e) →
      inv st' ∧ e = x ∧ ∀ r, lookup_ref st' r = lookup_ref st r).
    { intros x [= <- <-]. split; [by apply (inv_ext st)|]. done. }
    destruct ref; simpl in *; try (by apply Hsame); (destruct force; [|by apply Hsame]);
      destruct io; cbn [negb save]; intros [= <- <-]; (split; [by refine (inv_ext _ _ _ _ Hinv')|]); (split; [done|]); exact Hlk.
  - assert (Hc : ∀ i s, lookup2 (referencesByIDCache st) i s =
      if decide (String ref = s) then None else lookup2 (referencesByIDCache st) i s).
    { intros i s. case_decide; [|done]. by apply (index_none st ref). }
    destruct (commit_spec st _ ref id (referencesByIDCache st) (disk st) Hinv Hr Hc
      (inv_cache_ne _ Hinv) eq_refl) as [Hinv' Hlk].
    simpl. rewrite insert_insert_eq.
    destruct io; cbn [negb save]; intros [= <- <-]; (split; [by refine (inv_ext _ _ _ _ Hinv')|]); (split; [done|]); exact Hlk.
Qed.

Lemma Delete_spec io ref st st' b e :
  inv st → wf ref → Delete io ref st = (st', (b, e)) →
  inv st' ∧
  match lookup_ref st (WithDefaultTag ref) with
  | None => st' = st ∧ b = false ∧ e = Some ErrDoesNotExist
  | Some _ => b = true ∧ e = (if io then None else Some ErrIO) ∧
      ∀ r, stored r → lookup_ref st' r = if decide (r = WithDefaultTag ref) then None else lookup_ref st r
  end.
Proof.
  intros Hinv Hwf. pose proof (stored_WithDefaultTag ref Hwf) as Hr. revert Hr.
  unfold Delete. generalize (WithDefaultTag ref) as rf. intros rf Hr.
  unfold lookup_ref at 1, lookup2 at 1.
  destruct (Repositories st !! Name rf) as [repo|] eqn:Erepo; simpl; [|naive_solver].
  destruct (repo !! String rf) as [id|] eqn:Eid; simpl; [|naive_solver].
  assert (Hold : lookup_ref st rf = Some id) by (unfold lookup_ref, lookup2; by rewrite Erepo).
  set (repos := if decide (delete (String rf) repo = ∅) then _ else _).
  destruct (inv_update st (mkStore (jsonPath st) repos
      (drop_cache id (String rf) (referencesByIDCache st)) (disk st)) rf None Hinv Hr)
    as [Hinv' Hlk]; simpl.
  - intros n s. unfold repos. case_decide as He.
    + unfold lookup2 at 1. rewrite lookup_delete. destruct (decide (Name rf = n)) as [<-|]; simpl.
      * case_decide; [done|]. unfold lookup2. rewrite Erepo. simpl.
        apply (f_equal (.!! s)) in He. rewrite lookup_delete_ne, lookup_empty in He; naive_solver.
      * rewrite decide_False by naive_solver. done.
    + rewrite lookup2_insert. destruct (decide (Name rf = n)) as [<-|].
      * rewrite lookup_delete. unfold lookup2. rewrite Erepo. simpl. repeat case_decide; naive_solver.
      * rewrite decide_False by naive_solver. done.
  - intros i s. rewrite (add_old_cache st rf id) by done. repeat case_decide; naive_solver.
  - unfold repos. case_decide; [apply no_empty_delete|apply no_empty_insert]; by try apply Hinv.
  - apply no_empty_drop, Hinv.
  - destruct io; simpl; intros [= <- <- <-];
      (split; [by refine (inv_ext _ _ _ _ Hinv')|]); (split_and!; [done|done|]); exact Hlk.
Qed.

(** ** Listing and reloading *)

Lemma References_spec st id :
  inv st →
  (∀ r, r ∈ References id st ↔ stored r ∧ lookup_ref st r = Some id) ∧
  NoDup (References id st) ∧ StronglySorted ref_le (References id st).
Proof.
  intros Hinv. unfold References.
  assert (Hin : ∀ s r, (s, r) ∈ map_to_list (default ∅ (referencesByIDCache st !! id)) ↔
    stored r ∧ s = String r ∧ lookup_ref st r = Some id).
  { intros s r. rewrite elem_of_map_to_list, lookup2_default. apply (inv_index _ Hinv). }
  pose proof (merge_sort_Permutation ref_le
    (snd <$> map_to_list (default ∅ (referencesByIDCache st !! id)))) as Hp.
  split_and!.
  - intros r. rewrite Hp, list_elem_of_fmap. split.
    + intros ([s r'] & -> & Hs). apply Hin in Hs. naive_solver.
    + intros [Hr Hl]. exists (String r, r). split; [done|]. by apply Hin.
  - rewrite Hp. apply NoDup_fmap_2_strong; [|apply NoDup_map_to_list].
    intros [s1 r1] [s2 r2] H1%Hin H2%Hin. simpl. naive_solver.
  - apply StronglySorted_merge_sort; apply _.
Qed.

Lemma rebuild_inner (cache : gmap ID (gmap gostring Named)) (m : repository) id s :
  lookup2 (map_fold index_entry cache m) id s =
  match m !! s, ParseNamed s with
  | Some id', Ok r => if decide (id' = id) then Some r else lookup2 cache id s
  | _, _ => lookup2 cache id s
  end.
Proof.
  revert id s. apply (map_fold_weak_ind (fun acc m => ∀ id s, lookup2 acc id s =
    match m !! s, ParseNamed s with
    | Some id', Ok r => if decide (id' = id) then Some r else lookup2 cache id s
    | _, _ => lookup2 cache id s
    end)); [done|].
  intros s0 id0 m' acc Hm IH id s. unfold index_entry.
  destruct (decide (s0 = s)) as [->|Hs].
  - rewrite lookup_insert_eq. destruct (ParseNamed s) as [r|] eqn:Es.
    + rewrite lookup2_add, IH, Hm. repeat case_decide; naive_solver.
    + rewrite IH, Hm. done.
  - rewrite lookup_insert_ne by done. destruct (ParseNamed s0) as [r|] eqn:Es; [|apply IH].
    rewrite lookup2_add, decide_False by naive_solver. apply IH.
Qed.

Lemma rebuild_spec (repos : gmap gostring repository) id s r :
  lookup2 (rebuild repos ∅) id s = Some r ↔
  ParseNamed s = Ok r ∧ ∃ n, lookup2 repos n s = Some id.
Proof.
  unfold rebuild. revert id s r. apply (map_fold_weak_ind (fun acc repos => ∀ id s r,
    lookup2 acc id s = Some r ↔ ParseNamed s = Ok r ∧ ∃ n, lookup2 repos n s = Some id)).
  - intros id s r. unfold lookup2. setoid_rewrite lookup_empty. simpl. naive_solver.
  - intros n0 m repos' acc Hn IH id s r. rewrite rebuild_inner.
    assert (Hex : (∃ n, lookup2 (<[n0:=m]> repos') n s = Some id) ↔
      m !! s = Some id ∨ ∃ n, lookup2 repos' n s = Some id).
    { setoid_rewrite lookup2_insert. split.
      - intros (n & H). case_decide; eauto.
      - intros [H|(n & H)]; [exists n0; by rewrite decide_True|].
        exists n. case_decide; [|done]. subst. unfold lookup2 in H. by rewrite Hn in H. }
    rewrite Hex. specialize (IH id s r).
    destruct (m !! s) as [id'|]; [|naive_solver].
    destruct (ParseNamed s) as [r'|]; [|naive_solver].
    case_decide; naive_solver.
Qed.

Lemma lookup2_ext {A} (m1 m2 : gmap gostring (gmap gostring A)) :
  no_empty m1 → no_empty m2 → (∀ k s, lookup2 m1 k s = lookup2 m2 k s) → m1 = m2.
Proof.
  intros H1 H2 H. apply map_eq. intros k. specialize (H k). unfold lookup2 in H.
  destruct (m1 !! k) as [x1|] eqn:E1, (m2 !! k) as [x2|] eqn:E2; simpl in H.
  - f_equal. by apply map_eq.
  - exfalso. apply (H1 k x1 E1). by apply map_eq.
  - exfalso. apply (H2 k x2 E2). by apply map_eq.
  - done.
Qed.

Lemma no_empty_rebuild (repos : gmap gostring repository) : no_empty (rebuild repos ∅).
Proof.
  unfold rebuild. apply (map_fold_weak_ind (fun acc _ => no_empty acc)).
  - intros k x. by rewrite lookup_empty.
  - intros n m repos' acc _ Hacc. apply (map_fold_weak_ind (fun acc _ => no_empty acc)); [done|].
    intros s id m' acc' _ Hacc'. unfold index_entry. destruct (ParseNamed s); auto with refstore.
Qed.

(** ** The contract: a partial map from references to image IDs *)

Inductive op :=
| OpAddTag (ref : Named) (id : ID) (force io : bool)
| OpAddDigest (name digest : gostring) (id : ID) (force io : bool)
| OpDelete (ref : Named) (io : bool)
| OpGet (ref : Named).
Inductive out :=
| OutErr (e : option error)
| OutDelete (deleted : bool) (e : option error)
| OutGet (r : result error ID).

Definition exec (st : store) (o : op) : store * out :=
  match o with
  | OpAddTag ref id force io => let '(st, e) := AddTag io ref id force st in (st, OutErr e)
  | OpAddDigest n d id force io => let '(st, e) := AddDigest io n d id force st in (st, OutErr e)
  | OpDelete ref io => let '(st, (b, e)) := Delete io ref st in (st, OutDelete b e)
  | OpGet ref => (st, OutGet (Get ref st))
  end.

(** The abstract store, with the source's error conventions and nothing else. *)
Definition view := Named → option ID.
Definition vset (f : view) (r : Named) (v : option ID) : view :=
  fun r' => if decide (r' = r) then v else f r'.
Definition io_error (io : bool) : option error := if io then None else Some ErrIO.
Definition spec_add (f : view) (ref : Named) (id : ID) (force io : bool) : view * out :=
  if Name ref =s "sha256" then (f, OutErr (Some ErrAmbiguousName))
  else match f ref, ref with
       | Some _, canonicalRef _ d => (f, OutErr (Some (ErrOverwriteDigest d)))
       | Some old, _ => if force then (vset f ref (Some id), OutErr (io_error io))
                        else (f, OutErr (Some (ErrConflict (String ref) old)))
       | None, _ => (vset f ref (Some id), OutErr (io_error io))
       end.
Definition spec_exec (f : view) (o : op) : view * out :=
  match o with
  | OpAddTag (canonicalRef _ _) _ _ _ => (f, OutErr (Some ErrTagWithDigest))
  | OpAddTag ref id force io => spec_add f (WithDefaultTag ref) id force io
  | OpAddDigest n d id force io => spec_add f (canonicalRef n d) id force io
  | OpDelete ref io =>
      match f (WithDefaultTag ref) with
      | Some _ => (vset f (WithDefaultTag ref) None, OutDelete true (io_error io))
      | None => (f, OutDelete false (Some ErrDoesNotExist))
      end
  | OpGet ref => (f, OutGet match f (WithDefaultTag ref) with
                            | Some id => Ok id
                            | None => Err ErrDoesNotExist
                            end)
  end.

(** Operations are called with references the parser built. *)
Definition op_wf (o : op) : Prop :=
  match o with
  | OpAddTag r _ _ _ | OpDelete r _ | OpGet r => wf r
  | OpAddDigest n d _ _ _ => wf (canonicalRef n d)
  end.

Fixpoint run {S} (step : S → op → S * out) (s : S) (os : list op) : S * list out :=
  match os with
  | [] => (s, [])
  | o :: os => let '(s1, x) := step s o in let '(s2, xs) := run step s1 os in (s2, x :: xs)
  end.

(** Simulation relation: the views agree on what can be stored. *)
Definition refines (st : store) (f : view) : Prop := inv st ∧ ∀ r, stored r → lookup_ref st r = f r.

Lemma Get_eq ref st :
  Get ref st = match lookup_ref st (WithDefaultTag ref) with Some id => Ok id | None => Err ErrDoesNotExist end.
Proof.
  unfold Get, lookup_ref, lookup2. destruct (Repositories st !! _); [|done]. done.
Qed.

Lemma refines_add io ref id force st f st' e :
  refines st f → stored ref → addReference io ref id force st = (st', e) →
  ∃ f', spec_add f ref id force io = (f', OutErr e) ∧ refines st' f'.
Proof.
  intros [Hinv Hf] Hr H. apply addReference_spec in H as [Hinv' H]; [|done..].
  unfold add_error in H. unfold spec_add, refines, io_error.
  rewrite (Hf ref Hr) in H. destruct (Name ref =s "sha256").
  { destruct H as [-> H]. eexists. split; [done|]. split; [done|]. intros. by rewrite H, Hf. }
  assert (Hset : (∀ r, stored r → lookup_ref st' r = if decide (r = ref) then Some id else lookup_ref st r) →
    refines st' (vset f ref (Some id))).
  { intros Hlk. split; [done|]. intros r Hr'. rewrite Hlk by done. unfold vset. by rewrite Hf. }
  assert (Hsame : (∀ r, lookup_ref st' r = lookup_ref st r) → refines st' f).
  { intros Hlk. split; [done|]. intros r Hr'. by rewrite Hlk, Hf. }
  destruct (f ref), ref, force; destruct H as [-> H]; (eexists; split; [reflexivity|]; first [exact (Hsame H)|exact (Hset H)]).
Qed.

Lemma exec_refines st f o :
  refines st f → op_wf o →
  ∃ f', spec_exec f o = (f', (exec st o).2) ∧ refines (exec st o).1 f'.
Proof.
  intros HR Ho. destruct o as [ref id force io|n d id force io|ref io|ref]; simpl in *.
  - unfold AddTag. pose proof (stored_WithDefaultTag ref Ho) as Hr.
    destruct ref as [n|n t|n d]; simpl; [| |by exists f].
    all: destruct (addReference _ _ _ _ _) as [st' e] eqn:E; by eapply refines_add.
  - unfold AddDigest. destruct (addReference _ _ _ _ _) as [st' e] eqn:E.
    eapply refines_add; [done| |done]. by split.
  - destruct (Delete io ref st) as [st' [b e]] eqn:E. destruct HR as [Hinv Hf].
    apply Delete_spec in E as [Hinv' H]; [|done..].
    rewrite (Hf _ (stored_WithDefaultTag ref Ho)) in H.
    destruct (f (WithDefaultTag ref)); simpl.
    + destruct H as (-> & -> & H). eexists. split; [done|]. split; [done|].
      intros r Hr. rewrite H by done. unfold vset. by rewrite Hf.
    + destruct H as (-> & -> & ->). by exists f.
  - rewrite Get_eq, (proj2 HR _ (stored_WithDefaultTag ref Ho)). by exists f.
Qed.

Lemma run_refines st f os :
  refines st f → Forall op_wf os →
  (run exec st os).2 = (run spec_exec f os).2 ∧ refines (run exec st os).1 (run spec_exec f os).1.
Proof.
  intros HR Hos. revert st f HR. induction Hos as [|o os Ho _ IH]; intros st f HR; [done|]. simpl.
  destruct (exec_refines st f o HR Ho) as (f' & E & HR').
  rewrite E. destruct (exec st o) as [st1 x]. simpl in *.
  specialize (IH st1 f' HR'). destruct (run exec st1 os), (run spec_exec f' os). simpl in *.
  destruct IH as [-> HR'']. done.
Qed.

(** A fresh store, with no file yet, is the empty map. *)
Lemma fresh_refines path st :
  NewReferenceStore true path None = Ok st → refines st (fun _ => None).
Proof.
  intros [= <-]. split; [split|done]; unfold lookup2, lookup_ref; simpl.
  - intros n s id. by rewrite lookup_empty.
  - intros id s r. rewrite lookup_empty. simpl. split; [done|]. by intros (_ & _ & ?).
  - intros k x. by rewrite lookup_empty.
  - intros k x. by rewrite lookup_empty.
Qed.

(** The same contract as an interface for the components that use a tag store. *)
Class TagStore (S : Type) := {
  ts_ok : S → Prop;
  ts_view : S → Named → option ID;
  ts_get : Named → S → result error ID;
  ts_references : ID → S → list Named;
  ts_delete : bool → Named → S → S * (bool * option error);
  ts_get_spec s r : ts_ok s → wf r →
    ts_get r s = match ts_view s (WithDefaultTag r) with Some id => Ok id | None => Err ErrDoesNotExist end;
  ts_references_spec s id : ts_ok s →
    NoDup (ts_references id s) ∧
    ∀ r, r ∈ ts_references id s ↔ stored r ∧ ts_view s r = Some id;
  ts_delete_spec s io r s' b e : ts_ok s → wf r → ts_delete io r s = (s', (b, e)) →
    ts_ok s' ∧
    match ts_view s (WithDefaultTag r) with
    | None => s' = s ∧ b = false ∧ e = Some ErrDoesNotExist
    | Some _ => b = true ∧ e = io_error io ∧
        ∀ r', stored r' → ts_view s' r' = if decide (r' = WithDefaultTag r) then None else ts_view s r'
    end
}.

#[export] Program Instance reference_store : TagStore store := {|
  ts_ok := inv; ts_view := lookup_ref; ts_get := Get; ts_references := References; ts_delete := Delete
|}.
Next Obligation. intros st r _ _. apply Get_eq. Qed.
Next Obligation. intros st id H. destruct (References_spec st id H) as (A & B & _). by split. Qed.
Next Obligation. intros st io r st' b e H Hr E. by apply Delete_spec in E. Qed.

(** ** Properties *)

(** C1: every sequence of tag, digest, delete and get requests on well-formed
    references, starting from a fresh store, gives exactly the results of the
    same sequence on a plain partial map from references to image IDs (file
    errors included), and leaves the inverse index consistent. *)
Theorem store_refines_map path st os :
  NewReferenceStore true path None = Ok st → Forall op_wf os →
  (run exec st os).2 = (run spec_exec (fun _ => None) os).2 ∧ inv (run exec st os).1.
Proof.
  intros Hst Hos. destruct (run_refines st (fun _ => None) os) as [H1 [H2 _]]; auto.
  by eapply fresh_refines.
Qed.

(** Decidable well-formedness, for concrete operations. *)
Lemma wf_tagged_check n t :
  MatchString DistRef.NameRegexp n && (length n <=? 255) && negb (ValidateID n) &&
    MatchString DistRef.TagRegexp t = true → wf (taggedRef n t).
Proof.
  rewrite !andb_true_iff, !MatchString_lang, Nat.leb_le, negb_true_iff.
  intros [[[H1 H2] H3] H4]. by repeat split.
Qed.

Definition demo_ops : list op :=
  [OpAddTag (taggedRef "debian" "8") "id1" false true;
   OpAddTag (taggedRef "debian" "8") "id2" false true;
   OpAddTag (taggedRef "debian" "8") "id2" true false;
   OpGet (taggedRef "debian" "8");
   OpDelete (taggedRef "debian" "8") true;
   OpGet (taggedRef "debian" "8")].

Lemma store_refines_map_witness :
  (run exec (mkStore "/r.json" ∅ ∅ (Some ∅)) demo_ops).2 =
  (run spec_exec (fun _ => None) demo_ops).2 ∧
  inv (run exec (mkStore "/r.json" ∅ ∅ (Some ∅)) demo_ops).1.
Proof.
  apply (store_refines_map "/r.json" (mkStore "/r.json" ∅ ∅ (Some ∅)) demo_ops).
  - reflexivity.
  - repeat (apply Forall_cons_2; [apply wf_tagged_check; vm_compute; reflexivity|]). apply Forall_nil_2.
Defined.

(** In a consistent store, [References id] lists exactly the stored references
    that resolve to [id], each once, in lexical order of their string form. *)
Theorem References_exact st id :
  inv st →
  (∀ r, r ∈ References id st ↔ stored r ∧ lookup_ref st r = Some id) ∧
  NoDup (References id st) ∧ StronglySorted ref_le (References id st).
Proof. apply References_spec. Qed.

Lemma References_exact_witness :
  let st := (run exec (mkStore "/r.json" ∅ ∅ (Some ∅)) []).1 in
  (∀ r, r ∈ References "id1" st ↔ stored r ∧ lookup_ref st r = Some "id1") ∧
  NoDup (References "id1" st) ∧ StronglySorted ref_le (References "id1" st).
Proof.
  apply References_exact. apply (fresh_refines "/r.json"). reflexivity.
Defined.

(** A consistent store whose repository names are in normal form, once saved,
    is rebuilt exactly by loading the file: same repositories, same index. *)
Theorem save_reload st st' :
  inv st → (∀ r id, stored r → lookup_ref st r = Some id → normalize (Name r) = Name r) →
  save true st = (st', None) →
  NewReferenceStore true (jsonPath st') (disk st') = Ok st'.
Proof.
  intros Hinv Hnorm [= <-]. unfold NewReferenceStore, reload. simpl. do 2 f_equal.
  apply lookup2_ext; [apply no_empty_rebuild|apply Hinv|].
  intros id s. apply option_eq. intros r. rewrite rebuild_spec, (inv_index _ Hinv). split.
  - intros [Hp (n & Hn)]. destruct (inv_repo _ Hinv _ _ _ Hn) as (r' & Hr' & <- & <-).
    rewrite ParseNamed_show in Hp; [|apply Hr'|by eapply Hnorm]. simplify_eq. done.
  - intros (Hr & -> & Hl). split; [|by eexists].
    apply ParseNamed_show; [apply Hr|by eapply Hnorm].
Qed.

Definition demo_store : store :=
  (run exec (mkStore "/r.json" ∅ ∅ (Some ∅)) [OpAddTag (taggedRef "debian" "8") "id1" false true]).1.

Lemma demo_store_refines : refines demo_store (vset (fun _ => None) (taggedRef "debian" "8") (Some "id1")).
Proof.
  apply (run_refines _ (fun _ => None)).
  - apply (fresh_refines "/r.json"). reflexivity.
  - apply Forall_cons_2; [|apply Forall_nil_2]. apply wf_tagged_check. vm_compute. reflexivity.
Qed.

Lemma save_reload_witness :
  NewReferenceStore true (jsonPath (save true demo_store).1) (disk (save true demo_store).1) =
  Ok (save true demo_store).1.
Proof.
  apply (save_reload demo_store (save true demo_store).1).
  - apply demo_store_refines.
  - intros r id Hr. rewrite (proj2 demo_store_refines r Hr). unfold vset.
    case_decide as Hd; [|discriminate]. subst. intros _. vm_compute. reflexivity.
  - reflexivity.
Defined.

(** Without that condition the reload is wrong: a tag added under a name that
    is not in normal form is served before a restart, and after it the index
    lists a different reference, which the store then fails to resolve. *)
Theorem reload_renames :
  ∃ r st1 st2,
    ParseNamed "library/library/app" = Ok r ∧
    AddTag true r "id1" false (mkStore "/r.json" ∅ ∅ None) = (st1, None) ∧
    NewReferenceStore true "/r.json" (disk st1) = Ok st2 ∧
    References "id1" st1 = [taggedRef "library/app" "latest"] ∧ Get r st1 = Ok "id1" ∧
    References "id1" st2 = [taggedRef "app" "latest"] ∧
    Get (taggedRef "app" "latest") st2 = Err ErrDoesNotExist.
Proof.
  set (st0 := mkStore "/r.json" ∅ ∅ None).
  set (st1 := (AddTag true (namedRef "library/app") "id1" false st0).1).
  set (st2 := match NewReferenceStore true "/r.json" (disk st1) with Ok s => s | Err _ => st0 end).
  exists (namedRef "library/app"), st1, st2. unfold st2, st1, st0.
  split_and!; vm_compute; reflexivity.
Qed.
