(* ===== verification/MFlag.v ===== *)
(** * MFlag: command-line flags

    Models [src/pkg/mflag/flag.go], the parser every [hyper] command goes
    through: flag definition under several names, [parseOne], the letter-by-letter
    retry of [Parse], the argument-count requirements, and [ParseFlags].

    A flag's value lives behind a pointer that all its names share: values are
    kept in [heap] and a [Flag] holds the index of its value.  A call ends with a
    value ([Ret]), a Go panic, or [os.Exit]; running out of fuel is a fourth
    outcome that the termination theorem excludes. *)

From S2P Require Import Prelude Strconv.
Import Strings Strconv.

(** What the flag set needs from a value type: [Set] (which stores a value even
    when it reports an error), the [IsBoolFlag] test, and the text form. *)
Class FlagValue (V : Type) := {
  vset : V → gostring → V * option goerror;
  vbool : V → bool;
  vstring : V → gostring
}.

Module MFlag.

Inductive ErrorHandling := ContinueOnError | ExitOnError | PanicOnError.
Inductive nArgRequirementType := Exact | Max | Min.
Record nArgRequirement := mkReq { req_Type : nArgRequirementType; req_N : Z }.

Record Flag := mkFlag {
  Names : list gostring;
  Usage : gostring;
  Value : nat;             (* where the value is in the heap *)
  DefValue : gostring
}.

Inductive error :=
| ErrHelp
| ErrRetry
| ErrBadSyntax (s : gostring)                            (* bad flag syntax: %s *)
| ErrNotDefined (name : gostring)                        (* flag provided but not defined: -%s *)
| ErrBadBool (value name : gostring) (e : goerror)        (* invalid boolean value %q for  -%s: %v *)
| ErrNeedsArg (name : gostring)                          (* flag needs an argument: -%s *)
| ErrBadValue (value name : gostring) (e : goerror).      (* invalid value %q for flag -%s: %v *)

(** What is written to the output, in order. *)
Inductive event :=
| EvError (e : error)                                    (* failf *)
| EvUsage
| EvDeprecated (name : gostring) (replacement : gostring).

Inductive outcome (A : Type) :=
| Ret (a : A)
| Panicked
| Exited (code : Z)
| OutOfFuel.
Arguments Ret {A} _.
Arguments Panicked {A}.
Arguments Exited {A} _.
Arguments OutOfFuel {A}.

Section flagset.
Context {V : Type} `{!FlagValue V}.

Record FlagSet := mkFlagSet {
  name : gostring;
  parsed : bool;
  actual : gmap gostring Flag;
  formal : gmap gostring Flag;
  args : list gostring;
  errorHandling : ErrorHandling;
  nArgRequirements : list nArgRequirement;
  heap : list V;
  output : list event
}.

Definition NewFlagSet (n : gostring) (eh : ErrorHandling) : FlagSet :=
  mkFlagSet n false ∅ ∅ [] eh [] [] [].

Definition set_args (fs : FlagSet) (a : list gostring) : FlagSet :=
  mkFlagSet (name fs) (parsed fs) (actual fs) (formal fs) a (errorHandling fs)
    (nArgRequirements fs) (heap fs) (output fs).
Definition set_heap (fs : FlagSet) (h : list V) : FlagSet :=
  mkFlagSet (name fs) (parsed fs) (actual fs) (formal fs) (args fs) (errorHandling fs)
    (nArgRequirements fs) h (output fs).
Definition set_actual (fs : FlagSet) (m : gmap gostring Flag) : FlagSet :=
  mkFlagSet (name fs) (parsed fs) m (formal fs) (args fs) (errorHandling fs)
    (nArgRequirements fs) (heap fs) (output fs).
Definition set_formal (fs : FlagSet) (m : gmap gostring Flag) : FlagSet :=
  mkFlagSet (name fs) (parsed fs) (actual fs) m (args fs) (errorHandling fs)
    (nArgRequirements fs) (heap fs) (output fs).
Definition set_parsed (fs : FlagSet) : FlagSet :=
  mkFlagSet (name fs) true (actual fs) (formal fs) (args fs) (errorHandling fs)
    (nArgRequirements fs) (heap fs) (output fs).
Definition emit (fs : FlagSet) (e : event) : FlagSet :=
  mkFlagSet (name fs) (parsed fs) (actual fs) (formal fs) (args fs) (errorHandling fs)
    (nArgRequirements fs) (heap fs) (output fs ++ [e]).

(** ** Definition of flags *)

(** [Var]'s loop over the names: a name already defined panics. *)
Fixpoint define_names (flag : Flag) (names : list gostring) (m : gmap gostring Flag)
    : option (gmap gostring Flag) :=
  match names with
  | [] => Some m
  | n :: names =>
      let n := TrimPrefix n "#" in
      match m !! n with
      | Some _ => None
      | None => define_names flag names (<[n := flag]> m)
      end
  end.

Definition Var (v : V) (names : list gostring) (usage : gostring) (fs : FlagSet) : outcome FlagSet :=
  let flag := mkFlag names usage (length (heap fs)) (vstring v) in
  match define_names flag names (formal fs) with
  | None => Panicked
  | Some m => Ret (set_formal (set_heap fs (heap fs ++ [v])) m)
  end.

Definition Lookup (n : gostring) (fs : FlagSet) : option Flag := formal fs !! n.
Definition IsSet (n : gostring) (fs : FlagSet) : bool := bool_decide (is_Some (actual fs !! n)).
Definition NFlag (fs : FlagSet) : nat := size (actual fs).
Definition IsEmpty (fs : FlagSet) : bool := bool_decide (size (actual fs) = 0).
Definition Arg (i : Z) (fs : FlagSet) : gostring :=
  if (i <? 0)%Z || (Z.of_nat (length (args fs)) <=? i)%Z then []
  else default [] (args fs !! Z.to_nat i).
Definition NArg (fs : FlagSet) : nat := length (args fs).

(** The value a flag points to. *)
Definition deref (fs : FlagSet) (flag : Flag) : option V := heap fs !! Value flag.

(** [Value.Set] through the pointer. *)
Definition set_value (flag : Flag) (value : gostring) (fs : FlagSet) : FlagSet * option goerror :=
  match heap fs !! Value flag with
  | None => (fs, None)
  | Some v => let '(v', e) := vset v value in (set_heap fs (<[Value flag := v']> (heap fs)), e)
  end.

Definition Set_ (n value : gostring) (fs : FlagSet) : FlagSet * option (option goerror) :=
  match formal fs !! n with
  | None => (fs, Some None)                       (* no such flag -%v *)
  | Some flag =>
      let '(fs, e) := set_value flag value fs in
      match e with
      | Some e => (fs, Some (Some e))
      | None => (set_actual fs (<[n := flag]> (actual fs)), None)
      end
  end.

(** ** Argument-count requirements *)

Definition Require (t : nArgRequirementType) (n : Z) (fs : FlagSet) : FlagSet :=
  mkFlagSet (name fs) (parsed fs) (actual fs) (formal fs) (args fs) (errorHandling fs)
    (nArgRequirements fs ++ [mkReq t n]) (heap fs) (output fs).

Definition req_holds (n : Z) (r : nArgRequirement) : bool :=
  match req_Type r with
  | Exact => (n =? req_N r)%Z
  | Max => (n <=? req_N r)%Z
  | Min => (req_N r <=? n)%Z
  end.
(** The first requirement that fails; the source formats it as a message. *)
Fixpoint check_reqs (n : Z) (rs : list nArgRequirement) : option nArgRequirement :=
  match rs with
  | [] => None
  | r :: rs =>
      match req_Type r with
      | Exact => if negb (n =? req_N r)%Z then Some r else check_reqs n rs
      | Max => if (req_N r <? n)%Z then Some r else check_reqs n rs
      | Min => if (n <? req_N r)%Z then Some r else check_reqs n rs
      end
  end.
Definition CheckArgs (fs : FlagSet) : option nArgRequirement :=
  check_reqs (Z.of_nat (NArg fs)) (nArgRequirements fs).

(** ** Parsing *)

Definition failf (e : error) (fs : FlagSet) : FlagSet := emit fs (EvError e).

(** [trimQuotes]: [None] is the slice-bounds panic of [str[1:0]], which the
    source reaches on a string that is a single quote character. *)
Definition trimQuotes (str : gostring) : option gostring :=
  match str with
  | [] => Some []
  | c :: rest =>
      let strip (q : ascii) (k : option gostring) :=
        if (c =c q) && (List.last str c =c q) then
          match rest with
          | [] => None
          | _ => Some (removelast rest)
          end
        else k in
      strip (ch "034") (strip (ch "'") (Some str))
  end.

(** The deprecation warning: the first name from [#name] on that is not itself
    deprecated replaces it.  [None] is the index panic on an empty name. *)
Fixpoint find_replacement (names : list gostring) : option gostring :=
  match names with
  | [] => Some []
  | [] :: _ => None
  | (c :: n) :: names => if c =c "#" then find_replacement names else Some (c :: n)
  end.
Fixpoint warn_deprecated (n : gostring) (names : list gostring) (fs : FlagSet) : option FlagSet :=
  match names with
  | [] => Some fs
  | m :: rest =>
      if m =s (ch "#" :: n) then
        match find_replacement names with
        | None => None
        | Some r => warn_deprecated n rest (emit fs (EvDeprecated n r))
        end
      else warn_deprecated n rest fs
  end.

(** [parseOne]'s results: whether a flag was seen, the unknown name, the error. *)
Definition one := (FlagSet * (bool * gostring * option error))%type.

Definition finish_flag (n : gostring) (flag : Flag) (fs : FlagSet) : outcome one :=
  let fs := set_actual fs (<[n := flag]> (actual fs)) in
  match warn_deprecated n (Names flag) fs with
  | None => Panicked
  | Some fs => Ret (fs, (true, [], None))
  end.

Definition fail_one (e : error) (fs : FlagSet) : outcome one :=
  Ret (failf e fs, (false, [], Some e)).

(** A flag found in [formal]: booleans take [=value] or nothing, others
    [=value] or the next argument. *)
Definition parse_known (n : gostring) (flag : Flag) (value : option gostring) (fs : FlagSet)
    : outcome one :=
  if from_option vbool false (deref fs flag) then
    match value with
    | Some v =>
        let '(fs, e) := set_value flag v fs in
        match e with
        | Some e => fail_one (ErrBadBool v n e) fs
        | None => finish_flag n flag fs
        end
    | None => finish_flag n flag (set_value flag "true" fs).1
    end
  else
    let '(value, fs) :=
      match value, args fs with
      | Some v, _ => (Some v, fs)
      | None, a :: rest => (Some a, set_args fs rest)
      | None, [] => (None, fs)
      end in
    match value with
    | None => fail_one (ErrNeedsArg n) fs
    | Some v =>
        let '(fs, e) := set_value flag v fs in
        match e with
        | Some e => fail_one (ErrBadValue v n e) fs
        | None => finish_flag n flag fs
        end
    end.

Definition parse_flag (n : gostring) (value : option gostring) (fs : FlagSet) : outcome one :=
  match formal fs !! n with
  | None =>
      if (n =s "-help") || (n =s "help") || (n =s "h")
      then Ret (emit fs EvUsage, (false, [], Some ErrHelp))
      else if (match n with c :: _ => c =c "-" | [] => false end)
      then fail_one (ErrNotDefined n) fs
      else Ret (fs, (false, n, Some ErrRetry))
  | Some flag => parse_known n flag value fs
  end.

Definition parseOne (fs : FlagSet) : outcome one :=
  match args fs with
  | [] => Ret (fs, (false, [], None))
  | s :: rest =>
      match s with
      | [] => Ret (fs, (false, [], None))
      | c :: n =>
          if negb (c =c "-") || bool_decide (n = []) then Ret (fs, (false, [], None))
          else if n =s "-" then Ret (set_args fs rest, (false, [], None))
          else if (match n with c :: _ => c =c "=" | [] => true end)
          then fail_one (ErrBadSyntax s) fs
          else
            let fs := set_args fs rest in
            match Cut "=" n with
            | None => parse_flag n None fs
            | Some (n, v) =>
                match trimQuotes v with
                | None => Panicked
                | Some v => parse_flag n (Some v) fs
                end
            end
      end
  end.

(** The letter-by-letter retry: each letter is pushed back as its own flag; the
    first one that fails makes the whole word undefined. *)
Fixpoint parse_letters (letters : gostring) (word : gostring) (fs : FlagSet)
    : outcome (FlagSet * option error) :=
  match letters with
  | [] => Ret (fs, None)
  | l :: letters =>
      match parseOne (set_args fs ([ch "-"; l] :: args fs)) with
      | Ret (fs, (seen2, _, err2)) =>
          if seen2 then parse_letters letters word fs
          else match err2 with
               | Some _ => Ret (failf (ErrNotDefined word) fs, Some (ErrNotDefined word))
               | None => parse_letters letters word fs
               end
      | Panicked => Panicked
      | Exited c => Exited c
      | OutOfFuel => OutOfFuel
      end
  end.

Definition handle_error (e : error) (fs : FlagSet) : outcome (FlagSet * option error) :=
  match errorHandling fs with
  | ContinueOnError => Ret (fs, Some e)
  | ExitOnError => Exited 125
  | PanicOnError => Panicked
  end.

Fixpoint parse_loop (fuel : nat) (fs : FlagSet) : outcome (FlagSet * option error) :=
  match fuel with
  | O => OutOfFuel
  | S fuel =>
      match parseOne fs with
      | Ret (fs, (seen, n, err)) =>
          if seen then parse_loop fuel fs
          else match err with
               | None => Ret (fs, None)
               | Some ErrRetry =>
                   if Nat.ltb 1 (length n) then
                     match parse_letters n n fs with
                     | Ret (fs, None) => parse_loop fuel fs
                     | Ret (fs, Some e) => handle_error e fs
                     | Panicked => Panicked
                     | Exited c => Exited c
                     | OutOfFuel => OutOfFuel
                     end
                   else handle_error (ErrNotDefined n) (failf (ErrNotDefined n) fs)
               | Some e => handle_error e fs
               end
      | Panicked => Panicked
      | Exited c => Exited c
      | OutOfFuel => OutOfFuel
      end
  end.

(** Every round of the loop consumes an argument: see [Parse_terminates]. *)
Definition Parse (arguments : list gostring) (fs : FlagSet) : outcome (FlagSet * option error) :=
  parse_loop (S (length arguments)) (set_args (set_parsed fs) arguments).

(** [ParseFlags], with the value that backs the help flag; [is_true] reads it. *)
Definition ParseFlags (helpv : V) (is_true : V → bool) (arguments : list gostring) (withHelp : bool)
    (fs : FlagSet) : outcome (FlagSet * option error) :=
  let defined := if withHelp then Var helpv ["#help"; "-help"] "Print usage" fs else Ret fs in
  match defined with
  | Ret fs1 =>
      match Parse arguments fs1 with
      | Ret (fs2, Some e) => Ret (fs2, Some e)
      | Ret (fs2, None) =>
          if withHelp && from_option is_true false (heap fs2 !! length (heap fs)) then Exited 0
          else match CheckArgs fs2 with
               | Some _ => Exited 1
               | None => Ret (fs2, None)
               end
      | Panicked => Panicked
      | Exited c => Exited c
      | OutOfFuel => OutOfFuel
      end
  | Panicked => Panicked
  | Exited c => Exited c
  | OutOfFuel => OutOfFuel
  end.

End flagset.
Arguments FlagSet V : clear implicits.

(** ** The value types of the package *)

Inductive value :=
| boolValue (b : bool)
| intValue (i : Z)
| int64Value (i : Z)
| uintValue (i : Z)
| uint64Value (i : Z)
| uint16Value (i : Z)
| stringValue (s : gostring).

Definition numerr {A} (p : A * option NumError) (k : A → value) : value * option goerror :=
  (k p.1, ErrNum <$> p.2).

Definition value_set (v : value) (s : gostring) : value * option goerror :=
  match v with
  | boolValue _ => numerr (ParseBool s) boolValue
  | intValue _ => numerr (ParseInt s 0 64) intValue
  | int64Value _ => numerr (ParseInt s 0 64) int64Value
  | uintValue _ => numerr (ParseUint s 0 64) uintValue
  | uint64Value _ => numerr (ParseUint s 0 64) uint64Value
  | uint16Value _ => numerr (ParseUint s 0 16) uint16Value
  | stringValue _ => (stringValue s, None)
  end.

Definition value_string (v : value) : gostring :=
  match v with
  | boolValue b => if b then "true" else "false"
  | intValue i | int64Value i | uintValue i | uint64Value i | uint16Value i => FormatInt i
  | stringValue s => s
  end.

#[global] Instance value_flag : FlagValue value := {|
  vset := value_set;
  vbool v := match v with boolValue _ => true | _ => false end;
  vstring := value_string
|}.

(** ** Typed flag definitions

    [fs.BoolVar(p, names, value, usage)] and its siblings register a value of the
    type; the storage they are given is the cell the new flag points to.  [fs.Bool]
    and its siblings also return that pointer.  [of_value] embeds the package's value
    types into the values of the flag set. *)

Section typed_flags.
Context {V : Type} `{!FlagValue V} (of_value : value → V).
Implicit Types (names : list gostring) (usage : gostring) (fs : FlagSet V).

Definition with_pointer fs (r : outcome (FlagSet V)) : outcome (nat * FlagSet V) :=
  match r with
  | Ret fs' => Ret (length (heap fs), fs')
  | Panicked => Panicked
  | Exited c => Exited c
  | OutOfFuel => OutOfFuel
  end.

Definition BoolVar names (v : bool) usage fs : outcome (FlagSet V) := Var (of_value (boolValue v)) names usage fs.
Definition Bool names (v : bool) usage fs : outcome (nat * FlagSet V) := with_pointer fs (BoolVar names v usage fs).
Definition IntVar names (v : Z) usage fs : outcome (FlagSet V) := Var (of_value (intValue v)) names usage fs.
Definition Int names (v : Z) usage fs : outcome (nat * FlagSet V) := with_pointer fs (IntVar names v usage fs).
Definition Int64Var names (v : Z) usage fs : outcome (FlagSet V) := Var (of_value (int64Value v)) names usage fs.
Definition Int64 names (v : Z) usage fs : outcome (nat * FlagSet V) := with_pointer fs (Int64Var names v usage fs).
Definition UintVar names (v : Z) usage fs : outcome (FlagSet V) := Var (of_value (uintValue v)) names usage fs.
Definition Uint names (v : Z) usage fs : outcome (nat * FlagSet V) := with_pointer fs (UintVar names v usage fs).
Definition Uint64Var names (v : Z) usage fs : outcome (FlagSet V) := Var (of_value (uint64Value v)) names usage fs.
Definition Uint64 names (v : Z) usage fs : outcome (nat * FlagSet V) := with_pointer fs (Uint64Var names v usage fs).
Definition Uint16Var names (v : Z) usage fs : outcome (FlagSet V) := Var (of_value (uint16Value v)) names usage fs.
Definition Uint16 names (v : Z) usage fs : outcome (nat * FlagSet V) := with_pointer fs (Uint16Var names v usage fs).
Definition StringVar names (v : gostring) usage fs : outcome (FlagSet V) := Var (of_value (stringValue v)) names usage fs.
Definition String names (v : gostring) usage fs : outcome (nat * FlagSet V) := with_pointer fs (StringVar names v usage fs).

End typed_flags.

(** [isZeroValue], on the text of a default. *)
Definition isZeroValue (v : gostring) : bool := (v =s "false") || (v =s []) || (v =s "0").

End MFlag.

Import MFlag.

(** ** What parsing never changes, and how it consumes arguments *)

Section parse_facts.
Context {V : Type} `{!FlagValue V}.
Implicit Types (fs : FlagSet V) (flag : Flag).

(** The definitions of the set; only values, [actual], [args] and the output move. *)
Definition same_defs fs fs' : Prop :=
  formal fs' = formal fs ∧ errorHandling fs' = errorHandling fs ∧
  nArgRequirements fs' = nArgRequirements fs ∧ length (heap fs') = length (heap fs).

#[global] Instance same_defs_preorder : PreOrder same_defs.
Proof. split; [done|]. unfold same_defs. intros x y z. intuition congruence. Qed.

Lemma set_value_frame flag v fs fs' e :
  set_value flag v fs = (fs', e) → same_defs fs fs' ∧ args fs' = args fs ∧ actual fs' = actual fs.
Proof.
  unfold set_value. destruct (heap fs !! Value flag) as [x|]; [|by intros [= <- <-]].
  destruct (vset x v). intros [= <- <-]. unfold same_defs. simpl. by rewrite length_insert.
Qed.

Lemma warn_deprecated_frame n names fs fs' :
  warn_deprecated n names fs = Some fs' →
  same_defs fs fs' ∧ args fs' = args fs ∧ actual fs' = actual fs ∧ heap fs' = heap fs.
Proof.
  revert fs. induction names as [|m names IH]; intros fs; simpl; [by intros [= <-]|].
  case_match; [|apply IH]. case_match; [|done]. intros HH%IH. simpl in HH. done.
Qed.

Lemma finish_flag_frame n flag fs fs' r :
  finish_flag n flag fs = Ret (fs', r) →
  r = (true, [], None) ∧ same_defs fs fs' ∧ args fs' = args fs ∧
  actual fs' = <[n := flag]> (actual fs) ∧ heap fs' = heap fs.
Proof.
  unfold finish_flag. case_match eqn:E; [|done]. intros [= <- <-].
  apply warn_deprecated_frame in E. simpl in E. done.
Qed.

(** Every return of [parse_known] either saw a flag or carries an error other
    than [ErrRetry], and the arguments it leaves are a suffix. *)
Lemma parse_known_frame n flag value fs fs' seen m err :
  parse_known n flag value fs = Ret (fs', (seen, m, err)) →
  same_defs fs fs' ∧ (args fs') `suffix_of` (args fs) ∧
  (if seen then err = None else ∃ e, err = Some e ∧ e ≠ ErrRetry).
Proof.
  unfold parse_known, fail_one.
  assert (Hgo : ∀ v fs0, same_defs fs fs0 → (args fs0) `suffix_of` (args fs) →
    ∀ mk, (∀ e, mk e ≠ ErrRetry) →
    (let '(fs1, e) := set_value flag v fs0 in
     match e with
     | Some e => Ret (failf (mk e) fs1, (false, [], Some (mk e)))
     | None => finish_flag n flag fs1
     end) = Ret (fs', (seen, m, err)) →
    same_defs fs fs' ∧ (args fs') `suffix_of` (args fs) ∧
    (if seen then err = None else ∃ e, err = Some e ∧ e ≠ ErrRetry)).
  { intros v fs0 Hd Ha mk Hmk. destruct (set_value flag v fs0) as [fs1 e] eqn:E.
    apply set_value_frame in E as (Hd1 & Ha1 & _). destruct e as [e|].
    - intros [= <- <- <- <-]. simpl. rewrite Ha1. split_and!; [by etrans|done|eauto].
    - intros (Hr & Hd2 & Ha2 & _)%finish_flag_frame. simplify_eq.
      split_and!; [by do 2 etrans|by rewrite Ha2, Ha1|done]. }
  destruct (from_option vbool false (deref fs flag)).
  - destruct value as [v|]; [by apply (Hgo v fs)|].
    destruct (set_value flag "true" fs) as [fs1 e] eqn:E. simpl.
    apply set_value_frame in E as (Hd1 & Ha1 & _).
    intros (Hr & Hd2 & Ha2 & _)%finish_flag_frame. simplify_eq.
    split_and!; [by etrans|by rewrite Ha2, Ha1|done].
  - destruct value as [v|]; [by apply (Hgo v fs)|].
    destruct (args fs) as [|a rest] eqn:Ea.
    + intros [= <- <- <- <-]. simpl. rewrite Ea. split_and!; [done|done|eauto].
    + apply (Hgo a (set_args fs rest)); [done| |done]. simpl. by exists [a].
Qed.

Lemma parse_flag_frame n value fs fs' seen m err :
  parse_flag n value fs = Ret (fs', (seen, m, err)) →
  same_defs fs fs' ∧ (args fs') `suffix_of` (args fs) ∧
  (if seen then err = None else is_Some err) ∧ (err = Some ErrRetry → m = n).
Proof.
  unfold parse_flag, fail_one. destruct (formal fs !! n) as [flag|].
  - intros (H1 & H2 & H3)%parse_known_frame. split_and!; [done|done| |].
    + destruct seen; [done|]. destruct H3 as (e & -> & _). by eexists.
    + intros ->. destruct seen; [done|]. destruct H3 as (e & [= <-] & ?). done.
  - repeat case_match; intros; simplify_eq/=; split_and!; eauto; done.
Qed.

(** One round: a flag seen or a word to retry costs at least one argument. *)
Lemma parseOne_frame fs fs' seen m err :
  parseOne fs = Ret (fs', (seen, m, err)) →
  same_defs fs fs' ∧ (args fs') `suffix_of` (args fs) ∧
  (seen = true ∨ err = Some ErrRetry → length (args fs') < length (args fs)) ∧
  (∀ l rest, args fs = [ch "-"; l] :: rest → err = None → (args fs') `suffix_of` rest).
Proof.
  unfold parseOne. destruct (args fs) as [|s rest] eqn:Ea.
  { intros [= <- <- <- <-]. rewrite Ea. split_and!; naive_solver. }
  destruct s as [|c n].
  { intros [= <- <- <- <-]. rewrite Ea. split_and!; naive_solver. }
  destruct (negb (c =c "-") || bool_decide (n = [])) eqn:Ec.
  { intros [= <- <- <- <-]. rewrite Ea. split_and!; [done|done|naive_solver|].
    intros l r [= -> -> ->] _. done. }
  destruct (n =s "-").
  { intros [= <- <- <- <-]. simpl. split_and!; [done|by eexists [_]|naive_solver|naive_solver]. }
  case_match.
  { intros [= <- <- <- <-]. simpl. rewrite Ea. split_and!; [done|done|naive_solver|naive_solver]. }
  assert (Hgo : ∀ n' v, parse_flag n' v (set_args fs rest) = Ret (fs', (seen, m, err)) →
    same_defs fs fs' ∧ args fs' `suffix_of` (c :: n) :: rest ∧
    (seen = true ∨ err = Some ErrRetry → length (args fs') < length ((c :: n) :: rest)) ∧
    (∀ l rest0, (c :: n) :: rest = [ch "-"; l] :: rest0 → err = None → (args fs') `suffix_of` rest0)).
  { intros n' v (Hd & Hs & _)%parse_flag_frame. simpl in *. split_and!; [done| | |].
    - by apply suffix_cons_r.
    - intros _. apply suffix_length in Hs. lia.
    - naive_solver. }
  destruct (Cut "=" n) as [[n' v]|]; [|by apply Hgo].
  destruct (trimQuotes v); [|done]. by apply Hgo.
Qed.

Lemma parse_letters_frame letters word fs fs' err :
  parse_letters letters word fs = Ret (fs', err) →
  same_defs fs fs' ∧ (err = None → (args fs') `suffix_of` (args fs)).
Proof.
  revert fs. induction letters as [|l letters IH]; intros fs; simpl; [by intros [= <- <-]|].
  destruct (parseOne _) as [[fs1 [[seen m] err2]]| | |] eqn:E; try done.
  pose proof E as E'. apply parseOne_frame in E' as (Hd & _ & _ & Hs). simpl in *.
  specialize (Hs l (args fs) eq_refl).
  assert (Hd' : same_defs fs fs1) by done.
  destruct err2 as [e2|].
  - destruct seen; [|intros [= <- <-]; split; [done|done]].
    intros [H1 H2]%IH. exfalso. clear -E.
    (* a flag that was seen carries no error *)
    revert E. unfold parseOne. simpl. repeat case_match; try done;
      intros E; (apply parse_flag_frame in E as (_ & _ & E & _); done) || simplify_eq.
  - destruct seen; intros [H1 H2]%IH; (split; [by etrans|]); intros He;
      (etrans; [by apply H2|by apply Hs]).
Qed.

(** ** Termination *)

Lemma parse_known_returns n flag value fs :
  parse_known n flag value fs = Panicked ∨ ∃ r, parse_known n flag value fs = Ret r.
Proof.
  unfold parse_known, fail_one, finish_flag.
  repeat (case_match; simplify_eq/=); eauto.
Qed.

Lemma parseOne_returns fs : parseOne fs = Panicked ∨ ∃ r, parseOne fs = Ret r.
Proof.
  unfold parseOne, parse_flag, fail_one.
  repeat (case_match; simplify_eq/=); eauto using parse_known_returns.
Qed.

Lemma parse_letters_returns letters word fs :
  parse_letters letters word fs = Panicked ∨ ∃ r, parse_letters letters word fs = Ret r.
Proof.
  revert fs. induction letters as [|l letters IH]; intros fs; simpl; [by eauto|].
  destruct (parseOne_returns (set_args fs ([ch "-"; l] :: args fs))) as [->|[[fs1 [[seen m] e]] ->]];
    [by left|]. repeat case_match; eauto.
Qed.

(** With more fuel than arguments the loop ends, and what it leaves is a suffix
    of what it was given. *)
Lemma parse_loop_ends fuel fs :
  length (args fs) < fuel →
  parse_loop fuel fs ≠ OutOfFuel ∧
  ∀ fs' err, parse_loop fuel fs = Ret (fs', err) →
    same_defs fs fs' ∧ (err = None → (args fs') `suffix_of` (args fs)).
Proof.
  revert fs. induction fuel as [|fuel IH]; intros fs Hf; [lia|]. simpl.
  destruct (parseOne_returns fs) as [->|[[fs1 [[seen m] e]] E]]; [done|]. rewrite E.
  apply parseOne_frame in E as (Hd & Hs & Hlt & _).
  assert (Hrec : ∀ fs2, same_defs fs fs2 → (args fs2) `suffix_of` (args fs) → length (args fs2) < fuel →
    parse_loop fuel fs2 ≠ OutOfFuel ∧ ∀ fs' err, parse_loop fuel fs2 = Ret (fs', err) →
    same_defs fs fs' ∧ (err = None → (args fs') `suffix_of` (args fs))).
  { intros fs2 Hd2 Hs2 Hl. destruct (IH fs2 Hl) as [H1 H2]. split; [done|].
    intros fs' err H. apply H2 in H as [H3 H4]. split; [by etrans|]. intros. etrans; [by apply H4|done]. }
  assert (Herr : ∀ e fs2, same_defs fs fs2 → handle_error e fs2 ≠ OutOfFuel ∧
    ∀ fs' err, handle_error e fs2 = Ret (fs', err) →
    same_defs fs fs' ∧ (err = None → (args fs') `suffix_of` (args fs))).
  { intros e2 fs2 Hd2. unfold handle_error. case_match; split; try done. intros ? ? [= <- <-]. done. }
  destruct seen; [apply Hrec; [done|done|lia]|].
  destruct e as [e|]; [|split; [done|]; by intros ? ? [= <- <-]].
  destruct e; try by apply Herr.
  specialize (Hlt ltac:(by right)).
  case_match; [|by apply Herr].
  destruct (parse_letters_returns m m fs1) as [->|[[fs2 err2] E]]; [done|]. rewrite E.
  apply parse_letters_frame in E as [Hd2 Hs2]. destruct err2 as [e2|].
  - apply Herr. by etrans.
  - specialize (Hs2 eq_refl). apply Hrec; [by etrans|by etrans|].
    apply suffix_length in Hs2. lia.
Qed.

End parse_facts.

(** ** Which cells parsing writes

    A property of heap cells that setting a defined flag preserves is preserved by the
    whole parse; in particular a cell that no defined flag points to keeps its value. *)

Section cells.
Context {V : Type} `{!FlagValue V} (Q : nat → V → Prop).
Implicit Types (fs : FlagSet V) (flag : Flag).

Definition settable fs : Prop :=
  ∀ n flag, formal fs !! n = Some flag → ∀ v s, Q (Value flag) v → Q (Value flag) (vset v s).1.
Definition cells fs : Prop := ∀ i v, heap fs !! i = Some v → Q i v.

Lemma same_defs_settable fs fs' : same_defs fs fs' → settable fs → settable fs'.
Proof. intros (Hf & _) Hs n flag. rewrite Hf. apply Hs. Qed.

Lemma set_value_cells n flag v fs :
  settable fs → formal fs !! n = Some flag → cells fs → cells (set_value flag v fs).1.
Proof.
  intros Hs Hf Hc i w. unfold set_value. destruct (heap fs !! Value flag) as [x|] eqn:Ex; [|apply Hc].
  destruct (vset x v) as [v' e] eqn:Ev. simpl. intros [(<- & <- & _)|[_ ?]]%list_lookup_insert_Some; [|by apply Hc].
  specialize (Hs n flag Hf x v (Hc _ _ Ex)). by rewrite Ev in Hs.
Qed.

Lemma finish_flag_cells n flag fs fs' r : finish_flag n flag fs = Ret (fs', r) → cells fs → cells fs'.
Proof. intros (_ & _ & _ & _ & Hh)%finish_flag_frame Hc i v. rewrite Hh. apply Hc. Qed.

Lemma parse_known_cells n flag value fs fs' r :
  settable fs → formal fs !! n = Some flag → cells fs →
  parse_known n flag value fs = Ret (fs', r) → cells fs'.
Proof.
  intros Hs Hf Hc. unfold parse_known, fail_one.
  assert (Hgo : ∀ v fs0, settable fs0 → formal fs0 !! n = Some flag → cells fs0 → ∀ mk : goerror → error,
    (let '(fs1, e) := set_value flag v fs0 in
     match e with
     | Some e => Ret (failf (mk e) fs1, (false, [], Some (mk e)))
     | None => finish_flag n flag fs1
     end) = Ret (fs', r) → cells fs').
  { intros v fs0 Hs0 Hf0 Hc0 mk. pose proof (set_value_cells n flag v fs0 Hs0 Hf0 Hc0) as H.
    destruct (set_value flag v fs0) as [fs1 [e|]]; simpl in H; [by intros [= <- <-]|].
    intros E. by apply finish_flag_cells in E. }
  destruct (from_option vbool false (deref fs flag)).
  - destruct value as [v|]; [by apply Hgo|].
    intros E. apply finish_flag_cells in E; [done|]. by apply (set_value_cells n).
  - destruct value as [v|]; [by apply Hgo|]. destruct (args fs) as [|a rest]; [by intros [= <- <-]|].
    by apply (Hgo a (set_args fs rest)).
Qed.

Lemma parse_flag_cells n value fs fs' r :
  settable fs → cells fs → parse_flag n value fs = Ret (fs', r) → cells fs'.
Proof.
  intros Hs Hc. unfold parse_flag, fail_one. destruct (formal fs !! n) as [flag|] eqn:Hf.
  - intros E. by apply parse_known_cells in E.
  - repeat case_match; intros; simplify_eq; apply Hc.
Qed.

Lemma parseOne_cells fs fs' r : settable fs → cells fs → parseOne fs = Ret (fs', r) → cells fs'.
Proof.
  intros Hs Hc. unfold parseOne, fail_one.
  repeat (case_match; try (by intros [= <- <-]); try done); intros E; by apply parse_flag_cells in E.
Qed.

Lemma parse_letters_cells letters word fs fs' r :
  settable fs → cells fs → parse_letters letters word fs = Ret (fs', r) → cells fs'.
Proof.
  revert fs. induction letters as [|l letters IH]; intros fs Hs Hc; simpl; [by intros [= <- <-]|].
  destruct (parseOne _) as [[fs1 [[seen m] err2]]| | |] eqn:E; try done.
  assert (Hc1 : cells fs1) by (by apply parseOne_cells in E).
  assert (Hs1 : settable fs1).
  { apply parseOne_frame in E as (Hd & _). by apply (same_defs_settable fs). }
  repeat case_match; intros; simplify_eq; eauto.
Qed.

Lemma parse_loop_cells fuel fs fs' r :
  settable fs → cells fs → parse_loop fuel fs = Ret (fs', r) → cells fs'.
Proof.
  revert fs. induction fuel as [|fuel IH]; intros fs Hs Hc; simpl; [done|].
  destruct (parseOne fs) as [[fs1 [[seen m] err]]| | |] eqn:E; try done.
  assert (Hc1 : cells fs1) by (by apply parseOne_cells in E).
  apply parseOne_frame in E as (Hd & _). assert (Hs1 : settable fs1) by (by apply (same_defs_settable fs)).
  assert (He : ∀ e fs2, cells fs2 → handle_error e fs2 = Ret (fs', r) → cells fs').
  { intros e fs2 H. unfold handle_error. case_match; by intros [= <- <-]. }
  destruct seen; [by apply IH|]. destruct err as [e|]; [|by intros [= <- <-]].
  destruct e; try by apply He. case_match; [|by apply He].
  destruct (parse_letters m m fs1) as [[fs2 [e2|]]| | |] eqn:El; try done;
    pose proof (parse_letters_cells _ _ _ _ _ Hs1 Hc1 El) as Hc2; [by apply He|].
  apply parse_letters_frame in El as (Hd2 & _). apply IH; [|done]. by apply (same_defs_settable fs1).
Qed.

Lemma Parse_cells arguments fs fs' r :
  settable fs → cells fs → Parse arguments fs = Ret (fs', r) → cells fs' ∧ same_defs fs fs'.
Proof.
  intros Hs Hc E. unfold Parse in E. split; [by apply parse_loop_cells in E|].
  by apply parse_loop_ends in E as [? _]; [|simpl; lia].
Qed.

End cells.

(** ** Rendered command lines *)

Section rendered.
Context {V : Type} `{!FlagValue V}.
Implicit Types (fs : FlagSet V) (flag : Flag).

(** The three ways to write a setting. *)
Inductive setting :=
| SetEq (n v : gostring)        (* -n=v *)
| SetNext (n v : gostring)      (* -n v *)
| SetBool (n : gostring).       (* -n, a boolean *)

Definition setting_name (s : setting) : gostring :=
  match s with SetEq n _ | SetNext n _ | SetBool n => n end.
Definition setting_value (s : setting) : gostring :=
  match s with SetEq _ v | SetNext _ v => v | SetBool _ => "true" end.
Definition render (s : setting) : list gostring :=
  match s with
  | SetEq n v => [ch "-" :: n ++ "=" ++ v]
  | SetNext n v => [ch "-" :: n; v]
  | SetBool n => [ch "-" :: n]
  end.

(** Names that the parser reads as written, values it does not unquote. *)
Definition wf_setting (s : setting) : Prop :=
  let n := setting_name s in
  n ≠ [] ∧ n ≠ "-" ∧ ch "=" ∉ n ∧
  match s with SetEq _ v => trimQuotes v = Some v | _ => True end.

(** The effect of one setting on the values: [None] when the flag is unknown, of
    the wrong kind, or rejects the value. *)
Definition apply_setting (m : gmap gostring Flag) (h : list V) (s : setting) : option (list V) :=
  flag ← m !! setting_name s;
  v ← h !! Value flag;
  if match s with SetEq _ _ => true | SetNext _ _ => negb (vbool v) | SetBool _ => vbool v end
  then match vset v (setting_value s) with
       | (v', None) => Some (<[Value flag := v']> h)
       | (_, Some _) => None
       end
  else None.
Fixpoint apply_settings (m : gmap gostring Flag) (h : list V) (l : list setting) : option (list V) :=
  match l with
  | [] => Some h
  | s :: l => h' ← apply_setting m h s; apply_settings m h' l
  end.

(** Where flag parsing stops, and what it leaves. *)
Definition rest_args (rest : list gostring) : option (list gostring) :=
  match rest with
  | [] => Some []
  | a :: r => if a =s "--" then Some r
              else match a with
                   | c :: _ :: _ => if c =c "-" then None else Some rest
                   | _ => Some rest
                   end
  end.

(** Flags are declared with non-empty names. *)
Definition named_flags (m : gmap gostring Flag) : Prop :=
  ∀ n flag, m !! n = Some flag → Forall (fun x => x ≠ []) (Names flag).

Lemma find_replacement_some names : Forall (fun x => x ≠ []) names → ∃ r, find_replacement names = Some r.
Proof. induction 1 as [|[|c n] names Hx _ [r IH]]; simpl; [by eexists|done|]. case_match; eauto. Qed.

Lemma warn_deprecated_some n names fs :
  Forall (fun x => x ≠ []) names → ∃ fs', warn_deprecated n names fs = Some fs'.
Proof.
  intros H. revert fs. induction H as [|x names Hx Hn IH]; intros fs; cbn [warn_deprecated]; [by eexists|].
  case_match; [|apply IH].
  destruct (find_replacement_some (x :: names)) as [r ->]; [by constructor|]. apply IH.
Qed.

Lemma parse_known_sets s flag fs v v' :
  named_flags (formal fs) → formal fs !! setting_name s = Some flag → heap fs !! Value flag = Some v →
  (match s with SetEq _ _ => True | SetNext _ _ => vbool v = false | SetBool _ => vbool v = true end) →
  vset v (setting_value s) = (v', None) →
  let '(value, a) := match s with
    | SetEq _ x => (Some x, args fs)
    | SetNext _ x => (None, x :: args fs)
    | SetBool _ => (None, args fs)
    end in
  ∃ fs', parse_known (setting_name s) flag value (set_args fs a) = Ret (fs', (true, [], None)) ∧
    same_defs fs fs' ∧ args fs' = args fs ∧ heap fs' = <[Value flag := v']> (heap fs) ∧
    actual fs' = <[setting_name s := flag]> (actual fs).
Proof.
  intros Hn Hf Hv Hk Hset.
  assert (Hfin : ∃ fs', finish_flag (setting_name s) flag (set_heap fs (<[Value flag := v']> (heap fs)))
     = Ret (fs', (true, [], None)) ∧
    same_defs fs fs' ∧ args fs' = args fs ∧ heap fs' = <[Value flag := v']> (heap fs) ∧
    actual fs' = <[setting_name s := flag]> (actual fs)).
  { unfold finish_flag.
    destruct (warn_deprecated_some (setting_name s) (Names flag)
      (set_actual (set_heap fs (<[Value flag := v']> (heap fs))) (<[setting_name s := flag]> (actual fs))))
      as [fs' E]; [by eapply Hn|].
    simpl in *. rewrite E. apply warn_deprecated_frame in E as (Hd & Ha & Hact & Hh). simpl in *.
    exists fs'. split; [done|]. split; [|done]. unfold same_defs in *. simpl in *.
    rewrite length_insert in Hd. done. }
  destruct s as [n x|n x|n]; simpl in *; unfold parse_known, deref; simpl; rewrite Hv; simpl.
  - unfold set_value. simpl. rewrite Hv, Hset. by destruct (vbool v).
  - rewrite Hk. unfold set_value. simpl. rewrite Hv, Hset. done.
  - rewrite Hk. unfold set_value. simpl. rewrite Hv, Hset. done.
Qed.

Lemma parseOne_setting s fs flag v v' a :
  wf_setting s → named_flags (formal fs) → formal fs !! setting_name s = Some flag →
  heap fs !! Value flag = Some v →
  (match s with SetEq _ _ => True | SetNext _ _ => vbool v = false | SetBool _ => vbool v = true end) →
  vset v (setting_value s) = (v', None) → args fs = render s ++ a →
  ∃ fs', parseOne fs = Ret (fs', (true, [], None)) ∧
    same_defs fs fs' ∧ args fs' = a ∧ heap fs' = <[Value flag := v']> (heap fs) ∧
    actual fs' = <[setting_name s := flag]> (actual fs).
Proof.
  intros (Hne & Hdash & Heq & Hq) Hn Hf Hv Hk Hset Ha.
  pose proof (parse_known_sets s flag (set_args fs a) v v' Hn Hf Hv Hk Hset) as Hp.
  assert (Hhead : ∀ t, (match setting_name s ++ t with c :: _ => c =c "=" | [] => true end) = false).
  { intros t. destruct (setting_name s) as [|c n]; [done|]. simpl. unfold chareqb.
    apply bool_decide_eq_false. set_solver. }
  assert (Hd2 : ∀ t, (setting_name s ++ t =s "-") = false ∨ t = [] ∧ (setting_name s =s "-") = false).
  { intros t. destruct t as [|x t].
    - right. split; [done|]. by apply bool_decide_eq_false.
    - left. apply bool_decide_eq_false. destruct (setting_name s) as [|c [|c' n]]; naive_solver. }
  destruct s as [n x|n x|n]; simpl in *; unfold parseOne; rewrite Ha; simpl;
    rewrite (bool_decide_eq_false_2 _) by (by destruct n); simpl.
  - destruct (Hd2 (ch "=" :: x)) as [->|[? _]]; [|done]. rewrite Hhead.
    rewrite Cut_char_app by done. rewrite Hq. unfold parse_flag. simpl. rewrite Hf. exact Hp.
  - specialize (Hhead []). rewrite app_nil_r in Hhead. rewrite Hhead.
    rewrite (bool_decide_eq_false_2 _ Hdash : (n =s "-") = false).
    rewrite (proj2 (Cut_char_None _ _) Heq). unfold parse_flag. simpl. rewrite Hf. exact Hp.
  - specialize (Hhead []). rewrite app_nil_r in Hhead. rewrite Hhead.
    rewrite (bool_decide_eq_false_2 _ Hdash : (n =s "-") = false).
    rewrite (proj2 (Cut_char_None _ _) Heq). unfold parse_flag. simpl. rewrite Hf. exact Hp.
Qed.

Lemma parseOne_rest fs r : rest_args (args fs) = Some r → parseOne fs = Ret (set_args fs r, (false, [], None)).
Proof.
  unfold parseOne, rest_args.
  assert (Hsame : set_args fs (args fs) = fs) by (by destruct fs).
  destruct (args fs) as [|a rest] eqn:Ea; [intros [= <-]; by rewrite Hsame|].
  destruct (a =s "--") eqn:Ed.
  { apply bool_decide_eq_true in Ed as ->. by intros [= <-]. }
  destruct a as [|c [|d n]]; [intros [= <-]; by rewrite Hsame|intros [= <-]; simpl|].
  { rewrite orb_true_r. by rewrite Hsame. }
  destruct (c =c "-") eqn:Ec; [done|]. intros [= <-]. simpl. by rewrite Hsame.
Qed.

Lemma parse_loop_settings l fs rest r h' fuel :
  named_flags (formal fs) → Forall wf_setting l →
  apply_settings (formal fs) (heap fs) l = Some h' → rest_args rest = Some r →
  args fs = concat (render <$> l) ++ rest → length l < fuel →
  ∃ fs', parse_loop fuel fs = Ret (fs', None) ∧ same_defs fs fs' ∧ args fs' = r ∧ heap fs' = h' ∧
    ∀ n, IsSet n fs' = IsSet n fs || bool_decide (n ∈ setting_name <$> l).
Proof.
  intros Hn Hl. revert fs fuel Hn. induction Hl as [|s l Hs _ IH]; intros fs fuel Hn Hap Hr Ha Hf;
    (destruct fuel as [|fuel]; [lia|]); cbn [parse_loop apply_settings] in *.
  - simpl in Ha. rewrite <-Ha in Hr. rewrite (parseOne_rest fs r Hr).
    exists (set_args fs r). simplify_eq. split_and!; try done. intros n.
    rewrite bool_decide_eq_false_2 by (apply not_elem_of_nil). by rewrite orb_false_r.
  - destruct (apply_setting (formal fs) (heap fs) s) as [h1|] eqn:E1; [|done]. simpl in Hap.
    unfold apply_setting in E1. destruct (formal fs !! setting_name s) as [flag|] eqn:Ef; [|done].
    simpl in E1. destruct (heap fs !! Value flag) as [v|] eqn:Ev; [|done]. simpl in E1.
    case_match eqn:Ek; [|done]. destruct (vset v (setting_value s)) as [v' [e|]] eqn:Es; [done|].
    injection E1 as <-.
    assert (Hk : match s with SetEq _ _ => True | SetNext _ _ => vbool v = false | SetBool _ => vbool v = true end).
    { destruct s; [done|by apply negb_true_iff|done]. }
    destruct (parseOne_setting s fs flag v v' (concat (render <$> l) ++ rest)) as
      (fs1 & E & Hd & Ha1 & Hh1 & Hact); try done.
    { rewrite Ha. simpl. by rewrite (assoc_L (++)). }
    rewrite E. destruct (IH fs1 fuel) as (fs' & E' & Hd' & Har & Hhr & Hset).
    + by rewrite (proj1 Hd).
    + by rewrite (proj1 Hd), Hh1.
    + done.
    + done.
    + simpl in Hf. lia.
    + exists fs'. split_and!; [done|by etrans|done|done|]. intros n. rewrite Hset.
      unfold IsSet. rewrite Hact, fmap_cons. destruct (decide (n = setting_name s)) as [->|Hne].
      * rewrite lookup_insert_eq. rewrite (bool_decide_eq_true_2 (is_Some (Some flag))) by eauto.
        rewrite (bool_decide_eq_true_2 (_ ∈ _ :: _)) by (apply elem_of_cons; by left).
        by rewrite orb_true_r.
      * rewrite lookup_insert_ne by done. f_equal. apply bool_decide_ext.
        rewrite elem_of_cons. naive_solver.
Qed.
End rendered.

(** ** Properties *)

Section properties.
Context {V : Type} `{!FlagValue V}.
Implicit Types (fs : FlagSet V).

(** [Parse] always ends, on every argument list and every flag set: its loop,
    with the letter-by-letter retry inside it, never runs out of the fuel of one
    round per argument. *)
Theorem Parse_terminates fs arguments : Parse arguments fs ≠ OutOfFuel.
Proof. apply parse_loop_ends. simpl. lia. Qed.

(** When [Parse] succeeds the arguments it leaves are a suffix of the ones it
    was given, and the defined flags, the error policy and the number of values
    are as before: nothing is invented and nothing is reordered. *)
Theorem Parse_leaves_suffix fs arguments fs' :
  Parse arguments fs = Ret (fs', None) →
  (args fs') `suffix_of` arguments ∧ same_defs fs fs'.
Proof.
  unfold Parse. intros H. eapply parse_loop_ends in H as [H1 H2]; [|simpl; lia].
  simpl in *. split; [by apply H2|done].
Qed.

(** C35: a rendered command line means what it says: settings written [-n=v],
    [-n v] or [-n], whose flags exist and accept the values, followed by the
    rest of the line, are applied to the values in order, recorded as set, and
    leave exactly the rest. *)
Theorem Parse_render fs l rest r h' :
  named_flags (formal fs) → Forall wf_setting l →
  apply_settings (formal fs) (heap fs) l = Some h' → rest_args rest = Some r →
  ∃ fs', Parse (concat (render <$> l) ++ rest) fs = Ret (fs', None) ∧
    args fs' = r ∧ heap fs' = h' ∧ formal fs' = formal fs ∧
    ∀ n, IsSet n fs' = IsSet n fs || bool_decide (n ∈ setting_name <$> l).
Proof.
  intros Hn Hl Hap Hr. unfold Parse.
  destruct (parse_loop_settings l (set_args (set_parsed fs) (concat (render <$> l) ++ rest)) rest r h'
    (S (length (concat (render <$> l) ++ rest)))) as (fs' & E & Hd & Ha & Hh & Hset); try done.
  - assert (length l ≤ length (concat (render <$> l))); [|rewrite length_app; lia].
    clear. induction l as [|s l IH]; csimpl; [done|].
    rewrite length_app. destruct s; csimpl; lia.
  - exists fs'. split_and!; [done|done|done|apply Hd|done].
Qed.

(** [CheckArgs] reports a requirement exactly when one is violated, and then
    the first violated one. *)
Theorem CheckArgs_spec fs :
  match CheckArgs fs with
  | None => Forall (fun r => req_holds (Z.of_nat (NArg fs)) r = true) (nArgRequirements fs)
  | Some r => ∃ l1 l2, nArgRequirements fs = l1 ++ r :: l2 ∧ req_holds (Z.of_nat (NArg fs)) r = false ∧
      Forall (fun r => req_holds (Z.of_nat (NArg fs)) r = true) l1
  end.
Proof.
  unfold CheckArgs. generalize (Z.of_nat (NArg fs)) as n. intros n.
  assert (Hc : ∀ r rs, check_reqs n (r :: rs) = if req_holds n r then check_reqs n rs else Some r).
  { intros r rs. simpl. unfold req_holds. destruct (req_Type r).
    - by destruct (n =? req_N r)%Z.
    - rewrite Z.ltb_antisym. by destruct (n <=? req_N r)%Z.
    - rewrite Z.ltb_antisym. by destruct (req_N r <=? n)%Z. }
  induction (nArgRequirements fs) as [|r rs IH]; [constructor|]. rewrite Hc.
  destruct (req_holds n r) eqn:E; [|exists [], rs; split_and!; [done|done|constructor]].
  destruct (check_reqs n rs) as [r'|].
  - destruct IH as (l1 & l2 & -> & H1 & H2). exists (r :: l1), l2. split_and!; [done|done|by constructor].
  - by constructor.
Qed.
End properties.


(** A small command's flags, as [hyper run] declares them. *)
Definition demo_flags : FlagSet value :=
  match Var (boolValue false) ["i"; "-interactive"] "Keep STDIN open" (NewFlagSet "run" ContinueOnError) with
  | Ret fs => match Var (boolValue false) ["t"; "-tty"] "Allocate a pseudo-TTY" fs with
              | Ret fs => match Var (stringValue []) ["#w"; "-workdir"] "Working directory" fs with
                          | Ret fs => fs
                          | _ => NewFlagSet "run" ContinueOnError
                          end
              | _ => NewFlagSet "run" ContinueOnError
              end
  | _ => NewFlagSet "run" ContinueOnError
  end.

Lemma Parse_leaves_suffix_witness :
  (args (match Parse ["-it"; "-w"; "/tmp"; "busybox"; "sh"] demo_flags with
         | Ret (fs', _) => fs' | _ => demo_flags end)) `suffix_of` ["-it"; "-w"; "/tmp"; "busybox"; "sh"] ∧
  same_defs demo_flags (match Parse ["-it"; "-w"; "/tmp"; "busybox"; "sh"] demo_flags with
         | Ret (fs', _) => fs' | _ => demo_flags end).
Proof. apply Parse_leaves_suffix. vm_compute. reflexivity. Defined.

Lemma Parse_render_witness :
  ∃ fs', Parse (concat (render <$> [SetBool "i"; SetEq "-workdir" "/tmp"; SetNext "w" "/home"])
                 ++ ["busybox"; "-t"]) demo_flags = Ret (fs', None) ∧
    args fs' = ["busybox"; "-t"] ∧
    heap fs' = [boolValue true; boolValue false; stringValue "/home"] ∧
    formal fs' = formal demo_flags ∧
    ∀ n, IsSet n fs' = IsSet n demo_flags ||
      bool_decide (n ∈ setting_name <$> [SetBool "i"; SetEq "-workdir" "/tmp"; SetNext "w" "/home"]).
Proof.
  apply Parse_render.
  - change (map_Forall (fun _ f => Forall (fun x => x ≠ []) (Names f)) (formal demo_flags)).
    vm_decide.
  - repeat (apply Forall_cons_2; [split_and!; first [discriminate|vm_decide|exact I|vm_compute; reflexivity]|]).
    apply Forall_nil_2.
  - vm_compute. reflexivity.
  - vm_compute. reflexivity.
Defined.

(** Two surprises of the parser, on the flags of [hyper run]: a value given to
    a bundle of letters is dropped, so [-it=false] turns both flags on; and a
    value that is a single quote character makes [trimQuotes] slice out of
    range and panic. *)
Theorem Parse_surprises :
  (∃ fs', Parse ["-it=false"] demo_flags = Ret (fs', None) ∧
          heap fs' = [boolValue true; boolValue true; stringValue []]) ∧
  Parse [ "--workdir='" ] demo_flags = Panicked ∧
  (∀ q, q = ch "034" ∨ q = ch "'" → trimQuotes [q] = None).
Proof.
  split_and!.
  - exists (match Parse ["-it=false"] demo_flags with Ret (fs', _) => fs' | _ => demo_flags end).
    split; vm_compute; reflexivity.
  - vm_compute. reflexivity.
  - intros q [->| ->]; vm_compute; reflexivity.
Qed.
