(* ===== verification/GoPath.v ===== *)
(** * GoPath: the [path] and [path/filepath] functions the program uses

    [Clean], [Split], [IsAbs], [Join], [Base], [Dir] on slash-separated paths
    (the Unix flavour of [path/filepath] agrees with [path]).  [Clean] is Go's
    lexical rewriting: elements are pushed on a stack, [.] and empty elements
    are dropped, [..] pops an element unless there is none to pop. *)

From S2P Require Import Prelude.
Import Strings.

Module GoPath.

Definition IsAbs (p : gostring) : bool := HasPrefix p "/".

(** The element stack, innermost first. *)
Definition push_elem (rooted : bool) (stack : list gostring) (e : gostring) : list gostring :=
  if (e =s []) || (e =s ".") then stack
  else if e =s ".." then
    match stack with
    | top :: stack' => if top =s ".." then e :: stack else stack'
    | [] => if rooted then [] else [e]
    end
  else e :: stack.

Definition clean_elems (rooted : bool) (es : list gostring) : list gostring :=
  rev (foldl (push_elem rooted) [] es).

(** [path.Clean]. *)
Definition Clean (p : gostring) : gostring :=
  if p =s [] then "."
  else
    let rooted := IsAbs p in
    let body := Join (clean_elems rooted (Split p "/")) "/" in
    if rooted then ch "/" :: body
    else if body =s [] then "." else body.

(** [path.Split]: directory up to and including the last slash, and the file. *)
Definition split_last (c : ascii) (p : gostring) : option (gostring * gostring) :=
  match Cut [c] (rev p) with
  | Some (f, d) => Some (rev d, rev f)
  | None => None
  end.
Definition PathSplit (p : gostring) : gostring * gostring :=
  match split_last "/" p with
  | Some (d, f) => (d ++ "/", f)
  | None => ([], p)
  end.

(** [path.Join]: empty elements are ignored, the result is cleaned. *)
Definition PathJoin (es : list gostring) : gostring :=
  match filter (fun e => e ≠ []) es with
  | [] => []
  | es => Clean (Join es "/")
  end.

(** [path.Base] and [path.Dir]. *)
Definition Base (p : gostring) : gostring :=
  if p =s [] then "."
  else
    let q := TrimRight p "/" in
    let f := (PathSplit q).2 in
    if f =s [] then "/" else f.
Definition Dir (p : gostring) : gostring := Clean (PathSplit p).1.

End GoPath.

Import GoPath.

Lemma split_last_Some c p d f : split_last c p = Some (d, f) ↔ p = d ++ c :: f ∧ c ∉ f.
Proof.
  unfold split_last. split.
  - destruct (Cut [c] (rev p)) as [[f' d']|] eqn:E; [|done]. intros [= <- <-].
    apply Cut_char_Some in E as [E Hc]. apply (f_equal (@rev ascii)) in E.
    rewrite rev_involutive in E. rewrite E, rev_app_distr. simpl. rewrite <-(assoc_L (++)).
    split; [done|]. by rewrite list_elem_of_In, <-in_rev, <-list_elem_of_In.
  - intros [-> Hc]. rewrite rev_app_distr. simpl. rewrite <-(assoc_L (++)). simpl.
    rewrite Cut_char_app; [by rewrite !rev_involutive|].
    by rewrite list_elem_of_In, <-in_rev, <-list_elem_of_In.
Qed.

Lemma split_last_None c p : split_last c p = None ↔ c ∉ p.
Proof.
  unfold split_last. destruct (Cut [c] (rev p)) as [[f d]|] eqn:E.
  - apply Cut_char_Some in E as [E _]. split; [done|]. intros H. exfalso. apply H.
    rewrite list_elem_of_In, in_rev, E, <-list_elem_of_In. set_solver.
  - apply Cut_char_None in E. split; [|done]. intros _.
    by rewrite list_elem_of_In, in_rev, <-list_elem_of_In.
Qed.

(** ** Cleaned element lists *)

(** A normal element: not empty, not [.], no slash. *)
Definition plain_elem (e : gostring) : Prop := e ≠ [] ∧ e ≠ "." ∧ ch "/" ∉ e.
(** Innermost first: normal elements over a block of [..], which a rooted path
    does not have. *)
Fixpoint clean_stack (rooted : bool) (st : list gostring) : Prop :=
  match st with
  | [] => True
  | e :: st => plain_elem e ∧ (e = ".." → rooted = false ∧ Forall (fun x => x = "..") st) ∧ clean_stack rooted st
  end.

Lemma push_elem_clean rooted st e :
  clean_stack rooted st → ch "/" ∉ e → clean_stack rooted (push_elem rooted st e).
Proof.
  intros Hst He. unfold push_elem.
  destruct ((e =s []) || (e =s ".")) eqn:E0; [done|].
  apply orb_false_iff in E0 as [E1%bool_decide_eq_false E2%bool_decide_eq_false].
  destruct (e =s "..") eqn:E3.
  - apply bool_decide_eq_true in E3 as ->. destruct st as [|top st].
    + destruct rooted; simpl; [done|]. split_and!; [done|done|done].
    + destruct Hst as (Htop & Hdots & Hst). destruct (top =s "..") eqn:Et; [|done].
      apply bool_decide_eq_true in Et as ->. destruct (Hdots eq_refl) as [-> Hall].
      simpl. split_and!; try done. intros _. split; [done|]. by constructor.
  - apply bool_decide_eq_false in E3. simpl. split_and!; done.
Qed.

Lemma foldl_push_clean rooted es st :
  clean_stack rooted st → Forall (fun e => ch "/" ∉ e) es →
  clean_stack rooted (foldl (push_elem rooted) st es).
Proof.
  intros Hst Hes. revert st Hst. induction Hes as [|e es He _ IH]; intros st Hst; simpl; [done|].
  apply IH. by apply push_elem_clean.
Qed.

(** A clean stack is rebuilt by pushing its elements. *)
Lemma foldl_push_id rooted st :
  clean_stack rooted st → foldl (push_elem rooted) [] (rev st) = st.
Proof.
  induction st as [|e st IH]; simpl; [done|]. intros ((Hne & Hdot & _) & Hdots & Hst).
  rewrite foldl_app, IH by done. simpl. unfold push_elem.
  rewrite (bool_decide_eq_false_2 (e = []) Hne : (e =s []) = false).
  rewrite (bool_decide_eq_false_2 (e = ".") Hdot : (e =s ".") = false). simpl.
  destruct (e =s "..") eqn:E; [|done]. apply bool_decide_eq_true in E as ->.
  destruct (Hdots eq_refl) as [-> Hall]. destruct Hall as [|x st -> _]; done.
Qed.

Lemma clean_stack_elems rooted st : clean_stack rooted st → Forall (fun e => ch "/" ∉ e) (rev st).
Proof.
  intros H. apply Forall_rev. induction st as [|e st IH]; [constructor|].
  destruct H as ((_ & _ & He) & _ & Hst). constructor; auto.
Qed.

Lemma clean_elems_shape rooted p : clean_stack rooted (rev (clean_elems rooted (Split p "/"))).
Proof.
  unfold clean_elems. rewrite rev_involutive. apply foldl_push_clean; [done|].
  apply Forall_forall. intros e He. by eapply Split_char_free.
Qed.

Lemma push_elem_nil rooted st : push_elem rooted st [] = st.
Proof. done. Qed.

Lemma Split_slash_cons p : Split (ch "/" :: p) "/" = [] :: Split p "/".
Proof. reflexivity. Qed.

(** Reading back a joined list of clean elements. *)
Lemma clean_elems_Join rooted st :
  clean_stack rooted st → clean_elems rooted (Split (Join (rev st) "/") "/") = rev st.
Proof.
  intros H. unfold clean_elems. destruct st as [|e st]; [done|].
  rewrite Split_Join_char; [by rewrite foldl_push_id| |by apply clean_stack_elems in H].
  simpl. by destruct (rev st).
Qed.

Lemma Join_ne l : l ≠ [] → Forall (fun e => e ≠ []) l → Join l "/" ≠ ([] : gostring).
Proof. destruct l as [|e [|e' l]]; [done| |]; intros _ [He _]%Forall_cons; simpl; [done|]. by destruct e. Qed.

Lemma clean_stack_ne rooted st : clean_stack rooted st → Forall (fun e => e ≠ []) (rev st).
Proof.
  intros H. apply Forall_rev. induction st as [|e st IH]; [constructor|].
  destruct H as ((He & _) & _ & Hst). constructor; auto.
Qed.

Lemma Join_not_abs st rooted : clean_stack rooted st → IsAbs (Join (rev st) "/") = false.
Proof.
  intros H. pose proof (clean_stack_elems _ _ H) as Hs. pose proof (clean_stack_ne _ _ H) as Hn.
  destruct (rev st) as [|e l]; [done|].
  apply Forall_cons in Hs as [He _]. apply Forall_cons in Hn as [Hne _].
  unfold IsAbs. apply not_true_iff_false. intros [t Ht]%HasPrefix_spec.
  destruct e as [|c e]; [done|]. destruct l; simpl in Ht; simplify_eq; set_solver.
Qed.

Lemma clean_join_ne_dot st rooted : clean_stack rooted st → Join (rev st) "/" ≠ ".".
Proof.
  intros H Hj. pose proof (clean_elems_Join rooted st H) as Hc. rewrite Hj in Hc.
  assert (He : clean_elems rooted (Split "." "/") = []) by (by destruct rooted).
  rewrite <-Hc, He in Hj. done.
Qed.

(** Cleaning is idempotent, keeps rootedness and never yields the empty path. *)
Lemma Clean_spec p :
  Clean (Clean p) = Clean p ∧ IsAbs (Clean p) = IsAbs p ∧ Clean p ≠ [].
Proof.
  unfold Clean at 2 3 4 5. destruct (p =s []) eqn:Ep.
  { apply bool_decide_eq_true in Ep as ->. done. }
  pose proof (clean_elems_shape (IsAbs p) p) as Hs.
  pose proof (clean_elems_Join _ _ Hs) as Hj. rewrite rev_involutive in Hj.
  pose proof (Join_not_abs _ _ Hs) as Ha. rewrite rev_involutive in Ha.
  pose proof (clean_join_ne_dot _ _ Hs) as Hd. rewrite rev_involutive in Hd.
  set (body := Join _ "/") in *. destruct (IsAbs p) eqn:Er.
  - split_and!; [|done|done].
    change (Clean (ch "/" :: body)) with (ch "/" :: Join (clean_elems true (Split body "/")) "/").
    by rewrite Hj.
  - destruct (body =s []) eqn:Eb; [done|]. apply bool_decide_eq_false in Eb.
    split_and!; [|done|done]. unfold Clean.
    rewrite (bool_decide_eq_false_2 (body = []) Eb : (body =s []) = false). rewrite Ha, Hj.
    fold body. by rewrite (bool_decide_eq_false_2 (body = []) Eb : (body =s []) = false).
Qed.

Lemma Clean_idemp p : Clean (Clean p) = Clean p.
Proof. apply Clean_spec. Qed.
Lemma IsAbs_Clean p : IsAbs (Clean p) = IsAbs p.
Proof. apply Clean_spec. Qed.

(** Cleaning invents no character but slashes and the dot of an empty path. *)
Lemma push_elem_sub rooted st e x : x ∈ push_elem rooted st e → x ∈ st ∨ x = e.
Proof.
  unfold push_elem. destruct (_ || _); [by left|]. destruct (e =s ".."); [|set_solver].
  destruct st as [|top st]; [destruct rooted; set_solver|]. destruct (top =s ".."); set_solver.
Qed.
Lemma foldl_push_sub rooted es st x :
  x ∈ foldl (push_elem rooted) st es → x ∈ st ∨ x ∈ es.
Proof.
  revert st. induction es as [|e es IH]; intros st; simpl; [by left|].
  intros [[?|?]%push_elem_sub|?]%IH; set_solver.
Qed.
Lemma elem_of_Join c (l : list gostring) sep : c ∈ Join l sep → c ∈ sep ∨ ∃ x, x ∈ l ∧ c ∈ x.
Proof.
  induction l as [|x [|y l] IH]; intros H; [by apply elem_of_nil in H|set_solver|].
  change (c ∈ x ++ sep ++ Join (y :: l) sep) in H. set_solver.
Qed.
Lemma Join_elem_of c (l : list gostring) sep x : x ∈ l → c ∈ x → c ∈ Join l sep.
Proof.
  intros Hx Hc. induction l as [|z [|y l] IH]; [by apply elem_of_nil in Hx|set_solver|].
  change (c ∈ z ++ sep ++ Join (y :: l) sep). set_solver.
Qed.
Lemma Clean_chars c p : c ∈ Clean p → c ∈ p ∨ c = ch "/" ∨ c = ch ".".
Proof.
  unfold Clean. destruct (p =s []); [set_solver|].
  assert (H : c ∈ Join (clean_elems (IsAbs p) (Split p "/")) "/" → c ∈ p ∨ c = ch "/").
  { intros [Hc|(x & Hx & Hc)]%elem_of_Join; [right; set_solver|left].
    unfold clean_elems in Hx. rewrite list_elem_of_In, <-in_rev, <-list_elem_of_In in Hx.
    apply foldl_push_sub in Hx as [Hx|Hx]; [by apply elem_of_nil in Hx|].
    rewrite <-(Join_Split p "/"). by apply (Join_elem_of _ _ _ x). }
  destruct (IsAbs p); [set_solver|]. destruct (_ =s []); set_solver.
Qed.
Lemma Clean_free c p : c ∉ p → c ≠ ch "/" → c ≠ ch "." → c ∉ Clean p.
Proof. intros ??? ?%Clean_chars. naive_solver. Qed.
#[export] Hint Rewrite Clean_idemp IsAbs_Clean : gopath.
