(* ===== verification/GoNet.v ===== *)
(** * GoNet: the functions of Go's [net] package the program uses

    [ParseIP] (dotted IPv4, and IPv6 with an ellipsis and an embedded IPv4
    tail), [IP.String], [SplitHostPort], [JoinHostPort] and [ParseMAC]. *)

From S2P Require Import Prelude Strconv.
Import Strings Strconv.

Local Open Scope Z_scope.

Module GoNet.

(** An address is its 16 bytes. *)
Definition IP := list Z.

Definition big : Z := 16777215.   (* 0xFFFFFF *)

(** [dtoi] and [xtoi]: a number at the head of the text; [None] on no digits or
    a number that is too big. *)
Fixpoint digits_to (base n : Z) (s : gostring) : option (Z * gostring) :=
  match s with
  | [] => Some (n, [])
  | c :: s' =>
      match digit_val c with
      | Some v => if v <? base then
                    let n' := n * base + v in
                    if big <=? n' then None else digits_to base n' s'
                  else Some (n, s)
      | None => Some (n, s)
      end
  end.
Definition xtoi_in (base : Z) (s : gostring) : option (Z * gostring) :=
  '(n, rest) ← digits_to base 0 s;
  if Nat.eqb (length rest) (length s) then None else Some (n, rest).
Definition dtoi := xtoi_in 10.
Definition xtoi := xtoi_in 16.

Fixpoint octets (j : nat) (first : bool) (s : gostring) : option (list Z) :=
  match j with
  | O => if decide (s = []) then Some [] else None
  | S j =>
      s ← (match s with
           | [] => None
           | c :: s' => if first then Some s else if c =c "." then Some s' else None
           end);
      '(n, rest) ← dtoi s;
      if 255 <? n then None else (n ::.) <$> octets j false rest
  end.
Definition parseIPv4 (s : gostring) : option (list Z) := octets 4 true s.

(** The group loop of [parseIPv6]: [acc] holds the bytes so far, [ell] the
    position of the ellipsis.  At most eight groups are read. *)
Fixpoint groups (fuel : nat) (acc : list Z) (ell : option nat) (s : gostring)
    : option (list Z * option nat) :=
  match fuel with
  | O => if decide (s = []) then Some (acc, ell) else None
  | S fuel =>
      '(n, rest) ← xtoi s;
      if 65535 <? n then None
      else match rest with
      | c :: rest' =>
          if c =c "." then
            if bool_decide (ell = None) && negb (Nat.eqb (length acc) 12) then None
            else if Nat.ltb 16 (length acc + 4) then None
            else p4 ← parseIPv4 s; Some (acc ++ p4, ell)
          else
            let acc := acc ++ [n / 256; n mod 256] in
            if negb (c =c ":") then None
            else match rest' with
            | [] => None
            | d :: rest'' =>
                if d =c ":" then
                  match ell with
                  | Some _ => None
                  | None => if decide (rest'' = []) then Some (acc, Some (length acc))
                            else groups fuel acc (Some (length acc)) rest''
                  end
                else groups fuel acc ell rest'
            end
      | [] => Some (acc ++ [n / 256; n mod 256], ell)
      end
  end.

Definition expand (r : list Z * option nat) : option IP :=
  let '(acc, ell) := r in
  if Nat.ltb (length acc) 16 then
    match ell with
    | None => None
    | Some e => Some (take e acc ++ replicate (16 - length acc) 0 ++ drop e acc)
    end
  else if decide (ell = None) then Some acc else None.

Definition parseIPv6 (s : gostring) : option IP :=
  match s with
  | c :: d :: s' =>
      if (c =c ":") && (d =c ":") then
        if decide (s' = []) then Some (replicate 16 0)
        else r ← groups 8 [] (Some 0%nat) s'; expand r
      else r ← groups 8 [] None s; expand r
  | _ => r ← groups 8 [] None s; expand r
  end.

Definition v4InV6Prefix : list Z := replicate 10 0 ++ [255; 255].

(** The first dot or colon decides the family. *)
Fixpoint family (s : gostring) : option bool :=
  match s with
  | [] => None
  | c :: s => if c =c "." then Some true else if c =c ":" then Some false else family s
  end.
Definition ParseIP (s : gostring) : option IP :=
  match family s with
  | Some true => app v4InV6Prefix <$> parseIPv4 s
  | Some false => parseIPv6 s
  | None => None
  end.

(** [IP.String]. *)
Definition hex_digit (d : Z) : ascii := if d <? 10 then digit_char d else ascii_of_N (Z.to_N (d + 87)).
Fixpoint hex_loop (fuel : nat) (n : Z) (acc : gostring) : gostring :=
  match fuel with
  | O => acc
  | S f => if n <? 16 then hex_digit n :: acc else hex_loop f (n / 16) (hex_digit (n mod 16) :: acc)
  end.
Definition FormatHex (n : Z) : gostring := hex_loop 4 n [].
Fixpoint words (ip : list Z) : list Z :=
  match ip with
  | a :: b :: ip => (a * 256 + b) :: words ip
  | _ => []
  end.
(** Longest run of zero groups, the first one of that length: start and end. *)
Fixpoint zero_run (ws : list Z) : nat :=
  match ws with w :: ws => if w =? 0 then S (zero_run ws) else O | [] => O end.
Fixpoint best_run (i : nat) (ws : list Z) (best : nat * nat) : nat * nat :=
  match ws with
  | [] => best
  | w :: ws' =>
      let n := zero_run ws in
      best_run (S i) ws' (if Nat.ltb (snd best) n then (i, n) else best)
  end.
Definition To4 (ip : IP) : option (list Z) :=
  if decide (take 12 ip = v4InV6Prefix) then Some (drop 12 ip) else None.
Definition IPString (ip : IP) : gostring :=
  match To4 ip with
  | Some p4 => Join (FormatUint <$> p4) "."
  | None =>
      let ws := words ip in
      let '(e0, n) := best_run 0 ws (0, 0)%nat in
      let show (l : list Z) := Join (FormatHex <$> l) ":" in
      if Nat.leb n 1 then show ws
      else show (take e0 ws) ++ "::" ++ show (drop (e0 + n) ws)
  end.

(** [SplitHostPort]: the port starts after the last colon; brackets protect the
    colons of an IPv6 host. *)
Definition last_cut (c : ascii) (s : gostring) : option (gostring * gostring) :=
  match Cut [c] (rev s) with
  | Some (a, b) => Some (rev b, rev a)
  | None => None
  end.
Definition SplitHostPort (hostport : gostring) : option (gostring * gostring) :=
  '(before, port) ← last_cut ":" hostport;
  match hostport with
  | c :: rest =>
      if c =c "[" then
        '(host, after) ← Cut "]" rest;
        (* the first closing bracket must be just before the last colon *)
        if decide (after = ch ":" :: port) then
          if ContainsRune rest "[" || ContainsRune after "]" then None else Some (host, port)
        else None
      else if ContainsRune before ":" || ContainsRune before "%" then None
      else if ContainsRune hostport "[" || ContainsRune hostport "]" then None
      else Some (before, port)
  | [] => None
  end.
Definition JoinHostPort (host port : gostring) : gostring :=
  if ContainsRune host ":" || ContainsRune host "%"
  then "[" ++ host ++ "]:" ++ port else host ++ ":" ++ port.

(** [ParseMAC], as a test: 6, 8 or 20 bytes, separated by colons, hyphens or
    grouped in fours by dots. *)
Definition hex_byte (s : gostring) : bool :=
  match s with [a; b] => is_xdigit a && is_xdigit b | _ => false end.
Definition hex_word (s : gostring) : bool :=
  match s with [a; b; c; d] => hex_byte [a; b] && hex_byte [c; d] | _ => false end.
Definition mac_len (n : nat) : bool := bool_decide (n ∈ [6; 8; 20]%nat).
Definition ParseMAC (s : gostring) : bool :=
  if Nat.ltb (length s) 14 then false
  else
    let sep (c : ascii) := bool_decide (s !! 2%nat = Some c) in
    if sep (ch ":") || sep (ch "-") then
      let ws := Split s (if sep (ch ":") then ":" else "-") in
      mac_len (length ws) && forallb hex_byte ws
    else if bool_decide (s !! 4%nat = Some (ch ".")) then
      let ws := Split s "." in
      mac_len (2 * length ws) && forallb hex_word ws
    else false.

End GoNet.

Import GoNet.

Example ip_ex1 : IPString <$> ParseIP "192.168.0.1" = Some "192.168.0.1".
Proof. vm_compute. reflexivity. Qed.
Example ip_ex2 : IPString <$> ParseIP "2001:DB8:0:0:0:0:0:33" = Some "2001:db8::33".
Proof. vm_compute. reflexivity. Qed.
Example ip_ex3 : IPString <$> ParseIP "::ffff:1.2.3.4" = Some "1.2.3.4".
Proof. vm_compute. reflexivity. Qed.
Example ip_ex4 : ParseIP "1.2.3" = None ∧ ParseIP "1::2::3" = None ∧ ParseIP "1:2:3:4:5:6:7:8:9" = None.
Proof. vm_compute. done. Qed.
Example hp_ex1 : SplitHostPort "[::1]:80" = Some ("::1", "80") ∧ SplitHostPort "::1:80" = None ∧
  SplitHostPort ":" = Some ([], []) ∧ SplitHostPort "localhost" = None.
Proof. vm_compute. done. Qed.
Example mac_ex : ParseMAC "92:d0:c6:0a:29:33" = true ∧ ParseMAC "92d0.c60a.2933" = true ∧ ParseMAC "92:d0" = false.
Proof. vm_compute. done. Qed.
