(* ===== verification/Opts.v ===== *)
(** * Opts: option values and validators

    Models [src/opts/opts.go], [src/runconfig/opts/opts.go],
    [throttledevice.go], [weightdevice.go], [ulimit.go], [envfile.go] and the
    stand-alone parsers of [src/runconfig/opts/parse.go] (restart policies,
    devices, links, bind specifications, key/value lists), with the vendored
    [go-units] size and ulimit parsers they call.

    The process environment and the files read are arguments. *)

From S2P Require Import Prelude Strconv Regexp GoPath GoNet.
Import Strings Strconv Regexp GoPath GoNet.

Local Open Scope Z_scope.

(** ** go-units *)

Module Units.

Definition size_unit (c : ascii) : bool := bool_decide (c ∈ ["k"; "K"; "m"; "M"; "g"; "G"; "t"; "T"; "p"; "P"]%char).
Definition sizeRegex : re :=
  Seq (Cap 1 (Plus (Chr is_digit)))
    (Seq (Opt (Cap 2 (Chr size_unit))) (Opt (Chr (fun c => (c =c "b") || (c =c "B"))))).

Definition binaryMap (u : gostring) : option Z :=
  if u =s "k" then Some (2 ^ 10) else if u =s "m" then Some (2 ^ 20)
  else if u =s "g" then Some (2 ^ 30) else if u =s "t" then Some (2 ^ 40)
  else if u =s "p" then Some (2 ^ 50) else None.

(** [parseSize] with [binaryMap]; the product is computed on int64. *)
Definition RAMInBytes (sizeStr : gostring) : result goerror Z :=
  match FullMatch sizeRegex sizeStr with
  | None => Err (Errorf "invalid size: '%s'" [sizeStr])
  | Some m =>
      let! size := num_result (ParseInt (group m 1) 10 64) in
      match binaryMap (ToLower (group m 2)) with
      | Some mul => Ok (to_int64 (size * mul))
      | None => Ok size
      end
  end.

Record Ulimit := mkUlimit { ul_Name : gostring; ul_Hard : Z; ul_Soft : Z }.

Definition ulimitNames : list gostring :=
  ["core"; "cpu"; "data"; "fsize"; "locks"; "memlock"; "msgqueue"; "nice"; "nofile"; "nproc";
   "rss"; "rtprio"; "rttime"; "sigpending"; "stack"].

(** [ParseUlimit]; the error of the hard limit's conversion is not looked at. *)
Definition ParseUlimit (val : gostring) : result goerror Ulimit :=
  match SplitN val "=" 2 with
  | [n; limits] =>
      if negb (bool_decide (n ∈ ulimitNames)) then Err (Errorf "invalid ulimit type: %s" [n])
      else
        let limitVals := SplitN limits ":" 2 in
        let! soft := num_result (ParseInt (default [] (limitVals !! 0%nat)) 10 64) in
        let hard := match limitVals with [_; h] => (ParseInt h 10 64).1 | _ => soft end in
        if hard <? soft
        then Err (Errorf "ulimit soft limit must be less than or equal to hard limit: %d > %d"
                    [FormatInt soft; FormatInt hard])
        else Ok (mkUlimit n hard soft)
  | _ => Err (Errorf "invalid ulimit argument: %s" [val])
  end.

End Units.

(** ** opts/opts.go *)

Module Opts.

Definition ValidatorFctType := gostring → result goerror gostring.

Record ListOpts := mkListOpts { values : list gostring; validator : option ValidatorFctType }.

Definition NewListOpts (v : option ValidatorFctType) : ListOpts := mkListOpts [] v.

Definition validated (v : option ValidatorFctType) (s : gostring) : result goerror gostring :=
  match v with None => Ok s | Some f => f s end.

(** [ListOpts.Set]. *)
Definition ListOpts_Set (o : ListOpts) (s : gostring) : ListOpts * option goerror :=
  match validated (validator o) s with
  | Err e => (o, Some e)
  | Ok v => (mkListOpts (values o ++ [v]) (validator o), None)
  end.
(** [ListOpts.Delete]: the first occurrence. *)
Fixpoint delete_first (key : gostring) (l : list gostring) : list gostring :=
  match l with
  | [] => []
  | k :: l => if decide (k = key) then l else k :: delete_first key l
  end.
Definition ListOpts_Delete (o : ListOpts) (key : gostring) : ListOpts :=
  mkListOpts (delete_first key (values o)) (validator o).
Definition ListOpts_GetMap (o : ListOpts) : gset gostring := list_to_set (values o).
Definition ListOpts_GetAll (o : ListOpts) : list gostring := values o.
Definition ListOpts_Get (o : ListOpts) (key : gostring) : bool := existsb (fun k => k =s key) (values o).
Definition ListOpts_Len (o : ListOpts) : nat := length (values o).

Record MapOpts := mkMapOpts { mvalues : gmap gostring gostring; mvalidator : option ValidatorFctType }.
Definition MapOpts_Set (o : MapOpts) (s : gostring) : MapOpts * option goerror :=
  match validated (mvalidator o) s with
  | Err e => (o, Some e)
  | Ok v =>
      let kv := match SplitN v "=" 2 with
                | [k; x] => (k, x)
                | k :: _ => (k, [])
                | [] => ([], [])
                end in
      (mkMapOpts (<[kv.1 := kv.2]> (mvalues o)) (mvalidator o), None)
  end.

Definition ValidateIPAddress (val : gostring) : result goerror gostring :=
  match ParseIP (TrimSpace val) with
  | Some ip => Ok (IPString ip)
  | None => Err (Errorf "%s is not an ip address" [val])
  end.

(** [domainRegexp]; its groups are written [(:?...)], that is, an optional colon. *)
Definition colon_group (i : nat) (r : re) : re := Cap i (Seq (Opt (Lit ":")) r).
Definition label_char : re := Chr is_alnum.
Definition domain_label (i : nat) : re :=
  colon_group i (Alt (colon_group (S i) label_char)
    (colon_group (S (S i)) (Seq label_char (Seq (Star (Chr (fun c => is_alnum c || (c =c "-")))) label_char)))).
Definition domainRegexp : re :=
  Seq (colon_group 1 (Seq (domain_label 2) (Star (colon_group 5 (Seq (Lit ".") (domain_label 6))))))
    (Seq (Opt (Lit ".")) (Star (Chr (fun c => bool_decide (c ∈ [ch " "; "009"; "010"; "012"; "013"]%char))))).

Definition validateDomain (val : gostring) : result goerror gostring :=
  if negb (existsb is_alpha val) then Err (Errorf "%s is not a valid domain" [val])
  else match FullMatch domainRegexp val with
       | Some ns => if Nat.ltb (length (group ns 1)) 255 then Ok (group ns 1)
                    else Err (Errorf "%s is not a valid domain" [val])
       | None => Err (Errorf "%s is not a valid domain" [val])
       end.
Definition ValidateDNSSearch (val : gostring) : result goerror gostring :=
  let val := Trim val " " in
  if val =s "." then Ok val else validateDomain val.
Definition ValidateLabel (val : gostring) : result goerror gostring :=
  if Nat.ltb (Count val "=") 1 then Err (Errorf "bad attribute format: %s" [val]) else Ok val.

End Opts.

(** ** runconfig/opts *)

Module RunOpts.
Import Units Opts.

Definition ValidateAttach (val : gostring) : result goerror gostring :=
  let s := ToLower val in
  if bool_decide (s ∈ ["stdin"; "stdout"; "stderr"]) then Ok s
  else Err (Errorf "valid streams are STDIN, STDOUT and STDERR" []).

(** The process environment: the [os.Environ] entries, in order. *)
Definition environ := list gostring.
Definition entry_name (entry : gostring) : gostring :=
  match SplitN entry "=" 2 with n :: _ => n | [] => [] end.
Definition doesEnvExist (env : environ) (n : gostring) : bool :=
  existsb (fun entry => entry_name entry =s n) env.
(** [os.Getenv]: the value of the first entry with that name, empty if none. *)
Fixpoint lookup_env (env : environ) (n : gostring) : gostring :=
  match env with
  | [] => []
  | entry :: env =>
      match Cut "=" entry with
      | Some (k, v) => if k =s n then v else lookup_env env n
      | None => lookup_env env n
      end
  end.
Definition Getenv (env : environ) (n : gostring) : gostring :=
  if decide (n = []) then [] else lookup_env env n.
Definition ValidateEnv (env : environ) (val : gostring) : result goerror gostring :=
  if Nat.ltb 1 (length (Split val "=")) then Ok val
  else if negb (doesEnvExist env val) then Ok val
  else Ok (val ++ "=" ++ Getenv env val).

Definition ValidateExtraHost (val : gostring) : result goerror gostring :=
  match SplitN val ":" 2 with
  | [host; ip] =>
      if decide (host = []) then Err (Errorf "bad format for add-host: %q" [val])
      else match ValidateIPAddress ip with
           | Err _ => Err (Errorf "invalid IP address in add-host: %q" [ip])
           | Ok _ => Ok val
           end
  | _ => Err (Errorf "bad format for add-host: %q" [val])
  end.
Definition ValidateMACAddress (val : gostring) : result goerror gostring :=
  if ParseMAC (TrimSpace val) then Ok val else Err (Errorf "invalid MAC address" [val]).

(** *** Block I/O devices *)

Record ThrottleDevice := mkThrottle { th_Path : gostring; th_Rate : Z }.
Record WeightDevice := mkWeight { w_Path : gostring; w_Weight : Z }.

Definition bps_format : gostring :=
  "invalid rate for device: %s. The correct format is <device-path>:<number>[<unit>]. Number must be a positive integer. Unit is optional and can be kb, mb, or gb".
Definition iops_format : gostring :=
  "invalid rate for device: %s. The correct format is <device-path>:<number>. Number must be a positive integer".

Definition ValidateThrottleBpsDevice (val : gostring) : result goerror ThrottleDevice :=
  match SplitN val ":" 2 with
  | [path; r] =>
      if negb (HasPrefix path "/dev/") then Err (Errorf "bad format for device path: %s" [val])
      else match RAMInBytes r with
           | Err _ => Err (Errorf bps_format [val])
           | Ok rate => if rate <? 0 then Err (Errorf bps_format [val])
                        else Ok (mkThrottle path (to_uint64 rate))
           end
  | _ => Err (Errorf "bad format: %s" [val])
  end.
Definition ValidateThrottleIOpsDevice (val : gostring) : result goerror ThrottleDevice :=
  match SplitN val ":" 2 with
  | [path; r] =>
      if negb (HasPrefix path "/dev/") then Err (Errorf "bad format for device path: %s" [val])
      else match ParseUint r 10 64 with
           | (_, Some _) => Err (Errorf iops_format [val])
           | (rate, None) => if rate <? 0 then Err (Errorf iops_format [val])
                             else Ok (mkThrottle path (to_uint64 rate))
           end
  | _ => Err (Errorf "bad format: %s" [val])
  end.
Definition ValidateWeightDevice (val : gostring) : result goerror WeightDevice :=
  match SplitN val ":" 2 with
  | [path; w] =>
      if negb (HasPrefix path "/dev/") then Err (Errorf "bad format for device path: %s" [val])
      else match ParseUint w 10 64 with
           | (_, Some _) => Err (Errorf "invalid weight for device: %s" [val])
           | (weight, None) =>
               if (0 <? weight) && ((weight <? 10) || (1000 <? weight))
               then Err (Errorf "invalid weight for device: %s" [val])
               else Ok (mkWeight path (to_uint16 weight))
           end
  | _ => Err (Errorf "bad format: %s" [val])
  end.

(** The three option values built on validators: each accepted value is appended
    (throttle, weight) or stored under its name (ulimits). *)
Definition append_opt {A} (validator : gostring → result goerror A) (l : list A) (s : gostring)
    : list A * option goerror :=
  match validator s with
  | Err e => (l, Some e)
  | Ok v => (l ++ [v], None)
  end.
Definition ThrottledeviceOpt_Set := @append_opt ThrottleDevice.
Definition WeightdeviceOpt_Set := @append_opt WeightDevice.
Definition UlimitOpt_Set (m : gmap gostring Ulimit) (s : gostring) : gmap gostring Ulimit * option goerror :=
  match ParseUlimit s with
  | Err e => (m, Some e)
  | Ok l => (<[ul_Name l := l]> m, None)
  end.
Definition UlimitOpt_GetList (m : gmap gostring Ulimit) : list Ulimit := snd <$> map_to_list m.

(** *** Environment files *)

Definition whiteSpaces : gostring := [ch " "; ch "009"].

(** [bufio.ScanLines]: lines without their newline, one trailing carriage return
    dropped, no empty line after the last newline.  The scanner's limit of 64 KiB
    per line is not modelled. *)
Definition drop_cr (l : gostring) : gostring := TrimSuffix l ["013"%char].
Definition scan_lines (content : gostring) : list gostring :=
  let ls := Split content ["010"%char] in
  drop_cr <$> (match rev ls with [] :: r => rev r | _ => ls end).

(** One line of an environment file: nothing, a variable, or an error. *)
Definition env_line (env : environ) (text : gostring) : result goerror (option gostring) :=
  let line := TrimLeft text whiteSpaces in
  if bool_decide (line = []) || HasPrefix line "#" then Ok None
  else
    let data := SplitN line "=" 2 in
    let variable := TrimLeft (default [] (data !! 0%nat)) whiteSpaces in
    if ContainsAny variable whiteSpaces
    then Err (Errorf "variable '%s' has white spaces" [variable])
    else match data with
         | [_; value] => Ok (Some (variable ++ "=" ++ value))
         | _ => Ok (Some (TrimSpace line ++ "=" ++ Getenv env line))
         end.
Fixpoint env_lines (env : environ) (ls : list gostring) : result goerror (list gostring) :=
  match ls with
  | [] => Ok []
  | l :: ls =>
      let! o := env_line env l in
      let! rest := env_lines env ls in
      Ok (match o with Some v => v :: rest | None => rest end)
  end.

(** Files by name; a missing one is an [os.Open] error. *)
Definition files := gostring → option gostring.
Definition ParseEnvFile (fs : files) (env : environ) (filename : gostring) : result goerror (list gostring) :=
  match fs filename with
  | None => Err (Errorf "open %s" [filename])
  | Some content => env_lines env (scan_lines content)
  end.

Definition readKVStrings (fs : files) (env : environ) (fnames override : list gostring)
    : result goerror (list gostring) :=
  let! parsed := rmapM (ParseEnvFile fs env) fnames in
  Ok (concat parsed ++ override).

Definition kv_of (value : gostring) : gostring * gostring :=
  match SplitN value "=" 2 with
  | [k; v] => (k, v)
  | k :: _ => (k, [])
  | [] => ([], [])
  end.
Definition ConvertKVStringsToMap (values : list gostring) : gmap gostring gostring :=
  foldl (fun m value => let '(k, v) := kv_of value in <[k := v]> m) ∅ values.

Definition parseLoggingOpts (loggingDriver : gostring) (loggingOpts : list gostring)
    : result goerror (gmap gostring gostring) :=
  if (loggingDriver =s "none") && Nat.ltb 0 (length loggingOpts)
  then Err (Errorf "Invalid logging opts for driver %s" [loggingDriver])
  else Ok (ConvertKVStringsToMap loggingOpts).

(** [parseSecurityOpts]; [compact] is [json.Compact], failing on invalid JSON. *)
Definition security_opt (fs : files) (compact : gostring → option gostring) (opt : gostring)
    : result goerror gostring :=
  match SplitN opt ":" 2 with
  | [k; v] =>
      if (k =s "seccomp") && negb (v =s "unconfined") then
        match fs v with
        | None => Err (Errorf "Opening seccomp profile (%s) failed" [v])
        | Some f => match compact f with
                    | None => Err (Errorf "Compacting json for seccomp profile (%s) failed" [v])
                    | Some b => Ok ("seccomp:" ++ b)
                    end
        end
      else Ok opt
  | _ => Err (Errorf "Invalid --security-opt: %q" [opt])
  end.
Definition parseSecurityOpts (fs : files) (compact : gostring → option gostring) (securityOpts : list gostring)
    : result goerror (list gostring) := rmapM (security_opt fs compact) securityOpts.

(** *** Restart policies, devices, links *)

Record RestartPolicy := mkRestart { rp_Name : gostring; MaximumRetryCount : Z }.

Definition ParseRestartPolicy (policy : gostring) : result goerror RestartPolicy :=
  if decide (policy = []) then Ok (mkRestart [] 0)
  else
    let parts := Split policy ":" in
    let n := default [] (parts !! 0%nat) in
    if (n =s "always") || (n =s "unless-stopped") then
      if Nat.ltb 1 (length parts)
      then Err (Errorf ("maximum restart count not valid with restart policy of " ++ "034"%char :: "%s" ++ ["034"%char]) [n])
      else Ok (mkRestart n 0)
    else if n =s "no" then Ok (mkRestart n 0)
    else if n =s "on-failure" then
      if Nat.ltb 2 (length parts)
      then Err (Errorf "restart count format is not valid, usage: 'on-failure:N' or 'on-failure'" [])
      else match parts with
           | [_; c] => let! count := num_result (Atoi c) in Ok (mkRestart n count)
           | _ => Ok (mkRestart n 0)
           end
    else Err (Errorf "invalid restart policy %s" [n]).

(** [ValidDeviceMode]: a non-empty word on r, w, m without repetition. *)
Fixpoint device_mode_loop (legal : list ascii) (mode : gostring) : bool :=
  match mode with
  | [] => true
  | c :: mode => if decide (c ∈ legal) then device_mode_loop (filter (fun x => x ≠ c) legal) mode else false
  end.
Definition ValidDeviceMode (mode : gostring) : bool :=
  if decide (mode = []) then false else device_mode_loop ["r"; "w"; "m"]%char mode.

Record DeviceMapping := mkDevice { PathOnHost : gostring; PathInContainer : gostring; CgroupPermissions : gostring }.

Definition ParseDevice (device : gostring) : result goerror DeviceMapping :=
  let finish (src dst perms : gostring) :=
    Ok (mkDevice src (if decide (dst = []) then src else dst) perms) in
  match Split device ":" with
  | [src] => finish src [] "rwm"
  | [src; b] => if ValidDeviceMode b then finish src [] b else finish src b "rwm"
  | [src; b; p] => if ValidDeviceMode b then finish src [] b else finish src b p
  | _ => Err (Errorf "Invalid device specification: %s" [device])
  end.

Definition ParseLink (val : gostring) : result goerror (gostring * gostring) :=
  if decide (val = []) then Err (Errorf "empty string specified for links" [])
  else match Split val ":" with
       | [_] => Ok (val, val)
       | [a; b] => if HasPrefix a "/" then Ok (TrimPrefix a "/", (PathSplit b).2) else Ok (a, b)
       | _ => Err (Errorf "bad format for links: %s" [val])
       end.
Definition ValidateLink (val : gostring) : result goerror gostring :=
  check! ParseLink val in Ok val.

Definition validatePath (val : gostring) (valid : gostring → bool) : result goerror gostring :=
  if Nat.ltb 2 (Count val ":") then Err (Errorf "bad format for path: %s" [val])
  else
    let abs (containerPath val : gostring) :=
      if IsAbs containerPath then Ok val
      else Err (Errorf "%s is not an absolute path" [containerPath]) in
    match SplitN val ":" 3 with
    | [] :: _ => Err (Errorf "bad format for path: %s" [val])
    | [a] => abs a (Clean a)
    | [a; b] => if valid b then abs a (Clean a ++ ":" ++ b) else abs b (a ++ ":" ++ Clean b)
    | [a; b; mode] => if valid mode then abs b (a ++ ":" ++ b ++ ":" ++ mode)
                      else Err (Errorf "bad mode specified: %s" [mode])
    | _ => abs [] val
    end.
Definition ValidateDevice (val : gostring) : result goerror gostring := validatePath val ValidDeviceMode.

(** *** Bind specifications

    [volumeSplitN] walks the string with two cursors; a colon after a letter that
    looks like a drive letter does not separate.  [None] is a run-time panic
    (a maximum of zero parts indexes [array[-1]]). *)

Definition slice (s : gostring) (i j : nat) : gostring := take (j - i) (drop i s).
Definition byte_at (s : gostring) (i : nat) : ascii := default zero (s !! i).
Definition volume_separator (raw : gostring) (right : nat) : bool :=
  if negb (byte_at raw right =c ":") then false
  else if is_alpha (byte_at raw (right - 1)) then
    if Nat.ltb 1 right then
      let before := byte_at raw (right - 2) in
      negb (before =c ":") && negb (before =c "/") && negb (before =c "\")
    else negb (Nat.eqb right (length raw - 1)) && negb (byte_at raw (right + 1) =c "\")
  else true.
Fixpoint volume_loop (raw : gostring) (n : Z) (k hi lo : nat) (array : list gostring)
    : nat * list gostring :=
  match k with
  | O => (lo, array)
  | S k =>
      if (0 <=? n) && (n <=? Z.of_nat (length array)) then (lo, array)
      else if volume_separator raw hi
      then volume_loop raw n k (S hi) (S hi) (array ++ [slice raw lo hi])
      else volume_loop raw n k (S hi) lo array
  end.
Definition volumeSplitN (raw : gostring) (n : Z) : option (list gostring) :=
  if bool_decide (raw = []) || (byte_at raw 0 =c ":") then Some []
  else
    let '(lo, array) := volume_loop raw n (length raw - 1) 1 0 [] in
    if Nat.ltb lo (length raw) then
      if (0 <=? n) && (n <=? Z.of_nat (length array)) then
        match lo, last array with
        | S l, Some x => Some (removelast array ++ [x ++ drop l raw])
        | _, _ => None
        end
      else Some (array ++ [drop lo raw])
    else Some array.

End RunOpts.

(** ** Theorems *)

Section bind_specifications.
Import RunOpts.
Implicit Types (raw : gostring) (n : Z).

Lemma Join_snoc_cut (a : list gostring) x c (y : gostring) :
  Join (a ++ [x ++ c :: y]) [c] = Join (a ++ [x; y]) [c].
Proof.
  induction a as [|z a IH]; [done|]. destruct a as [|w a]; [done|].
  change (z ++ [c] ++ Join ((w :: a) ++ [x ++ c :: y]) [c] = z ++ [c] ++ Join ((w :: a) ++ [x; y]) [c]).
  by rewrite IH.
Qed.

Lemma Join_snoc_nil (a : list gostring) sep : a ≠ [] → Join (a ++ [[]]) sep = Join a sep ++ sep.
Proof.
  induction a as [|z a IH]; [done|]. intros _. destruct a as [|w a]; [simpl; by rewrite app_nil_r|].
  change (z ++ sep ++ Join ((w :: a) ++ [[]]) sep = (z ++ sep ++ Join (w :: a) sep) ++ sep).
  rewrite IH by done. by rewrite <-!app_assoc.
Qed.

Lemma byte_at_lookup raw i c : byte_at raw i = c → (i < length raw)%nat → raw !! i = Some c.
Proof.
  unfold byte_at. intros <- Hi. destruct (lookup_lt_is_Some_2 raw i Hi) as [d Hd]. by rewrite Hd.
Qed.

Lemma volume_separator_colon raw hi : volume_separator raw hi = true → byte_at raw hi = ":"%char.
Proof. unfold volume_separator. destruct (byte_at raw hi =c ":") eqn:E; [by str_bool|done]. Qed.

Lemma drop_cut raw lo hi c :
  (lo ≤ hi)%nat → raw !! hi = Some c →
  drop lo raw = slice raw lo hi ++ c :: drop (S hi) raw.
Proof.
  intros Hle Hc. unfold slice. rewrite <-(take_drop (hi - lo) (drop lo raw)) at 1. f_equal.
  rewrite drop_drop. replace (lo + (hi - lo))%nat with hi by lia. by apply drop_S.
Qed.

(** The positions at which the loop cuts, for a maximum of [n] parts. *)
Definition cut_points raw n (done hi k : nat) : list nat :=
  let ps := filter (fun i => volume_separator raw i = true) (seq hi k) in
  if 0 <=? n then take (Z.to_nat n - done) ps else ps.

Lemma volume_loop_cuts raw n k : ∀ hi lo array lo' array',
  volume_loop raw n k hi lo array = (lo', array') →
  length array' = (length array + length (cut_points raw n (length array) hi k))%nat ∧
  lo' = match last (cut_points raw n (length array) hi k) with Some p => S p | None => lo end.
Proof.
  induction k as [|k IH]; intros hi lo array lo' array'; unfold cut_points; simpl.
  { intros [= <- <-]. rewrite filter_nil, take_nil. destruct (0 <=? n); simpl; split; done || lia. }
  destruct ((0 <=? n) && (n <=? Z.of_nat (length array))) eqn:Hfull.
  { apply andb_true_iff in Hfull as [H0 Hn]. intros [= <- <-]. rewrite H0.
    replace (Z.to_nat n - length array)%nat with 0%nat by lia. simpl. split; done || lia. }
  destruct (volume_separator raw hi) eqn:Hsep; intros [Hl Hleft]%IH; unfold cut_points in *.
  - rewrite filter_cons_True by done. rewrite length_app in Hl, Hleft. simpl in Hl, Hleft.
    destruct (0 <=? n) eqn:H0.
    + apply andb_false_iff in Hfull as [|Hn]; [congruence|].
      replace (Z.to_nat n - length array)%nat with (S (Z.to_nat n - (length array + 1)))%nat by lia.
      cbn [take length]. rewrite last_cons. split; [lia|]. rewrite Hleft. by destruct (last _).
    + cbn [length]. rewrite last_cons. split; [lia|]. rewrite Hleft. by destruct (last _).
  - by rewrite filter_cons_False by congruence.
Qed.

Lemma volume_loop_join raw n k : ∀ hi lo array lo' array',
  (hi + k ≤ length raw)%nat → (lo ≤ hi)%nat →
  Join (array ++ [drop lo raw]) ":" = raw →
  volume_loop raw n k hi lo array = (lo', array') →
  Join (array' ++ [drop lo' raw]) ":" = raw ∧ (lo' ≤ hi + k)%nat.
Proof.
  induction k as [|k IH]; intros hi lo array lo' array' Hk Hle HJ; simpl.
  { intros [= <- <-]. split; [done|lia]. }
  destruct (_ && _). { intros [= <- <-]. split; [done|lia]. }
  destruct (volume_separator raw hi) eqn:Hsep; intros H.
  - apply IH in H as [H1 H2]; [split; [done|lia]|lia..|].
    rewrite <-app_assoc. simpl. rewrite <-Join_snoc_cut, <-drop_cut; [done|lia|].
    apply byte_at_lookup; [by apply volume_separator_colon|lia].
  - apply IH in H as [H1 H2]; [split; [done|lia]|lia..|done].
Qed.

Lemma last_cut_point raw n d p :
  last (cut_points raw n d 1 (length raw - 1)) = Some p →
  p ∈ cut_points raw n d 1 (length raw - 1) ∧ (0 < p < length raw)%nat ∧ volume_separator raw p = true.
Proof.
  intros H%last_Some_elem_of. split; [done|]. unfold cut_points in H.
  assert (Hin : p ∈ filter (fun i => volume_separator raw i = true) (seq 1 (length raw - 1))).
  { destruct (0 <=? n); [|done]. by eapply elem_of_take in H as (? & ? & _); eapply list_elem_of_lookup_2. }
  apply list_elem_of_filter in Hin as [? ?%elem_of_seq]. split; [lia|done].
Qed.

(** All separators of the string, of which [cut_points] is a prefix. *)
Definition separators raw : list nat :=
  filter (fun i => volume_separator raw i = true) (seq 1 (length raw - 1)).

Lemma separators_spec raw i :
  i ∈ separators raw ↔ (0 < i < length raw)%nat ∧ volume_separator raw i = true.
Proof. unfold separators. rewrite list_elem_of_filter, elem_of_seq. intuition lia. Qed.

Lemma cut_points_prefix raw n : ∃ m, cut_points raw n 0 1 (length raw - 1) = take m (separators raw) ∧
  (0 < n → m = Z.to_nat n) ∧ (n < 0 → (length (separators raw) ≤ m)%nat).
Proof.
  unfold cut_points. fold (separators raw). destruct (0 <=? n) eqn:H0.
  - exists (Z.to_nat n). rewrite Nat.sub_0_r. split; [done|lia].
  - exists (length (separators raw)). rewrite take_ge by lia. split; [done|lia].
Qed.

(** A prefix of the separators that is cut before the last byte of the string, or
    that has two members, witnesses an inner separator; and conversely. *)
Lemma inner_separator raw m :
  (1 < m)%nat →
  let qs := take m (separators raw) in
  let lo := match last qs with Some p => S p | None => 0%nat end in
  ((0 < length qs ∧ lo < length raw) ∨ 1 < length qs)%nat ↔
  ∃ i, (0 < i < length raw - 1)%nat ∧ volume_separator raw i = true.
Proof.
  intros Hm qs lo.
  assert (Hin : ∀ i, i ∈ qs → (0 < i < length raw)%nat ∧ volume_separator raw i = true).
  { intros i Hi. apply separators_spec. unfold qs in Hi.
    by apply elem_of_take in Hi as (j & Hj%list_elem_of_lookup_2 & _). }
  assert (Hnd : NoDup qs) by (apply (sublist_NoDup _ (separators raw)); [apply NoDup_filter, NoDup_seq|apply sublist_take]).
  split.
  - intros [[Hl Hlo]|Hl].
    + destruct (last qs) as [p|] eqn:E; [|by apply last_None in E; rewrite E in Hl; simpl in Hl; lia].
      exists p. destruct (Hin p) as [? ?]; [by apply last_Some_elem_of|]. unfold lo in Hlo.
      split; [lia|done].
    + destruct qs as [|p [|q qs']]; simpl in Hl; [lia..|].
      apply NoDup_cons in Hnd as [Hpq _].
      destruct (Hin p) as [Hp Hsp]; [set_solver|]. destruct (Hin q) as [Hq Hsq]; [set_solver|].
      assert (p ≠ q) by set_solver.
      destruct (decide (p < length raw - 1)%nat); [exists p|exists q]; split; (done || lia).
  - intros (i & Hi & Hs).
    assert (Hsep : i ∈ separators raw) by (apply separators_spec; split; [lia|done]).
    destruct (decide (1 < length qs)%nat); [by right|left].
    assert (Hall : qs = separators raw).
    { unfold qs in *. rewrite length_take in *. apply take_ge. lia. }
    rewrite <-Hall in Hsep. unfold lo. destruct qs as [|p [|q qs']]; simpl in *;
      [by apply elem_of_nil in Hsep| |lia].
    apply list_elem_of_singleton in Hsep as ->. lia.
Qed.

(** For every maximum other than 0 and every specification that is not empty and does
    not start with a colon, [volumeSplitN] returns parts whose join with colons is the
    specification (one trailing separator colon may be lost), never more than the maximum;
    and it returns more than one part exactly when an inner colon is a separator, that is,
    not part of a drive letter. *)
Theorem volumeSplitN_spec raw n :
  n ≠ 0 → raw ≠ [] → byte_at raw 0 ≠ ":"%char →
  ∃ parts, volumeSplitN raw n = Some parts ∧
    (Join parts ":" = raw ∨ Join parts ":" ++ ":" = raw) ∧
    (0 < n → Z.of_nat (length parts) ≤ n) ∧
    (n ≠ 1 → (1 < length parts)%nat ↔
             ∃ i, (0 < i < length raw - 1)%nat ∧ volume_separator raw i = true).
Proof.
  intros Hn Hraw H0. unfold volumeSplitN. rewrite bool_decide_eq_false_2 by done.
  unfold chareqb. rewrite bool_decide_eq_false_2 by done. simpl.
  assert (Hlen : length raw ≠ 0%nat) by (by destruct raw).
  destruct (volume_loop raw n (length raw - 1) 1 0 []) as [lo array] eqn:E.
  destruct (volume_loop_cuts _ _ _ _ _ _ _ _ E) as [Hl Hlo].
  destruct (volume_loop_join raw n (length raw - 1) 1 0 [] _ _ ltac:(lia) ltac:(lia) eq_refl E) as [HJ Hle].
  destruct (cut_points_prefix raw n) as (m & Hm & Hm1 & Hm2). simpl in Hl, Hlo. rewrite Hm in Hl, Hlo.
  assert (Hinner : n ≠ 1 → ((0 < length array ∧ lo < length raw) ∨ 1 < length array)%nat ↔
     ∃ i, (0 < i < length raw - 1)%nat ∧ volume_separator raw i = true).
  { intros Hn1. destruct (decide (1 < m)%nat) as [Hm'|Hm'].
    - rewrite Hl, Hlo. by apply inner_separator.
    - assert (n < 0) by lia. rewrite <-(inner_separator raw 2) by lia. rewrite Hl, Hlo.
      by rewrite !(take_ge (separators raw)) by lia. }
  assert (Hnm : 0 < n → (length array ≤ Z.to_nat n)%nat).
  { intros Hpos. rewrite Hl, length_take, Hm1 by done. lia. }
  destruct (Nat.ltb_spec lo (length raw)) as [Hlt|Hge].
  - destruct ((0 <=? n) && (n <=? Z.of_nat (length array))) eqn:Hfull.
    + apply andb_true_iff in Hfull as [Hn0%Z.leb_le Hfull%Z.leb_le].
      destruct (last array) as [x|] eqn:Hx; [|apply last_None in Hx; subst; simpl in *; lia].
      destruct (last (take m (separators raw))) as [p|] eqn:Hp;
        [|apply last_None in Hp; rewrite Hp in Hl; simpl in Hl; lia].
      subst lo. apply last_Some in Hx as [array' ->]. rewrite removelast_last.
      exists (array' ++ [x ++ drop p raw]). rewrite length_app in *. simpl in *. repeat split; [|lia|..].
      * left. rewrite <-HJ at 2. rewrite <-app_assoc. simpl. rewrite <-Join_snoc_cut.
        rewrite (drop_S raw ":"%char p); [done|]. 
        apply byte_at_lookup; [|lia]. apply volume_separator_colon, separators_spec.
        apply last_Some_elem_of, elem_of_take in Hp as (? & ?%list_elem_of_lookup_2 & _). done.
      * intros ?. apply Hinner; [done|]. lia.
      * intros ?%Hinner; [|done]. lia.
    + exists (array ++ [drop lo raw]). rewrite length_app. simpl. repeat split.
      * by left.
      * intros ?. apply andb_false_iff in Hfull. lia.
      * intros ?. apply Hinner; [done|]. lia.
      * intros ?%Hinner; [|done]. lia.
  - exists array. repeat split; [|lia|..].
    + right. rewrite drop_ge in HJ by lia. rewrite Join_snoc_nil in HJ; [done|].
      intros ->. simpl in *. congruence.
    + intros ?. apply Hinner; [done|]. lia.
    + intros ?%Hinner; [|done]. lia.
Qed.

Lemma volumeSplitN_spec_witness :
  ∃ parts, volumeSplitN "/data:/mnt:ro" 2 = Some parts ∧ Join parts ":" = "/data:/mnt:ro" ∧ (1 < length parts)%nat.
Proof.
  destruct (volumeSplitN_spec "/data:/mnt:ro" 2 ltac:(lia) ltac:(done) ltac:(done)) as (parts & H & _).
  exists parts. vm_compute in H. injection H as <-. vm_compute. repeat split; lia.
Defined.

End bind_specifications.

Section devices.
Import RunOpts.
Implicit Types (val a b mode : gostring).

Lemma valid_mode_not_abs b : IsAbs b = true → ValidDeviceMode b = false.
Proof. intros [t ->]%HasPrefix_spec. reflexivity. Qed.

Lemma valid_mode_no_colon b : ValidDeviceMode b = true → ch ":" ∉ b.
Proof.
  unfold ValidDeviceMode. case_decide; [done|].
  assert (Hl : ∀ legal, ch ":" ∉ legal → device_mode_loop legal b = true → ch ":" ∉ b).
  { clear. induction b as [|c b IH]; intros legal Hleg; simpl; [intros _; apply not_elem_of_nil|].
    case_decide as Hc; [|done]. intros H. apply not_elem_of_cons. split; [by intros <-|].
    refine (IH _ _ H). intros [_ ?]%list_elem_of_filter. done. }
  apply Hl. set_solver.
Qed.

(** What cleaning keeps of an absolute path without colons. *)
Lemma Clean_abs a :
  ch ":" ∉ a → IsAbs a = true →
  ch ":" ∉ Clean a ∧ IsAbs (Clean a) = true ∧ Clean (Clean a) = Clean a ∧ ∃ y l, Clean a = y :: l.
Proof.
  intros Ha Habs. destruct (Clean_spec a) as (? & ? & ?). split_and!; [by apply Clean_free|congruence|done|].
  destruct (Clean a); eauto; done.
Qed.

(** The specifications the path validator accepts, by number of parts. *)
Lemma Split_two a b : ch ":" ∉ a → ch ":" ∉ b → Split (a ++ ch ":" :: b) ":" = [a; b].
Proof. intros. by apply (Split_Join_char ":" [a; b]); [|repeat constructor]. Qed.
Lemma Split_three a b c : ch ":" ∉ a → ch ":" ∉ b → ch ":" ∉ c → Split (a ++ ch ":" :: b ++ ch ":" :: c) ":" = [a; b; c].
Proof. intros. by apply (Split_Join_char ":" [a; b; c]); [|repeat constructor]. Qed.

(** With at most two separators, splitting into at most three parts is a full split. *)
Lemma SplitN_full (c : ascii) (s : gostring) n :
  (length (Split s [c]) ≤ n)%nat → SplitN s [c] n = Split s [c].
Proof.
  intros H. rewrite <-(Join_Split s [c]) at 1. apply SplitN_Join_char; [|by apply Forall_forall, Split_char_free|done].
  apply SplitN_ne. lia.
Qed.

Lemma validatePath_parts val valid :
  validatePath val valid =
  match Split val ":" with
  | [] :: ([] | [_] | [_; _]) => Err (Errorf "bad format for path: %s" [val])
  | [a] => if IsAbs a then Ok (Clean a) else Err (Errorf "%s is not an absolute path" [a])
  | [a; b] =>
      if valid b then if IsAbs a then Ok (Clean a ++ ":" ++ b) else Err (Errorf "%s is not an absolute path" [a])
      else if IsAbs b then Ok (a ++ ":" ++ Clean b) else Err (Errorf "%s is not an absolute path" [b])
  | [a; b; m] =>
      if valid m then if IsAbs b then Ok val else Err (Errorf "%s is not an absolute path" [b])
      else Err (Errorf "bad mode specified: %s" [m])
  | _ => Err (Errorf "bad format for path: %s" [val])
  end.
Proof.
  unfold validatePath, Count. pose proof (Join_Split val ":") as HJ.
  destruct (Nat.ltb_spec 2 (pred (length (Split val ":")))) as [Hl|Hl].
  { destruct (Split val ":") as [|[|? ?] [|? [|? [|? ?]]]]; simpl in Hl; (reflexivity || lia). }
  rewrite SplitN_full by lia. pose proof (SplitN_ne val ":" (S (length val)) ltac:(lia)) as Hne.
  unfold Split in *. destruct (SplitN val ":" (S (length val))) as [|a [|b [|m [|? ?]]]]; simpl in Hl; [done| | | |lia].
  all: by destruct a; simpl in HJ; subst val.
Qed.

(** A device specification that [ValidateDevice] accepts is a fixed point of the
    validator, and [ParseDevice] turns it into a mapping whose path in the container is
    absolute and whose cgroup permissions are a valid mode. *)
Theorem device_pipeline val v :
  ValidateDevice val = Ok v →
  ValidateDevice v = Ok v ∧
  ∃ d, ParseDevice v = Ok d ∧ IsAbs (PathInContainer d) = true ∧ ValidDeviceMode (CgroupPermissions d) = true.
Proof.
  unfold ValidateDevice, ParseDevice. rewrite !validatePath_parts.
  pose proof (Split_char_free ":" val) as Hfree. pose proof (Join_Split val ":") as HJ.
  destruct (Split val ":") as [|a [|b [|m [|? ?]]]]; [done| | | |by destruct a];
    (destruct a as [|x a']; [done|]); set (a := x :: a') in *;
    assert (Ha : ch ":" ∉ a) by (apply Hfree; rewrite !elem_of_cons; tauto).
  - destruct (IsAbs a) eqn:Habs; [|done]. intros [= <-].
    destruct (Clean_abs a Ha Habs) as (Hc & Hca & Hcc & y & l & E).
    rewrite Split_char_nil, Hcc by done. rewrite E in *. rewrite Hca. eauto.
  - assert (Hb : ch ":" ∉ b) by (apply Hfree; rewrite !elem_of_cons; tauto). destruct (ValidDeviceMode b) eqn:Hv.
    + destruct (IsAbs a) eqn:Habs; [|done]. intros [= <-].
      destruct (Clean_abs a Ha Habs) as (Hc & Hca & Hcc & y & l & E). simpl.
      rewrite Split_two, Hcc, Hv by done. rewrite E in *. rewrite Hca. eauto.
    + destruct (IsAbs b) eqn:Habs; [|done]. intros [= <-].
      destruct (Clean_abs b Hb Habs) as (Hc & Hca & Hcc & y & l & E). simpl.
      change (x :: a' ++ ch ":" :: Clean b) with (a ++ ch ":" :: Clean b).
      rewrite Split_two, Hcc, valid_mode_not_abs by done. rewrite E in *. rewrite Hca. eauto.
  - assert (Hb : ch ":" ∉ b) by (apply Hfree; rewrite !elem_of_cons; tauto). assert (Hm : ch ":" ∉ m) by (apply Hfree; rewrite !elem_of_cons; tauto).
    destruct (ValidDeviceMode m) eqn:Hv; [|done]. destruct (IsAbs b) eqn:Habs; [|done]. intros [= <-].
    change (Join [a; b; m] ":") with (a ++ ch ":" :: b ++ ch ":" :: m) in HJ. rewrite <-HJ.
    rewrite Split_three, Hv, valid_mode_not_abs by done. destruct b; [done|]. rewrite Habs. eauto.
Qed.

Lemma device_pipeline_witness :
  ValidateDevice "/dev/sda:/dev//xvdc/:r" = Ok "/dev/sda:/dev//xvdc/:r" ∧
  ∃ d, ParseDevice "/dev/sda:/dev//xvdc/:r" = Ok d ∧ IsAbs (PathInContainer d) = true ∧
       ValidDeviceMode (CgroupPermissions d) = true.
Proof. apply (device_pipeline "/dev/sda:/dev//xvdc/:r"). reflexivity. Defined.

End devices.

Section key_values.
Import RunOpts.
Implicit Types (vs : list gostring) (k : gostring).

Lemma ConvertKV_snoc vs v : ConvertKVStringsToMap (vs ++ [v]) = <[(kv_of v).1 := (kv_of v).2]> (ConvertKVStringsToMap vs).
Proof. unfold ConvertKVStringsToMap. rewrite foldl_app. simpl. by destruct (kv_of v). Qed.

(** The entries that name [k], in order. *)
Definition entries_of k vs : list gostring := filter (fun v => (kv_of v).1 = k) vs.

Lemma ConvertKV_lookup vs k :
  ConvertKVStringsToMap vs !! k = (fun v => (kv_of v).2) <$> last (entries_of k vs).
Proof.
  unfold entries_of. induction vs as [|v vs IH] using rev_ind; [done|].
  rewrite ConvertKV_snoc, filter_app, last_app. destruct (decide ((kv_of v).1 = k)) as [<-|Hne].
  - by rewrite lookup_insert_eq, filter_cons_True.
  - by rewrite lookup_insert_ne, filter_cons_False, IH by done.
Qed.

(** When the environment or label files can be read, a key of the resulting map has
    the value of the last command-line entry that names it, and otherwise of the last
    entry of the last file that names it; a key no entry names is absent.  (Command-line
    options override files.) *)
Theorem readKVStrings_override fs env fnames override entries k :
  readKVStrings fs env fnames override = Ok entries →
  ∃ parsed, Forall2 (fun f l => ParseEnvFile fs env f = Ok l) fnames parsed ∧
    ConvertKVStringsToMap entries !! k =
    match last (entries_of k override) with
    | Some v => Some (kv_of v).2
    | None => (fun v => (kv_of v).2) <$> last (entries_of k (concat parsed))
    end.
Proof.
  unfold readKVStrings. intros H. inv_ok. rename select (rmapM _ _ = _) into Hp.
  apply rmapM_ok in Hp. eexists. split; [done|].
  rewrite ConvertKV_lookup. unfold entries_of. rewrite filter_app, last_app. by destruct (last (filter _ override)).
Qed.

Lemma readKVStrings_override_witness :
  let fs (f : gostring) := if f =s "env" then Some ("A=1" ++ "010"%char :: "B=2" ++ ["010"%char]) else None in
  ∃ parsed, Forall2 (fun f l => ParseEnvFile fs [] f = Ok l) ["env"] parsed ∧
    ConvertKVStringsToMap ["A=1"; "B=2"; "A=3"] !! ("A" : gostring) =
    match last (entries_of "A" ["A=3"]) with
    | Some v => Some (kv_of v).2
    | None => (fun v => (kv_of v).2) <$> last (entries_of "A" (concat parsed))
    end.
Proof. intros fs. apply (readKVStrings_override fs [] ["env"] ["A=3"]). vm_compute. reflexivity. Defined.

End key_values.

Section restart_policies.
Import RunOpts.

(** [ParseRestartPolicy] accepts exactly the empty policy, [always] and
    [unless-stopped] alone, [no] with any further parts, and [on-failure] alone or with
    one count that fits a machine integer (negative counts included); the policy it
    returns has the name written and that count. *)
Theorem ParseRestartPolicy_spec policy p :
  ParseRestartPolicy policy = Ok p ↔
    (policy = [] ∧ p = mkRestart [] 0) ∨
    (policy = "always" ∧ p = mkRestart "always" 0) ∨
    (policy = "unless-stopped" ∧ p = mkRestart "unless-stopped" 0) ∨
    (p = mkRestart "no" 0 ∧ ∃ rest, Split policy ":" = "no" :: rest) ∨
    (policy = "on-failure" ∧ p = mkRestart "on-failure" 0) ∨
    (∃ c count, policy = "on-failure:" ++ c ∧ ch ":" ∉ c ∧ num_result (Atoi c) = Ok count ∧
       p = mkRestart "on-failure" count).
Proof.
  unfold ParseRestartPolicy. split.
  - case_decide; [naive_solver|]. pose proof (Join_Split policy ":") as HJ.
    pose proof (Split_char_free ":" policy) as Hfree.
    destruct (Split policy ":") as [|n rest] eqn:Es; [done|]. simpl in *.
    destruct ((n =s "always") || (n =s "unless-stopped")) eqn:E1.
    { str_bool. destruct rest as [|? ?]; simpl; [|done]. intros [= <-]. simpl in HJ. subst policy. str_bool. destruct E1 as [-> | ->]; auto. }
    destruct (n =s "no") eqn:E2; [apply bool_decide_eq_true in E2; intros [= <-]; subst n; right; right; right; left; eauto|].
    destruct (n =s "on-failure") eqn:E3; [apply bool_decide_eq_true in E3 as ->|done].
    destruct rest as [|c [|? ?]]; simpl in *; [| |done].
    + intros [= <-]. subst. do 4 right. by left.
    + intros Hok. inv_ok. do 5 right. eexists c, _. split_and!; [done| |done|done].
      apply Hfree. rewrite !elem_of_cons. tauto.
  - intros [[-> ->]|[[-> ->]|[[-> ->]|[[-> [rest Hs]]|[[-> ->]|(c & count & -> & Hc & Ha & ->)]]]]]; try done.
    + case_decide; [by subst|]. by rewrite Hs.
    + rewrite decide_False by done. change ("on-failure:" ++ c) with ("on-failure" ++ ch ":" :: c).
      rewrite Split_two by (done || vm_decide). simpl. by rewrite Ha.
Qed.

(** A weight device [ValidateWeightDevice] accepts has a path under /dev/ and a weight
    that is 0 or between 10 and 1000, and every such specification is accepted with
    exactly the weight written. *)
Theorem ValidateWeightDevice_spec val d :
  ValidateWeightDevice val = Ok d ↔
    ∃ dev w, val = "/dev/" ++ dev ++ ":" ++ w ∧ ch ":" ∉ dev ∧
      ParseUint w 10 64 = (w_Weight d, None) ∧ w_Path d = "/dev/" ++ dev ∧
      (w_Weight d = 0 ∨ 10 <= w_Weight d <= 1000).
Proof.
  unfold ValidateWeightDevice. rewrite SplitN_2_char. split.
  - destruct (Cut ":" val) as [[path w]|] eqn:E; [|done]. apply Cut_char_Some in E as [-> Hp].
    destruct (HasPrefix path "/dev/") eqn:Hd; [|done]. apply HasPrefix_spec in Hd as [dev ->]. simpl.
    destruct (ParseUint w 10 64) as [x [e|]] eqn:Ep; [done|].
    pose proof (ParseUint_bounds w 10 64 x None ltac:(lia) ltac:(lia) Ep) as Hb.
    destruct ((0 <? x) && ((x <? 10) || (1000 <? x))) eqn:Eb; [done|]. intros [= <-].
    assert (Hx : x = 0 ∨ 10 <= x <= 1000) by lia.
    assert (Hu : to_uint16 x = x) by (unfold to_uint16; apply Z.mod_small; lia).
    exists dev, w. simpl. rewrite Hu. split_and!; try done.
    intros Hin. apply Hp, elem_of_app. by right.
  - intros (dev & w & -> & Hdev & Hw & Hpath & Hx).
    assert (Hc : Cut ":" (("/dev/" ++ dev) ++ ch ":" :: w) = Some ("/dev/" ++ dev, w)).
    { apply Cut_char_app. rewrite elem_of_app. intros [Hin|Hin]; [|done]. revert Hin. vm_decide. }
    change ("/dev/" ++ dev ++ ":" ++ w) with (("/dev/" ++ dev) ++ ch ":" :: w). rewrite Hc, Hw. simpl.
    replace (_ && _) with false by lia. destruct d as [pth wt]; simpl in *. subst pth.
    unfold to_uint16. by rewrite Z.mod_small by lia.
Qed.

(** Two validators accept what they should refuse.  The DNS search validator's
    pattern writes its groups with an optional colon, so a domain may start with one;
    and a throttle rate is computed modulo 2^64, so a rate of 2^24 tebibytes is
    accepted as 0. *)
Theorem validators_surprises :
  Opts.ValidateDNSSearch ":example.com" = Ok ":example.com" ∧
  ValidateThrottleBpsDevice "/dev/sda:16777216t" = Ok (mkThrottle "/dev/sda" 0).
Proof. split; vm_compute; reflexivity. Qed.

End restart_policies.
