(* ===== verification/Ports.v ===== *)
(** * Ports: port specifications and mount options

    Models the vendored [go-connections/nat] (port ranges, publish
    specifications) that [runconfig/opts/parse.go] calls, and the mount-option
    parser of [src/pkg/mount/flags.go]. *)

From Stdlib Require Import Btauto.
From S2P Require Import Prelude Strconv GoNet.
Import Strings Strconv GoNet.

Local Open Scope Z_scope.

Module Nat_.

(** A port such as ["80/tcp"], and where it is bound on the host. *)
Definition Port := gostring.
Record PortBinding := mkBinding { HostIP : gostring; HostPort : gostring }.
Record PortMapping := mkMapping { pm_Port : Port; pm_Binding : PortBinding }.

Definition ParsePortRange (ports : gostring) : result goerror (Z * Z) :=
  if decide (ports = []) then Err (Errorf "Empty string specified for ports." [])
  else if negb (Contains ports "-") then
    let! start := num_result (ParseUint ports 10 16) in Ok (start, start)
  else
    let parts := Split ports "-" in
    let! start := num_result (ParseUint (default [] (parts !! 0%nat)) 10 16) in
    let! stop := num_result (ParseUint (default [] (parts !! 1%nat)) 10 16) in
    if stop <? start then Err (Errorf "Invalid range specified for the Port: %s" [ports])
    else Ok (start, stop).
Definition ParsePortRangeToInt (rawPort : gostring) : result goerror (Z * Z) :=
  if decide (rawPort = []) then Ok (0, 0) else ParsePortRange rawPort.
Definition NewPort (proto port : gostring) : result goerror Port :=
  let! (s, e) := ParsePortRangeToInt port in
  if s =? e then Ok (FormatInt s ++ "/" ++ proto)
  else Ok (FormatInt s ++ "-" ++ FormatInt e ++ "/" ++ proto).

(** [SplitProtoPort]: protocol and port. *)
Definition SplitProtoPort (rawPort : gostring) : gostring * gostring :=
  match Split rawPort "/" with
  | [] => ([], [])
  | [] :: _ => ([], [])
  | [_] => ("tcp", rawPort)
  | p :: [] :: _ => ("tcp", p)
  | p :: proto :: _ => (proto, p)
  end.
Definition validateProto (proto : gostring) : bool := bool_decide (proto ∈ ["tcp"; "udp"]).

(** [splitParts]: host address, host port, container port. *)
Definition splitParts (rawport : gostring) : gostring * gostring * gostring :=
  let parts := Split rawport ":" in
  let n := length parts in
  let containerport := default [] (last parts) in
  match parts with
  | [_] => ([], [], containerport)
  | [p; _] => ([], p, containerport)
  | [ip; p; _] => (ip, p, containerport)
  | _ => (Join (take (n - 2) parts) ":", default [] (parts !! (n - 2)%nat), containerport)
  end.

(** The mappings of a container range [startPort..endPort]; the host port is a
    range only for a single container port. *)
Definition spec_mapping (ip proto hostPort : gostring) (startPort endPort startHostPort endHostPort i : Z)
    : result goerror PortMapping :=
  let hp := if decide (hostPort = []) then hostPort else FormatUint (startHostPort + i) in
  let hp := if (startPort =? endPort) && negb (startHostPort =? endHostPort)
            then hp ++ "-" ++ FormatUint endHostPort else hp in
  let! port := NewPort (ToLower proto) (FormatUint (startPort + i)) in
  Ok (mkMapping port (mkBinding ip hp)).

Definition ParsePortSpec (rawPort : gostring) : result goerror (list PortMapping) :=
  let '(rawIP, hostPort, cport) := splitParts rawPort in
  let '(proto, containerPort) := SplitProtoPort cport in
  match SplitHostPort (rawIP ++ ":") with
  | None => Err (Errorf "Invalid ip address %v" [rawIP])
  | Some (ip, _) =>
      if negb (bool_decide (ip = [])) && bool_decide (ParseIP ip = None)
      then Err (Errorf "Invalid ip address: %s" [ip])
      else if decide (containerPort = []) then Err (Errorf "No port specified: %s<empty>" [rawPort])
      else match ParsePortRange containerPort with
      | Err _ => Err (Errorf "Invalid containerPort: %s" [containerPort])
      | Ok (startPort, endPort) =>
          match (if decide (hostPort = []) then Ok (0, 0) else ParsePortRange hostPort) with
          | Err _ => Err (Errorf "Invalid hostPort: %s" [hostPort])
          | Ok (startHostPort, endHostPort) =>
              if negb (bool_decide (hostPort = [])) && negb (endPort - startPort =? endHostPort - startHostPort)
                   && negb (endPort =? startPort)
              then Err (Errorf "Invalid ranges specified for container and host Ports: %s and %s" [containerPort; hostPort])
              else if negb (validateProto (ToLower proto)) then Err (Errorf "Invalid proto: %s" [proto])
              else rmapM (spec_mapping ip proto hostPort startPort endPort startHostPort endHostPort)
                     (seqZ 0 (endPort - startPort + 1))
          end
      end
  end.

(** [ParsePortSpecs]: the exposed ports and the bindings of each. *)
Definition add_mapping (acc : gset Port * gmap Port (list PortBinding)) (m : PortMapping)
    : gset Port * gmap Port (list PortBinding) :=
  let '(exposed, bindings) := acc in
  ({[pm_Port m]} ∪ exposed,
   <[pm_Port m := default [] (bindings !! pm_Port m) ++ [pm_Binding m]]> bindings).
Definition ParsePortSpecs (ports : list gostring) : result goerror (gset Port * gmap Port (list PortBinding)) :=
  rfoldM (fun acc rawPort => let! ms := ParsePortSpec rawPort in Ok (foldl add_mapping acc ms)) (∅, ∅) ports.

End Nat_.

Import Nat_.

Example spec_ex1 : ParsePortSpec "127.0.0.1:8000-8001:80-81/udp" =
  Ok [mkMapping "80/udp" (mkBinding "127.0.0.1" "8000"); mkMapping "81/udp" (mkBinding "127.0.0.1" "8001")].
Proof. vm_compute. reflexivity. Qed.
Example spec_ex2 : ParsePortSpec "8000-8010:80" = Ok [mkMapping "80/tcp" (mkBinding [] "8000-8010")].
Proof. vm_compute. reflexivity. Qed.

(** ** Mount options *)

Module Mount.

(** The Linux values of the [syscall.MS_*] constants. *)
Definition RDONLY := 0x1.
Definition NOSUID := 0x2.
Definition NODEV := 0x4.
Definition NOEXEC := 0x8.
Definition SYNCHRONOUS := 0x10.
Definition REMOUNT := 0x20.
Definition MANDLOCK := 0x40.
Definition DIRSYNC := 0x80.
Definition NOATIME := 0x400.
Definition NODIRATIME := 0x800.
Definition BIND := 0x1000.
Definition MS_REC := 0x4000.
Definition RBIND := Z.lor BIND MS_REC.
Definition UNBINDABLE := 0x20000.
Definition RUNBINDABLE := Z.lor UNBINDABLE MS_REC.
Definition PRIVATE := 0x40000.
Definition RPRIVATE := Z.lor PRIVATE MS_REC.
Definition SLAVE := 0x80000.
Definition RSLAVE := Z.lor SLAVE MS_REC.
Definition SHARED := 0x100000.
Definition RSHARED := Z.lor SHARED MS_REC.
Definition RELATIME := 0x200000.
Definition STRICTATIME := 0x1000000.

(** The table of [parseOptions]: whether the option clears its bits, and the bits. *)
Definition flag_table : list (gostring * (bool * Z)) :=
  [("defaults", (false, 0)); ("ro", (false, RDONLY)); ("rw", (true, RDONLY)); ("suid", (true, NOSUID));
   ("nosuid", (false, NOSUID)); ("dev", (true, NODEV)); ("nodev", (false, NODEV)); ("exec", (true, NOEXEC));
   ("noexec", (false, NOEXEC)); ("sync", (false, SYNCHRONOUS)); ("async", (true, SYNCHRONOUS));
   ("dirsync", (false, DIRSYNC)); ("remount", (false, REMOUNT)); ("mand", (false, MANDLOCK));
   ("nomand", (true, MANDLOCK)); ("atime", (true, NOATIME)); ("noatime", (false, NOATIME));
   ("diratime", (true, NODIRATIME)); ("nodiratime", (false, NODIRATIME)); ("bind", (false, BIND));
   ("rbind", (false, RBIND)); ("unbindable", (false, UNBINDABLE)); ("runbindable", (false, RUNBINDABLE));
   ("private", (false, PRIVATE)); ("rprivate", (false, RPRIVATE)); ("shared", (false, SHARED));
   ("rshared", (false, RSHARED)); ("slave", (false, SLAVE)); ("rslave", (false, RSLAVE));
   ("relatime", (false, RELATIME)); ("norelatime", (true, RELATIME)); ("strictatime", (false, STRICTATIME));
   ("nostrictatime", (true, STRICTATIME))].
Definition flags_map : gmap gostring (bool * Z) := list_to_map flag_table.

Definition option_step (acc : Z * list gostring) (o : gostring) : Z * list gostring :=
  let '(flag, data) := acc in
  match (flags_map !! o : option (bool * Z)) with
  | Some (clear, f) =>
      if f =? 0 then (flag, data ++ [o])
      else if clear then (Z.land flag (Z.lnot f), data) else (Z.lor flag f, data)
  | None => (flag, data ++ [o])
  end.
Definition parseOptions (options : gostring) : Z * gostring :=
  let '(flag, data) := foldl option_step (0, []) (Split options ",") in
  (flag, Join data ",").

Definition validFlags : list gostring := [[]; "size"; "mode"; "uid"; "gid"; "nr_inodes"; "nr_blocks"; "mpol"].
Definition opt_key (o : gostring) : gostring := default [] (SplitN o "=" 2 !! 0%nat).
Definition ParseTmpfsOptions (options : gostring) : result goerror (Z * gostring) :=
  let '(flags, data) := parseOptions options in
  match List.find (fun o => negb (bool_decide (opt_key o ∈ validFlags))) (Split data ",") with
  | Some o => Err (Errorf "Invalid tmpfs option %q" (SplitN o "=" 2))
  | None => Ok (flags, data)
  end.

End Mount.

Import Mount.

(** *** Lemmas on mount options *)

#[local] Opaque flags_map.
#[local] Arguments option_step : simpl never.

Section options.
Implicit Types (o : gostring) (os data : list gostring) (flag : Z).

(** How an option acts on one bit: [Some b] when it decides it. *)
Definition bit_effect (k : Z) o : option bool :=
  match flags_map !! o with
  | Some (clear, f) => if Z.testbit f k then Some (negb clear) else None
  | None => None
  end.

Lemma option_step_bit k flag data o flag' data' :
  0 <= k → option_step (flag, data) o = (flag', data') →
  Z.testbit flag' k = default (Z.testbit flag k) (bit_effect k o).
Proof.
  intros Hk. unfold option_step, bit_effect. destruct (flags_map !! o) as [[clear f]|]; [|by intros [= <- <-]].
  destruct (Z.eqb_spec f 0) as [->|Hf]; [intros [= <- <-]; by rewrite Z.bits_0|].
  destruct clear; intros [= <- <-].
  - rewrite Z.land_spec, Z.lnot_spec by done. destruct (Z.testbit f k); simpl; btauto.
  - rewrite Z.lor_spec. destruct (Z.testbit f k); simpl; btauto.
Qed.

(** Only options the flag table does not know, or knows with no bits, become data. *)
Lemma option_step_data flag data o :
  (option_step (flag, data) o).2 = data ++ (if bool_decide (from_option snd 0 (flags_map !! o) = 0) then [o] else []).
Proof.
  unfold option_step. destruct (flags_map !! o) as [[clear f]|]; simpl; [|done].
  destruct (Z.eqb_spec f 0); [by rewrite bool_decide_true|].
  rewrite bool_decide_false by done. rewrite app_nil_r. by destruct clear.
Qed.

Lemma options_bit k os flag data :
  0 <= k →
  Z.testbit (foldl option_step (flag, data) os).1 k =
  default (Z.testbit flag k) (last (omap (bit_effect k) os)).
Proof.
  intros Hk. revert flag data. induction os as [|o os IH]; intros flag data; [done|]. simpl.
  destruct (option_step (flag, data) o) as [flag' data'] eqn:E. rewrite IH.
  rewrite (option_step_bit k _ _ _ _ _ Hk E). destruct (bit_effect k o) as [b|]; simpl; [|done].
  rewrite last_cons. by destruct (last _).
Qed.

Lemma options_data os flag data :
  (foldl option_step (flag, data) os).2 =
  data ++ filter (fun o => from_option snd 0 (flags_map !! o) = 0) os.
Proof.
  revert flag data. induction os as [|o os IH]; intros flag data; [simpl; by rewrite app_nil_r|]. simpl.
  destruct (option_step (flag, data) o) as [flag' data'] eqn:E. rewrite IH.
  pose proof (option_step_data flag data o) as Hd. rewrite E in Hd. simpl in Hd. rewrite Hd, <-app_assoc.
  f_equal. rewrite filter_cons. case_bool_decide; case_decide; first [contradiction | reflexivity].
Qed.

End options.

(** In the flags [parseOptions] computes, a bit is set exactly when the last of the
    options that decide it sets it (so of [ro] and [rw] the last one wins), and the data
    string is the comma-joined list of the other options, in order. *)
Theorem parseOptions_spec options :
  let os := Split options "," in
  (∀ k, 0 <= k → Z.testbit (parseOptions options).1 k = default false (last (omap (bit_effect k) os))) ∧
  (parseOptions options).2 = Join (filter (fun o => from_option snd 0 (flags_map !! o) = 0) os) ",".
Proof.
  intros os. unfold parseOptions. fold os.
  pose proof (options_data os 0 []) as Hd. pose proof (fun k => options_bit k os 0 []) as Hb.
  destruct (foldl option_step (0, []) os) as [flag data]. simpl in *. split; [|by rewrite Hd].
  intros k Hk. rewrite Hb by done. by rewrite Z.bits_0.
Qed.

(** [defaults], an option of the table, is refused for a tmpfs: its entry has no
    bits, so it is passed on as data and then is not one of the tmpfs data options. *)
Theorem tmpfs_refuses_defaults :
  is_Some (flags_map !! ("defaults" : gostring)) ∧
  ParseTmpfsOptions "defaults" = Err (Errorf "Invalid tmpfs option %q" ["defaults"]) ∧
  ParseTmpfsOptions "size=64k,ro" = Ok (RDONLY, "size=64k").
Proof. split_and!; [vm_compute; eexists; reflexivity|vm_compute; reflexivity..]. Qed.
