(* ===== verification/RunConfig.v ===== *)
(** * RunConfig: from the command line of [hyper run] to a container configuration

    Models [Parse] of [src/runconfig/opts/parse.go]: it declares the flags on a
    flag set, parses the arguments, and builds the [Config], [HostConfig] and
    [NetworkingConfig] sent to the server (types of the vendored [hyper-api]).

    The flags are rows of a table, declared in the order of the source; a flag's
    pointer is its place in the heap of the flag set.  Nil and empty slices are not
    distinguished.  The order in which Go ranges over a map is an argument. *)

From S2P Require Import Prelude Strconv GoPath GoNet MFlag Opts Ports.
Import Strings Strconv GoNet MFlag Opts.Units Opts.Opts Opts.RunOpts Ports.Nat_ Ports.Mount.

Local Open Scope Z_scope.

Module RunConfig.

(** ** Flag values *)

Inductive runValue :=
| RBasic (v : value)
| RList (l : ListOpts)
| RThrottle (validator : gostring → result goerror ThrottleDevice) (l : list ThrottleDevice)
| RWeight (validator : gostring → result goerror WeightDevice) (l : list WeightDevice)
| RUlimits (m : gmap gostring Ulimit).

Definition run_set (v : runValue) (s : gostring) : runValue * option goerror :=
  match v with
  | RBasic v => let '(v, e) := value_set v s in (RBasic v, e)
  | RList l => let '(l, e) := ListOpts_Set l s in (RList l, e)
  | RThrottle f l => let '(l, e) := ThrottledeviceOpt_Set f l s in (RThrottle f l, e)
  | RWeight f l => let '(l, e) := WeightdeviceOpt_Set f l s in (RWeight f l, e)
  | RUlimits m => let '(m, e) := UlimitOpt_Set m s in (RUlimits m, e)
  end.
#[global] Instance run_flag : FlagValue runValue := {|
  vset := run_set;
  vbool v := match v with RBasic (boolValue _) => true | _ => false end;
  vstring v := match v with
               | RBasic v => value_string v
               | RList l => "[" ++ Join (values l) " " ++ "]"
               | _ => "[]"
               end
|}.

Definition DefaultStopSignal : gostring := "SIGTERM".

(** ** The declarations *)

Inductive runFlag :=
  | flPrivileged | flPidMode | flUTSMode | flPublishAll | flStdin | flTty | flOomKillDisable
  | flOomScoreAdj | flContainerIDFile | flEntrypoint | flHostname | flMemoryString
  | flMemoryReservation | flMemorySwap | flKernelMemory | flUser | flWorkingDir | flCPUShares
  | flCPUPeriod | flCPUQuota | flCpusetCpus | flCpusetMems | flBlkioWeight | flSwappiness
  | flNetMode | flMacAddress | flIPv4Address | flIPv6Address | flIpcMode | flRestartPolicy
  | flReadonlyRootfs | flLoggingDriver | flCgroupParent | flVolumeDriver | flStopSignal
  | flIsolation | flShmSize | flInstanceType | flNoAutoVolume | flContainerProtection
  | flAttach | flBlkioWeightDevice | flDeviceReadBps | flDeviceWriteBps | flDeviceReadIOps
  | flDeviceWriteIOps | flVolumes | flTmpfs | flLinks | flAliases | flDevices | flLabels
  | flLabelsFile | flEnv | flEnvFile | flPublish | flExpose | flDNS | flDNSSearch
  | flDNSOptions | flExtraHosts | flVolumesFrom | flCapAdd | flCapDrop | flGroupAdd
  | flSecurityOpt | flUlimits | flLoggingOpts | flSecurityGroups.

(** The place of a flag in the order of declaration. *)
Definition flag_index (f : runFlag) : nat :=
  match f with
  | flPrivileged => 0 | flPidMode => 1 | flUTSMode => 2 | flPublishAll => 3 | flStdin => 4
  | flTty => 5 | flOomKillDisable => 6 | flOomScoreAdj => 7 | flContainerIDFile => 8
  | flEntrypoint => 9 | flHostname => 10 | flMemoryString => 11 | flMemoryReservation => 12
  | flMemorySwap => 13 | flKernelMemory => 14 | flUser => 15 | flWorkingDir => 16
  | flCPUShares => 17 | flCPUPeriod => 18 | flCPUQuota => 19 | flCpusetCpus => 20
  | flCpusetMems => 21 | flBlkioWeight => 22 | flSwappiness => 23 | flNetMode => 24
  | flMacAddress => 25 | flIPv4Address => 26 | flIPv6Address => 27 | flIpcMode => 28
  | flRestartPolicy => 29 | flReadonlyRootfs => 30 | flLoggingDriver => 31
  | flCgroupParent => 32 | flVolumeDriver => 33 | flStopSignal => 34 | flIsolation => 35
  | flShmSize => 36 | flInstanceType => 37 | flNoAutoVolume => 38 | flContainerProtection => 39
  | flAttach => 40 | flBlkioWeightDevice => 41 | flDeviceReadBps => 42 | flDeviceWriteBps => 43
  | flDeviceReadIOps => 44 | flDeviceWriteIOps => 45 | flVolumes => 46 | flTmpfs => 47
  | flLinks => 48 | flAliases => 49 | flDevices => 50 | flLabels => 51 | flLabelsFile => 52
  | flEnv => 53 | flEnvFile => 54 | flPublish => 55 | flExpose => 56 | flDNS => 57
  | flDNSSearch => 58 | flDNSOptions => 59 | flExtraHosts => 60 | flVolumesFrom => 61
  | flCapAdd => 62 | flCapDrop => 63 | flGroupAdd => 64 | flSecurityOpt => 65
  | flUlimits => 66 | flLoggingOpts => 67 | flSecurityGroups => 68
  end%nat.

Definition run_flags : list runFlag :=
  [flPrivileged; flPidMode; flUTSMode; flPublishAll; flStdin; flTty; flOomKillDisable;
  flOomScoreAdj; flContainerIDFile; flEntrypoint; flHostname; flMemoryString; flMemoryReservation;
  flMemorySwap; flKernelMemory; flUser; flWorkingDir; flCPUShares; flCPUPeriod; flCPUQuota;
  flCpusetCpus; flCpusetMems; flBlkioWeight; flSwappiness; flNetMode; flMacAddress; flIPv4Address;
  flIPv6Address; flIpcMode; flRestartPolicy; flReadonlyRootfs; flLoggingDriver; flCgroupParent;
  flVolumeDriver; flStopSignal; flIsolation; flShmSize; flInstanceType; flNoAutoVolume;
  flContainerProtection; flAttach; flBlkioWeightDevice; flDeviceReadBps; flDeviceWriteBps;
  flDeviceReadIOps; flDeviceWriteIOps; flVolumes; flTmpfs; flLinks; flAliases; flDevices; flLabels;
  flLabelsFile; flEnv; flEnvFile; flPublish; flExpose; flDNS; flDNSSearch; flDNSOptions;
  flExtraHosts; flVolumesFrom; flCapAdd; flCapDrop; flGroupAdd; flSecurityOpt; flUlimits;
  flLoggingOpts; flSecurityGroups].

(** Initial value, names and usage of each flag; most of the flags of the original tool
    are declared without any name. *)
Definition run_decl (env : environ) (f : runFlag) : runValue * list gostring * gostring :=
  match f with
  | flPrivileged => (RBasic (boolValue false), [], "Give extended privileges to this container")
  | flPidMode => (RBasic (stringValue []), [], "PID namespace to use")
  | flUTSMode => (RBasic (stringValue []), [], "UTS namespace to use")
  | flPublishAll => (RBasic (boolValue false), ["P"; "-publish-all"], "Publish all exposed ports to random ports")
  | flStdin => (RBasic (boolValue false), ["i"; "-interactive"], "Keep STDIN open even if not attached")
  | flTty => (RBasic (boolValue false), ["t"; "-tty"], "Allocate a pseudo-TTY")
  | flOomKillDisable => (RBasic (boolValue false), [], "Disable OOM Killer")
  | flOomScoreAdj => (RBasic (intValue 0), [], "Tune host's OOM preferences (-1000 to 1000)")
  | flContainerIDFile => (RBasic (stringValue []), ["-cidfile"], "Write the container ID to the file")
  | flEntrypoint => (RBasic (stringValue []), ["-entrypoint"], "Overwrite the default ENTRYPOINT of the image")
  | flHostname => (RBasic (stringValue []), ["h"; "-hostname"], "Container host name")
  | flMemoryString => (RBasic (stringValue []), [], "Memory limit")
  | flMemoryReservation => (RBasic (stringValue []), [], "Memory soft limit")
  | flMemorySwap => (RBasic (stringValue []), [], "Swap limit equal to memory plus swap: '-1' to enable unlimited swap")
  | flKernelMemory => (RBasic (stringValue []), [], "Kernel memory limit")
  | flUser => (RBasic (stringValue []), [], "Username or UID (format: <name|uid>[:<group|gid>])")
  | flWorkingDir => (RBasic (stringValue []), ["w"; "-workdir"], "Working directory inside the container")
  | flCPUShares => (RBasic (int64Value 0), [], "CPU shares (relative weight)")
  | flCPUPeriod => (RBasic (int64Value 0), [], "Limit CPU CFS (Completely Fair Scheduler) period")
  | flCPUQuota => (RBasic (int64Value 0), [], "Limit CPU CFS (Completely Fair Scheduler) quota")
  | flCpusetCpus => (RBasic (stringValue []), [], "CPUs in which to allow execution (0-3, 0,1)")
  | flCpusetMems => (RBasic (stringValue []), [], "MEMs in which to allow execution (0-3, 0,1)")
  | flBlkioWeight => (RBasic (uint16Value 0), [], "Block IO (relative weight), between 10 and 1000")
  | flSwappiness => (RBasic (int64Value (-1)), [], "Tune container memory swappiness (0 to 100)")
  | flNetMode => (RBasic (stringValue "bridge"), [], "Connect a container to a network")
  | flMacAddress => (RBasic (stringValue []), [], "Container MAC address (e.g. 92:d0:c6:0a:29:33)")
  | flIPv4Address => (RBasic (stringValue []), [], "Container IPv4 address (e.g. 172.30.100.104)")
  | flIPv6Address => (RBasic (stringValue []), [], "Container IPv6 address (e.g. 2001:db8::33)")
  | flIpcMode => (RBasic (stringValue []), [], "IPC namespace to use")
  | flRestartPolicy => (RBasic (stringValue "no"), ["-restart"], "Restart policy to apply when a container exits")
  | flReadonlyRootfs => (RBasic (boolValue false), [], "Mount the container's root filesystem as read only")
  | flLoggingDriver => (RBasic (stringValue []), [], "Logging driver for container")
  | flCgroupParent => (RBasic (stringValue []), [], "Optional parent cgroup for the container")
  | flVolumeDriver => (RBasic (stringValue []), [], "Optional volume driver for the container")
  | flStopSignal => (RBasic (stringValue DefaultStopSignal), ["-stop-signal"], "Signal to stop a container, SIGTERM by default")
  | flIsolation => (RBasic (stringValue []), [], "Container isolation level")
  | flShmSize => (RBasic (stringValue []), [], "Size of /dev/shm, default value is 64MB")
  | flInstanceType => (RBasic (stringValue "s4"), ["-size"], "The type for each instance (e.g. s1, s2, s3, s4, m1, m2, m3, l1, l2, l3)")
  | flNoAutoVolume => (RBasic (boolValue false), ["-noauto-volume"], "Do not create volumes specified in image")
  | flContainerProtection => (RBasic (stringValue "False"), ["-protection"], "Termination protection for container")
  | flAttach => (RList (NewListOpts (Some ValidateAttach)), ["a"; "-attach"], "Attach to STDIN, STDOUT or STDERR")
  | flBlkioWeightDevice => (RWeight ValidateWeightDevice [], [], "Block IO weight (relative device weight)")
  | flDeviceReadBps => (RThrottle ValidateThrottleBpsDevice [], [], "Limit read rate (bytes per second) from a device")
  | flDeviceWriteBps => (RThrottle ValidateThrottleBpsDevice [], [], "Limit write rate (bytes per second) to a device")
  | flDeviceReadIOps => (RThrottle ValidateThrottleIOpsDevice [], [], "Limit read rate (IO per second) from a device")
  | flDeviceWriteIOps => (RThrottle ValidateThrottleIOpsDevice [], [], "Limit write rate (IO per second) to a device")
  | flVolumes => (RList (NewListOpts None), ["v"; "-volume"], "Bind mount a volume")
  | flTmpfs => (RList (NewListOpts None), [], "Mount a tmpfs directory")
  | flLinks => (RList (NewListOpts (Some ValidateLink)), ["-link"], "Add link to another container")
  | flAliases => (RList (NewListOpts None), [], "Add network-scoped alias for the container")
  | flDevices => (RList (NewListOpts (Some ValidateDevice)), [], "Add a host device to the container")
  | flLabels => (RList (NewListOpts (Some (ValidateEnv env))), ["l"; "-label"], "Set meta data on a container")
  | flLabelsFile => (RList (NewListOpts None), ["-label-file"], "Read in a line delimited file of labels")
  | flEnv => (RList (NewListOpts (Some (ValidateEnv env))), ["e"; "-env"], "Set environment variables")
  | flEnvFile => (RList (NewListOpts None), ["-env-file"], "Read in a file of environment variables")
  | flPublish => (RList (NewListOpts None), ["p"; "-publish"], "Publish a container's port(s) to the host")
  | flExpose => (RList (NewListOpts None), ["-expose"], "Expose a port or a range of ports")
  | flDNS => (RList (NewListOpts (Some ValidateIPAddress)), [], "Set custom DNS servers")
  | flDNSSearch => (RList (NewListOpts (Some ValidateDNSSearch)), [], "Set custom DNS search domains")
  | flDNSOptions => (RList (NewListOpts None), [], "Set DNS options")
  | flExtraHosts => (RList (NewListOpts (Some ValidateExtraHost)), [], "Add a custom host-to-IP mapping (host:ip)")
  | flVolumesFrom => (RList (NewListOpts None), ["-volumes-from"], "Mount shared volumes from the specified container(s)")
  | flCapAdd => (RList (NewListOpts None), [], "Add Linux capabilities")
  | flCapDrop => (RList (NewListOpts None), [], "Drop Linux capabilities")
  | flGroupAdd => (RList (NewListOpts None), [], "Add additional groups to join")
  | flSecurityOpt => (RList (NewListOpts None), [], "Security Options")
  | flUlimits => (RUlimits ∅, [], "Ulimit options")
  | flLoggingOpts => (RList (NewListOpts None), [], "Log driver options")
  | flSecurityGroups => (RList (NewListOpts None), ["-sg"], "Security group for each container")
  end.

Definition flag_value (env : environ) (f : runFlag) : runValue := (run_decl env f).1.1.
Definition flag_names (env : environ) (f : runFlag) : list gostring := (run_decl env f).1.2.

(** [cmd.Bool(...)], [cmd.String(...)], [cmd.Var(...)] in turn. *)
Fixpoint declare (rows : list (runValue * list gostring * gostring)) (cmd : FlagSet runValue)
    : outcome (FlagSet runValue) :=
  match rows with
  | [] => Ret cmd
  | (v, names, usage) :: rows =>
      match Var v names usage cmd with
      | Ret cmd => declare rows cmd
      | Panicked => Panicked
      | Exited c => Exited c
      | OutOfFuel => OutOfFuel
      end
  end.
Definition declare_flags (env : environ) (cmd : FlagSet runValue) : outcome (FlagSet runValue) :=
  declare (run_decl env <$> run_flags) cmd.

(** The flags once parsed, as the source dereferences them; [base] is the number of
    values the flag set had before. *)
Record flags := mkFlags { cells_ : list runValue; base : nat; Args : list gostring }.
Definition at_ (fl : flags) (f : runFlag) : option runValue := cells_ fl !! (base fl + flag_index f)%nat.
Definition bool_of (fl : flags) (f : runFlag) : bool :=
  match at_ fl f with Some (RBasic (boolValue b)) => b | _ => false end.
Definition string_of (fl : flags) (f : runFlag) : gostring :=
  match at_ fl f with Some (RBasic (stringValue s)) => s | _ => [] end.
Definition int_of (fl : flags) (f : runFlag) : Z :=
  match at_ fl f with
  | Some (RBasic (intValue i)) | Some (RBasic (int64Value i)) | Some (RBasic (uint16Value i)) => i
  | _ => 0
  end.
Definition opts_of (fl : flags) (f : runFlag) : ListOpts :=
  match at_ fl f with Some (RList l) => l | _ => NewListOpts None end.
Definition list_of (fl : flags) (f : runFlag) : list gostring := values (opts_of fl f).
Definition throttle_of (fl : flags) (f : runFlag) : list ThrottleDevice :=
  match at_ fl f with Some (RThrottle _ l) => l | _ => [] end.
Definition weight_of (fl : flags) (f : runFlag) : list WeightDevice :=
  match at_ fl f with Some (RWeight _ l) => l | _ => [] end.
Definition ulimits_of (fl : flags) (f : runFlag) : gmap gostring Ulimit :=
  match at_ fl f with Some (RUlimits m) => m | _ => ∅ end.

(** ** Building the configuration *)

Record EndpointSettings := mkEndpoint {
  IPAMConfig : option (gostring * gostring);
  ep_Links : list gostring;
  ep_Aliases : list gostring
}.
Definition NetworkingConfig := gmap gostring EndpointSettings.

Record Resources := mkResources {
  CgroupParent : gostring; Memory : Z; MemoryReservation : Z; MemorySwap : Z; MemorySwappiness : Z;
  KernelMemory : Z; OomKillDisable : bool; CPUShares : Z; CPUPeriod : Z; CpusetCpus : gostring;
  CpusetMems : gostring; CPUQuota : Z; BlkioWeight : Z; BlkioWeightDevice : list WeightDevice;
  BlkioDeviceReadBps : list ThrottleDevice; BlkioDeviceWriteBps : list ThrottleDevice;
  BlkioDeviceReadIOps : list ThrottleDevice; BlkioDeviceWriteIOps : list ThrottleDevice;
  Ulimits : list Ulimit; Devices : list DeviceMapping
}.

Record Config := mkConfig {
  Hostname : gostring; Domainname : gostring; ExposedPorts : gset Port; User : gostring; Tty : bool;
  NetworkDisabled : bool; OpenStdin : bool; StdinOnce : bool; AttachStdin : bool; AttachStdout : bool;
  AttachStderr : bool; Env : list gostring; Cmd : list gostring; Image : gostring;
  Volumes : gset gostring; MacAddress : gostring; Entrypoint : list gostring; WorkingDir : gostring;
  Labels : gmap gostring gostring; StopSignal : gostring
}.

Record HostConfig := mkHostConfig {
  Binds : list gostring; ContainerIDFile : gostring; OomScoreAdj : Z; Privileged : bool;
  PortBindings : gmap Port (list PortBinding); Links : list gostring; PublishAllPorts : bool;
  DNS : list gostring; DNSSearch : list gostring; DNSOptions : list gostring; ExtraHosts : list gostring;
  VolumesFrom : list gostring; NetworkMode : gostring; IpcMode : gostring; PidMode : gostring;
  UTSMode : gostring; CapAdd : list gostring; CapDrop : list gostring; GroupAdd : list gostring;
  hc_RestartPolicy : RestartPolicy; SecurityOpt : list gostring; ReadonlyRootfs : bool;
  LogConfig : gostring * gmap gostring gostring; VolumeDriver : gostring; ShmSize : Z;
  hc_Resources : Resources; Tmpfs : gmap gostring gostring
}.

(** Modes of [hyper-api]: [IpcMode.Valid], [PidMode.Valid], [UTSMode.Valid],
    [NetworkMode.IsUserDefined]. *)
Definition IpcMode_Valid (n : gostring) : bool :=
  match Split n ":" with
  | mode :: rest =>
      if (mode =s []) || (mode =s "host") then true
      else if mode =s "container" then match rest with [c] => negb (c =s []) | _ => false end
      else false
  | [] => true
  end.
Definition PidMode_Valid := IpcMode_Valid.
Definition UTSMode_Valid (n : gostring) : bool :=
  match Split n ":" with mode :: _ => (mode =s []) || (mode =s "host") | [] => true end.
Definition IsContainer (n : gostring) : bool :=
  match SplitN n ":" 2 with [k; _] => k =s "container" | _ => false end.
Definition IsUserDefined (n : gostring) : bool :=
  negb (n =s "default") && negb (n =s "bridge") && negb (n =s "host") && negb (n =s "none") && negb (IsContainer n).

(** An optional size: zero when the flag is empty. *)
Definition size_flag (s : gostring) : result goerror Z :=
  if decide (s = []) then Ok 0 else RAMInBytes s.

(** Streams to attach, from [-a] and [-i]: stdin, stdout, stderr. *)
Definition attach_streams (fl : flags) : bool * bool * bool :=
  let a := opts_of fl flAttach in
  let attachStdin := if bool_of fl flStdin then true else ListOpts_Get a "stdin" in
  if Nat.eqb (ListOpts_Len a) 0 then (attachStdin, true, true)
  else (attachStdin, ListOpts_Get a "stdout", ListOpts_Get a "stderr").

Record memory_limits := mkLimits { flMemory : Z; lReservation : Z; lSwap : Z; lKernel : Z; lSwappiness : Z; lShm : Z }.
Definition parse_limits (fl : flags) : result goerror memory_limits :=
  let! flMemory := size_flag (string_of fl flMemoryString) in
  let! reservation := size_flag (string_of fl flMemoryReservation) in
  let! memorySwap := (if string_of fl flMemorySwap =s "-1" then Ok (-1) else size_flag (string_of fl flMemorySwap)) in
  let! kernel := size_flag (string_of fl flKernelMemory) in
  let swappiness := int_of fl flSwappiness in
  if negb (swappiness =? -1) && ((swappiness <? 0) || (100 <? swappiness))
  then Err (Errorf "Invalid value: %d. Valid memory swappiness range is 0-100" [FormatInt swappiness])
  else
    let! shmSize := size_flag (string_of fl flShmSize) in
    Ok (mkLimits flMemory reservation memorySwap kernel swappiness shmSize).

(** Bind mounts move out of the volumes.  [range] is the order in which the set of
    volumes is ranged over. *)
Definition is_bind (bind : gostring) : bool :=
  match volumeSplitN bind 2 with Some arr => Nat.ltb 1 (length arr) | None => false end.
Definition bind_step (acc : list gostring * ListOpts) (bind : gostring) : list gostring * ListOpts :=
  let '(binds, vols) := acc in
  if is_bind bind then (binds ++ [bind], ListOpts_Delete vols bind) else (binds, vols).
Definition split_binds (range : gset gostring → list gostring) (flVolumes : ListOpts) : list gostring * ListOpts :=
  foldl bind_step ([], flVolumes) (range (ListOpts_GetMap flVolumes)).

Definition parse_tmpfs (ts : list gostring) : result goerror (gmap gostring gostring) :=
  rfoldM (fun tmpfs t =>
            match SplitN t ":" 2 with
            | [k; v] => check! ParseTmpfsOptions v in Ok (<[k := v]> tmpfs)
            | [k] => Ok (<[k := []]> tmpfs)
            | _ => Ok tmpfs
            end) ∅ ts.

Definition split_hostname (h : gostring) : gostring * gostring :=
  match SplitN h "." 2 with [a; b] => (a, b) | _ => (h, []) end.

(** [--expose]: one port or a range, merged into the published ports. *)
Definition expose (ports : gset Port) (e : gostring) : result goerror (gset Port) :=
  if Contains e ":" then Err (Errorf "Invalid port format for --expose: %s" [e])
  else
    let '(proto, port) := SplitProtoPort e in
    match ParsePortRange port with
    | Err _ => Err (Errorf "Invalid range format for --expose: %s" [e])
    | Ok (start, stop) =>
        rfoldM (fun ports i => let! p := NewPort proto (FormatUint i) in Ok ({[p]} ∪ ports))
          ports (seqZ start (stop - start + 1))
    end.

(** Labels: files, then [-l], then the instance type and the security groups. *)
Definition sg_labels (sgs : list gostring) : list gostring :=
  (fun sg => "sh_hyper_sg_" ++ sg ++ "=yes") <$> filter (fun sg => sg ≠ []) sgs.
Definition hyper_labels (fl : flags) (labels : list gostring) : list gostring :=
  labels ++ ["sh_hyper_instancetype=" ++ string_of fl flInstanceType] ++ sg_labels (list_of fl flSecurityGroups).
Definition option_labels (fl : flags) (labels : list gostring) : result goerror (list gostring) :=
  let labels := if bool_of fl flNoAutoVolume then labels ++ ["sh_hyper_noauto_volume=true"] else labels in
  match ParseBool (string_of fl flContainerProtection) with
  | (v, None) => Ok (if v then labels ++ ["sh_hyper_container_protection=true"] else labels)
  | (_, Some e) => Err (Errorf "Parse flag protection failed: %v" [string_of fl flContainerProtection])
  end.

(** Endpoint settings for the addresses, the links and the aliases asked for. *)
Definition networking (fl : flags) (netmode : gostring) : NetworkingConfig :=
  let v4 := string_of fl flIPv4Address in
  let v6 := string_of fl flIPv6Address in
  let nc := if negb (v4 =s []) || negb (v6 =s []) then {[netmode := mkEndpoint (Some (v4, v6)) [] []]} else ∅ in
  let ep (nc : NetworkingConfig) := default (mkEndpoint None [] []) (nc !! netmode) in
  let links := list_of fl flLinks in
  let nc := if IsUserDefined netmode && Nat.ltb 0 (length links)
            then <[netmode := mkEndpoint (IPAMConfig (ep nc)) links (ep_Aliases (ep nc))]> nc else nc in
  let aliases := list_of fl flAliases in
  if Nat.ltb 0 (length aliases)
  then <[netmode := mkEndpoint (IPAMConfig (ep nc)) (ep_Links (ep nc)) aliases]> nc else nc.

Section build.
Context (env : environ) (fs : RunOpts.files) (compact : gostring → option gostring)
  (range : gset gostring → list gostring).

Definition build_resources (fl : flags) (lim : memory_limits) (deviceMappings : list DeviceMapping) : Resources :=
  {| CgroupParent := string_of fl flCgroupParent; Memory := flMemory lim; MemoryReservation := lReservation lim;
     MemorySwap := lSwap lim; MemorySwappiness := lSwappiness lim; KernelMemory := lKernel lim;
     OomKillDisable := bool_of fl flOomKillDisable; CPUShares := int_of fl flCPUShares;
     CPUPeriod := int_of fl flCPUPeriod; CpusetCpus := string_of fl flCpusetCpus;
     CpusetMems := string_of fl flCpusetMems; CPUQuota := int_of fl flCPUQuota;
     BlkioWeight := int_of fl flBlkioWeight; BlkioWeightDevice := weight_of fl flBlkioWeightDevice;
     BlkioDeviceReadBps := throttle_of fl flDeviceReadBps; BlkioDeviceWriteBps := throttle_of fl flDeviceWriteBps;
     BlkioDeviceReadIOps := throttle_of fl flDeviceReadIOps; BlkioDeviceWriteIOps := throttle_of fl flDeviceWriteIOps;
     Ulimits := UlimitOpt_GetList (ulimits_of fl flUlimits); Devices := deviceMappings |}.

Definition build_config (fl : flags) (vols : ListOpts) (ports : gset Port) (envVariables labels : list gostring) : Config :=
  let '(attachStdin, attachStdout, attachStderr) := attach_streams fl in
  let '(hostname, domainname) := split_hostname (string_of fl flHostname) in
  {| Hostname := hostname; Domainname := domainname; ExposedPorts := ports; User := string_of fl flUser;
     Tty := bool_of fl flTty; NetworkDisabled := false; OpenStdin := bool_of fl flStdin;
     StdinOnce := bool_of fl flStdin && attachStdin;
     AttachStdin := attachStdin; AttachStdout := attachStdout; AttachStderr := attachStderr;
     Env := envVariables; Cmd := tail (Args fl); Image := default [] (head (Args fl));
     Volumes := ListOpts_GetMap vols; MacAddress := string_of fl flMacAddress;
     Entrypoint := (let e := string_of fl flEntrypoint in if decide (e = []) then [] else [e]);
     WorkingDir := string_of fl flWorkingDir; Labels := ConvertKVStringsToMap labels;
     StopSignal := string_of fl flStopSignal |}.

Definition build_host_config (fl : flags) (lim : memory_limits) (binds : list gostring) (tmpfs : gmap gostring gostring)
    (portBindings : gmap Port (list PortBinding)) (rp : RestartPolicy) (loggingOpts : gmap gostring gostring)
    (securityOpts : list gostring) (resources : Resources) : HostConfig :=
  {| Binds := binds; ContainerIDFile := string_of fl flContainerIDFile; OomScoreAdj := int_of fl flOomScoreAdj;
     Privileged := bool_of fl flPrivileged; PortBindings := portBindings; Links := list_of fl flLinks;
     PublishAllPorts := bool_of fl flPublishAll; DNS := list_of fl flDNS; DNSSearch := list_of fl flDNSSearch;
     DNSOptions := list_of fl flDNSOptions; ExtraHosts := list_of fl flExtraHosts;
     VolumesFrom := list_of fl flVolumesFrom; NetworkMode := string_of fl flNetMode;
     IpcMode := string_of fl flIpcMode; PidMode := string_of fl flPidMode; UTSMode := string_of fl flUTSMode;
     CapAdd := list_of fl flCapAdd; CapDrop := list_of fl flCapDrop; GroupAdd := list_of fl flGroupAdd;
     hc_RestartPolicy := rp; SecurityOpt := securityOpts; ReadonlyRootfs := bool_of fl flReadonlyRootfs;
     LogConfig := (string_of fl flLoggingDriver, loggingOpts); VolumeDriver := string_of fl flVolumeDriver;
     ShmSize := lShm lim; hc_Resources := resources; Tmpfs := tmpfs |}.

(** Everything [Parse] does once the flags are parsed, in its order. *)
Definition build (fl : flags) : result goerror (Config * HostConfig * NetworkingConfig) :=
  let mac := string_of fl flMacAddress in
  if negb (mac =s []) && negb (is_ok (ValidateMACAddress mac))
  then Err (Errorf "%s is not a valid mac address" [mac])
  else
    let! lim := parse_limits fl in
    let '(binds, vols) := split_binds range (opts_of fl flVolumes) in
    let! tmpfs := parse_tmpfs (list_of fl flTmpfs) in
    let! (published, portBindings) := ParsePortSpecs (list_of fl flPublish) in
    let! ports := rfoldM expose published (list_of fl flExpose) in
    let! deviceMappings := rmapM ParseDevice (list_of fl flDevices) in
    let! envVariables := readKVStrings fs env (list_of fl flEnvFile) (list_of fl flEnv) in
    let! labels := readKVStrings fs env (list_of fl flLabelsFile) (list_of fl flLabels) in
    let labels := hyper_labels fl labels in
    if negb (IpcMode_Valid (string_of fl flIpcMode)) then Err (Errorf "--ipc: invalid IPC mode" [])
    else if negb (PidMode_Valid (string_of fl flPidMode)) then Err (Errorf "--pid: invalid PID mode" [])
    else if negb (UTSMode_Valid (string_of fl flUTSMode)) then Err (Errorf "--uts: invalid UTS mode" [])
    else
      let! restartPolicy := ParseRestartPolicy (string_of fl flRestartPolicy) in
      let! loggingOpts := parseLoggingOpts (string_of fl flLoggingDriver) (list_of fl flLoggingOpts) in
      let! securityOpts := parseSecurityOpts fs compact (list_of fl flSecurityOpt) in
      let! labels := option_labels fl labels in
      let resources := build_resources fl lim deviceMappings in
      let config := build_config fl vols ports envVariables labels in
      let hostConfig := build_host_config fl lim binds tmpfs portBindings restartPolicy loggingOpts securityOpts resources in
      Ok (config, hostConfig, networking fl (NetworkMode hostConfig)).

(** An error of the flag parser, or of what follows it. *)
Inductive runError := FlagError (e : MFlag.error) | ConfigError (e : goerror).

Definition is_true (v : runValue) : bool := match v with RBasic (boolValue b) => b | _ => false end.

Definition Parse (cmd : FlagSet runValue) (arguments : list gostring)
    : outcome (FlagSet runValue * result runError (Config * HostConfig * NetworkingConfig)) :=
  match declare_flags env cmd with
  | Ret cmd1 =>
      match ParseFlags (RBasic (boolValue false)) is_true arguments true (Require Min 1 cmd1) with
      | Ret (cmd2, Some e) => Ret (cmd2, Err (FlagError e))
      | Ret (cmd2, None) =>
          match build (mkFlags (heap cmd2) (length (heap cmd)) (args cmd2)) with
          | Ok c => Ret (cmd2, Ok c)
          | Err e => Ret (cmd2, Err (ConfigError e))
          end
      | Panicked => Panicked
      | Exited c => Exited c
      | OutOfFuel => OutOfFuel
      end
  | Panicked => Panicked
  | Exited c => Exited c
  | OutOfFuel => OutOfFuel
  end.

End build.

End RunConfig.

Import RunConfig.

(** A run of the whole parser on a typical command line. *)
Definition demo_parse (a : list gostring) := Parse [] (fun _ => None) Some elements (NewFlagSet "run" ContinueOnError) a.
Definition demo_config {A} (a : list gostring) (f : Config → HostConfig → NetworkingConfig → A) : option A :=
  match demo_parse a with Ret (_, Ok (cfg, host, net)) => Some (f cfg host net) | _ => None end.
Definition demo_args : list gostring :=
  ["-it"; "--size=s2"; "-v"; "/data"; "-v"; "/src:/dst"; "-p"; "80:8080"; "--expose"; "90-91";
   "-h"; "web.example.com"; "--sg"; "default"; "-e"; "A=1"; "busybox"; "sh"; "-c"; "ls"].
Example demo_run1 :
  demo_config demo_args (fun cfg host net => (Image cfg, Cmd cfg, Hostname cfg, Domainname cfg, Env cfg)) =
  Some ("busybox", ["sh"; "-c"; "ls"], "web", "example.com", ["A=1"]).
Proof. vm_compute. reflexivity. Qed.
Example demo_run2 :
  demo_config demo_args (fun cfg host net => (elements (ExposedPorts cfg), elements (Volumes cfg), Binds host, StdinOnce cfg)) =
  Some (elements (list_to_set ["8080/tcp"; "90/tcp"; "91/tcp"] : gset Port), ["/data"], ["/src:/dst"], true).
Proof. vm_compute. reflexivity. Qed.

(** ** Flags without a name keep their declared value *)

Section declared.
Context (env : environ).
Implicit Types (cmd : FlagSet runValue) (f : runFlag).

Lemma define_names_inv flag names m m' n (f : Flag) :
  define_names flag names m = Some m' → m' !! (n : gostring) = Some f → m !! n = Some f ∨ (f = flag ∧ names ≠ []).
Proof.
  revert m. induction names as [|x names IH]; intros m; simpl; [intros [= <-]; auto|].
  destruct (m !! _); [done|]. intros H Hn. destruct (IH _ H Hn) as [Hi|[-> _]]; [|auto].
  apply lookup_insert_Some in Hi as [[_ <-]|[_ ?]]; auto.
Qed.

Lemma Var_inv (v : runValue) names usage cmd cmd' :
  Var v names usage cmd = Ret cmd' →
  heap cmd' = heap cmd ++ [v] ∧
  ∀ n flag, formal cmd' !! n = Some flag →
    formal cmd !! n = Some flag ∨ (Value flag = length (heap cmd) ∧ names ≠ []).
Proof.
  unfold Var. destruct (define_names _ _ _) as [m|] eqn:E; [|done]. intros [= <-]. split; [done|].
  intros n flag H. destruct (define_names_inv _ _ _ _ _ _ E H) as [?|[-> ?]]; auto.
Qed.

Lemma declare_inv rows cmd cmd' :
  declare rows cmd = Ret cmd' →
  heap cmd' = heap cmd ++ (fst ∘ fst <$> rows) ∧
  ∀ n flag, formal cmd' !! n = Some flag →
    formal cmd !! n = Some flag ∨
    ∃ i v names usage, rows !! i = Some (v, names, usage) ∧ names ≠ [] ∧ Value flag = (length (heap cmd) + i)%nat.
Proof.
  revert cmd. induction rows as [|[[v names] usage] rows IH]; intros cmd; simpl.
  { intros [= <-]. rewrite app_nil_r. auto. }
  destruct (Var v names usage cmd) as [cmd1| | |] eqn:E; try done. intros H.
  apply Var_inv in E as [Hh Hf]. apply IH in H as [Hh' Hf']. split.
  { rewrite Hh', Hh, <-(assoc_L (++)). done. }
  intros n flag H. destruct (Hf' n flag H) as [H'|(i & v' & names' & usage' & Hi & Hne & Hv)].
  - destruct (Hf n flag H') as [|[Hv Hne]]; [auto|]. right. exists 0%nat, v, names, usage.
    split_and!; [done|done|lia].
  - right. exists (S i), v', names', usage'. split_and!; [done|done|]. rewrite Hh, length_app in Hv. simpl in Hv. lia.
Qed.

Lemma run_flags_index f : run_flags !! flag_index f = Some f.
Proof. by destruct f. Qed.

Lemma run_rows_index f : (run_decl env <$> run_flags) !! flag_index f = Some (run_decl env f).
Proof. by rewrite list_lookup_fmap, run_flags_index. Qed.

(** Every pointer of the set is one of its cells. *)
Definition wf_cmd cmd : Prop := ∀ n flag, formal cmd !! n = Some flag → (Value flag < length (heap cmd))%nat.

(** The property of cells that parsing preserves: those of nameless flags are as declared. *)
Definition nameless (rows : list (runValue * list gostring * gostring)) b (i : nat) (v : runValue) : Prop :=
  ∀ j v0 usage, i = (b + j)%nat → rows !! j = Some (v0, [], usage) → v = v0.

Lemma declared_settable rows t n cmd cmd1 cmd2 :
  wf_cmd cmd → declare rows cmd = Ret cmd1 →
  Var (RBasic (boolValue false)) ["#help"; "-help"] "Print usage" (Require t n cmd1) = Ret cmd2 →
  settable (nameless rows (length (heap cmd))) cmd2 ∧ cells (nameless rows (length (heap cmd))) cmd2 ∧
  heap cmd2 = heap cmd ++ (fst ∘ fst <$> rows) ++ [RBasic (boolValue false)].
Proof.
  intros Hwf [Hh1 Hf1]%declare_inv [Hh2 Hf2]%Var_inv. simpl in Hh2, Hf2.
  assert (Hheap : heap cmd2 = heap cmd ++ (fst ∘ fst <$> rows) ++ [RBasic (boolValue false)]).
  { rewrite Hh2, Hh1. by rewrite <-(assoc_L (++)). }
  split_and!; [| |done].
  - intros m flag Hn v s Hq j v0 u Hi Hr. exfalso. destruct (Hf2 m flag Hn) as [Hn1|[Hv _]].
    + destruct (Hf1 m flag Hn1) as [Hn0|(i & v' & names & usage & Hrow & Hne & Hv)].
      * apply Hwf in Hn0. lia.
      * assert (i = j) as -> by lia. rewrite Hr in Hrow. by injection Hrow as _ <- _.
    + apply lookup_lt_Some in Hr. rewrite Hh1, length_app, length_fmap in Hv. lia.
  - intros i v Hv j v0 u -> Hr. pose proof (lookup_lt_Some _ _ _ Hr) as Hlt.
    rewrite Hheap, lookup_app_r in Hv by lia. rewrite lookup_app_l in Hv by (rewrite length_fmap; lia).
    replace (length (heap cmd) + j - length (heap cmd))%nat with j in Hv by lia.
    rewrite list_lookup_fmap, Hr in Hv. by injection Hv.
Qed.

(** A flag without a name has its declared value after every successful parse. *)
Lemma nameless_cell rows t n cmd cmd1 cmd2 arguments cmd' j v usage :
  wf_cmd cmd → declare rows cmd = Ret cmd1 →
  Var (RBasic (boolValue false)) ["#help"; "-help"] "Print usage" (Require t n cmd1) = Ret cmd2 →
  MFlag.Parse arguments cmd2 = Ret (cmd', None) → rows !! j = Some (v, [], usage) →
  heap cmd' !! (length (heap cmd) + j)%nat = Some v.
Proof.
  intros Hwf E1 E2 E3 Hr. destruct (declared_settable rows t n cmd cmd1 cmd2 Hwf E1 E2) as (Hs & Hc & Hh).
  destruct (Parse_cells _ _ _ _ _ Hs Hc E3) as [Hc' (_ & _ & _ & Hl)].
  destruct (heap cmd' !! (length (heap cmd) + j)%nat) as [v'|] eqn:E.
  - f_equal. by eapply (Hc' _ _ E).
  - apply lookup_ge_None in E. rewrite Hl, Hh, !length_app, length_fmap in E.
    apply lookup_lt_Some in Hr. lia.
Qed.
End declared.

Section parsed.
Context (env : environ) (fs : RunOpts.files) (compact : gostring → option gostring)
  (range : gset gostring → list gostring).
Implicit Types (cmd : FlagSet runValue) (f : runFlag) (fl : flags).

(** The flags as a successful [Parse] reads them. *)
Definition parsed_flags cmd cmd' : flags := mkFlags (heap cmd') (length (heap cmd)) (args cmd').

Lemma Parse_inv cmd arguments cmd' c :
  Parse env fs compact range cmd arguments = Ret (cmd', Ok c) →
  build env fs compact range (parsed_flags cmd cmd') = Ok c ∧
  ∃ cmd1 cmd2, declare_flags env cmd = Ret cmd1 ∧
    Var (RBasic (boolValue false)) ["#help"; "-help"] "Print usage" (Require Min 1 cmd1) = Ret cmd2 ∧
    MFlag.Parse arguments cmd2 = Ret (cmd', None).
Proof.
  unfold Parse, ParseFlags. destruct (declare_flags env cmd) as [cmd1| | |] eqn:E1; try done.
  destruct (Var _ _ _ _) as [cmd2| | |] eqn:E2; try done.
  destruct (MFlag.Parse arguments cmd2) as [[cmd3 [e|]]| | |] eqn:E3; try done.
  destruct (true && _); [done|]. destruct (CheckArgs cmd3); [done|].
  destruct (build env fs compact range _) as [c'|] eqn:E4; [|done].
  intros [= -> ->]. split; [done|]. eauto.
Qed.

Lemma nameless_value cmd arguments cmd' c f :
  wf_cmd cmd → Parse env fs compact range cmd arguments = Ret (cmd', Ok c) →
  flag_names env f = [] → at_ (parsed_flags cmd cmd') f = Some (flag_value env f).
Proof.
  intros Hwf (_ & cmd1 & cmd2 & E1 & E2 & E3)%Parse_inv Hf.
  pose proof (run_rows_index env f) as Hr. unfold flag_names in Hf. unfold flag_value.
  destruct (run_decl env f) as [[v names] usage]. simpl in *. subst names.
  apply (nameless_cell _ _ _ _ _ _ _ _ _ _ usage Hwf E1 E2 E3 Hr).
Qed.

Lemma nameless_string cmd arguments cmd' c f s :
  wf_cmd cmd → Parse env fs compact range cmd arguments = Ret (cmd', Ok c) →
  flag_names env f = [] → flag_value env f = RBasic (stringValue s) → string_of (parsed_flags cmd cmd') f = s.
Proof. intros Hw H ? Hv. unfold string_of. by rewrite (nameless_value _ _ _ _ f Hw H), Hv. Qed.
Lemma nameless_list cmd arguments cmd' c f v :
  wf_cmd cmd → Parse env fs compact range cmd arguments = Ret (cmd', Ok c) →
  flag_names env f = [] → flag_value env f = RList (NewListOpts v) → list_of (parsed_flags cmd cmd') f = [].
Proof. intros Hw H ? Hv. unfold list_of, opts_of. by rewrite (nameless_value _ _ _ _ f Hw H), Hv. Qed.


End parsed.

(** The example command line parses. *)
Definition returns_config {A} (r : outcome (A * result runError (Config * HostConfig * NetworkingConfig))) : bool :=
  match r with Ret (_, Ok _) => true | _ => false end.
Lemma wf_new_cmd n eh : wf_cmd (NewFlagSet n eh).
Proof. by intros ? ? ?. Qed.


(** The flags without a name are refused as not defined, also those that the tests of the
    package still give. *)
Theorem nameless_refused :
  forallb (fun a => match demo_parse [a; "img"; "cmd"] with Ret (_, Err _) => true | _ => false end)
    ["--memory=1G"; "--memory-swap=1G"; "--device=/dev/snd"; "--ipc=host"; "--pid=host"; "--uts=host"; "--shm-size=128m"; "--privileged"] = true.
Proof. vm_compute. reflexivity. Qed.

(** ** Labels *)

Section labels.
Implicit Types (fl : flags).

Lemma kv_of_app k v : ch "=" ∉ k → kv_of (k ++ ch "=" :: v) = (k, v).
Proof. intros. unfold kv_of. by rewrite SplitN_2_char, Cut_char_app. Qed.

(** A label whose text starts with a prefix holding no equals sign has a key with that prefix. *)
Lemma kv_of_prefix p s : ch "=" ∉ p → ∃ t, (kv_of (p ++ s)).1 = p ++ t.
Proof.
  intros Hp. unfold kv_of. rewrite SplitN_2_char. destruct (Cut "=" (p ++ s)) as [[a b]|] eqn:E; [|eauto].
  apply Cut_char_Some in E as [E _]. simpl.
  apply app_eq_inv in E as [(k & -> & Hk)|(k & -> & Hk)]; [|eauto].
  destruct k as [|x k]; [exists []; by rewrite !app_nil_r|].
  simpl in Hk. injection Hk as <- _. exfalso. apply Hp. rewrite elem_of_app, elem_of_cons. auto.
Qed.

Lemma entries_of_app k vs vs' : entries_of k (vs ++ vs') = entries_of k vs ++ entries_of k vs'.
Proof. apply filter_app. Qed.

Lemma entries_none k vs : Forall (fun v => (kv_of v).1 ≠ k) vs → entries_of k vs = [].
Proof.
  unfold entries_of. induction 1 as [|v vs Hv _ IH]; [done|]. by rewrite filter_cons_False.
Qed.

(** No key that starts like a security-group label is [k]. *)
Lemma sg_labels_none k sgs :
  HasPrefix k "sh_hyper_sg_" = false → entries_of k (sg_labels sgs) = [].
Proof.
  intros Hk. apply entries_none. unfold sg_labels. apply Forall_fmap, Forall_forall. intros sg _. simpl.
  change (kv_of _) with (kv_of ("sh_hyper_sg_" ++ sg ++ "=yes")).
  destruct (kv_of_prefix "sh_hyper_sg_" (sg ++ "=yes") ltac:(vm_decide)) as [t ->]. intros <-.
  rewrite (proj2 (HasPrefix_spec _ _)) in Hk; [done|eauto].
Qed.

Lemma option_labels_inv fl labels labels' k :
  option_labels fl labels = Ok labels' → k ≠ "sh_hyper_noauto_volume" → k ≠ "sh_hyper_container_protection" →
  entries_of k labels' = entries_of k labels.
Proof.
  unfold option_labels. intros H H1 H2.
  assert (Hone : ∀ l v, (kv_of v).1 ≠ k → entries_of k (l ++ [v]) = entries_of k l).
  { intros l v Hv. rewrite entries_of_app, (entries_none k [v]), app_nil_r; [done|]. by constructor. }
  destruct (ParseBool _) as [b [e|]]; [done|]. injection H as <-.
  destruct b, (bool_of fl flNoAutoVolume); rewrite ?Hone by (vm_compute; congruence); done.
Qed.

Lemma sg_label_entries sg sgs :
  sg ∈ sgs → sg ≠ [] → Forall (fun x => ch "=" ∉ x) sgs →
  ∃ e l, entries_of ("sh_hyper_sg_" ++ sg) (sg_labels sgs) = l ++ [e] ∧ (kv_of e).2 = "yes".
Proof.
  intros Hin Hne Hall. set (k := "sh_hyper_sg_" ++ sg).
  assert (Hk : Forall (fun e => (kv_of e).2 = "yes") (entries_of k (sg_labels sgs))).
  { apply Forall_forall. intros e [_ (x & -> & [_ Hx%(proj1 (Forall_forall _ _) Hall)]%list_elem_of_filter)%list_elem_of_fmap]%list_elem_of_filter.
    change (kv_of _) with (kv_of ("sh_hyper_sg_" ++ x ++ ch "=" :: "yes")).
    rewrite (assoc_L (++)), kv_of_app; [done|]. rewrite elem_of_app. intros [H|H]; [|done]. revert H. vm_decide. }
  assert (Hm : "sh_hyper_sg_" ++ sg ++ "=yes" ∈ entries_of k (sg_labels sgs)).
  { unfold entries_of. apply list_elem_of_filter. split.
    - change (sg ++ "=yes") with (sg ++ ch "=" :: "yes"). rewrite (assoc_L (++)), kv_of_app; [done|].
      rewrite elem_of_app. intros [H|H]; [revert H; vm_decide|].
      exact (proj1 (Forall_forall _ _) Hall sg Hin H).
    - unfold sg_labels. apply (list_elem_of_fmap_2 (fun sg => "sh_hyper_sg_" ++ sg ++ "=yes")).
      by apply list_elem_of_filter. }
  destruct (entries_of k (sg_labels sgs)) as [|e l _] using rev_ind; [by apply elem_of_nil in Hm|].
  exists e, l. split; [done|]. apply Forall_app in Hk as [_ Hk]. inversion Hk; subst; assumption.
Qed.
End labels.

(** ** What a configuration is built from *)

Section built.
Context (env : environ) (fs : RunOpts.files) (compact : gostring → option gostring)
  (range : gset gostring → list gostring).
Implicit Types (cmd : FlagSet runValue) (fl : flags).

(** The intermediate values of a successful [build]. *)
Record pieces := mkPieces {
  p_lim : memory_limits; p_binds : list gostring; p_vols : ListOpts; p_tmpfs : gmap gostring gostring;
  p_published : gset Port; p_bindings : gmap Port (list PortBinding); p_ports : gset Port;
  p_devices : list DeviceMapping; p_env : list gostring; p_labels0 : list gostring; p_labels : list gostring;
  p_restart : RestartPolicy; p_log : gmap gostring gostring; p_sec : list gostring
}.
Definition built_from fl (p : pieces) : Prop :=
  split_binds range (opts_of fl flVolumes) = (p_binds p, p_vols p) ∧
  ParsePortSpecs (list_of fl flPublish) = Ok (p_published p, p_bindings p) ∧
  rfoldM expose (p_published p) (list_of fl flExpose) = Ok (p_ports p) ∧
  readKVStrings fs env (list_of fl flEnvFile) (list_of fl flEnv) = Ok (p_env p) ∧
  readKVStrings fs env (list_of fl flLabelsFile) (list_of fl flLabels) = Ok (p_labels0 p) ∧
  ParseRestartPolicy (string_of fl flRestartPolicy) = Ok (p_restart p) ∧
  option_labels fl (hyper_labels fl (p_labels0 p)) = Ok (p_labels p).

Lemma build_inv fl cfg host net :
  build env fs compact range fl = Ok (cfg, host, net) →
  ∃ p, built_from fl p ∧ cfg = build_config fl (p_vols p) (p_ports p) (p_env p) (p_labels p) ∧
    host = build_host_config fl (p_lim p) (p_binds p) (p_tmpfs p) (p_bindings p) (p_restart p) (p_log p) (p_sec p)
             (build_resources fl (p_lim p) (p_devices p)).
Proof.
  unfold build. destruct (negb _ && negb _); [done|]. intros (lim & _ & H)%rbind_ok.
  destruct (split_binds range (opts_of fl flVolumes)) as [binds vols] eqn:Hsplit.
  apply rbind_ok in H as (tmpfs & _ & H). apply rbind_ok in H as ([published bindings] & Hp & H).
  apply rbind_ok in H as (ports & He & H). apply rbind_ok in H as (devices & _ & H).
  apply rbind_ok in H as (envs & Henv & H). apply rbind_ok in H as (labels0 & Hl0 & H).
  do 3 (destruct (negb _); [done|]).
  apply rbind_ok in H as (rp & Hrp & H). apply rbind_ok in H as (lo & _ & H). apply rbind_ok in H as (so & _ & H).
  apply rbind_ok in H as (labels & Hl & H). injection H as <- <- <-.
  exists (mkPieces lim binds vols tmpfs published bindings ports devices envs labels0 labels rp lo so).
  unfold built_from. simpl. split_and!; done.
Qed.

Lemma Parse_built cmd arguments cmd' cfg host net :
  Parse env fs compact range cmd arguments = Ret (cmd', Ok (cfg, host, net)) →
  ∃ p, built_from (parsed_flags cmd cmd') p ∧
    cfg = build_config (parsed_flags cmd cmd') (p_vols p) (p_ports p) (p_env p) (p_labels p) ∧
    host = build_host_config (parsed_flags cmd cmd') (p_lim p) (p_binds p) (p_tmpfs p) (p_bindings p) (p_restart p)
      (p_log p) (p_sec p) (build_resources (parsed_flags cmd cmd') (p_lim p) (p_devices p)).
Proof. intros [H _]%Parse_inv. by apply build_inv in H. Qed.

Lemma build_config_fields fl vols ports envs labels :
  Labels (build_config fl vols ports envs labels) = ConvertKVStringsToMap labels ∧
  ExposedPorts (build_config fl vols ports envs labels) = ports ∧
  Volumes (build_config fl vols ports envs labels) = ListOpts_GetMap vols.
Proof. unfold build_config. by destruct (attach_streams fl) as [[? ?] ?], (split_hostname _). Qed.

(** In a configuration [Parse] returns, the instance-type label always has the value of
    [--size], whatever labels the user gave, and every security group asked for (when no
    group name contains an equals sign) is present as a label set to [yes]. *)
Theorem Parse_labels cmd arguments cmd' cfg host net :
  Parse env fs compact range cmd arguments = Ret (cmd', Ok (cfg, host, net)) →
  let fl := parsed_flags cmd cmd' in
  Labels cfg !! ("sh_hyper_instancetype" : gostring) = Some (string_of fl flInstanceType) ∧
  (Forall (fun x => ch "=" ∉ x) (list_of fl flSecurityGroups) →
   ∀ sg, sg ∈ list_of fl flSecurityGroups → sg ≠ [] → Labels cfg !! ("sh_hyper_sg_" ++ sg) = Some "yes").
Proof.
  intros (p & (_ & _ & _ & _ & _ & _ & Hl) & -> & _)%Parse_built fl. fold fl in Hl |- *.
  destruct (build_config_fields fl (p_vols p) (p_ports p) (p_env p) (p_labels p)) as (-> & _ & _). split.
  - rewrite ConvertKV_lookup, (option_labels_inv _ _ _ _ Hl) by done. unfold hyper_labels.
    rewrite !entries_of_app, (sg_labels_none "sh_hyper_instancetype" _ eq_refl), app_nil_r.
    set (l := "sh_hyper_instancetype=" ++ _).
    assert (Hkv : kv_of l = ("sh_hyper_instancetype", string_of fl flInstanceType)).
    { unfold l. apply (kv_of_app "sh_hyper_instancetype"). vm_decide. }
    unfold entries_of. rewrite filter_cons_True by (by rewrite Hkv). rewrite filter_nil, last_snoc. change (Some (kv_of l).2 = Some (string_of fl flInstanceType)). by rewrite Hkv.
  - intros Hall sg Hin Hne. destruct (sg_label_entries sg _ Hin Hne Hall) as (e & l & He & Hv).
    rewrite ConvertKV_lookup, (option_labels_inv _ _ _ _ Hl) by (intros [=]). unfold hyper_labels.
    rewrite !entries_of_app, He, !(assoc_L (++)), last_snoc. simpl. by rewrite Hv.
Qed.

End built.

(** ** Ports *)

Section ports.

Lemma FormatUint_FormatInt n : 0 <= n → FormatInt n = FormatUint n.
Proof. intros. unfold FormatInt. by destruct (Z.ltb_spec n 0); [lia|]. Qed.

Lemma NewPort_single proto n : 0 <= n <= 65535 → NewPort proto (FormatUint n) = Ok (FormatUint n ++ "/" ++ proto).
Proof.
  intros Hn. unfold NewPort, ParsePortRangeToInt, ParsePortRange.
  pose proof (ParseUint_FormatUint n 16 ltac:(unfold maxUint; lia)) as Hp.
  assert (Hd : Forall (fun c => is_digit c = true) (FormatUint n)) by (apply FormatUint_digits; lia).
  assert (Hc : Contains (FormatUint n) "-" = false).
  { rewrite Contains_char. apply bool_decide_eq_false. intros Hin. by apply (proj1 (Forall_forall _ _) Hd) in Hin. }
  assert (Hne : FormatUint n ≠ []) by (intros E; rewrite E in Hp; discriminate Hp).
  rewrite !decide_False by done. rewrite Hc, Hp. simpl. rewrite Z.eqb_refl, FormatUint_FormatInt by lia. done.
Qed.

Lemma ParsePortRange_bounds s a b : ParsePortRange s = Ok (a, b) → 0 <= a <= b ∧ b <= 65535.
Proof.
  unfold ParsePortRange. case_decide; [done|].
  assert (Hb : ∀ t v, num_result (ParseUint t 10 16) = Ok v → 0 <= v <= 65535).
  { intros t v. destruct (ParseUint t 10 16) as [x [e|]] eqn:E; [done|]. intros [= <-].
    apply ParseUint_bounds in E; [|lia..]. unfold maxUint in E. lia. }
  destruct (negb _).
  - intros (v & Hv & [= <- <-])%rbind_ok. apply Hb in Hv. lia.
  - intros (v & Hv & (w & Hw & Hr)%rbind_ok)%rbind_ok. apply Hb in Hv, Hw.
    destruct (Z.ltb_spec w v); [done|]. injection Hr as <- <-. lia.
Qed.

(** The ports a publish or an expose specification stands for. *)
Definition published_by (spec : gostring) (p : Port) (b : PortBinding) : Prop :=
  ∃ ms, ParsePortSpec spec = Ok ms ∧ mkMapping p b ∈ ms.
Definition exposed_by (e : gostring) (p : Port) : Prop :=
  ∃ a b i, ParsePortRange (SplitProtoPort e).2 = Ok (a, b) ∧ a <= i <= b ∧
    p = FormatUint i ++ "/" ++ (SplitProtoPort e).1.

Lemma expose_range proto l ports ports' :
  Forall (fun i => 0 <= i <= 65535) l →
  rfoldM (fun (ports : gset Port) i => let! p := NewPort proto (FormatUint i) in Ok ({[p]} ∪ ports)) ports l = Ok ports' →
  ∀ p, p ∈ ports' ↔ p ∈ ports ∨ ∃ i, i ∈ l ∧ p = FormatUint i ++ "/" ++ proto.
Proof.
  intros Hl. revert ports. induction Hl as [|i l Hi _ IH]; intros ports; simpl.
  { intros [= <-] p. set_solver. }
  rewrite NewPort_single by done. simpl. intros H p. rewrite (IH _ H). set_solver.
Qed.

Lemma expose_spec ports e ports' :
  expose ports e = Ok ports' → ∀ p, p ∈ ports' ↔ p ∈ ports ∨ exposed_by e p.
Proof.
  unfold expose, exposed_by. destruct (Contains e ":"); [done|]. destruct (SplitProtoPort e) as [proto port]. simpl.
  destruct (ParsePortRange port) as [[a b]|] eqn:E; [|done]. pose proof (ParsePortRange_bounds _ _ _ E) as Hb.
  intros H p. apply expose_range with (p := p) in H; [|apply Forall_forall; intros i Hi%elem_of_seqZ; lia].
  rewrite H. apply or_iff_compat_l. setoid_rewrite elem_of_seqZ. split.
  - intros (i & Hi & ->). exists a, b, i. split_and!; [done|lia|lia|done].
  - intros (a' & b' & i & [= <- <-] & Hi & ->). exists i. split; [lia|done].
Qed.

Lemma exposes_spec es ports ports' :
  rfoldM expose ports es = Ok ports' → ∀ p, p ∈ ports' ↔ p ∈ ports ∨ ∃ e, e ∈ es ∧ exposed_by e p.
Proof.
  revert ports. induction es as [|e es IH]; intros ports; simpl.
  { intros [= <-] p. set_solver. }
  intros (ports1 & H1 & H2)%rbind_ok p. rewrite (IH _ H2), (expose_spec _ _ _ H1). set_solver.
Qed.

(** What folding mappings into the exposed set and the bindings does. *)
Lemma add_mappings_spec ms exposed bindings exposed' bindings' :
  foldl add_mapping (exposed, bindings) ms = (exposed', bindings') →
  (∀ p, p ∈ exposed' ↔ p ∈ exposed ∨ ∃ b, mkMapping p b ∈ ms) ∧
  (∀ p, default [] (bindings' !! p) = default [] (bindings !! p) ++ (pm_Binding <$> filter (fun m => pm_Port m = p) ms)) ∧
  (∀ p, is_Some (bindings' !! p) ↔ is_Some (bindings !! p) ∨ ∃ b, mkMapping p b ∈ ms).
Proof.
  revert exposed bindings. induction ms as [|[q b0] ms IH]; intros exposed bindings; simpl.
  { intros [= <- <-]. split_and!; intros p; rewrite ?app_nil_r; [set_solver|done|set_solver]. }
  intros (H1 & H2 & H3)%IH. split_and!; intros p.
  - rewrite H1. set_solver.
  - rewrite H2. rewrite filter_cons. simpl. destruct (decide (q = p)) as [->|Hne].
    + rewrite lookup_insert_eq. simpl. by rewrite <-(assoc_L (++)).
    + by rewrite lookup_insert_ne.
  - rewrite H3. destruct (decide (q = p)) as [->|Hne].
    + rewrite lookup_insert_eq. split; [|eauto]. intros _. right. exists b0. apply list_elem_of_here.
    + rewrite lookup_insert_ne by done. setoid_rewrite elem_of_cons. naive_solver.
Qed.

(** All mappings of a list of specifications, in order. *)
Fixpoint all_mappings (specs : list gostring) : list PortMapping :=
  match specs with
  | [] => []
  | s :: specs => (match ParsePortSpec s with Ok ms => ms | Err _ => [] end) ++ all_mappings specs
  end.

Lemma ParsePortSpecs_fold specs acc acc' :
  rfoldM (fun acc rawPort => let! ms := ParsePortSpec rawPort in Ok (foldl add_mapping acc ms)) acc specs = Ok acc' →
  acc' = foldl add_mapping acc (all_mappings specs) ∧ Forall (fun s => is_ok (ParsePortSpec s) = true) specs.
Proof.
  revert acc. induction specs as [|s specs IH]; intros acc; simpl; [by intros [= <-]|].
  intros (acc1 & (ms & Hms & [= <-])%rbind_ok & H)%rbind_ok. apply IH in H as [-> Hall]. rewrite Hms, foldl_app.
  split; [done|]. constructor; [by rewrite Hms|done].
Qed.
End ports.

(** In a configuration [Parse] returns, the bindings of a port are exactly those the
    [-p] specifications ask for, in order; a port is exposed exactly when a [-p]
    specification publishes it or an [--expose] range contains it, so every bound port is
    exposed. *)
Theorem Parse_ports env fs compact range cmd arguments cmd' cfg host net :
  Parse env fs compact range cmd arguments = Ret (cmd', Ok (cfg, host, net)) →
  let fl := parsed_flags cmd cmd' in
  let ms := all_mappings (list_of fl flPublish) in
  (∀ p, default [] (PortBindings host !! p) = pm_Binding <$> filter (fun m => pm_Port m = p) ms) ∧
  (∀ p, p ∈ ExposedPorts cfg ↔ (∃ b, mkMapping p b ∈ ms) ∨ ∃ e, e ∈ list_of fl flExpose ∧ exposed_by e p) ∧
  dom (PortBindings host) ⊆ ExposedPorts cfg.
Proof.
  intros (p & (_ & Hp & He & _) & -> & ->)%Parse_built fl ms. fold fl in Hp, He |- *.
  destruct (build_config_fields fl (p_vols p) (p_ports p) (p_env p) (p_labels p)) as (_ & -> & _).
  apply ParsePortSpecs_fold in Hp as [Hp _]. fold ms in Hp. symmetry in Hp.
  apply add_mappings_spec in Hp as (H1 & H2 & H3). simpl.
  assert (Hexp : ∀ q, q ∈ p_ports p ↔ (∃ b, mkMapping q b ∈ ms) ∨ ∃ e, e ∈ list_of fl flExpose ∧ exposed_by e q).
  { intros q. rewrite (exposes_spec _ _ _ He), H1. set_solver. }
  split_and!; [|done|].
  - intros q. by rewrite H2.
  - intros q [Hq|Hq]%elem_of_dom%H3; [by apply is_Some_None in Hq|]. apply Hexp. by left.
Qed.

(** ** Bind mounts and volumes *)

Section binds.
Implicit Types (l : list gostring).

Lemma delete_first_perm x l : x ∈ l → l ≡ₚ x :: delete_first x l.
Proof.
  induction l as [|y l IH]; intros Hx; [by apply elem_of_nil in Hx|]. simpl.
  case_decide as Hd; [by subst|]. apply elem_of_cons in Hx as [->|Hx]; [done|].
  rewrite (IH Hx) at 1. apply Permutation_swap.
Qed.
Lemma delete_first_notin x l : x ∉ l → delete_first x l = l.
Proof.
  induction l as [|y l IH]; intros Hx; [done|]. simpl. apply not_elem_of_cons in Hx as [Hxy Hx].
  rewrite decide_False by done. by rewrite IH.
Qed.

(** Deleting from a list without repetition removes the element altogether. *)
Lemma delete_first_NoDup x l : NoDup l → NoDup (delete_first x l) ∧ ∀ y, y ∈ delete_first x l ↔ y ∈ l ∧ y ≠ x.
Proof.
  intros Hnd. destruct (decide (x ∈ l)) as [Hx|Hx].
  - pose proof (delete_first_perm x l Hx) as Hp. rewrite Hp in Hnd. apply NoDup_cons in Hnd as [Hn Hnd].
    split; [done|]. intros y. rewrite (elem_of_Permutation_proper y _ _ Hp), elem_of_cons.
    split; [|intuition congruence]. intros Hy. split; [auto|]. by intros ->.
  - rewrite delete_first_notin by done. split; [done|]. intros y. split; [|by intros [? _]].
    intros Hy. split; [done|]. by intros ->.
Qed.

Lemma split_binds_loop order binds vols binds' vols' :
  NoDup (values vols) →
  foldl bind_step (binds, vols) order = (binds', vols') →
  binds' = binds ++ filter (fun b => is_bind b = true) order ∧
  (∀ v, v ∈ values vols' ↔ v ∈ values vols ∧ ¬ (is_bind v = true ∧ v ∈ order)).
Proof.
  revert binds vols. induction order as [|b order IH]; intros binds vols Hnd; cbn [foldl].
  { intros [= <- <-]. split; [by rewrite filter_nil, app_nil_r|]. intros v.
    split; [intros Hv; split; [done|]; by intros [_ ?%elem_of_nil]|by intros [? _]]. }
  unfold bind_step at 2. destruct (is_bind b) eqn:Eb; intros H; apply IH in H as [-> Hv]; clear IH; try done.
  - split; [by rewrite filter_cons_True, <-(assoc_L (++))|]. intros v. rewrite Hv. simpl.
    destruct (delete_first_NoDup b _ Hnd) as [_ ->]. rewrite elem_of_cons.
    destruct (decide (v = b)) as [->|]; naive_solver.
  - by apply delete_first_NoDup.
  - split; [by rewrite filter_cons_False by congruence|]. intros v. rewrite Hv, elem_of_cons.
    destruct (decide (v = b)) as [->|]; [|naive_solver]. rewrite Eb. naive_solver.
Qed.
End binds.

(** In a configuration [Parse] returns, the binds are exactly the [-v] arguments with
    more than one part, each once (in the order the set is ranged over); and when no [-v]
    argument is repeated, the container's volumes are exactly the other ones. *)
Theorem Parse_binds env fs compact range cmd arguments cmd' cfg host net :
  (∀ X, range X ≡ₚ elements X) →
  Parse env fs compact range cmd arguments = Ret (cmd', Ok (cfg, host, net)) →
  let vs := list_of (parsed_flags cmd cmd') flVolumes in
  NoDup vs →
  NoDup (Binds host) ∧
  (∀ v, v ∈ Binds host ↔ v ∈ vs ∧ is_bind v = true) ∧
  (∀ v, v ∈ Volumes cfg ↔ v ∈ vs ∧ is_bind v = false).
Proof.
  intros Hr (p & (Hs & _) & -> & ->)%Parse_built vs Hnd. unfold list_of in vs. fold vs in Hnd |- *.
  destruct (build_config_fields (parsed_flags cmd cmd') (p_vols p) (p_ports p) (p_env p) (p_labels p)) as (_ & _ & ->).
  unfold split_binds in Hs. set (o := opts_of _ flVolumes) in *.
  assert (Hr' : ∀ v, v ∈ range (ListOpts_GetMap o) ↔ v ∈ vs).
  { intros v. rewrite Hr, elem_of_elements. unfold ListOpts_GetMap. by rewrite elem_of_list_to_set. }
  apply (split_binds_loop (range (ListOpts_GetMap o)) [] o) in Hs as [Hb Hv]; [|done]. simpl in *. rewrite Hb.
  split_and!.
  - apply NoDup_filter. rewrite Hr. apply NoDup_elements.
  - intros v. rewrite list_elem_of_filter, Hr'. tauto.
  - intros v. unfold ListOpts_GetMap. rewrite elem_of_list_to_set, Hv, Hr'. fold vs.
    destruct (is_bind v); naive_solver.
Qed.

(** A bind mount given twice stays among the volumes of the container's configuration,
    since the loop that moves binds out of the list deletes one occurrence of each. *)
Theorem Parse_repeated_bind :
  demo_config ["-v"; "/src:/dst"; "-v"; "/src:/dst"; "img"]
    (fun cfg host _ => (elements (Volumes cfg), Binds host)) = Some (["/src:/dst"], ["/src:/dst"]).
Proof. vm_compute. reflexivity. Qed.

(** The theorems above on the example command line. *)
Lemma Parse_labels_witness :
  match demo_parse demo_args with
  | Ret (cmd', Ok (cfg, host, net)) =>
      Labels cfg !! ("sh_hyper_instancetype" : gostring) =
      Some (string_of (parsed_flags (NewFlagSet "run" ContinueOnError) cmd') flInstanceType)
  | _ => False
  end.
Proof.
  assert (Hok : returns_config (demo_parse demo_args) = true) by (vm_compute; reflexivity).
  unfold demo_parse in *. destruct (Parse _ _ _ _ _ demo_args) as [[cmd' [[[cfg host] net]|e]]| | |] eqn:E; try discriminate Hok.
  exact (proj1 (Parse_labels [] (fun _ => None) Some elements (NewFlagSet "run" ContinueOnError) demo_args cmd' cfg host net E)).
Defined.
Lemma Parse_ports_witness :
  match demo_parse demo_args with
  | Ret (_, Ok (cfg, host, net)) => dom (PortBindings host) ⊆ ExposedPorts cfg
  | _ => False
  end.
Proof.
  assert (Hok : returns_config (demo_parse demo_args) = true) by (vm_compute; reflexivity).
  unfold demo_parse in *. destruct (Parse _ _ _ _ _ demo_args) as [[cmd' [[[cfg host] net]|e]]| | |] eqn:E; try discriminate Hok.
  exact (proj2 (proj2 (Parse_ports [] (fun _ => None) Some elements (NewFlagSet "run" ContinueOnError) demo_args cmd' cfg host net E))).
Defined.
Definition demo_volumes : list gostring :=
  match demo_parse demo_args with
  | Ret (cmd', _) => list_of (parsed_flags (NewFlagSet "run" ContinueOnError) cmd') flVolumes
  | _ => []
  end.
Lemma Parse_binds_witness :
  match demo_parse demo_args with
  | Ret (_, Ok (cfg, host, net)) => ∀ v, v ∈ Binds host ↔ v ∈ demo_volumes ∧ is_bind v = true
  | _ => False
  end.
Proof.
  assert (Hok : returns_config (demo_parse demo_args) = true) by (vm_compute; reflexivity).
  assert (Hnd : NoDup demo_volumes) by vm_decide.
  unfold demo_volumes, demo_parse in *.
  destruct (Parse _ _ _ _ _ demo_args) as [[cmd' [[[cfg host] net]|e]]| | |] eqn:E; try discriminate Hok.
  exact (proj1 (proj2 (Parse_binds [] (fun _ => None) Some elements (NewFlagSet "run" ContinueOnError) demo_args cmd' cfg host net
    (fun X => reflexivity _) E Hnd))).
Defined.
