(* ===== verification/HyperCmd.v ===== *)
(** * HyperCmd: the cron and service commands of hyper.sh

    [CmdCronCreate] of [src/api/client/cron.go] and [CmdServiceCreate],
    [CmdServiceScale] and [showContainersInList] of [src/api/client/service.go]: what
    the client asks the server for, from the arguments of a command.  They are built
    on [MFlag], [Opts], [Ports] and the helpers of [RunConfig], as [Parse] is.

    The server is a record of answers; a command returns the calls it made, in
    order, and its error.  Files, the environment and the order in which Go ranges
    over a map are arguments. *)

From S2P Require Import Prelude Strconv GoPath GoNet MFlag Opts Ports RunConfig.
Import Strings Strconv GoNet MFlag Opts.Units Opts.Opts Opts.RunOpts Ports.Nat_ Ports.Mount RunConfig.

Local Open Scope Z_scope.

(** ** Commands and their flags *)

Module HyperCmd.

(** The flags of a command, in the order in which they are declared. *)
Class CmdFlags (F : Type) := {
  cmd_flags : list F;
  cmd_index : F → nat;
  cmd_decl : environ → F → runValue * list gostring * gostring;
}.

(** [Cli.Subcmd] without the usage functions. *)
Definition Subcmd (n : gostring) (exitOnError : bool) : FlagSet runValue :=
  NewFlagSet n (if exitOnError then ExitOnError else ContinueOnError).

(** The flags of a command once parsed. *)
Record parsed := mkParsed { pf_cells : list runValue; pf_args : list gostring }.

Section command.
  Context {F : Type} `{!CmdFlags F}.

(** The declarations, [cmd.Require] and [cmd.ParseFlags]. *)
Definition parse_command (env : environ) (n : gostring) (t : nArgRequirementType) (k : Z) (arguments : list gostring)
    : outcome (result MFlag.error parsed) :=
  match declare (cmd_decl env <$> cmd_flags) (Subcmd n false) with
  | Ret cmd =>
      match ParseFlags (RBasic (boolValue false)) is_true arguments true (Require t k cmd) with
      | Ret (_, Some e) => Ret (Err e)
      | Ret (cmd, None) => Ret (Ok (mkParsed (heap cmd) (args cmd)))
      | Panicked => Panicked
      | Exited c => Exited c
      | OutOfFuel => OutOfFuel
      end
  | Panicked => Panicked
  | Exited c => Exited c
  | OutOfFuel => OutOfFuel
  end.

(** The flag variables, dereferenced. *)
Definition flag_at (p : parsed) (f : F) : option runValue := pf_cells p !! cmd_index f.
Definition str (p : parsed) (f : F) : gostring :=
  match flag_at p f with Some (RBasic (stringValue s)) => s | _ => [] end.
Definition flag_bool (p : parsed) (f : F) : bool :=
  match flag_at p f with Some (RBasic (boolValue b)) => b | _ => false end.
Definition flag_int (p : parsed) (f : F) : Z :=
  match flag_at p f with Some (RBasic (intValue i)) => i | _ => 0 end.
Definition flag_opts (p : parsed) (f : F) : ListOpts :=
  match flag_at p f with Some (RList l) => l | _ => NewListOpts None end.
Definition flag_list (p : parsed) (f : F) : list gostring := values (flag_opts p f).

End command.

(** ** What is asked of the server *)

Record Cron := mkCron {
  ContainerName : gostring; Schedule : gostring; OwnerEmail : gostring; cr_Config : Config; cr_HostConfig : HostConfig;
  NetConfig : NetworkingConfig; AccessKey : gostring; SecretKey : gostring; MailPolicy : gostring
}.

Record Service := mkService {
  sv_Name : gostring; sv_Image : gostring; sv_WorkingDir : gostring; ContainerSize : gostring; ServicePort : Z;
  ContainerPort : Z; Replicas : Z; sv_Entrypoint : list gostring; sv_Cmd : list gostring; sv_Env : list gostring;
  sv_Volumes : gset gostring; sv_Labels : gmap gostring gostring; SecurityGroups : gset gostring; sv_Tty : bool;
  Stdin : bool; NetMode : gostring; sv_StopSignal : gostring; HealthCheckInterval : Z; HealthCheckFall : Z;
  HealthCheckRise : Z; Algorithm : gostring; Protocol : gostring; SessionAffinity : bool; SSLCert : gostring
}.

(** [types.ServiceUpdate]: the fields that are not nil. *)
Inductive update := NewImage (image : gostring) | NewReplicas (replicas : Z) | NewFIP (fip : gostring).

Inductive call :=
| ImageInspect (image : gostring)
| PullImage (image : gostring)
| CronCreate (name : gostring) (c : Cron)
| ServiceCreate (s : Service)
| CronDelete (name : gostring)
| ServiceDelete (name : gostring) (keep : bool)
| ServiceUpdate (name : gostring) (u : update).

(** The error of a call, if any. *)
Abbreviation server := (call → option gostring).

Inductive cmdError := CmdFlagError (e : MFlag.error) | CmdError (e : goerror) | ServerError (e : gostring) | StatusError (status : Z).

(** The image is pulled when the server does not have it; another error of the
    inspection is ignored. *)
Definition ensure_image (srv : server) (image : gostring) : list call * option cmdError :=
  match srv (ImageInspect image) with
  | Some e =>
      if Contains e "No such image" then ([ImageInspect image; PullImage image], ServerError <$> srv (PullImage image))
      else ([ImageInspect image], None)
  | None => ([ImageInspect image], None)
  end.

(** ** [hyper cron create] *)

Inductive cronFlag :=
| cName | cContainerName | cEntrypoint | cNetMode | cStopSignal | cContainerSize | cWorkingDir | cHostname | cNoAutoVolume
| cPublishAll | cRestartPolicy | cMailTo | cMailPolicy | cAccessKey | cSecretKey | cMinute | cHour | cDom | cDow | cMonth
| cLabels | cLabelsFile | cEnv | cEnvFile | cSecurityGroups | cVolumes | cLinks | cPublish | cExpose.

#[global] Instance cron_flags : CmdFlags cronFlag := {|
  cmd_flags := [cName; cContainerName; cEntrypoint; cNetMode; cStopSignal; cContainerSize; cWorkingDir; cHostname; cNoAutoVolume;
    cPublishAll; cRestartPolicy; cMailTo; cMailPolicy; cAccessKey; cSecretKey; cMinute; cHour; cDom; cDow; cMonth;
    cLabels; cLabelsFile; cEnv; cEnvFile; cSecurityGroups; cVolumes; cLinks; cPublish; cExpose];
  cmd_index f :=
    match f with
    | cName => 0 | cContainerName => 1 | cEntrypoint => 2 | cNetMode => 3 | cStopSignal => 4 | cContainerSize => 5
    | cWorkingDir => 6 | cHostname => 7 | cNoAutoVolume => 8 | cPublishAll => 9 | cRestartPolicy => 10 | cMailTo => 11
    | cMailPolicy => 12 | cAccessKey => 13 | cSecretKey => 14 | cMinute => 15 | cHour => 16 | cDom => 17 | cDow => 18
    | cMonth => 19 | cLabels => 20 | cLabelsFile => 21 | cEnv => 22 | cEnvFile => 23 | cSecurityGroups => 24
    | cVolumes => 25 | cLinks => 26 | cPublish => 27 | cExpose => 28
    end%nat;
  cmd_decl env f :=
    match f with
    | cName => (RBasic (stringValue []), ["-name"], "Cron name")
    | cContainerName => (RBasic (stringValue []), ["-container-name"], "Cron container name")
    | cEntrypoint => (RBasic (stringValue []), ["-entrypoint"], "Overwrite the default ENTRYPOINT of the image")
    | cNetMode => (RBasic (stringValue "bridge"), [], "Connect containers to a network, only bridge is supported now")
    | cStopSignal => (RBasic (stringValue DefaultStopSignal), ["-stop-signal"], "Signal to stop a container, SIGTERM by default")
    | cContainerSize => (RBasic (stringValue "s4"), ["-size"], "The size of cron containers (e.g. s1, s2, s3, s4, m1, m2, m3, l1, l2, l3)")
    | cWorkingDir => (RBasic (stringValue []), ["w"; "-workdir"], "Working directory inside the container")
    | cHostname => (RBasic (stringValue []), ["h"; "-hostname"], "Container host name")
    | cNoAutoVolume => (RBasic (boolValue false), ["-noauto-volume"], "Do not create volumes specified in image")
    | cPublishAll => (RBasic (boolValue false), ["P"; "-publish-all"], "Publish all exposed ports to random ports")
    | cRestartPolicy => (RBasic (stringValue "no"), ["-restart"], "Restart policy to apply when a container exits")
    | cMailTo => (RBasic (stringValue []), ["-mailto"], "Mail to while the cron has something")
    | cMailPolicy => (RBasic (stringValue "on-failure"), ["-mail"], "Mail policy to apply when to send email")
    | cAccessKey => (RBasic (stringValue []), ["-access-key"], "Access key to run the cron job")
    | cSecretKey => (RBasic (stringValue []), ["-secret-key"], "Secret key to run the cron job")
    | cMinute => (RBasic (stringValue "0"), ["-minute"], "The minutes of cron expression")
    | cHour => (RBasic (stringValue "0"), ["-hour"], "The hour of cron expression")
    | cDom => (RBasic (stringValue "*"), ["-dom"], "The day of month of cron expression")
    | cDow => (RBasic (stringValue "*"), ["-week"], "The day of week of cron expression")
    | cMonth => (RBasic (stringValue "*"), ["-month"], "The month of cron expression")
    | cLabels => (RList (NewListOpts (Some (ValidateEnv env))), ["l"; "-label"], "Set meta data on a container")
    | cLabelsFile => (RList (NewListOpts None), ["-label-file"], "Read in a line delimited file of labels")
    | cEnv => (RList (NewListOpts (Some (ValidateEnv env))), ["e"; "-env"], "Set environment variables")
    | cEnvFile => (RList (NewListOpts None), ["-env-file"], "Read in a file of environment variables")
    | cSecurityGroups => (RList (NewListOpts None), ["-sg"], "Security group for each container")
    | cVolumes => (RList (NewListOpts None), ["v"; "--volume"], "Volume for each container")
    | cLinks => (RList (NewListOpts (Some ValidateLink)), ["-link"], "Add link to another container")
    | cPublish => (RList (NewListOpts None), ["p"; "-publish"], "Publish a container's port(s) to the host")
    | cExpose => (RList (NewListOpts None), ["-expose"], "Expose a port or a range of ports")
    end;
|}.

Section build.
  Context (env : environ) (fs : RunOpts.files) (range : gset gostring → list gostring).

Definition cron_labels (p : parsed) (labels : list gostring) : list gostring :=
  labels ++ ["sh_hyper_instancetype=" ++ str p cContainerSize] ++ sg_labels (flag_list p cSecurityGroups) ++
  (if flag_bool p cNoAutoVolume then ["sh_hyper_noauto_volume=true"] else []).

Definition cron_config (p : parsed) (ports : gset Port) (envVariables labels : list gostring) (vols : ListOpts) : Config :=
  let '(hostname, domainname) := split_hostname (str p cHostname) in
  {| Hostname := hostname; Domainname := domainname; ExposedPorts := ports; User := []; Tty := true; NetworkDisabled := false;
     OpenStdin := false; StdinOnce := false; AttachStdin := false; AttachStdout := false; AttachStderr := false;
     Env := envVariables; Cmd := tail (pf_args p); Image := default [] (head (pf_args p));
     Volumes := ListOpts_GetMap vols; MacAddress := [];
     Entrypoint := (if str p cEntrypoint =s [] then [] else [str p cEntrypoint]); WorkingDir := str p cWorkingDir;
     Labels := ConvertKVStringsToMap labels; StopSignal := str p cStopSignal |}.

Definition no_resources : Resources := mkResources [] 0 0 0 0 0 false 0 0 [] [] 0 0 [] [] [] [] [] [] [].

Definition cron_host_config (p : parsed) (binds : list gostring) (portBindings : gmap Port (list PortBinding)) (rp : RestartPolicy)
    : HostConfig :=
  {| Binds := binds; ContainerIDFile := []; OomScoreAdj := 0; Privileged := false; PortBindings := portBindings;
     Links := flag_list p cLinks; PublishAllPorts := flag_bool p cPublishAll; DNS := []; DNSSearch := []; DNSOptions := [];
     ExtraHosts := []; VolumesFrom := []; NetworkMode := str p cNetMode; IpcMode := []; PidMode := []; UTSMode := []; CapAdd := [];
     CapDrop := []; GroupAdd := []; hc_RestartPolicy := rp; SecurityOpt := []; ReadonlyRootfs := false; LogConfig := ([], ∅);
     VolumeDriver := []; ShmSize := 0; hc_Resources := no_resources; Tmpfs := ∅ |}.

Definition cron_networking (p : parsed) (host : HostConfig) : NetworkingConfig :=
  if IsUserDefined (NetworkMode host) && Nat.ltb 0 (length (Links host))
  then {[NetworkMode host := mkEndpoint None (Links host) []]} else ∅.

Definition schedule (p : parsed) : gostring :=
  str p cMinute ++ " " ++ str p cHour ++ " " ++ str p cDom ++ " " ++ str p cMonth ++ " " ++ str p cDow.

(** What follows the inspection of the image. *)
Definition cron_build (p : parsed) : result goerror Cron :=
  let! envVariables := readKVStrings fs env (flag_list p cEnvFile) (flag_list p cEnv) in
  let! labels := readKVStrings fs env (flag_list p cLabelsFile) (flag_list p cLabels) in
  let labels := cron_labels p labels in
  let! (published, portBindings) := ParsePortSpecs (flag_list p cPublish) in
  let! ports := rfoldM expose published (flag_list p cExpose) in
  let '(binds, vols) := split_binds range (flag_opts p cVolumes) in
  let! restartPolicy := ParseRestartPolicy (str p cRestartPolicy) in
  let config := cron_config p ports envVariables labels vols in
  let hostConfig := cron_host_config p binds portBindings restartPolicy in
  if (str p cMinute =s "0") && (str p cHour =s "0") && (str p cDom =s "*") && (str p cDow =s "*") && (str p cMonth =s "*")
  then Err (Errorf "must specify at least one schedule" [])
  else
    Ok {| ContainerName := str p cContainerName; Schedule := schedule p; OwnerEmail := str p cMailTo; cr_Config := config;
          cr_HostConfig := hostConfig; NetConfig := cron_networking p hostConfig; AccessKey := str p cAccessKey;
          SecretKey := str p cSecretKey; MailPolicy := str p cMailPolicy |}.

Definition keys_incomplete (access secret : gostring) : bool :=
  ((access =s []) && negb (secret =s [])) || (negb (access =s []) && (secret =s [])).

Definition CmdCronCreate (srv : server) (arguments : list gostring) : outcome (list call * option cmdError) :=
  match parse_command (F := cronFlag) env "cron create" Min 1 arguments with
  | Ret (Err e) => Ret ([], Some (CmdFlagError e))
  | Ret (Ok p) =>
      if keys_incomplete (str p cAccessKey) (str p cSecretKey)
      then Ret ([], Some (CmdError (Errorf "You must specify access key and secret key at the same time" [])))
      else
        match ensure_image srv (default [] (head (pf_args p))) with
        | (calls, Some e) => Ret (calls, Some e)
        | (calls, None) =>
            match cron_build p with
            | Err e => Ret (calls, Some (CmdError e))
            | Ok c =>
                let create := CronCreate (str p cName) c in
                Ret (calls ++ [create], ServerError <$> srv create)
            end
        end
  | Panicked => Panicked
  | Exited c => Exited c
  | OutOfFuel => OutOfFuel
  end.

End build.

(** ** [hyper service create] *)

Inductive serviceFlag :=
| sName | sStdin | sTty | sEntrypoint | sNetMode | sStopSignal | sContainerSize | sWorkingDir | sSSLCert | sServicePort
| sContainerPort | sReplicas | sHealthCheckInterval | sHealthCheckFall | sHealthCheckRise | sSessionAffinity | sAlgorithm
| sProtocol | sLabels | sLabelsFile | sEnv | sEnvFile | sSecurityGroups | sVolumes.

#[global] Instance service_flags : CmdFlags serviceFlag := {|
  cmd_flags := [sName; sStdin; sTty; sEntrypoint; sNetMode; sStopSignal; sContainerSize; sWorkingDir; sSSLCert; sServicePort;
    sContainerPort; sReplicas; sHealthCheckInterval; sHealthCheckFall; sHealthCheckRise; sSessionAffinity; sAlgorithm;
    sProtocol; sLabels; sLabelsFile; sEnv; sEnvFile; sSecurityGroups; sVolumes];
  cmd_index f :=
    match f with
    | sName => 0 | sStdin => 1 | sTty => 2 | sEntrypoint => 3 | sNetMode => 4 | sStopSignal => 5 | sContainerSize => 6
    | sWorkingDir => 7 | sSSLCert => 8 | sServicePort => 9 | sContainerPort => 10 | sReplicas => 11
    | sHealthCheckInterval => 12 | sHealthCheckFall => 13 | sHealthCheckRise => 14 | sSessionAffinity => 15
    | sAlgorithm => 16 | sProtocol => 17 | sLabels => 18 | sLabelsFile => 19 | sEnv => 20 | sEnvFile => 21
    | sSecurityGroups => 22 | sVolumes => 23
    end%nat;
  cmd_decl env f :=
    match f with
    | sName => (RBasic (stringValue []), ["-name"], "Service name")
    | sStdin => (RBasic (boolValue false), ["i"; "-interactive"], "Keep STDIN open even if not attached")
    | sTty => (RBasic (boolValue false), ["t"; "-tty"], "Allocate a pseudo-TTY")
    | sEntrypoint => (RBasic (stringValue []), ["-entrypoint"], "Overwrite the default ENTRYPOINT of the image")
    | sNetMode => (RBasic (stringValue "bridge"), [], "Connect containers to a network, only bridge is supported now")
    | sStopSignal => (RBasic (stringValue DefaultStopSignal), ["-stop-signal"], "Signal to stop a container, SIGTERM by default")
    | sContainerSize => (RBasic (stringValue "s4"), ["-size"], "The size of service containers (e.g. s1, s2, s3, s4, m1, m2, m3, l1, l2, l3)")
    | sWorkingDir => (RBasic (stringValue []), ["w"; "-workdir"], "Working directory inside the container")
    | sSSLCert => (RBasic (stringValue []), ["-ssl-cert"], "SSL cert file for httpsTerm service")
    | sServicePort => (RBasic (intValue 0), ["-service-port"], "Publish port of the service")
    | sContainerPort => (RBasic (intValue 0), ["-container-port"], "Container port of the service, default same with service port")
    | sReplicas => (RBasic (intValue (-1)), ["-replicas"], "Number of containers belonging to this service")
    | sHealthCheckInterval => (RBasic (intValue 3), ["-health-check-interval"], "Interval in seconds for health checking the containers")
    | sHealthCheckFall => (RBasic (intValue 3), ["-health-check-fall"], "Number of consecutive valid health checks before considering the server as DOWN")
    | sHealthCheckRise => (RBasic (intValue 2), ["-health-check-rise"], "Number of consecutive valid health checks before considering the server as UP")
    | sSessionAffinity => (RBasic (boolValue false), ["-session-affinity"], "Whether the service uses sticky sessions")
    | sAlgorithm => (RBasic (stringValue "roundrobin"), ["-algorithm"], "Algorithm of the service (e.g. roundrobin, leastconn, source)")
    | sProtocol => (RBasic (stringValue "tcp"), ["-protocol"], "Protocol of the service (e.g. http, https, tcp, httpsTerm).")
    | sLabels => (RList (NewListOpts (Some (ValidateEnv env))), ["l"; "-label"], "Set meta data on a container")
    | sLabelsFile => (RList (NewListOpts None), ["-label-file"], "Read in a line delimited file of labels")
    | sEnv => (RList (NewListOpts (Some (ValidateEnv env))), ["e"; "-env"], "Set environment variables")
    | sEnvFile => (RList (NewListOpts None), ["-env-file"], "Read in a file of environment variables")
    | sSecurityGroups => (RList (NewListOpts None), ["-sg"], "Security group for each container")
    | sVolumes => (RList (NewListOpts None), ["v"; "--volume"], "Volume for each container")
    end;
|}.

Section service.
  Context (env : environ) (fs : RunOpts.files).

(** What follows the inspection of the image.  [readFile] is [ioutil.ReadFile], the
    bytes that were read and an error; the error is assigned and then overwritten. *)
Definition service_build (readFile : gostring → gostring * option gostring) (p : parsed) : result goerror Service :=
  let! envVariables := readKVStrings fs env (flag_list p sEnvFile) (flag_list p sEnv) in
  let! labels := readKVStrings fs env (flag_list p sLabelsFile) (flag_list p sLabels) in
  let sslData := if str p sSSLCert =s [] then [] else (readFile (str p sSSLCert)).1 in
  Ok {| sv_Name := str p sName; sv_Image := default [] (head (pf_args p)); sv_WorkingDir := str p sWorkingDir;
        ContainerSize := str p sContainerSize; ServicePort := flag_int p sServicePort; ContainerPort := flag_int p sContainerPort;
        Replicas := flag_int p sReplicas;
        sv_Entrypoint := (if str p sEntrypoint =s [] then [] else [str p sEntrypoint]); sv_Cmd := tail (pf_args p);
        sv_Env := envVariables; sv_Volumes := ListOpts_GetMap (flag_opts p sVolumes); sv_Labels := ConvertKVStringsToMap labels;
        SecurityGroups := ListOpts_GetMap (flag_opts p sSecurityGroups); sv_Tty := flag_bool p sTty; Stdin := flag_bool p sStdin;
        NetMode := str p sNetMode; sv_StopSignal := str p sStopSignal; HealthCheckInterval := flag_int p sHealthCheckInterval;
        HealthCheckFall := flag_int p sHealthCheckFall; HealthCheckRise := flag_int p sHealthCheckRise; Algorithm := str p sAlgorithm;
        Protocol := str p sProtocol; SessionAffinity := flag_bool p sSessionAffinity; SSLCert := sslData |}.

Definition CmdServiceCreate (readFile : gostring → gostring * option gostring) (srv : server) (arguments : list gostring)
    : outcome (list call * option cmdError) :=
  match parse_command (F := serviceFlag) env "service create" Exact 1 arguments with
  | Ret (Err e) => Ret ([], Some (CmdFlagError e))
  | Ret (Ok p) =>
      if flag_int p sReplicas <=? 0 then Ret ([], Some (CmdError (Errorf "replicas must be bigger than 0" [])))
      else
        match ensure_image srv (default [] (head (pf_args p))) with
        | (calls, Some e) => Ret (calls, Some e)
        | (calls, None) =>
            match service_build readFile p with
            | Err e => Ret (calls, Some (CmdError e))
            | Ok s => Ret (calls ++ [ServiceCreate s], ServerError <$> srv (ServiceCreate s))
            end
        end
  | Panicked => Panicked
  | Exited c => Exited c
  | OutOfFuel => OutOfFuel
  end.

End service.

(** ** [hyper service scale] *)

(** What is printed on the standard error. *)
Inductive scaleReport := InvalidArgument | InvalidNumber (e : Strconv.NumError).

(** The loop over the arguments: an argument that is not [name=number] is reported
    and skipped, an error of the server ends the command. *)
Fixpoint scale_loop (srv : server) (calls : list call) (errs : list scaleReport) (arguments : list gostring)
    : list call * list scaleReport * option cmdError :=
  match arguments with
  | [] => (calls, errs, None)
  | sr :: rest =>
      match SplitN sr "=" 2 with
      | [n; r] =>
          match Atoi r with
          | (replicas, None) =>
              let c := ServiceUpdate n (NewReplicas replicas) in
              match srv c with
              | Some e => (calls ++ [c], errs, Some (ServerError e))
              | None => scale_loop srv (calls ++ [c]) errs rest
              end
          | (_, Some e) => scale_loop srv calls (errs ++ [InvalidNumber e]) rest
          end
      | _ => scale_loop srv calls (errs ++ [InvalidArgument]) rest
      end
  end.

(** ** Commands on several names *)

(** The loop of [CmdCronRm] and [CmdServiceRm]: every name is tried, and the command
    fails at the end when one of them could not be removed. *)
Fixpoint rm_loop (srv : server) (del : gostring → call) (calls : list call) (printed : list gostring) (status : Z) (names : list gostring)
    : list call * list gostring * option cmdError :=
  match names with
  | [] => (calls, printed, if status =? 0 then None else Some (StatusError status))
  | sn :: rest =>
      match srv (del sn) with
      | Some e => rm_loop srv del (calls ++ [del sn]) (printed ++ [e]) 1 rest
      | None => rm_loop srv del (calls ++ [del sn]) (printed ++ [sn]) status rest
      end
  end.

(** The loop of [CmdServiceRolling_update] and [CmdServiceDetach_fip]: an error of the
    server ends the command. *)
Fixpoint update_loop (srv : server) (u : update) (calls : list call) (names : list gostring) : list call * option cmdError :=
  match names with
  | [] => (calls, None)
  | sr :: rest =>
      match srv (ServiceUpdate sr u) with
      | Some e => (calls ++ [ServiceUpdate sr u], Some (ServerError e))
      | None => update_loop srv u (calls ++ [ServiceUpdate sr u]) rest
      end
  end.

(** [CmdServiceRolling_update] once its flags are parsed. *)
Definition rolling_update (srv : server) (image : gostring) (names : list gostring) : list call * option cmdError :=
  match image with
  | [] => ([], Some (CmdError (Errorf "image is required for rolling-update" [])))
  | _ =>
      match ensure_image srv image with
      | (calls, Some e) => (calls, Some e)
      | (calls, None) => update_loop srv (NewImage image) calls names
      end
  end.

(** [CmdServiceAttach_fip] and [CmdServiceDetach_fip] once their flags are parsed. *)
Definition attach_fip (srv : server) (fip name : gostring) : list call * option cmdError :=
  match fip with
  | [] => ([], Some (CmdError (Errorf "Error: please provide the attached FIP via --fip" [])))
  | _ => ([ServiceUpdate name (NewFIP fip)], ServerError <$> srv (ServiceUpdate name (NewFIP fip)))
  end.
Definition detach_fip (srv : server) (names : list gostring) : list call * option cmdError := update_loop srv (NewFIP []) [] names.

(** ** Containers of a service *)

(** [c[:12]]; [None] is the panic on an ID that is shorter. *)
Definition short (c : gostring) : option gostring := if Nat.ltb (length c) 12 then None else Some (take 12 c).
Fixpoint shorts (cs : list gostring) : option (list gostring) :=
  match cs with
  | [] => Some []
  | c :: cs => match short c, shorts cs with Some s, Some l => Some (s :: l) | _, _ => None end
  end.
Definition showContainersInList (containers : list gostring) : option gostring :=
  match shorts containers with
  | None => None
  | Some (a :: b :: _ :: _) => Some (Join [a; b; "..."] ", ")
  | Some l => Some (Join l ", ")
  end.

End HyperCmd.

Import HyperCmd.

(** ** Flags without a name *)

Section flags.
  Context {F : Type} `{!CmdFlags F}.
  Context (cmd_index_ok : ∀ f : F, cmd_flags !! cmd_index f = Some f).

Lemma parse_command_inv env n t k arguments p :
  parse_command (F := F) env n t k arguments = Ret (Ok p) →
  ∃ cmd1 cmd2 cmd', declare (cmd_decl env <$> cmd_flags) (Subcmd n false) = Ret cmd1 ∧
    Var (RBasic (boolValue false)) ["#help"; "-help"] "Print usage" (Require t k cmd1) = Ret cmd2 ∧
    MFlag.Parse arguments cmd2 = Ret (cmd', None) ∧ CheckArgs cmd' = None ∧ p = mkParsed (heap cmd') (args cmd').
Proof.
  unfold parse_command, ParseFlags. destruct (declare _ _) as [cmd1| | |] eqn:E1; try done.
  destruct (Var _ _ _ _) as [cmd2| | |] eqn:E2; try done.
  destruct (MFlag.Parse arguments cmd2) as [[cmd3 [e|]]| | |] eqn:E3; try done.
  destruct (true && _); [done|]. destruct (CheckArgs cmd3) eqn:E4; [done|]. intros [= <-]. eauto 10.
Qed.

(** A flag without a name keeps its value, whatever the arguments. *)
Lemma nameless_flag env n t k arguments p f v usage :
  parse_command (F := F) env n t k arguments = Ret (Ok p) → cmd_decl env f = (v, [], usage) → flag_at p f = Some v.
Proof.
  intros (cmd1 & cmd2 & cmd' & E1 & E2 & E3 & _ & ->)%parse_command_inv Hd. unfold flag_at. simpl.
  apply (nameless_cell _ _ _ _ _ _ _ _ (cmd_index f) v usage (wf_new_cmd _ _) E1 E2 E3).
  by rewrite list_lookup_fmap, cmd_index_ok, <-Hd.
Qed.

End flags.

Lemma cron_index_ok (f : cronFlag) : cmd_flags !! cmd_index f = Some f.
Proof. by destruct f. Qed.
Lemma service_index_ok (f : serviceFlag) : cmd_flags !! cmd_index f = Some f.
Proof. by destruct f. Qed.

(** ** The number of arguments *)

Lemma Var_reqs (v : runValue) names usage cmd cmd' : Var v names usage cmd = Ret cmd' → nArgRequirements cmd' = nArgRequirements cmd.
Proof. unfold Var. destruct (define_names _ _ _); [|done]. by intros [= <-]. Qed.

Lemma declare_reqs rows cmd cmd' : declare rows cmd = Ret cmd' → nArgRequirements cmd' = nArgRequirements cmd.
Proof.
  revert cmd. induction rows as [|[[v names] usage] rows IH]; intros cmd; simpl; [by intros [= <-]|].
  destruct (Var v names usage cmd) as [cmd1| | |] eqn:E; try done. intros H. rewrite (IH _ H). by eapply Var_reqs.
Qed.

Lemma parse_command_args {F} `{!CmdFlags F} env n t k arguments p :
  parse_command (F := F) env n t k arguments = Ret (Ok p) → req_holds (Z.of_nat (length (pf_args p))) (mkReq t k) = true.
Proof.
  intros (cmd1 & cmd2 & cmd' & E1 & E2 & E3 & E4 & ->)%parse_command_inv. simpl.
  destruct (Parse_cells (fun _ _ => True) arguments cmd2 cmd' None) as [_ (_ & _ & Hr & _)]; [done..|].
  assert (nArgRequirements cmd' = [mkReq t k]) as Hreq.
  { rewrite Hr, (Var_reqs _ _ _ _ _ E2). simpl. by rewrite (declare_reqs _ _ _ E1). }
  unfold CheckArgs, NArg in E4. rewrite Hreq in E4. unfold req_holds. simpl in *.
  destruct t; simpl in *.
  - by destruct (_ =? k).
  - destruct (Z.ltb_spec k (Z.of_nat (length (args cmd')))); [done|]. by apply Z.leb_le.
  - destruct (Z.ltb_spec (Z.of_nat (length (args cmd'))) k); [done|]. by apply Z.leb_le.
Qed.

(** ** Cron jobs *)

#[local] Opaque parse_command cron_build.

Lemma ensure_image_calls srv image calls e c :
  ensure_image srv image = (calls, e) → c ∈ calls → c = ImageInspect image ∨ c = PullImage image.
Proof. unfold ensure_image. intros H Hc. repeat case_match; simplify_eq; set_solver. Qed.

(** The cron jobs that are asked for. *)
Lemma CronCreate_inv env fs range srv arguments calls e n c :
  CmdCronCreate env fs range srv arguments = Ret (calls, e) → CronCreate n c ∈ calls →
  ∃ p, parse_command (F := cronFlag) env "cron create" Min 1 arguments = Ret (Ok p) ∧ n = str p cName ∧
    keys_incomplete (str p cAccessKey) (str p cSecretKey) = false ∧ cron_build env fs range p = Ok c.
Proof.
  unfold CmdCronCreate. destruct (parse_command (F := cronFlag) env "cron create" Min 1 arguments) as [[p|]| | |] eqn:Ep; [|..|discriminate|discriminate|discriminate].
  2:{ intros [= <- <-] Hin. inversion Hin. }
  destruct (keys_incomplete _ _) eqn:Ek; [intros [= <- <-] Hin; inversion Hin|].
  destruct (ensure_image srv _) as [calls0 [e0|]] eqn:Ei.
  { intros [= <- <-] Hin. by destruct (ensure_image_calls _ _ _ _ _ Ei Hin). }
  destruct (cron_build env fs range p) as [c0|] eqn:Eb.
  2:{ intros [= <- <-] Hin. by destruct (ensure_image_calls _ _ _ _ _ Ei Hin). }
  intros [= <- <-] [Hin|Hin]%elem_of_app; [by destruct (ensure_image_calls _ _ _ _ _ Ei Hin)|].
  apply list_elem_of_singleton in Hin as [= -> ->]. exists p. by split_and!.
Qed.

Lemma keys_complete a s : keys_incomplete a s = false ↔ (a = [] ↔ s = []).
Proof. destruct a, s; cbn; naive_solver. Qed.

(** Five fields separated by spaces are those of the default schedule only if each
    of them is. *)
Lemma default_schedule p :
  schedule p = "0 0 * * *" →
  str p cMinute = "0" ∧ str p cHour = "0" ∧ str p cDom = "*" ∧ str p cMonth = "*" ∧ str p cDow = "*".
Proof.
  unfold schedule. intros H. apply (f_equal (fun s => Split s " ")) in H. revert H.
  generalize (str p cMinute), (str p cHour), (str p cDom), (str p cMonth), (str p cDow). intros m h d mo w.
  change (Split "0 0 * * *" " ") with ["0"; "0"; "*"; "*"; "*"] . cbn [app]. rewrite !Split_app. intros H.
  assert (∀ x, ∃ a l, Split x " " = a :: l) as Hs by (intros x; pose proof (Split_ne x " "); destruct (Split x " "); eauto; done).
  pose proof (Join_Split m " ") as Jm. pose proof (Join_Split h " ") as Jh. pose proof (Join_Split d " ") as Jd.
  pose proof (Join_Split mo " ") as Jo. pose proof (Join_Split w " ") as Jw.
  destruct (Hs m) as (a1 & l1 & E1), (Hs h) as (a2 & l2 & E2), (Hs d) as (a3 & l3 & E3), (Hs mo) as (a4 & l4 & E4), (Hs w) as (a5 & l5 & E5).
  rewrite E1, E2, E3, E4, E5 in *. pose proof (f_equal length H) as Hl. rewrite !length_app in Hl. simpl in Hl.
  destruct l1, l2, l3, l4, l5; simpl in Hl; try lia. simpl in *. by simplify_eq.
Qed.

#[local] Transparent cron_build.
Lemma cron_build_inv env fs range p c :
  cron_build env fs range p = Ok c →
  Schedule c = schedule p ∧ AccessKey c = str p cAccessKey ∧ SecretKey c = str p cSecretKey ∧
  ¬ (str p cMinute = "0" ∧ str p cHour = "0" ∧ str p cDom = "*" ∧ str p cMonth = "*" ∧ str p cDow = "*") ∧
  Tty (cr_Config c) = true ∧ Image (cr_Config c) = default [] (head (pf_args p)) ∧ Cmd (cr_Config c) = tail (pf_args p) ∧
  Privileged (cr_HostConfig c) = false ∧ NetworkMode (cr_HostConfig c) = str p cNetMode ∧
  NetConfig c = cron_networking p (cr_HostConfig c).
Proof.
  unfold cron_build. intros H.
  repeat match goal with
  | Hx : (let '(_, _) := ?x in _) = Ok _ |- _ => destruct x
  | _ => progress inv_ok
  end.
  match goal with Hx : (if ?b then _ else _) = Ok _ |- _ => destruct b eqn:Eb; [discriminate|] end. inv_ok.
  cbn [Schedule AccessKey SecretKey cr_Config cr_HostConfig NetConfig].
  assert (∀ q ports envs ls vols, Tty (cron_config q ports envs ls vols) = true ∧ Image (cron_config q ports envs ls vols) = default [] (head (pf_args q)) ∧
    Cmd (cron_config q ports envs ls vols) = tail (pf_args q)) as Hc by (intros; unfold cron_config; by destruct (split_hostname _)).
  split_and!; try apply Hc; try reflexivity. intros (E1 & E2 & E3 & E4 & E5). rewrite E1, E2, E3, E4, E5 in Eb. discriminate Eb.
Qed.

(** A cron job that the client asks for has both keys or none, a schedule that
    is not the default one, and a container with a terminal, unprivileged, on the
    bridge network, that runs the image and the command that follow the flags. *)
Theorem CmdCronCreate_request env fs range srv arguments calls e n c :
  CmdCronCreate env fs range srv arguments = Ret (calls, e) → CronCreate n c ∈ calls →
  (AccessKey c = [] ↔ SecretKey c = []) ∧ Schedule c ≠ "0 0 * * *" ∧
  Tty (cr_Config c) = true ∧ Privileged (cr_HostConfig c) = false ∧ NetworkMode (cr_HostConfig c) = "bridge" ∧ NetConfig c = ∅ ∧
  ∃ p, parse_command (F := cronFlag) env "cron create" Min 1 arguments = Ret (Ok p) ∧
    pf_args p = Image (cr_Config c) :: Cmd (cr_Config c).
Proof.
  intros H Hin. destruct (CronCreate_inv _ _ _ _ _ _ _ _ _ H Hin) as (p & Ep & _ & Hk & Hb).
  destruct (cron_build_inv _ _ _ _ _ Hb) as (-> & -> & -> & Hs & Ht & Hi & Hc & Hp & Hn & ->).
  pose proof (nameless_flag cron_index_ok _ _ _ _ _ _ cNetMode _ _ Ep eq_refl) as Hnm.
  assert (str p cNetMode = "bridge") as Hbr by (unfold str; by rewrite Hnm).
  split_and!; [by apply keys_complete| |done|done|congruence| |].
  - intros Hd%default_schedule. tauto.
  - unfold cron_networking. by rewrite Hn, Hbr.
  - exists p. split; [done|]. pose proof (parse_command_args _ _ _ _ _ _ Ep) as Ha. rewrite Hi, Hc.
    destruct (pf_args p) as [|i l]; [discriminate Ha|done].
Qed.

(** The long name of the volume flag is declared with a dash too many, in both
    commands: [--volume] is not known to them, and nothing is asked of the server. *)
Theorem long_volume_unknown env fs range readFile srv rest :
  CmdCronCreate env fs range srv ("--volume" :: rest) = Ret ([], Some (CmdFlagError (ErrNotDefined "-volume"))) ∧
  CmdServiceCreate env fs readFile srv ("--volume" :: rest) = Ret ([], Some (CmdFlagError (ErrNotDefined "-volume"))).
Proof. split; vm_compute; reflexivity. Qed.

(** ** Services *)

Lemma ServiceCreate_inv env fs readFile srv arguments calls e s :
  CmdServiceCreate env fs readFile srv arguments = Ret (calls, e) → ServiceCreate s ∈ calls →
  ∃ p, parse_command (F := serviceFlag) env "service create" Exact 1 arguments = Ret (Ok p) ∧ 0 < flag_int p sReplicas ∧
    service_build env fs readFile p = Ok s.
Proof.
  unfold CmdServiceCreate. destruct (parse_command (F := serviceFlag) env "service create" Exact 1 arguments) as [[p|]| | |] eqn:Ep;
    [|..|discriminate|discriminate|discriminate].
  2:{ intros [= <- <-] Hin. inversion Hin. }
  destruct (Z.leb_spec (flag_int p sReplicas) 0) as [|Hr]; [intros [= <- <-] Hin; inversion Hin|].
  destruct (ensure_image srv _) as [calls0 [e0|]] eqn:Ei.
  { intros [= <- <-] Hin. by destruct (ensure_image_calls _ _ _ _ _ Ei Hin). }
  destruct (service_build env fs readFile p) as [s0|] eqn:Eb.
  2:{ intros [= <- <-] Hin. by destruct (ensure_image_calls _ _ _ _ _ Ei Hin). }
  intros [= <- <-] [Hin|Hin]%elem_of_app; [by destruct (ensure_image_calls _ _ _ _ _ Ei Hin)|].
  apply list_elem_of_singleton in Hin as [= ->]. exists p. split; [reflexivity|]. split; [exact Hr|exact Eb].
Qed.

Lemma service_build_inv env fs readFile p s :
  service_build env fs readFile p = Ok s →
  Replicas s = flag_int p sReplicas ∧ NetMode s = str p sNetMode ∧ sv_Cmd s = tail (pf_args p) ∧
  sv_Image s = default [] (head (pf_args p)) ∧ SSLCert s = (if str p sSSLCert =s [] then [] else (readFile (str p sSSLCert)).1).
Proof.
  unfold service_build. intros H. inv_ok. cbn [Replicas NetMode sv_Cmd sv_Image SSLCert]. split_and!; reflexivity.
Qed.

(** A service that the client asks for has at least one replica and is on the
    bridge network, its image is the one argument, and it never has a command: the
    code that takes one from the arguments is dead.  Its certificate is what was
    read of the file, whether or not reading it failed. *)
Theorem CmdServiceCreate_request env fs readFile srv arguments calls e s :
  CmdServiceCreate env fs readFile srv arguments = Ret (calls, e) → ServiceCreate s ∈ calls →
  0 < Replicas s ∧ NetMode s = "bridge" ∧ sv_Cmd s = [] ∧
  ∃ p, parse_command (F := serviceFlag) env "service create" Exact 1 arguments = Ret (Ok p) ∧ pf_args p = [sv_Image s] ∧
    SSLCert s = (if str p sSSLCert =s [] then [] else (readFile (str p sSSLCert)).1).
Proof.
  intros H Hin. destruct (ServiceCreate_inv _ _ _ _ _ _ _ _ H Hin) as (p & Ep & Hr & Hb).
  pose proof (nameless_flag service_index_ok _ _ _ _ _ _ sNetMode _ _ Ep eq_refl) as Hnm.
  assert (str p sNetMode = "bridge") as Hbr by (unfold str; by rewrite Hnm).
  pose proof (parse_command_args (F := serviceFlag) _ _ _ _ _ _ Ep) as Ha. apply Z.eqb_eq in Ha. cbn [req_N] in Ha.
  destruct (service_build_inv _ _ _ _ _ Hb) as (-> & -> & -> & Hi & Hc). clear H Hin Hb.
  destruct (pf_args p) as [|i [|]] eqn:Ep'; [discriminate Ha| |cbn [length] in Ha; lia]. cbn in Hi.
  split; [exact Hr|]. split; [exact Hbr|]. split; [reflexivity|]. exists p. split; [exact Ep|]. split; [congruence|exact Hc].
Qed.

(** The requests in the arguments of [service scale]. *)
Definition scale_request (sr : gostring) : option call :=
  match SplitN sr "=" 2 with
  | [n; r] => match Atoi r with (k, None) => Some (ServiceUpdate n (NewReplicas k)) | _ => None end
  | _ => None
  end.

(** [service scale] asks for every well-formed request, in order, until the
    server refuses one; the malformed ones are reported and do not make the command
    fail. *)
Theorem scale_requests srv arguments :
  ∃ done rest, omap scale_request arguments = done ++ rest ∧ (scale_loop srv [] [] arguments).1.1 = done ∧
    match (scale_loop srv [] [] arguments).2 with
    | None => rest = []
    | Some e => ∃ c m, last done = Some c ∧ srv c = Some m ∧ e = ServerError m
    end.
Proof.
  assert (∀ calls errs, ∃ done rest, omap scale_request arguments = done ++ rest ∧ (scale_loop srv calls errs arguments).1.1 = calls ++ done ∧
    match (scale_loop srv calls errs arguments).2 with None => rest = [] | Some e => ∃ c m, last done = Some c ∧ srv c = Some m ∧ e = ServerError m end) as H.
  { induction arguments as [|sr l IH]; intros calls errs; [exists [], []; split_and!; [done|by rewrite app_nil_r|done]|].
    cbn [omap list_omap scale_loop]. unfold scale_request at 1.
    destruct (SplitN sr "=" 2) as [|n [|r [|]]]; try apply IH.
    destruct (Atoi r) as [k [e|]]; [apply IH|]. cbn [omap list_omap].
    destruct (srv (ServiceUpdate n (NewReplicas k))) as [m|] eqn:Es.
    - exists [ServiceUpdate n (NewReplicas k)], (omap scale_request l). split; [reflexivity|]. split; [reflexivity|]. exists (ServiceUpdate n (NewReplicas k)), m. auto.
    - destruct (IH (calls ++ [ServiceUpdate n (NewReplicas k)]) errs) as (d & rest & E1 & E2 & E3).
      exists (ServiceUpdate n (NewReplicas k) :: d), rest. split; [cbn; f_equal; exact E1|]. split; [rewrite E2, <-(assoc_L (++)); reflexivity|].
      destruct (scale_loop _ _ _ _).2; [|exact E3]. destruct E3 as (c0 & m & Hl & Hs & ->). exists c0, m. split_and!; [|done|done].
      rewrite last_cons, Hl. done. }
  destruct (H [] []) as (d & rest & ? & ? & ?). by exists d, rest.
Qed.

(** [cron rm] and [service rm] ask for every removal, in order, whatever the
    server answers, and fail when one of them was refused. *)
Theorem rm_tries_all srv del names :
  (rm_loop srv del [] [] 0 names).1.1 = del <$> names ∧
  (rm_loop srv del [] [] 0 names).1.2 = (fun n => default n (srv (del n))) <$> names ∧
  (rm_loop srv del [] [] 0 names).2 = if existsb (fun n => bool_decide (is_Some (srv (del n)))) names then Some (StatusError 1) else None.
Proof.
  assert (∀ calls printed st, st = 0 ∨ st = 1 → rm_loop srv del calls printed st names =
    (calls ++ (del <$> names), printed ++ ((fun n => default n (srv (del n))) <$> names),
     if (st =? 1) || existsb (fun n => bool_decide (is_Some (srv (del n)))) names then Some (StatusError 1) else None)) as H.
  { induction names as [|n l IH]; intros calls printed st Hst.
    { cbn. rewrite !app_nil_r. by destruct Hst as [-> | ->]. }
    rewrite !fmap_cons. cbn [rm_loop existsb].
    destruct (srv (del n)) as [e|]; rewrite IH by auto; rewrite <-!(assoc_L (++)); cbn; by destruct (st =? 1). }
  rewrite (H [] [] 0) by auto. by split_and!.
Qed.

(** A rolling update never names an image the server has not been asked about first. *)
Lemma rolling_update_inspects srv image names c :
  c ∈ (rolling_update srv image names).1 → head (rolling_update srv image names).1 = Some (ImageInspect image).
Proof.
  assert (∀ u calls, is_Some (head calls) → head (update_loop srv u calls names).1 = head calls) as Hu.
  { induction names as [|n l IH]; intros u calls Hc; [done|]. cbn [update_loop].
    destruct (srv (ServiceUpdate n u)); [by destruct calls, Hc|]. rewrite IH; by destruct calls, Hc. }
  unfold rolling_update. destruct image as [|a image]; [by intros ?%elem_of_nil|]. unfold ensure_image.
  destruct (srv (ImageInspect _)) as [e|]; [destruct (Contains _ _); [destruct (srv (PullImage _))|]|];
    cbn [fmap option_fmap option_map]; intros _; try rewrite Hu; eauto.
Qed.

(** [service ls] panics when the server returns an ID shorter than twelve. *)
Lemma showContainersInList_panics cs : showContainersInList cs = None ↔ Exists (fun c => (length c < 12)%nat) cs.
Proof.
  assert (shorts cs = None ↔ Exists (fun c => (length c < 12)%nat) cs) as <-.
  { induction cs as [|c cs IH]; simpl; [by rewrite Exists_nil|]. rewrite Exists_cons, <-IH. unfold short.
    destruct (Nat.ltb_spec (length c) 12); [naive_solver|]. destruct (shorts cs); naive_solver lia. }
  unfold showContainersInList. destruct (shorts cs) as [[|a [|b [|]]]|]; naive_solver.
Qed.

(** ** Examples *)

Definition demo_srv : server := fun c => match c with ImageInspect _ => Some "Error: No such image: busybox" | _ => None end.
Definition demo_cron : list gostring :=
  ["--name=backup"; "--hour"; "3"; "--access-key=a"; "--secret-key=b"; "-v"; "data:/data"; "busybox"; "tar"; "-c"; "/data"].
Definition created (r : outcome (list call * option cmdError)) : list call := match r with Ret (l, None) => l | _ => [] end.

Lemma CmdCronCreate_request_witness :
  ∃ calls n c, CmdCronCreate [] (fun _ => None) elements demo_srv demo_cron = Ret (calls, None) ∧ CronCreate n c ∈ calls ∧
    Schedule c = "0 3 * * *" ∧ Schedule c ≠ "0 0 * * *" ∧ Privileged (cr_HostConfig c) = false.
Proof.
  eexists _, _, _. split; [vm_compute; reflexivity|]. split; [apply elem_of_cons; right; apply elem_of_cons; right; apply elem_of_cons; by left|].
  split; [reflexivity|].
  edestruct (CmdCronCreate_request [] (fun _ => None) elements demo_srv demo_cron) as (_ & Hs & _ & Hp & _).
  - vm_compute. reflexivity.
  - apply elem_of_cons. right. apply elem_of_cons. right. apply elem_of_cons. left. reflexivity.
  - split; [exact Hs|exact Hp].
Defined.

Definition demo_service : list gostring := ["--replicas=2"; "--service-port=80"; "--ssl-cert=/missing"; "--protocol=httpsTerm"; "nginx"].

Lemma CmdServiceCreate_request_witness :
  ∃ calls s, CmdServiceCreate [] (fun _ => None) (fun _ => ([], Some "no such file")) demo_srv demo_service = Ret (calls, None) ∧
    ServiceCreate s ∈ calls ∧ SSLCert s = [] ∧ 0 < Replicas s ∧ sv_Cmd s = [].
Proof.
  eexists _, _. split; [vm_compute; reflexivity|]. split; [apply elem_of_cons; right; apply elem_of_cons; right; apply elem_of_cons; by left|].
  split; [reflexivity|].
  edestruct (CmdServiceCreate_request [] (fun _ => None) (fun _ => ([], Some "no such file")) demo_srv demo_service) as (Hr & _ & Hc & _).
  - vm_compute. reflexivity.
  - apply elem_of_cons. right. apply elem_of_cons. right. apply elem_of_cons. left. reflexivity.
  - split; [exact Hr|exact Hc].
Defined.
