(* ===== verification/GoMatch.v ===== *)
(** * GoMatch: shell patterns

    [path/filepath.Match] as the program uses it (wildcards in [ADD] and [COPY]), with
    its own scan into chunks and its greedy treatment of stars, and the meaning of a
    pattern that its documentation gives.  A rune is an ASCII character. *)

From S2P Require Import Prelude.
Import Strings.

Module GoMatch.

Inductive match_error := ErrBadPattern | MatchFuel.
#[global] Instance match_error_eq_dec : EqDecision match_error.
Proof. solve_decision. Defined.

(** [scanChunk] after the stars: the text up to the next star outside of brackets. *)
Fixpoint scan (inrange : bool) (p : gostring) : gostring * gostring :=
  match p with
  | [] => ([], [])
  | c :: p' =>
      if c =c "\" then
        match p' with
        | [] => ([c], [])
        | d :: p'' => let '(a, b) := scan inrange p'' in (c :: d :: a, b)
        end
      else if (c =c "*") && negb inrange then ([], p)
      else
        let '(a, b) := scan (if c =c "[" then true else if c =c "]" then false else inrange) p' in (c :: a, b)
  end.
Definition scanChunk (p : gostring) : bool * gostring * gostring :=
  let '(chunk, rest) := scan false (drop_while (fun c => c =c "*") p) in
  (HasPrefix p "*", chunk, rest).

(** [getEsc]: a character of a class, and what follows it, which is not empty. *)
Definition getEsc (chunk : gostring) : result match_error (ascii * gostring) :=
  let! (r, rest) :=
    match chunk with
    | [] => Err ErrBadPattern
    | c :: chunk' =>
        if (c =c "-") || (c =c "]") then Err ErrBadPattern
        else if c =c "\" then match chunk' with [] => Err ErrBadPattern | d :: t => Ok (d, t) end
        else Ok (c, chunk')
    end in
  match rest with [] => Err ErrBadPattern | _ => Ok (r, rest) end.

(** The ranges of a class, up to its closing bracket. *)
Fixpoint class_loop (fuel : nat) (chunk : gostring) (nrange : bool) (ranges : list (ascii * ascii))
    : result match_error (list (ascii * ascii) * gostring) :=
  match fuel with
  | O => Err MatchFuel
  | S fuel =>
      match chunk, nrange with
      | "]"%char :: rest, true => Ok (ranges, rest)
      | _, _ =>
          let! (lo, chunk) := getEsc chunk in
          let! (hi, chunk) :=
            match chunk with
            | "-"%char :: chunk => getEsc chunk
            | _ => Ok (lo, chunk)
            end in
          class_loop fuel chunk true (ranges ++ [(lo, hi)])
      end
  end.
Definition in_class (ranges : list (ascii * ascii)) (c : ascii) : bool :=
  existsb (fun '(lo, hi) => in_range lo hi c) ranges.

(** What one element of a chunk matches, and the rest of the chunk. *)
Inductive elem := Lit (c : ascii) | Any | Class (negated : bool) (ranges : list (ascii * ascii)).
Definition elem_match (e : elem) (c : ascii) : bool :=
  match e with
  | Lit d => c =c d
  | Any => negb (c =c "/")
  | Class negated ranges => negb (Bool.eqb (in_class ranges c) negated)
  end.
Definition next_elem (chunk : gostring) : result match_error (elem * gostring) :=
  match chunk with
  | [] => Err ErrBadPattern
  | c :: chunk =>
      if c =c "[" then
        match chunk with
        | [] => Err ErrBadPattern
        | d :: _ =>
            let negated := d =c "^" in
            let chunk := if negated then drop 1 chunk else chunk in
            let! (ranges, rest) := class_loop (S (length chunk)) chunk false [] in
            Ok (Class negated ranges, rest)
        end
      else if c =c "?" then Ok (Any, chunk)
      else if c =c "\" then match chunk with [] => Err ErrBadPattern | d :: rest => Ok (Lit d, rest) end
      else Ok (Lit c, chunk)
  end.

(** [matchChunk]: what is left of [s], or [None] when it does not match.  Errors of
    the pattern are found only as far as the text matches. *)
Fixpoint matchChunk (fuel : nat) (chunk s : gostring) : result match_error (option gostring) :=
  match fuel, chunk, s with
  | O, _, _ => Err MatchFuel
  | S _, [], _ => Ok (Some s)
  | S _, _ :: _, [] => Ok None
  | S fuel, _ :: _, c :: s =>
      let! (e, chunk) := next_elem chunk in
      if elem_match e c then matchChunk fuel chunk s else Ok None
  end.

(** The search that follows a star: the chunk is tried behind ever longer prefixes
    without a slash. *)
Fixpoint skip_loop (fuel : nat) (chunk : gostring) (last : bool) (name : gostring) : result match_error (option gostring) :=
  match name with
  | [] => Ok None
  | c :: name =>
      if c =c "/" then Ok None
      else
        let! r := matchChunk fuel chunk name in
        match r with
        | Some t => if last && Nat.ltb 0 (length t) then skip_loop fuel chunk last name else Ok (Some t)
        | None => skip_loop fuel chunk last name
        end
  end.

Fixpoint match_loop (fuel : nat) (pattern name : gostring) : result match_error bool :=
  match fuel, pattern with
  | O, _ => Err MatchFuel
  | S _, [] => Ok (Nat.eqb (length name) 0)
  | S fuel, _ :: _ =>
      let '(star, chunk, rest) := scanChunk pattern in
      if star && (chunk =s []) then Ok (negb (ContainsRune name "/"))
      else
        let last := rest =s [] in
        let! r := matchChunk (S (length chunk)) chunk name in
        match r with
        | Some t =>
            if Nat.eqb (length t) 0 || negb last then match_loop fuel rest t
            else if star then
              let! r := skip_loop (S (length chunk)) chunk last name in
              match r with Some t => match_loop fuel rest t | None => Ok false end
            else Ok false
        | None =>
            if star then
              let! r := skip_loop (S (length chunk)) chunk last name in
              match r with Some t => match_loop fuel rest t | None => Ok false end
            else Ok false
        end
  end.

Definition Match (pattern name : gostring) : result match_error bool := match_loop (S (length pattern)) pattern name.

End GoMatch.

Import GoMatch.

(** Cases of the table of Go's own test. *)
Definition match_table : list (gostring * gostring * result match_error bool) :=
  [("abc", "abc", Ok true); ("*", "abc", Ok true); ("*c", "abc", Ok true); ("a*", "a", Ok true); ("a*", "abc", Ok true);
   ("a*", "ab/c", Ok false); ("a*/b", "abc/b", Ok true); ("a*/b", "a/c/b", Ok false); ("a*b*c*d*e*/f", "axbxcxdxe/f", Ok true);
   ("a*b*c*d*e*/f", "axbxcxdxexxx/f", Ok true); ("a*b*c*d*e*/f", "axbxcxdxe/xxx/f", Ok false); ("a*b?c*x", "abxbbxdbxebxczzx", Ok true);
   ("a*b?c*x", "abxbbxdbxebxczzy", Ok false); ("ab[c]", "abc", Ok true); ("ab[b-d]", "abc", Ok true); ("ab[e-g]", "abc", Ok false);
   ("ab[^c]", "abc", Ok false); ("ab[^b-d]", "abc", Ok false); ("ab[^e-g]", "abc", Ok true); ("a\*b", "a*b", Ok true); ("a\*b", "ab", Ok false);
   ("a?b", "a/b", Ok false); ("a*b", "a/b", Ok false); ("[\]a]", "]", Ok true); ("[\-]", "-", Ok true); ("[x\-]", "x", Ok true);
   ("[]a]", "]", Err ErrBadPattern); ("[-]", "-", Err ErrBadPattern); ("[x-]", "x", Err ErrBadPattern); ("\", "a", Err ErrBadPattern);
   ("[a-b-c]", "a", Err ErrBadPattern); ("[", "a", Err ErrBadPattern); ("[^", "a", Err ErrBadPattern); ("a[", "a", Ok false);
   ("a[", "ab", Err ErrBadPattern); ("*x", "xxx", Ok true)].
Example match_table_ok : forallb (fun '(p, n, r) => bool_decide (Match p n = r)) match_table = true.
Proof. vm_compute. reflexivity. Qed.
