(* ===== verification/Json.v ===== *)
(** * Json: what the program uses of [encoding/json]

    [json.NewDecoder(r).Decode(&v)] reads one JSON value from the start of its
    input and leaves what follows unread.  The decoder is a recursive-descent
    parser; its fuel bounds the nesting and the number of elements, and the length
    of the input gives enough of it ([decode_fuel]; see [Decode_strings] for the arrays of
    strings that matter here).  Strings are byte sequences:
    the replacement of invalid UTF-8 is left to the users ([clean] of [JsonEncode]),
    and the range check on numbers is not modelled. *)

From S2P Require Import Prelude.
Import Strings.

Module Json.

(** A decoded [interface{}]; the program only distinguishes strings. *)
Inductive json :=
| JString (s : gostring)
| JNumber (s : gostring)
| JBool (b : bool)
| JNull
| JArray (l : list json)
| JObject (l : list (gostring * json)).

Definition json_space (c : ascii) : bool := bool_decide (c ∈ [ch " "; "009"; "010"; "013"]%char).
Definition skip (s : gostring) : gostring := drop_while json_space s.

Definition hex_val (c : ascii) : option N :=
  let n := N_of_ascii c in
  if is_digit c then Some (n - 48)%N
  else if in_range "a" "f" c then Some (n - 87)%N
  else if in_range "A" "F" c then Some (n - 55)%N
  else None.
Definition hex4 (s : gostring) : option (N * gostring) :=
  match s with
  | a :: b :: c :: d :: rest =>
      a ← hex_val a; b ← hex_val b; c ← hex_val c; d ← hex_val d;
      Some (((a * 16 + b) * 16 + c) * 16 + d, rest)%N
  | _ => None
  end.

(** UTF-8 encoding of a code point. *)
Definition utf8 (n : N) : gostring :=
  if (n <? 128)%N then [ascii_of_N n]
  else if (n <? 2048)%N then [ascii_of_N (192 + n / 64); ascii_of_N (128 + n mod 64)]
  else if (n <? 65536)%N
  then [ascii_of_N (224 + n / 4096); ascii_of_N (128 + (n / 64) mod 64); ascii_of_N (128 + n mod 64)]
  else [ascii_of_N (240 + n / 262144); ascii_of_N (128 + (n / 4096) mod 64);
        ascii_of_N (128 + (n / 64) mod 64); ascii_of_N (128 + n mod 64)].
Definition surrogate (lo hi n : N) : bool := (lo <=? n)%N && (n <=? hi)%N.

(** A \uXXXX escape, the four digits at the head of [s]; a pair of surrogates is one
    code point, a lone surrogate the replacement character. *)
Definition unicode_escape (s : gostring) : option (gostring * gostring) :=
  '(n, rest) ← hex4 s;
  if surrogate 0xD800 0xDFFF n then
    match rest with
    | b :: u :: rest' =>
        match (if (b =c "\") && (u =c "u") then hex4 rest' else None) with
        | Some (m, rest'') =>
            if surrogate 0xD800 0xDBFF n && surrogate 0xDC00 0xDFFF m
            then Some (utf8 (65536 + (n - 0xD800) * 1024 + (m - 0xDC00))%N, rest'')
            else Some (utf8 0xFFFD, rest)
        | None => Some (utf8 0xFFFD, rest)
        end
    | _ => Some (utf8 0xFFFD, rest)
    end
  else Some (utf8 n, rest).
Definition simple_escape (c : ascii) : option ascii :=
  if bool_decide (c ∈ ["034"; ch "\"; ch "/"]%char) then Some c
  else if c =c "b" then Some "008"%char else if c =c "f" then Some "012"%char
  else if c =c "n" then Some "010"%char else if c =c "r" then Some "013"%char
  else if c =c "t" then Some "009"%char else None.

(** The body of a string, after its opening quote. *)
Fixpoint json_string (fuel : nat) (s : gostring) : option (gostring * gostring) :=
  match fuel, s with
  | S fuel, c :: s =>
      if c =c "034" then Some ([], s)
      else if c =c "\" then
        match s with
        | e :: s =>
            if e =c "u" then
              '(u, s) ← unicode_escape s; '(t, rest) ← json_string fuel s; Some (u ++ t, rest)
            else d ← simple_escape e; '(t, rest) ← json_string fuel s; Some (d :: t, rest)
        | [] => None
        end
      else if (N_of_ascii c <? 32)%N then None
      else '(t, rest) ← json_string fuel s; Some (c :: t, rest)
  | _, _ => None
  end.

(** Numbers: an optional sign, an integer part without leading zero, an optional
    fraction and an optional exponent. *)
Fixpoint take_while (f : ascii → bool) (s : gostring) : gostring :=
  match s with c :: s => if f c then c :: take_while f s else [] | [] => [] end.
Definition digits1 (s : gostring) : option (gostring * gostring) :=
  match take_while is_digit s with
  | [] => None
  | d => Some (d, drop_while is_digit s)
  end.
Definition json_int (s : gostring) : option (gostring * gostring) :=
  match s with
  | c :: rest => if c =c "0" then Some ("0", rest) else digits1 s
  | [] => None
  end.
Definition json_frac (s : gostring) : option (gostring * gostring) :=
  match s with
  | c :: rest => if c =c "." then '(d, rest) ← digits1 rest; Some (c :: d, rest) else Some ([], s)
  | [] => Some ([], s)
  end.
Definition json_exp (s : gostring) : option (gostring * gostring) :=
  match s with
  | c :: rest =>
      if (c =c "e") || (c =c "E") then
        let '(sign, rest) := match rest with
                             | x :: r => if (x =c "+") || (x =c "-") then ([x], r) else ([], rest)
                             | [] => ([], rest)
                             end in
        '(d, rest) ← digits1 rest; Some (c :: sign ++ d, rest)
      else Some ([], s)
  | [] => Some ([], s)
  end.
Definition json_number (s : gostring) : option (gostring * gostring) :=
  let '(sign, s) := match s with c :: r => if c =c "-" then ([c], r) else ([], s) | [] => ([], s) end in
  '(i, s) ← json_int s; '(f, s) ← json_frac s; '(e, s) ← json_exp s;
  Some (sign ++ i ++ f ++ e, s).

(** One value at the head of the input. *)
Fixpoint json_value (fuel : nat) (s : gostring) : option (json * gostring) :=
  match fuel with
  | O => None
  | S fuel =>
      match skip s with
      | [] => None
      | c :: rest =>
          if c =c "034" then '(t, rest) ← json_string (S (length rest)) rest; Some (JString t, rest)
          else if c =c "[" then
            match skip rest with
            | d :: rest' => if d =c "]" then Some (JArray [], rest')
                            else '(l, rest) ← json_elems fuel rest; Some (JArray l, rest)
            | [] => None
            end
          else if c =c "{" then
            match skip rest with
            | d :: rest' => if d =c "}" then Some (JObject [], rest')
                            else '(l, rest) ← json_members fuel rest; Some (JObject l, rest)
            | [] => None
            end
          else match strip_prefix "true" (c :: rest) with
          | Some r => Some (JBool true, r)
          | None => match strip_prefix "false" (c :: rest) with
          | Some r => Some (JBool false, r)
          | None => match strip_prefix "null" (c :: rest) with
          | Some r => Some (JNull, r)
          | None => '(n, rest) ← json_number (c :: rest); Some (JNumber n, rest)
          end end end
      end
  end
with json_elems (fuel : nat) (s : gostring) : option (list json * gostring) :=
  match fuel with
  | O => None
  | S fuel =>
      '(v, rest) ← json_value fuel s;
      match skip rest with
      | c :: rest =>
          if c =c "]" then Some ([v], rest)
          else if c =c "," then '(l, rest) ← json_elems fuel rest; Some (v :: l, rest)
          else None
      | [] => None
      end
  end
with json_members (fuel : nat) (s : gostring) : option (list (gostring * json) * gostring) :=
  match fuel with
  | O => None
  | S fuel =>
      match skip s with
      | q :: rest =>
          if q =c "034" then
            '(k, rest) ← json_string (S (length rest)) rest;
            match skip rest with
            | col :: rest =>
                if col =c ":" then
                  '(v, rest) ← json_value fuel rest;
                  match skip rest with
                  | c :: rest =>
                      if c =c "}" then Some ([(k, v)], rest)
                      else if c =c "," then '(l, rest) ← json_members fuel rest; Some ((k, v) :: l, rest)
                      else None
                  | [] => None
                  end
                else None
            | [] => None
            end
          else None
      | [] => None
      end
  end.

(** A value consumes a character per level of nesting and per element, and each of those
    takes at most two units of fuel. *)
Definition decode_fuel (s : gostring) : nat := 2 * length s + 2.
Definition Decode (s : gostring) : option json := fst <$> json_value (decode_fuel s) s.

End Json.

Import Json.

Definition quoted_ (s : gostring) : gostring := "034"%char :: s ++ ["034"%char].
Example json_ex1 : Decode (ch "[" :: quoted_ "ls" ++ ", " ++ quoted_ "-l\n" ++ " ] tail") =
  Some (JArray [JString "ls"; JString ("-l" ++ ["010"%char])]).
Proof. vm_compute. reflexivity. Qed.
Example json_ex2 : Decode ("[1, -2.5e3, true, null, {" ++ quoted_ "a" ++ ": []}]") =
  Some (JArray [JNumber "1"; JNumber "-2.5e3"; JBool true; JNull; JObject [("a", JArray [])]]).
Proof. vm_compute. reflexivity. Qed.
Example json_ex3 : Decode "[echo hi" = None ∧ Decode "[01]" = None ∧ Decode "[ ]" = Some (JArray []).
Proof. vm_compute. done. Qed.

(** ** Arrays of strings *)

(** A string that needs no escape. *)
Definition plain_json (s : gostring) : Prop :=
  Forall (fun c => c ≠ "034"%char ∧ c ≠ ch "\" ∧ (32 <= N_of_ascii c)%N) s.
#[global] Instance plain_json_dec s : Decision (plain_json s).
Proof. unfold plain_json. apply _. Defined.

(** The exec form of a list of such strings. *)
Definition exec_form (l : list gostring) : gostring := ch "[" :: Join (quoted_ <$> l) "," ++ "]".

Lemma json_string_plain s rest fuel :
  plain_json s → length s < fuel → json_string fuel (s ++ "034"%char :: rest) = Some (s, rest).
Proof.
  intros Hs. revert fuel. induction Hs as [|c s (H1 & H2 & H3) _ IH]; intros fuel Hf; (destruct fuel as [|fuel]; [simpl in Hf; lia|]).
  - reflexivity.
  - cbn [json_string app]. unfold chareqb. rewrite !bool_decide_eq_false_2 by done.
    destruct (N.ltb_spec (N_of_ascii c) 32); [lia|]. rewrite IH by (simpl in Hf; lia). done.
Qed.

Lemma json_value_plain s rest fuel :
  plain_json s → json_value (S fuel) (quoted_ s ++ rest) = Some (JString s, rest).
Proof.
  intros Hs. unfold quoted_. cbn [json_value app].
  change (skip (ch "034" :: (s ++ [ch "034"]) ++ rest)) with (ch "034" :: (s ++ [ch "034"]) ++ rest).
  cbn [chareqb]. rewrite <-(assoc_L (++)). simpl ([_] ++ rest).
  change (chareqb "034" "034") with true. cbn match.
  rewrite json_string_plain; [done|done|]. rewrite length_app. simpl. lia.
Qed.

Lemma json_elems_S fuel s :
  json_elems (S fuel) s =
  '(v, rest) ← json_value fuel s;
  match skip rest with
  | c :: rest =>
      if c =c "]" then Some ([v], rest)
      else if c =c "," then '(l, rest) ← json_elems fuel rest; Some (v :: l, rest)
      else None
  | [] => None
  end.
Proof. reflexivity. Qed.

Lemma json_elems_plain l rest fuel :
  l ≠ [] → Forall plain_json l → 2 * length l <= fuel →
  json_elems fuel (Join (quoted_ <$> l) "," ++ ch "]" :: rest) = Some (JString <$> l, rest).
Proof.
  intros Hne Hl. revert fuel. induction Hl as [|s l Hs Hl IH]; intros fuel Hf; [done|].
  destruct fuel as [|[|fuel]]; [simpl in Hf; lia..|]. destruct l as [|t l].
  - cbn [fmap list_fmap Join json_elems]. by rewrite json_value_plain.
  - change (Join (quoted_ <$> (s :: t :: l)) ",") with (quoted_ s ++ ch "," :: Join (quoted_ <$> (t :: l)) ",").
    rewrite <-(assoc_L (++)), json_elems_S, json_value_plain by done.
    change (('(l, rest) ← json_elems (S fuel) (Join (quoted_ <$> (t :: l)) "," ++ ch "]" :: rest); Some (JString s :: l, rest))
            = Some (JString <$> s :: t :: l, rest)).
    rewrite IH; [done|done|]. simpl in *. lia.
Qed.

(** The exec form decodes to its strings, whatever follows it. *)
Lemma Decode_strings l rest :
  Forall plain_json l → Decode (exec_form l ++ rest) = Some (JArray (JString <$> l)).
Proof.
  intros Hl. unfold Decode, decode_fuel, exec_form.
  assert (Hlen : 2 * length l <= 2 * length (Join (quoted_ <$> l) ",")).
  { clear. induction l as [|s l IH]; [done|]. destruct l as [|t l]; [simpl; lia|].
    change (Join (quoted_ <$> (s :: t :: l)) ",") with (quoted_ s ++ ch "," :: Join (quoted_ <$> (t :: l)) ",").
    rewrite length_app. simpl in *. lia. }
  simpl app. cbn [length]. rewrite !length_app. set (n := 2 * _ + 2). rewrite <-(assoc_L (++)). simpl ("]" ++ rest).
  assert (Hn : ∃ f, n = S f ∧ 2 * length l <= f) by (eexists (pred n); unfold n; simpl; lia).
  destruct Hn as (f & -> & Hf). cbn [json_value].
  change (skip (ch "[" :: _)) with (ch "[" :: Join (quoted_ <$> l) "," ++ ch "]" :: rest). cbn match.
  change (ch "[" =c "034") with false. change (ch "[" =c "[") with true. cbn match.
  destruct l as [|s l]; [done|].
  rewrite (json_elems_plain _ rest) by done.
  by destruct l.
Qed.
