(* ===== verification/Utf8.v ===== *)
(** * Utf8: runes

    What the program uses of [unicode/utf8]: the decoding of a text rune by rune, with the
    replacement character for bytes that are no UTF-8, which is what [encoding/json] and
    [text/scanner] make of them. *)

From S2P Require Import Prelude Json.
Import Strings Json.

Module Utf8.

Definition RuneError : N := 0xFFFD.
Definition between (lo hi : N) (c : ascii) : bool := (lo <=? N_of_ascii c)%N && (N_of_ascii c <=? hi)%N.
Definition cont : ascii → bool := between 0x80 0xBF.
Definition low (c : ascii) : N := (N_of_ascii c - 128)%N.
(** [utf8.DecodeRune]: the first rune and its width; a byte that starts no rune is an
    error of width one. *)
Definition DecodeRune (s : gostring) : N * nat :=
  match s with
  | [] => (RuneError, 0)
  | c :: t =>
      let n := N_of_ascii c in
      if (n <? 0x80)%N then (n, 1)
      else if between 0xC2 0xDF c then
        match t with
        | d :: _ => if cont d then (((n - 0xC0) * 64 + low d)%N, 2) else (RuneError, 1)
        | _ => (RuneError, 1)
        end
      else if between 0xE0 0xEF c then
        match t with
        | d :: e :: _ =>
            if between (if (n =? 0xE0)%N then 0xA0 else 0x80) (if (n =? 0xED)%N then 0x9F else 0xBF) d && cont e
            then ((((n - 0xE0) * 64 + low d) * 64 + low e)%N, 3) else (RuneError, 1)
        | _ => (RuneError, 1)
        end
      else if between 0xF0 0xF4 c then
        match t with
        | d :: e :: f :: _ =>
            if between (if (n =? 0xF0)%N then 0x90 else 0x80) (if (n =? 0xF4)%N then 0x8F else 0xBF) d && cont e && cont f
            then (((((n - 0xF0) * 64 + low d) * 64 + low e) * 64 + low f)%N, 4) else (RuneError, 1)
        | _ => (RuneError, 1)
        end
      else (RuneError, 1)
  end.
(** A text rune by rune. *)
Fixpoint by_rune (piece : N → gostring → gostring) (fuel : nat) (s : gostring) : gostring :=
  match fuel, s with
  | S fuel, _ :: _ => let '(c, size) := DecodeRune s in piece c (take size s) ++ by_rune piece fuel (drop size s)
  | _, _ => []
  end.
Definition invalid (c : N) (b : gostring) : bool := (c =? RuneError)%N && (length b =? 1)%nat.
(** The text with the replacement character for every byte that is not UTF-8. *)
Definition sanitize (s : gostring) : gostring := by_rune (fun c b => if invalid c b then utf8 RuneError else b) (length s) s.
Fixpoint valid_loop (fuel : nat) (s : gostring) : bool :=
  match fuel, s with
  | S fuel, _ :: _ => let '(c, size) := DecodeRune s in negb (invalid c (take size s)) && valid_loop fuel (drop size s)
  | _, _ => true
  end.
Definition Valid (s : gostring) : bool := valid_loop (length s) s.
End Utf8.

Import Utf8.

(** ** Runes *)

Local Ltac Zify.zify_post_hook ::= Z.to_euclidean_division_equations.

Section runes.
  Implicit Types (s t rest : gostring) (c : N).

Definition high (a : ascii) : Prop := (128 <= N_of_ascii a)%N.
Lemma between_spec lo hi a : between lo hi a = true ↔ (lo <= N_of_ascii a <= hi)%N.
Proof. unfold between. rewrite andb_true_iff, !N.leb_le. done. Qed.
(** The first rune of a text: a byte below 128, an error, or two to four bytes that are
    not below and that the code point determines. *)
Inductive rune : gostring → N → gostring → Prop :=
| rune_ascii a t : (N_of_ascii a < 128)%N → rune (a :: t) (N_of_ascii a) [a]
| rune_error a t : high a → rune (a :: t) RuneError [a]
| rune_wide b t c : (2 <= length b)%nat → Forall high b → b = utf8 c → rune (b ++ t) c b.
Lemma utf8_2 a d : between 0xC2 0xDF a = true → cont d = true → [a; d] = utf8 ((N_of_ascii a - 0xC0) * 64 + low d).
Proof.
  intros Ha%between_spec Hd%between_spec. unfold utf8, low. set (n := N_of_ascii a) in *. set (m := N_of_ascii d) in *.
  destruct (N.ltb_spec ((n - 192) * 64 + (m - 128)) 128); [lia|]. destruct (N.ltb_spec ((n - 192) * 64 + (m - 128)) 2048); [|lia].
  replace (192 + ((n - 192) * 64 + (m - 128)) / 64)%N with n by lia. replace (128 + ((n - 192) * 64 + (m - 128)) mod 64)%N with m by lia.
  unfold n, m. by rewrite !ascii_N_embedding.
Qed.
Lemma utf8_3 a d e : between 0xE0 0xEF a = true → between (if (N_of_ascii a =? 0xE0)%N then 0xA0 else 0x80) (if (N_of_ascii a =? 0xED)%N then 0x9F else 0xBF) d = true → cont e = true →
  [a; d; e] = utf8 (((N_of_ascii a - 0xE0) * 64 + low d) * 64 + low e).
Proof.
  intros Ha%between_spec Hd%between_spec He%between_spec. unfold utf8, low. set (n := N_of_ascii a) in *. set (m := N_of_ascii d) in *. set (k := N_of_ascii e) in *.
  set (c := (((n - 224) * 64 + (m - 128)) * 64 + (k - 128))%N).
  assert (0x800 <= c < 0x10000)%N by (unfold c; destruct (N.eqb_spec n 224), (N.eqb_spec n 237); lia).
  assert (0x80 <= m <= 0xBF)%N by (destruct (N.eqb_spec n 224), (N.eqb_spec n 237); lia).
  destruct (N.ltb_spec c 128); [lia|]. destruct (N.ltb_spec c 2048); [lia|]. destruct (N.ltb_spec c 65536); [|lia]. unfold c in *.
  replace (224 + (((n - 224) * 64 + (m - 128)) * 64 + (k - 128)) / 4096)%N with n by lia.
  replace (128 + (((n - 224) * 64 + (m - 128)) * 64 + (k - 128)) / 64 mod 64)%N with m by lia.
  replace (128 + (((n - 224) * 64 + (m - 128)) * 64 + (k - 128)) mod 64)%N with k by lia. unfold n, m, k. by rewrite !ascii_N_embedding.
Qed.
Lemma utf8_4 a d e f : between 0xF0 0xF4 a = true → between (if (N_of_ascii a =? 0xF0)%N then 0x90 else 0x80) (if (N_of_ascii a =? 0xF4)%N then 0x8F else 0xBF) d = true → cont e = true → cont f = true →
  [a; d; e; f] = utf8 ((((N_of_ascii a - 0xF0) * 64 + low d) * 64 + low e) * 64 + low f).
Proof.
  intros Ha%between_spec Hd%between_spec He%between_spec Hf%between_spec. unfold utf8, low.
  set (n := N_of_ascii a) in *. set (m := N_of_ascii d) in *. set (k := N_of_ascii e) in *. set (l := N_of_ascii f) in *.
  set (c := ((((n - 240) * 64 + (m - 128)) * 64 + (k - 128)) * 64 + (l - 128))%N).
  assert (0x80 <= m <= 0xBF)%N by (destruct (N.eqb_spec n 240), (N.eqb_spec n 244); lia).
  assert (0x10000 <= c)%N by (unfold c; destruct (N.eqb_spec n 240), (N.eqb_spec n 244); lia).
  destruct (N.ltb_spec c 128); [lia|]. destruct (N.ltb_spec c 2048); [lia|]. destruct (N.ltb_spec c 65536); [lia|]. unfold c in *.
  replace (240 + ((((n - 240) * 64 + (m - 128)) * 64 + (k - 128)) * 64 + (l - 128)) / 262144)%N with n by lia.
  replace (128 + ((((n - 240) * 64 + (m - 128)) * 64 + (k - 128)) * 64 + (l - 128)) / 4096 mod 64)%N with m by lia.
  replace (128 + ((((n - 240) * 64 + (m - 128)) * 64 + (k - 128)) * 64 + (l - 128)) / 64 mod 64)%N with k by lia.
  replace (128 + ((((n - 240) * 64 + (m - 128)) * 64 + (k - 128)) * 64 + (l - 128)) mod 64)%N with l by lia. unfold n, m, k, l. by rewrite !ascii_N_embedding.
Qed.
Lemma cont_high a : cont a = true → high a.
Proof. intros H%between_spec. unfold high. lia. Qed.
Lemma between_high lo hi a : (128 <= lo)%N → between lo hi a = true → high a.
Proof. intros Hl H%between_spec. unfold high. lia. Qed.
Lemma DecodeRune_rune a t : let '(c, size) := DecodeRune (a :: t) in rune (a :: t) c (take size (a :: t)) ∧ (1 <= size <= length (a :: t))%nat.
Proof.
  cbn [DecodeRune]. destruct (N.ltb_spec (N_of_ascii a) 128) as [Hl|Hl]; [split; [by constructor|simpl; lia]|].
  assert (Herr : rune (a :: t) RuneError (take 1 (a :: t)) ∧ (1 <= 1 <= length (a :: t))%nat) by (split; [by constructor|simpl; lia]).
  destruct (between 0xC2 0xDF a) eqn:H2.
  { destruct t as [|d t]; [done|]. destruct (cont d) eqn:Hd; [|done]. split; [|simpl; lia]. apply (rune_wide [a; d]); [simpl; lia| |by apply utf8_2].
    repeat constructor; [done|by apply cont_high]. }
  destruct (between 0xE0 0xEF a) eqn:H3.
  { destruct t as [|d [|e t]]; [done..|]. destruct (between _ _ d) eqn:Hd; [|done]. destruct (cont e) eqn:He; [|done]. simpl. split; [|lia].
    apply (rune_wide [a; d; e]); [simpl; lia| |by apply utf8_3]. repeat constructor; [done| |by apply cont_high].
    eapply between_high; [|exact Hd]. destruct (_ =? 224)%N; lia. }
  destruct (between 0xF0 0xF4 a) eqn:H4; [|done].
  destruct t as [|d [|e [|f t]]]; [done..|]. destruct (between _ _ d) eqn:Hd; [|done]. destruct (cont e) eqn:He; [|done]. destruct (cont f) eqn:Hf; [|done]. simpl. split; [|lia].
  apply (rune_wide [a; d; e; f]); [simpl; lia| |by apply utf8_4]. repeat constructor; [done| |by apply cont_high..].
  eapply between_high; [|exact Hd]. destruct (_ =? 240)%N; lia.
Qed.

(** A rune and what is behind it. *)
Lemma DecodeRune_split s : s ≠ [] → ∃ c b t, DecodeRune s = (c, length b) ∧ s = b ++ t ∧ rune s c b ∧ (1 <= length b)%nat.
Proof.
  intros Hs. destruct s as [|a s]; [done|]. pose proof (DecodeRune_rune a s) as H. destruct (DecodeRune (a :: s)) as [c size]. destruct H as [Hr Hsize].
  exists c, (take size (a :: s)), (drop size (a :: s)). rewrite length_take, take_drop. split_and!; [f_equal; lia|done|done|lia].
Qed.
Lemma by_rune_fuel piece n s : (length s <= n)%nat → by_rune piece n s = by_rune piece (length s) s.
Proof.
  remember (length s) as m eqn:Hm. revert n s Hm. induction (lt_wf m) as [m _ IH]. intros n s -> Hn.
  destruct s as [|a s]; [by destruct n|]. destruct n as [|n]; [simpl in Hn; lia|]. cbn [by_rune length].
  destruct (DecodeRune_split (a :: s)) as (c&b&t&->&Hs&_&Hb); [done|]. f_equal. rewrite Hs, drop_app_length.
  assert (length b + length t = S (length s))%nat by (rewrite <-length_app, <-Hs; done).
  rewrite (IH (length t) ltac:(simpl; lia) n t eq_refl), (IH (length t) ltac:(simpl; lia) (length s) t eq_refl) by (simpl in *; lia). done.
Qed.
Lemma by_rune_step piece c b t : DecodeRune (b ++ t) = (c, length b) → (1 <= length b)%nat → by_rune piece (length (b ++ t)) (b ++ t) = piece c b ++ by_rune piece (length t) t.
Proof.
  intros Hd Hb. destruct b as [|a b]; [simpl in Hb; lia|]. simpl app in *. simpl length at 1. cbn [by_rune]. rewrite Hd. simpl. rewrite take_app_length, drop_app_length. f_equal.
  apply by_rune_fuel. rewrite length_app. lia.
Qed.
(** Induction on a text rune by rune. *)
Lemma text_rune_ind (P : gostring → Prop) :
  P [] → (∀ c b t, DecodeRune (b ++ t) = (c, length b) → rune (b ++ t) c b → (1 <= length b)%nat → P t → P (b ++ t)) → ∀ s, P s.
Proof.
  intros Hnil Hstep s. remember (length s) as m eqn:Hm. revert s Hm. induction (lt_wf m) as [m _ IH]. intros s ->.
  destruct (decide (s = [])) as [->|Hne]; [done|]. destruct (DecodeRune_split s Hne) as (c&b&t&Hd&->&Hr&Hb). apply (Hstep c); [done..|].
  eapply IH; [|done]. rewrite length_app. lia.
Qed.

(** ** Replacement *)

Definition clean_rune c (b : gostring) : gostring := if invalid c b then utf8 RuneError else b.
Lemma sanitize_step c b t : DecodeRune (b ++ t) = (c, length b) → (1 <= length b)%nat → sanitize (b ++ t) = clean_rune c b ++ sanitize t.
Proof. apply by_rune_step. Qed.

(** Text in UTF-8 is not changed. *)
Lemma valid_step c b t n : DecodeRune (b ++ t) = (c, length b) → (1 <= length b)%nat → (length (b ++ t) <= n)%nat → valid_loop n (b ++ t) = true → invalid c b = false ∧ valid_loop (pred n) t = true.
Proof.
  intros Hd Hb Hn. destruct b as [|a b]; [simpl in Hb; lia|]. destruct n as [|n]; [simpl in Hn; lia|]. simpl app in *. cbn [valid_loop]. rewrite Hd.
  change (a :: b ++ t) with ((a :: b) ++ t). rewrite take_app_length, drop_app_length, andb_true_iff, negb_true_iff. done.
Qed.
Lemma Valid_sanitize s : Valid s = true → sanitize s = s.
Proof.
  unfold Valid. generalize (Nat.le_refl (length s)). generalize (length s) at 2 3 as n. induction s as [|c b t Hd Hr Hb IH] using text_rune_ind; intros n Hn Hv; [done|].
  destruct (valid_step c b t n Hd Hb Hn Hv) as [Hi Ht]. rewrite (sanitize_step c) by done. unfold clean_rune. rewrite Hi, (IH (pred n)); [done| |done]. rewrite length_app in Hn. lia.
Qed.
(** Bytes below 128 are runes. *)
Lemma ascii_Valid s : Forall (fun a => (N_of_ascii a < 128)%N) s → Valid s = true.
Proof.
  unfold Valid. generalize (length s) as n. intros n Hs. revert n. induction Hs as [|a s Ha Hs IH]; intros n; [by destruct n|].
  destruct n as [|n]; [done|]. cbn [valid_loop DecodeRune]. destruct (N.ltb_spec (N_of_ascii a) 128); [|lia].
  change (take 1 (a :: s)) with [a]. change (drop 1 (a :: s)) with s. rewrite IH. unfold invalid.
  destruct (N.eqb_spec (N_of_ascii a) RuneError) as [E|]; [unfold RuneError in E; lia|done].
Qed.

(** *** Pieces of a text *)

(** A byte below 128 ends the rune before it. *)
Lemma DecodeRune_ascii s a t : (N_of_ascii a < 128)%N → s ≠ [] → DecodeRune (s ++ a :: t) = DecodeRune s.
Proof.
  intros Ha. assert (Hb : ∀ lo hi, (128 <= lo)%N → between lo hi a = false) by (intros lo hi Hlo; unfold between; destruct (N.leb_spec lo (N_of_ascii a)); [lia|done]).
  assert (Hc : cont a = false) by (apply Hb; lia).
  assert (Hif : ∀ (b : bool) x y, (128 <= x)%N → (128 <= y)%N → (128 <= if b then x else y)%N) by (by intros []).
  intros Hs. destruct s as [|x s]; [done|]. cbn [DecodeRune app].
  destruct (N_of_ascii x <? 128)%N; [done|]. destruct (between 194 223 x); [destruct s; [|done]; simpl; by rewrite ?Hc|].
  destruct (between 224 239 x); [destruct s as [|b [|c s]]; [destruct t as [|u t]; simpl; rewrite ?Hb by (apply Hif; lia); done| |done]; simpl; rewrite ?Hc, ?andb_false_r; done|].
  destruct (between 240 244 x); [|done]. destruct s as [|b [|c [|d s]]]; [| | |done].
  - destruct t as [|u [|v t]]; simpl; rewrite ?Hb by (apply Hif; lia); done.
  - destruct t as [|u t]; simpl; rewrite ?Hc, ?andb_false_r; done.
  - simpl. rewrite Hc, ?andb_false_r. done.
Qed.
Lemma sanitize_cons a t : (N_of_ascii a < 128)%N → sanitize (a :: t) = a :: sanitize t.
Proof.
  intros Ha. change (a :: t) with ([a] ++ t). rewrite (sanitize_step (N_of_ascii a)); [|simpl; by destruct (N.ltb_spec (N_of_ascii a) 128); [|lia]|simpl; lia].
  unfold clean_rune, invalid. destruct (N.eqb_spec (N_of_ascii a) RuneError) as [E|]; [unfold RuneError in E; lia|done].
Qed.
Lemma sanitize_mid s a t : (N_of_ascii a < 128)%N → sanitize (s ++ a :: t) = sanitize s ++ a :: sanitize t.
Proof.
  intros Ha. induction s as [|c b u Hd Hr Hb IH] using text_rune_ind; [by apply sanitize_cons|].
  rewrite <-app_assoc. rewrite (sanitize_step c b u) by done. rewrite (sanitize_step c b); [by rewrite IH, <-app_assoc| |done].
  rewrite app_assoc, DecodeRune_ascii; [done|done|]. intros H. apply app_nil in H as [-> _]. simpl in Hb. lia.
Qed.
Lemma sanitize_ascii u t : Forall (fun a => (N_of_ascii a < 128)%N) u → sanitize (u ++ t) = u ++ sanitize t.
Proof. induction 1 as [|a u Ha _ IH]; [done|]. cbn [app]. by rewrite sanitize_cons, IH. Qed.
Lemma sanitize_Forall (P : ascii → Prop) s : Forall P (utf8 RuneError) → Forall P s → Forall P (sanitize s).
Proof.
  intros HP. induction s as [|c b t Hd Hr Hb IH] using text_rune_ind; intros Hs; [done|]. apply Forall_app in Hs as [Hs1 Hs2].
  rewrite (sanitize_step c) by done. apply Forall_app. split; [unfold clean_rune; by destruct (invalid c b)|auto].
Qed.

(** ** In a string literal of JSON *)

(** A piece of a string literal: [k] steps read [out] from [txt]. *)
Definition emits (txt out : gostring) (k : nat) : Prop :=
  ∀ fuel rest, json_string (k + fuel) (txt ++ rest) = ('(t, r) ← json_string fuel rest; Some (out ++ t, r)).
Lemma emits_high b : Forall high b → emits b b (length b).
Proof.
  intros Hb fuel rest. induction Hb as [|a b Ha Hb IH]; simpl; [by destruct (json_string fuel rest) as [[]|]|].
  assert (a =c "034" = false) as -> by (apply bool_decide_eq_false; intros ->; done). assert (a =c "\" = false) as -> by (apply bool_decide_eq_false; intros ->; done).
  unfold high in Ha. destruct (N.ltb_spec (N_of_ascii a) 32); [lia|]. rewrite IH. by destruct (json_string fuel rest) as [[]|].
Qed.
End runes.
