(* ===== verification/Dockerfile.v ===== *)
(** * Dockerfile: the Dockerfile parser

    Models [src/builder/dockerfile/parser]: the word splitters and line parsers
    ([line_parsers.go]), the command splitter and builder flags ([utils.go]) and
    the main loop ([parser.go]).  Pointers to nodes that may be nil are options.

    The word splitters of the source look at bytes but append the byte as a code
    point ([word += string(ch)] with [ch = rune(line[pos])]); this is modelled
    ([rune_string], [byte_space]).  Elsewhere characters are ASCII. *)

From S2P Require Import Prelude Strconv Json Opts.
Import Strings Json.

Local Open Scope Z_scope.

Module Dockerfile.

(** ** Nodes *)

Inductive Node := mkNode {
  Value : gostring;
  Next : option Node;
  Children : list (option Node);
  Attributes : gmap gostring bool;
  Original : gostring;
  Flags : list gostring;
  StartLine : Z;
  EndLine : Z
}.

(** [&Node{Value: v, Next: next}]. *)
Definition leaf (v : gostring) (next : option Node) : Node := mkNode v next [] ∅ [] [] 0 0.
(** Nodes linked by [Next]. *)
Fixpoint chain (vs : list gostring) : option Node :=
  match vs with [] => None | v :: vs => Some (leaf v (chain vs)) end.
Fixpoint next_values (fuel : nat) (n : option Node) : list gostring :=
  match fuel, n with
  | S fuel, Some n => Value n :: next_values fuel (Next n)
  | _, _ => []
  end.

Inductive parse_error :=
| errDockerfileNotStringArray
| ParseError (e : goerror)
| NoFuel.
Definition parsed := result parse_error (option Node * gmap gostring bool).

(** ** Words *)

(** [unicode.IsSpace] and [string] of a byte taken as a code point. *)
Definition byte_space (c : ascii) : bool :=
  IsSpace c || bool_decide (N_of_ascii c ∈ [133; 160]%N).
Definition rune_string (c : ascii) : gostring := utf8 (N_of_ascii c).

Inductive phase := inSpaces | inWord | inQuote.
Definition is_quote (c : ascii) : bool := (c =c "'") || (c =c "034").
(** Ending a word: it is kept when not empty, or when quotes were seen. *)
Definition push_word (words : list gostring) (word : gostring) (blankOK : bool) : list gostring :=
  if blankOK || negb (word =s []) then words ++ [word] else words.

(** The loop of [parseWords]; quotes and escapes are kept in the words. *)
Fixpoint parse_words (rest : gostring) (ph : phase) (word : gostring) (quote : ascii) (blankOK : bool)
    (words : list gostring) : list gostring :=
  match rest with
  | [] => match ph with inSpaces => words | _ => push_word words word blankOK end
  | c :: rest =>
      let in_word (_ : unit) :=
        if is_quote c then parse_words rest inQuote (word ++ rune_string c) c true words
        else if c =c "\" then
          match rest with
          | [] => parse_words rest inWord word quote blankOK words
          | d :: rest => parse_words rest inWord (word ++ rune_string c ++ rune_string d) quote blankOK words
          end
        else parse_words rest inWord (word ++ rune_string c) quote blankOK words in
      match ph with
      | inSpaces => if byte_space c then parse_words rest inSpaces word quote blankOK words else in_word tt
      | inWord =>
          if byte_space c then parse_words rest inSpaces [] quote false (push_word words word blankOK)
          else in_word tt
      | inQuote =>
          let ph := if c =c quote then inWord else inQuote in
          if (c =c "\") && negb (quote =c "'") then
            match rest with
            | [] => parse_words rest inWord word quote blankOK words
            | d :: rest => parse_words rest ph (word ++ rune_string c ++ rune_string d) quote blankOK words
            end
          else parse_words rest ph (word ++ rune_string c) quote blankOK words
      end
  end.
Definition parseWords (rest : gostring) : list gostring := parse_words rest inSpaces [] "000" false [].

(** The loop of [extractBuilderFlags]: leading words that start with two dashes;
    the remaining line and the words. *)
Fixpoint builder_flags (line : gostring) (ph : phase) (word : gostring) (quote : ascii) (blankOK : bool)
    (words : list gostring) : gostring * list gostring :=
  match line with
  | [] =>
      match ph with
      | inSpaces => ([], words)
      | _ => ([], if negb (word =s "--") then push_word words word blankOK else words)
      end
  | c :: rest =>
      let in_word (_ : unit) :=
        if is_quote c then builder_flags rest inQuote word c true words
        else if c =c "\" then
          match rest with
          | [] => builder_flags rest inWord word quote blankOK words
          | d :: rest => builder_flags rest inWord (word ++ rune_string d) quote blankOK words
          end
        else builder_flags rest inWord (word ++ rune_string c) quote blankOK words in
      match ph with
      | inSpaces =>
          if byte_space c then builder_flags rest inSpaces word quote blankOK words
          else if negb (c =c "-") || negb (HasPrefix rest "-") then (line, words)
          else in_word tt
      | inWord =>
          if byte_space c then
            if word =s "--" then (line, words)
            else builder_flags rest inSpaces [] quote false (push_word words word blankOK)
          else in_word tt
      | inQuote =>
          if c =c quote then builder_flags rest inWord word quote blankOK words
          else if c =c "\" then
            match rest with
            | [] => builder_flags rest inWord word quote blankOK words
            | d :: rest => builder_flags rest inQuote (word ++ rune_string d) quote blankOK words
            end
          else builder_flags rest inQuote (word ++ rune_string c) quote blankOK words
      end
  end.
Definition extractBuilderFlags (line : gostring) : gostring * list gostring :=
  builder_flags line inSpaces [] "000" false [].

(** ** [tokenWhitespace.Split] *)

Definition ws (c : ascii) : bool := bool_decide (c ∈ [ch " "; "009"; "011"; "012"; "013"]%char).
Fixpoint ws_cut (s : gostring) : option (gostring * gostring) :=
  match s with
  | [] => None
  | c :: s => if ws c then Some ([], drop_while ws s) else '(a, b) ← ws_cut s; Some (c :: a, b)
  end.
Definition ws_split2 (s : gostring) : list gostring :=
  match ws_cut s with Some (a, b) => [a; b] | None => [s] end.
(** All parts: a run of white space ends the current part at its last character. *)
Fixpoint ws_parts (cur : gostring) (s : gostring) : list gostring :=
  match s with
  | [] => [rev cur]
  | c :: rest =>
      if ws c then
        match rest with
        | d :: _ => if ws d then ws_parts cur rest else rev cur :: ws_parts [] rest
        | [] => [rev cur; []]
        end
      else ws_parts (c :: cur) rest
  end.
Definition ws_split (s : gostring) : list gostring := ws_parts [] s.

(** ** Line parsers *)

Definition no_attrs : gmap gostring bool := ∅.
Definition parseIgnore (rest : gostring) : parsed := Ok (Some (leaf [] None), no_attrs).

(** [parseNameVal]: the old form [KEY name value], or [KEY name=value ...]. *)
Definition name_value (word : gostring) : result parse_error (list gostring) :=
  match Cut "=" word with
  | None => Err (ParseError (Errorf "Syntax error - can't find = in %q. Must be of the form: name=value" [word]))
  | Some (n, v) => Ok [n; v]
  end.
Definition parseNameVal (rest key : gostring) : parsed :=
  match parseWords rest with
  | [] => Ok (None, no_attrs)
  | w :: ws =>
      if negb (Contains w "=") then
        match ws_split2 rest with
        | [n; v] => Ok (chain [n; v], no_attrs)
        | _ => Err (ParseError (Errorf (key ++ " must have two arguments") []))
        end
      else let! kvs := rmapM name_value (w :: ws) in Ok (chain (concat kvs), no_attrs)
  end.
Definition parseEnv (rest : gostring) : parsed := parseNameVal rest "ENV".
Definition parseLabel (rest : gostring) : parsed := parseNameVal rest "LABEL".
Definition parseNameOrNameVal (rest : gostring) : parsed := Ok (chain (parseWords rest), no_attrs).
Definition parseStringsWhitespaceDelimited (rest : gostring) : parsed :=
  if decide (rest = []) then Ok (None, no_attrs) else Ok (chain (ws_split rest), no_attrs).
Definition parseString (rest : gostring) : parsed :=
  if decide (rest = []) then Ok (None, no_attrs) else Ok (Some (leaf rest None), no_attrs).

Definition json_str (j : json) : result parse_error gostring :=
  match j with JString s => Ok s | _ => Err errDockerfileNotStringArray end.
Definition parseJSON (rest : gostring) : parsed :=
  let rest := TrimLeftFunc rest IsSpace in
  if negb (HasPrefix rest "[") then Err (ParseError (Errorf "Error parsing %s as a JSON array" [rest]))
  else match Decode rest with
       | Some (JArray l) => let! vs := rmapM json_str l in Ok (chain vs, {["json" := true]})
       | _ => Err (ParseError (Errorf "invalid JSON" [rest]))
       end.
Definition parseMaybeJSON (rest : gostring) : parsed :=
  if decide (rest = []) then Ok (None, no_attrs)
  else match parseJSON rest with
       | Ok r => Ok r
       | Err errDockerfileNotStringArray => Err errDockerfileNotStringArray
       | Err _ => Ok (Some (leaf rest None), no_attrs)
       end.
Definition parseMaybeJSONToList (rest : gostring) : parsed :=
  match parseJSON rest with
  | Ok r => Ok r
  | Err errDockerfileNotStringArray => Err errDockerfileNotStringArray
  | Err _ => parseStringsWhitespaceDelimited rest
  end.
(** [parseSubCommand], given [parseLine]. *)
Definition parseSubCommand (parseLine : gostring → result parse_error (gostring * option Node)) (rest : gostring) : parsed :=
  if decide (rest = []) then Ok (None, no_attrs)
  else let! (_, child) := parseLine rest in
       Ok (Some (mkNode [] None [child] ∅ [] [] 0 0), no_attrs).

(** [fullDispatch] with the table of [init]. *)
Definition fullDispatch (parseLine : gostring → result parse_error (gostring * option Node)) (cmd args : gostring) : parsed :=
  if bool_decide (cmd ∈ ["user"; "workdir"; "maintainer"; "from"; "stopsignal"]) then parseString args
  else if cmd =s "onbuild" then parseSubCommand parseLine args
  else if cmd =s "env" then parseEnv args
  else if cmd =s "label" then parseLabel args
  else if bool_decide (cmd ∈ ["add"; "copy"; "volume"]) then parseMaybeJSONToList args
  else if bool_decide (cmd ∈ ["run"; "cmd"; "entrypoint"]) then parseMaybeJSON args
  else if cmd =s "expose" then parseStringsWhitespaceDelimited args
  else if cmd =s "arg" then parseNameOrNameVal args
  else parseIgnore args.

(** ** Lines *)

Definition splitCommand (line : gostring) : gostring * list gostring * gostring :=
  match ws_split2 (TrimSpace line) with
  | [c; r] => let '(args, flags) := extractBuilderFlags r in (ToLower c, flags, TrimSpace args)
  | c :: _ => (ToLower c, [], [])
  | [] => ([], [], [])
  end.
Definition stripComments (line : gostring) : gostring := if HasPrefix line "#" then [] else line.

(** [tokenLineContinuation]: a backslash and blanks at the end, and the line without. *)
Definition continuation (line : gostring) : option gostring :=
  match drop_while (fun c => bool_decide (c ∈ [ch " "; "009"]%char)) (rev line) with
  | c :: l => if c =c "\" then Some (rev l) else None
  | [] => None
  end.

Fixpoint parse_line (fuel : nat) (line : gostring) : result parse_error (gostring * option Node) :=
  match fuel with
  | O => Err NoFuel
  | S fuel =>
      let line := stripComments line in
      if decide (line = []) then Ok ([], None)
      else match continuation line with
      | Some l => Ok (l, None)
      | None =>
          let '(cmd, flags, args) := splitCommand line in
          let! (sexp, attrs) := fullDispatch (parse_line fuel) cmd args in
          Ok ([], Some (mkNode cmd sexp [] attrs line flags 0 0))
      end
  end.
Definition parseLine (line : gostring) : result parse_error (gostring * option Node) :=
  parse_line (S (length line)) line.

(** ** The main loop *)

Definition set_lines (s e : Z) (n : Node) : Node :=
  mkNode (Value n) (Next n) (Children n) (Attributes n) (Original n) (Flags n) s e.
Definition add_child (root child : Node) (startLine currentLine : Z) : Node :=
  mkNode (Value root) (Next root) (Children root ++ [Some (set_lines startLine currentLine child)])
    (Attributes root) (Original root) (Flags root)
    (if StartLine root <? 0 then currentLine else StartLine root) currentLine.

(** [pending] is the text of the inner loop, which joins continued lines, with the
    line number where it started. *)
Fixpoint parse_lines (lines : list gostring) (pending : option (gostring * Z)) (currentLine : Z) (root : Node)
    : result parse_error Node :=
  match lines with
  | [] =>
      match pending with
      | Some (line, startLine) =>
          if decide (line = []) then Ok root
          else let! (_, child) := parseLine line in
               Ok (match child with Some c => add_child root c startLine currentLine | None => root end)
      | None => Ok root
      end
  | text :: lines =>
      let currentLine := currentLine + 1 in
      match pending with
      | None =>
          let! (line, child) := parseLine (TrimLeftFunc text IsSpace) in
          match child with
          | Some c => parse_lines lines None currentLine (add_child root c currentLine currentLine)
          | None =>
              if decide (line = []) then parse_lines lines None currentLine root
              else parse_lines lines (Some (line, currentLine)) currentLine root
          end
      | Some (line, startLine) =>
          if decide (stripComments (TrimSpace text) = []) then parse_lines lines pending currentLine root
          else
            let! (line, child) := parseLine (line ++ text) in
            match child with
            | Some c => parse_lines lines None currentLine (add_child root c startLine currentLine)
            | None => parse_lines lines (Some (line, startLine)) currentLine root
            end
      end
  end.
Definition Parse (content : gostring) : result parse_error Node :=
  parse_lines (RunOpts.scan_lines content) None 0 (mkNode [] None [] ∅ [] [] (-1) 0).

End Dockerfile.

Import Dockerfile.

(** ** Nested instructions end: [ONBUILD] hands on a shorter line *)

Section termination.
Implicit Types (s line : gostring).

Lemma drop_while_length f s : (length (drop_while f s) ≤ length s)%nat.
Proof. destruct (drop_while_suffix f s) as (a & Hs & _). rewrite Hs at 2. rewrite length_app. lia. Qed.
Lemma TrimSpace_length s : (length (TrimSpace s) ≤ length s)%nat.
Proof.
  unfold TrimSpace, TrimFunc, TrimRightFunc, TrimLeftFunc. rewrite length_rev.
  etrans; [apply drop_while_length|]. rewrite length_rev. apply drop_while_length.
Qed.
Lemma ws_cut_length s a b : ws_cut s = Some (a, b) → (length b < length s)%nat.
Proof.
  revert a. induction s as [|c s IH]; intros a; simpl; [done|]. destruct (ws c).
  - intros [= <- <-]. pose proof (drop_while_length ws s). lia.
  - destruct (ws_cut s) as [[a' b']|]; simpl; [|done]. intros [= <- <-]. specialize (IH a' eq_refl). lia.
Qed.
(** Strong induction on the length, since escapes consume two characters. *)
Lemma builder_flags_length line : ∀ ph word quote blankOK words,
  (length (builder_flags line ph word quote blankOK words).1 ≤ length line)%nat.
Proof.
  induction line as [line IH] using (induction_ltof1 _ (@length ascii)). unfold ltof in IH. intros ph word quote blankOK words.
  destruct line as [|c rest]; simpl; [by destruct ph|].
  assert (Hr : ∀ ph word quote blankOK words,
    (length (builder_flags rest ph word quote blankOK words).1 ≤ S (length rest))%nat).
  { intros. etrans; [|apply Nat.le_succ_diag_r]. apply IH. simpl. lia. }
  assert (Hr2 : ∀ d r, rest = d :: r → ∀ ph word quote blankOK words,
    (length (builder_flags r ph word quote blankOK words).1 ≤ S (length rest))%nat).
  { intros d r -> ? ? ? ? ?. etrans; [apply IH|]; simpl; lia. }
  repeat case_match; simpl; eauto.
Qed.

Lemma splitCommand_length line cmd flags args :
  line ≠ [] → splitCommand line = (cmd, flags, args) → (length args < length line)%nat.
Proof.
  intros Hne. unfold splitCommand, ws_split2. destruct (ws_cut (TrimSpace line)) as [[a b]|] eqn:E.
  - pose proof (builder_flags_length b inSpaces [] "000" false []) as Hb. unfold extractBuilderFlags.
    destruct (builder_flags b _ _ _ _ _) as [r fl]. simpl in Hb. intros [= <- <- <-].
    pose proof (TrimSpace_length r). apply ws_cut_length in E. pose proof (TrimSpace_length line). lia.
  - intros [= <- <- <-]. destruct line; [done|]. simpl. lia.
Qed.

Lemma fullDispatch_ext f g cmd args : f args = g args → fullDispatch f cmd args = fullDispatch g cmd args.
Proof. intros H. unfold fullDispatch, parseSubCommand. by rewrite H. Qed.

Lemma stripComments_length line : (length (stripComments line) ≤ length line)%nat.
Proof. unfold stripComments. case_match; simpl; lia. Qed.

(** More fuel than characters changes nothing. *)
Lemma parse_line_fuel fuel line : (length line < fuel)%nat → parse_line fuel line = parseLine line.
Proof.
  intros Hf. unfold parseLine. revert Hf. generalize (Nat.lt_succ_diag_r (length line)).
  generalize (S (length line)) as fuel'. revert line.
  induction fuel as [|fuel IH]; intros line [|fuel'] Hf' Hf; try lia. simpl.
  pose proof (stripComments_length line). set (l := stripComments line) in *.
  case_decide as Hl; [done|]. destruct (continuation l); [done|].
  destruct (splitCommand l) as [[cmd flags] args] eqn:E. apply splitCommand_length in E; [|done].
  rewrite (fullDispatch_ext (parse_line fuel) (parse_line fuel')); [done|]. apply IH; lia.
Qed.

Lemma parsers_fuel args : parseMaybeJSON args ≠ Err NoFuel ∧ parseMaybeJSONToList args ≠ Err NoFuel ∧
  (∀ key, parseNameVal args key ≠ Err NoFuel).
Proof.
  assert (Hs : parseStringsWhitespaceDelimited args ≠ Err NoFuel) by (unfold parseStringsWhitespaceDelimited; by case_decide).
  split_and!.
  - unfold parseMaybeJSON. case_decide; [done|]. destruct (parseJSON args) as [|[]]; done.
  - unfold parseMaybeJSONToList. destruct (parseJSON args) as [|[]]; done.
  - intros key. unfold parseNameVal. destruct (parseWords args) as [|w l]; [done|].
    destruct (negb _); [by destruct (ws_split2 args) as [|? [|? [|]]]|].
    intros [H|(? & _ & [=])]%rbind_err. revert H. generalize (w :: l). clear.
    induction l as [|w l IH]; simpl; [done|]. unfold name_value. destruct (Cut "=" w) as [[]|]; [|done].
    simpl. intros [?|(? & _ & [=])]%rbind_err. done.
Qed.

Lemma fullDispatch_fuel f cmd args : f args ≠ Err NoFuel → fullDispatch f cmd args ≠ Err NoFuel.
Proof.
  intros H. destruct (parsers_fuel args) as (H1 & H2 & H3). unfold fullDispatch, parseEnv, parseLabel.
  unfold parseString, parseSubCommand, parseStringsWhitespaceDelimited, parseNameOrNameVal, parseIgnore.
  repeat (case_match; [first [apply H1|apply H2|apply H3|case_decide; [done|]|idtac]|]); try done.
  intros [?|([? ?] & _ & [=])]%rbind_err. done.
Qed.

Lemma parseLine_no_NoFuel line : parseLine line ≠ Err NoFuel.
Proof.
  induction line as [line IH] using (induction_ltof1 _ (@length ascii)). unfold ltof in IH. unfold parseLine. simpl.
  pose proof (stripComments_length line). set (l := stripComments line) in *.
  case_decide as Hl; [done|]. destruct (continuation l); [done|].
  destruct (splitCommand l) as [[cmd flags] args] eqn:E. apply splitCommand_length in E; [|done].
  intros [H'|([? ?] & _ & [=])]%rbind_err. revert H'. apply fullDispatch_fuel.
  rewrite parse_line_fuel by lia. apply IH. lia.
Qed.
End termination.

(** Parsing a Dockerfile always ends: the fuel, one more than the length of each line,
    is never exhausted, however deep [ONBUILD] instructions are nested. *)
Theorem Dockerfile_Parse_total content : Parse content ≠ Err NoFuel.
Proof.
  unfold Parse. generalize (RunOpts.scan_lines content) as lines.
  assert (H : ∀ lines pending cur root, parse_lines lines pending cur root ≠ Err NoFuel); [|intros; apply H].
  induction lines as [|text lines IH]; intros pending cur root; simpl.
  - destruct pending as [[line start]|]; [|done]. case_decide; [done|].
    intros [H'|([? ?] & _ & [=])]%rbind_err. by apply parseLine_no_NoFuel in H'.
  - destruct pending as [[line start]|].
    + case_decide; [done|]. intros [H'|([? ?] & _ & H')]%rbind_err; [by apply parseLine_no_NoFuel in H'|].
      by repeat case_match; apply IH in H'.
    + intros [H'|([? ?] & _ & H')]%rbind_err; [by apply parseLine_no_NoFuel in H'|].
      by repeat case_match; apply IH in H'.
Qed.

(** ** Line numbers *)

(** Nodes whose line ranges lie in (lo, hi], each after the one before it. *)
Fixpoint ordered (lo : Z) (l : list (option Node)) (hi : Z) : Prop :=
  match l with
  | [] => lo <= hi
  | Some c :: l => lo < StartLine c ∧ StartLine c <= EndLine c ∧ ordered (EndLine c) l hi
  | None :: _ => False
  end.

Lemma ordered_mono lo l hi hi' : ordered lo l hi → hi <= hi' → ordered lo l hi'.
Proof. revert lo. induction l as [|[c|] l IH]; intros lo; simpl; [lia| |done]. naive_solver. Qed.
Lemma ordered_snoc lo l mid c hi :
  ordered lo l mid → mid < StartLine c → StartLine c <= EndLine c → EndLine c <= hi → ordered lo (l ++ [Some c]) hi.
Proof.
  revert lo. induction l as [|[d|] l IH]; intros lo; simpl; [|naive_solver|done]. intros. split_and!; lia.
Qed.

(** The first and the last child determine the lines of the root. *)
Definition root_lines (root : Node) : Prop :=
  match Children root with
  | [] => StartLine root = -1
  | Some c :: _ => StartLine root = EndLine c ∧ 0 <= StartLine root
  | None :: _ => False
  end.

Lemma add_child_ok root c start cur mid :
  ordered 0 (Children root) mid → root_lines root → mid < start → start <= cur → 0 <= cur →
  ordered 0 (Children (add_child root c start cur)) cur ∧ root_lines (add_child root c start cur).
Proof.
  intros Ho Hr H1 H2 H3. unfold add_child. split; simpl.
  - by apply (ordered_snoc _ _ mid).
  - unfold root_lines in *. simpl. destruct (Children root) as [|[d|] l]; simpl; [| |done].
    + rewrite Hr. simpl. lia.
    + destruct (Z.ltb_spec (StartLine root) 0); [lia|done].
Qed.

Lemma parse_lines_ordered lines pending cur root root' :
  0 <= cur → ordered 0 (Children root) (match pending with Some (_, s) => s - 1 | None => cur end) → root_lines root →
  (match pending with Some (_, s) => 0 < s <= cur | None => True end) →
  parse_lines lines pending cur root = Ok root' →
  ordered 0 (Children root') (cur + Z.of_nat (length lines)) ∧ root_lines root'.
Proof.
  revert pending cur root. induction lines as [|text lines IH]; intros pending cur root Hc Ho Hr Hp.
  - simpl. rewrite Z.add_0_r. destruct pending as [[line start]|]; [|by intros [= <-]].
    case_decide; [intros [= <-]; split; [|done]; apply (ordered_mono _ _ _ _ Ho); lia|].
    intros ([l' child] & _ & [= <-])%rbind_ok. destruct child as [c|].
    + apply (add_child_ok _ _ _ _ _ Ho Hr); lia.
    + split; [|done]. apply (ordered_mono _ _ _ _ Ho). lia.
  - cbn [parse_lines length]. replace (cur + Z.of_nat (S (length lines))) with (cur + 1 + Z.of_nat (length lines)) by lia.
    destruct pending as [[line start]|].
    + case_decide; [apply IH; [lia|done|done|lia]|].
      intros ([l' child] & _ & Hk)%rbind_ok. destruct child as [c|].
      * destruct (add_child_ok root c start (cur + 1) _ Ho Hr) as [Ho' Hr']; [lia..|].
        revert Hk. apply IH; [lia|done|done|done].
      * revert Hk. apply IH; [lia|done|done|lia].
    + intros ([l' child] & _ & Hk)%rbind_ok. destruct child as [c|].
      * destruct (add_child_ok root c (cur + 1) (cur + 1) _ Ho Hr) as [Ho' Hr']; [lia..|].
        revert Hk. apply IH; [lia|done|done|done].
      * case_decide; revert Hk; apply IH; try done; try lia; (apply (ordered_mono _ _ _ _ Ho); lia).
Qed.

(** The instructions of a parsed Dockerfile are all present (no nil child), and their
    line ranges are non-empty, within the file, disjoint and in order. *)
Theorem Parse_line_ranges content root :
  Parse content = Ok root →
  ordered 0 (Children root) (Z.of_nat (length (RunOpts.scan_lines content))).
Proof.
  intros H. by apply parse_lines_ordered in H as [H _]; [|first [done|reflexivity|simpl; lia]..].
Qed.

Definition nl : gostring := ["010"%char].
Definition demo_file : gostring :=
  "FROM busybox" ++ nl ++ "# comment" ++ nl ++ "ENV a=1 \" ++ nl ++ "    b=2" ++ nl ++ "ONBUILD RUN make" ++ nl.
Lemma Parse_line_ranges_witness :
  match Parse demo_file with
  | Ok root => ordered 0 (Children root) (Z.of_nat (length (RunOpts.scan_lines demo_file))) ∧ length (Children root) = 3%nat
  | Err _ => False
  end.
Proof.
  destruct (Parse demo_file) as [root|] eqn:E.
  - split; [by apply Parse_line_ranges|].
    assert (H : (match Parse demo_file with Ok r => length (Children r) | Err _ => 0 end = 3)%nat) by (vm_compute; reflexivity).
    by rewrite E in H.
  - assert (H : is_ok (Parse demo_file) = true) by (vm_compute; reflexivity). by rewrite E in H.
Defined.

(** The starting line recorded for the whole file is the line where its first
    instruction ends, not the one where it starts: they differ as soon as the first
    instruction is continued on a second line. *)
Theorem Parse_root_start content root c rest :
  Parse content = Ok root → Children root = Some c :: rest → StartLine root = EndLine c.
Proof.
  intros H Hch. apply parse_lines_ordered in H as [_ Hr]; [|first [done|reflexivity|simpl; lia]..].
  unfold root_lines in Hr. rewrite Hch in Hr. by destruct Hr.
Qed.
Definition continued_file : gostring := "RUN echo \" ++ nl ++ " hello" ++ nl.
Lemma Parse_root_start_witness :
  match Parse continued_file with
  | Ok root => match Children root with
               | Some c :: _ => StartLine root = EndLine c ∧ EndLine c = 2 ∧ StartLine c = 1
               | _ => False
               end
  | Err _ => False
  end.
Proof.
  assert (Hv : match Parse continued_file with
               | Ok root => match Children root with Some c :: _ => bool_decide (EndLine c = 2 ∧ StartLine c = 1) | _ => false end
               | Err _ => false end = true) by (vm_compute; reflexivity).
  destruct (Parse continued_file) as [root|] eqn:E; [|done].
  destruct (Children root) as [|[c|] rest] eqn:Ec; [done| |done].
  apply bool_decide_eq_true in Hv. split; [exact (Parse_root_start _ _ _ _ E Ec)|exact Hv].
Defined.

(** ** Words written plainly *)

Section words.

(** ASCII, not a space, not a quote, not a backslash. *)
Definition plain_char (c : ascii) : Prop :=
  (N_of_ascii c < 128)%N ∧ IsSpace c = false ∧ is_quote c = false ∧ c ≠ ch "\".
Definition plain_word (w : gostring) : Prop := w ≠ [] ∧ Forall plain_char w.
#[global] Instance plain_char_dec c : Decision (plain_char c).
Proof. unfold plain_char. apply _. Defined.
#[global] Instance plain_word_dec w : Decision (plain_word w).
Proof. unfold plain_word. apply _. Defined.

Lemma plain_char_space c : plain_char c → byte_space c = false.
Proof.
  intros (H & Hs & _). unfold byte_space. rewrite Hs. simpl. apply bool_decide_eq_false.
  rewrite !elem_of_cons, elem_of_nil. lia.
Qed.
Lemma plain_char_rune c : plain_char c → rune_string c = [c].
Proof.
  intros (H & _). unfold rune_string, utf8. destruct (N.ltb_spec (N_of_ascii c) 128); [|lia].
  by rewrite ascii_N_embedding.
Qed.

Lemma parse_words_plain w rest word q b words :
  Forall plain_char w → parse_words (w ++ rest) inWord word q b words = parse_words rest inWord (word ++ w) q b words.
Proof.
  intros Hw. revert word. induction Hw as [|c w Hc _ IH]; intros word; [by rewrite app_nil_r|].
  cbn [app parse_words]. rewrite plain_char_space, plain_char_rune by done. destruct Hc as (_ & _ & Hq & Hb).
  rewrite Hq. unfold chareqb. rewrite bool_decide_eq_false_2 by done. rewrite IH. by rewrite <-(assoc_L (++)).
Qed.

Lemma parse_words_start w rest q words :
  plain_word w →
  parse_words (w ++ rest) inSpaces [] q false words = parse_words rest inWord w q false words.
Proof.
  intros [Hne Hw]. destruct Hw as [|c w Hc Hw]; [done|].
  cbn [app parse_words]. rewrite plain_char_space, plain_char_rune by done. destruct Hc as (_ & _ & Hq & Hb).
  rewrite Hq. unfold chareqb. rewrite bool_decide_eq_false_2 by done. simpl. by rewrite parse_words_plain.
Qed.

Lemma parseWords_Join ws words :
  Forall plain_word ws →
  parse_words (Join ws " ") inSpaces [] "000" false words = words ++ ws.
Proof.
  intros Hws. revert words. induction Hws as [|w l Hw Hl IH]; intros words; [by rewrite app_nil_r|].
  assert (Hpush : push_word words w false = words ++ [w]).
  { unfold push_word, streqb. destruct Hw as [Hne _]. by rewrite bool_decide_eq_false_2 by done. }
  destruct l as [|w' l].
  - cbn [Join]. rewrite <-(app_nil_r w) at 1. rewrite parse_words_start by done. simpl. done.
  - change (Join (w :: w' :: l) " ") with (w ++ ch " " :: Join (w' :: l) " ").
    rewrite parse_words_start by done. cbn [parse_words]. change (byte_space " ") with true. cbn match.
    rewrite Hpush, IH, <-(assoc_L (++)). done.
Qed.

Definition assignment (kv : gostring * gostring) : gostring := kv.1 ++ ch "=" :: kv.2.
Definition plain_assignment (kv : gostring * gostring) : Prop :=
  Forall plain_char kv.1 ∧ Forall plain_char kv.2 ∧ ch "=" ∉ kv.1.

Lemma name_values kvs :
  Forall plain_assignment kvs → rmapM name_value (assignment <$> kvs) = Ok ((fun kv => [kv.1; kv.2]) <$> kvs).
Proof.
  induction 1 as [|[k v] kvs (_ & _ & Hk) _ IH]; [done|].
  assert (Hn : name_value (assignment (k, v)) = Ok [k; v]).
  { unfold name_value, assignment. cbn [fst snd]. by rewrite Cut_char_app. }
  rewrite !fmap_cons. cbn [rmapM]. by rewrite Hn, IH.
Qed.
End words.

(** A list of assignments written [name=value], separated by single spaces and free of
    quotes, escapes and spaces, is read back exactly: the nodes of the instruction are the
    names and the values in order. *)
Theorem parseEnv_assignments kvs :
  kvs ≠ [] → Forall plain_assignment kvs →
  parseEnv (Join (assignment <$> kvs) " ") = Ok (chain (concat ((fun kv => [kv.1; kv.2]) <$> kvs)), no_attrs).
Proof.
  intros Hne Hk. unfold parseEnv, parseNameVal, parseWords.
  rewrite parseWords_Join.
  2: { apply Forall_fmap. eapply Forall_impl; [exact Hk|]. intros [k v] (H1 & H2 & _). simpl.
       unfold assignment. split; [by destruct k|]. apply Forall_app. split; [done|]. constructor; [|done].
       cbn. split_and!; vm_decide. }
  destruct kvs as [|kv kvs]; [done|]. cbn [app fmap list_fmap]. unfold assignment at 1.
  rewrite Contains_char, bool_decide_eq_true_2 by (rewrite elem_of_app, elem_of_cons; auto). simpl negb. cbn match.
  change (assignment kv :: _) with (assignment <$> (kv :: kvs)). by rewrite name_values.
Qed.
Lemma parseEnv_assignments_witness :
  parseEnv "PATH=/bin:/usr/bin a=1" = Ok (chain ["PATH"; "/bin:/usr/bin"; "a"; "1"], no_attrs).
Proof.
  apply (parseEnv_assignments [("PATH", "/bin:/usr/bin"); ("a", "1")]); [discriminate|].
  repeat (apply Forall_cons_2; [split_and!; vm_decide|]). apply Forall_nil_2.
Defined.

(** The exec form of a list of strings that need no escape, whatever follows the closing
    bracket, becomes exactly those strings, marked as JSON. *)
Theorem parseMaybeJSON_exec l rest :
  Forall plain_json l →
  parseMaybeJSON (exec_form l ++ rest) = Ok (chain l, {["json" := true]}).
Proof.
  intros Hl. unfold parseMaybeJSON. rewrite decide_False by done. unfold parseJSON.
  change (TrimLeftFunc (exec_form l ++ rest) IsSpace) with (exec_form l ++ rest).
  change (HasPrefix (exec_form l ++ rest) "[") with true. cbn [negb].
  rewrite Decode_strings by done.
  assert (Hm : rmapM json_str (JString <$> l) = Ok l).
  { clear. induction l as [|s l IH]; [done|]. rewrite fmap_cons. cbn [rmapM json_str]. by rewrite IH. }
  by rewrite Hm.
Qed.
Lemma parseMaybeJSON_exec_witness :
  parseMaybeJSON (exec_form ["/bin/sh"; "-c"; "ls"] ++ " # not an error") = Ok (chain ["/bin/sh"; "-c"; "ls"], {["json" := true]}).
Proof. apply parseMaybeJSON_exec. repeat (apply Forall_cons_2; [vm_decide|]). apply Forall_nil_2. Defined.

(** The word splitter corrupts text outside ASCII: each byte is appended as if it were a
    code point, so the two bytes of an accented letter become four, and the byte A0, the
    second one of a-grave in UTF-8, ends the word. *)
Theorem parseWords_mangles :
  parseWords ("x=" ++ ["195"; "169"]%char) = ["x=" ++ ["195"; "131"; "194"; "169"]%char] ∧
  parseWords ("x=" ++ ["195"; "160"]%char ++ "y") = ["x=" ++ ["195"; "131"]%char; "y"].
Proof. split; vm_compute; reflexivity. Qed.
