(* ===== verification/ShellWord.v ===== *)
(** * ShellWord: variable substitution, builder flags and instruction dispatch

    Models [src/builder/dockerfile/shell_parser.go] (quotes, escapes and
    environment variables in the arguments of an instruction), [bflag.go] (the
    flags of an instruction) and the argument expansion of [dispatch] in
    [evaluator.go].

    The text scanner is the list of characters still to be read, as [text/scanner] gives
    them: bytes that are not UTF-8 as the replacement character, and without a byte order
    mark at the start ([scanned]).  The three mutually recursive readers take fuel; more
    than the number of characters is always enough ([ProcessWord_total]).  Letters, digits
    and spaces are the ASCII ones. *)

From S2P Require Import Prelude Strconv Json Utf8 Dockerfile.
Import Strings Utf8.Utf8 Dockerfile.

Module ShellWord.

Inductive shell_error :=
| ShellErr (e : goerror)
| ShellFuel.
#[global] Instance shell_error_eq_dec : EqDecision shell_error.
Proof. solve_decision. Defined.

(** ** The scanner *)

Definition BOM : gostring := Json.utf8 0xFEFF.
(** What [Next] returns, character by character, up to the end of the text. *)
Definition scanned (s : gostring) : gostring := TrimPrefix (sanitize s) BOM.

(** ** Words *)

Record wordsStruct := mkWords { word : gostring; words : list gostring; inWord_ : bool }.
Definition no_words : wordsStruct := mkWords [] [] false.

Definition addRawChar (w : wordsStruct) (c : ascii) : wordsStruct := mkWords (word w ++ [c]) (words w) true.
Definition addChar (w : wordsStruct) (c : ascii) : wordsStruct :=
  if IsSpace c && inWord_ w then
    if negb (word w =s []) then mkWords [] (words w ++ [word w]) false else w
  else if negb (IsSpace c) then addRawChar w c
  else w.
Definition addChars (w : wordsStruct) (str : gostring) : wordsStruct := foldl addChar w str.
Definition addString (w : wordsStruct) (str : gostring) : wordsStruct := addChars w (scanned str).
Definition addRawString (w : wordsStruct) (str : gostring) : wordsStruct := mkWords (word w ++ str) (words w) true.
Definition getWords (w : wordsStruct) : list gostring :=
  if negb (word w =s []) then words w ++ [word w] else words w.

(** ** The readers *)

Section process.
Context (envs : list gostring) (whole : gostring).

(** [getEnv]: the first entry for the name. *)
Fixpoint get_env (es : list gostring) (n : gostring) : gostring :=
  match es with
  | [] => []
  | e :: es =>
      match Cut "=" e with
      | None => if n =s e then [] else get_env es n
      | Some (k, v) => if n =s k then v else get_env es n
      end
  end.
Definition getEnv (n : gostring) : gostring := get_env envs n.

(** [processName]: a digit alone, or letters, digits and underscores. *)
Definition name_char (c : ascii) : bool := is_alpha c || is_digit c || (c =c "_").
Fixpoint name_loop (s : gostring) : gostring * gostring :=
  match s with
  | [] => ([], [])
  | c :: rest => if name_char c then let '(n, r) := name_loop rest in (c :: n, r) else ([], s)
  end.
Definition processName (s : gostring) : gostring * gostring :=
  match s with
  | c :: rest => if is_digit c then ([c], rest) else name_loop s
  | [] => ([], [])
  end.

(** [processSingleQuote], after the opening quote. *)
Fixpoint processSingleQuote (s : gostring) : gostring * gostring :=
  match s with
  | [] => ([], [])
  | c :: rest => if c =c "'" then ([], rest) else let '(t, r) := processSingleQuote rest in (c :: t, r)
  end.

(** [processStopOn] (its result, its words and what is left), [processDoubleQuote]
    after the quote and [processDollar] after the dollar sign. *)
Fixpoint processStopOn (fuel : nat) (stop : option ascii) (s result_ : gostring) (w : wordsStruct)
    : result shell_error (gostring * list gostring * gostring) :=
  match fuel with
  | O => Err ShellFuel
  | S fuel =>
      match s with
      | [] => Ok (result_, getWords w, [])
      | c :: rest =>
          if bool_decide (stop = Some c) then Ok (result_, getWords w, rest)
          else if c =c "'" then
            let '(tmp, rest) := processSingleQuote rest in
            processStopOn fuel stop rest (result_ ++ tmp) (addRawString w tmp)
          else if c =c "034" then
            let! (tmp, rest) := processDoubleQuote fuel rest [] in
            processStopOn fuel stop rest (result_ ++ tmp) (addRawString w tmp)
          else if c =c "$" then
            let! (tmp, rest) := processDollar fuel rest in
            processStopOn fuel stop rest (result_ ++ tmp) (addString w tmp)
          else if c =c "\" then
            match rest with
            | [] => Ok (result_, getWords w, [])
            | d :: rest => processStopOn fuel stop rest (result_ ++ [d]) (addRawChar w d)
            end
          else processStopOn fuel stop rest (result_ ++ [c]) (addChar w c)
      end
  end
with processDoubleQuote (fuel : nat) (s result_ : gostring) : result shell_error (gostring * gostring) :=
  match fuel with
  | O => Err ShellFuel
  | S fuel =>
      match s with
      | [] => Ok (result_, [])
      | c :: rest =>
          if c =c "034" then Ok (result_, rest)
          else if c =c "$" then
            let! (tmp, rest) := processDollar fuel rest in processDoubleQuote fuel rest (result_ ++ tmp)
          else if c =c "\" then
            match rest with
            | [] => Ok (result_, [])
            | d :: rest' =>
                if (d =c "034") || (d =c "$") then processDoubleQuote fuel rest' (result_ ++ [d])
                else processDoubleQuote fuel rest (result_ ++ [c])
            end
          else processDoubleQuote fuel rest (result_ ++ [c])
      end
  end
with processDollar (fuel : nat) (s : gostring) : result shell_error (gostring * gostring) :=
  match fuel with
  | O => Err ShellFuel
  | S fuel =>
      match strip_prefix "{" s with
      | Some s =>
          let '(n, s) := processName s in
          match s with
          | c :: s =>
              if c =c "}" then Ok (getEnv n, s)
              else if c =c ":" then
                let! (wd, _, rest) := processStopOn fuel (Some (ch "}")) (tail s) [] no_words in
                let newValue := getEnv n in
                match s with
                | m :: _ =>
                    if m =c "+" then Ok (if newValue =s [] then newValue else wd, rest)
                    else if m =c "-" then Ok (if newValue =s [] then wd else newValue, rest)
                    else Err (ShellErr (Errorf "Unsupported modifier (%c) in substitution: %s" [[m]; whole]))
                | [] => Err (ShellErr (Errorf "Unsupported modifier (%c) in substitution: %s" [[]; whole]))
                end
              else Err (ShellErr (Errorf "Missing ':' in substitution: %s" [whole]))
          | [] => Err (ShellErr (Errorf "Missing ':' in substitution: %s" [whole]))
          end
      | None =>
          let '(n, rest) := processName s in
          Ok (if n =s [] then "$" else getEnv n, rest)
      end
  end.

End process.

Definition process (wd : gostring) (envs : list gostring) : result shell_error (gostring * list gostring * gostring) :=
  processStopOn envs wd (S (length (scanned wd))) None (scanned wd) [] no_words.
Definition ProcessWord (wd : gostring) (envs : list gostring) : result shell_error gostring :=
  let! (r, _, _) := process wd envs in Ok r.
Definition ProcessWords (wd : gostring) (envs : list gostring) : result shell_error (list gostring) :=
  let! (_, ws, _) := process wd envs in Ok ws.

(** ** Builder flags *)

Inductive FlagType := boolType | stringType.
Record BFlag := mkBFlag { flagType : FlagType; FValue : gostring }.
Record BFlags := mkBFlags {
  bArgs : list gostring;
  flags : gmap gostring BFlag;
  used : gset gostring;
  bErr : option goerror
}.
Definition NewBFlags : BFlags := mkBFlags [] ∅ ∅ None.

Definition addFlag (n : gostring) (t : FlagType) (def : gostring) (bf : BFlags) : BFlags :=
  match flags bf !! n with
  | Some _ => mkBFlags (bArgs bf) (flags bf) (used bf) (Some (Errorf "Duplicate flag defined: %s" [n]))
  | None => mkBFlags (bArgs bf) (<[n := mkBFlag t def]> (flags bf)) (used bf) (bErr bf)
  end.
Definition AddBool (n : gostring) (def : bool) (bf : BFlags) : BFlags :=
  addFlag n boolType (if def then "true" else "false") bf.
Definition AddString (n def : gostring) (bf : BFlags) : BFlags := addFlag n stringType def bf.
Definition IsUsed (n : gostring) (bf : BFlags) : bool := bool_decide (n ∈ used bf).
(** [IsTrue]: [None] is the panic on a flag that is not boolean. *)
Definition IsTrue (f : BFlag) : option bool :=
  match flagType f with boolType => Some (FValue f =s "true") | stringType => None end.

(** The value a flag gets from an argument; [eq] is what follows the equals sign. *)
Definition flag_arg (n : gostring) (t : FlagType) (eq : option gostring) : result goerror gostring :=
  match t with
  | boolType =>
      match eq with
      | Some [] => Err (Errorf "Missing a value on flag: %s" [n])
      | None => Ok "true"
      | Some v =>
          let lower := ToLower v in
          if (lower =s "true") || (lower =s "false") then Ok lower
          else Err (Errorf "Expecting boolean value for flag %s, not: %s" [n; v])
      end
  | stringType =>
      match eq with
      | None => Err (Errorf "Missing a value on flag: %s" [n])
      | Some v => Ok v
      end
  end.
Fixpoint bflags_loop (args : list gostring) (bf : BFlags) : BFlags * option goerror :=
  match args with
  | [] => (bf, None)
  | arg :: args =>
      match strip_prefix "--" arg with
      | None => (bf, Some (Errorf "Arg should start with -- : %s" [arg]))
      | Some [] => (bf, None)
      | Some a =>
          let '(n, eq) := match Cut "=" a with Some (n, v) => (n, Some v) | None => (a, None) end in
          match flags bf !! n with
          | None => (bf, Some (Errorf "Unknown flag: %s" [n]))
          | Some f =>
              if bool_decide (n ∈ used bf) then (bf, Some (Errorf "Duplicate flag specified: %s" [n]))
              else
                let bf := mkBFlags (bArgs bf) (flags bf) ({[n]} ∪ used bf) (bErr bf) in
                match flag_arg n (flagType f) eq with
                | Err e => (bf, Some e)
                | Ok v => bflags_loop args (mkBFlags (bArgs bf) (<[n := mkBFlag (flagType f) v]> (flags bf)) (used bf) (bErr bf))
                end
          end
      end
  end.
Definition BFlags_Parse (bf : BFlags) : BFlags * option goerror :=
  match bErr bf with
  | Some e => (bf, Some (Errorf "Error setting up flags" []))
  | None => bflags_loop (bArgs bf) bf
  end.

(** ** Dispatch of an instruction *)

Definition replaceEnvAllowed (cmd : gostring) : bool :=
  bool_decide (cmd ∈ ["env"; "label"; "add"; "copy"; "workdir"; "expose"; "volume"; "user"; "stopsignal"; "arg"]).
Definition allowWordExpansion (cmd : gostring) : bool := cmd =s "expose".
Definition evaluateTable (cmd : gostring) : bool :=
  bool_decide (cmd ∈ ["env"; "label"; "maintainer"; "add"; "copy"; "from"; "onbuild"; "workdir"; "run"; "cmd";
                      "entrypoint"; "expose"; "volume"; "user"; "stopsignal"; "arg"]).

(** What the handler of the instruction is called with. *)
Record step := mkStep {
  st_cmd : gostring; st_args : list gostring; st_attrs : gmap gostring bool;
  st_original : gostring; st_flags : list gostring
}.
Inductive dispatch_error := WordError (e : shell_error) | DispatchErr (e : goerror) | NilPointer.

Definition expand (cmd : gostring) (envs : list gostring) (v : gostring) : result dispatch_error (list gostring) :=
  if replaceEnvAllowed cmd then
    if allowWordExpansion cmd then
      match ProcessWords v envs with Ok ws => Ok ws | Err e => Err (WordError e) end
    else match ProcessWord v envs with Ok s => Ok [s] | Err e => Err (WordError e) end
  else Ok [v].
Fixpoint expand_all (cmd : gostring) (envs : list gostring) (fuel : nat) (n : option Node)
    : result dispatch_error (list gostring) :=
  match fuel, n with
  | S fuel, Some n => let! l := expand cmd envs (Value n) in let! r := expand_all cmd envs fuel (Next n) in Ok (l ++ r)
  | _, _ => Ok []
  end.
(** The length of a chain of nodes. *)
Fixpoint node_depth (n : Node) : nat := S (match Next n with Some m => node_depth m | None => 0 end).
Definition chain_length (n : option Node) : nat := match n with Some n => node_depth n | None => 0 end.

(** [dispatch]: [env] is the environment of the image configuration, [buildArgs] the
    allowed build arguments in the order the map is ranged over. *)
Definition dispatch (env : list gostring) (buildArgs : list (gostring * gostring)) (ast : Node)
    : result dispatch_error step :=
  let cmd := Value ast in
  let envs := env ++ ((fun kv => kv.1 ++ "=" ++ kv.2) <$> buildArgs) in
  let! (first, from) :=
    (if cmd =s "onbuild" then
       match Next ast with
       | None => Err (DispatchErr (Errorf "ONBUILD requires at least one argument" []))
       | Some n => match Children n with
                   | Some c :: _ => Ok ([Value c], c)
                   | _ => Err NilPointer
                   end
       end
     else Ok ([], ast)) in
  let! args := expand_all cmd envs (chain_length (Next from)) (Next from) in
  if evaluateTable cmd then Ok (mkStep cmd (first ++ args) (Attributes ast) (Original ast) (Flags ast))
  else Err (DispatchErr (Errorf "Unknown instruction: %s" [ToUpper cmd])).

End ShellWord.

Import ShellWord.

(** Cases of the repository's test table ([envVarTest]). *)
Definition test_env : list gostring := ["PWD=/home"; "SHELL=bash"].
Definition table : list (gostring * gostring) :=
  [("he'll'o", "hello"); ("he\'llo", "he'llo"); ("abc\tdef", "abctdef"); ("hello\", "hello"); ("hello\\", "hello\");
   ("'hello\'", "hello\"); ("$.", "$."); ("he$1x", "hex"); ("he$pwd.", "he."); ("he$PWD", "he/home");
   ("he\$PWD", "he$PWD"); ("he${}xx", "hexx"); ("he${PWD}", "he/home"); ("he${XXX:-000}xx", "he000xx");
   ("he${PWD:-000}xx", "he/homexx"); ("he${XXX:-${PWD:-yyy}}xx", "he/homexx"); ("he${XXX:-${YYY:-yyy}}xx", "heyyyxx");
   ("he${XXX:+${PWD}}xx", "hexx"); ("he${PWD:+${SHELL}}xx", "hebashxx"); ("he${PWD:+${PWD}:}xx", "he/home:xx");
   ("he${XXX:-\$PWD:}xx", "he$PWD:xx"); ("he${XXX:-\${PWD}z}xx", "he${PWDz}xx"); ("'he${XX}'", "he${XX}")].
Example table_ok : forallb (fun '(i, o) => bool_decide (ProcessWord i test_env = Ok o)) table = true.
Proof. vm_compute. reflexivity. Qed.
Example table_err : forallb (fun i => negb (is_ok (ProcessWord i test_env)))
  ["he${.}"; "he${XXX:YYY}"; "he${PWD"; "he${PWD:=000}xx"] = true.
Proof. vm_compute. reflexivity. Qed.

Section facts.
Implicit Types (envs : list gostring) (s t : gostring).

(** ** Termination *)

Lemma name_loop_length s : (length (name_loop s).2 ≤ length s)%nat.
Proof.
  induction s as [|c s IH]; simpl; [done|]. destruct (name_char c); [|simpl; lia].
  destruct (name_loop s). simpl in *. lia.
Qed.
Lemma processName_length s : (length (processName s).2 ≤ length s)%nat.
Proof. destruct s as [|c s]; [done|]. simpl. destruct (is_digit c); [simpl; lia|]. apply (name_loop_length (c :: s)). Qed.
Lemma single_quote_length s : (length (processSingleQuote s).2 ≤ length s)%nat.
Proof.
  induction s as [|c s IH]; simpl; [done|]. destruct (c =c "'"); [simpl; lia|].
  destruct (processSingleQuote s). simpl in *. lia.
Qed.

(** With more fuel than characters no reader runs out, and none reads past its input. *)
Definition reads {A} (n : nat) (r : result shell_error A) (left_of : A → gostring) : Prop :=
  match r with Ok a => (length (left_of a) ≤ n)%nat | Err e => e ≠ ShellFuel end.

Lemma reads_bind {A B} n m (r : result shell_error A) (f : A → result shell_error B) la lb :
  reads n r la → (∀ a, (length (la a) ≤ n)%nat → reads m (f a) lb) → reads m (rbind r f) lb.
Proof. destruct r as [a|e]; simpl; auto. Qed.
Lemma reads_mono {A} n m (r : result shell_error A) l : reads n r l → (n ≤ m)%nat → reads m r l.
Proof. destruct r; simpl; [lia|done]. Qed.

Lemma readers_total envs wh fuel :
  (∀ stop s r w, (length s < fuel)%nat → reads (length s) (processStopOn envs wh fuel stop s r w) snd) ∧
  (∀ s r, (length s < fuel)%nat → reads (length s) (processDoubleQuote envs wh fuel s r) snd) ∧
  (∀ s, (length s < fuel)%nat → reads (length s) (processDollar envs wh fuel s) snd).
Proof.
  induction fuel as [|fuel (IH1 & IH2 & IH3)]; [split_and!; intros; lia|]. split_and!.
  - intros stop [|c s] r w Hf; simpl in Hf; cbn [processStopOn]; [simpl; lia|].
    case_bool_decide; [simpl; lia|]. destruct (c =c "'").
    { pose proof (single_quote_length s). destruct (processSingleQuote s) as [tmp rest]. simpl in *.
      eapply reads_mono; [apply IH1; lia|lia]. }
    destruct (c =c "034").
    { eapply reads_bind; [apply IH2; lia|]. intros [tmp rest] Hr. simpl in *. eapply reads_mono; [apply IH1; lia|lia]. }
    destruct (c =c "$").
    { eapply reads_bind; [apply IH3; lia|]. intros [tmp rest] Hr. simpl in *. eapply reads_mono; [apply IH1; lia|lia]. }
    destruct (c =c "\"); [destruct s as [|d s]; [simpl; lia|]|]; (eapply reads_mono; [apply IH1; simpl in *; lia|simpl; lia]).
  - intros [|c s] r Hf; simpl in Hf; cbn [processDoubleQuote]; [simpl; lia|]. destruct (c =c "034"); [simpl; lia|].
    destruct (c =c "$").
    { eapply reads_bind; [apply IH3; lia|]. intros [tmp rest] Hr. simpl in *. eapply reads_mono; [apply IH2; lia|lia]. }
    destruct (c =c "\"); [destruct s as [|d s]; [simpl; lia|]; destruct ((d =c "034") || (d =c "$"))|];
      (eapply reads_mono; [apply IH2; simpl in *; lia|simpl; lia]).
  - intros s Hf. cbn [processDollar]. destruct (strip_prefix "{" s) as [t|] eqn:E.
    + apply strip_prefix_Some in E as ->. pose proof (processName_length t). destruct (processName t) as [n u].
      simpl in *. destruct u as [|c u]; [done|]. simpl in *. destruct (c =c "}"); [simpl; lia|].
      destruct (c =c ":"); [|done]. eapply reads_bind; [apply IH1; destruct u; simpl in *; lia|].
      intros [[wd x] rest] Hr. destruct u as [|m u]; [done|]. simpl in *.
      destruct (m =c "+"); [simpl; lia|]. destruct (m =c "-"); [simpl; lia|done].
    + pose proof (processName_length s). destruct (processName s) as [n u]. simpl in *. lia.
Qed.
End facts.

(** Substituting variables in a word always ends, with a result or an error of the
    source: the fuel, one more than the number of characters, is never exhausted. *)
Theorem ProcessWord_total wd envs : ProcessWord wd envs ≠ Err ShellFuel ∧ ProcessWords wd envs ≠ Err ShellFuel.
Proof.
  unfold ProcessWord, ProcessWords, process.
  pose proof (proj1 (readers_total envs wd (S (length (scanned wd)))) None (scanned wd) [] no_words (Nat.lt_succ_diag_r _)) as H.
  destruct (processStopOn _ _ _ _ _ _ _) as [[[r ws] rest]|e]; simpl in *; split; congruence.
Qed.

(** ** Plain text, escapes and substitutions *)

Section substitution.
Context (envs : list gostring) (whole : gostring).
Implicit Types (s t pre post d : gostring) (c : ascii).

(** Not a quote, a dollar sign or a backslash. *)
Definition literal_char c : Prop := c ∉ ["'"; "034"; "$"; "\"]%char.
#[global] Instance literal_char_dec c : Decision (literal_char c).
Proof. unfold literal_char. apply _. Defined.

Lemma literal_tests c : literal_char c → (c =c "'") = false ∧ (c =c "034") = false ∧ (c =c "$") = false ∧ (c =c "\") = false.
Proof.
  unfold literal_char, chareqb. rewrite !not_elem_of_cons. intros (H1 & H2 & H3 & H4 & _).
  by rewrite !bool_decide_eq_false_2.
Qed.

Lemma stop_literal s t stop r w f :
  Forall (fun c => literal_char c ∧ stop ≠ Some c) s →
  processStopOn envs whole (length s + f) stop (s ++ t) r w = processStopOn envs whole f stop t (r ++ s) (addChars w s).
Proof.
  intros Hs. revert r w. induction Hs as [|c s [Hc Hst] _ IH]; intros r w; [by rewrite app_nil_r|].
  cbn [length Nat.add app processStopOn]. rewrite bool_decide_eq_false_2 by done.
  destruct (literal_tests c Hc) as (-> & -> & -> & ->). rewrite IH. by rewrite <-(assoc_L (++)).
Qed.

(** Reaching the end of the word, or the closing brace. *)
Lemma stop_end s r w f :
  Forall literal_char s → (length s < f)%nat →
  processStopOn envs whole f None s r w = Ok (r ++ s, getWords (addChars w s), []).
Proof.
  intros Hs Hf. pose proof (stop_literal s [] None r w (S (f - S (length s)))) as H. rewrite app_nil_r in H.
  replace (length s + S (f - S (length s)))%nat with f in H by lia.
  rewrite H; [done|]. eapply Forall_impl; [exact Hs|]. done.
Qed.
Lemma stop_brace s t r w f :
  Forall (fun c => literal_char c ∧ c ≠ ch "}") s → (length s < f)%nat →
  ∃ ws, processStopOn envs whole f (Some (ch "}")) (s ++ ch "}" :: t) r w = Ok (r ++ s, ws, t).
Proof.
  intros Hs Hf. eexists. replace f with (length s + S (f - S (length s)))%nat by lia.
  rewrite stop_literal; [reflexivity|]. eapply Forall_impl; [exact Hs|]. naive_solver.
Qed.

(** Variable names. *)
Definition valid_name (n : gostring) : Prop :=
  n ≠ [] ∧ Forall (fun c => name_char c = true) n ∧ from_option is_digit false (head n) = false.

Lemma processName_valid n c t : valid_name n → name_char c = false → processName (n ++ c :: t) = (n, c :: t).
Proof.
  intros (Hne & Hn & Hd) Hc. destruct n as [|x n]; [done|]. simpl in Hd. unfold processName. cbn [app]. rewrite Hd.
  change (x :: n ++ c :: t) with ((x :: n) ++ c :: t). clear Hne Hd. induction Hn as [|y l Hy _ IH]; simpl.
  - by rewrite Hc.
  - rewrite Hy. simpl in IH. destruct l; [simpl in *; by rewrite Hc|]. by rewrite IH.
Qed.

Definition braces (n mod_ : gostring) : gostring := "${" ++ n ++ mod_ ++ "}".

Lemma dollar_plain n t f : valid_name n → processDollar envs whole (S f) (ch "{" :: n ++ ch "}" :: t) = Ok (get_env envs n, t).
Proof.
  intros Hn. cbn [processDollar]. change (strip_prefix "{" (ch "{" :: n ++ ch "}" :: t)) with (Some (n ++ ch "}" :: t)).
  cbn match. by rewrite processName_valid.
Qed.
Lemma dollar_modifier n m d t f :
  valid_name n → Forall (fun c => literal_char c ∧ c ≠ ch "}") d → (length d < f)%nat → m = ch "-" ∨ m = ch "+" →
  processDollar envs whole (S f) (ch "{" :: n ++ ch ":" :: m :: d ++ ch "}" :: t) =
  Ok (if get_env envs n =s [] then (if m =c "-" then d else []) else (if m =c "-" then get_env envs n else d), t).
Proof.
  intros Hn Hd Hf Hm. cbn [processDollar].
  change (strip_prefix "{" (ch "{" :: ?x)) with (Some x). cbn match. rewrite processName_valid by done. cbn match.
  change (ch ":" =c "}") with false. change (ch ":" =c ":") with true. cbn match. 
  lazymatch goal with |- rbind ?X _ = _ =>
    change X with (processStopOn envs whole f (Some (ch "}")) (d ++ ch "}" :: t) [] no_words) end.
  destruct (stop_brace d t [] no_words f Hd Hf) as [ws ->]. cbn [rbind app]. unfold getEnv.
  destruct Hm as [-> | ->].
  - change (ch "-" =c "+") with false. change (ch "-" =c "-") with true. reflexivity.
  - change (ch "+" =c "+") with true. change (ch "+" =c "-") with false. cbn match.
    destruct (get_env envs n =s []) eqn:Hv; [|done]. apply bool_decide_eq_true in Hv. by rewrite Hv.
Qed.
End substitution.

(** Concatenations nested to the right, lengths of concatenations summed. *)
Ltac app_norm :=
  repeat (cbn [app length] in *; rewrite <-?(assoc_L (++)) in *; rewrite ?length_app in *); cbn [app length] in *.

Lemma streqb_nil (v : gostring) A (x y : A) : (if v =s [] then x else y) = (if decide (v = []) then x else y).
Proof. unfold streqb. destruct (decide (v = [])); [by rewrite bool_decide_eq_true_2|by rewrite bool_decide_eq_false_2]. Qed.

(** *** Scanned texts *)

Abbreviation ascii_text := (Forall (fun c => (N_of_ascii c < 128)%N)).
Lemma BOM_high c : c ∈ BOM → (128 ≤ N_of_ascii c)%N.
Proof. intros H. assert (Forall (fun c => (128 ≤ N_of_ascii c)%N) BOM) as Hb by vm_decide. by eapply Forall_forall in Hb. Qed.
(** The mark is before a character below 128, or it is not there. *)
Lemma TrimPrefix_mid p s c t : c ∉ p → TrimPrefix (s ++ c :: t) p = TrimPrefix s p ++ c :: t.
Proof.
  intros Hc. assert (Hs : strip_prefix p (s ++ c :: t) = (fun r => r ++ c :: t) <$> strip_prefix p s).
  { revert s. induction p as [|x p IH]; intros s; [done|]. apply not_elem_of_cons in Hc as [Hx Hp]. destruct s as [|y s]; simpl; [by rewrite decide_False|].
    case_decide; [by apply IH|done]. }
  unfold TrimPrefix. rewrite Hs. by destruct (strip_prefix p s).
Qed.
Lemma scanned_mid s c t : (N_of_ascii c < 128)%N → scanned (s ++ c :: t) = scanned s ++ c :: sanitize t.
Proof. intros Hc. unfold scanned. rewrite sanitize_mid by done. apply TrimPrefix_mid. intros H%BOM_high. lia. Qed.
Lemma scanned_ascii s : ascii_text s → scanned s = s.
Proof.
  intros Hs. unfold scanned. rewrite (Valid_sanitize s) by by apply ascii_Valid. destruct Hs as [|c s Hc Hs]; [done|].
  apply (TrimPrefix_mid BOM [] c s). intros H%BOM_high. lia.
Qed.
Lemma scanned_Forall (P : ascii → Prop) s : Forall P (Json.utf8 RuneError) → Forall P s → Forall P (scanned s).
Proof.
  intros HP Hs. pose proof (sanitize_Forall P s HP Hs) as H. unfold scanned, TrimPrefix. destruct (strip_prefix BOM (sanitize s)) as [t|] eqn:E; [|done].
  apply strip_prefix_Some in E. rewrite E in H. by apply Forall_app in H as [_ ?].
Qed.
Lemma literal_sanitize s : Forall literal_char s → Forall literal_char (sanitize s).
Proof. apply sanitize_Forall. vm_decide. Qed.
Lemma literal_scanned s : Forall literal_char s → Forall literal_char (scanned s).
Proof. apply scanned_Forall. vm_decide. Qed.

(** A word in which a dollar sign, followed by [inner], stands for [x]. *)
Lemma ProcessWord_dollar envs pre inner post x wh :
  Forall literal_char pre → Forall literal_char post →
  (∀ f, (S (length inner) ≤ f)%nat → processDollar envs wh f (inner ++ post) = Ok (x, post)) →
  scanned wh = pre ++ ch "$" :: inner ++ post → ProcessWord wh envs = Ok (pre ++ x ++ post).
Proof.
  intros Hpre Hpost Hdol Hwh. unfold ProcessWord, process.
    replace (S (length (scanned wh))) with (length pre + S (S (length inner + length post)))%nat
    by (rewrite Hwh, length_app; simpl; rewrite length_app; lia).
  rewrite Hwh. rewrite stop_literal by (eapply Forall_impl; [exact Hpre|done]).
  cbn [processStopOn]. change (bool_decide (None = Some (ch "$"))) with false.
  change (ch "$" =c "'") with false. change (ch "$" =c "034") with false. change (ch "$" =c "$") with true. cbn match.
  lazymatch goal with |- rbind (rbind ?X ?k) _ = _ =>
    change X with (processDollar envs wh (S (length inner + length post)) (inner ++ post)) end.
  rewrite Hdol by lia. cbn [rbind].
  lazymatch goal with |- rbind ?X _ = _ =>
    change X with (processStopOn envs wh (S (length inner + length post)) None post (pre ++ x) (addString (addChars no_words pre) x)) end.
  rewrite stop_end by (done || lia). simpl. by rewrite <-(assoc_L (++)).
Qed.

Lemma name_char_ascii c : name_char c = true → (N_of_ascii c < 128)%N.
Proof. destruct c as [[] [] [] [] [] [] [] []]; (reflexivity || discriminate). Qed.
Lemma name_ascii n : valid_name n → ascii_text n.
Proof. intros (_&Hn&_). eapply Forall_impl; [exact Hn|]. exact name_char_ascii. Qed.
(** A word with braces is scanned piece by piece. *)
Lemma scanned_braces pre n mod_ d post : valid_name n → ascii_text mod_ →
  scanned (pre ++ braces n (mod_ ++ d) ++ post) = scanned pre ++ ch "$" :: (ch "{" :: n ++ mod_ ++ sanitize d ++ "}") ++ sanitize post.
Proof.
  intros Hn Hm. unfold braces. app_norm. rewrite scanned_mid by done. do 2 f_equal. rewrite sanitize_cons by done. f_equal.
  rewrite sanitize_ascii by by apply name_ascii. f_equal. rewrite sanitize_ascii by done. f_equal. by rewrite sanitize_mid.
Qed.

Lemma ProcessWord_brace envs pre n post :
  Forall literal_char pre → Forall literal_char post → valid_name n →
  ProcessWord (pre ++ braces n [] ++ post) envs = Ok (scanned pre ++ get_env envs n ++ sanitize post).
Proof.
  intros Hpre%literal_scanned Hpost%literal_sanitize Hn.
  apply (ProcessWord_dollar envs (scanned pre) (ch "{" :: n ++ "}") (sanitize post)); [done|done| |exact (scanned_braces pre n [] [] post Hn (Forall_nil_2 _))].
  intros [|f] Hf; [lia|]. app_norm. by apply dollar_plain.
Qed.
Lemma ProcessWord_modified envs pre n m d post :
  Forall literal_char pre → Forall literal_char post → valid_name n → Forall (fun c => literal_char c ∧ c ≠ ch "}") d → m = ch "-" ∨ m = ch "+" →
  ProcessWord (pre ++ braces n ([ch ":"; m] ++ d) ++ post) envs =
  Ok (scanned pre ++ (if get_env envs n =s [] then (if m =c "-" then sanitize d else []) else (if m =c "-" then get_env envs n else sanitize d)) ++ sanitize post).
Proof.
  intros Hpre%literal_scanned Hpost%literal_sanitize Hn Hd Hm.
  assert (Hsd : Forall (fun c => literal_char c ∧ c ≠ ch "}") (sanitize d)) by (apply sanitize_Forall; [vm_decide|done]).
  apply (ProcessWord_dollar envs (scanned pre) (ch "{" :: n ++ [ch ":"; m] ++ sanitize d ++ "}") (sanitize post)); [done|done| |].
  - intros [|f] Hf; [lia|]. app_norm. apply dollar_modifier; [done|done|lia|done].
  - apply scanned_braces; [done|]. destruct Hm as [-> | ->]; vm_decide.
Qed.

(** C36: In literal text, a variable between braces stands for the value of its first entry
    in the environment; with [:-] a default replaces an empty value, and with [:+] a
    word replaces a value that is not empty.  The text around it and the default are kept,
    as the scanner reads them: with the replacement character for bytes that are not UTF-8,
    and without a byte order mark at the start of the word. *)
Theorem ProcessWord_substitution envs pre n post d :
  Forall literal_char pre → Forall literal_char post → valid_name n →
  Forall (fun c => literal_char c ∧ c ≠ ch "}") d →
  let v := get_env envs n in
  ProcessWord (pre ++ braces n [] ++ post) envs = Ok (scanned pre ++ v ++ sanitize post) ∧
  ProcessWord (pre ++ braces n (":-" ++ d) ++ post) envs = Ok (scanned pre ++ (if decide (v = []) then sanitize d else v) ++ sanitize post) ∧
  ProcessWord (pre ++ braces n (":+" ++ d) ++ post) envs = Ok (scanned pre ++ (if decide (v = []) then [] else sanitize d) ++ sanitize post).
Proof.
  intros Hpre Hpost Hn Hd v. split; [by apply ProcessWord_brace|]. split.
  - change (":-" ++ d) with ([ch ":"; ch "-"] ++ d). rewrite ProcessWord_modified by auto. fold v. by rewrite (streqb_nil v).
  - change (":+" ++ d) with ([ch ":"; ch "+"] ++ d). rewrite ProcessWord_modified by auto. fold v. by rewrite (streqb_nil v).
Qed.
Lemma ProcessWord_substitution_witness :
  ProcessWord "a/${HOME:-/root}.b" ["HOME="; "X=1"] = Ok "a//root.b".
Proof.
  change (Ok ("a//root.b" : gostring)) with (Ok (scanned "a/" ++ (if decide (get_env ["HOME="; "X=1"] "HOME" = []) then sanitize "/root" else get_env ["HOME="; "X=1"] "HOME") ++ sanitize ".b") : result shell_error gostring).
  refine (proj1 (proj2 (ProcessWord_substitution ["HOME="; "X=1"] "a/" "HOME" ".b" "/root" _ _ _ _))).
  1,2: vm_decide.
  - split_and!; [discriminate|vm_decide|vm_compute; reflexivity].
  - vm_decide.
Defined.

(** ** Escaping and splitting *)

(** Every character preceded by a backslash. *)
Definition escape (s : gostring) : gostring := concat ((fun c => [ch "\"; c]) <$> s).

Lemma stop_escape envs wh s r w f :
  (length s < f)%nat →
  processStopOn envs wh f None (escape s) r w = Ok (r ++ s, getWords (foldl addRawChar w s), []).
Proof.
  revert r w f. induction s as [|c s IH]; intros r w [|f] Hf; simpl in Hf; try lia.
  - simpl. by rewrite app_nil_r.
  - change (escape (c :: s)) with (ch "\" :: c :: escape s). cbn [processStopOn].
    change (bool_decide (None = Some (ch "\"))) with false. change (ch "\" =c "'") with false.
    change (ch "\" =c "034") with false. change (ch "\" =c "$") with false. change (ch "\" =c "\") with true. cbn match.
    lazymatch goal with |- ?X = _ => change X with (processStopOn envs wh f None (escape s) (r ++ [c]) (addRawChar w c)) end.
    rewrite IH by lia. by rewrite <-(assoc_L (++)).
Qed.

Lemma addRawChars w s : s ≠ [] → foldl addRawChar w s = mkWords (word w ++ s) (words w) true.
Proof.
  revert w. induction s as [|c s IH]; intros w Hs; [done|]. simpl. destruct s as [|d s]; [done|].
  rewrite IH by done. simpl. by rewrite <-(assoc_L (++)).
Qed.

(** Escaping is sound for every ASCII text: a text with a backslash before each character is
    substituted to exactly that text, and (when not empty) as a single word, spaces,
    quotes and dollar signs included. *)
Theorem ProcessWord_escape s envs :
  ascii_text s → ProcessWord (escape s) envs = Ok s ∧ (s ≠ [] → ProcessWords (escape s) envs = Ok [s]).
Proof.
  intros Hascii. assert (Hesc : scanned (escape s) = escape s).
  { apply scanned_ascii. induction Hascii as [|c s Hc _ IH]; [done|]. change (escape (c :: s)) with (ch "\" :: c :: escape s). by repeat constructor. }
  assert (Hlen : (length s < S (length (escape s)))%nat).
  { clear. induction s as [|c s IH]; [simpl; lia|]. change (escape (c :: s)) with (ch "\" :: c :: escape s). simpl in *. lia. }
  unfold ProcessWord, ProcessWords, process. rewrite Hesc, stop_escape by done. split; [done|].
  intros Hs. rewrite addRawChars by done. simpl. unfold getWords. simpl. unfold streqb. by rewrite bool_decide_eq_false_2.
Qed.

Lemma addChars_fields s w :
  inWord_ w = negb (word w =s []) →
  getWords (addChars w s) = words w ++ fields_go (rev (word w)) s.
Proof.
  revert w. induction s as [|c s IH]; intros w Hw; simpl.
  - unfold getWords. destruct (word w) as [|x l] eqn:E; simpl; [by rewrite app_nil_r|].
    destruct (rev l ++ [x]) as [|y m] eqn:El; [by destruct (rev l)|]. rewrite <-El.
    by rewrite rev_app_distr, rev_involutive.
  - destruct (IsSpace c) eqn:Ec.
    + unfold addChar. rewrite Ec. destruct (word w) as [|x l] eqn:E.
      * rewrite Hw. simpl. rewrite IH by (rewrite E; done). by rewrite E.
      * rewrite Hw. simpl. destruct (rev l ++ [x]) as [|y m] eqn:El; [by destruct (rev l)|].
        rewrite <-El, IH by done. simpl. rewrite rev_app_distr, rev_involutive. simpl. by rewrite <-(assoc_L (++)).
    + unfold addChar. rewrite Ec. simpl. rewrite IH.
      * simpl. by rewrite rev_app_distr.
      * simpl. by destruct (word w).
Qed.

(** Literal text, without quotes, escapes and variables, is left as it is scanned by
    [ProcessWord] and is cut by [ProcessWords] exactly where [strings.Fields] cuts it. *)
Theorem ProcessWords_literal s envs :
  Forall literal_char s → ProcessWord s envs = Ok (scanned s) ∧ ProcessWords s envs = Ok (Fields (scanned s)).
Proof.
  intros Hs%literal_scanned. unfold ProcessWord, ProcessWords, process. rewrite stop_end by (done || lia). split; [done|].
  cbn [rbind]. by rewrite addChars_fields.
Qed.
Lemma ProcessWords_literal_witness :
  ProcessWord " 80 443/tcp  53" [] = Ok (scanned " 80 443/tcp  53") ∧ ProcessWords " 80 443/tcp  53" [] = Ok (Fields (scanned " 80 443/tcp  53")).
Proof. apply ProcessWords_literal. vm_decide. Defined.

(** ** Builder flags *)

Section bflags.

(** A setting as it is written: the name and, after an equals sign, the value. *)
Definition flag_text (st : gostring * option gostring) : gostring :=
  "--" ++ match st.2 with Some v => st.1 ++ ch "=" :: v | None => st.1 end.
(** The flags after a list of settings, when each one is acceptable. *)
Fixpoint apply_flags (sts : list (gostring * option gostring)) (m : gmap gostring BFlag) : option (gmap gostring BFlag) :=
  match sts with
  | [] => Some m
  | (n, eq) :: sts =>
      f ← m !! n;
      match flag_arg n (flagType f) eq with
      | Ok v => apply_flags sts (<[n := mkBFlag (flagType f) v]> m)
      | Err _ => None
      end
  end.

Lemma bflags_loop_settings sts bf m :
  Forall (fun st => st.1 ≠ [] ∧ ch "=" ∉ st.1) sts → NoDup (fst <$> sts) → (∀ st, st ∈ sts → st.1 ∉ used bf) →
  apply_flags sts (flags bf) = Some m →
  bflags_loop (flag_text <$> sts) bf =
  (mkBFlags (bArgs bf) m (list_to_set (fst <$> sts) ∪ used bf) (bErr bf), None).
Proof.
  revert bf. induction sts as [|[n eq] sts IH]; intros bf Hwf Hnd Hun; simpl.
  { intros [= <-]. destruct bf. simpl. by rewrite (left_id_L ∅ (∪)). }
  apply Forall_cons in Hwf as [[Hne Heq] Hwf]. apply NoDup_cons in Hnd as [Hn Hnd].
  destruct (flags bf !! n) as [f|] eqn:Ef; [|done]. simpl.
  destruct (flag_arg n (flagType f) eq) as [v|] eqn:Ev; [|done]. intros Hm.
  assert (Hcut : ∃ x l, (match eq with Some v => n ++ ch "=" :: v | None => n end) = x :: l ∧
    (match Cut "=" (x :: l) with Some (n, v) => (n, Some v) | None => (x :: l, None) end) = (n, eq)).
  { destruct n as [|x l]; [done|]. simpl in Heq. destruct eq as [v'|].
    - exists x, (l ++ ch "=" :: v'). split; [done|]. change (x :: l ++ ch "=" :: v') with ((x :: l) ++ ch "=" :: v').
      by rewrite Cut_char_app.
    - exists x, l. split; [done|]. by rewrite (proj2 (Cut_char_None _ _) Heq). }
  destruct Hcut as (x & l & -> & Hc). rewrite Hc, Ef.
  rewrite bool_decide_eq_false_2 by (apply (Hun (n, eq)); set_solver). rewrite Ev.
  rewrite (IH (mkBFlags (bArgs bf) (<[n := mkBFlag (flagType f) v]> (flags bf)) ({[n]} ∪ used bf) (bErr bf)) Hwf Hnd);
    [| |exact Hm].
  - simpl. by rewrite (assoc_L (∪)), (comm_L (∪) (list_to_set _) {[n]}).
  - intros st Hst. simpl. apply not_elem_of_union. split; [|apply Hun; set_solver].
    rewrite not_elem_of_singleton. intros <-. exact (Hn (list_elem_of_fmap_2 fst _ _ Hst)).
Qed.
End bflags.

(** Builder flags given once each, declared, and with values their types accept, all
    take effect: [Parse] succeeds, sets exactly those values and marks exactly those flags
    as used. *)
Theorem BFlags_Parse_settings bf sts m :
  bErr bf = None → used bf = ∅ → bArgs bf = flag_text <$> sts →
  Forall (fun st => st.1 ≠ [] ∧ ch "=" ∉ st.1) sts → NoDup (fst <$> sts) →
  apply_flags sts (flags bf) = Some m →
  BFlags_Parse bf = (mkBFlags (bArgs bf) m (list_to_set (fst <$> sts)) None, None).
Proof.
  intros He Hu Ha Hwf Hnd Hm. unfold BFlags_Parse. rewrite He, Ha.
  rewrite (bflags_loop_settings sts bf m Hwf Hnd); [|by rewrite Hu; set_solver|done].
  by rewrite Hu, (right_id_L ∅ (∪)), Ha, He.
Qed.
Definition demo_bflags : BFlags :=
  let bf := AddString "label" "none" (AddBool "force" false NewBFlags) in
  mkBFlags ["--force"; "--label=a=b"] (flags bf) (used bf) (bErr bf).
Lemma BFlags_Parse_settings_witness :
  BFlags_Parse demo_bflags =
  (mkBFlags ["--force"; "--label=a=b"] (<["label" := mkBFlag stringType "a=b"]> (<["force" := mkBFlag boolType "true"]> (flags demo_bflags)))
     (list_to_set ["force"; "label"]) None, None).
Proof.
  apply (BFlags_Parse_settings demo_bflags [("force", None); ("label", Some "a=b")]).
  1,2,3: reflexivity.
  - repeat (apply Forall_cons_2; [split; [discriminate|vm_decide]|]). apply Forall_nil_2.
  - vm_decide.
  - reflexivity.
Defined.

(** A Dockerfile whose [ONBUILD] instruction is followed by a comment parses without
    error, to a node with a nil child; dispatching it dereferences the nil pointer. *)
Theorem onbuild_nil_child :
  match Parse ("ONBUILD # later" ++ nl) with
  | Ok root => omap (fun n => n) (Children root) ≠ [] ∧
               ∀ n, Some n ∈ Children root → dispatch [] [] n = Err NilPointer
  | Err _ => False
  end.
Proof.
  vm_compute Parse. split; [done|]. intros n [[= ->]|H]%elem_of_cons; [vm_compute; reflexivity|].
  by apply elem_of_nil in H.
Qed.
