(* ===== verification/Digest.v ===== *)
(** * Digest: content addresses

    The digests that name images and layers: [digest.FromBytes] of
    [src/vendor/src/github.com/docker/distribution/digest], that is
    ["sha256:"] and the hexadecimal SHA-256 of the content, written out as the
    compression function on 32-bit words.  The chain of layer addresses of
    [src/layer/layer.go] ([CreateChainID]) is built on it. *)

From S2P Require Import Prelude Strconv Regexp Reference.
Import Strings Regexp Reference.

Local Open Scope Z_scope.

Module Digest.

(** ** 32-bit words *)

Definition w32 (x : Z) : Z := Z.land x (Z.ones 32).
Definition add32 (x y : Z) : Z := w32 (x + y).
Definition rotr (n x : Z) : Z := Z.lor (Z.shiftr x n) (w32 (Z.shiftl x (32 - n))).
Definition Ch (x y z : Z) : Z := Z.lxor (Z.land x y) (Z.land (Z.lxor x (Z.ones 32)) z).
Definition Maj (x y z : Z) : Z := Z.lxor (Z.lxor (Z.land x y) (Z.land x z)) (Z.land y z).
Definition Sigma0 (x : Z) : Z := Z.lxor (Z.lxor (rotr 2 x) (rotr 13 x)) (rotr 22 x).
Definition Sigma1 (x : Z) : Z := Z.lxor (Z.lxor (rotr 6 x) (rotr 11 x)) (rotr 25 x).
Definition sigma0 (x : Z) : Z := Z.lxor (Z.lxor (rotr 7 x) (rotr 18 x)) (Z.shiftr x 3).
Definition sigma1 (x : Z) : Z := Z.lxor (Z.lxor (rotr 17 x) (rotr 19 x)) (Z.shiftr x 10).

(** The greatest root below [2 ^ n] whose [k]-th power is at most [x], bit by bit. *)
Fixpoint root (k : Z) (n : nat) (acc x : Z) : Z :=
  match n with
  | O => acc
  | S n => let r := acc + 2 ^ Z.of_nat n in root k n (if r ^ k <=? x then r else acc) x
  end.
Definition primes : list Z :=
  [2; 3; 5; 7; 11; 13; 17; 19; 23; 29; 31; 37; 41; 43; 47; 53; 59; 61; 67; 71; 73; 79; 83; 89; 97; 101;
   103; 107; 109; 113; 127; 131; 137; 139; 149; 151; 157; 163; 167; 173; 179; 181; 191; 193; 197; 199;
   211; 223; 227; 229; 233; 239; 241; 251; 257; 263; 269; 271; 277; 281; 283; 293; 307; 311].
(** The round constants are the first 32 bits of the fractional parts of the cube roots of the
    first 64 primes, and the initial state those of the square roots of the first eight. *)
Definition K : list Z := Eval vm_compute in (fun p => w32 (root 3 36 0 (p * 2 ^ 96))) <$> primes.
Definition H0 : list Z := Eval vm_compute in (fun p => w32 (root 2 36 0 (p * 2 ^ 64))) <$> take 8 primes.

Record hash := mkHash { h0 : Z; h1 : Z; h2 : Z; h3 : Z; h4 : Z; h5 : Z; h6 : Z; h7 : Z }.
Definition init : hash :=
  let at_ i := nth i H0 0 in
  mkHash (at_ 0%nat) (at_ 1%nat) (at_ 2%nat) (at_ 3%nat) (at_ 4%nat) (at_ 5%nat) (at_ 6%nat) (at_ 7%nat).

(** ** The compression function *)

(** The message schedule, latest word first. *)
Fixpoint schedule (n : nat) (ws : list Z) : list Z :=
  match n with
  | O => ws
  | S n =>
      let at_ i := nth i ws 0 in
      schedule n (add32 (add32 (sigma1 (at_ 1%nat)) (at_ 6%nat)) (add32 (sigma0 (at_ 14%nat)) (at_ 15%nat)) :: ws)
  end.
Definition round (h : hash) (kw : Z * Z) : hash :=
  let '(k, w) := kw in
  let t1 := add32 (add32 (add32 (h7 h) (Sigma1 (h4 h))) (add32 (Ch (h4 h) (h5 h) (h6 h)) k)) w in
  let t2 := add32 (Sigma0 (h0 h)) (Maj (h0 h) (h1 h) (h2 h)) in
  mkHash (add32 t1 t2) (h0 h) (h1 h) (h2 h) (add32 (h3 h) t1) (h4 h) (h5 h) (h6 h).
Definition compress (h : hash) (block : list Z) : hash :=
  let ws := rev (schedule 48 (rev block)) in
  let g := fold_left round (zip K ws) h in
  mkHash (add32 (h0 h) (h0 g)) (add32 (h1 h) (h1 g)) (add32 (h2 h) (h2 g)) (add32 (h3 h) (h3 g))
    (add32 (h4 h) (h4 g)) (add32 (h5 h) (h5 g)) (add32 (h6 h) (h6 g)) (add32 (h7 h) (h7 g)).

(** ** Padding and blocks *)

(** [n] bytes of [x], most significant first. *)
Fixpoint big_endian (n : nat) (x : Z) : list Z :=
  match n with O => [] | S n => Z.land (Z.shiftr x (8 * Z.of_nat n)) 255 :: big_endian n x end.
Definition pad (p : list Z) : list Z :=
  let len := Z.of_nat (length p) in
  p ++ [128] ++ replicate (Z.to_nat ((55 - len) mod 64)) 0 ++ big_endian 8 (8 * len).
Fixpoint words (p : list Z) : list Z :=
  match p with
  | a :: b :: c :: d :: p => (Z.shiftl a 24 + Z.shiftl b 16 + Z.shiftl c 8 + d) :: words p
  | _ => []
  end.
(** The blocks of sixteen words; as many as [fuel] allows. *)
Fixpoint blocks (fuel : nat) (ws : list Z) : list (list Z) :=
  match fuel, ws with
  | S fuel, _ :: _ => take 16 ws :: blocks fuel (drop 16 ws)
  | _, _ => []
  end.
Definition sum256 (p : list Z) : hash := let ws := words (pad p) in fold_left compress (blocks (length ws) ws) init.

(** ** Digests *)

Definition hex_digit (x : Z) : ascii :=
  ascii_of_N (Z.to_N (if x <? 10 then 48 + x else 87 + x)).
Fixpoint hex (n : nat) (x : Z) : gostring :=
  match n with O => [] | S n => hex_digit (Z.land (Z.shiftr x (4 * Z.of_nat n)) 15) :: hex n x end.
Definition hex_hash (h : hash) : gostring :=
  hex 8 (h0 h) ++ hex 8 (h1 h) ++ hex 8 (h2 h) ++ hex 8 (h3 h) ++ hex 8 (h4 h) ++ hex 8 (h5 h) ++ hex 8 (h6 h) ++ hex 8 (h7 h).
(** [FromBytes]. *)
Definition FromBytes (p : gostring) : gostring := "sha256:" ++ hex_hash (sum256 ((Z.of_N ∘ N_of_ascii) <$> p)).

(** ** Chains of layers *)

(** [createChainIDFromParent]. *)
Fixpoint createChainIDFromParent (parent : gostring) (dgsts : list gostring) : gostring :=
  match dgsts with
  | [] => parent
  | d :: ds =>
      createChainIDFromParent (if parent =s [] then d else FromBytes (parent ++ " " ++ d)) ds
  end.
Definition CreateChainID (dgsts : list gostring) : gostring := createChainIDFromParent [] dgsts.

End Digest.

Import Digest.

Example FromBytes_empty : FromBytes [] = "sha256:e3b0c44298fc1c149afbf4c8996fb92427ae41e4649b934ca495991b7852b855".
Proof. vm_compute. reflexivity. Qed.
Example FromBytes_abc : FromBytes "abc" = "sha256:ba7816bf8f01cfea414140de5dae2223b00361a396177a9cb410ff61f20015ad".
Proof. vm_compute. reflexivity. Qed.
(** Two blocks. *)
Example FromBytes_two : FromBytes "abcdbcdecdefdefgefghfghighijhijkijkljklmklmnlmnomnopnopq" =
  "sha256:248d6a61d20638b8e5c026930c3e6039a33ce45964ff2167f6ecedd419db06c1".
Proof. vm_compute. reflexivity. Qed.

Lemma FromBytes_ne p : FromBytes p ≠ [].
Proof. discriminate. Qed.

(** A chain is built one layer at a time. *)
Lemma createChainID_app parent ds es :
  createChainIDFromParent parent (ds ++ es) = createChainIDFromParent (createChainIDFromParent parent ds) es.
Proof. revert parent. induction ds as [|d ds IH]; intros parent; [done|]. simpl. apply IH. Qed.
Lemma createChainID_ne parent ds : parent ≠ [] → createChainIDFromParent parent ds ≠ [].
Proof.
  revert parent. induction ds as [|d ds IH]; intros parent Hp; [done|]. simpl. apply IH.
  unfold streqb. by rewrite bool_decide_eq_false_2.
Qed.

(** A content address is a valid digest. *)
Lemma hex_digit_x x : 0 <= x < 16 → is_xdigit (hex_digit x) = true.
Proof.
  intros Hx. assert (x = 0 ∨ x = 1 ∨ x = 2 ∨ x = 3 ∨ x = 4 ∨ x = 5 ∨ x = 6 ∨ x = 7 ∨ x = 8 ∨ x = 9 ∨ x = 10 ∨
    x = 11 ∨ x = 12 ∨ x = 13 ∨ x = 14 ∨ x = 15) as H by lia.
  repeat (destruct H as [->|H]; [reflexivity|]). subst. reflexivity.
Qed.
Lemma hex_spec n x : length (hex n x) = n ∧ Forall (fun c => is_xdigit c = true) (hex n x).
Proof.
  induction n as [|n [IH1 IH2]]; [by split|]. cbn [hex length]. split; [by rewrite IH1|]. constructor; [|done].
  apply hex_digit_x. change 15 with (Z.ones 4). rewrite Z.land_ones by lia. apply Z.mod_pos_bound. lia.
Qed.
Lemma hex_hash_spec h : length (hex_hash h) = 64%nat ∧ Forall (fun c => is_xdigit c = true) (hex_hash h).
Proof.
  unfold hex_hash. rewrite !length_app, !Forall_app.
  repeat rewrite (proj1 (hex_spec 8 _)). split; [done|]. split_and!; apply hex_spec.
Qed.
Lemma FromBytes_valid p : is_ok (DistRef.Validate (FromBytes p)) = true.
Proof.
  unfold FromBytes. destruct (hex_hash_spec (sum256 ((Z.of_N ∘ N_of_ascii) <$> p))) as [Hl Hx].
  set (h := hex_hash _) in *. unfold DistRef.Validate.
  assert (Hm : MatchString DistRef.digestAnchored ("sha256:" ++ h) = true).
  { apply MatchString_lang. unfold DistRef.digestAnchored, DistRef.expression. cbn [fold_right foldr].
    apply lang_Seq. exists "sha256". exists (":" ++ h). split; [done|]. split.
    - apply lang_Plus_Forall. split; [done|]. repeat constructor.
    - apply lang_Seq. exists ":", h. split; [done|]. split; [by apply lang_Lit|]. apply lang_Plus_Forall. split; [|done]. by destruct h. }
  assert (Hc : Cut ":" ("sha256:" ++ h) = Some ("sha256" : gostring, h)) by reflexivity.
  rewrite Hm, Hc. cbn [negb]. rewrite decide_False by (intros ->; done).
  change (DistRef.algorithmSize "sha256") with (Some 32%nat). cbn iota. by rewrite decide_True by (by rewrite Hl).
Qed.
