(* ===== verification/Builder.v ===== *)
(** * Builder: building an image from a Dockerfile

    Models [src/builder/dockerfile]: the [Builder] and [build] of [builder.go], the
    handlers of the instructions in [dispatchers.go], and [commit], [create],
    [probeCache], [runContextCommand], [processImageFrom] of [internals.go].  The
    arguments of an instruction come from [ShellWord], its syntax tree from
    [Dockerfile].

    The daemon is an interface, [Backend], as it is in [src/builder/builder.go]; each
    answer may depend on everything that was asked before.  The state keeps the trace
    of what was asked and answered.  A handler maps a state to a state and a result:
    an error does not undo the changes made before it, and a deferred function is
    [finally].  The output of the build is not modelled.

    A nil slice and an empty one are the same list, a nil map is an empty map.  How
    [fmt] prints a [strslice.StrSlice] is an argument, since the version of that type
    that the builder uses is not in the repository.  The orders in which Go ranges over
    maps are arguments too.  The platform is Linux. *)

From S2P Require Import Prelude Strconv GoPath Reference Opts Ports RunConfig GoMatch Dockerfile ShellWord Digest GoPath.
Import Strings Strconv Opts.RunOpts Ports.Nat_ RunConfig GoMatch Dockerfile ShellWord Digest GoPath.

Local Open Scope Z_scope.

(** ** Signals *)

Module Signal.

Definition sigrtmin : Z := 34.
Definition sigrtmax : Z := 64.

Definition SignalMap : gmap gostring Z := list_to_map (
  [("ABRT", 6); ("ALRM", 14); ("BUS", 7); ("CHLD", 17); ("CLD", 17); ("CONT", 18); ("FPE", 8); ("HUP", 1); ("ILL", 4); ("INT", 2);
   ("IO", 29); ("IOT", 6); ("KILL", 9); ("PIPE", 13); ("POLL", 29); ("PROF", 27); ("PWR", 30); ("QUIT", 3); ("SEGV", 11);
   ("STKFLT", 16); ("STOP", 19); ("SYS", 31); ("TERM", 15); ("TRAP", 5); ("TSTP", 20); ("TTIN", 21); ("TTOU", 22); ("UNUSED", 31);
   ("URG", 23); ("USR1", 10); ("USR2", 12); ("VTALRM", 26); ("WINCH", 28); ("XCPU", 24); ("XFSZ", 25); ("RTMIN", sigrtmin)] ++
  ((fun k => ("RTMIN+" ++ FormatUint k, sigrtmin + k)) <$> seqZ 1 15) ++
  ((fun k => ("RTMAX-" ++ FormatUint k, sigrtmax - k)) <$> seqZ 1 14) ++ [("RTMAX" : gostring, sigrtmax)]).

(** A number other than zero is taken as it is, whether or not there is such a signal. *)
Definition ParseSignal (rawSignal : gostring) : result goerror Z :=
  match Atoi rawSignal with
  | (s, None) => if s =? 0 then Err (Errorf "Invalid signal: %s" [rawSignal]) else Ok s
  | (_, Some _) =>
      match SignalMap !! TrimPrefix (ToUpper rawSignal) "SIG" with
      | Some s => Ok s
      | None => Err (Errorf "Invalid signal: %s" [rawSignal])
      end
  end.

End Signal.

(** ** Printing *)

Module Fmt.

(** [strconv.Quote]; printable runes outside of ASCII are printed as they are. *)
Definition quote_char (c : ascii) : gostring :=
  let n := Z.of_N (N_of_ascii c) in
  if n =? 34 then [ch "\"; ascii_of_N 34]
  else if n =? 92 then "\\"
  else if n =? 7 then "\a"
  else if n =? 8 then "\b"
  else if n =? 12 then "\f"
  else if n =? 10 then "\n"
  else if n =? 13 then "\r"
  else if n =? 9 then "\t"
  else if n =? 11 then "\v"
  else if (n <? 32) || (n =? 127) then "\x" ++ [hex_digit (n / 16); hex_digit (n mod 16)]
  else [c].
Definition Quote (s : gostring) : gostring := [ascii_of_N 34] ++ concat (quote_char <$> s) ++ [ascii_of_N 34].

(** A slice of strings under the verbs [%v] and [%q]. *)
Definition show_v (l : list gostring) : gostring := "[" ++ Join l " " ++ "]".
Definition show_q (l : list gostring) : gostring := "[" ++ Join (Quote <$> l) " " ++ "]".

(** [sort.Strings]. *)
Definition str_le (s t : gostring) : Prop := leb s t = true.
#[global] Instance str_le_dec : RelDecision str_le.
Proof. intros s t. unfold str_le. apply _. Defined.
Definition sort_strings (l : list gostring) : list gostring := merge_sort str_le l.

End Fmt.

(** ** The state of a build *)

Module Builder.
Import Signal Fmt.

(** [container.Config]: [RunConfig] has the fields that the command line sets. *)
Record Config := mkBConfig { base : RunConfig.Config; OnBuild : list gostring; ArgsEscaped : bool }.

Definition upd (f : RunConfig.Config → RunConfig.Config) (c : Config) : Config := mkBConfig (f (base c)) (OnBuild c) (ArgsEscaped c).

(** Assignments to one field. *)
Definition with_image (v : gostring) : Config → Config :=
  upd (fun '(mkConfig a b c d e f g h i j k l m _ o p q r s t) => mkConfig a b c d e f g h i j k l m v o p q r s t).
Definition with_cmd (v : list gostring) : Config → Config :=
  upd (fun '(mkConfig a b c d e f g h i j k l _ n o p q r s t) => mkConfig a b c d e f g h i j k l v n o p q r s t).
Definition with_env (v : list gostring) : Config → Config :=
  upd (fun '(mkConfig a b c d e f g h i j k _ m n o p q r s t) => mkConfig a b c d e f g h i j k v m n o p q r s t).
Definition with_user (v : gostring) : Config → Config :=
  upd (fun '(mkConfig a b c _ e f g h i j k l m n o p q r s t) => mkConfig a b c v e f g h i j k l m n o p q r s t).
Definition with_ports (v : gset Port) : Config → Config :=
  upd (fun '(mkConfig a b _ d e f g h i j k l m n o p q r s t) => mkConfig a b v d e f g h i j k l m n o p q r s t).
Definition with_volumes (v : gset gostring) : Config → Config :=
  upd (fun '(mkConfig a b c d e f g h i j k l m n _ p q r s t) => mkConfig a b c d e f g h i j k l m n v p q r s t).
Definition with_entrypoint (v : list gostring) : Config → Config :=
  upd (fun '(mkConfig a b c d e f g h i j k l m n o p _ r s t) => mkConfig a b c d e f g h i j k l m n o p v r s t).
Definition with_workdir (v : gostring) : Config → Config :=
  upd (fun '(mkConfig a b c d e f g h i j k l m n o p q _ s t) => mkConfig a b c d e f g h i j k l m n o p q v s t).
Definition with_labels (v : gmap gostring gostring) : Config → Config :=
  upd (fun '(mkConfig a b c d e f g h i j k l m n o p q r _ t) => mkConfig a b c d e f g h i j k l m n o p q r v t).
Definition with_stopsignal (v : gostring) : Config → Config :=
  upd (fun '(mkConfig a b c d e f g h i j k l m n o p q r s _) => mkConfig a b c d e f g h i j k l m n o p q r s v).
Definition with_onbuild (v : list gostring) (c : Config) : Config := mkBConfig (base c) v (ArgsEscaped c).
Definition with_escaped (v : bool) (c : Config) : Config := mkBConfig (base c) (OnBuild c) v.

Definition cEnv (c : Config) : list gostring := Env (base c).
Definition cCmd (c : Config) : list gostring := Cmd (base c).
Definition cImage (c : Config) : gostring := Image (base c).

Definition no_config : Config :=
  mkBConfig (mkConfig [] [] ∅ [] false false false false false false false [] [] [] ∅ [] [] [] ∅ []) [] false.

(** The limits of the containers of a build, from its options. *)
Record BuildHost := mkBuildHost { bh_Isolation : gostring; bh_ShmSize : Z; bh_Resources : Resources }.

(** [types.ImageBuildOptions], less the build arguments, which the build changes. *)
Record Options := mkOptions {
  PullParent : bool; NoCache : bool; Remove : bool; ForceRemove : bool; Tags : list gostring; opt_Host : BuildHost
}.

(** [builder.FileInfo]; a file that is not [Hashed] has no hash. *)
Record FileInfo := mkFileInfo { fi_Name : gostring; fi_Path : gostring; fi_IsDir : bool; fi_Hash : option gostring }.
Record copyInfo := mkCopyInfo { ci_file : FileInfo; decompress : bool }.

(** [builder.Image]. *)
Record BImage := mkBImage { ImageID : gostring; bi_RunConfig : option Config }.

(** What was asked of the daemon, and its answer. *)
Abbreviation answer A := (result gostring A).
Inductive event :=
| EvPull (name : gostring) (r : answer BImage)
| EvFrom (id : gostring)
| EvProbe (parent : gostring) (c : Config) (r : answer gostring)
| EvCreate (c : Config) (host : option BuildHost) (r : answer gostring)
| EvUpdateCmd (id : gostring) (cmd : list gostring) (r : answer unit)
| EvRun (id : gostring) (r : answer Z)
| EvCopy (id dest : gostring) (f : FileInfo) (decompress : bool) (r : answer unit)
| EvCommit (id author : gostring) (c : Config) (r : answer gostring)
| EvRemove (id : gostring) (r : answer unit)
| EvTag (ref : Reference.Named) (img : gostring) (r : answer unit).
Abbreviation history := (list event).

(** The daemon.  [ContainerCreate] merges the configuration of the image into the one
    it is given, and returns it.  [ContainerRun] is [ContainerStart], the end of the
    output and the code of [ContainerWait].  [GetCachedImageOnBuild] is there when the
    daemon is an [ImageCache]. *)
Record Backend := mkBackend {
  GetImageOnBuild : history → gostring → option BImage;
  PullOnBuild : history → gostring → answer BImage;
  GetCachedImageOnBuild : option (history → gostring → Config → answer gostring);
  ContainerCreate : history → Config → option BuildHost → Config * answer gostring;
  ContainerUpdateCmdOnBuild : history → gostring → list gostring → answer unit;
  ContainerRun : history → gostring → answer Z;
  CopyOnBuild : history → gostring → gostring → FileInfo → bool → answer unit;
  Commit : history → gostring → gostring → Config → answer gostring;
  ContainerRm : history → gostring → answer unit;
  TagImage : history → Reference.Named → gostring → answer unit;
}.

(** The build context; [download] fetches a URL to a temporary file. *)
Record BuildContext := mkContext {
  ctx_Stat : gostring → answer (gostring * FileInfo);
  ctx_Walk : gostring → list (gostring * answer FileInfo);
  download : gostring → answer FileInfo
}.

Record Builder := mkBuilder {
  runConfig : Config; tmpContainers : gset gostring; image : gostring; noBaseImage : bool; maintainer : gostring;
  cmdSet : bool; disableCommit : bool; cacheBusted : bool; allowedBuildArgs : gset gostring;
  BuildArgs : gmap gostring gostring; trace : history
}.

Definition set_config (f : Config → Config) (b : Builder) : Builder :=
  mkBuilder (f (runConfig b)) (tmpContainers b) (image b) (noBaseImage b) (maintainer b) (cmdSet b) (disableCommit b)
    (cacheBusted b) (allowedBuildArgs b) (BuildArgs b) (trace b).
Definition set_tmp (f : gset gostring → gset gostring) (b : Builder) : Builder :=
  mkBuilder (runConfig b) (f (tmpContainers b)) (image b) (noBaseImage b) (maintainer b) (cmdSet b) (disableCommit b)
    (cacheBusted b) (allowedBuildArgs b) (BuildArgs b) (trace b).
Definition set_image (i : gostring) (b : Builder) : Builder :=
  mkBuilder (runConfig b) (tmpContainers b) i (noBaseImage b) (maintainer b) (cmdSet b) (disableCommit b)
    (cacheBusted b) (allowedBuildArgs b) (BuildArgs b) (trace b).
Definition set_scratch (b : Builder) : Builder :=
  mkBuilder (runConfig b) (tmpContainers b) [] true (maintainer b) (cmdSet b) (disableCommit b)
    (cacheBusted b) (allowedBuildArgs b) (BuildArgs b) (trace b).
Definition set_maintainer (m : gostring) (b : Builder) : Builder :=
  mkBuilder (runConfig b) (tmpContainers b) (image b) (noBaseImage b) m (cmdSet b) (disableCommit b)
    (cacheBusted b) (allowedBuildArgs b) (BuildArgs b) (trace b).
Definition set_cmdSet (b : Builder) : Builder :=
  mkBuilder (runConfig b) (tmpContainers b) (image b) (noBaseImage b) (maintainer b) true (disableCommit b)
    (cacheBusted b) (allowedBuildArgs b) (BuildArgs b) (trace b).
Definition set_busted (b : Builder) : Builder :=
  mkBuilder (runConfig b) (tmpContainers b) (image b) (noBaseImage b) (maintainer b) (cmdSet b) (disableCommit b)
    true (allowedBuildArgs b) (BuildArgs b) (trace b).
Definition set_args (allowed : gset gostring) (args : gmap gostring gostring) (b : Builder) : Builder :=
  mkBuilder (runConfig b) (tmpContainers b) (image b) (noBaseImage b) (maintainer b) (cmdSet b) (disableCommit b)
    (cacheBusted b) allowed args (trace b).
Definition record (e : event) (b : Builder) : Builder :=
  mkBuilder (runConfig b) (tmpContainers b) (image b) (noBaseImage b) (maintainer b) (cmdSet b) (disableCommit b)
    (cacheBusted b) (allowedBuildArgs b) (BuildArgs b) (trace b ++ [e]).

(** [NewBuilder]. *)
Definition NewBuilder (args : gmap gostring gostring) : Builder := mkBuilder no_config ∅ [] false [] false false false ∅ args [].

(** ** Handlers *)

Inductive berror :=
| BErr (e : goerror)
| BDispatch (e : dispatch_error)
| BParse (e : parse_error)
| BDaemon (e : gostring)
| BPattern (e : match_error)
| BReference (e : Reference.error)
| BPanic.

Abbreviation M A := (Builder → Builder * result berror A).
Definition ret {A} (x : A) : M A := fun b => (b, Ok x).
Definition throw {A} (e : berror) : M A := fun b => (b, Err e).
Definition bind {A B} (m : M A) (k : A → M B) : M B :=
  fun b => match m b with (b, Ok x) => k x b | (b, Err e) => (b, Err e) end.
Definition modify (f : Builder → Builder) : M unit := fun b => (f b, Ok tt).
Definition gets {A} (f : Builder → A) : M A := fun b => (b, Ok (f b)).
Definition lift {A} (r : result berror A) : M A := fun b => (b, r).
(** A deferred function. *)
Definition finally {A} (m : M A) (f : Builder → Builder) : M A := fun b => let '(b, r) := m b in (f b, r).
(** A call of the daemon. *)
Definition ask {A} (f : Builder → answer A) (e : answer A → event) : M A :=
  fun b =>
    let r := f b in
    (record (e r) b, match r with Ok x => Ok x | Err s => Err (BDaemon s) end).

Declare Scope builder_scope.
Delimit Scope builder_scope with builder.
Notation "x <- m ;; k" := (bind m (fun x => k)) (at level 100, m at next level, right associativity) : builder_scope.
Notation "m ;; k" := (bind m (fun _ => k)) (at level 100, right associativity) : builder_scope.
Open Scope builder_scope.

Definition fail {A} (fmt : gostring) (args : list gostring) : M A := throw (BErr (Errorf fmt args)).

Fixpoint mapM_ {A} (f : A → M unit) (l : list A) : M unit :=
  match l with
  | [] => ret tt
  | x :: l => f x ;; mapM_ f l
  end.

Section build.
  Context (docker : Backend) (options : Options) (context : option BuildContext).
  Context (rangeArgs : gmap gostring gostring → list (gostring * gostring)) (rangeSet : gset gostring → list gostring).
  Context (show_strslice : list gostring → gostring).

(** *** [internals.go] *)

Definition BuiltinAllowedBuildArgs : list gostring :=
  ["HTTP_PROXY"; "http_proxy"; "HTTPS_PROXY"; "https_proxy"; "FTP_PROXY"; "ftp_proxy"; "NO_PROXY"; "no_proxy"].
Definition isBuildArgAllowed (b : Builder) (arg : gostring) : bool :=
  bool_decide (arg ∈ BuiltinAllowedBuildArgs) || bool_decide (arg ∈ allowedBuildArgs b).

(** The build arguments that are allowed, in the order of the map. *)
Definition allowed_args (b : Builder) : list (gostring * gostring) :=
  filter (fun kv => isBuildArgAllowed b kv.1 = true) (rangeArgs (BuildArgs b)).

Definition probeCache : M bool :=
  fun b =>
    match GetCachedImageOnBuild docker with
    | None => (b, Ok false)
    | Some cached =>
        if NoCache options || cacheBusted b then (b, Ok false)
        else
          (cache <- ask (fun b => cached (trace b) (image b) (runConfig b)) (EvProbe (image b) (runConfig b)) ;;
           if cache =s [] then modify set_busted ;; ret false
           else modify (set_image cache) ;; ret true) b
    end.

(** The call of [ContainerCreate], which may change the configuration. *)
Definition container_create (host : option BuildHost) : M gostring :=
  fun b =>
    let '(c, r) := ContainerCreate docker (trace b) (runConfig b) host in
    (id <- ask (fun _ => r) (EvCreate (runConfig b) host) ;;
     modify (set_tmp (fun s => {[id]} ∪ s)) ;; ret id) (set_config (fun _ => c) b).

Definition create : M gostring :=
  fun b =>
    if (image b =s []) && negb (noBaseImage b) then fail "Please provide a source image with `from` prior to run" [] b
    else
      (modify (set_config (with_image (image b))) ;;
       let config := runConfig (set_config (with_image (image b)) b) in
       id <- container_create (Some (opt_Host options)) ;;
       (if Nat.ltb 0 (length (cCmd config))
        then ask (fun b => ContainerUpdateCmdOnBuild docker (trace b) id (cCmd config)) (EvUpdateCmd id (cCmd config))
        else ret tt) ;;
       ret id) b.

(** [Builder.run]: the container is started and waited for. *)
Definition run_container (cID : gostring) : M unit :=
  code <- ask (fun b => ContainerRun docker (trace b) cID) (EvRun cID) ;;
  if code =? 0 then ret tt
  else fun b => fail "The command '%s' returned a non-zero code: %d" [Join (cCmd (runConfig b)) " "; FormatInt code] b.

(** The end of [commit]: the container becomes the new image. *)
Definition commit_container (id : gostring) (autoCmd : list gostring) : M unit :=
  fun b =>
    let autoConfig := with_cmd autoCmd (runConfig b) in
    (img <- ask (fun b => Commit docker (trace b) id (maintainer b) autoConfig) (EvCommit id (maintainer b) autoConfig) ;;
     modify (set_image img)) b.

Definition commit (id : gostring) (autoCmd : list gostring) (comment : gostring) : M unit :=
  fun b =>
    if disableCommit b then ret tt b
    else if (image b =s []) && negb (noBaseImage b) then fail "Please provide a source image with `from` prior to commit" [] b
    else
      (modify (set_config (with_image (image b))) ;;
       match id with
       | [] =>
           let cmd := cCmd (runConfig b) in
           finally
             (modify (set_config (with_cmd ["/bin/sh"; "-c"; "#(nop) " ++ comment])) ;;
              hit <- probeCache ;;
              if hit : bool then ret tt else id <- create ;; commit_container id autoCmd)
             (set_config (with_cmd cmd))
       | _ => commit_container id autoCmd
       end) b.

(** *** [ADD] and [COPY] *)

Definition IsURL (s : gostring) : bool := HasPrefix s "http://" || HasPrefix s "https://".

Fixpoint containsWildcards (name : gostring) : bool :=
  match name with
  | [] => false
  | c :: rest =>
      if c =c "\" then match rest with [] => false | _ :: rest => containsWildcards rest end
      else (c =c "*") || (c =c "?") || (c =c "[") || containsWildcards rest
  end.

Definition hash_all (hashes : list gostring) : gostring :=
  hex_hash (sum256 ((fun c => Z.of_N (N_of_ascii c)) <$> Join hashes ",")).

Definition daemon_result {A} (r : answer A) : result berror A := match r with Ok x => Ok x | Err e => Err (BDaemon e) end.

(** The hashes of the files below a directory. *)
Fixpoint sub_hashes (files : list (gostring * answer FileInfo)) : result berror (list gostring) :=
  match files with
  | [] => Ok []
  | (_, Err e) :: _ => Err (BDaemon e)
  | (_, Ok info) :: files =>
      match fi_Hash info with
      | None => Err BPanic
      | Some h => let! hs := sub_hashes files in Ok (h :: hs)
      end
  end.

Definition context_path (origPath : gostring) : gostring :=
  let origPath := match origPath with c :: (_ :: _) as rest => if c =c "/" then drop 1 origPath else origPath | _ => origPath end in
  TrimPrefix origPath "./".

(** [calcCopyInfo] without wildcards. *)
Definition calc_one (ctx : BuildContext) (origPath : gostring) (allowLocalDecompression : bool) : result berror (list copyInfo) :=
  let! (statPath, fi) := daemon_result (ctx_Stat ctx (context_path origPath)) in
  match fi_Hash fi with
  | None => Ok [mkCopyInfo fi allowLocalDecompression]
  | Some h =>
      let rehash h := [mkCopyInfo (mkFileInfo (fi_Name fi) (fi_Path fi) (fi_IsDir fi) (Some h)) allowLocalDecompression] in
      if fi_IsDir fi then
        let! hs := sub_hashes (ctx_Walk ctx statPath) in
        Ok (rehash ("dir:" ++ hash_all (sort_strings hs)))
      else Ok (rehash ("file:" ++ h))
  end.

(** The files that match a pattern; an error of the pattern is no match. *)
Fixpoint walk_matches (ctx : BuildContext) (pattern : gostring) (allowLocalDecompression : bool) (files : list (gostring * answer FileInfo))
    : result berror (list copyInfo) :=
  match files with
  | [] => Ok []
  | (_, Err e) :: _ => Err (BDaemon e)
  | (path, Ok info) :: files =>
      if (fi_Name info =s []) || negb (match Match pattern path with Ok b => b | Err _ => false end)
      then walk_matches ctx pattern allowLocalDecompression files
      else
        let! infos := calc_one ctx path allowLocalDecompression in
        let! rest := walk_matches ctx pattern allowLocalDecompression files in
        Ok (infos ++ rest)
  end.

Definition calcCopyInfo (ctx : BuildContext) (origPath : gostring) (allowLocalDecompression : bool) : result berror (list copyInfo) :=
  if containsWildcards (context_path origPath)
  then walk_matches ctx (context_path origPath) allowLocalDecompression (ctx_Walk ctx [])
  else calc_one ctx origPath allowLocalDecompression.

(** The sources of an instruction. *)
Fixpoint copy_infos (ctx : BuildContext) (allowRemote allowLocalDecompression : bool) (cmdName : gostring) (origs : list gostring)
    : result berror (list copyInfo) :=
  match origs with
  | [] => Ok []
  | orig :: origs =>
      let! infos :=
        (if IsURL orig then
           if negb allowRemote then Err (BErr (Errorf "Source can't be a URL for %s" [cmdName]))
           else let! fi := daemon_result (download ctx orig) in Ok [mkCopyInfo fi false]
         else calcCopyInfo ctx orig allowLocalDecompression) in
      let! rest := copy_infos ctx allowRemote allowLocalDecompression cmdName origs in
      Ok (infos ++ rest)
  end.

(** The hash of the sources and their names. *)
Definition source_key (infos : list copyInfo) : gostring * gostring :=
  match infos with
  | [i] => (default [] (fi_Hash (ci_file i)), fi_Name (ci_file i))
  | _ => ("multi:" ++ hash_all (omap (fun i => fi_Hash (ci_file i)) infos), Join ((fun i => fi_Name (ci_file i)) <$> infos) " ")
  end.

(** A relative destination is below the working directory. *)
Definition copy_dest (workingDir dest : gostring) : gostring :=
  if IsAbs dest then dest
  else PathJoin ["/"; workingDir; dest] ++ (if HasSuffix dest "/" then "/" else []).

Definition runContextCommand (args : list gostring) (allowRemote allowLocalDecompression : bool) (cmdName : gostring) : M unit :=
  fun b =>
    match context with
    | None => fail "No context given. Impossible to use %s" [cmdName] b
    | Some ctx =>
        if Nat.ltb (length args) 2 then fail "Invalid %s format - at least two arguments required" [cmdName] b
        else
          let dest := default [] (last args) in
          (modify (set_config (with_image (image b))) ;;
           infos <- lift (copy_infos ctx allowRemote allowLocalDecompression cmdName (take (length args - 1) args)) ;;
           if Nat.eqb (length infos) 0 then fail "No source files were specified" []
           else if Nat.ltb 1 (length infos) && negb (HasSuffix dest "/")
           then fail "When using %s with more than one source file, the destination must be a directory and end with a /" [cmdName]
           else
             let '(srcHash, origPaths) := source_key infos in
             let cmd := cCmd (runConfig b) in
             finally
               (modify (set_config (with_cmd ["/bin/sh"; "-c"; "#(nop) " ++ cmdName ++ " " ++ srcHash ++ " in " ++ dest])) ;;
                hit <- probeCache ;;
                if hit : bool then ret tt
                else
                  id <- container_create None ;;
                  dest' <- gets (fun b => copy_dest (WorkingDir (base (runConfig b))) dest) ;;
                  mapM_ (fun info => ask (fun b => CopyOnBuild docker (trace b) id dest' (ci_file info) (decompress info))
                                       (EvCopy id dest' (ci_file info) (decompress info))) infos ;;
                  commit id cmd (cmdName ++ " " ++ origPaths ++ " in " ++ dest))
               (set_config (with_cmd cmd))) b
    end.

(** *** [dispatchers.go] *)

(** What a handler is called with: the instruction, and a fresh set of flags. *)
Definition parse_flags (s : step) : M unit :=
  match (BFlags_Parse (mkBFlags (st_flags s) ∅ ∅ None)).2 with
  | Some e => throw (BErr e)
  | None => ret tt
  end.

Definition is_json (s : step) : bool := default false (st_attrs s !! ("json" : gostring)).

(** [handleJSONArgs] of [support.go]. *)
Definition handleJSONArgs (s : step) : list gostring :=
  match st_args s with
  | [] => []
  | args => if is_json s then args else [Join args " "]
  end.
Definition shell_form (s : step) : list gostring :=
  if is_json s then handleJSONArgs s else ["/bin/sh"; "-c"] ++ handleJSONArgs s.

(** [b.commit("", b.runConfig.Cmd, comment)]. *)
Definition commit_config (comment : gostring) : M unit := fun b => commit [] (cCmd (runConfig b)) comment b.

Fixpoint pairs (args : list gostring) : list (gostring * gostring) :=
  match args with
  | k :: v :: args => (k, v) :: pairs args
  | _ => []
  end.
Definition assignment (kv : gostring * gostring) : gostring := kv.1 ++ "=" ++ kv.2.

(** The first entry of that name is replaced, or a new one is added. *)
Fixpoint set_env (env : list gostring) (kv : gostring * gostring) : list gostring :=
  match env with
  | [] => [assignment kv]
  | e :: env => if default [] (head (SplitN e "=" 2)) =s kv.1 then assignment kv :: env else e :: set_env env kv
  end.

Definition env_ (s : step) : M unit :=
  if Nat.eqb (length (st_args s)) 0 then fail "%s requires at least one argument" ["ENV"]
  else if negb (Nat.even (length (st_args s))) then fail "Bad input to %s, too many args" ["ENV"]
  else
    parse_flags s ;;
    modify (set_config (fun c => with_env (foldl set_env (cEnv c) (pairs (st_args s))) c)) ;;
    commit_config (Join ("ENV" :: (assignment <$> pairs (st_args s))) " ").

Definition maintainer_ (s : step) : M unit :=
  match st_args s with
  | [m] => parse_flags s ;; modify (set_maintainer m) ;; commit_config ("MAINTAINER " ++ m)
  | _ => fail "%s requires exactly one argument" ["MAINTAINER"]
  end.

Definition label (s : step) : M unit :=
  if Nat.eqb (length (st_args s)) 0 then fail "%s requires at least one argument" ["LABEL"]
  else if negb (Nat.even (length (st_args s))) then fail "Bad input to %s, too many args" ["LABEL"]
  else
    parse_flags s ;;
    modify (set_config (fun c => with_labels (foldl (fun m kv => <[kv.1 := kv.2]> m) (Labels (base c)) (pairs (st_args s))) c)) ;;
    commit_config (Join ("LABEL" :: (assignment <$> pairs (st_args s))) " ").

Definition add (s : step) : M unit :=
  if Nat.ltb (length (st_args s)) 2 then fail "%s requires at least two arguments" ["ADD"]
  else parse_flags s ;; runContextCommand (st_args s) true true "ADD".

Definition dispatchCopy (s : step) : M unit :=
  if Nat.ltb (length (st_args s)) 2 then fail "%s requires at least two arguments" ["COPY"]
  else parse_flags s ;; runContextCommand (st_args s) false false "COPY".

(** The regular expression [(?i)^\s*ONBUILD\s*] is removed. *)
Definition is_blank (c : ascii) : bool := bool_decide (c ∈ [ch " "; "009"%char; "010"%char; "012"%char; "013"%char]).
Definition strip_onbuild (original : gostring) : gostring :=
  let s := drop_while is_blank original in
  if ToUpper (take 7 s) =s "ONBUILD" then drop_while is_blank (drop 7 s) else original.

Definition onbuild (s : step) : M unit :=
  match st_args s with
  | [] => fail "%s requires at least one argument" ["ONBUILD"]
  | a :: _ =>
      parse_flags s ;;
      let triggerInstruction := ToUpper (TrimSpace a) in
      if triggerInstruction =s "ONBUILD" then fail "Chaining ONBUILD via `ONBUILD ONBUILD` isn't allowed" []
      else if (triggerInstruction =s "MAINTAINER") || (triggerInstruction =s "FROM")
      then fail "%s isn't allowed as an ONBUILD trigger" [triggerInstruction]
      else
        let original := strip_onbuild (st_original s) in
        modify (set_config (fun c => with_onbuild (OnBuild c ++ [original]) c)) ;;
        commit_config ("ONBUILD " ++ original)
  end.

Definition workdir (s : step) : M unit :=
  match st_args s with
  | [d] =>
      parse_flags s ;;
      dir <- gets (fun b => if IsAbs d then d else PathJoin ["/"; WorkingDir (base (runConfig b)); d]) ;;
      modify (set_config (with_workdir dir)) ;;
      commit_config ("WORKDIR " ++ dir)
  | _ => fail "%s requires exactly one argument" ["WORKDIR"]
  end.

(** The variables that a command is run with but that are not kept: the allowed
    build arguments that the configuration does not define. *)
Definition cmdBuildEnv (b : Builder) : list gostring :=
  let configEnv := ConvertKVStringsToMap (cEnv (runConfig b)) in
  sort_strings (assignment <$> filter (fun kv => configEnv !! kv.1 = None) (allowed_args b)).

(** The command that the cache knows a [RUN] by. *)
Definition saveCmd (buildEnv cmd : list gostring) : list gostring :=
  match buildEnv with
  | [] => cmd
  | _ => ("|" ++ FormatInt (Z.of_nat (length buildEnv))) :: buildEnv ++ cmd
  end.

Definition run (s : step) : M unit :=
  fun b =>
    if (image b =s []) && negb (noBaseImage b) then fail "Please provide a source image with `from` prior to run" [] b
    else
      (parse_flags s ;;
       let args := shell_form s in
       let cmd := cCmd (runConfig b) in
       let env := cEnv (runConfig b) in
       finally
         (modify (set_config (fun c => if Nat.eqb (length (Entrypoint (base c))) 0 && Nat.eqb (length (cCmd c)) 0 then with_cmd args c else c)) ;;
          buildEnv <- gets cmdBuildEnv ;;
          modify (set_config (with_cmd (saveCmd buildEnv args))) ;;
          hit <- probeCache ;;
          if hit : bool then ret tt
          else
            modify (set_config (fun c => with_escaped true (with_env (cEnv c ++ buildEnv) (with_cmd args c)))) ;;
            cID <- create ;;
            run_container cID ;;
            modify (set_config (fun c => with_cmd (saveCmd buildEnv args) (with_env env c))) ;;
            commit cID cmd "run")
         (set_config (fun c => with_cmd cmd (with_env env c)))) b.

Definition cmd_ (s : step) : M unit :=
  parse_flags s ;;
  modify (set_config (with_cmd (shell_form s))) ;;
  commit_config ("CMD " ++ show_q (shell_form s)) ;;
  if Nat.eqb (length (st_args s)) 0 then ret tt else modify set_cmdSet.

Definition entrypoint (s : step) : M unit :=
  parse_flags s ;;
  modify (set_config (with_entrypoint
    (if is_json s then handleJSONArgs s
     else match handleJSONArgs s with [] => [] | p :: _ => ["/bin/sh"; "-c"; p] end))) ;;
  set <- gets cmdSet ;;
  (if set : bool then ret tt else modify (set_config (with_cmd []))) ;;
  fun b => commit_config ("ENTRYPOINT " ++ show_strslice (Entrypoint (base (runConfig b)))) b.

Definition expose (s : step) : M unit :=
  if Nat.eqb (length (st_args s)) 0 then fail "%s requires at least one argument" ["EXPOSE"]
  else
    parse_flags s ;;
    ports <- lift (match ParsePortSpecs (st_args s) with Ok (ports, _) => Ok ports | Err e => Err (BErr e) end) ;;
    modify (set_config (fun c => with_ports (ExposedPorts (base c) ∪ ports) c)) ;;
    commit_config ("EXPOSE " ++ Join (sort_strings (rangeSet ports)) " ").

Definition user (s : step) : M unit :=
  match st_args s with
  | [u] => parse_flags s ;; modify (set_config (with_user u)) ;; commit_config ("USER " ++ show_v [u])
  | _ => fail "%s requires exactly one argument" ["USER"]
  end.

(** The volumes before an empty one have been added when it is refused. *)
Definition add_volume (v : gostring) : M unit :=
  match TrimSpace v with
  | [] => fail "Volume specified can not be an empty string" []
  | v => modify (set_config (fun c => with_volumes ({[v]} ∪ Volumes (base c)) c))
  end.
Definition volume (s : step) : M unit :=
  if Nat.eqb (length (st_args s)) 0 then fail "%s requires at least one argument" ["VOLUME"]
  else parse_flags s ;; mapM_ add_volume (st_args s) ;; commit_config ("VOLUME " ++ show_v (st_args s)).

(** The flags of [STOPSIGNAL] and [ARG] are not looked at. *)
Definition stopSignal (s : step) : M unit :=
  match st_args s with
  | [sig] =>
      match ParseSignal sig with
      | Err e => throw (BErr e)
      | Ok _ => modify (set_config (with_stopsignal sig)) ;; commit_config ("STOPSIGNAL " ++ show_v [sig])
      end
  | _ => fail "STOPSIGNAL requires exactly one argument" []
  end.

Definition arg_parts (a : gostring) : gostring * option gostring :=
  match SplitN a "=" 2 with
  | [n; v] => (n, Some v)
  | _ => (a, None)
  end.
Definition arg (s : step) : M unit :=
  match st_args s with
  | [a] =>
      let '(n, value) := arg_parts a in
      modify (fun b =>
        set_args ({[n]} ∪ allowedBuildArgs b)
          (match BuildArgs b !! n, value with None, Some v => <[n := v]> (BuildArgs b) | _, _ => BuildArgs b end) b) ;;
      commit_config ("ARG " ++ a)
  | _ => fail "ARG requires exactly one argument definition" []
  end.

(** *** [evaluator.go]: an instruction is looked up in [evaluateTable] *)

Definition evaluate (from : step → M unit) (s : step) : M unit :=
  let c := st_cmd s in
  if c =s "env" then env_ s else if c =s "label" then label s else if c =s "maintainer" then maintainer_ s
  else if c =s "add" then add s else if c =s "copy" then dispatchCopy s else if c =s "from" then from s
  else if c =s "onbuild" then onbuild s else if c =s "workdir" then workdir s else if c =s "run" then run s
  else if c =s "cmd" then cmd_ s else if c =s "entrypoint" then entrypoint s else if c =s "expose" then expose s
  else if c =s "volume" then volume s else if c =s "user" then user s else if c =s "stopsignal" then stopSignal s
  else if c =s "arg" then arg s
  else fail "Unknown instruction: %s" [ToUpper c].

(** [Builder.dispatch]; a nil node is a nil pointer. *)
Definition dispatch_node (from : step → M unit) (n : option Node) : M unit :=
  fun b =>
    match n with
    | None => throw BPanic b
    | Some n =>
        match ShellWord.dispatch (cEnv (runConfig b)) (allowed_args b) n with
        | Err NilPointer => throw BPanic b
        | Err e => throw (BDispatch e) b
        | Ok s => evaluate from s b
        end
    end.

(** *** [FROM] *)

Definition DefaultPathEnv : gostring := "/usr/local/sbin:/usr/local/bin:/usr/sbin:/usr/bin:/sbin:/bin".

(** A trigger may not be one of three instructions, so that no trigger comes back to
    [FROM]. *)
Definition trigger_node (n : option Node) : M unit :=
  match n with
  | None => throw BPanic
  | Some n' =>
      let v := ToUpper (Value n') in
      if v =s "ONBUILD" then fail "Chaining ONBUILD via `ONBUILD ONBUILD` isn't allowed" []
      else if (v =s "MAINTAINER") || (v =s "FROM") then fail "%s isn't allowed as an ONBUILD trigger" [Value n']
      else dispatch_node (fun _ => throw BPanic) n
  end.
Definition trigger (line : gostring) : M unit :=
  match Parse line with
  | Err e => throw (BParse e)
  | Ok root => mapM_ trigger_node (Children root)
  end.

Definition processImageFrom (img : option BImage) : M unit :=
  (match img with
   | Some i =>
       modify (fun b => record (EvFrom (ImageID i)) (set_image (ImageID i) b)) ;;
       match bi_RunConfig i with Some c => modify (set_config (fun _ => c)) | None => ret tt end
   | None => ret tt
   end) ;;
  modify (set_config (fun c =>
    match ConvertKVStringsToMap (cEnv c) !! ("PATH" : gostring) with
    | None => with_env (cEnv c ++ ["PATH=" ++ DefaultPathEnv]) c
    | Some _ => c
    end)) ;;
  match img with
  | None => ret tt
  | Some _ =>
      triggers <- gets (fun b => OnBuild (runConfig b)) ;;
      modify (set_config (with_onbuild [])) ;;
      mapM_ trigger triggers
  end.

Definition NoBaseImageSpecifier : gostring := "scratch".

Definition from (s : step) : M unit :=
  match st_args s with
  | [name] =>
      parse_flags s ;;
      if name =s NoBaseImageSpecifier
      then modify (fun b => record (EvFrom []) (set_scratch b)) ;; processImageFrom None
      else
        found <- gets (fun b => if PullParent options then None else GetImageOnBuild docker (trace b) name) ;;
        img <- (match found with
                | Some i => ret i
                | None => ask (fun b => PullOnBuild docker (trace b) name) (EvPull name)
                end) ;;
        processImageFrom (Some img)
  | _ => fail "%s requires exactly one argument" ["FROM"]
  end.

Definition dispatch (n : option Node) : M unit := dispatch_node from n.

(** *** [builder.go] *)

(** [clearTmp] stops at the first container that cannot be removed. *)
Fixpoint clear_loop (cs : list gostring) (b : Builder) : Builder :=
  match cs with
  | [] => b
  | c :: cs =>
      let r := ContainerRm docker (trace b) c in
      let b := record (EvRemove c r) b in
      match r with
      | Err _ => b
      | Ok _ => clear_loop cs (set_tmp (fun s => s ∖ {[c]}) b)
      end
  end.
Definition clearTmp (b : Builder) : Builder := clear_loop (rangeSet (tmpContainers b)) b.

(** [sanitizeRepoAndTags]; [seen] are the names so far.  A reference that is not
    canonical has a tag after [WithDefaultTag], so the second default is never used. *)
Fixpoint sanitize (names : list gostring) (seen : list gostring) : result berror (list Reference.Named) :=
  match names with
  | [] => Ok []
  | repo :: names =>
      if repo =s [] then sanitize names seen
      else
        match Reference.ParseNamed repo with
        | Err e => Err (BReference e)
        | Ok ref =>
            match Reference.WithDefaultTag ref with
            | Reference.canonicalRef _ _ => Err (BErr (Errorf "build tag cannot contain a digest" []))
            | ref =>
                let nameWithTag := Reference.String ref in
                if bool_decide (nameWithTag ∈ seen) then sanitize names seen
                else let! refs := sanitize names (nameWithTag :: seen) in Ok (ref :: refs)
            end
        end
  end.
Definition sanitizeRepoAndTags (names : list gostring) : result berror (list Reference.Named) := sanitize names [].

(** The instructions one after the other; [cancelled] is whether the client has gone. *)
Fixpoint build_steps (cancelled : history → bool) (children : list (option Node)) : M unit :=
  match children with
  | [] => ret tt
  | n :: children =>
      fun b =>
        if cancelled (trace b) then fail "Build cancelled" [] b
        else
          match dispatch n b with
          | (b, Err e) => (if ForceRemove options then clearTmp b else b, Err e)
          | (b, Ok _) => build_steps cancelled children (if Remove options then clearTmp b else b)
          end
  end.

Definition build (cancelled : history → bool) (dockerfile : Node) : M gostring :=
  repoAndTags <- lift (sanitizeRepoAndTags (Tags options)) ;;
  build_steps cancelled (Children dockerfile) ;;
  leftoverArgs <- gets (fun b => filter (fun a => isBuildArgAllowed b a = false) ((rangeArgs (BuildArgs b)).*1)) ;;
  if negb (Nat.eqb (length leftoverArgs) 0)
  then fail "One or more build-args %v were not consumed, failing build." [show_v leftoverArgs]
  else
    img <- gets image ;;
    if img =s [] then fail "No image was generated. Is your Dockerfile empty?" []
    else mapM_ (fun rt => ask (fun b => TagImage docker (trace b) rt img) (EvTag rt img)) repoAndTags ;; ret img.

End build.

(** *** [BuildFromConfig] *)

Definition validCommitCommands (c : gostring) : bool :=
  bool_decide (c ∈ ["cmd"; "entrypoint"; "env"; "expose"; "label"; "onbuild"; "user"; "volume"; "workdir"]).

Fixpoint check_changes (children : list (option Node)) : result berror unit :=
  match children with
  | [] => Ok tt
  | None :: _ => Err BPanic
  | Some n :: children =>
      if validCommitCommands (Value n) then check_changes children
      else Err (BErr (Errorf "%s is not a valid change command" [Value n]))
  end.

Definition no_options : Options := mkOptions false false false false [] (mkBuildHost [] 0 (mkResources [] 0 0 0 0 0 false 0 0 [] [] 0 0 [] [] [] [] [] [] [])).

(** The builder has no context and no daemon: a call of [docker], which is an argument
    here, dereferences a nil pointer ([BuildFromConfig_no_daemon]). *)
Definition BuildFromConfig (docker : Backend) rangeArgs rangeSet show_strslice (config : Config) (changes : list gostring) : Builder * result berror Config :=
  match Parse (Join changes nl) with
  | Err e => (NewBuilder ∅, Err (BParse e))
  | Ok ast =>
      match check_changes (Children ast) with
      | Err e => (NewBuilder ∅, Err e)
      | Ok _ =>
          let b := mkBuilder config ∅ [] false [] false true false ∅ ∅ [] in
          (mapM_ (dispatch docker no_options None rangeArgs rangeSet show_strslice) (Children ast) ;; gets runConfig) b
      end
  end.

End Builder.
