(* ===== verification/BuilderFacts.v ===== *)
(** * BuilderFacts: what a build asks of the daemon

    Theorems about [Builder].  They are invariants of the state and of its trace, and
    hold for every daemon; [ok] is the triple that a handler satisfies when it keeps an
    invariant, and ends in a weaker one when it fails. *)

From S2P Require Import Prelude Strconv GoPath Reference Opts Ports RunConfig GoMatch Dockerfile ShellWord Digest Builder.
Import Strings Strconv Opts.RunOpts Ports.Nat_ RunConfig GoMatch Dockerfile ShellWord Digest GoPath Builder.Fmt Builder.Builder.

Local Open Scope Z_scope.

(** ** Triples *)

Section triples.
  Context (I E : Builder → Prop) (IE : ∀ b, I b → E b).

Definition ends {A} (r : Builder * result berror A) : Prop :=
  match r with (b, Ok _) => I b | (b, Err _) => E b end.
Definition ok {A} (m : M A) : Prop := ∀ b, I b → ends (m b).

Lemma ok_ret {A} (x : A) : ok (ret x).
Proof. by intros b. Qed.
Lemma ok_throw {A} e : ok (throw e : M A).
Proof using IE. intros b H. by apply IE. Qed.
Lemma ok_gets {A} (f : Builder → A) : ok (gets f).
Proof. by intros b. Qed.
Lemma ok_lift {A} (r : result berror A) : ok (lift r).
Proof using IE. intros b H. unfold lift, ends. destruct r; [done|by apply IE]. Qed.
Lemma ok_modify f : (∀ b, I b → I (f b)) → ok (modify f).
Proof. intros H b Hb. by apply H. Qed.
Lemma ok_bind {A B} (m : M A) (k : A → M B) : ok m → (∀ x, ok (k x)) → ok (bind m k).
Proof.
  intros Hm Hk b Hb. specialize (Hm b Hb). unfold bind, ends in *. destruct (m b) as [b' [x|e]]; [by apply Hk|done].
Qed.
Lemma ok_finally {A} (m : M A) f : ok m → (∀ b, I b → I (f b)) → (∀ b, E b → E (f b)) → ok (finally m f).
Proof.
  intros Hm HI HE b Hb. specialize (Hm b Hb). unfold finally, ends in *. destruct (m b) as [b' [x|e]]; eauto.
Qed.
Lemma ok_use {A} (m : M A) b : ok m → I b → ends (m b).
Proof. intros Hm Hb. by apply Hm. Qed.
Lemma ok_mapM {A} (f : A → M unit) l : (∀ x, ok (f x)) → ok (mapM_ f l).
Proof. intros Hf. induction l as [|x l IH]; [apply ok_ret|]. simpl. by apply ok_bind. Qed.
Lemma ok_if {A} (c : bool) (m1 m2 : M A) : ok m1 → ok m2 → ok (if c then m1 else m2).
Proof. by destruct c. Qed.

End triples.

Lemma bind_modify {B} f (k : unit → M B) b : bind (modify f) k b = k tt (f b).
Proof. done. Qed.

(** A program that is run at a state it was given already. *)
Ltac ok_at := cbv beta; match goal with |- ends ?I ?E (?m ?b) => refine (ok_use I E m b _ _); [|assumption] end.

(** ** The handlers keep what their primitives keep *)

(** Follows the structure of a handler; what is left are its primitives. *)
Ltac ok_step :=
  match goal with
  | |- ok _ _ (ret _) => apply ok_ret
  | |- ok _ _ (throw _) => by apply ok_throw
  | |- ok _ _ (fail _ _) => by apply ok_throw
  | |- ok _ _ (gets _) => apply ok_gets
  | |- ok _ _ (lift _) => by apply ok_lift
  | |- ok _ _ (modify _) => apply ok_modify; intros; eauto
  | |- ok _ _ (bind _ _) => apply ok_bind; [|intros ?]
  | |- ok _ _ (finally _ _) => apply ok_finally; [|by eauto|by eauto]
  | |- ok _ _ (mapM_ _ _) => apply ok_mapM; intros ?
  | |- ok _ _ (let '(_, _) := ?x in _) => destruct x
  | |- ok _ _ (if _ then _ else _) => apply ok_if
  | |- ok _ _ (match ?x with _ => _ end) => destruct x
  | |- ok _ _ (parse_flags _) => unfold parse_flags
  | |- _ => by eauto
  end.
Ltac okt := repeat ok_step.

(** A call of the daemon that only the trace records. *)
Definition plain_event (e : event) : Prop :=
  match e with EvUpdateCmd _ _ _ | EvRun _ _ | EvCopy _ _ _ _ _ | EvPull _ _ => True | _ => False end.

Lemma cImage_with i c : cImage (with_image i c) = i.
Proof. by destruct c as [[]]. Qed.
Lemma cImage_cmd l c : cImage (with_cmd l c) = cImage c.
Proof. by destruct c as [[]]. Qed.

(** A container that was made from the image that a build is at: its creation is the
    last thing in the trace that matters to the image. *)
Definition made (b : Builder) (id : gostring) : Prop :=
  ∃ pre c host post, trace b = pre ++ EvCreate c host (Ok id) :: post ∧ cImage c = image b ∧ Forall plain_event post.
Lemma made_same b b' id : trace b' = trace b → image b' = image b → made b id → made b' id.
Proof. intros Ht Hi (pre&c&host&post&H1&H2&H3). exists pre, c, host, post. by rewrite Ht, Hi. Qed.
Lemma made_record b e id : plain_event e → made b id → made (record e b) id.
Proof.
  intros He (pre&c&host&post&H1&H2&H3). exists pre, c, host, (post ++ [e]). simpl. split_and!; [by rewrite H1, <-app_assoc|done|].
  apply Forall_app. auto.
Qed.
Lemma made_create docker host b b' id : cImage (runConfig b) = image b → container_create docker host b = (b', Ok id) → made b' id.
Proof.
  intros Hi. unfold container_create. destruct (ContainerCreate _ _ _ _) as [c [x|x]]; [|done]. unfold bind, ask, modify, ret. intros [= <- <-].
  exists (trace b), (runConfig b), host, []. split_and!; [done|done|constructor].
Qed.
Lemma probe_miss docker options b b' : probeCache docker options b = (b', Ok false) → runConfig b' = runConfig b ∧ image b' = image b.
Proof.
  unfold probeCache. destruct (GetCachedImageOnBuild docker) as [cached|]; [|by intros [= <-]]. destruct (_ || _); [by intros [= <-]|].
  unfold bind, ask. destruct (cached _ _ _) as [id|e]; [|done]. destruct (id =s []); [|done]. by intros [= <-].
Qed.
(** What follows, with what is known of the result. *)
Lemma ends_then {A B} (P : A → Builder → Prop) (I E : Builder → Prop) (m : M A) (k : A → M B) b :
  match m b with (b', Ok x) => P x b' | (b', Err _) => E b' end → (∀ x b', P x b' → ends I E (k x b')) → ends I E (bind m k b).
Proof. intros Hm Hk. unfold bind, ends. destruct (m b) as [b' [x|e]]; [by apply Hk|done]. Qed.

Section commits.
  Context (docker : Backend) (options : Options) (I E : Builder → Prop) (IE : ∀ b, I b → E b).
  Context (I_config : ∀ f b, I b → I (set_config f b)) (E_config : ∀ f b, E b → E (set_config f b)).
  Context (ok_create : ∀ host b, I b → cImage (runConfig b) = image b → ends I E (container_create docker host b)).
  Context (ok_ask : ∀ A f (e : answer A → event), (∀ r, plain_event (e r)) → ok I E (ask f e)).

Lemma ok_create_container : ok I E (create docker options).
Proof using All.
  intros b Hb. unfold create. destruct (_ && _); [by apply IE|]. rewrite bind_modify. cbv beta. set (b1 := set_config _ b).
  apply (ends_then (fun _ => I)); [exact (ok_create (Some (opt_Host options)) b1 (I_config _ b Hb) (cImage_with _ _))|].
  intros id b2 Hb2. ok_at. okt; by apply ok_ask.
Qed.
Lemma create_made b b' id : create docker options b = (b', Ok id) → made b' id.
Proof.
  unfold create. destruct (_ && _); [done|]. rewrite bind_modify. cbv beta. set (b1 := set_config _ b). unfold bind at 1.
  destruct (container_create _ _ b1) as [b2 [x|e]] eqn:E1; [|done]. apply made_create in E1 as Hm; [|apply cImage_with].
  unfold bind, ask, ret. destruct (Nat.ltb _ _); [destruct (ContainerUpdateCmdOnBuild _ _ _ _); [|done]|]; intros [= <- <-]; [by apply made_record|done].
Qed.

  Context (ok_probe : ok I E (probeCache docker options)) (ok_commit_container : ∀ id cmd, ok I E (commit_container docker id cmd)).

Lemma ok_commit id cmd comment : ok I E (commit docker options id cmd comment).
Proof using All.
  intros b Hb. unfold commit. destruct (disableCommit b); [done|]. destruct (_ && _); [by apply IE|]. ok_at.
  okt; eauto using ok_create_container.
Qed.

End commits.

Section handlers.
  Context (docker : Backend) (options : Options) (context : option BuildContext).
  Context (rangeArgs : gmap gostring gostring → list (gostring * gostring)) (rangeSet : gset gostring → list gostring).
  Context (show_strslice : list gostring → gostring).
  Context (I E : Builder → Prop) (IE : ∀ b, I b → E b).
  Context (I_config : ∀ f b, I b → I (set_config f b)) (E_config : ∀ f b, E b → E (set_config f b)).
  Context (I_maintainer : ∀ m b, I b → I (set_maintainer m b)) (I_cmdSet : ∀ b, I b → I (set_cmdSet b)).
  Context (I_args : ∀ al ar b, I b → I (set_args al ar b)).
  Context (ok_commit : ∀ id cmd comment b, I b → id = [] ∨ made b id → ends I E (commit docker options id cmd comment b)).

Lemma ok_commit_config comment : ok I E (commit_config docker options comment).
Proof using ok_commit. intros b Hb. apply ok_commit; auto. Qed.
#[local] Hint Resolve ok_commit_config : core.

Lemma ok_env s : ok I E (env_ docker options s).
Proof using All. unfold env_. okt. Qed.
Lemma ok_maintainer s : ok I E (maintainer_ docker options s).
Proof using All. unfold maintainer_. okt. Qed.
Lemma ok_label s : ok I E (label docker options s).
Proof using All. unfold label. okt. Qed.
Lemma ok_onbuild s : ok I E (onbuild docker options s).
Proof using All. unfold onbuild. okt. Qed.
Lemma ok_workdir s : ok I E (workdir docker options s).
Proof using All. unfold workdir. okt. Qed.
Lemma ok_cmd s : ok I E (cmd_ docker options s).
Proof using All. unfold cmd_. okt. Qed.
Lemma ok_entrypoint s : ok I E (entrypoint docker options show_strslice s).
Proof using All. unfold entrypoint. okt. intros b Hb. by apply ok_commit_config. Qed.
Lemma ok_expose s : ok I E (expose docker options rangeSet s).
Proof using All. unfold expose. okt. Qed.
Lemma ok_user s : ok I E (user docker options s).
Proof using All. unfold user. okt. Qed.
Lemma ok_volume s : ok I E (volume docker options s).
Proof using All. unfold volume, add_volume. okt. Qed.
Lemma ok_stopSignal s : ok I E (stopSignal docker options s).
Proof using All. unfold stopSignal. okt. Qed.
Lemma ok_arg s : ok I E (arg docker options s).
Proof using All. unfold arg. okt. Qed.

(** The handlers that only change the configuration. *)
Lemma ok_evaluate_config from s : validCommitCommands (st_cmd s) = true → ok I E (evaluate docker options context rangeArgs rangeSet show_strslice from s).
Proof using All.
  intros Hc. unfold validCommitCommands in Hc. case_bool_decide as Hin; [|done]. clear Hc. unfold evaluate.
  rewrite !elem_of_cons in Hin.
  destruct Hin as [->|[->|[->|[->|[->|[->|[->|[->|[->|[]%elem_of_nil]]]]]]]]]; simpl;
    eauto using ok_cmd, ok_entrypoint, ok_env, ok_expose, ok_label, ok_onbuild, ok_user, ok_volume, ok_workdir.
Qed.

  Context (ok_probe : ok I E (probeCache docker options)) (ok_create : ∀ host b, I b → cImage (runConfig b) = image b → ends I E (container_create docker host b)).
  Context (ok_ask : ∀ A f (e : answer A → event), (∀ r, plain_event (e r)) → ok I E (ask f e)).
  Context (I_from : ∀ id b, I b → I (record (EvFrom id) (set_image id b))) (I_scratch : ∀ b, I b → I (record (EvFrom []) (set_scratch b))).

Lemma ok_run_container id : ok I E (run_container docker id).
Proof using All.
  unfold run_container. apply ok_bind; [by apply ok_ask|]. intros code. apply ok_if; [apply ok_ret|]. intros b Hb. by apply IE.
Qed.

(** Calls that only the trace records leave a container made. *)
Lemma ask_made {A} f (e : answer A → event) id : (∀ r, plain_event (e r)) → ok (fun b => I b ∧ made b id) E (ask f e).
Proof using All.
  intros He b [Hb Hm]. pose proof (ok_ask A f e He b Hb) as Ha. revert Ha. unfold ask, ends. destruct (f b); [|done]. split; [done|]. by apply made_record.
Qed.
Lemma run_made id id' : ok (fun b => I b ∧ made b id) E (run_container docker id').
Proof using All.
  unfold run_container. apply ok_bind; [by apply ask_made|]. intros code. apply ok_if; [apply ok_ret|]. intros b [Hb _]. by apply IE.
Qed.

Lemma ok_run s : ok I E (run docker options rangeArgs s).
Proof using All.
  intros b0 Hb0. unfold run. destruct (_ && _); [by apply IE|]. ok_at. apply ok_bind; [okt|]. intros [].
  apply ok_finally; [|by eauto|by eauto]. apply ok_bind; [okt|]. intros []. apply ok_bind; [okt|]. intros env. apply ok_bind; [okt|]. intros [].
  apply ok_bind; [done|]. intros []; [okt|]. apply ok_bind; [okt|]. intros [] b Hb.
  apply (ends_then (fun id b => I b ∧ made b id)).
  { pose proof (ok_create_container docker options I E IE I_config E_config ok_create ok_ask b Hb) as Hc. unfold ends in Hc.
    destruct (create docker options b) as [b' [id|]] eqn:Ec; [|done]. split; [done|]. by eapply create_made. }
  intros id b' Hb'. apply (ends_then (fun _ b => I b ∧ made b id)); [exact (run_made id id b' Hb')|].
  intros [] b2 [H2 Hm2]. rewrite bind_modify. apply ok_commit; [by apply I_config|]. right. by apply (made_same b2).
Qed.

Lemma ok_context args remote local n : ok I E (runContextCommand docker options context args remote local n).
Proof using All.
  intros b0 Hb0. unfold runContextCommand. destruct context as [ctx|]; [|by apply IE]. destruct (Nat.ltb _ _); [by apply IE|].
  rewrite bind_modify. cbv beta. set (b1 := set_config _ b0). assert (Hb1 : I b1 ∧ cImage (runConfig b1) = image b1) by (split; [by apply I_config|apply cImage_with]).
  clearbody b1. unfold bind at 1, lift. destruct (copy_infos _ _ _ _ _) as [infos|e]; [|by apply IE, Hb1].
  destruct (Nat.eqb _ _); [by apply IE, Hb1|]. destruct (_ && _); [by apply IE, Hb1|]. destruct (source_key infos) as [hash paths].
  unfold finally. match goal with |- ends _ _ (let '(b, r) := ?m b1 in _) => set (m0 := m); assert (Hm : ends I E (m0 b1)) end.
  2: { revert Hm. unfold ends. destruct (m0 b1) as [b' [x|e]]; eauto. }
  unfold m0. rewrite bind_modify. set (b2 := set_config _ b1). assert (Hb2 : I b2 ∧ cImage (runConfig b2) = image b2) by (split; [by apply I_config, Hb1|]; unfold b2; simpl; rewrite cImage_cmd; apply Hb1).
  clearbody b2. apply (ends_then (fun hit b => I b ∧ (hit = false → cImage (runConfig b) = image b))).
  { pose proof (ok_probe b2 (proj1 Hb2)) as Hp. unfold ends in Hp. destruct (probeCache docker options b2) as [b' [hit|]] eqn:Ep; [|done]. split; [done|].
    intros ->. apply probe_miss in Ep as [-> ->]. apply Hb2. }
  intros hit b3 [Hb3 Hi]. destruct hit; [done|]. apply (ends_then (fun id b => I b ∧ made b id)).
  { pose proof (ok_create None b3 Hb3 (Hi eq_refl)) as Hc. unfold ends in Hc. destruct (container_create docker None b3) as [b' [id|]] eqn:Ec; [|done].
    split; [done|]. eapply made_create; [|exact Ec]. by apply Hi. }
  intros id b4 Hb4. unfold bind at 1, gets. apply (ends_then (fun _ b => I b ∧ made b id)).
  { refine (ok_mapM _ _ _ _ _ b4 Hb4). intros info. by apply ask_made. }
  intros [] b5 [Hb5 Hm5]. apply ok_commit; auto.
Qed.

Lemma ok_evaluate from s : (∀ s, ok I E (from s)) → ok I E (evaluate docker options context rangeArgs rangeSet show_strslice from s).
Proof using All.
  intros Hf. unfold evaluate, add, dispatchCopy.
  repeat (apply ok_if; [eauto using ok_cmd, ok_entrypoint, ok_env, ok_expose, ok_label, ok_onbuild, ok_user, ok_volume, ok_workdir,
    ok_run, ok_maintainer, ok_stopSignal, ok_arg|]); okt; eauto using ok_context.
Qed.

Lemma ok_dispatch_node from n : (∀ s, ok I E (from s)) → ok I E (dispatch_node docker options context rangeArgs rangeSet show_strslice from n).
Proof using All.
  intros Hf b Hb. unfold dispatch_node. destruct n as [n|]; [|by apply IE].
  destruct (ShellWord.dispatch _ _ _) as [s|[]]; [by apply ok_evaluate|by apply IE..].
Qed.

Lemma ok_trigger line : ok I E (trigger docker options context rangeArgs rangeSet show_strslice line).
Proof using All.
  unfold trigger. destruct (Parse line) as [root|]; [|by apply ok_throw]. apply ok_mapM. intros n. unfold trigger_node.
  destruct n as [n|]; [|by apply ok_throw]. okt. apply ok_dispatch_node. intros. by apply ok_throw.
Qed.

Lemma ok_from s : ok I E (from docker options context rangeArgs rangeSet show_strslice s).
Proof using All.
  unfold from, processImageFrom. okt; try (by apply ok_ask); try by apply ok_trigger.
Qed.

Lemma ok_dispatch n : ok I E (dispatch docker options context rangeArgs rangeSet show_strslice n).
Proof using All. apply ok_dispatch_node, ok_from. Qed.

  Context (I_clear : ∀ b, I b → I (clearTmp docker rangeSet b)) (E_clear : ∀ b, E b → E (clearTmp docker rangeSet b)).

Lemma ok_steps cancelled ns : ok I E (build_steps docker options context rangeArgs rangeSet show_strslice cancelled ns).
Proof using All.
  induction ns as [|n ns IH]; [apply ok_ret|]. intros b Hb. simpl. destruct (cancelled _); [by apply IE|].
  pose proof (ok_dispatch n b Hb) as Hd. destruct (dispatch _ _ _ _ _ _ _ b) as [b' [[]|e]]; simpl in Hd.
  - apply IH. destruct (Remove options); auto.
  - simpl. destruct (ForceRemove options); auto.
Qed.

  Context (ok_tag : ∀ rt img, ok I E (ask (fun b => TagImage docker (trace b) rt img) (EvTag rt img))).

Lemma ok_build cancelled root : ok I E (build docker options context rangeArgs rangeSet show_strslice cancelled root).
Proof using All. unfold build. okt; eauto using ok_steps. Qed.

End handlers.

(** The primitives of a build keep [I], and [E] when they fail. *)
Record frame (docker : Backend) (options : Options) (rangeSet : gset gostring → list gostring) (I E : Builder → Prop) : Prop := {
  fr_weaken : ∀ b, I b → E b;
  fr_config_I : ∀ f b, I b → I (set_config f b);
  fr_config_E : ∀ f b, E b → E (set_config f b);
  fr_maintainer : ∀ m b, I b → I (set_maintainer m b);
  fr_cmdSet : ∀ b, I b → I (set_cmdSet b);
  fr_args : ∀ al ar b, I b → I (set_args al ar b);
  fr_commit : ∀ id cmd comment b, I b → id = [] ∨ made b id → ends I E (commit docker options id cmd comment b);
  fr_probe : ok I E (probeCache docker options);
  fr_create : ∀ host b, I b → cImage (runConfig b) = image b → ends I E (container_create docker host b);
  fr_ask : ∀ A f (e : answer A → event), (∀ r, plain_event (e r)) → ok I E (ask f e);
  fr_from : ∀ id b, I b → I (record (EvFrom id) (set_image id b));
  fr_scratch : ∀ b, I b → I (record (EvFrom []) (set_scratch b));
  fr_clear_I : ∀ b, I b → I (clearTmp docker rangeSet b);
  fr_clear_E : ∀ b, E b → E (clearTmp docker rangeSet b);
  fr_tag : ∀ rt img, ok I E (ask (fun b => TagImage docker (trace b) rt img) (EvTag rt img));
}.

Lemma frame_build docker options context rangeArgs rangeSet show I E cancelled root :
  frame docker options rangeSet I E → ok I E (build docker options context rangeArgs rangeSet show cancelled root).
Proof. intros []. by apply ok_build. Qed.
Lemma frame_steps docker options context rangeArgs rangeSet show I E cancelled ns :
  frame docker options rangeSet I E → ok I E (build_steps docker options context rangeArgs rangeSet show cancelled ns).
Proof. intros []. by apply ok_steps. Qed.
Lemma frame_dispatch docker options context rangeArgs rangeSet show I E n :
  frame docker options rangeSet I E → ok I E (dispatch docker options context rangeArgs rangeSet show n).
Proof. intros []. by apply ok_dispatch. Qed.

(** A build from its start. *)
Definition builds docker options context rangeArgs rangeSet show cancelled args root (b : Builder) (r : result berror gostring) : Prop :=
  build docker options context rangeArgs rangeSet show cancelled root (NewBuilder args) = (b, r).

Lemma builds_frame docker options context rangeArgs rangeSet show cancelled args root b r I E :
  builds docker options context rangeArgs rangeSet show cancelled args root b r →
  frame docker options rangeSet I E → I (NewBuilder args) → E b.
Proof.
  intros Hb HF HI. pose proof (frame_build docker options context rangeArgs rangeSet show I E cancelled root HF _ HI) as He.
  rewrite Hb in He. destruct r; simpl in He; [by apply HF|done].
Qed.

(** ** The cache *)

Definition probe_answer (e : event) : option (answer gostring) := match e with EvProbe _ _ r => Some r | _ => None end.
Definition probes (h : history) : list (answer gostring) := omap probe_answer h.
Definition hit (r : answer gostring) : Prop := ∃ id, r = Ok id ∧ id ≠ [].
Definition hits_but_last (l : list (answer gostring)) : Prop := ∃ hits last, l = hits ++ last ∧ Forall hit hits ∧ (length last ≤ 1)%nat.

Section cache.
  Context (docker : Backend) (options : Options) (context : option BuildContext).
  Context (rangeArgs : gmap gostring gostring → list (gostring * gostring)) (rangeSet : gset gostring → list gostring).
  Context (show_strslice : list gostring → gostring).

Definition cache_E (b : Builder) : Prop := hits_but_last (probes (trace b)).
Definition cache_I (b : Builder) : Prop := cache_E b ∧ (cacheBusted b = false → Forall hit (probes (trace b))).

Lemma hits_all l : Forall hit l → hits_but_last l.
Proof. intros H. exists l, []. rewrite app_nil_r. split_and!; [done|done|simpl; lia]. Qed.
Lemma hits_snoc l r : Forall hit l → hits_but_last (l ++ [r]).
Proof. intros H. exists l, [r]. split_and!; [done|done|simpl; lia]. Qed.

Lemma probes_record e b : probe_answer e = None → probes (trace (record e b)) = probes (trace b).
Proof. unfold probes. simpl. rewrite omap_app. simpl. intros ->. by rewrite app_nil_r. Qed.

Lemma probes_probe p c r b : probes (trace (record (EvProbe p c r) b)) = probes (trace b) ++ [r].
Proof. unfold probes. simpl. by rewrite omap_app. Qed.

Lemma cache_record e b : probe_answer e = None → cache_I b → cache_I (record e b).
Proof. unfold cache_I, cache_E. intros He. by rewrite probes_record. Qed.
Lemma cache_IE b : cache_I b → cache_E b.
Proof. by intros []. Qed.

Lemma cache_ask {A} f (e : answer A → event) : (∀ r, probe_answer (e r) = None) → ok cache_I cache_E (ask f e).
Proof. intros He b Hb. unfold ask, ends. destruct (f b); [by apply cache_record|]. by apply cache_IE, cache_record. Qed.

Lemma cache_probe : ok cache_I cache_E (probeCache docker options).
Proof.
  intros b Hb. unfold probeCache. destruct (GetCachedImageOnBuild docker) as [cached|]; [|done].
  destruct (NoCache options || cacheBusted b) eqn:Ec; [done|]. apply orb_false_elim in Ec as [_ Ec].
  assert (Forall hit (probes (trace b))) as Hh by apply Hb, Ec. unfold ask, bind.
  destruct (cached _ _ _) as [id|e]; cycle 1.
  { unfold ends, cache_E. rewrite probes_probe. by apply hits_snoc. }
  destruct (id =s []) eqn:Ei; unfold modify, ends, ret, cache_I, cache_E; cbn [trace set_busted set_image]; rewrite probes_probe.
  { split; [by apply hits_snoc|done]. }
  assert (hit (Ok id)) as Hi by (exists id; split; [done|]; by intros ->).
  assert (Forall hit (probes (trace b) ++ [Ok id])) as Hall by (apply Forall_app; eauto).
  split; [by apply hits_all|done].
Qed.

Lemma cache_create host : ok cache_I cache_E (container_create docker host).
Proof.
  intros b Hb. unfold container_create. destruct (ContainerCreate _ _ _ _) as [c r].
  refine (ok_use _ _ (bind _ _) _ _ _); [|exact Hb]. apply ok_bind; [by apply cache_ask|]. intros id.
  apply ok_bind; [by apply ok_modify|]. intros _. apply ok_ret.
Qed.

Lemma cache_commit_container id cmd : ok cache_I cache_E (commit_container docker id cmd).
Proof.
  intros b Hb. unfold commit_container. refine (ok_use _ _ (bind _ _) _ _ Hb). apply ok_bind; [by apply cache_ask|]. intros img.
  by apply ok_modify.
Qed.

Lemma clear_loop_inv (P : Builder → Prop) cs b :
  (∀ c r b, P b → P (record (EvRemove c r) b)) → (∀ f b, P b → P (set_tmp f b)) → P b → P (clear_loop docker cs b).
Proof.
  intros Hr Ht. revert b. induction cs as [|c cs IH]; intros b Hb; [done|]. simpl. destruct (ContainerRm _ _ _); auto.
Qed.

Lemma cache_frame : frame docker options rangeSet cache_I cache_E.
Proof.
  constructor; auto using cache_IE, cache_probe, cache_record.
  - intros id cmd comment b Hb _. apply ok_commit; auto using cache_IE, cache_probe, cache_commit_container.
    + intros. by apply cache_create.
    + intros A f e He. apply cache_ask. intros r'. specialize (He r'). by destruct (e r').
  - intros. by apply cache_create.
  - intros A f e He. apply cache_ask. intros r'. specialize (He r'). by destruct (e r').
  - intros b Hb. unfold clearTmp. apply clear_loop_inv; auto using cache_record.
  - intros b Hb. unfold clearTmp. apply clear_loop_inv; [|done|done]. intros c r' b' H. unfold cache_E. by rewrite probes_record.
  - intros. by apply cache_ask.
Qed.

(** C17: a build looks up its steps in the cache one after the other until the first
    that is not there; from then on it never asks the cache again, so that no step is
    taken from the cache after one that was executed. *)
Theorem cache_prefix cancelled args root b r :
  builds docker options context rangeArgs rangeSet show_strslice cancelled args root b r → hits_but_last (probes (trace b)).
Proof.
  intros Hb. apply (builds_frame _ _ _ _ _ _ _ _ _ _ _ _ _ Hb cache_frame). split; [by apply hits_all|by constructor].
Qed.

End cache.

(** ** Intermediate containers *)

(** The containers that were created and not removed. *)
Definition live (s : gset gostring) (e : event) : gset gostring :=
  match e with
  | EvCreate _ _ (Ok id) => {[id]} ∪ s
  | EvRemove id (Ok _) => s ∖ {[id]}
  | _ => s
  end.
Definition live_containers (h : history) : gset gostring := foldl live ∅ h.
Definition removal_failed (h : history) : Prop := ∃ id e, EvRemove id (Err e) ∈ h.

Section containers.
  Context (docker : Backend) (options : Options) (context : option BuildContext).
  Context (rangeArgs : gmap gostring gostring → list (gostring * gostring)) (rangeSet : gset gostring → list gostring).
  Context (show_strslice : list gostring → gostring).

(** Every primitive keeps a property that each event keeps. *)
Section events.
  Context (I : Builder → Prop).
  Context (I_state : ∀ b b', tmpContainers b' = tmpContainers b → trace b' = trace b → I b → I b').
  Context (I_event : ∀ e b, (∀ s, live s e = s) → I b → I (record e b)).
  Context (I_create : ∀ c host id b, I b → I (set_tmp (fun s => {[id]} ∪ s) (record (EvCreate c host (Ok id)) b))).
  Context (I_remove : ∀ c b, I b → I (set_tmp (fun s => s ∖ {[c]}) (record (EvRemove c (Ok tt)) b))).

Ltac same := eapply I_state; [| |eassumption]; reflexivity.

Lemma events_ask {A} f (e : answer A → event) : (∀ r s, live s (e r) = s) → ok I I (ask f e).
Proof using All. intros He b Hb. unfold ask, ends. destruct (f b); apply I_event; auto. Qed.

Lemma events_create host : ok I I (container_create docker host).
Proof using All.
  intros b Hb. unfold container_create. destruct (ContainerCreate _ _ _ _) as [c [id|e]]; unfold ask, bind, modify, ends, ret.
  - apply I_create. by apply (I_state b).
  - apply I_event; [done|]. by apply (I_state b).
Qed.

Lemma events_probe : ok I I (probeCache docker options).
Proof using All.
  intros b Hb. unfold probeCache. destruct (GetCachedImageOnBuild docker); [|done]. destruct (_ || _); [done|]. ok_at.
  apply ok_bind; [by apply events_ask|]. intros id. apply ok_if; (apply ok_bind; [apply ok_modify; intros ? ?; same|]);
    intros; apply ok_ret.
Qed.

Lemma events_clear cs b : I b → I (clear_loop docker cs b).
Proof using All.
  revert b. induction cs as [|c cs IH]; intros b Hb; [done|]. simpl. destruct (ContainerRm _ _ _) as [[]|]; [by auto|].
  by apply I_event.
Qed.

Lemma events_frame : frame docker options rangeSet I I.
Proof using All.
  assert (∀ A f (e : answer A → event), (∀ r, plain_event (e r)) → ok I I (ask f e)) as Hask.
  { intros A f e He. apply events_ask. intros r s. specialize (He r). by destruct (e r). }
  constructor; try done; try (intros; same).
  - intros id cmd comment b0 Hb0 _. apply ok_commit; auto using events_probe; try (intros; by apply events_create); try (intros; same).
    intros id' cmd' b Hb. unfold commit_container. ok_at. apply ok_bind; [by apply events_ask|]. intros img.
    apply ok_modify. intros. same.
  - apply events_probe.
  - intros. by apply events_create.
  - intros. apply I_event; [done|]. same.
  - intros. apply I_event; [done|]. same.
  - intros. by apply events_clear.
  - intros. by apply events_clear.
  - intros. by apply events_ask.
Qed.
End events.

(** The trace only grows. *)
Lemma grows_frame h : frame docker options rangeSet (fun b => h `prefix_of` trace b) (fun b => h `prefix_of` trace b).
Proof.
  apply events_frame; [by intros b b' _ ->|..]; intros; simpl; by apply prefix_app_r.
Qed.

Definition tmp_I (b : Builder) : Prop := tmpContainers b = live_containers (trace b).
Lemma tmp_frame : frame docker options rangeSet tmp_I tmp_I.
Proof.
  unfold tmp_I, live_containers. apply events_frame; [by intros b b' -> ->|..]; intros; simpl; rewrite foldl_app; simpl; congruence.
Qed.

Lemma removal_failed_prefix h h' : h `prefix_of` h' → removal_failed h → removal_failed h'.
Proof. intros [k ->] (id & e & H). exists id, e. apply elem_of_app. by left. Qed.

Lemma clear_loop_tmp cs b :
  ¬ removal_failed (trace (clear_loop docker cs b)) → tmpContainers (clear_loop docker cs b) = tmpContainers b ∖ list_to_set cs.
Proof.
  revert b. induction cs as [|c cs IH]; intros b Hn; simpl in *; [set_solver|].
  destruct (ContainerRm _ _ _) as [[]|e]; [rewrite IH by done; simpl; set_solver|].
  destruct Hn. exists c, e. simpl. apply elem_of_app. right. by left.
Qed.

  Context (rangeSet_ok : ∀ s, rangeSet s ≡ₚ elements s).

Lemma clearTmp_empty b : ¬ removal_failed (trace (clearTmp docker rangeSet b)) → tmpContainers (clearTmp docker rangeSet b) = ∅.
Proof using All.
  unfold clearTmp. intros Hn. rewrite clear_loop_tmp by done. apply leibniz_equiv. intros x.
  rewrite elem_of_difference, elem_of_list_to_set, rangeSet_ok, elem_of_elements. set_solver.
Qed.

Lemma steps_removed cancelled ns b b' :
  Remove options = true → tmpContainers b = ∅ →
  build_steps docker options context rangeArgs rangeSet show_strslice cancelled ns b = (b', Ok tt) →
  ¬ removal_failed (trace b') → tmpContainers b' = ∅.
Proof using All.
  intros HR. revert b. induction ns as [|n ns IH]; intros b Ht Hs Hn; [by injection Hs as ->|]. simpl in Hs.
  destruct (cancelled _); [done|]. destruct (dispatch _ _ _ _ _ _ _ b) as [b1 [[]|e]]; [|by destruct (ForceRemove _)].
  rewrite HR in Hs. apply (IH _) in Hs as HIH; [done| |done]. apply clearTmp_empty.
  intros Hf. apply Hn. eapply removal_failed_prefix, Hf.
  pose proof (frame_steps docker options context rangeArgs rangeSet show_strslice _ _ cancelled ns (grows_frame _) _
    (reflexivity (trace (clearTmp docker rangeSet b1)))) as He.
  rewrite Hs in He. exact He.
Qed.

(** C18: when a build is asked to remove its intermediate containers and succeeds, every
    container that it created has been removed, unless the daemon refused a removal. *)
Theorem intermediates_removed cancelled args root b img :
  Remove options = true →
  builds docker options context rangeArgs rangeSet show_strslice cancelled args root b (Ok img) →
  ¬ removal_failed (trace b) → live_containers (trace b) = ∅.
Proof using All.
  intros HR Hb Hn. pose proof (builds_frame _ _ _ _ _ _ _ _ _ _ _ _ _ Hb tmp_frame eq_refl) as <-.
  revert Hb. unfold builds, build, bind. destruct (lift _ _) as [b0 [refs|]] eqn:El; [|done]. injection El as <- _.
  destruct (build_steps _ _ _ _ _ _ _ _ _) as [b1 [[]|]] eqn:Es; [|done]. unfold gets, fail.
  destruct (negb _); [done|]. destruct (_ =s []); [done|].
  set (tags := mapM_ _ refs). intros Hb.
  assert (ok (fun b => tmpContainers b = tmpContainers b1 ∧ trace b1 `prefix_of` trace b)
    (fun b => tmpContainers b = tmpContainers b1 ∧ trace b1 `prefix_of` trace b) tags) as Htags.
  { apply ok_mapM. intros rt b2 [H1 H2]. unfold ask, ends.
    destruct (TagImage _ _ _ _); (split; [done|by apply prefix_app_r]). }
  specialize (Htags b1 (conj eq_refl (reflexivity _))). destruct (tags b1) as [b2 [[]|]]; [|done]. injection Hb as -> _.
  destruct Htags as [-> Hp]. eapply steps_removed; [done| |done|]; [done|]. intros Hf. apply Hn. by eapply removal_failed_prefix.
Qed.

End containers.

(** ** The chain of images *)

(** The image that a build is at, after an event. *)
Definition image_after (cur : gostring) (e : event) : gostring :=
  match e with
  | EvFrom id => id
  | EvProbe _ _ (Ok id) => if id =s [] then cur else id
  | EvCommit _ _ _ (Ok id) => id
  | _ => cur
  end.
Definition current (h : history) : gostring := foldl image_after [] h.

(** A container that was created from the current image. *)
Definition made_in (h : history) (id : gostring) : Prop :=
  ∃ pre c host post, h = pre ++ EvCreate c host (Ok id) :: post ∧ cImage c = current h ∧ current pre = current h.

(** The cache is asked below the current image, containers are created from it, and what
    is committed is such a container, under a configuration that names the image. *)
Definition event_chained (h : history) (e : event) : Prop :=
  match e with
  | EvProbe parent _ _ => parent = current h
  | EvCreate c _ _ => cImage c = current h
  | EvCommit id _ c _ => cImage c = current h ∧ made_in h id
  | _ => True
  end.
Definition chained (h : history) : Prop := ∀ pre e post, h = pre ++ e :: post → event_chained pre e.

Lemma chained_snoc h e : chained h → event_chained h e → chained (h ++ [e]).
Proof.
  intros Hc He pre e' post Heq. destruct post as [|x post _] using rev_ind.
  - apply app_inj_tail in Heq as [-> ->]. done.
  - rewrite app_comm_cons, app_assoc in Heq. apply app_inj_tail in Heq as [-> _]. by eapply Hc.
Qed.
Lemma current_snoc h e : current (h ++ [e]) = image_after (current h) e.
Proof. unfold current. by rewrite foldl_app. Qed.
Lemma current_plain h es : Forall plain_event es → current (h ++ es) = current h.
Proof.
  unfold current. rewrite foldl_app. intros He. induction He as [|e es Hp _ IH]; [done|]. simpl. by destruct e.
Qed.
Lemma made_made_in b id : image b = current (trace b) → made b id → made_in (trace b) id.
Proof.
  intros Hi (pre&c&host&post&Ht&Hc&Hp). exists pre, c, host, post. rewrite <-Hi. split_and!; [done|done|].
  rewrite Hi, Ht. change (EvCreate c host (Ok id) :: post) with ([EvCreate c host (Ok id)] ++ post).
  rewrite (app_assoc pre), (current_plain _ post Hp). by rewrite current_snoc.
Qed.

Section lineage.
  Context (docker : Backend) (options : Options) (context : option BuildContext).
  Context (rangeArgs : gmap gostring gostring → list (gostring * gostring)) (rangeSet : gset gostring → list gostring).
  Context (show_strslice : list gostring → gostring).
  Context (create_image : ∀ h c host, cImage (ContainerCreate docker h c host).1 = cImage c).

Definition chain_E (b : Builder) : Prop := chained (trace b).
Definition chain_I (b : Builder) : Prop := chain_E b ∧ image b = current (trace b).
(** The configuration names the current image. *)
Definition chain_J (b : Builder) : Prop := chain_I b ∧ cImage (runConfig b) = image b.

Lemma chain_IE b : chain_I b → chain_E b.
Proof. by intros []. Qed.

Lemma chain_record e b : event_chained (trace b) e → image_after (current (trace b)) e = current (trace b) →
  chain_I b → chain_I (record e b).
Proof. intros He Hi [Hc Hb]. split; [by apply chained_snoc|]. simpl. by rewrite current_snoc, Hi. Qed.

Lemma chain_ask {A} f (e : answer A → event) :
  (∀ r h, event_chained h (e r) ∧ image_after (current h) (e r) = current h) → ok chain_I chain_E (ask f e).
Proof. intros He b Hb. unfold ask, ends. destruct (f b) as [x|x]; [|apply chain_IE]; apply chain_record; auto; apply He. Qed.
Lemma chain_plain {A} f (e : answer A → event) : (∀ r, plain_event (e r)) → ok chain_I chain_E (ask f e).
Proof. intros He. apply chain_ask. intros r h. specialize (He r). by destruct (e r). Qed.

Lemma chain_container host b : chain_I b → cImage (runConfig b) = image b → ends chain_J chain_E (container_create docker host b).
Proof using All.
  intros [Hc Hi] Hj. unfold container_create. pose proof (create_image (trace b) (runConfig b) host) as Hci.
  destruct (ContainerCreate _ _ _ _) as [c r]. unfold ask, bind. 
  assert (chained (trace b ++ [EvCreate (runConfig b) host r])) as Hc' by (apply chained_snoc; [done|]; simpl; congruence).
  destruct r as [id|e]; [|exact Hc']. simpl in *. split; [split; [exact Hc'|]|]; simpl; [by rewrite current_snoc|congruence].
Qed.

Lemma chain_probe b : chain_I b →
  match probeCache docker options b with
  | (b', Ok hit) => chain_I b' ∧ (hit = false → cImage (runConfig b') = cImage (runConfig b) ∧ image b' = image b)
  | (b', Err _) => chain_E b'
  end.
Proof.
  intros [Hc Hi]. unfold probeCache. destruct (GetCachedImageOnBuild docker) as [cached|]; [|by split].
  destruct (_ || _); [by split|]. unfold ask, bind.
  assert (∀ r, chained (trace b ++ [EvProbe (image b) (runConfig b) r])) as Hc' by (intros; by apply chained_snoc).
  destruct (cached _ _ _) as [id|e]; [|apply Hc']. destruct (id =s []) eqn:Ei; simpl; split; try done; (split; [apply Hc'|]);
    simpl; rewrite current_snoc; simpl; by rewrite Ei.
Qed.

Lemma chain_create b : chain_I b →
  match create docker options b with
  | (b', Ok id) => chain_J b' ∧ made b' id
  | (b', Err _) => chain_E b'
  end.
Proof using All.
  intros Hb. assert (ends chain_J chain_E (create docker options b)) as Hc.
  2:{ unfold ends in Hc. destruct (create docker options b) as [b' [id|e]] eqn:Ec; [|done]. split; [done|]. by eapply create_made. }
  unfold create. destruct (_ && _); [by apply chain_IE|].
  rewrite bind_modify. apply (ends_then (fun _ => chain_J)); [by apply chain_container; [|apply cImage_with]|].
  intros id b1 HJ. ok_at. apply ok_bind; [|intros; apply ok_ret]. apply ok_if; [|apply ok_ret].
  intros b2 [H2 Hi2]. match goal with |- ends _ _ (ask ?f ?e _) => pose proof (chain_plain f e (fun _ => Logic.I) b2 H2) as Ha end.
  revert Ha. unfold ask, ends. destruct (ContainerUpdateCmdOnBuild _ _ _ _); [|done]. by split.
Qed.

Lemma chain_commit_container id cmd b : chain_J b → made b id → ends chain_I chain_E (commit_container docker id cmd b).
Proof.
  intros [[Hc Hi] Hj] Hm. unfold commit_container, ask, bind.
  assert (∀ r, chained (trace b ++ [EvCommit id (maintainer b) (with_cmd cmd (runConfig b)) r])) as Hc'.
  { intros. apply chained_snoc; [done|]. simpl. rewrite cImage_cmd. split; [congruence|]. by apply made_made_in. }
  destruct (Commit _ _ _ _ _) as [img|e]; simpl; [|apply Hc']. split; [apply Hc'|]. simpl. by rewrite current_snoc.
Qed.

Lemma ends_bind {A B} (P I E : Builder → Prop) (m : M A) (k : A → M B) b :
  ends P E (m b) → (∀ x b', P b' → ends I E (k x b')) → ends I E (bind m k b).
Proof. intros Hm Hk. unfold bind. unfold ends in Hm. destruct (m b) as [b' [x|e]]; [by apply Hk|done]. Qed.
Lemma ends_finally {A} (I E : Builder → Prop) (m : M A) f b :
  (∀ b, I b → I (f b)) → (∀ b, E b → E (f b)) → ends I E (m b) → ends I E (finally m f b).
Proof. intros HI HE. unfold ends, finally. destruct (m b) as [b' [x|e]]; auto. Qed.

Lemma chain_commit id cmd comment b : chain_I b → id = [] ∨ made b id → ends chain_I chain_E (commit docker options id cmd comment b).
Proof using All.
  intros Hb Hid. unfold commit. destruct (disableCommit b); [done|]. destruct (_ && _); [by apply chain_IE|].
  rewrite bind_modify. cbv beta. assert (chain_J (set_config (with_image (image b)) b)) as HJ by (split; [done|apply cImage_with]).
  destruct id as [|a id]; [|destruct Hid as [|Hm]; [done|]; apply chain_commit_container; [done|by apply (made_same b)]].
  apply ends_finally; [done|done|]. rewrite bind_modify. cbv beta.
  pose proof (chain_probe (set_config (with_cmd ["/bin/sh"; "-c"; "#(nop) " ++ comment]) (set_config (with_image (image b)) b)) (proj1 HJ)) as Hp.
  unfold bind at 1. destruct (probeCache _ _ _) as [b' [[]|e]]; [by apply Hp| |done].
  apply (ends_then (fun id b => chain_J b ∧ made b id)); [by apply chain_create, Hp|]. intros id b2 [H2 Hm2]. by apply chain_commit_container.
Qed.

Lemma chain_frame : frame docker options rangeSet chain_I chain_E.
Proof using All.
  constructor; auto using chain_IE, chain_commit.
  - intros b Hb. pose proof (chain_probe b Hb) as Hp. unfold ends. destruct (probeCache _ _ b) as [b' [[]|]]; [apply Hp..|done].
  - intros host b Hb Hi. pose proof (chain_container host b Hb Hi) as Hc. revert Hc. unfold ends.
    destruct (container_create docker host b) as [b' [id|e]]; [by intros []|done].
  - intros A f e He. by apply chain_plain.
  - intros id b [Hc Hi]. split; [by apply chained_snoc|]. simpl. by rewrite current_snoc.
  - intros b [Hc Hi]. split; [by apply chained_snoc|]. simpl. by rewrite current_snoc.
  - intros b Hb. unfold clearTmp. apply clear_loop_inv; [|done|done]. intros. by apply chain_record.
  - intros b Hb. unfold clearTmp. apply clear_loop_inv; [|done|done]. intros. by apply chained_snoc.
  - intros rt img. by apply chain_ask.
Qed.

(** C15: the images of a build form a chain: every container of the build is created
    from the image that the step before it ended with (a [RUN], an [ADD] or a [COPY]
    works on the image so far), what is committed is a container that was created from
    that image, under a configuration that names it, the cache is only asked for
    children of that image, and the image that the build returns is the last of them. *)
Theorem images_chained cancelled args root b r :
  builds docker options context rangeArgs rangeSet show_strslice cancelled args root b r →
  chained (trace b) ∧ ∀ img, r = Ok img → img = current (trace b) ∧ img ≠ [].
Proof using All.
  intros Hb. assert (chain_I (NewBuilder args)) as H0 by (split; [by intros [] ? ?|done]).
  split; [by apply (builds_frame _ _ _ _ _ _ _ _ _ _ _ _ _ Hb chain_frame)|]. intros img ->.
  pose proof (frame_build docker options context rangeArgs rangeSet show_strslice _ _ cancelled root chain_frame _ H0) as He.
  rewrite Hb in He. destruct He as [_ <-]. revert Hb.
  unfold builds, build, bind. destruct (lift _ _) as [b0 [refs|]]; [|done].
  destruct (build_steps _ _ _ _ _ _ _ _ _) as [b1 [[]|]]; [|done]. unfold gets, fail.
  destruct (negb _); [done|]. destruct (image b1 =s []) eqn:Ei; [done|].
  set (tags := mapM_ _ refs). intros Hb.
  assert (ok (fun b => image b = image b1) (fun _ => True) tags) as Htags.
  { apply ok_mapM. intros rt b2 H1. unfold ask, ends. by destruct (TagImage _ _ _ _). }
  specialize (Htags b1 eq_refl). destruct (tags b1) as [b2 [[]|]]; [|done]. injection Hb as <- <-.
  split; [symmetry; exact Htags|]. intros Hn. by rewrite Hn in Ei.
Qed.

End lineage.

(** ** Build arguments *)

Section run_args.
  Context (docker : Backend) (options : Options) (rangeArgs : gmap gostring gostring → list (gostring * gostring)).
  Context (create_id : ∀ h c host id, (ContainerCreate docker h c host).2 = Ok id → id ≠ []).

(** What a [RUN] may ask of the daemon: the command runs with the build arguments in its
    environment, the cache knows it with them in the command, the image has neither. *)
Definition run_event (env buildEnv args cmd : list gostring) (e : event) : Prop :=
  match e with
  | EvProbe _ c _ => cEnv c = env ∧ cCmd c = saveCmd buildEnv args
  | EvCreate c _ _ => cEnv c = env ++ buildEnv ∧ cCmd c = args
  | EvUpdateCmd _ l _ => l = args
  | EvRun _ _ => True
  | EvCommit _ _ c _ => cEnv c = env ∧ cCmd c = cmd
  | _ => False
  end.

Definition extends (h : history) (P : event → Prop) (b : Builder) : Prop := ∃ evs, trace b = h ++ evs ∧ Forall P evs.
Lemma extends_record h P e b : P e → extends h P b → extends h P (record e b).
Proof. intros He (evs & Ht & HP). exists (evs ++ [e]). simpl. rewrite Ht, app_assoc, Forall_app. auto. Qed.
Lemma extends_ask {A} h P f (e : answer A → event) : (∀ r, P (e r)) → ok (extends h P) (extends h P) (ask f e).
Proof. intros He b Hb. unfold ask, ends. destruct (f b); by apply extends_record. Qed.

Lemma probe_extends h P b : (∀ r, P (EvProbe (image b) (runConfig b) r)) → extends h P b →
  match probeCache docker options b with
  | (b', Ok _) => extends h P b' ∧ runConfig b' = runConfig b
  | (b', Err _) => extends h P b'
  end.
Proof.
  intros HP Hb. unfold probeCache. destruct (GetCachedImageOnBuild docker) as [cached|]; [|done]. destruct (_ || _); [done|].
  unfold ask, bind. assert (∀ r, extends h P (record (EvProbe (image b) (runConfig b) r) b)) as Hr by (intros; by apply extends_record).
  destruct (cached _ _ _) as [id|e]; [|apply Hr]. destruct (id =s []); simpl; (split; [apply (Hr (Ok id))|done]).
Qed.

Lemma cEnv_image i c : cEnv (with_image i c) = cEnv c.
Proof. by destruct c as [[]]. Qed.
Lemma cCmd_image i c : cCmd (with_image i c) = cCmd c.
Proof. by destruct c as [[]]. Qed.
Lemma cCmd_cmd l c : cCmd (with_cmd l c) = l.
Proof. by destruct c as [[]]. Qed.
Lemma cEnv_cmd l c : cEnv (with_cmd l c) = cEnv c.
Proof. by destruct c as [[]]. Qed.
Lemma cEnv_env l c : cEnv (with_env l c) = l.
Proof. by destruct c as [[]]. Qed.
Lemma cCmd_env l c : cCmd (with_env l c) = cCmd c.
Proof. by destruct c as [[]]. Qed.
Lemma cEnv_escaped v c : cEnv (with_escaped v c) = cEnv c.
Proof. done. Qed.
Lemma cCmd_escaped v c : cCmd (with_escaped v c) = cCmd c.
Proof. done. Qed.
Create HintDb config.
Hint Rewrite cEnv_image cCmd_image cCmd_cmd cEnv_cmd cEnv_env cCmd_env cEnv_escaped cCmd_escaped : config.

Lemma create_extends h env buildEnv args cmd b :
  cEnv (runConfig b) = env ++ buildEnv → cCmd (runConfig b) = args → extends h (run_event env buildEnv args cmd) b →
  match create docker options b with
  | (b', Ok id) => extends h (run_event env buildEnv args cmd) b' ∧ id ≠ []
  | (b', Err _) => extends h (run_event env buildEnv args cmd) b'
  end.
Proof using create_id.
  intros He Hc Hb. unfold create. destruct (_ && _); [done|]. rewrite bind_modify. unfold container_create, bind at 1.
  pose proof (create_id (trace (set_config (with_image (image b)) b)) (runConfig (set_config (with_image (image b)) b)) (Some (opt_Host options))) as Hid.
  destruct (ContainerCreate _ _ _ _) as [c r]. simpl in Hid. unfold ask at 1, bind at 1.
  assert (extends h (run_event env buildEnv args cmd) (record (EvCreate (runConfig (set_config (with_image (image b)) b)) (Some (opt_Host options)) r)
    (set_config (fun _ => c) (set_config (with_image (image b)) b)))) as Hr.
  { apply extends_record; [|done]. simpl. autorewrite with config. auto. }
  destruct r as [id|e]; [|exact Hr]. specialize (Hid id eq_refl). cbn [set_config runConfig]. autorewrite with config. rewrite Hc.
  unfold bind, modify, ret, ask. destruct (Nat.ltb _ _); [|done]. destruct (ContainerUpdateCmdOnBuild _ _ _ _); [split; [|done]|]; by apply extends_record.
Qed.

Lemma cmdBuildEnv_config f b : cEnv (f (runConfig b)) = cEnv (runConfig b) → cmdBuildEnv rangeArgs (set_config f b) = cmdBuildEnv rangeArgs b.
Proof. unfold cmdBuildEnv. simpl. by intros ->. Qed.

Lemma run_extends s b :
  let P := run_event (cEnv (runConfig b)) (cmdBuildEnv rangeArgs b) (shell_form s) (cCmd (runConfig b)) in
  ends (extends (trace b) P) (extends (trace b) P) (run docker options rangeArgs s b).
Proof using create_id.
  intros P. assert (extends (trace b) P b) as H0 by (exists []; by rewrite app_nil_r). unfold run. destruct (_ && _); [done|].
  apply (ends_bind (fun b' => b' = b)).
  { unfold parse_flags. by destruct (BFlags_Parse _).2. }
  intros _ b' ->. apply ends_finally; [done|done|]. rewrite bind_modify. unfold bind at 1, gets. rewrite cmdBuildEnv_config.
  2:{ destruct (_ && _); by autorewrite with config. }
  set (buildEnv := cmdBuildEnv rangeArgs b). rewrite bind_modify. unfold bind at 1.
  match goal with |- ends _ _ (match probeCache _ _ ?x with _ => _ end) => set (b1 := x);
    assert (cEnv (runConfig b1) = cEnv (runConfig b) ∧ cCmd (runConfig b1) = saveCmd buildEnv (shell_form s)) as [He1 Hc1] end.
  { simpl. autorewrite with config. split; [|done]. destruct (_ && _); by autorewrite with config. }
  pose proof (probe_extends (trace b) P b1 (fun _ => conj He1 Hc1) H0) as Hp.
  destruct (probeCache _ _ _) as [b2 [[]|e]]; [apply Hp| |exact Hp]. destruct Hp as [Hp Hb2]. rewrite bind_modify. unfold bind at 1.
  match goal with |- ends _ _ (match create _ _ ?x with _ => _ end) => set (b3 := x);
    assert (cEnv (runConfig b3) = cEnv (runConfig b) ++ buildEnv ∧ cCmd (runConfig b3) = shell_form s) as [He3 Hc3] end.
  { simpl. autorewrite with config. split; [|done]. by rewrite Hb2, He1. }
  pose proof (create_extends (trace b) (cEnv (runConfig b)) buildEnv (shell_form s) (cCmd (runConfig b)) b3 He3 Hc3 Hp) as Hcr.
  destruct (create _ _ _) as [b4 [id|e]]; [|exact Hcr]. destruct Hcr as [Hcr Hid].
  apply (ends_bind (extends (trace b) P)).
  { unfold run_container. ok_at. apply ok_bind; [by apply extends_ask|]. intros code. apply ok_if; [apply ok_ret|]. by intros b5. }
  intros _ b5 Hb5. rewrite bind_modify. unfold commit. destruct (disableCommit _); [done|]. destruct (_ && _); [done|].
  rewrite bind_modify. cbv beta. destruct id as [|a id]; [done|]. unfold commit_container.
  match goal with |- ends ?I ?E (?m ?x) => refine (ok_use I E m x _ _); [|exact Hb5] end. apply ok_bind; [|intros; by apply ok_modify].
  apply extends_ask. intros r. unfold P, run_event. cbn [set_config runConfig]. by autorewrite with config.
Qed.

(** C16: the build arguments reach the command of a [RUN] instruction and the key under
    which the cache knows it, but not the image: whatever the daemon answers, the
    configuration that is committed and the one that is left have the environment and
    the command from before. *)
Theorem run_hides_build_args s b b' r :
  run docker options rangeArgs s b = (b', r) →
  cEnv (runConfig b') = cEnv (runConfig b) ∧ cCmd (runConfig b') = cCmd (runConfig b) ∧
  ∃ evs, trace b' = trace b ++ evs ∧
    Forall (run_event (cEnv (runConfig b)) (cmdBuildEnv rangeArgs b) (shell_form s) (cCmd (runConfig b))) evs.
Proof using create_id.
  intros Hr. pose proof (run_extends s b) as He. cbv zeta in He. rewrite Hr in He.
  assert (cEnv (runConfig b') = cEnv (runConfig b) ∧ cCmd (runConfig b') = cCmd (runConfig b)) as [-> ->].
  { revert Hr. unfold run. destruct (_ && _); [by intros [= <- _]|]. unfold bind at 1, parse_flags.
    destruct (BFlags_Parse _).2; [by intros [= <- _]|]. unfold ret, finally. destruct (bind _ _ _). intros [= <- _].
    simpl. by autorewrite with config. }
  split_and!; [done|done|]. by destruct r.
Qed.

End run_args.

(** ** The key of a command *)

Lemma FormatUint_inj m n : 0 <= m → 0 <= n → FormatUint m = FormatUint n → m = n.
Proof.
  intros Hm Hn Heq. assert (m + n < 2 ^ (m + n)) by (apply Z.pow_gt_lin_r; lia).
  pose proof (ParseUint_FormatUint m (m + n)) as H1. pose proof (ParseUint_FormatUint n (m + n)) as H2. unfold maxUint in *.
  rewrite Heq, H2 in H1 by lia. specialize (H1 ltac:(lia)). congruence.
Qed.

(** A command that the special first argument cannot be taken for. *)
Definition no_bar (cmd : list gostring) : Prop := ∀ a rest, cmd ≠ (ch "|" :: a) :: rest.

(** The cache tells apart two [RUN] instructions with different commands or with
    different build arguments, provided that no command starts with a vertical bar. *)
Theorem saveCmd_inj env1 cmd1 env2 cmd2 :
  no_bar cmd1 → no_bar cmd2 → saveCmd env1 cmd1 = saveCmd env2 cmd2 → env1 = env2 ∧ cmd1 = cmd2.
Proof.
  intros H1 H2. assert (∀ e env cmd, saveCmd (e :: env) cmd = (ch "|" :: FormatUint (Z.of_nat (S (length env)))) :: (e :: env) ++ cmd) as Hs.
  { intros. unfold saveCmd, FormatInt. cbn [length]. by destruct (Z.ltb_spec (Z.of_nat (S (length env))) 0); [lia|]. }
  destruct env1 as [|e1 env1], env2 as [|e2 env2]; rewrite ?Hs; simpl (saveCmd [] _); intros Heq; [done|by destruct (H1 _ _ Heq)|by destruct (H2 _ _ (eq_sym Heq))|].
  injection Heq as Hn -> Heq. apply FormatUint_inj in Hn; [|lia..]. apply app_inj_1 in Heq as [-> ->]; [done|lia].
Qed.

(** The bar is not excluded by the parser: an exec form may start with it. *)
Example saveCmd_collision : saveCmd ["a=b"] ["make"] = saveCmd [] ["|1"; "a=b"; "make"].
Proof. reflexivity. Qed.

(** ** Changes of a configuration *)

Section changes.
  Context (docker docker' : Backend) (rangeArgs : gmap gostring gostring → list (gostring * gostring)).
  Context (rangeSet : gset gostring → list gostring) (show_strslice : list gostring → gostring).

(** Two handlers that do the same without a daemon. *)
Definition offline (b : Builder) : Prop := disableCommit b = true ∧ trace b = [].
Definition same {A} (m m' : M A) : Prop := ∀ b, offline b → m b = m' b ∧ offline (m b).1.

Lemma same_refl {A} (m : M A) : (∀ b, offline b → offline (m b).1) → same m m.
Proof. intros H b Hb. auto. Qed.
Lemma same_bind {A B} (m m' : M A) (k k' : A → M B) : same m m' → (∀ x, same (k x) (k' x)) → same (bind m k) (bind m' k').
Proof.
  intros Hm Hk b Hb. destruct (Hm b Hb) as [He Ho]. unfold bind. rewrite <-He. destruct (m b) as [b' [x|e]]; [by apply Hk|done].
Qed.
Lemma same_mapM {A} (f f' : A → M unit) l : (∀ x, x ∈ l → same (f x) (f' x)) → same (mapM_ f l) (mapM_ f' l).
Proof.
  induction l as [|x l IH]; intros H; [by apply same_refl|]. simpl. apply same_bind; [by apply H, elem_of_cons; left|].
  intros _. apply IH. intros y Hy. by apply H, elem_of_cons; right.
Qed.
Lemma same_commit comment : same (commit_config docker no_options comment) (commit_config docker' no_options comment).
Proof. intros b [Hd Ht]. unfold commit_config, commit. rewrite Hd. done. Qed.

Ltac same_step :=
  match goal with
  | |- same (ret _) _ => by apply same_refl
  | |- same (throw _) _ => by apply same_refl
  | |- same (fail _ _) _ => by apply same_refl
  | |- same (gets _) _ => by apply same_refl
  | |- same (lift _) _ => by apply same_refl
  | |- same (modify _) _ => by apply same_refl
  | |- same (parse_flags _) _ => apply same_refl; intros ? ?; unfold parse_flags; by destruct (BFlags_Parse _).2
  | |- same (commit_config _ _ _) _ => apply same_commit
  | |- same (bind _ _) (bind _ _) => apply same_bind; [|intros ?]
  | |- same (mapM_ _ _) _ => apply same_mapM; intros ? ?
  | |- same (let '(_, _) := ?x in _) _ => destruct x
  | |- same (match ?x with _ => _ end) _ => destruct x
  end.

Lemma same_config from from' s : validCommitCommands (st_cmd s) = true →
  same (evaluate docker no_options None rangeArgs rangeSet show_strslice from s)
       (evaluate docker' no_options None rangeArgs rangeSet show_strslice from' s).
Proof.
  intros Hc. unfold validCommitCommands in Hc. case_bool_decide as Hin; [|done]. clear Hc. unfold evaluate. rewrite !elem_of_cons in Hin.
  destruct Hin as [->|[->|[->|[->|[->|[->|[->|[->|[->|[]%elem_of_nil]]]]]]]]]; simpl;
    unfold cmd_, entrypoint, env_, expose, label, onbuild, user, volume, add_volume, workdir; repeat same_step.
  intros b Hb. by apply same_commit.
Qed.

Lemma dispatch_cmd env args n s : ShellWord.dispatch env args n = Ok s → st_cmd s = Value n.
Proof.
  unfold ShellWord.dispatch. intros H.
  repeat match goal with
  | Hx : (let! _ := _ in _) = Ok _ |- _ => progress inv_ok
  | Hx : (let '(_, _) := ?x in _) = Ok _ |- _ => destruct x
  end.
  destruct (evaluateTable _); [|done]. by simplify_eq.
Qed.

Lemma check_changes_valid ns n : check_changes ns = Ok tt → n ∈ ns → ∃ n', n = Some n' ∧ validCommitCommands (Value n') = true.
Proof.
  induction ns as [|[m|] ns IH]; [by intros _ ?%elem_of_nil| |done]. simpl. destruct (validCommitCommands (Value m)) eqn:Ev; [|done].
  intros Hc [->|Hn]%elem_of_cons; eauto.
Qed.

(** [BuildFromConfig], which has no daemon, never asks for one: what it returns does
    not depend on the daemon, and it leaves no trace; so the nil pointer that stands
    for it is never used. *)
Theorem BuildFromConfig_no_daemon config changes :
  BuildFromConfig docker rangeArgs rangeSet show_strslice config changes =
  BuildFromConfig docker' rangeArgs rangeSet show_strslice config changes ∧
  trace (BuildFromConfig docker rangeArgs rangeSet show_strslice config changes).1 = [].
Proof.
  unfold BuildFromConfig. destruct (Parse _) as [ast|]; [|done]. destruct (check_changes (Children ast)) as [[]|] eqn:Ec; [|done].
  assert (same (bind (mapM_ (dispatch docker no_options None rangeArgs rangeSet show_strslice) (Children ast)) (fun _ => gets runConfig))
    (bind (mapM_ (dispatch docker' no_options None rangeArgs rangeSet show_strslice) (Children ast)) (fun _ => gets runConfig))) as Hs.
  { apply same_bind; [|intros; by apply same_refl]. apply same_mapM. intros n Hn.
    destruct (check_changes_valid _ _ Ec Hn) as (n' & -> & Hv). intros b Hb. unfold dispatch, dispatch_node.
    destruct (ShellWord.dispatch _ _ _) as [s|[]] eqn:Ed; [|done..]. apply same_config; [|done]. by rewrite (dispatch_cmd _ _ _ _ Ed). }
  destruct (Hs (mkBuilder config ∅ [] false [] false true false ∅ ∅ [])) as [He [_ Ht]]; [done|]. split; [exact He|exact Ht].
Qed.

End changes.

(** ** Variables *)

Lemma get_env_set env kv rest n :
  ch "=" ∉ kv.1 → get_env (set_env env kv ++ rest) n = if decide (kv.1 = n) then kv.2 else get_env (env ++ rest) n.
Proof.
  intros Hk. assert (∀ l, get_env (assignment kv :: l) n = if decide (kv.1 = n) then kv.2 else get_env l n) as Ha.
  { intros l. cbn [get_env]. unfold assignment. change (Cut "=" (kv.1 ++ "=" ++ kv.2)) with (Cut [ch "="] (kv.1 ++ ch "=" :: kv.2)).
    rewrite Cut_char_app by done. unfold streqb. destruct (decide (kv.1 = n)) as [->|Hne]; [by rewrite bool_decide_eq_true_2|].
    by rewrite bool_decide_eq_false_2. }
  induction env as [|e env IH]; cbn [set_env]; [by rewrite <-app_comm_cons, Ha|].
  change (SplitN e "=" 2) with (SplitN e [ch "="] 2). rewrite SplitN_2_char. change (Cut [ch "="] e) with (Cut "=" e).
  destruct (Cut "=" e) as [[k v]|] eqn:Ec; cbn [head default from_option id];
    (destruct (_ =s kv.1) eqn:Ek; [apply bool_decide_eq_true in Ek; subst|]; rewrite <-app_comm_cons).
  - rewrite Ha. destruct (decide (kv.1 = n)) as [|Hne]; [done|]. rewrite <-app_comm_cons. cbn [get_env]. rewrite Ec.
    rewrite (streqb_ne n kv.1); [done|]. by intros ->.
  - cbn [get_env app]. rewrite Ec, IH. destruct (n =s k) eqn:En; [|done]. apply bool_decide_eq_true in En; subst n.
    apply bool_decide_eq_false in Ek. by rewrite decide_False.
  - rewrite Ha. destruct (decide (kv.1 = n)) as [|Hne]; [done|]. rewrite <-app_comm_cons. cbn [get_env]. rewrite Ec.
    rewrite (streqb_ne n kv.1); [done|]. by intros ->.
  - cbn [get_env app]. rewrite Ec, IH. destruct (n =s e) eqn:En; [|done]. apply bool_decide_eq_true in En; subst n.
    apply bool_decide_eq_false in Ek. by rewrite decide_False.
Qed.

Lemma get_env_sets env kvs rest n :
  Forall (fun kv => ch "=" ∉ kv.1) kvs →
  get_env (foldl set_env env kvs ++ rest) n =
  match last (filter (fun kv : gostring * gostring => kv.1 = n) kvs) with Some kv => kv.2 | None => get_env (env ++ rest) n end.
Proof.
  intros Hk. induction kvs as [|kv kvs IH] using rev_ind; [done|]. apply Forall_app in Hk as [Hk Hkv]. apply (proj1 (Forall_singleton _ _)) in Hkv.
  rewrite foldl_app, filter_app, last_app. cbn [foldl]. rewrite get_env_set by exact Hkv. destruct (decide (kv.1 = n)) as [Heq|Hne].
  - by rewrite filter_cons_True.
  - rewrite filter_cons_False by done. by apply IH.
Qed.

(** After an [ENV] instruction, a variable in an argument of a later instruction
    stands for the value that the instruction gave it last, and for its earlier value
    when the instruction does not name it; build arguments, which come after the
    environment, never replace it. *)
Theorem ENV_defines env kvs buildArgs pre n post :
  Forall (fun kv => ch "=" ∉ kv.1) kvs → Forall literal_char pre → Forall literal_char post → valid_name n →
  ProcessWord (pre ++ braces n [] ++ post) (foldl set_env env kvs ++ buildArgs) =
  Ok (scanned pre ++ (match last (filter (fun kv : gostring * gostring => kv.1 = n) kvs) with
              | Some kv => kv.2
              | None => get_env (env ++ buildArgs) n
              end) ++ Utf8.Utf8.sanitize post).
Proof. intros. rewrite ProcessWord_brace by done. by rewrite get_env_sets. Qed.

Lemma ENV_defines_witness :
  ProcessWord "/${A}.txt" (foldl set_env ["A=1"; "B=2"] [("A" : gostring, "x" : gostring); ("C" : gostring, "y" : gostring)] ++ ["A=arg"]) = Ok "/x.txt".
Proof.
  refine (ENV_defines ["A=1"; "B=2"] [("A" : gostring, "x" : gostring); ("C" : gostring, "y" : gostring)] ["A=arg"] "/" "A" ".txt" _ _ _ _).
  - vm_decide.
  - vm_decide.
  - vm_decide.
  - split_and!; [discriminate|vm_decide|vm_compute; reflexivity].
Defined.

(** ** The end of a build *)

Definition is_tagged (r : Reference.Named) : Prop := match r with Reference.taggedRef _ _ => True | _ => False end.

Lemma sanitize_spec names seen refs :
  sanitize names seen = Ok refs →
  Forall is_tagged refs ∧ NoDup (Reference.String <$> refs) ∧ (∀ s, s ∈ seen → s ∉ Reference.String <$> refs) ∧
  ∀ n r, n ∈ names → n ≠ [] → Reference.ParseNamed n = Ok r →
    Reference.String (Reference.WithDefaultTag r) ∈ seen ++ (Reference.String <$> refs).
Proof.
  revert seen refs. induction names as [|n names IH]; intros seen refs; cbn [sanitize].
  { intros [= <-]. split_and!; [constructor|constructor|by intros ? ? ?%elem_of_nil|by intros ? ? ?%elem_of_nil]. }
  assert (∀ r m, Reference.WithDefaultTag r ≠ Reference.namedRef m) as Hdef by (intros [] ?; vm_compute; discriminate).
  destruct (n =s []) eqn:En.
  { intros Hs. destruct (IH _ _ Hs) as (H1 & H2 & H3 & H4). split_and!; [done|done|done|].
    intros m r [->|Hm]%elem_of_cons Hne; [|eauto]. apply bool_decide_eq_true in En. done. }
  destruct (Reference.ParseNamed n) as [r|] eqn:Ep; [|done].
  destruct (Reference.WithDefaultTag r) as [m|m t|m d] eqn:Ed; [by destruct (Hdef r m)| |done].
  case_bool_decide as Hin.
  { intros Hs. destruct (IH _ _ Hs) as (H1 & H2 & H3 & H4). split_and!; [done|done|done|].
    intros x y [->|Hx]%elem_of_cons Hne Hp; [|eauto]. rewrite Ep in Hp. injection Hp as <-. rewrite Ed. apply elem_of_app. by left. }
  intros Hs. destruct (sanitize names _) as [refs'|] eqn:Es; [|done]. injection Hs as <-.
  destruct (IH _ _ Es) as (H1 & H2 & H3 & H4). rewrite fmap_cons. split_and!.
  - by constructor.
  - constructor; [|done]. apply H3. by left.
  - intros x Hx. rewrite not_elem_of_cons. split; [by intros ->|]. apply H3. by right.
  - intros x y [->|Hx]%elem_of_cons Hne Hp; [rewrite Ep in Hp; injection Hp as <-; rewrite Ed; set_solver|].
    specialize (H4 x y Hx Hne Hp). set_solver.
Qed.

(** A build that succeeds has used every build argument that it was given, and has
    tagged its image, last, with each of the names it was asked for, once, with a tag
    and without a digest. *)
Theorem build_tags docker options context rangeArgs rangeSet show cancelled args root b img :
  (∀ m, rangeArgs m ≡ₚ map_to_list m) →
  builds docker options context rangeArgs rangeSet show cancelled args root b (Ok img) →
  (∀ a, is_Some (BuildArgs b !! a) → isBuildArgAllowed b a = true) ∧
  ∃ refs h, sanitizeRepoAndTags (Tags options) = Ok refs ∧ trace b = h ++ ((fun rt => EvTag rt img (Ok tt)) <$> refs) ∧
    Forall is_tagged refs ∧ NoDup (Reference.String <$> refs) ∧
    ∀ n r, n ∈ Tags options → n ≠ [] → Reference.ParseNamed n = Ok r → Reference.String (Reference.WithDefaultTag r) ∈ Reference.String <$> refs.
Proof.
  intros Hra. unfold builds, build, bind, lift. destruct (sanitizeRepoAndTags _) as [refs|] eqn:Er; [|done].
  destruct (build_steps _ _ _ _ _ _ _ _ _) as [b1 [[]|]]; [|done]. unfold gets, fail. destruct (negb _) eqn:El; [done|].
  destruct (_ =s []); [done|]. intros Hb.
  assert (∀ b1, match mapM_ (fun rt => ask (fun b => TagImage docker (trace b) rt (image b1)) (EvTag rt (image b1))) refs b1 with
    | (b2, Ok _) => trace b2 = trace b1 ++ ((fun rt => EvTag rt (image b1) (Ok tt)) <$> refs) ∧ BuildArgs b2 = BuildArgs b1 ∧ allowedBuildArgs b2 = allowedBuildArgs b1
    | _ => True end) as Htags.
  { clear. intros b1. generalize (image b1). intros img. revert b1. induction refs as [|rt refs IH]; intros b1; [by rewrite app_nil_r|].
    simpl. unfold bind at 1, ask at 1. destruct (TagImage _ _ _ _) as [[]|]; [|done]. specialize (IH (record (EvTag rt img (Ok tt)) b1)).
    destruct (mapM_ _ _ _) as [b2 [[]|]]; [|done]. destruct IH as (-> & -> & ->). simpl. by rewrite <-(assoc_L (++)). }
  specialize (Htags b1). destruct (mapM_ _ refs b1) as [b2 [[]|]]; [|done]. injection Hb as -> <-. destruct Htags as (Ht & Ha & Hal).
  apply sanitize_spec in Er as Hs. destruct Hs as (H1 & H2 & _ & H4). split; [|exists refs, (trace b1); split_and!; done].
  intros a [v Hv]. rewrite Ha in Hv. apply negb_false_iff, Nat.eqb_eq, nil_length_inv in El.
  destruct (isBuildArgAllowed b a) eqn:Eal; [done|]. assert (a ∈ ([] : list gostring)) as []%elem_of_nil. rewrite <-El.
  apply list_elem_of_filter. split; [revert Eal; unfold isBuildArgAllowed; by rewrite Hal|]. apply list_elem_of_fmap. exists (a, v).
  split; [done|]. rewrite Hra. by apply elem_of_map_to_list.
Qed.

(** ** An example *)

Definition demo_backend : Backend := {|
  GetImageOnBuild _ n := if n =s "busybox" then Some (mkBImage "i0" (Some no_config)) else None;
  PullOnBuild _ n := Err "no such image";
  GetCachedImageOnBuild := Some (fun _ parent _ => if parent =s "i0" then Ok "i1" else Ok []);
  ContainerCreate h c host := (c, Ok ("c" ++ FormatUint (Z.of_nat (length h))));
  ContainerUpdateCmdOnBuild _ _ _ := Ok tt;
  ContainerRun _ _ := Ok 0;
  CopyOnBuild _ _ _ _ _ := Ok tt;
  Commit h _ _ _ := Ok ("j" ++ FormatUint (Z.of_nat (length h)));
  ContainerRm _ _ := Ok tt;
  TagImage _ _ _ := Ok tt;
|}.
Definition demo_options : Options :=
  mkOptions false false true false ["app:v1"; "app:v1"; ""] (mkBuildHost [] 0 (mkResources [] 0 0 0 0 0 false 0 0 [] [] 0 0 [] [] [] [] [] [] [])).
Definition demo_file : gostring :=
  Join ["FROM busybox"; "ARG v=1"; "ENV A=2 B=$v"; "RUN make $v"; "WORKDIR src"; "LABEL x=$B"; "CMD [\a]"] nl.
Definition demo_root : Node := match Parse demo_file with Ok n => n | Err _ => mkNode [] None [] ∅ [] [] 0 0 end.
Definition demo : Builder * result berror gostring :=
  build demo_backend demo_options None map_to_list elements show_q (fun _ => false) demo_root (NewBuilder {[("v" : gostring) := ("7" : gostring)]}).

Lemma demo_builds : builds demo_backend demo_options None map_to_list elements show_q (fun _ => false)
  {[("v" : gostring) := ("7" : gostring)]} demo_root demo.1 demo.2.
Proof. unfold builds. fold demo. by destruct demo. Qed.

Example demo_ok : is_ok demo.2 = true ∧ cEnv (runConfig demo.1) = ["PATH=" ++ DefaultPathEnv; "A=2"; "B=7"] ∧
  Labels (base (runConfig demo.1)) !! ("x" : gostring) = Some ("7" : gostring) ∧
  WorkingDir (base (runConfig demo.1)) = "/src" ∧ probes (trace demo.1) = [Ok "i1"; Ok []].
Proof. vm_compute. by split_and!. Qed.

Lemma cache_prefix_witness : length (probes (trace demo.1)) = 2%nat ∧ hits_but_last (probes (trace demo.1)).
Proof. split; [vm_compute; reflexivity|]. exact (cache_prefix _ _ _ _ _ _ _ _ _ _ _ demo_builds). Defined.

Lemma demo_removals id e : EvRemove id (Err e) ∉ trace demo.1.
Proof.
  assert (Forall (fun ev => match ev with EvRemove _ (Err _) => False | _ => True end) (trace demo.1)) as H by (vm_compute; repeat constructor).
  intros Hin. by apply (proj1 (Forall_forall _ _) H) in Hin.
Qed.

Lemma intermediates_removed_witness : live_containers (trace demo.1) = ∅ ∧ (0 < length (trace demo.1))%nat.
Proof.
  split; [|vm_compute; lia].
  refine (intermediates_removed demo_backend demo_options None map_to_list elements show_q (fun s => reflexivity _) (fun _ => false)
    {[("v" : gostring) := ("7" : gostring)]} demo_root demo.1 (default [] (match demo.2 with Ok i => Some i | Err _ => None end)) eq_refl _ _).
  - vm_compute. reflexivity.
  - intros (id & e & Hin). apply (demo_removals id e Hin).
Defined.

Lemma images_chained_witness : chained (trace demo.1) ∧ is_ok demo.2 = true.
Proof.
  split; [|vm_compute; reflexivity].
  refine (proj1 (images_chained demo_backend demo_options None map_to_list elements show_q _ _ _ _ _ _ demo_builds)). done.
Defined.

Definition demo_step : step := mkStep "run" ["make"] ∅ "RUN make" [].
Definition demo_state : Builder :=
  mkBuilder (with_env ["A=2"] no_config) ∅ "i0" false [] false false true {["v"]} {[("v" : gostring) := ("7" : gostring)]} [].
Lemma run_hides_build_args_witness :
  cmdBuildEnv map_to_list demo_state = ["v=7"] ∧ cEnv (runConfig (run demo_backend demo_options map_to_list demo_step demo_state).1) = ["A=2"].
Proof.
  split; [vm_compute; reflexivity|].
  refine (proj1 (run_hides_build_args demo_backend demo_options map_to_list _ demo_step demo_state
    (run demo_backend demo_options map_to_list demo_step demo_state).1 (run demo_backend demo_options map_to_list demo_step demo_state).2 _)).
  - intros h c host id [= <-]. done.
  - by destruct (run _ _ _ _ _).
Defined.

Lemma saveCmd_inj_witness : saveCmd ["v=7"] ["/bin/sh"; "-c"; "make"] = saveCmd ["v=7"] ["/bin/sh"; "-c"; "make"] ∧ ["v=7"] = (["v=7"] : list gostring).
Proof.
  split; [reflexivity|].
  exact (proj1 (saveCmd_inj ["v=7"] ["/bin/sh"; "-c"; "make"] ["v=7"] ["/bin/sh"; "-c"; "make"] ltac:(intros a r; discriminate) ltac:(intros a r; discriminate) eq_refl)).
Defined.

Lemma build_tags_witness : is_ok (sanitizeRepoAndTags (Tags demo_options)) = true ∧ isBuildArgAllowed demo.1 "v" = true.
Proof.
  split; [vm_compute; reflexivity|].
  refine (proj1 (build_tags demo_backend demo_options None map_to_list elements show_q (fun _ => false)
    {[("v" : gostring) := ("7" : gostring)]} demo_root demo.1 (match demo.2 with Ok i => i | Err _ => [] end) _ _) ("v" : gostring) _).
  - by intros m.
  - vm_compute. reflexivity.
  - exists "7". vm_compute. reflexivity.
Defined.
