(* ===== verification/BuildCache.v ===== *)
(** * BuildCache: which image a step of a build is taken from

    [Compare] of [src/runconfig/compare.go] and [GetCachedImage] of
    [src/daemon/daemon.go], which is how the daemon answers the probes of [Builder].
    The images are given by an interface: the lookup of an image, the children of one,
    and all of them. *)

From S2P Require Import Prelude Strconv Opts Ports RunConfig Builder.
Import Strings Strconv RunConfig Builder.Builder.

Local Open Scope Z_scope.

Module BuildCache.

(** The fields are compared one after the other; a label that [b] does not have reads
    as the empty string. *)
Definition Compare (a b : Config) : bool :=
  let x := base a in
  let y := base b in
  if OpenStdin x || OpenStdin y then false
  else if negb (Bool.eqb (AttachStdout x) (AttachStdout y)) || negb (Bool.eqb (AttachStderr x) (AttachStderr y)) || negb (User x =s User y) ||
          negb (Bool.eqb (OpenStdin x) (OpenStdin y)) || negb (Bool.eqb (Tty x) (Tty y)) then false
  else if negb (Nat.eqb (length (Cmd x)) (length (Cmd y))) || negb (Nat.eqb (length (Env x)) (length (Env y))) ||
          negb (Nat.eqb (size (Labels x)) (size (Labels y))) || negb (Nat.eqb (size (ExposedPorts x)) (size (ExposedPorts y))) ||
          negb (Nat.eqb (length (Entrypoint x)) (length (Entrypoint y))) || negb (Nat.eqb (size (Volumes x)) (size (Volumes y))) then false
  else
    forallb (fun '(s, t) => s =s t) (zip (Cmd x) (Cmd y)) && forallb (fun '(s, t) => s =s t) (zip (Env x) (Env y)) &&
    forallb (fun '(k, v) => v =s default [] (Labels y !! k)) (map_to_list (Labels x)) &&
    forallb (fun p => bool_decide (p ∈ ExposedPorts y)) (elements (ExposedPorts x)) &&
    forallb (fun '(s, t) => s =s t) (zip (Entrypoint x) (Entrypoint y)) &&
    forallb (fun v => bool_decide (v ∈ Volumes y)) (elements (Volumes x)).

(** What the search reads of an image; [Created] is a time. *)
Record CImage := mkCImage { ci_ID : gostring; ContainerConfig : Config; Created : Z; ci_Parent : gostring }.

(** The image store: [Get], [Children] and the values of [Map]. *)
Record Images := mkImages {
  im_Get : gostring → option CImage;
  im_Children : gostring → list gostring;
  im_Map : list (gostring * CImage)
}.

Section cache.
  Context (store : Images).

Fixpoint getMatch (config : Config) (siblings : list gostring) (found : option CImage) : result goerror (option CImage) :=
  match siblings with
  | [] => Ok found
  | id :: siblings =>
      match im_Get store id with
      | None => Err (Errorf "unable to find image %q" [id])
      | Some img =>
          if Compare (ContainerConfig img) config &&
             match found with None => true | Some m => Created m <? Created img end
          then getMatch config siblings (Some img)
          else getMatch config siblings found
      end
  end.

(** The images without a parent are the children of the empty ID. *)
Definition siblings_of (imgID : gostring) : list gostring :=
  match imgID with
  | [] => (filter (fun '(_, img) => ci_Parent img = []) (im_Map store)).*1
  | _ => im_Children store imgID
  end.

Definition GetCachedImage (imgID : gostring) (config : Config) : result goerror (option CImage) :=
  getMatch config (siblings_of imgID) None.

Definition GetCachedImageOnBuild (imgID : gostring) (config : Config) : result goerror gostring :=
  let! cache := GetCachedImage imgID config in
  Ok (match cache with Some img => ci_ID img | None => [] end).

End cache.
End BuildCache.

Import BuildCache.

(** ** Comparing configurations *)

(** The fields that two configurations with the same answer share. *)
Definition alike (a b : RunConfig.Config) : Prop :=
  OpenStdin a = false ∧ OpenStdin b = false ∧ AttachStdout a = AttachStdout b ∧ AttachStderr a = AttachStderr b ∧ User a = User b ∧
  Tty a = Tty b ∧ Cmd a = Cmd b ∧ Env a = Env b ∧ Entrypoint a = Entrypoint b ∧ ExposedPorts a = ExposedPorts b ∧ Volumes a = Volumes b.
(** Labels as they are compared. *)
Definition labels_match (a b : gmap gostring gostring) : Prop :=
  size a = size b ∧ ∀ k v, a !! k = Some v → default [] (b !! k) = v.

Lemma zip_eq (l k : list gostring) :
  negb (Nat.eqb (length l) (length k)) = false ∧ forallb (fun '(s, t) => s =s t) (zip l k) = true ↔ l = k.
Proof.
  rewrite negb_false_iff, Nat.eqb_eq. split; [|intros ->; split; [done|]].
  - revert k. induction l as [|x l IH]; intros [|y k] [Hl Hf]; try done. simpl in *. apply andb_prop in Hf as [->%bool_decide_eq_true Hf].
    f_equal. apply IH. auto.
  - induction k as [|x k IH]; [done|]. simpl. rewrite IH. unfold streqb. by rewrite bool_decide_eq_true_2.
Qed.

Lemma elements_eq (s t : gset gostring) :
  negb (Nat.eqb (size s) (size t)) = false ∧ forallb (fun p => bool_decide (p ∈ t)) (elements s) = true ↔ s = t.
Proof.
  rewrite negb_false_iff, Nat.eqb_eq, forallb_forall. setoid_rewrite <-list_elem_of_In. split.
  - intros [Hs Hf]. apply set_subseteq_size_eq; [|lia]. intros x Hx. apply (bool_decide_eq_true_1 (x ∈ t)), Hf. by apply elem_of_elements.
  - intros ->. split; [done|]. intros x Hx%elem_of_elements. by apply bool_decide_eq_true_2.
Qed.

(** Two configurations compare as equal exactly when neither keeps its input open,
    they agree on the streams, the user, the terminal, the command, the environment,
    the entry point, the ports and the volumes, they have the same number of labels,
    and each label of the first reads the same in the second. *)
Theorem Compare_spec a b :
  Compare a b = true ↔ alike (base a) (base b) ∧ labels_match (Labels (base a)) (Labels (base b)).
Proof.
  destruct a as [x oa ea], b as [y ob eb]. unfold Compare, alike, labels_match. cbn [base].
  rewrite <-(zip_eq (Cmd x)), <-(zip_eq (Env x)), <-(zip_eq (Entrypoint x)), <-(elements_eq (ExposedPorts x)), <-(elements_eq (Volumes x)).
  assert ((size (Labels x) = size (Labels y) ∧ (∀ k v, Labels x !! k = Some v → default [] (Labels y !! k) = v)) ↔
    negb (Nat.eqb (size (Labels x)) (size (Labels y))) = false ∧
    forallb (fun '(k, v) => v =s default [] (Labels y !! k)) (map_to_list (Labels x)) = true) as ->.
  { rewrite negb_false_iff, Nat.eqb_eq, forallb_forall. setoid_rewrite <-list_elem_of_In. apply and_iff_compat_l. split.
    - intros H [k v] Hkv%elem_of_map_to_list. apply bool_decide_eq_true_2. symmetry. by apply H.
    - intros H k v Hkv%elem_of_map_to_list. specialize (H _ Hkv). simpl in H. by apply bool_decide_eq_true in H. }
  assert (∀ c e : bool, (if c then false else e) = true ↔ c = false ∧ e = true) as Hif by (intros [] []; naive_solver).
  assert ((User x =s User y) = true ↔ User x = User y) as HU by (unfold streqb; by rewrite bool_decide_eq_true).
  rewrite !Hif, !orb_false_iff, !negb_false_iff, !andb_true_iff, !eqb_true_iff, HU. intuition congruence.
Qed.

(** Labels without an empty value compare as equal only when they are. *)
Lemma labels_match_eq a b : labels_match a b → (∀ k, a !! k ≠ Some []) → a = b.
Proof.
  intros [Hs Hm] Hne. apply map_subseteq_size_eq; [|lia]. apply map_subseteq_spec. intros k v Hk. specialize (Hm k v Hk).
  destruct (b !! k); simpl in Hm; [congruence|]. subst v. by destruct (Hne k).
Qed.

(** The comparison is not symmetric: an empty label of the first configuration
    hides that the second has another label. *)
Theorem Compare_asymmetric :
  let a := with_labels {[("x" : gostring) := ([] : gostring)]} no_config in
  let b := with_labels {[("y" : gostring) := ("z" : gostring)]} no_config in
  Compare a b = true ∧ Compare b a = false.
Proof. split; vm_compute; reflexivity. Qed.

(** ** The search *)

(** [img] is the newest of the siblings that compare as equal. *)
Definition newest_match (store : Images) (config : Config) (siblings : list gostring) (img : CImage) : Prop :=
  (∃ id, id ∈ siblings ∧ im_Get store id = Some img) ∧ Compare (ContainerConfig img) config = true ∧
  ∀ id img', id ∈ siblings → im_Get store id = Some img' → Compare (ContainerConfig img') config = true → Created img' ≤ Created img.

Lemma getMatch_spec store config siblings found :
  match getMatch store config siblings found with
  | Err _ => ∃ id, id ∈ siblings ∧ im_Get store id = None
  | Ok r =>
      (∀ id, id ∈ siblings → is_Some (im_Get store id)) ∧
      (∀ id img', id ∈ siblings → im_Get store id = Some img' → Compare (ContainerConfig img') config = true →
         ∃ img, r = Some img ∧ Created img' ≤ Created img) ∧
      (∀ img0, found = Some img0 → ∃ img, r = Some img ∧ Created img0 ≤ Created img) ∧
      (∀ img, r = Some img → found = Some img ∨
         Compare (ContainerConfig img) config = true ∧ ∃ id, id ∈ siblings ∧ im_Get store id = Some img)
  end.
Proof.
  revert found. induction siblings as [|id l IH]; intros found; cbn [getMatch].
  { split_and!; [by intros ? ?%elem_of_nil|by intros ? ? ?%elem_of_nil|intros img ->; eauto with lia|by left]. }
  destruct (im_Get store id) as [img|] eqn:Eg; [|exists id; split; [by left|done]].
  set (better := match found with None => true | Some m => Created m <? Created img end).
  specialize (IH (if Compare (ContainerConfig img) config && better then Some img else found)).
  replace (if _ && better then getMatch _ _ _ _ else _) with (getMatch store config l (if Compare (ContainerConfig img) config && better then Some img else found))
    by (by destruct (_ && _)).
  destruct (getMatch _ _ _ _) as [r|e]; [|destruct IH as (x & ? & ?); exists x; split; [by right|done]].
  destruct IH as (H1 & H2 & H3 & H4).
  assert (∀ img0, found = Some img0 → ∃ img', r = Some img' ∧ Created img0 ≤ Created img') as H3'.
  { intros img0 ->. destruct (Compare _ _ && better) eqn:Eb; [|by apply H3]. apply andb_prop in Eb as [_ Eb%Z.ltb_lt].
    destruct (H3 img eq_refl) as (i & -> & ?). exists i. split; [done|lia]. }
  split_and!; [intros x [->|Hx]%elem_of_cons; eauto| |exact H3'|].
  - intros x img' [->|Hx]%elem_of_cons Hg Hc; [|eauto]. rewrite Eg in Hg. injection Hg as <-. rewrite Hc in H3, H4. simpl in H3, H4.
    destruct better eqn:Eb; [by apply H3|]. destruct found as [m|]; [|done]. apply Z.ltb_ge in Eb.
    destruct (H3' m eq_refl) as (i & -> & ?). exists i. split; [done|lia].
  - intros i ->. destruct (H4 i eq_refl) as [Hf|(Hc & x & Hx & Hg)]; [|right; split; [done|]; exists x; split; [by right|done]].
    destruct (Compare _ _ && better) eqn:Eb; [|by left]. injection Hf as <-. right. apply andb_prop in Eb as [-> _].
    split; [done|]. exists id. split; [by left|done].
Qed.

(** The image that a step is taken from is a child of the current image (or one
    without a parent, at the start of a build from scratch) whose configuration
    compares as equal, and the newest of them; there is none only when no child
    compares as equal, and the search fails only on a child that cannot be read. *)
Theorem GetCachedImage_spec store imgID config :
  match GetCachedImage store imgID config with
  | Ok (Some img) => newest_match store config (siblings_of store imgID) img
  | Ok None => ∀ id img, id ∈ siblings_of store imgID → im_Get store id = Some img → Compare (ContainerConfig img) config = false
  | Err _ => ∃ id, id ∈ siblings_of store imgID ∧ im_Get store id = None
  end.
Proof.
  unfold GetCachedImage. pose proof (getMatch_spec store config (siblings_of store imgID) None) as H.
  destruct (getMatch _ _ _ _) as [[img|]|e]; [|destruct H as (_ & H2 & _)|done].
  - destruct H as (_ & H2 & _ & H4). destruct (H4 img eq_refl) as [|[Hc Hin]]; [done|]. split_and!; [done|done|].
    intros id img' Hi Hg Hc'. destruct (H2 id img' Hi Hg Hc') as (i & [= <-] & Hle). exact Hle.
  - intros id img Hi Hg. destruct (Compare _ _) eqn:Ec; [|done]. by destruct (H2 id img Hi Hg Ec) as (i & ? & _).
Qed.
