(* ===== verification/IdTools.v ===== *)
(** * IdTools: translation of user and group IDs

    [src/pkg/idtools/idtools.go]: the ranges of subordinate IDs of a user, the mapping
    that is made of them, and the translation of IDs between host and container.  The
    file of ranges is given by its lines.  IDs are 64-bit integers. *)

From S2P Require Import Prelude Strconv.
Import Strings Strconv.

Local Open Scope Z_scope.

Module IdTools.

Record IDMap := mkIDMap { ContainerID : Z; HostID : Z; Size : Z }.
Record subIDRange := mkRange { Start : Z; Length : Z }.

(** The test of one range. *)
Definition within (id first size : Z) : bool := (first <=? id) && (id <=? to_int64 (first + size - 1)).

(** A map that is [nil] is [None]. *)
Fixpoint to_container (hostID : Z) (l : list IDMap) : option Z :=
  match l with
  | [] => None
  | m :: l => if within hostID (HostID m) (Size m) then Some (to_int64 (ContainerID m + (hostID - HostID m))) else to_container hostID l
  end.
Definition ToContainer (hostID : Z) (idMap : option (list IDMap)) : option Z :=
  match idMap with None => Some hostID | Some l => to_container hostID l end.
Fixpoint to_host (contID : Z) (l : list IDMap) : option Z :=
  match l with
  | [] => None
  | m :: l => if within contID (ContainerID m) (Size m) then Some (to_int64 (HostID m + (contID - ContainerID m))) else to_host contID l
  end.
Definition ToHost (contID : Z) (idMap : option (list IDMap)) : option Z :=
  match idMap with None => Some contID | Some l => to_host contID l end.

Definition GetRootUIDGID (uidMap gidMap : option (list IDMap)) : option (Z * Z) :=
  uid ← match uidMap with None => Some 0 | Some _ => ToHost 0 uidMap end;
  gid ← match gidMap with None => Some 0 | Some _ => ToHost 0 gidMap end;
  Some (uid, gid).

(** [createIDMap]: the ranges in the order of their starts, at consecutive container IDs. *)
Definition range_le (a b : subIDRange) : Prop := Start a ≤ Start b.
#[global] Instance range_le_dec : RelDecision range_le.
Proof. intros a b. unfold range_le. apply _. Defined.
Fixpoint idmap_loop (containerID : Z) (l : list subIDRange) : list IDMap :=
  match l with
  | [] => []
  | r :: l => mkIDMap containerID (Start r) (Length r) :: idmap_loop (to_int64 (containerID + Length r)) l
  end.
Definition createIDMap (l : list subIDRange) : list IDMap := idmap_loop 0 (merge_sort range_le l).

Inductive idError := BadFormat | BadNumber (e : NumError) | NoRanges (name : gostring).

(** [parseSubidFile] on the lines of the file. *)
Fixpoint parseSubidFile (lines : list gostring) (username : gostring) : result idError (list subIDRange) :=
  match lines with
  | [] => Ok []
  | line :: lines =>
      let text := TrimSpace line in
      if text =s [] then parseSubidFile lines username
      else
        match Split text ":" with
        | [name; start; len] =>
            if name =s username then
              match Atoi start with
              | (_, Some e) => Err (BadNumber e)
              | (startid, None) =>
                  match Atoi len with
                  | (_, Some e) => Err (BadNumber e)
                  | (length, None) =>
                      match parseSubidFile lines username with
                      | Ok rs => Ok (mkRange startid length :: rs)
                      | Err e => Err e
                      end
                  end
              end
            else parseSubidFile lines username
        | _ => Err BadFormat
        end
  end.
Definition CreateIDMappings (subuid subgid : list gostring) (username groupname : gostring) : result idError (list IDMap * list IDMap) :=
  match parseSubidFile subuid username with
  | Err e => Err e
  | Ok us =>
      match parseSubidFile subgid groupname with
      | Err e => Err e
      | Ok gs =>
          if bool_decide (us = []) then Err (NoRanges username)
          else if bool_decide (gs = []) then Err (NoRanges groupname)
          else Ok (createIDMap us, createIDMap gs)
      end
  end.

End IdTools.

(** ** Translations are inverse to each other *)

Section inverse.
  Import IdTools.
  Implicit Types (l : list subIDRange) (r : subIDRange).

(** Ranges of IDs that are not negative and fit. *)
Definition total l : Z := foldr (fun r n => Length r + n) 0 l.
Definition range_ok r : Prop := 0 ≤ Start r ∧ 0 ≤ Length r ∧ Start r + Length r < 2 ^ 63.
Definition covers (h : Z) r : Prop := Start r ≤ h < Start r + Length r.
#[local] Instance covers_dec h r : Decision (covers h r).
Proof. unfold covers. apply _. Defined.
(** No ID is in two ranges. *)
Definition disjoint_ranges l : Prop := ∀ h, (length (filter (covers h) l) ≤ 1)%nat.

Lemma to_int64_small n : 0 ≤ n < 2 ^ 63 → to_int64 n = n.
Proof. intros H. unfold to_int64. rewrite Z.mod_small by lia. lia. Qed.
Lemma within_iff id first size : 0 ≤ first → 0 ≤ size → first + size < 2 ^ 63 → within id first size = true ↔ first ≤ id < first + size.
Proof.
  intros H1 H2 H3. unfold within. rewrite andb_true_iff, !Z.leb_le. destruct (decide (first + size - 1 < 0)) as [Hn|].
  - assert (first = 0 ∧ size = 0) as [-> ->] by lia. change (to_int64 (0 + 0 - 1)) with (-1). lia.
  - rewrite to_int64_small by lia. lia.
Qed.
Lemma total_nonneg l : Forall range_ok l → 0 ≤ total l.
Proof. induction 1 as [|r l [H1 [H2 H3]] Hl IH]; simpl; lia. Qed.
Lemma total_perm l l' : l ≡ₚ l' → total l = total l'.
Proof. induction 1; simpl; lia. Qed.

(** One range of the map: the head is taken, or the rest. *)
Lemma loop_container c r l h x :
  0 ≤ c → range_ok r → 0 ≤ total l → c + (Length r + total l) < 2 ^ 63 →
  to_container h (idmap_loop c (r :: l)) = Some x ↔
    covers h r ∧ x = c + (h - Start r) ∨ ¬ covers h r ∧ to_container h (idmap_loop (c + Length r) l) = Some x.
Proof.
  intros Hc (H1&H2&H3) Ht Hs. cbn [idmap_loop to_container HostID Size ContainerID]. rewrite (to_int64_small (c + Length r)) by lia.
  destruct (within h (Start r) (Length r)) eqn:E.
  - apply within_iff in E; [|lia..]. rewrite to_int64_small by lia. unfold covers. split; [intros [= <-]; left; lia|]. intros [[_ ->]|[? _]]; [done|lia].
  - unfold covers. rewrite <-(within_iff h) by lia. rewrite E. naive_solver.
Qed.
Lemma loop_host c r l h x :
  0 ≤ c → range_ok r → 0 ≤ total l → c + (Length r + total l) < 2 ^ 63 →
  to_host x (idmap_loop c (r :: l)) = Some h ↔
    c ≤ x < c + Length r ∧ h = Start r + (x - c) ∨ ¬ c ≤ x < c + Length r ∧ to_host x (idmap_loop (c + Length r) l) = Some h.
Proof.
  intros Hc (H1&H2&H3) Ht Hs. cbn [idmap_loop to_host HostID Size ContainerID]. rewrite (to_int64_small (c + Length r)) by lia.
  destruct (within x c (Length r)) eqn:E.
  - apply within_iff in E; [|lia..]. rewrite to_int64_small by lia. split; [intros [= <-]; left; lia|]. intros [[_ ->]|[? _]]; [done|lia].
  - rewrite <-(within_iff x) by lia. rewrite E. naive_solver.
Qed.

Lemma loop_container_range c l h x :
  0 ≤ c → Forall range_ok l → c + total l < 2 ^ 63 → to_container h (idmap_loop c l) = Some x → c ≤ x < c + total l.
Proof.
  intros Hc Hl. revert c Hc. induction Hl as [|r l Hr Hl IH]; intros c Hc Hs; [done|]. pose proof (total_nonneg _ Hl). cbn [total foldr] in *.
  fold (total l) in *. pose proof Hr as (?&?&?). rewrite loop_container by done. unfold covers. intros [[? ->]|[_ Hx]]; [lia|]. apply IH in Hx; lia.
Qed.
Lemma loop_host_covered c l h x :
  0 ≤ c → Forall range_ok l → c + total l < 2 ^ 63 → to_host x (idmap_loop c l) = Some h → c ≤ x ∧ Exists (covers h) l.
Proof.
  intros Hc Hl. revert c Hc. induction Hl as [|r l Hr Hl IH]; intros c Hc Hs; [done|]. pose proof (total_nonneg _ Hl). cbn [total foldr] in *.
  fold (total l) in *. pose proof Hr as (?&?&?). rewrite loop_host by done. intros [[? ->]|[_ Hx]].
  - split; [lia|]. left. unfold covers. lia.
  - apply IH in Hx; [|lia..]. destruct Hx as [? Hx]. split; [lia|]. by apply Exists_cons_tl.
Qed.

Lemma loop_inverse c l h x :
  0 ≤ c → Forall range_ok l → c + total l < 2 ^ 63 → disjoint_ranges l →
  to_container h (idmap_loop c l) = Some x ↔ to_host x (idmap_loop c l) = Some h.
Proof.
  intros Hc Hl. revert c Hc. induction Hl as [|r l Hr Hl IH]; intros c Hc Hs Hd; [done|]. pose proof (total_nonneg _ Hl). cbn [total foldr] in *.
  fold (total l) in *. pose proof Hr as (?&?&?). rewrite loop_container, loop_host by done.
  assert (Hd' : disjoint_ranges l). { intros h'. specialize (Hd h'). rewrite filter_cons in Hd. case_decide; simpl in Hd; lia. }
  assert (Hone : covers h r → ¬ Exists (covers h) l).
  { intros Hh He. specialize (Hd h). rewrite filter_cons_True in Hd by done. simpl in Hd. apply Exists_exists in He as (r'&Hin&Hr').
    assert (Hf : r' ∈ filter (covers h) l) by (by apply list_elem_of_filter). destruct (filter _ l); [by apply not_elem_of_nil in Hf|simpl in Hd; lia]. }
  assert (Hx : to_container h (idmap_loop (c + Length r) l) = Some x ↔ to_host x (idmap_loop (c + Length r) l) = Some h) by (apply IH; [lia|lia|done]).
  split.
  - intros [[Hcov ->]|[Hn Hx']]; [unfold covers in Hcov; left; lia|]. right. split; [|by apply Hx]. apply loop_container_range in Hx'; [lia|lia|done|lia].
  - intros [[Hin ->]|[Hn Hx']]; [left; unfold covers; lia|]. right. split; [|by apply Hx].
    intros Hcov. apply loop_host_covered in Hx' as [_ He]; [|lia|done|lia]. by apply Hone.
Qed.

(** The translations of IDs to the host and to the container are inverse to each
    other for a map made of disjoint ranges. *)
Theorem ids_inverse l h x :
  Forall range_ok l → total l < 2 ^ 63 → disjoint_ranges l →
  ToContainer h (Some (createIDMap l)) = Some x ↔ ToHost x (Some (createIDMap l)) = Some h.
Proof.
  intros Hl Ht Hd. pose proof (merge_sort_Permutation range_le l) as Hp. apply loop_inverse; [done|by rewrite Hp|by rewrite (total_perm _ _ Hp)|].
  intros h'. rewrite Hp. apply Hd.
Qed.
End inverse.

Lemma ids_inverse_witness : IdTools.ToContainer 200005 (Some (IdTools.createIDMap [IdTools.mkRange 200000 10; IdTools.mkRange 100000 10])) = Some 15.
Proof.
  refine (proj2 (ids_inverse [IdTools.mkRange 200000 10; IdTools.mkRange 100000 10] 200005 15 _ _ _) _); [|reflexivity| |vm_compute; reflexivity].
  - repeat constructor; simpl; try lia.
  - intros h. rewrite !filter_cons. unfold covers. simpl. repeat case_decide; simpl; lia.
Defined.

(** Every range of the user is taken, not the first one only. *)
Example parse_takes_all_ranges :
  IdTools.parseSubidFile ["u:1000:10"; "u:5000:20"] "u" = Ok [IdTools.mkRange 1000 10; IdTools.mkRange 5000 20].
Proof. vm_compute. reflexivity. Qed.
