(* ===== verification/LayerDiff.v ===== *)
(** * LayerDiff: the differences between layers, and how they are applied

    What [NaiveDiffDriver] of [src/daemon/graphdriver/fsdiff.go] does with two
    directories: the list of changes between them ([src/pkg/archive/changes.go],
    [changes_linux.go], [changes_unix.go]), the entries of the archive that is made of
    the changes (the same and [archive.go]), and the extraction of an archive over a
    directory ([diff.go], [archive.go]).

    A file system is a map from paths, which are lists of names, to what [lstat] says of
    a file with its contents.  An archive is the list of its headers with contents: the
    format of tar is not modelled.  Reading and writing do not fail, except for what the
    state of the file system forbids.  A file has one name: hard links, and with them
    the metadata of AUFS for them, are left out, and so are the times of directories
    that change with their contents.  An operation on a path that leads through a
    symbolic link is not modelled: it ends in [UFollow]. *)

From S2P Require Import Prelude Strconv GoPath IdTools.
Import Strings GoPath IdTools.

Local Open Scope Z_scope.

Module LayerDiff.

(** ** Files *)

Abbreviation path := (list gostring).

Record entry := mkEntry {
  st_mode : Z; st_uid : Z; st_gid : Z; st_rdev : Z; st_sec : Z; st_nsec : Z; st_size : Z; st_dev : Z; st_ino : Z;
  contents : gostring; (* of a file, or the target of a symbolic link *)
  capability : gostring
}.
#[global] Instance entry_eq_dec : EqDecision entry.
Proof. solve_decision. Defined.
Abbreviation tree := (gmap path entry).

Definition S_IFMT : Z := 61440.
Definition S_IFIFO : Z := 4096.
Definition S_IFCHR : Z := 8192.
Definition S_IFDIR : Z := 16384.
Definition S_IFBLK : Z := 24576.
Definition S_IFREG : Z := 32768.
Definition S_IFLNK : Z := 40960.
Definition ftype (e : entry) : Z := Z.land (st_mode e) S_IFMT.
Definition IsDir (e : entry) : bool := ftype e =? S_IFDIR.
Definition IsLink (e : entry) : bool := ftype e =? S_IFLNK.

(** The names in a directory. *)
Definition child_of (p q : path) : option gostring :=
  match drop (length p) q with
  | [n] => if bool_decide (take (length p) q = p) then Some n else None
  | _ => None
  end.
Definition children (m : tree) (p : path) : list gostring := omap (fun qe => child_of p qe.1) (map_to_list m).

(** ** The differences of two directories *)

Definition sameFsTimeSpec (a b : entry) : bool :=
  (st_sec a =? st_sec b) && ((st_nsec a =? st_nsec b) || (st_nsec a =? 0) || (st_nsec b =? 0)).
Definition statDifferent (oldStat newStat : entry) : bool :=
  negb (st_mode oldStat =? st_mode newStat) || negb (st_uid oldStat =? st_uid newStat) || negb (st_gid oldStat =? st_gid newStat) ||
  negb (st_rdev oldStat =? st_rdev newStat) ||
  (negb (Z.land (st_mode oldStat) S_IFDIR =? S_IFDIR) && (negb (sameFsTimeSpec oldStat newStat) || negb (st_size oldStat =? st_size newStat))).

(** [readdirnames]: names with inodes, in the order of names. *)
Definition name_le (a b : gostring * Z) : Prop := leb a.1 b.1 = true.
#[global] Instance name_le_dec : RelDecision name_le.
Proof. intros a b. unfold name_le. apply _. Defined.
Definition readdirnames (m : tree) (p : path) : list (gostring * Z) :=
  merge_sort name_le (omap (fun n => e ← m !! (p ++ [n]); Some (n, st_ino e)) (children m p)).

(** The merge of two sorted lists of names, without those that are the same file. *)
Fixpoint merge_names (sameDevice : bool) (l1 : list (gostring * Z)) : list (gostring * Z) → list gostring :=
  fix go l2 :=
    match l1, l2 with
    | [], _ => l2.*1
    | _, [] => l1.*1
    | (n1, ino1) :: r1, (n2, ino2) :: r2 =>
        if n1 =s n2 then (if (ino1 =? ino2) && sameDevice then [] else [n1]) ++ merge_names sameDevice r1 r2
        else if leb n1 n2 then n1 :: merge_names sameDevice r1 l2
        else n2 :: go r2
    end.

(** [walk]: what is registered with the two trees, in order. *)
Fixpoint walk (fuel : nat) (d1 d2 : tree) (p : path) (i1 i2 : option entry) : list (path * (option entry * option entry)) :=
  let here := if bool_decide (p = []) then [] else [(p, (i1, i2))] in
  match fuel with
  | O => here
  | S fuel =>
      let is1Dir := default false (IsDir <$> i1) in
      let is2Dir := default false (IsDir <$> i2) in
      if negb is1Dir && negb is2Dir then here
      else
        let sameDevice := match i1, i2 with Some e1, Some e2 => st_dev e1 =? st_dev e2 | _, _ => false end in
        let names1 := if is1Dir then readdirnames d1 p else [] in
        let names2 := if is2Dir then readdirnames d2 p else [] in
        here ++ concat ((fun n =>
          walk fuel d1 d2 (p ++ [n]) (if is1Dir then d1 !! (p ++ [n]) else None) (if is2Dir then d2 !! (p ++ [n]) else None))
          <$> merge_names sameDevice names1 names2)
  end.
(** The depth of a tree. *)
Definition depth (m : tree) : nat := foldr (fun qe n => Nat.max (length qe.1) n) 0%nat (map_to_list m).
Definition collectFileInfoForChanges (d1 d2 : tree) : tree * tree :=
  let l := walk (S (depth d1 + depth d2)) d1 d2 [] (d1 !! []) (d2 !! []) in
  (list_to_map (omap (fun x => e ← x.2.1; Some (x.1, e)) l), list_to_map (omap (fun x => e ← x.2.2; Some (x.1, e)) l)).

Inductive ChangeType := ChangeModify | ChangeAdd | ChangeDelete.
#[global] Instance ChangeType_eq_dec : EqDecision ChangeType.
Proof. solve_decision. Defined.
Record Change := mkChange { Path : gostring; Kind : ChangeType }.

(** [FileInfo.path]. *)
Definition path_string (p : path) : gostring := ch "/" :: Join p "/".

(** [FileInfo.isDir]; the root has no parent. *)
Definition isDir (m : tree) (p : path) : bool :=
  bool_decide (p = []) || match m !! p with Some e => negb (Z.land (st_mode e) S_IFDIR =? 0) | None => false end.

(** Go's iteration over a map. *)
Section changes.
  Context (range : list gostring → list gostring).

(** [addChanges] of the file at [p]; [added] is the flag of the file. *)
Fixpoint addChanges (fuel : nat) (old new : tree) (p : path) (hasOld added : bool) : list Change :=
  match fuel with
  | O => []
  | S fuel =>
      let add := if hasOld then [] else [mkChange (path_string p) ChangeAdd] in
      let oldChildren := if hasOld && isDir new p then children old p else [] in
      let newChildren := range (children new p) in
      let below := concat ((fun n =>
        let q := p ++ [n] in
        if bool_decide (n ∈ oldChildren) then
          let changed := match old !! q, new !! q with
            | Some oldChild, Some newChild => statDifferent oldChild newChild || negb (capability oldChild =s capability newChild)
            | _, _ => false
            end in
          (if changed then [mkChange (path_string q) ChangeModify] else []) ++ addChanges fuel old new q true changed
        else addChanges fuel old new q false false) <$> newChildren) in
      let deleted := (fun n => mkChange (path_string (p ++ [n])) ChangeDelete) <$> range (filter (fun n => n ∉ newChildren) oldChildren) in
      let changes := add ++ below ++ deleted in
      if bool_decide (changes ≠ []) && isDir new p && negb (added || negb hasOld) && bool_decide (p ≠ [])
      then mkChange (path_string p) ChangeModify :: changes
      else changes
  end.

Definition ChangesDirs (newDir oldDir : tree) : list Change :=
  let '(oldRoot, newRoot) := collectFileInfoForChanges oldDir newDir in
  addChanges (S (depth newRoot)) oldRoot newRoot [] true false.
End changes.

(** ** Archives *)

Inductive Typeflag := TypeReg | TypeLink | TypeSymlink | TypeChar | TypeBlock | TypeDir | TypeFifo | TypeXGlobalHeader | TypeOther.
#[global] Instance Typeflag_eq_dec : EqDecision Typeflag.
Proof. solve_decision. Defined.

(** A header with the contents that follow it. *)
Record Header := mkHeader {
  Name : gostring; Flag : Typeflag; Linkname : gostring; Mode : Z; Uid : Z; Gid : Z; ModTime : Z; Devmajor : Z; Devminor : Z;
  Body : gostring; Xattr : gostring
}.
Definition WhiteoutPrefix : gostring := ".wh.".
Definition WhiteoutMetaPrefix : gostring := WhiteoutPrefix ++ WhiteoutPrefix.
Definition WhiteoutOpaqueDir : gostring := WhiteoutMetaPrefix ++ ".opq".

Definition change_le (a b : Change) : Prop := leb (Path a) (Path b) = true.
#[global] Instance change_le_dec : RelDecision change_le.
Proof. intros a b. unfold change_le. apply _. Defined.

Definition major (device : Z) : Z := Z.land (Z.shiftr device 8) 4095.
Definition minor (device : Z) : Z := Z.lor (Z.land device 255) (Z.land (Z.shiftr device 12) 1048320).
Definition Mkdev (ma mi : Z) : Z :=
  Z.lor (Z.lor (Z.shiftl (Z.land mi 1048320) 12) (Z.shiftl (Z.land ma 4095) 8)) (Z.land mi 255) mod 2 ^ 32.

(** The type of a file; a socket has no header. *)
Definition file_flag (e : entry) : option Typeflag :=
  let t := ftype e in
  if t =? S_IFREG then Some TypeReg else if t =? S_IFDIR then Some TypeDir else if t =? S_IFLNK then Some TypeSymlink
  else if t =? S_IFCHR then Some TypeChar else if t =? S_IFBLK then Some TypeBlock else if t =? S_IFIFO then Some TypeFifo
  else None.

(** [addTarFile]; a file that cannot be added is left out. *)
Definition addTarFile (uidMaps gidMaps : option (list IDMap)) (m : tree) (p : path) (name : gostring) : option Header :=
  e ← m !! p;
  flag ← file_flag e;
  let name := if IsDir e && negb (HasSuffix name "/") then name ++ "/" else name in
  let special := negb (Z.land (st_mode e) S_IFBLK =? 0) || negb (Z.land (st_mode e) S_IFCHR =? 0) in
  ids ← (if negb (HasPrefix (Base name) WhiteoutPrefix) && (bool_decide (is_Some uidMaps) || bool_decide (is_Some gidMaps)) then
           xUID ← ToContainer (st_uid e) uidMaps; xGID ← ToContainer (st_gid e) gidMaps; Some (xUID, xGID)
         else Some (st_uid e, st_gid e));
  Some (mkHeader name flag (if IsLink e then contents e else []) (Z.land (st_mode e) 4095) ids.1 ids.2 (st_sec e)
    (if special then major (st_rdev e) else 0) (if special then minor (st_rdev e) else 0)
    (if bool_decide (flag = TypeReg) then contents e else []) (capability e)).

(** The names in a path that was written by [path_string]. *)
Definition path_of (s : gostring) : path := if s =s "/" then [] else Split (drop 1 s) "/".

Definition export_one (uidMaps gidMaps : option (list IDMap)) (dir : tree) (c : Change) : option Header :=
  match Kind c with
  | ChangeDelete =>
      let whiteOut := PathJoin [Dir (Path c); WhiteoutPrefix ++ Base (Path c)] in
      Some (mkHeader (drop 1 whiteOut) TypeReg [] 0 0 0 0 0 0 [] [])
  | _ => addTarFile uidMaps gidMaps dir (path_of (Path c)) (drop 1 (Path c))
  end.
Definition ExportChanges (dir : tree) (changes : list Change) (uidMaps gidMaps : option (list IDMap)) : list Header :=
  omap (export_one uidMaps gidMaps dir) (merge_sort change_le changes).

(** ** Extraction *)

(** [UBreakout] is an error of the source.  [UOutside] stands for a file outside of the
    destination that the source goes on to look at, to make or to remove. *)
Inductive unpackError :=
| UBreakout (name : gostring) | UOutside (name : gostring) | UFollow (p : path) | UNotDir (p : path) | UNoEnt (p : path)
| UIDMap | UHardlink | UHeaderType.

(** [filepath.Rel] of two absolute paths. *)
Fixpoint strip_common (b t : list gostring) : list gostring * list gostring :=
  match b, t with
  | x :: b', y :: t' => if x =s y then strip_common b' t' else (b, t)
  | _, _ => (b, t)
  end.
Definition elems (p : gostring) : list gostring := clean_elems true (Split p "/").
Definition Rel (base target : gostring) : list gostring :=
  let '(b, t) := strip_common (elems base) (elems target) in ((fun _ => "..") <$> b) ++ t.

(** A relative path that leaves its base. *)
Definition leaves (rel : list gostring) : bool := match rel with e :: _ => e =s ".." | [] => false end.

(** What the kernel finds on the way to a path. *)
Inductive found := Found (e : entry) | NoEnt | NotDir | Follow.
Fixpoint resolve (m : tree) (before : path) (rest : path) : found :=
  match m !! before with
  | None => NoEnt
  | Some e =>
      match rest with
      | [] => Found e
      | n :: rest => if IsDir e then resolve m (before ++ [n]) rest else if IsLink e then Follow else NotDir
      end
  end.
Definition Lstat (m : tree) (p : path) : found := resolve m [] p.

Definition is_prefix (p q : path) : bool := bool_decide (take (length p) q = p).
Definition RemoveAll (m : tree) (p : path) : result unpackError tree :=
  match Lstat m p with
  | Found _ => Ok (filter (fun qe => is_prefix p qe.1 = false) m)
  | NoEnt | NotDir => Ok m
  | Follow => Err (UFollow p)
  end.
Definition new_dir (mode : Z) : entry := mkEntry (Z.lor S_IFDIR mode) 0 0 0 0 0 0 0 0 [] [].
Fixpoint MkdirAll (m : tree) (before : path) (rest : path) (mode : Z) : result unpackError tree :=
  match m !! before with
  | Some e =>
      if IsDir e then match rest with [] => Ok m | n :: rest => MkdirAll m (before ++ [n]) rest mode end
      else if IsLink e then Err (UFollow before) else Err (UNotDir before)
  | None =>
      let m := <[before := new_dir mode]> m in
      match rest with [] => Ok m | n :: rest => MkdirAll m (before ++ [n]) rest mode end
  end.

(** The file that a header makes, but for a hard link. *)
Definition header_entry (h : Header) : option entry :=
  let perm := Z.land (Mode h) 4095 in
  let make t p rdev size body := Some (mkEntry (Z.lor t p) (Uid h) (Gid h) rdev (ModTime h) 0 size 0 0 body (Xattr h)) in
  match Flag h with
  | TypeReg => make S_IFREG perm 0 (Z.of_nat (length (Body h))) (Body h)
  | TypeDir => make S_IFDIR perm 0 0 []
  | TypeSymlink => make S_IFLNK 511 0 (Z.of_nat (length (Linkname h))) (Linkname h)
  | TypeChar => make S_IFCHR perm (Mkdev (Devmajor h) (Devminor h)) 0 []
  | TypeBlock => make S_IFBLK perm (Mkdev (Devmajor h) (Devminor h)) 0 []
  | TypeFifo => make S_IFIFO perm 0 0 []
  | _ => None
  end.
(** [createTarFile] at [p], whose full path is [full]; a directory that exists keeps its
    inode, and its capability if the header has none. *)
Definition createTarFile (full extractDir : gostring) (p : path) (h : Header) (m : tree) : result unpackError tree :=
  match Flag h with
  | TypeLink => Err UHardlink
  | TypeXGlobalHeader => Ok m
  | TypeOther => Err UHeaderType
  | _ =>
      if bool_decide (Flag h = TypeSymlink) && negb (HasPrefix (PathJoin [Dir full; Linkname h]) extractDir) then Err (UBreakout (Linkname h))
      else
        match header_entry h, Lstat m p with
        | Some e, Found e' =>
            if bool_decide (Flag h = TypeDir) && IsDir e' then
              Ok (<[p := mkEntry (st_mode e) (st_uid e) (st_gid e) (st_rdev e') (st_sec e) 0 (st_size e') (st_dev e') (st_ino e') []
                    (if capability e =s [] then capability e' else capability e)]> m)
            else Err (UNotDir p)
        | Some e, NoEnt =>
            match p with
            | [] => Err (UNoEnt p)
            | _ => match Lstat m (removelast p) with Found _ => Ok (<[p := e]> m) | _ => Err (UNoEnt p) end
            end
        | _, NotDir => Err (UNotDir p)
        | _, Follow => Err (UFollow p)
        | None, _ => Err UHeaderType
        end
  end.

(** The loop of [UnpackLayer]: the file system, the paths that were unpacked, and the
    directories whose times are to be set. *)
Record unpack := mkUnpack { ufs : tree; unpackedPaths : gset path; udirs : list path }.

Section unpack.
  Context (dest : gostring) (uidMaps gidMaps : option (list IDMap)) (rootUID rootGID : Z).

(** The parent of an entry is made if it does not exist; outside of [dest] only the
    directories above it are known to exist. *)
Definition ensure_parent (name : gostring) (m : tree) : result unpackError tree :=
  let rel := Rel dest (PathJoin [dest; Dir name]) in
  if leaves rel then if forallb (fun e => e =s "..") rel then Ok m else Err (UOutside name)
  else
    match Lstat m rel with
    | NoEnt => MkdirAll m [] rel 384
    | Follow => Err (UFollow rel)
    | _ => Ok m
    end.

Definition map_id (root id : Z) (idMaps : option (list IDMap)) : result unpackError Z :=
  if id =? root then Ok id else match ToHost id idMaps with Some x => Ok x | None => Err UIDMap end.

(** What an opaque directory keeps: what was unpacked, with everything above it. *)
Definition opaque_keeps (dir : path) (unpacked : gset path) (q : path) : bool :=
  negb (is_prefix dir q) || forallb (fun k => bool_decide (take k q ∈ unpacked)) (seq (S (length dir)) (length q - length dir)).

Definition unpack_whiteout (full : gostring) (dir : path) (base : gostring) (u : unpack) : result unpackError unpack :=
  if base =s WhiteoutOpaqueDir then
    match Lstat (ufs u) dir with
    | Found _ => Ok (mkUnpack (filter (fun qe => opaque_keeps dir (unpackedPaths u) qe.1 = true) (ufs u)) (unpackedPaths u) (udirs u))
    | NoEnt => Err (UNoEnt dir)
    | NotDir => Err (UNotDir dir)
    | Follow => Err (UFollow dir)
    end
  else
    let originalPath := PathJoin [Dir full; drop (length WhiteoutPrefix) base] in
    let p := Rel dest originalPath in
    if leaves p then Err (UOutside originalPath)
    else
      match RemoveAll (ufs u) p with
      | Ok m => Ok (mkUnpack m (unpackedPaths u) (udirs u))
      | Err e => Err e
      end.

Definition unpack_file (full : gostring) (p : path) (h : Header) (u : unpack) : result unpackError unpack :=
  let removed := match Lstat (ufs u) p with
    | Found e => if IsDir e && bool_decide (Flag h = TypeDir) then Ok (ufs u) else RemoveAll (ufs u) p
    | Follow => Err (UFollow p)
    | _ => Ok (ufs u)
    end in
  match removed with
  | Err e => Err e
  | Ok m =>
      match map_id rootUID (Uid h) uidMaps with
      | Err e => Err e
      | Ok uid =>
          match map_id rootGID (Gid h) gidMaps with
          | Err e => Err e
          | Ok gid =>
              let h' := mkHeader (Name h) (Flag h) (Linkname h) (Mode h) uid gid (ModTime h) (Devmajor h) (Devminor h) (Body h) (Xattr h) in
              match createTarFile full dest p h' m with
              | Err e => Err e
              | Ok m => Ok (mkUnpack m ({[p]} ∪ unpackedPaths u) (if bool_decide (Flag h = TypeDir) then udirs u ++ [p] else udirs u))
              end
          end
      end
  end.

(** One entry of the archive. *)
Definition unpack_entry (u : unpack) (h : Header) : result unpackError unpack :=
  let name := Clean (Name h) in
  match (if negb (HasSuffix name "/") then ensure_parent name (ufs u) else Ok (ufs u)) with
  | Err e => Err e
  | Ok m =>
      let u := mkUnpack m (unpackedPaths u) (udirs u) in
      if HasPrefix name WhiteoutMetaPrefix && negb (name =s WhiteoutOpaqueDir) then Ok u
      else
        let full := PathJoin [dest; name] in
        let p := Rel dest full in
        let base := Base full in
        if leaves p then Err (if bool_decide (p = [".."]) then UOutside name else UBreakout name)
        else if HasPrefix base WhiteoutPrefix then
          if bool_decide (p = []) then Err (UOutside name) else unpack_whiteout full (removelast p) base u
        else unpack_file full p h u
  end.

Fixpoint set_times (dirs : list path) (m : tree) : result unpackError tree :=
  match dirs with
  | [] => Ok m
  | p :: dirs => match Lstat m p with Found _ => set_times dirs m | _ => Err (UNoEnt p) end
  end.
End unpack.

(** The file system after the extraction, and the size of what was extracted. *)
Definition UnpackLayer (dest : gostring) (layer : list Header) (uidMaps gidMaps : option (list IDMap)) (m : tree) : result unpackError (tree * Z) :=
  match GetRootUIDGID uidMaps gidMaps with
  | None => Err UIDMap
  | Some (rootUID, rootGID) =>
      match rfoldM (unpack_entry dest uidMaps gidMaps rootUID rootGID) (mkUnpack m ∅ []) layer with
      | Err e => Err e
      | Ok u =>
          match set_times (udirs u) (ufs u) with
          | Err e => Err e
          | Ok m => Ok (m, foldr (fun h n => Z.of_nat (length (Body h)) + n) 0 layer)
          end
      end
  end.

(** ** The driver *)

(** [Diff] of a layer that has a parent, and [ApplyDiff]. *)
Definition Diff (range : list gostring → list gostring) (uidMaps gidMaps : option (list IDMap)) (layerFs parentFs : tree) : list Header :=
  ExportChanges layerFs (ChangesDirs range layerFs parentFs) uidMaps gidMaps.
Definition ApplyDiff (layerFs : gostring) (uidMaps gidMaps : option (list IDMap)) (m : tree) (diff : list Header) : result unpackError (tree * Z) :=
  UnpackLayer layerFs diff uidMaps gidMaps m.

End LayerDiff.
