(* ===== verification/LayerStore.v ===== *)
(** * LayerStore: the layer store and its reference counts

    Models [src/layer/layer_store.go] with [ro_layer.go] and [mounted_layer.go]:
    read-only layers shared by images and by each other, retained by counting, and
    the mounts of containers on top of them.

    A layer object is found by its chain ID: a pointer to one is that ID, since the
    count that goes with every pointer keeps the object in [layerMap] (this is part
    of what is proved).  A reference handed out is the pair of the chain ID (or the
    mount's name) and the number of the allocation that made it.  The graph driver
    and the metadata store are external: whether each of their calls succeeds is an
    argument.

    The store has two locks, [layerL] for [layerMap] with the counts and [mountL] for
    [mounts], and an operation does not hold the first for all of its time.  Each is
    therefore split where it has no lock or the other lock only: [Get] takes its
    reference after [get] has let the lock go; [Register] works without a lock between
    the retention of its parent and the commit, and releases its parent, where it has
    to, under the lock taken anew; [CreateRWLayer] and [ReleaseRWLayer] hold [mountL]
    throughout and [layerL] only while they retain or release a layer.  The steps that
    the pieces make, and what is under way between them, are [layer_step] and
    [activity].  [getReference] outside of the lock writes to a Go map that others may
    be writing to; the write is taken to be atomic. *)

From S2P Require Import Prelude Strconv Digest.
Import Strings Strconv Digest.

Module LayerStore.

Abbreviation ChainID := gostring.
Abbreviation DiffID := gostring.

Definition maxLayerDepth : nat := 125.

Record roLayer := mkLayer {
  chainID : ChainID;
  diffID : DiffID;
  parent : option ChainID;
  cacheID : gostring;
  size_ : Z;
  referenceCount : nat;
  references : gset nat
}.
(** [references] of a mounted layer: each [referencedRWLayer] with its [activityCount];
    one that is released is no longer there. *)
Record mountedLayer := mkMounted {
  m_name : gostring;
  mountID : gostring;
  initID : gostring;
  m_parent : option ChainID;
  m_references : gmap nat Z
}.
Record layerStore := mkLayers {
  layerMap : gmap ChainID roLayer;
  mounts : gmap gostring mountedLayer;
  next : nat   (* allocations so far *)
}.
Record Metadata := mkMeta { md_ChainID : ChainID; md_DiffID : DiffID; md_Size : Z; md_DiffSize : Z }.

Inductive error :=
| ErrLayerDoesNotExist
| ErrLayerNotRetained
| ErrMountDoesNotExist
| ErrMountNameConflict
| ErrActiveMount
| ErrNotMounted
| ErrMaxDepthExceeded
| ErrDriver.   (* an error of the graph driver or of the metadata store *)

Definition empty : layerStore := mkLayers ∅ ∅ 0.

(** ** Layers *)

Definition set_layer (id : ChainID) (l : roLayer) (s : layerStore) : layerStore :=
  mkLayers (<[id := l]> (layerMap s)) (mounts s) (next s).
Definition del_layer (id : ChainID) (s : layerStore) : layerStore :=
  mkLayers (delete id (layerMap s)) (mounts s) (next s).
Definition set_count (n : nat) (l : roLayer) : roLayer :=
  mkLayer (chainID l) (diffID l) (parent l) (cacheID l) (size_ l) n (references l).
Definition set_refs (r : gset nat) (l : roLayer) : roLayer :=
  mkLayer (chainID l) (diffID l) (parent l) (cacheID l) (size_ l) (referenceCount l) r.

(** [depth], counting at most to [fuel]. *)
Fixpoint depth_ (fuel : nat) (m : gmap ChainID roLayer) (id : ChainID) : nat :=
  match fuel with
  | O => O
  | S fuel =>
      match m !! id ≫= parent with
      | None => 1
      | Some p => S (depth_ fuel m p)
      end
  end.
(** Counting one further than the limit decides the comparison with it. *)
Definition depth (m : gmap ChainID roLayer) (id : ChainID) : nat := depth_ (S maxLayerDepth) m id.

(** [Size]: with the sizes of the layers below. *)
Fixpoint Size_ (fuel : nat) (m : gmap ChainID roLayer) (id : ChainID) : Z :=
  match fuel, m !! id with
  | S fuel, Some l =>
      match parent l with
      | None => to_int64 (size_ l)
      | Some p => to_int64 (Size_ fuel m p + size_ l)
      end
  | _, _ => 0
  end.
Definition Size (m : gmap ChainID roLayer) (id : ChainID) : Z := Size_ (S maxLayerDepth) m id.

(** [getReference]: a new reference to a layer of the map. *)
Definition getReference (id : ChainID) (s : layerStore) : layerStore * (ChainID * nat) :=
  (mkLayers (alter (fun l => set_refs (references l ∪ {[next s]}) l) id (layerMap s)) (mounts s) (S (next s)), (id, next s)).
Definition hasReference (l : roLayer) (n : nat) : bool := bool_decide (n ∈ references l).
Definition hasReferences (l : roLayer) : bool := negb (bool_decide (references l = ∅)).
Definition deleteReference (n : nat) (l : roLayer) : roLayer := set_refs (references l ∖ {[n]}) l.

(** [getWithoutLock] and [get]: the layer, retained. *)
Definition getWithoutLock (id : ChainID) (s : layerStore) : option layerStore :=
  match layerMap s !! id with
  | None => None
  | Some l => Some (set_layer id (set_count (S (referenceCount l)) l) s)
  end.
Definition Get (id : ChainID) (s : layerStore) : layerStore * result error (ChainID * nat) :=
  match getWithoutLock id s with
  | None => (s, Err ErrLayerDoesNotExist)
  | Some s => let '(s, ref) := getReference id s in (s, Ok ref)
  end.

(** What [releaseLayer] ends with; [Lost] if it were to follow a pointer to a layer that
    is not in the map, or to go on for longer than the map is large. *)
Inductive released := Removed (l : list Metadata) | NotRemoved (e : error) | Panic (msg : gostring) | Lost.

(** [deleteLayer]: [io] tells for each layer whether the driver and the metadata store
    remove it. *)
Definition deleteLayer (m : gmap ChainID roLayer) (l : roLayer) : Metadata :=
  mkMeta (chainID l) (diffID l) (Size m (chainID l)) (size_ l).

Fixpoint releaseLayer (fuel : nat) (io : ChainID → bool) (id : ChainID) (depth : nat) (removed : list Metadata)
    (s : layerStore) : layerStore * released :=
  match fuel, layerMap s !! id with
  | S fuel, Some l =>
      match referenceCount l with
      | O => (s, Panic "layer not retained")
      | S n =>
          let l := set_count n l in
          let s := set_layer id l s in
          if negb (Nat.eqb n 0) then (s, Removed removed)
          else if bool_decide (removed = []) && Nat.ltb 0 depth then (s, Panic "cannot remove layer with child")
          else if hasReferences l then (s, Panic "cannot delete referenced layer")
          else if negb (io id) then (s, NotRemoved ErrDriver)
          else
            let removed := removed ++ [deleteLayer (layerMap s) l] in
            let s := del_layer id s in
            match parent l with
            | None => (s, Removed removed)
            | Some p => releaseLayer fuel io p (S depth) removed s
            end
      end
  | _, _ => (s, Lost)
  end.
Definition release (io : ChainID → bool) (id : ChainID) (s : layerStore) : layerStore * released :=
  releaseLayer (S (size (layerMap s))) io id 0 [] s.

Definition Release (io : ChainID → bool) (ref : ChainID * nat) (s : layerStore) : layerStore * released :=
  match layerMap s !! ref.1 with
  | None => (s, Removed [])
  | Some l =>
      if negb (hasReference l ref.2) then (s, NotRemoved ErrLayerNotRetained)
      else release io ref.1 (set_layer ref.1 (deleteReference ref.2 l) s)
  end.

(** ** Registering a layer *)

(** The start: retain the parent, and check its depth (the parents of a layer never
    change, so that the check needs no lock).  It goes on with the parent, or is about to
    return an error once it has released what it retained. *)
Definition Register_begin (parent_ : ChainID) (s : layerStore) : layerStore * (option ChainID + error * option ChainID) :=
  if parent_ =s [] then (s, inl None)
  else
    match getWithoutLock parent_ s with
    | None => (s, inr (ErrLayerDoesNotExist, None))
    | Some s =>
        if Nat.leb maxLayerDepth (depth (layerMap s) parent_) then (s, inr (ErrMaxDepthExceeded, Some parent_))
        else (s, inl (Some parent_))
    end.

(** How the external calls of a registration go: creation by the driver, start of the
    transaction, the diff ID and size of the applied archive, the writing of the metadata
    and the commit; and the random cache ID. *)
Record registration := mkReg {
  r_cacheID : gostring;
  r_Create : bool;
  r_StartTransaction : bool;
  r_applyTar : option (DiffID * Z);
  r_storeLayer : bool;
  r_Commit : bool
}.

(** The rest, up to the deferred functions: the result, and the parent that the first of
    them is to release ([err] is set). *)
Definition Register_end (r : registration) (p : option ChainID) (s : layerStore)
    : layerStore * (result error (ChainID * nat) * option ChainID) :=
  let fail := (s, (Err ErrDriver, p)) in
  if negb (r_Create r) then fail
  else if negb (r_StartTransaction r) then fail
  else
    match r_applyTar r with
    | None => fail
    | Some (diff, sz) =>
        let id := match p with None => diff | Some p => createChainIDFromParent p [diff] end in
        if negb (r_storeLayer r) then fail
        else
          match getWithoutLock id s with
          | Some s => let '(s, ref) := getReference id s in (s, (Ok ref, p))
          | None =>
              if negb (r_Commit r) then fail
              else
                let '(s, ref) := getReference id (set_layer id (mkLayer id diff p (r_cacheID r) sz 1 ∅) s) in
                (s, (Ok ref, None))
          end
    end.

(** The deferred release of the parent: its result is ignored, but not its panic. *)
Definition release_parent {A} (io : ChainID → bool) (p : option ChainID) (a : A) (s : layerStore) : layerStore * (A + released) :=
  match p with
  | None => (s, inl a)
  | Some p =>
      match release io p s with
      | (s, Removed _) | (s, NotRemoved _) => (s, inl a)
      | (s, x) => (s, inr x)
      end
  end.

(** A registration that nothing interrupts. *)
Definition Register (io : ChainID → bool) (r : registration) (parent_ : ChainID) (s : layerStore)
    : layerStore * (result error (ChainID * nat) + released) :=
  match Register_begin parent_ s with
  | (s, inl p) => let '(s, (res, drop)) := Register_end r p s in release_parent io drop res s
  | (s, inr (e, drop)) => release_parent io drop (Err e) s
  end.

(** ** Mounts *)

Definition set_mount (name : gostring) (m : mountedLayer) (s : layerStore) : layerStore :=
  mkLayers (layerMap s) (<[name := m]> (mounts s)) (next s).
Definition set_mrefs (r : gmap nat Z) (m : mountedLayer) : mountedLayer :=
  mkMounted (m_name m) (mountID m) (initID m) (m_parent m) r.
Definition m_getReference (name : gostring) (s : layerStore) : layerStore * (gostring * nat) :=
  (mkLayers (layerMap s) (alter (fun m => set_mrefs (<[next s := 0%Z]> (m_references m)) m) name (mounts s)) (S (next s)),
   (name, next s)).

(** [CreateRWLayer], which holds [mountL]: the name is looked up and the parent retained. *)
Definition CreateRWLayer_begin (name : gostring) (parent_ : ChainID) (s : layerStore) : layerStore * (option ChainID + error) :=
  match mounts s !! name with
  | Some _ => (s, inr ErrMountNameConflict)
  | None =>
      if parent_ =s [] then (s, inl None)
      else
        match getWithoutLock parent_ s with
        | None => (s, inr ErrLayerDoesNotExist)
        | Some s => (s, inl (Some parent_))
        end
  end.
(** The rest: [initFunc] tells whether an init layer is asked for, and if so whether
    [initMount] succeeds.  With the result, the parent that the deferred function is to
    release. *)
Definition CreateRWLayer_end (id : gostring) (initFunc : option bool) (create save : bool) (name : gostring) (p : option ChainID)
    (s : layerStore) : layerStore * (result error (gostring * nat) * option ChainID) :=
  let fail := (s, (Err ErrDriver, p)) in
  match initFunc with
  | Some false => fail
  | _ =>
      let init := match initFunc with Some _ => id ++ "-init" | None => [] end in
      if negb create then fail
      else if negb save then fail
      else
        let '(s, ref) := m_getReference name (set_mount name (mkMounted name id init p ∅) s) in
        (s, (Ok ref, None))
  end.
Definition CreateRWLayer (io : ChainID → bool) (id : gostring) (initFunc : option bool) (create save : bool)
    (name : gostring) (parent_ : ChainID) (s : layerStore) : layerStore * (result error (gostring * nat) + released) :=
  match CreateRWLayer_begin name parent_ s with
  | (s, inr e) => (s, inl (Err e))
  | (s, inl p) => let '(s, (res, drop)) := CreateRWLayer_end id initFunc create save name p s in release_parent io drop res s
  end.
Definition GetRWLayer (name : gostring) (s : layerStore) : layerStore * result error (gostring * nat) :=
  match mounts s !! name with
  | None => (s, Err ErrMountDoesNotExist)
  | Some _ => let '(s, ref) := m_getReference name s in (s, Ok ref)
  end.

(** [Mount] and [Unmount] of a reference: the activity count moves whatever the driver
    answers. *)
Definition set_activity (ref : gostring * nat) (n : Z) (s : layerStore) : layerStore :=
  mkLayers (layerMap s) (alter (fun m => set_mrefs (<[ref.2 := n]> (m_references m)) m) ref.1 (mounts s)) (next s).
Definition activityCount (ref : gostring * nat) (s : layerStore) : Z :=
  default (-1)%Z (mounts s !! ref.1 ≫= fun m => m_references m !! ref.2).
Definition Mount (driver : bool) (ref : gostring * nat) (s : layerStore) : layerStore * option error :=
  let n := activityCount ref s in
  if (n =? -1)%Z then (s, Some ErrLayerNotRetained)
  else (set_activity ref (n + 1) s, if driver then None else Some ErrDriver).
Definition Unmount (driver : bool) (ref : gostring * nat) (s : layerStore) : layerStore * option error :=
  let n := activityCount ref s in
  if (n =? 0)%Z then (s, Some ErrNotMounted)
  else if (n =? -1)%Z then (s, Some ErrLayerNotRetained)
  else (set_activity ref (n - 1) s, if driver then None else Some ErrDriver).

(** [deleteReference], with [release]: refused while the reference is mounted. *)
Definition m_deleteReference (n : nat) (m : mountedLayer) : result error mountedLayer :=
  match m_references m !! n with
  | None => Err ErrLayerNotRetained
  | Some a => if (0 <? a)%Z then Err ErrActiveMount else Ok (set_mrefs (delete n (m_references m)) m)
  end.
(** [ReleaseRWLayer], which holds [mountL]: the reference is given up, and the mount is to
    be removed if that was the last. *)
Definition ReleaseRWLayer_begin (ref : gostring * nat) (s : layerStore) : layerStore * (gostring + released) :=
  match mounts s !! ref.1 with
  | None => (s, inr (Removed []))
  | Some m =>
      match m_deleteReference ref.2 m with
      | Err e => (s, inr (NotRemoved e))
      | Ok m =>
          let s := set_mount ref.1 m s in
          if negb (bool_decide (m_references m = ∅)) then (s, inr (Removed [])) else (s, inl ref.1)
      end
  end.
(** Whether the driver removes the mount and its init layer, and whether the metadata store
    forgets it; the parent is then to be released. *)
Definition ReleaseRWLayer_end (rm rm_init rm_meta : bool) (name : gostring) (s : layerStore) : layerStore * (ChainID + released) :=
  match mounts s !! name with
  | None => (s, inr Lost)
  | Some m =>
      if negb rm then (s, inr (NotRemoved ErrDriver))
      else if negb (initID m =s []) && negb rm_init then (s, inr (NotRemoved ErrDriver))
      else if negb rm_meta then (s, inr (NotRemoved ErrDriver))
      else
        let s := mkLayers (layerMap s) (delete (m_name m) (mounts s)) (next s) in
        match m_parent m with
        | Some p => (s, inl p)
        | None => (s, inr (Removed []))
        end
  end.
Definition ReleaseRWLayer (io : ChainID → bool) (rm rm_init rm_meta : bool) (ref : gostring * nat) (s : layerStore)
    : layerStore * released :=
  match ReleaseRWLayer_begin ref s with
  | (s, inr x) => (s, x)
  | (s, inl name) =>
      match ReleaseRWLayer_end rm rm_init rm_meta name s with
      | (s, inr x) => (s, x)
      | (s, inl p) => release io p s
      end
  end.

(** ** What runs at the same time *)

(** An operation between two of its pieces. *)
Inductive activity :=
| Getting (id : ChainID)                          (* [Get], before [getReference] *)
| Registering (p : option ChainID)                (* [Register], with its parent retained *)
| Creating (name : gostring) (p : option ChainID) (* [CreateRWLayer], with its parent retained *)
| Removing (name : gostring)                      (* [ReleaseRWLayer], of the last reference *)
| Dropping (mount : bool) (p : ChainID).          (* before [releaseLayer]; [mount]: under [mountL] *)

(** The layers that it retains. *)
Definition holds (a : activity) : list ChainID :=
  match a with
  | Getting id => [id]
  | Registering p | Creating _ p => option_list p
  | Removing _ => []
  | Dropping _ p => [p]
  end.
Definition pending (acts : list activity) : list ChainID := acts ≫= holds.
(** Whether it holds [mountL]. *)
Definition locks_mounts (a : activity) : bool :=
  match a with Creating _ _ | Removing _ => true | Dropping mount _ => mount | _ => false end.
Definition mount_locks (acts : list activity) : nat := length (filter (fun a => locks_mounts a = true) acts).

Definition to_drop (mount : bool) (p : option ChainID) : list activity := Dropping mount <$> option_list p.
Definition begun (x : option ChainID + error * option ChainID) : list activity :=
  match x with inl p => [Registering p] | inr (_, drop) => to_drop false drop end.
Definition creating (name : gostring) (x : option ChainID + error) : list activity :=
  match x with inl p => [Creating name p] | inr _ => [] end.
Definition removing (x : gostring + released) : list activity :=
  match x with inl name => [Removing name] | inr _ => [] end.
Definition unmounted (x : ChainID + released) : list activity :=
  match x with inl p => [Dropping true p] | inr _ => [] end.

(** A result that is a panic, or the loss of a layer. *)
Definition crash (x : released) : bool := match x with Removed _ | NotRemoved _ => false | Panic _ | Lost => true end.
Definition crashes {A} (x : A + released) : bool := match x with inl _ => false | inr x => crash x end.

(** A state of the system: the store, and what is under way. *)
Definition system : Type := layerStore * list activity.

(** What happens while a lock is held, or between two locks; [io] tells which removals
    succeed, and the flag whether it crashes.  An operation that needs [mountL] waits until
    nobody has it. *)
Inductive layer_step (io : ChainID → bool) : system → bool → system → Prop :=
| step_get id s acts s' : getWithoutLock id s = Some s' → layer_step io (s, acts) false (s', Getting id :: acts)
| step_getReference id s acts acts' : acts ≡ₚ Getting id :: acts' →
    layer_step io (s, acts) false ((getReference id s).1, acts')
| step_release ref s acts s' x : Release io ref s = (s', x) → layer_step io (s, acts) (crash x) (s', acts)
| step_begin q s acts s' x : Register_begin q s = (s', x) → layer_step io (s, acts) false (s', begun x ++ acts)
| step_end r p s acts acts' s' res drop : acts ≡ₚ Registering p :: acts' → Register_end r p s = (s', (res, drop)) →
    layer_step io (s, acts) false (s', to_drop false drop ++ acts')
| step_drop mount p s acts acts' s' x : acts ≡ₚ Dropping mount p :: acts' → release io p s = (s', x) →
    layer_step io (s, acts) (crash x) (s', acts')
| step_create name q s acts s' x : mount_locks acts = 0 → CreateRWLayer_begin name q s = (s', x) →
    layer_step io (s, acts) false (s', creating name x ++ acts)
| step_created id f c sv name p s acts acts' s' res drop : acts ≡ₚ Creating name p :: acts' →
    CreateRWLayer_end id f c sv name p s = (s', (res, drop)) → layer_step io (s, acts) false (s', to_drop true drop ++ acts')
| step_getrw name s acts : mount_locks acts = 0 → layer_step io (s, acts) false ((GetRWLayer name s).1, acts)
| step_mount b ref s acts : layer_step io (s, acts) false ((Mount b ref s).1, acts)
| step_unmount b ref s acts : layer_step io (s, acts) false ((Unmount b ref s).1, acts)
| step_releaserw ref s acts s' x : mount_locks acts = 0 → ReleaseRWLayer_begin ref s = (s', x) →
    layer_step io (s, acts) (crashes x) (s', removing x ++ acts)
| step_removerw a b c name s acts acts' s' x : acts ≡ₚ Removing name :: acts' → ReleaseRWLayer_end a b c name s = (s', x) →
    layer_step io (s, acts) (crashes x) (s', unmounted x ++ acts').

Definition any_step (x y : system) : Prop := ∃ io c, layer_step io x c y.
Definition good_step (x y : system) : Prop := ∃ io c, (∀ i, io i = true) ∧ layer_step io x c y.

End LayerStore.

Import LayerStore.

Lemma list_elem_of_option_list {A} (x : A) (o : option A) : x ∈ option_list o ↔ o = Some x.
Proof. destruct o; simpl; set_solver. Qed.

(** ** Counting in maps *)

Section mcount.
Context {A : Type} (P : A → bool).
Implicit Types m : gmap gostring A.

Definition mcount m : nat := size (filter (fun kv : gostring * A => P kv.2 = true) m).

Lemma mcount_new m k x : m !! k = None → mcount (<[k := x]> m) = (if P x then 1 else 0) + mcount m.
Proof.
  intros Hk. unfold mcount. destruct (P x) eqn:E.
  - rewrite map_filter_insert_True by done. rewrite map_size_insert_None; [done|].
    apply map_lookup_filter_None. by left.
  - rewrite map_filter_insert_not'; [done|simpl; congruence|]. intros y Hy. congruence.
Qed.
Lemma mcount_delete m k x : m !! k = Some x → mcount m = (if P x then 1 else 0) + mcount (delete k m).
Proof. intros Hk. rewrite <-(insert_id m k x Hk) at 1. rewrite <-insert_delete_eq. apply mcount_new, lookup_delete_eq. Qed.
Lemma mcount_insert m k x y : m !! k = Some y → P x = P y → mcount (<[k := x]> m) = mcount m.
Proof.
  intros Hk HP. rewrite <-insert_delete_eq, mcount_new by apply lookup_delete_eq.
  by rewrite (mcount_delete m k y Hk), HP.
Qed.
Lemma mcount_pos m : 0 < mcount m ↔ ∃ k x, m !! k = Some x ∧ P x = true.
Proof.
  unfold mcount. split.
  - intros Hs. destruct (map_choose (filter (fun kv : gostring * A => P kv.2 = true) m)) as (k & x & Hk).
    { intros E. rewrite E, map_size_empty in Hs. lia. }
    apply map_lookup_filter_Some in Hk as [Hk Hx]. eauto.
  - intros (k & x & Hk & Hx).
    assert (Hf : filter (fun kv : gostring * A => P kv.2 = true) m !! k = Some x) by (apply map_lookup_filter_Some; done).
    destruct (decide (size (filter (fun kv : gostring * A => P kv.2 = true) m) = 0)) as [E|]; [|lia].
    apply map_size_empty_inv in E. rewrite E in Hf. done.
Qed.
End mcount.

Definition occ (id : gostring) (l : list gostring) : nat := length (filter (fun x => x = id) l).
Lemma occ_cons id x l : occ id (x :: l) = (if decide (x = id) then 1 else 0) + occ id l.
Proof. unfold occ. rewrite filter_cons. by case_decide. Qed.
Lemma occ_pos id l : 0 < occ id l ↔ id ∈ l.
Proof.
  induction l as [|x l IH]; [unfold occ; simpl; set_solver by lia|].
  rewrite occ_cons, elem_of_cons. case_decide; split; intros; naive_solver lia.
Qed.

(** ** The invariant *)

Definition children (m : gmap ChainID roLayer) (id : ChainID) : nat := mcount (fun l => bool_decide (parent l = Some id)) m.
Definition mounted (m : gmap gostring mountedLayer) (id : ChainID) : nat := mcount (fun x => bool_decide (m_parent x = Some id)) m.

(** The address of a layer with diff [d] on [p]. *)
Definition addressed (id : ChainID) (d : DiffID) (p : option ChainID) : Prop :=
  id = match p with None => d | Some p => createChainIDFromParent p [d] end.

(** [pend] are the layers retained by registrations under way. *)
Record inv (s : layerStore) (pend : list ChainID) : Prop := {
  inv_count id l : layerMap s !! id = Some l →
    referenceCount l = size (references l) + children (layerMap s) id + mounted (mounts s) id + occ id pend;
  inv_refs id l n : layerMap s !! id = Some l → n ∈ references l → n < next s;
  inv_id id l : layerMap s !! id = Some l →
    chainID l = id ∧ addressed id (diffID l) (parent l);
  inv_parent id l p : layerMap s !! id = Some l → parent l = Some p → is_Some (layerMap s !! p);
  inv_mount n m : mounts s !! n = Some m →
    m_name m = n ∧ (∀ p, m_parent m = Some p → is_Some (layerMap s !! p)) ∧
    (∀ k a, m_references m !! k = Some a → k < next s ∧ (0 ≤ a)%Z);
  inv_pend p : p ∈ pend → is_Some (layerMap s !! p);
  inv_rank : ∃ rk : ChainID → nat, ∀ id l, layerMap s !! id = Some l →
    rk id = match parent l with None => 1 | Some p => S (rk p) end ∧ rk id ≤ maxLayerDepth
}.

#[export] Instance inv_proper s : Proper ((≡ₚ) ==> iff) (inv s).
Proof.
  assert (H : ∀ l1 l2, l1 ≡ₚ l2 → inv s l1 → inv s l2).
  { intros l1 l2 Hl [H1 H2 H3 H4 H5 H6 H7]. split; try done.
    - intros id l Hid. rewrite (H1 id l Hid). unfold occ. by rewrite Hl.
    - intros p. rewrite <-Hl. apply H6. }
  intros l1 l2 Hl. split; by apply H.
Qed.

Lemma inv_empty : inv empty [].
Proof. split; try (intros; simplify_map_eq; done); [set_solver|by exists (fun _ => 0)]. Qed.

Section preservation.
Implicit Types (s : layerStore) (pend : list ChainID) (l : roLayer).

(** Changing a layer without changing who its parent is. *)
Lemma inv_set s pend pend' id l l' :
  inv s pend → layerMap s !! id = Some l →
  chainID l' = chainID l → diffID l' = diffID l → parent l' = parent l →
  (∀ n, n ∈ references l' → n < next s) →
  referenceCount l' + size (references l) + occ id pend = referenceCount l + size (references l') + occ id pend' →
  (∀ i, i ≠ id → occ i pend' = occ i pend) → (∀ p, p ∈ pend' → is_Some (layerMap s !! p)) →
  inv (set_layer id l' s) pend'.
Proof.
  intros [H1 H2 H3 H4 H5 H6 (rk & H7)] Hid Hc Hd Hp Href Hcount Hocc Hpend.
  assert (Hch : ∀ i, children (<[id := l']> (layerMap s)) i = children (layerMap s) i).
  { intros i. apply (mcount_insert _ _ _ _ l); [done|]. by rewrite Hp. }
  assert (Hsome : ∀ p, is_Some (layerMap s !! p) → is_Some (layerMap (set_layer id l' s) !! p)).
  { intros p Hsp. simpl. destruct (decide (p = id)) as [->|]; simplify_map_eq; [by eexists|done]. }
  split; simpl.
  - intros i li Hi. rewrite Hch.
    destruct (decide (i = id)) as [->|Hne]; simplify_map_eq.
    + pose proof (H1 _ _ Hid). lia.
    + rewrite Hocc by done. by apply H1.
  - intros i li n Hi. destruct (decide (i = id)) as [->|]; simplify_map_eq; [apply Href|by eapply H2].
  - intros i li Hi. destruct (decide (i = id)) as [->|]; simplify_map_eq; [|by apply H3].
    rewrite Hc, Hd, Hp. by apply H3.
  - intros i li p Hi Hpar. apply Hsome. destruct (decide (i = id)) as [->|]; simplify_map_eq; eapply H4; eauto.
    by rewrite <-Hp.
  - intros n m Hm. destruct (H5 n m Hm) as (? & ? & ?). split_and!; [done| |done]. intros p ?. apply Hsome. eauto.
  - intros p ?. apply Hsome. eauto.
  - exists rk. intros i li Hi. destruct (decide (i = id)) as [->|]; simplify_map_eq; [|by apply H7].
    rewrite Hp. by apply H7.
Qed.

Lemma inv_inc s pend id l :
  inv s pend → layerMap s !! id = Some l → inv (set_layer id (set_count (S (referenceCount l)) l) s) (id :: pend).
Proof.
  intros Hinv Hid. apply (inv_set s pend _ id l); try done.
  - intros n Hn. exact (inv_refs _ _ Hinv id l n Hid Hn).
  - simpl. rewrite occ_cons, decide_True by done. lia.
  - intros i Hi. by rewrite occ_cons, decide_False.
  - intros p [->|Hp]%elem_of_cons; [by eexists|by apply Hinv].
Qed.
Lemma inv_dec s pend id l n :
  inv s (id :: pend) → layerMap s !! id = Some l → referenceCount l = S n → inv (set_layer id (set_count n l) s) pend.
Proof.
  intros Hinv Hid Hn. apply (inv_set s (id :: pend) _ id l); try done.
  - intros k Hk. exact (inv_refs _ _ Hinv id l k Hid Hk).
  - simpl. rewrite occ_cons, decide_True by done. lia.
  - intros i Hi. by rewrite occ_cons, decide_False.
  - intros p Hp. apply Hinv. by right.
Qed.
Lemma inv_count_pos s pend id l : inv s (id :: pend) → layerMap s !! id = Some l → 0 < referenceCount l.
Proof. intros Hinv Hid. rewrite (inv_count _ _ Hinv id l Hid), occ_cons, decide_True by done. lia. Qed.

Lemma inv_unref s pend id l n :
  inv s pend → layerMap s !! id = Some l → n ∈ references l →
  inv (set_layer id (deleteReference n l) s) (id :: pend).
Proof.
  intros Hinv Hid Hn. apply (inv_set s pend _ id l); try done.
  - intros k. simpl. intros Hk. apply (inv_refs _ _ Hinv id l); set_solver.
  - simpl. rewrite occ_cons, decide_True by done. rewrite size_difference by set_solver. rewrite size_singleton.
    assert (size (references l) ≠ 0); [|lia]. intros E. apply size_empty_inv in E. set_solver.
  - intros i Hi. by rewrite occ_cons, decide_False.
  - intros p [->|Hp]%elem_of_cons; [by eexists|by apply Hinv].
Qed.

(** Allocating moves [next] only. *)
Lemma inv_next s pend : inv s pend → inv (mkLayers (layerMap s) (mounts s) (S (next s))) pend.
Proof.
  intros [H1 H2 H3 H4 H5 H6 H7]. split; simpl; try done.
  - intros. transitivity (next s); [eauto|lia].
  - intros n m Hm. destruct (H5 n m Hm) as (? & ? & H). split_and!; [done|done|]. intros k a Hk. destruct (H k a Hk). lia.
Qed.
Lemma inv_getReference s pend id :
  inv s (id :: pend) → inv (getReference id s).1 pend.
Proof.
  intros Hinv. destruct (inv_pend _ _ Hinv id) as [l Hid]; [by left|].
  assert (Hn : next s ∉ references l). { intros Hin. pose proof (inv_refs _ _ Hinv id l _ Hid Hin). lia. }
  unfold getReference. simpl.
  assert (Halt : alter (fun l => set_refs (references l ∪ {[next s]}) l) id (layerMap s) =
    <[id := set_refs (references l ∪ {[next s]}) l]> (layerMap s)).
  { apply map_eq. intros i. destruct (decide (i = id)) as [->|].
    - by rewrite lookup_alter_eq, Hid, lookup_insert_eq.
    - by rewrite lookup_alter_ne, lookup_insert_ne. }
  rewrite Halt. apply (inv_set (mkLayers (layerMap s) (mounts s) (S (next s))) (id :: pend) _ id l); try done.
  - by apply inv_next.
  - intros k. simpl. rewrite elem_of_union, elem_of_singleton. intros [Hk| ->]; [|lia].
    pose proof (inv_refs _ _ Hinv id l _ Hid Hk). lia.
  - simpl. rewrite occ_cons, decide_True by done. rewrite size_union by set_solver. rewrite size_singleton. lia.
  - intros i Hi. by rewrite occ_cons, decide_False.
  - intros p Hp. simpl. apply Hinv. by right.
Qed.
End preservation.

Section moves.
Implicit Types (s : layerStore) (pend : list ChainID) (l : roLayer).

(** A layer that nothing retains can go; the count it held on its parent is in hand. *)
Lemma inv_del s pend id l :
  inv s pend → layerMap s !! id = Some l → referenceCount l = 0 →
  inv (del_layer id s) (option_list (parent l) ++ pend).
Proof.
  intros Hinv Hid H0. pose proof (inv_count _ _ Hinv id l Hid) as Hc. rewrite H0 in Hc.
  destruct Hinv as [H1 H2 H3 H4 H5 H6 (rk & H7)].
  assert (Hsome : ∀ p, p ≠ id → is_Some (layerMap s !! p) → is_Some (layerMap (del_layer id s) !! p))
    by (intros; simpl; by rewrite lookup_delete_ne).
  assert (Hnochild : ∀ i li, layerMap s !! i = Some li → parent li ≠ Some id).
  { intros i li Hi Hp. assert (0 < children (layerMap s) id); [|lia].
    apply mcount_pos. exists i, li. by rewrite bool_decide_eq_true. }
  split; simpl.
  - intros i li Hi. apply lookup_delete_Some in Hi as [Hne Hi]. rewrite (H1 _ _ Hi).
    unfold children. rewrite (mcount_delete _ (layerMap s) id l Hid).
    destruct (parent l) as [p|]; simpl; [|lia]. rewrite occ_cons. do 2 case_match; try lia.
    all: repeat match goal with H : bool_decide _ = _ |- _ => revert H end; case_bool_decide; intros; congruence.
  - intros i li n Hi. apply lookup_delete_Some in Hi as [Hne Hi]. by eapply H2.
  - intros i li Hi. apply lookup_delete_Some in Hi as [Hne Hi]. by apply H3.
  - intros i li p Hi Hp. apply lookup_delete_Some in Hi as [Hne Hi]. apply Hsome; [|by eapply H4].
    intros ->. by eapply Hnochild.
  - intros n m Hm. destruct (H5 n m Hm) as (? & ? & ?). split_and!; [done| |done]. intros p Hp. apply Hsome; [|eauto].
    intros ->. assert (0 < mounted (mounts s) id); [|lia]. apply mcount_pos. exists n, m. by rewrite bool_decide_eq_true.
  - intros p Hp. apply Hsome.
    + intros ->. apply elem_of_app in Hp as [Hp|Hp].
      * apply list_elem_of_option_list in Hp. by eapply Hnochild.
      * apply occ_pos in Hp. lia.
    + apply elem_of_app in Hp as [Hp|Hp]; [|by apply H6]. apply list_elem_of_option_list in Hp. by eapply H4.
  - exists rk. intros i li Hi. apply lookup_delete_Some in Hi as [Hne Hi]. by apply H7.
Qed.

(** A new layer takes over the count held on its parent. *)
Lemma inv_new s pend id d p c z :
  inv s (option_list p ++ pend) → layerMap s !! id = None →
  addressed id d p →
  (∀ q, p = Some q → depth (layerMap s) q < maxLayerDepth) →
  inv (set_layer id (mkLayer id d p c z 1 ∅) s) (id :: pend).
Proof.
  intros [H1 H2 H3 H4 H5 H6 (rk & H7)] Hid Heq Hdepth.
  assert (Hsome : ∀ q, is_Some (layerMap s !! q) → q ≠ id) by (intros q [? Hq] ->; congruence).
  assert (Hrk : ∀ q, p = Some q → rk q < maxLayerDepth).
  { intros q ->. specialize (Hdepth q eq_refl). unfold depth in Hdepth.
    assert (Hd : ∀ fuel i li, layerMap s !! i = Some li → rk i ≤ fuel → depth_ fuel (layerMap s) i = rk i).
    { induction fuel as [|fuel IH]; intros i li Hi Hle.
      - destruct (H7 i li Hi) as [E _]. destruct (parent li); lia.
      - simpl. rewrite Hi. simpl. destruct (H7 i li Hi) as [E _]. destruct (parent li) as [p|] eqn:Ep; [|done].
        destruct (H4 i li p Hi Ep) as [lp Hp]. rewrite (IH p lp Hp); lia. }
    destruct (H6 q) as [lq Hq]; [by left|]. destruct (H7 q lq Hq) as [_ Hle]. rewrite (Hd _ q lq Hq) in Hdepth; lia. }
  assert (Hins : ∀ q, is_Some (layerMap s !! q) → is_Some (<[id := mkLayer id d p c z 1 ∅]> (layerMap s) !! q)).
  { intros q Hq. rewrite lookup_insert_ne; [done|]. symmetry. by apply Hsome. }
  split; simpl.
  - intros i li Hi. unfold children. rewrite mcount_new by done. simpl. rewrite occ_cons. fold (children (layerMap s) i).
    destruct (decide (i = id)) as [->|Hne].
    + rewrite lookup_insert_eq in Hi. injection Hi as <-. cbn [referenceCount references].
      rewrite size_empty, decide_True by done.
      assert (children (layerMap s) id = 0 ∧ mounted (mounts s) id = 0 ∧ occ id pend = 0) as (-> & -> & ->).
      { split_and!; apply Nat.le_0_r, Nat.nlt_ge; intros Hpos.
        - apply mcount_pos in Hpos as (k & x & Hk & Hx). rewrite bool_decide_eq_true in Hx. by apply (Hsome id); [eapply H4|].
        - apply mcount_pos in Hpos as (k & x & Hk & Hx). rewrite bool_decide_eq_true in Hx. apply (Hsome id); [|done].
          destruct (H5 k x Hk) as (_ & H & _). by apply H.
        - apply occ_pos in Hpos. apply (Hsome id); [|done]. apply H6. apply elem_of_app. by right. }
      case_bool_decide as Hb; [|lia]. exfalso. destruct p as [q|]; simplify_eq.
      apply (Hsome id); [|done]. apply H6. by left.
    + rewrite lookup_insert_ne in Hi by done. rewrite (H1 i li Hi), (decide_False (P := id = i)) by congruence.
      destruct p as [q|]; simpl; [|lia].
      rewrite occ_cons. case_bool_decide; case_decide; simplify_eq; lia.
  - intros i li n Hi. destruct (decide (i = id)) as [->|]; simplify_map_eq; [|by eapply H2]. set_solver.
  - intros i li Hi. destruct (decide (i = id)) as [->|]; simplify_map_eq; [done|by apply H3].
  - intros i li q Hi Hq. apply Hins. destruct (decide (i = id)) as [->|]; simplify_map_eq; [|by eapply H4].
    apply H6. simpl. by left.
  - intros n m Hm. destruct (H5 n m Hm) as (? & ? & ?). split_and!; [done| |done]. eauto.
  - intros q [->|Hq]%elem_of_cons; [by rewrite lookup_insert_eq; eexists|]. apply Hins, H6. apply elem_of_app. by right.
  - exists (fun x => if decide (x = id) then match p with None => 1 | Some q => S (rk q) end else rk x).
    intros i li Hi. destruct (decide (i = id)) as [->|Hne]; simplify_map_eq.
    + destruct p as [q|]; [|by unfold maxLayerDepth; split; [|lia]].
      rewrite (decide_False (P := q = id)) by (apply Hsome, H6; by left). split; [done|]. by apply Hrk.
    + destruct (H7 i li Hi) as [-> Hle]. split; [|].
      * destruct (parent li) as [q|] eqn:Eq; [|done]. rewrite decide_False; [done|]. apply Hsome. by eapply H4.
      * destruct (H7 i li Hi) as [E ?]. by rewrite <-E.
Qed.
End moves.

Section mount_moves.
Implicit Types (s : layerStore) (pend : list ChainID) (m : mountedLayer).

Lemma inv_mount_new s pend name id i p :
  inv s (option_list p ++ pend) → mounts s !! name = None → inv (set_mount name (mkMounted name id i p ∅) s) pend.
Proof.
  intros [H1 H2 H3 H4 H5 H6 H7] Hn. split; simpl; try done.
  - intros k l Hk. rewrite (H1 k l Hk). unfold mounted. rewrite mcount_new by done. simpl.
    destruct p as [q|]; simpl; [|lia]. rewrite occ_cons. case_bool_decide; case_decide; simplify_eq; lia.
  - intros n m Hm. destruct (decide (n = name)) as [->|]; simplify_map_eq; [|by apply H5].
    split_and!; [done| |]; intros; simplify_map_eq. apply H6. by left.
  - intros q Hq. apply H6. apply elem_of_app. by right.
Qed.

Lemma inv_mount_del s pend name m :
  inv s pend → mounts s !! name = Some m →
  inv (mkLayers (layerMap s) (delete name (mounts s)) (next s)) (option_list (m_parent m) ++ pend).
Proof.
  intros [H1 H2 H3 H4 H5 H6 H7] Hn. split; simpl; try done.
  - intros k l Hk. rewrite (H1 k l Hk). unfold mounted. rewrite (mcount_delete _ (mounts s) name m Hn).
    destruct (m_parent m) as [q|]; simpl; [|lia]. rewrite occ_cons. case_bool_decide; case_decide; simplify_eq; lia.
  - intros n m' Hm. apply lookup_delete_Some in Hm as [_ Hm]. by apply H5.
  - intros q [Hq|Hq]%elem_of_app; [|by apply H6]. apply list_elem_of_option_list in Hq.
    destruct (H5 name m Hn) as (_ & H & _). by apply H.
Qed.

(** Changing the references of a mount, possibly with an allocation. *)
Lemma inv_mount_refs s pend name m r n' :
  inv s pend → mounts s !! name = Some m → next s ≤ n' →
  (∀ k a, r !! k = Some a → k < n' ∧ (0 ≤ a)%Z) →
  inv (mkLayers (layerMap s) (<[name := set_mrefs r m]> (mounts s)) n') pend.
Proof.
  intros [H1 H2 H3 H4 H5 H6 H7] Hn Hle Hr. split; simpl; try done.
  - intros k l Hk. rewrite (H1 k l Hk). unfold mounted. by rewrite (mcount_insert _ _ _ _ m).
  - intros. apply Nat.lt_le_trans with (next s); eauto.
  - intros k m' Hm. destruct (H5 name m Hn) as (? & ? & ?). destruct (decide (k = name)) as [->|]; simplify_map_eq; [done|].
    destruct (H5 k m' Hm) as (? & ? & H). split_and!; [done..|]. intros j a Hj. destruct (H j a Hj). lia.
Qed.
Lemma inv_mount_alter s pend name f n' :
  inv s pend → next s ≤ n' →
  (∀ m, mounts s !! name = Some m → ∀ k a, f m !! k = Some a → k < n' ∧ (0 ≤ a)%Z) →
  inv (mkLayers (layerMap s) (alter (fun m => set_mrefs (f m) m) name (mounts s)) n') pend.
Proof.
  intros Hinv Hle Hf. destruct (mounts s !! name) as [m|] eqn:Hm.
  - assert (alter (fun m => set_mrefs (f m) m) name (mounts s) = <[name := set_mrefs (f m) m]> (mounts s)) as ->.
    { apply map_eq. intros i. destruct (decide (i = name)) as [->|].
      - by rewrite lookup_alter_eq, Hm, lookup_insert_eq.
      - by rewrite lookup_alter_ne, lookup_insert_ne. }
    apply inv_mount_refs; [done|done|done|]. intros k a. by apply Hf.
  - rewrite alter_id by (intros; congruence). destruct Hinv as [H1 H2 H3 H4 H5 H6 H7]. split; simpl; try done.
    + intros. apply Nat.lt_le_trans with (next s); eauto.
    + intros k m' Hm'. destruct (H5 k m' Hm') as (? & ? & H). split_and!; [done..|]. intros j a Hj. destruct (H j a Hj). lia.
Qed.
End mount_moves.

(** ** Releasing *)

(** Only counts change. *)
Definition same_layer (l l' : roLayer) : Prop := ∃ n, l' = set_count n l.
Definition live (s : layerStore) : Prop := ∀ i l, layerMap s !! i = Some l → 0 < referenceCount l.

(** What a release does: [removed] lists the layers that are gone, the others are kept up to
    their counts; it does not panic; and no garbage is left if all removals succeed. *)
Record released_as (io : ChainID → bool) (s s' : layerStore) (before : list Metadata) (x : released) : Prop := {
  rel_result : (∃ l, x = Removed (before ++ l) ∧
      ∀ i, i ∈ md_ChainID <$> l ↔ is_Some (layerMap s !! i) ∧ layerMap s' !! i = None) ∨
    (x = NotRemoved ErrDriver ∧ ∃ i, io i = false);
  rel_kept i l' : layerMap s' !! i = Some l' → ∃ l, layerMap s !! i = Some l ∧ same_layer l l';
  rel_mounts : mounts s' = mounts s ∧ next s' = next s;
  rel_live : (∀ i, io i = true) → live s → live s'
}.

Lemma same_layer_refl l : same_layer l l.
Proof. exists (referenceCount l). by destruct l. Qed.
Lemma same_layer_trans l1 l2 l3 : same_layer l1 l2 → same_layer l2 l3 → same_layer l1 l3.
Proof. intros [n ->] [k ->]. by exists k. Qed.
Lemma set_layer_kept id l l' s i li :
  layerMap s !! id = Some l → same_layer l l' → layerMap (set_layer id l' s) !! i = Some li →
  ∃ l, layerMap s !! i = Some l ∧ same_layer l li.
Proof.
  intros Hid Hs. simpl. destruct (decide (i = id)) as [->|]; intros; simplify_map_eq; eauto using same_layer_refl.
Qed.

Lemma releaseLayer_spec fuel io id depth removed s pend s' x :
  inv s (id :: pend) → size (layerMap s) ≤ fuel → (0 < depth → removed ≠ []) →
  releaseLayer fuel io id depth removed s = (s', x) →
  inv s' pend ∧ released_as io s s' removed x.
Proof.
  revert id depth removed s pend. induction fuel as [|fuel IH]; intros id depth removed s pend Hinv Hfuel Hd.
  { destruct (inv_pend _ _ Hinv id) as [l Hl]; [by left|]. apply Nat.le_0_r, map_size_empty_inv in Hfuel.
    by rewrite Hfuel in Hl. }
  destruct (inv_pend _ _ Hinv id) as [l Hl]; [by left|]. cbn [releaseLayer]. rewrite Hl.
  pose proof (inv_count_pos _ _ _ _ Hinv Hl) as Hpos. destruct (referenceCount l) as [|n] eqn:Hn; [lia|].
  pose proof (inv_dec _ _ _ _ _ Hinv Hl Hn) as Hdec.
  assert (Hsame : same_layer l (set_count n l)) by (by eexists).
  assert (Hl' : layerMap (set_layer id (set_count n l) s) !! id = Some (set_count n l)) by (simpl; by simplify_map_eq).
  assert (Hkept : ∀ i, is_Some (layerMap s !! i) → is_Some (layerMap (set_layer id (set_count n l) s) !! i)).
  { intros i Hi. simpl. destruct (decide (i = id)) as [->|]; simplify_map_eq; [by eexists|done]. }
  destruct (Nat.eqb_spec n 0) as [->|Hn0]; simpl negb; cbn iota.
  2: { intros [= <- <-]. split; [done|]. split; [|by intros i li Hi; eapply set_layer_kept|done|].
    - left. exists []. rewrite app_nil_r. split; [done|]. intros i. split; [intros Hi; by apply elem_of_nil in Hi|].
      intros [Hi Hno]. apply Hkept in Hi as [? Hi]. congruence.
    - intros _ Hlive i li. simpl. destruct (decide (i = id)) as [->|]; intros; simplify_map_eq; [simpl; lia|by eapply Hlive]. }
  assert (bool_decide (removed = []) && Nat.ltb 0 depth = false) as ->.
  { destruct (Nat.ltb_spec 0 depth); [|by rewrite andb_false_r]. by rewrite bool_decide_eq_false_2 by auto. }
  pose proof (inv_count _ _ Hdec id _ Hl') as Hzero. simpl in Hzero.
  assert (Hrefs : references l = ∅) by (apply leibniz_equiv, size_empty_iff; lia).
  unfold hasReferences. simpl references. rewrite Hrefs, bool_decide_eq_true_2 by done. simpl negb. cbn iota.
  destruct (io id) eqn:Hio; simpl negb; cbn iota.
  2: { intros [= <- <-]. split; [done|]. split; [by eauto|by intros i li Hi; eapply set_layer_kept|done|].
    intros Hall. by rewrite Hall in Hio. }
  pose proof (inv_del _ _ _ _ Hdec Hl' eq_refl) as Hdel. simpl parent in *.
  destruct (inv_id _ _ Hinv id l Hl) as [Hid _].
  set (s1 := set_layer id (set_count 0 l) s) in *.
  assert (Hs1 : ∀ i li, layerMap (del_layer id s1) !! i = Some li → i ≠ id ∧ layerMap s !! i = Some li).
  { intros i li Hi. simpl in Hi. apply lookup_delete_Some in Hi as [? Hi]. by rewrite lookup_insert_ne in Hi. }
  assert (Hlive1 : live s → live (del_layer id s1)). { intros Hlive i li Hi%Hs1. by eapply Hlive, Hi. }
  destruct (parent l) as [p|] eqn:Hp.
  - intros Hr. apply (IH _ _ _ _ pend) in Hr; [|done| |intros _; by destruct removed].
    2: { simpl. rewrite delete_insert_eq. rewrite map_size_delete_Some by (by eexists). lia. }
    destruct Hr as [Hinv' [Hres Hk Hm Hlv]]. split; [done|]. split.
    + destruct Hres as [(ms & -> & Hms)|[-> He]]; [left|by right].
      exists (deleteLayer (layerMap s1) (set_count 0 l) :: ms). split; [by rewrite <-(assoc_L app)|].
      intros i. rewrite fmap_cons, elem_of_cons, Hms. simpl md_ChainID. rewrite Hid. simpl.
      destruct (decide (i = id)) as [->|Hne].
      * split; [|by left]. intros _. split; [by eexists|]. destruct (layerMap s' !! id) as [li|] eqn:E; [|done].
        apply Hk in E as (? & E & _). apply Hs1 in E. naive_solver.
      * rewrite lookup_delete_ne, lookup_insert_ne by done. naive_solver.
    + intros i li Hi. apply Hk in Hi as (li' & Hi & Hsm). apply Hs1 in Hi as [_ Hi]. eauto.
    + done.
    + intros Hall Hlive. apply Hlv; auto.
  - intros [= <- <-]. split; [done|]. split; [|intros i li Hi; apply Hs1 in Hi as [_ Hi]; eauto using same_layer_refl|done|auto].
    left. eexists [_]. split; [done|]. intros i. rewrite fmap_cons, elem_of_cons. simpl. rewrite Hid.
    destruct (decide (i = id)) as [->|Hne].
    + split; [|by left]. intros _. split; [by eexists|]. by rewrite lookup_delete_eq.
    + rewrite lookup_delete_ne, lookup_insert_ne by done. split; [intros [?|?%elem_of_nil]; done|].
      intros [[? E] ?]. congruence.
Qed.

(** ** The operations *)

Definition same_parents (m m' : gmap ChainID roLayer) : Prop :=
  ∀ i l l', m !! i = Some l → m' !! i = Some l' → parent l' = parent l.
Definition kept (s s' : layerStore) : Prop :=
  ∀ i l', layerMap s' !! i = Some l' → ∃ l, layerMap s !! i = Some l ∧ same_layer l l'.
Definition collects (io : ChainID → bool) (s s' : layerStore) : Prop := (∀ i, io i = true) → live s → live s'.

(** An operation that leaves the invariant, the parents of layers and the absence of garbage
    as they are. *)
Record step_ok (io : ChainID → bool) (s s' : layerStore) (pend' : list ChainID) : Prop := {
  ok_inv : inv s' pend';
  ok_parents : same_parents (layerMap s) (layerMap s');
  ok_collects : collects io s s'
}.
#[export] Hint Resolve ok_inv ok_parents ok_collects : layers.

Section operations.
Implicit Types (s : layerStore) (pend : list ChainID) (io : ChainID → bool).

Lemma same_parents_kept s s' : kept s s' → same_parents (layerMap s) (layerMap s').
Proof. intros Hk i l l' Hl Hl'. apply Hk in Hl' as (l0 & H0 & n & ->). by simplify_eq. Qed.
(** A step that keeps every layer, then one that only drops layers. *)
Lemma same_parents_trans s s1 s2 :
  (∀ i, is_Some (layerMap s !! i) → is_Some (layerMap s1 !! i)) → same_parents (layerMap s) (layerMap s1) → kept s1 s2 →
  same_parents (layerMap s) (layerMap s2).
Proof.
  intros Hdom H1 Hk i l l2 Hl Hl2. apply Hk in Hl2 as (l1 & Hl1 & n & ->). simpl. by eapply H1.
Qed.

Lemma release_spec io id s pend s' x :
  inv s (id :: pend) → release io id s = (s', x) → inv s' pend ∧ released_as io s s' [] x.
Proof. intros Hinv. apply releaseLayer_spec; [done|lia|lia]. Qed.

Lemma release_parent_spec {A} io p (a : A) s pend s' y :
  inv s (option_list p ++ pend) → release_parent io p a s = (s', y) →
  y = inl a ∧ inv s' pend ∧ kept s s' ∧ collects io s s'.
Proof.
  intros Hinv. unfold release_parent. destruct p as [p|].
  - destruct (release io p s) as [s1 x] eqn:E. apply (release_spec _ _ _ pend) in E as [Hi Hr]; [|done].
    assert (Hx : (∃ l, x = Removed l) ∨ ∃ e, x = NotRemoved e).
    { destruct (rel_result _ _ _ _ _ Hr) as [(l & -> & _)|[-> _]]; eauto. }
    destruct Hx as [[l ->]|[e ->]]; simpl; intros [= <- <-]; (split_and!; [done|done|exact (rel_kept _ _ _ _ _ Hr)|exact (rel_live _ _ _ _ _ Hr)]).
  - intros [= <- <-]. split_and!; [done|done| |by intros ?]. intros i l' Hl. eauto using same_layer_refl.
Qed.

(** The steps that keep every layer. *)
Definition keeps s s' : Prop := (∀ i, is_Some (layerMap s !! i) → is_Some (layerMap s' !! i)) ∧
  same_parents (layerMap s) (layerMap s') ∧ (live s → live s').

Lemma keeps_refl s : keeps s s.
Proof. split_and!; [done| |done]. intros i l l' H1 H2. by simplify_eq. Qed.
Lemma keeps_trans s1 s2 s3 : keeps s1 s2 → keeps s2 s3 → keeps s1 s3.
Proof.
  intros (D1 & P1 & L1) (D2 & P2 & L2). split_and!; [auto| |auto]. intros i l l' Hl Hl'.
  destruct (D1 i) as [l1 Hl1]; [by eexists|]. etransitivity; [by eapply P2|by eapply P1].
Qed.
Lemma keeps_ok io s s' pend' : keeps s s' → inv s' pend' → step_ok io s s' pend'.
Proof. intros (? & ? & ?) ?. by split; [done..|intros ?]. Qed.
Lemma keeps_set s id l l' :
  layerMap s !! id = Some l → parent l' = parent l → (0 < referenceCount l → 0 < referenceCount l') → keeps s (set_layer id l' s).
Proof.
  intros Hl Hp Hc. split_and!.
  - intros i Hi. simpl. destruct (decide (i = id)) as [->|]; simplify_map_eq; [by eexists|done].
  - intros i li li' Hi. simpl. destruct (decide (i = id)) as [->|]; intros; simplify_map_eq; congruence.
  - intros Hlive i li. simpl. destruct (decide (i = id)) as [->|]; intros; simplify_map_eq; [by eapply Hc, Hlive|by eapply Hlive].
Qed.
Lemma keeps_new s id l : layerMap s !! id = None → 0 < referenceCount l → keeps s (set_layer id l s).
Proof.
  intros Hl Hc. split_and!.
  - intros i Hi. simpl. destruct (decide (i = id)) as [->|]; simplify_map_eq; [by eexists|done].
  - intros i li li' Hi. simpl. destruct (decide (i = id)) as [->|]; intros; simplify_map_eq; congruence.
  - intros Hlive i li. simpl. destruct (decide (i = id)) as [->|]; intros; simplify_map_eq; [done|by eapply Hlive].
Qed.
Lemma keeps_getReference s id : keeps s (getReference id s).1.
Proof.
  split_and!; simpl.
  - intros i Hi. by apply lookup_alter_is_Some.
  - intros i l l' Hl Hl'. simpl in Hl'. destruct (decide (i = id)) as [->|].
    + rewrite lookup_alter_eq, Hl in Hl'. by simplify_eq/=.
    + rewrite lookup_alter_ne in Hl' by done. by simplify_eq.
  - intros Hlive i l Hl. simpl in Hl. destruct (decide (i = id)) as [->|].
    + rewrite lookup_alter_eq in Hl. apply fmap_Some in Hl as (l0 & Hl & ->). by apply (Hlive id l0).
    + rewrite lookup_alter_ne in Hl by done. by eapply Hlive.
Qed.
Lemma getWithoutLock_spec id s pend s1 :
  inv s pend → getWithoutLock id s = Some s1 → inv s1 (id :: pend) ∧ keeps s s1 ∧ mounts s1 = mounts s.
Proof.
  intros Hinv. unfold getWithoutLock. destruct (layerMap s !! id) as [l|] eqn:Hl; [|done]. intros [= <-].
  split_and!; [by apply inv_inc|by eapply keeps_set; simpl; [done|done|lia]|done].
Qed.

Lemma keeps_kept io s s1 s2 pend' : keeps s s1 → kept s1 s2 → collects io s1 s2 → inv s2 pend' → step_ok io s s2 pend'.
Proof.
  intros (D & P & L) Hk Hc Hi. split; [done|by eapply same_parents_trans|]. intros Hall Hl. by apply Hc, L.
Qed.
End operations.
#[export] Hint Resolve keeps_refl keeps_trans keeps_new keeps_getReference keeps_ok : layers.

Lemma released_no_crash io s s' before x : released_as io s s' before x → crash x = false.
Proof. intros H. by destruct (rel_result _ _ _ _ _ H) as [(l & -> & _)|[-> _]]. Qed.

Section operations_ok.
Implicit Types (s : layerStore) (pend : list ChainID) (io : ChainID → bool).

Lemma Get_ok io id s pend : inv s pend → step_ok io s (Get id s).1 pend.
Proof.
  intros Hinv. unfold Get. destruct (getWithoutLock id s) as [s1|] eqn:E; [|by apply keeps_ok, Hinv; apply keeps_refl].
  apply (getWithoutLock_spec _ _ pend) in E as (H1 & H2 & _); [|done]. simpl. apply keeps_ok.
  - by eapply keeps_trans, keeps_getReference.
  - by apply inv_getReference.
Qed.

Lemma release_ok io id s s1 pend s' x :
  keeps s s1 → inv s1 (id :: pend) → release io id s1 = (s', x) → step_ok io s s' pend ∧ crash x = false ∧ mounts s' = mounts s1.
Proof.
  intros Hk Hinv Hr. apply (release_spec _ _ _ pend) in Hr as [Hi Hr]; [|done].
  split_and!; [|by eapply released_no_crash|by apply (rel_mounts _ _ _ _ _ Hr)].
  by eapply keeps_kept; [|exact (rel_kept _ _ _ _ _ Hr)|exact (rel_live _ _ _ _ _ Hr)|].
Qed.
Lemma Release_ok io ref s pend s' x :
  inv s pend → Release io ref s = (s', x) → step_ok io s s' pend ∧ crash x = false ∧ mounts s' = mounts s.
Proof.
  intros Hinv. unfold Release. destruct (layerMap s !! ref.1) as [l|] eqn:Hl.
  2: { intros [= <- <-]. split_and!; [by apply keeps_ok; [apply keeps_refl|]|done|done]. }
  unfold hasReference. case_bool_decide as Hn; simpl.
  2: { intros [= <- <-]. split_and!; [by apply keeps_ok; [apply keeps_refl|]|done|done]. }
  intros Hr. apply (release_ok io ref.1 s _ pend) in Hr; [done|by eapply keeps_set|by apply inv_unref].
Qed.

Lemma release_parent_ok {A} io p (a : A) s s1 pend s' y :
  keeps s s1 → inv s1 (option_list p ++ pend) → release_parent io p a s1 = (s', y) → step_ok io s s' pend ∧ y = inl a.
Proof.
  intros Hk Hinv Hr. apply (release_parent_spec _ _ _ _ pend) in Hr as (-> & ? & ? & ?); [|done].
  split; [by eapply keeps_kept|done].
Qed.

Lemma pending_app a1 a2 : pending (a1 ++ a2) = pending a1 ++ pending a2.
Proof. apply bind_app. Qed.
Lemma pending_drop b p : pending (to_drop b p) = option_list p.
Proof. by destruct p. Qed.

Lemma Register_begin_ok q s pend s' x :
  inv s pend → Register_begin q s = (s', x) →
  inv s' (pending (begun x) ++ pend) ∧ keeps s s' ∧ mounts s' = mounts s ∧ ∀ p, x = inl (Some p) → depth (layerMap s') p < maxLayerDepth.
Proof.
  intros Hinv. unfold Register_begin. destruct (q =s []); [intros [= <- <-]; split_and!; [done|apply keeps_refl|done|done]|].
  destruct (getWithoutLock q s) as [s1|] eqn:E; [|intros [= <- <-]; split_and!; [done|apply keeps_refl|done|done]].
  apply (getWithoutLock_spec _ _ pend) in E as (H1 & H2 & H3); [|done].
  destruct (Nat.leb_spec maxLayerDepth (depth (layerMap s1) q)) as [Hd|Hd]; intros [= <- <-]; (split_and!; [done|done|done|]).
  - done.
  - by intros p [= <-].
Qed.

Lemma Register_end_ok r p s pend s' res drop :
  inv s (option_list p ++ pend) → (∀ q, p = Some q → depth (layerMap s) q < maxLayerDepth) →
  Register_end r p s = (s', (res, drop)) → inv s' (option_list drop ++ pend) ∧ keeps s s' ∧ mounts s' = mounts s.
Proof.
  intros Hinv Hdepth. unfold Register_end.
  assert (Hfail : ∀ (e : result error (ChainID * nat)) s' x, (s, (e, p)) = (s', (x, drop)) →
    inv s' (option_list drop ++ pend) ∧ keeps s s' ∧ mounts s' = mounts s).
  { intros e s2 x2 [= <- <- <-]. split_and!; [done|apply keeps_refl|done]. }
  destruct (r_Create r); simpl negb; cbn iota; [|apply Hfail].
  destruct (r_StartTransaction r); simpl negb; cbn iota; [|apply Hfail].
  destruct (r_applyTar r) as [[d z]|]; [|apply Hfail].
  destruct (r_storeLayer r); simpl negb; cbn iota; [|apply Hfail].
  set (id := match p with None => d | Some _ => _ end).
  destruct (getWithoutLock id s) as [s1|] eqn:E.
  - apply (getWithoutLock_spec _ _ (option_list p ++ pend)) in E as (H1 & H2 & H3); [|done].
    apply inv_getReference in H1. intros [= <- <- <-]. split_and!; [done| |done].
    eapply keeps_trans; [done|]. apply (keeps_getReference s1 id).
  - assert (Hid : layerMap s !! id = None) by (unfold getWithoutLock in E; by destruct (layerMap s !! id)).
    destruct (r_Commit r); simpl negb; cbn iota; [|apply Hfail]. intros [= <- <- <-]. split_and!; [| |done].
    + apply (inv_getReference (set_layer id (mkLayer id d p (r_cacheID r) z 1 ∅) s)), inv_new; done.
    + eapply keeps_trans; [|apply (keeps_getReference (set_layer id (mkLayer id d p (r_cacheID r) z 1 ∅) s) id)].
      apply keeps_new; [done|simpl; lia].
Qed.

Lemma keeps_layers s s' : layerMap s' = layerMap s → keeps s s'.
Proof. intros E. unfold keeps, live. rewrite E. apply keeps_refl. Qed.
Lemma m_getReference_inv name s pend : inv s pend → inv (m_getReference name s).1 pend.
Proof.
  intros Hinv. apply (inv_mount_alter _ _ _ (fun m => <[next s := 0%Z]> (m_references m)) _ Hinv); [lia|].
  intros m Hm k a. destruct (decide (k = next s)) as [->|]; intros; simplify_map_eq; [lia|].
  destruct (inv_mount _ _ Hinv _ _ Hm) as (_ & _ & Hz). destruct (Hz k a); [done|lia].
Qed.
Lemma CreateRWLayer_begin_ok name q s pend s' x :
  inv s pend → CreateRWLayer_begin name q s = (s', x) →
  inv s' (pending (creating name x) ++ pend) ∧ keeps s s' ∧ ∀ p, x = inl p → mounts s' !! name = None.
Proof.
  intros Hinv. unfold CreateRWLayer_begin. destruct (mounts s !! name) eqn:Hm; [intros [= <- <-]; split_and!; [done|apply keeps_refl|done]|].
  destruct (q =s []); [intros [= <- <-]; split_and!; [done|apply keeps_refl|done]|].
  destruct (getWithoutLock q s) as [s1|] eqn:E; [|intros [= <- <-]; split_and!; [done|apply keeps_refl|done]].
  apply (getWithoutLock_spec _ _ pend) in E as (H1 & H2 & H3); [|done]. intros [= <- <-]. split_and!; [done|done|]. intros. by rewrite H3.
Qed.
Lemma CreateRWLayer_end_ok id f c sv name p s pend s' res drop :
  inv s (option_list p ++ pend) → mounts s !! name = None → CreateRWLayer_end id f c sv name p s = (s', (res, drop)) →
  inv s' (option_list drop ++ pend) ∧ keeps s s'.
Proof.
  intros Hinv Hn. unfold CreateRWLayer_end.
  assert (Hfail : ∀ (e : result error (gostring * nat)) s' x, (s, (e, p)) = (s', (x, drop)) → inv s' (option_list drop ++ pend) ∧ keeps s s').
  { intros e s2 x2 [= <- <- <-]. split; [done|apply keeps_refl]. }
  assert (Hgood : ∀ i, let s' := (m_getReference name (set_mount name (mkMounted name id i p ∅) s)).1 in inv s' pend ∧ keeps s s').
  { intros i. split; [by apply m_getReference_inv, inv_mount_new|by apply keeps_layers]. }
  destruct f as [[]|]; [|apply Hfail|]; (destruct c; simpl negb; cbn iota; [|apply Hfail]);
    (destruct sv; simpl negb; cbn iota; [|apply Hfail]); intros [= <- <- <-]; apply Hgood.
Qed.
Lemma GetRWLayer_ok io name s pend : inv s pend → step_ok io s (GetRWLayer name s).1 pend.
Proof.
  intros Hinv. unfold GetRWLayer. destruct (mounts s !! name); [|by apply keeps_ok; [apply keeps_refl|]].
  apply keeps_ok; [by apply keeps_layers|]. by apply m_getReference_inv.
Qed.
Lemma set_activity_ok io ref n s pend : inv s pend → (0 ≤ n)%Z → activityCount ref s ≠ (-1)%Z → step_ok io s (set_activity ref n s) pend.
Proof.
  intros Hinv Hn Ha. apply keeps_ok; [by apply keeps_layers|].
  apply (inv_mount_alter _ _ _ (fun m => <[ref.2 := n]> (m_references m)) _ Hinv); [lia|].
  intros m Hm k a. destruct (inv_mount _ _ Hinv _ _ Hm) as (_ & _ & H).
  destruct (decide (k = ref.2)) as [->|]; intros; simplify_map_eq; [|by apply H].
  unfold activityCount in Ha. rewrite Hm in Ha. simpl in Ha.
  destruct (m_references m !! ref.2) as [z|] eqn:E; [|done]. destruct (H _ _ E). lia.
Qed.
Lemma activityCount_ge ref s pend : inv s pend → (activityCount ref s = -1 ∨ 0 ≤ activityCount ref s)%Z.
Proof.
  intros Hinv. unfold activityCount. destruct (mounts s !! ref.1) as [m|] eqn:Hm; [|by left]. simpl.
  destruct (m_references m !! ref.2) as [z|] eqn:E; [|by left]. right. simpl.
  destruct (inv_mount _ _ Hinv _ _ Hm) as (_ & _ & H). by destruct (H _ _ E).
Qed.
Lemma Mount_ok io b ref s pend : inv s pend → step_ok io s (Mount b ref s).1 pend.
Proof.
  intros Hinv. unfold Mount. pose proof (activityCount_ge ref s pend Hinv).
  destruct (Z.eqb_spec (activityCount ref s) (-1)); [by apply keeps_ok; [apply keeps_refl|]|].
  apply set_activity_ok; [done|lia|done].
Qed.
Lemma Unmount_ok io b ref s pend : inv s pend → step_ok io s (Unmount b ref s).1 pend.
Proof.
  intros Hinv. unfold Unmount. pose proof (activityCount_ge ref s pend Hinv).
  destruct (Z.eqb_spec (activityCount ref s) 0); [by apply keeps_ok; [apply keeps_refl|]|].
  destruct (Z.eqb_spec (activityCount ref s) (-1)); [by apply keeps_ok; [apply keeps_refl|]|].
  apply set_activity_ok; [done|lia|done].
Qed.
Lemma ReleaseRWLayer_begin_ok ref s pend s' x :
  inv s pend → ReleaseRWLayer_begin ref s = (s', x) →
  inv s' (pending (removing x) ++ pend) ∧ keeps s s' ∧ crashes x = false ∧ ∀ name, x = inl name → is_Some (mounts s' !! name).
Proof.
  intros Hinv. unfold ReleaseRWLayer_begin. destruct (mounts s !! ref.1) as [m|] eqn:Hm.
  2: { intros [= <- <-]. split_and!; [done|apply keeps_refl|done|done]. }
  destruct (m_deleteReference ref.2 m) as [m1|e] eqn:Ed.
  2: { intros [= <- <-]. split_and!; [done|apply keeps_refl|done|done]. }
  assert (Hm1 : m1 = set_mrefs (delete ref.2 (m_references m)) m).
  { unfold m_deleteReference in Ed. destruct (m_references m !! ref.2); [|done]. destruct (0 <? z)%Z; congruence. }
  assert (Hi1 : inv (set_mount ref.1 m1 s) pend).
  { rewrite Hm1. apply (inv_mount_refs _ _ _ _ _ _ Hinv Hm); [lia|]. intros k z [_ Hk]%lookup_delete_Some.
    destruct (inv_mount _ _ Hinv _ _ Hm) as (_ & _ & H). by apply H. }
  assert (Hk1 : keeps s (set_mount ref.1 m1 s)) by (by apply keeps_layers).
  case_bool_decide; simpl negb; cbn iota; intros [= <- <-]; (split_and!; [done|done|done|]); [|done].
  intros name [= <-]. simpl. rewrite lookup_insert_eq. by eexists.
Qed.
Lemma ReleaseRWLayer_end_ok a b c name s pend s' x :
  inv s pend → is_Some (mounts s !! name) → ReleaseRWLayer_end a b c name s = (s', x) →
  inv s' (pending (unmounted x) ++ pend) ∧ keeps s s' ∧ crashes x = false.
Proof.
  intros Hinv [m Hm]. unfold ReleaseRWLayer_end. rewrite Hm.
  destruct a; simpl negb; cbn iota; [|intros [= <- <-]; split_and!; [done|apply keeps_refl|done]].
  destruct (negb (initID m =s []) && negb b); [intros [= <- <-]; split_and!; [done|apply keeps_refl|done]|].
  destruct c; simpl negb; cbn iota; [|intros [= <- <-]; split_and!; [done|apply keeps_refl|done]].
  destruct (inv_mount _ _ Hinv _ _ Hm) as (-> & _). pose proof (inv_mount_del _ _ _ _ Hinv Hm) as Hdel.
  destruct (m_parent m) as [p|]; intros [= <- <-]; (split_and!; [exact Hdel|by apply keeps_layers|done]).
Qed.
End operations_ok.

(** ** Reachable states *)

Definition same_mounts (s s' : layerStore) : Prop := ∀ n, is_Some (mounts s' !! n) ↔ is_Some (mounts s !! n).
Lemma same_mounts_eq s s' : mounts s' = mounts s → same_mounts s s'.
Proof. by intros E n; rewrite E. Qed.
Lemma set_activity_mounts ref n s : same_mounts s (set_activity ref n s).
Proof. intros k. apply lookup_alter_is_Some. Qed.
Lemma Mount_mounts b ref s : same_mounts s (Mount b ref s).1.
Proof. unfold Mount. case_match; [done|apply set_activity_mounts]. Qed.
Lemma Unmount_mounts b ref s : same_mounts s (Unmount b ref s).1.
Proof. unfold Unmount. do 2 (case_match; [done|]). apply set_activity_mounts. Qed.

(** What an operation under way relies on: the depth that it checked, and what it found
    under the lock that it still holds. *)
Definition act_ok (s : layerStore) (a : activity) : Prop :=
  match a with
  | Registering (Some p) => depth (layerMap s) p < maxLayerDepth
  | Creating name _ => mounts s !! name = None
  | Removing name => is_Some (mounts s !! name)
  | _ => True
  end.
Record sys_ok (x : system) : Prop := {
  sys_inv : inv x.1 (pending x.2);
  sys_acts : Forall (act_ok x.1) x.2;
  sys_lock : mount_locks x.2 ≤ 1
}.

Lemma mount_locks_app a1 a2 : mount_locks (a1 ++ a2) = mount_locks a1 + mount_locks a2.
Proof. unfold mount_locks. by rewrite filter_app, length_app. Qed.
#[export] Instance pending_proper : Proper ((≡ₚ) ==> (≡ₚ)) pending.
Proof. intros a1 a2 Ha. unfold pending. by rewrite Ha. Qed.
#[export] Instance mount_locks_proper : Proper ((≡ₚ) ==> eq) mount_locks.
Proof. intros a1 a2 Ha. unfold mount_locks. by rewrite Ha. Qed.
Lemma mount_locks_none acts a : mount_locks acts = 0 → a ∈ acts → locks_mounts a = false.
Proof.
  unfold mount_locks. intros Hn Ha. apply not_true_iff_false. intros Hl.
  assert (a ∈ filter (fun a => locks_mounts a = true) acts) as Hf by (by apply list_elem_of_filter).
  destruct (filter _ acts); [by apply elem_of_nil in Hf|done].
Qed.

(** The depth of a layer depends on the layers below it only. *)
Lemma depth_same s s' pend pend' :
  inv s pend → inv s' pend' → same_parents (layerMap s) (layerMap s') →
  ∀ fuel i, is_Some (layerMap s !! i) → is_Some (layerMap s' !! i) → depth_ fuel (layerMap s') i = depth_ fuel (layerMap s) i.
Proof.
  intros H1 H2 Hp fuel. induction fuel as [|fuel IH]; intros i [l Hl] [l' Hl']; [done|]. simpl. rewrite Hl, Hl'. simpl.
  rewrite (Hp i l l' Hl Hl'). destruct (parent l) as [p|] eqn:E; [|done]. f_equal. apply IH.
  - by eapply H1.
  - eapply H2; [done|]. by rewrite (Hp i l l' Hl Hl').
Qed.

(** A step that ends the activities [old] and begins [new]. *)
Lemma sys_ok_step io s acts old new acts' s' :
  sys_ok (s, acts) → acts ≡ₚ old ++ acts' → step_ok io s s' (pending new ++ pending acts') →
  Forall (act_ok s') new → mount_locks new ≤ mount_locks old ∨ mount_locks acts = 0 ∧ mount_locks new ≤ 1 →
  mount_locks acts' = 0 ∨ same_mounts s s' →
  sys_ok (s', new ++ acts') ∧ collects io s s'.
Proof.
  intros [Hinv Hacts Hlock] Hperm [Hi Hp Hc] Hnew Hn Hm. simpl in *. split; [|done].
  rewrite Hperm, mount_locks_app in *. split; simpl.
  - by rewrite pending_app.
  - apply Forall_app. split; [done|]. apply Forall_app in Hacts as [_ Hacts]. rewrite Forall_forall in Hacts |- *. intros a Ha.
    specialize (Hacts a Ha). assert (Hmk : locks_mounts a = true → same_mounts s s').
    { destruct Hm as [Hm|]; [|done]. by rewrite (mount_locks_none acts' a Hm Ha). }
    destruct a as [id|[p|]|name p|name|b p]; simpl in *; [done| |done| | |done].
    + assert (p ∈ pending acts') as Hpend by (apply list_elem_of_bind; exists (Registering (Some p)); simpl; split; [by left|done]).
      unfold depth. rewrite (depth_same s s' _ _ Hinv Hi Hp); [done|apply Hinv|apply Hi]; rewrite ?pending_app; apply elem_of_app; by right.
    + destruct (mounts s' !! name) eqn:E; [|done]. destruct (proj1 (Hmk eq_refl name)) as [? E']; [by rewrite E; eexists|]. congruence.
    + by apply Hmk.
  - rewrite mount_locks_app. lia.
Qed.

Lemma to_drop_ok s b p : Forall (act_ok s) (to_drop b p).
Proof. destruct p; repeat constructor. Qed.
Lemma to_drop_locks b p : mount_locks (to_drop b p) ≤ if b then 1 else 0.
Proof. destruct p, b; unfold mount_locks; simpl; lia. Qed.
(** Nobody else holds the lock of the mounts. *)
Lemma lock_alone s a acts acts' : sys_ok (s, acts) → acts ≡ₚ a :: acts' → locks_mounts a = true → mount_locks acts' = 0.
Proof.
  intros Hok Hp Ha. pose proof (sys_lock _ Hok) as Hl. simpl in Hl. rewrite Hp in Hl. unfold mount_locks in *.
  rewrite filter_cons_True in Hl by done. simpl in Hl. lia.
Qed.

(** Applies [sys_ok_step]; what is left of its conditions is not immediate. *)
Ltac by_step old new :=
  match goal with Hok : sys_ok (?s, ?acts) |- sys_ok (?s', _) ∧ _ ∧ collects ?io _ _ =>
    match goal with
    | Hp : acts ≡ₚ _ :: ?acts' |- _ => destruct (sys_ok_step io s acts old new acts' s' Hok Hp) as [Hnew Hcol]
    | _ => destruct (sys_ok_step io s acts old new acts s' Hok (reflexivity _)) as [Hnew Hcol]
    end
  end; [| | | |split_and!; [assumption|done|assumption]]; try (by auto); try (by constructor; auto);
  try (by apply keeps_ok); try (by right; apply same_mounts_eq); try (by left).

Lemma layer_step_ok io x c y :
  layer_step io x c y → sys_ok x → sys_ok y ∧ c = false ∧ collects io x.1 y.1.
Proof.
  intros Hstep Hok. assert (Hinv := sys_inv _ Hok). assert (Hacts := sys_acts _ Hok).
  destruct Hstep as [id s acts s' Hr|id s acts acts' Hp|ref s acts s' x Hr|q s acts s' x Hr|r p s acts acts' s' res drop Hp Hr|
    b p s acts acts' s' x Hp Hr|name q s acts s' x Hl Hr|id f c sv name p s acts acts' s' res drop Hp Hr|name s acts Hl|b ref s acts|b ref s acts|
    ref s acts s' x Hl Hr|a b c name s acts acts' s' x Hp Hr]; simpl in Hinv, Hacts |- *; try rewrite Hp in Hinv, Hacts.
  - apply (getWithoutLock_spec _ _ (pending acts)) in Hr as (H1 & H2 & H3); [|done].
    by_step (@nil activity) [Getting id].
  - by_step [Getting id] (@nil activity).
    apply keeps_ok; [apply keeps_getReference|]. by apply inv_getReference.
  - apply (Release_ok _ _ _ (pending acts)) in Hr as (? & ? & ?); [|done].
    by_step (@nil activity) (@nil activity).
  - apply (Register_begin_ok _ _ (pending acts)) in Hr as (H1 & H2 & H3 & Hd); [|done].
    by_step (@nil activity) (begun x); destruct x as [[p|]|[e [p|]]]; simpl; auto; apply Forall_singleton; simpl; auto.
  - apply (Register_end_ok _ _ _ (pending acts')) in Hr as (H1 & H2 & H3); [|done|by intros q ->; inversion Hacts].
    by_step [Registering p] (to_drop false drop); [|apply to_drop_ok|left; apply to_drop_locks].
    rewrite pending_drop. by apply keeps_ok.
  - apply (release_ok _ _ s s (pending acts')) in Hr as (? & ? & ?); [|apply keeps_refl|done].
    by_step [Dropping b p] (@nil activity). left. apply Nat.le_0_l.
  - apply (CreateRWLayer_begin_ok _ _ _ (pending acts)) in Hr as (H1 & H2 & H3); [|done].
    by_step (@nil activity) (creating name x); destruct x; simpl; auto; [|right; split; [done|unfold mount_locks; simpl; lia]..].
    apply Forall_singleton. simpl. by eapply H3.
  - apply (CreateRWLayer_end_ok _ _ _ _ _ _ _ (pending acts')) in Hr as (H1 & H2); [|done|by inversion Hacts].
    by_step [Creating name p] (to_drop true drop); [|apply to_drop_ok|left; apply to_drop_locks|left; by eapply lock_alone].
    rewrite pending_drop. by apply keeps_ok.
  - by_step (@nil activity) (@nil activity). by apply GetRWLayer_ok.
  - by_step (@nil activity) (@nil activity); [by apply Mount_ok|right; apply Mount_mounts].
  - by_step (@nil activity) (@nil activity); [by apply Unmount_ok|right; apply Unmount_mounts].
  - apply (ReleaseRWLayer_begin_ok _ _ (pending acts)) in Hr as (H1 & H2 & H3 & H4); [|done].
    by_step (@nil activity) (removing x); destruct x; simpl; auto; [|right; split; [done|unfold mount_locks; simpl; lia]..].
    apply Forall_singleton. simpl. by apply H4.
  - apply (ReleaseRWLayer_end_ok _ _ _ _ _ (pending acts')) in Hr as (H1 & H2 & H3); [|done|by inversion Hacts].
    by_step [Removing name] (unmounted x); [by destruct x; repeat constructor|left; destruct x; unfold mount_locks; simpl; lia|left; by eapply lock_alone].
Qed.

Lemma sys_ok_empty : sys_ok (empty, []).
Proof. split; [apply inv_empty|constructor|simpl; unfold mount_locks; simpl; lia]. Qed.
Lemma reachable_ok x : rtc any_step (empty, []) x → sys_ok x.
Proof.
  intros Hr. apply (rtc_ind_r (fun y => sys_ok y) (empty, [])) in Hr; [done|apply sys_ok_empty|].
  intros y z _ (io & c & Hs) Hy. apply layer_step_ok in Hs as [Hz _]; [exact Hz|exact Hy].
Qed.

(** *** Whole operations *)

(** An operation that nothing interrupts is a sequence of steps. *)
Definition io_step (io : ChainID → bool) (x y : system) : Prop := ∃ c, layer_step io x c y.

Lemma drop_steps {A} io b drop (a : A) s acts : rtc (io_step io) (s, to_drop b drop ++ acts) ((release_parent io drop a s).1, acts).
Proof.
  destruct drop as [p|]; [|apply rtc_refl]. apply rtc_once. unfold release_parent. destruct (release io p s) as [s' x] eqn:E.
  exists (crash x). replace (match x with Removed _ => _ | _ => _ end).1 with s' by (by destruct x). change (to_drop b (Some p) ++ acts) with (Dropping b p :: acts). by eapply step_drop.
Qed.
Lemma Get_steps io id s acts : rtc (io_step io) (s, acts) ((Get id s).1, acts).
Proof.
  unfold Get. destruct (getWithoutLock id s) as [s1|] eqn:E; [|apply rtc_refl].
  eapply rtc_l; [by exists false; apply step_get|]. apply rtc_once. exists false. by apply step_getReference.
Qed.
Lemma Register_steps io r q s acts : rtc (io_step io) (s, acts) ((Register io r q s).1, acts).
Proof.
  unfold Register. destruct (Register_begin q s) as [s1 x] eqn:E.
  eapply rtc_l; [exists false; by apply (step_begin io q s acts s1 x)|]. destruct x as [p|[e drop]]; [|apply (drop_steps _ false)].
  destruct (Register_end r p s1) as [s2 [res drop]] eqn:E2. eapply rtc_l; [|apply (drop_steps _ false)]. exists false.
  by apply (step_end io r p s1 (Registering p :: acts) acts s2 res drop).
Qed.
Lemma CreateRWLayer_steps io id f c sv name q s acts :
  mount_locks acts = 0 → rtc (io_step io) (s, acts) ((CreateRWLayer io id f c sv name q s).1, acts).
Proof.
  intros Hl. unfold CreateRWLayer. destruct (CreateRWLayer_begin name q s) as [s1 x] eqn:E.
  eapply rtc_l; [exists false; by apply (step_create io name q s acts s1 x)|]. destruct x as [p|e]; [|apply rtc_refl].
  destruct (CreateRWLayer_end id f c sv name p s1) as [s2 [res drop]] eqn:E2. eapply rtc_l; [|apply (drop_steps _ true)].
  exists false. by apply (step_created io id f c sv name p s1 (Creating name p :: acts) acts s2 res drop).
Qed.
Lemma ReleaseRWLayer_steps io a b c ref s acts :
  mount_locks acts = 0 → rtc (io_step io) (s, acts) ((ReleaseRWLayer io a b c ref s).1, acts).
Proof.
  intros Hl. unfold ReleaseRWLayer. destruct (ReleaseRWLayer_begin ref s) as [s1 x] eqn:E.
  eapply rtc_l; [exists (crashes x); by apply (step_releaserw io ref s acts s1 x)|]. destruct x as [name|x]; [|apply rtc_refl].
  destruct (ReleaseRWLayer_end a b c name s1) as [s2 x] eqn:E2. eapply rtc_l; [exists (crashes x); by apply (step_removerw io a b c name s1 (Removing name :: acts) acts s2 x)|].
  destruct x as [p|x]; [|apply rtc_refl]. pose proof (drop_steps io true (Some p) tt s2 acts) as Hd. unfold release_parent in Hd.
  destruct (release io p s2) as [s3 [?|?|?|]]; exact Hd.
Qed.
Lemma io_any io x y : rtc (io_step io) x y → rtc any_step x y.
Proof. induction 1 as [|? ? ? [c Hs] _ IH]; [done|]. eapply rtc_l; [|exact IH]. by exists io, c. Qed.
Lemma io_good io x y : (∀ i, io i = true) → rtc (io_step io) x y → rtc good_step x y.
Proof. intros Hio. induction 1 as [|? ? ? [c Hs] _ IH]; [done|]. eapply rtc_l; [|exact IH]. by exists io, c. Qed.

(** The reference that [Get] takes without the lock may fall into the middle of a release by
    another: as its layer is retained, it makes no difference to the release. *)
Definition referenced (n : nat) (id : ChainID) (m : gmap ChainID roLayer) : gmap ChainID roLayer :=
  alter (fun l => set_refs (references l ∪ {[n]}) l) id m.
Lemma Size_referenced n id m fuel i : Size_ fuel (referenced n id m) i = Size_ fuel m i.
Proof.
  revert i. induction fuel as [|fuel IH]; intros i; [done|]. cbn [Size_]. unfold referenced at 1. destruct (decide (i = id)) as [->|Hne].
  - rewrite lookup_alter_eq. destruct (m !! id) as [l|]; [|done]. simpl. destruct (parent l); [by rewrite IH|done].
  - rewrite lookup_alter_ne by done. destruct (m !! i) as [l|]; [|done]. destruct (parent l); [by rewrite IH|done].
Qed.
Lemma getReference_releaseLayer fuel io p depth removed s id pend s' x :
  inv s (p :: id :: pend) → releaseLayer fuel io p depth removed s = (s', x) →
  releaseLayer fuel io p depth removed (getReference id s).1 = ((getReference id s').1, x).
Proof.
  revert p depth removed s. induction fuel as [|fuel IH]; intros p depth removed s Hinv; [by intros [= <- <-]|].
  destruct (inv_pend _ _ Hinv p) as [l Hl]; [by left|]. cbn [releaseLayer]. rewrite Hl. unfold getReference at 1. simpl layerMap.
  fold (referenced (next s) id (layerMap s)).
  pose proof (inv_count _ _ Hinv p l Hl) as Hc. rewrite !occ_cons, decide_True in Hc by done.
  destruct (referenceCount l) as [|n] eqn:Hn; [lia|]. destruct (decide (p = id)) as [->|Hne].
  - unfold referenced. rewrite lookup_alter_eq, Hl. simpl. rewrite Hn. rewrite decide_True in Hc by done. destruct n; [lia|]. simpl.
    intros [= <- <-]. unfold getReference, set_layer. simpl. do 2 f_equal. apply map_eq. intros i.
    destruct (decide (i = id)) as [->|]; [by rewrite lookup_insert_eq, lookup_alter_eq, lookup_insert_eq|].
    by rewrite lookup_insert_ne, !lookup_alter_ne, lookup_insert_ne.
  - assert (Hp : referenced (next s) id (layerMap s) !! p = Some l) by (unfold referenced; by rewrite lookup_alter_ne).
    rewrite Hp, Hn. pose proof (inv_dec _ _ _ _ _ Hinv Hl Hn) as Hdec.
    assert (Hset : set_layer p (set_count n l) (getReference id s).1 = (getReference id (set_layer p (set_count n l) s)).1) by (unfold getReference, set_layer; simpl; by rewrite alter_insert_ne by done).
    fold (getReference id s).1. rewrite Hset. clear Hset. set (s1 := set_layer p (set_count n l) s) in *.
    destruct (Nat.eqb_spec n 0) as [->|Hn0]; simpl negb; cbn iota; [|by intros [= <- <-]].
    destruct (_ && _); [by intros [= <- <-]|]. destruct (hasReferences _); [by intros [= <- <-]|].
    destruct (io p); simpl negb; cbn iota; [|by intros [= <- <-]].
    assert (Hl1 : layerMap s1 !! p = Some (set_count 0 l)) by (simpl; by rewrite lookup_insert_eq).
    assert (Hdel : del_layer p (getReference id s1).1 = (getReference id (del_layer p s1)).1).
    { unfold getReference, del_layer. simpl. by rewrite delete_alter_ne by done. }
    assert (Hmeta : deleteLayer (<[p := set_count 0 l]> (referenced (next s) id (layerMap s))) (set_count 0 l) =
      deleteLayer (<[p := set_count 0 l]> (layerMap s)) (set_count 0 l)).
    { unfold referenced. rewrite <-alter_insert_ne by done. fold (referenced (next s) id (<[p := set_count 0 l]> (layerMap s))).
      unfold deleteLayer, Size. by rewrite Size_referenced. }
    rewrite Hdel, Hmeta. simpl parent. destruct (parent l) as [q|] eqn:Hq; [|intros Hr; injection Hr as <- <-; reflexivity].
    pose proof (inv_del _ _ _ _ Hdec Hl1 eq_refl) as Hi. simpl parent in Hi. rewrite Hq in Hi. exact (IH q (S depth) _ _ Hi).
Qed.

(** C2: However lookups, registrations, releases and mounts of layers interleave, between
    the sections that each of them runs under [layerL] or [mountL] (a lookup takes its
    reference after it has let [layerL] go; a registration that fails releases its parent
    under the lock taken anew; mounts are created and released under [mountL] alone), and
    whichever external calls fail: no operation panics ([layer not retained], [cannot
    remove layer with child], [cannot delete referenced layer]) or follows a layer that is
    gone, and the count of every layer is exactly the number of its holders: references
    handed out, layers on top of it, mounts, and operations under way.  No chain is deeper
    than 125.  (Writes to a Go map are taken to be atomic.) *)
Theorem layers_counted s acts :
  rtc any_step (empty, []) (s, acts) →
  (∀ io c y, layer_step io (s, acts) c y → c = false) ∧
  (∀ id l, layerMap s !! id = Some l →
     referenceCount l = size (references l) + children (layerMap s) id + mounted (mounts s) id + occ id (pending acts) ∧
     (∀ p, parent l = Some p → is_Some (layerMap s !! p)) ∧ depth (layerMap s) id ≤ maxLayerDepth).
Proof.
  intros Hr. apply reachable_ok in Hr as Hok. split.
  - intros io c y Hs. apply layer_step_ok in Hs as (_ & Hz & _); [exact Hz|exact Hok].
  - intros id l Hl. destruct Hok as [Hinv _ _]. simpl in Hinv. split_and!; [by apply Hinv|by intros p; eapply Hinv|].
    destruct (inv_rank _ _ Hinv) as (rk & Hrk). unfold depth. etransitivity; [|exact (proj2 (Hrk id l Hl))].
    clear Hr. generalize (S maxLayerDepth) as fuel. intros fuel. revert id l Hl.
    induction fuel as [|fuel IH]; intros id l Hl; [simpl; lia|]. simpl. rewrite Hl. simpl. destruct (Hrk id l Hl) as [-> _].
    destruct (parent l) as [p|] eqn:E; [|done]. destruct (inv_parent _ _ Hinv id l p Hl E) as [lp Hp].
    specialize (IH p lp Hp). lia.
Qed.

(** Two layers registered one on the other; then a lookup of the lower one that has not
    taken its reference yet. *)
Definition all_ok (i : ChainID) : bool := true.
Definition reg (d : DiffID) : registration := mkReg "cache" true true (Some (d, 10%Z)) true true.
Definition base_store : layerStore := (Register all_ok (reg "diff1") "" empty).1.
Definition demo_layers : layerStore := (Register all_ok (reg "diff2") "diff1" base_store).1.
Definition demo_get : layerStore := default empty (getWithoutLock "diff1" demo_layers).

Lemma demo_layers_steps : rtc (io_step all_ok) (empty, []) (demo_layers, []).
Proof. etransitivity; apply Register_steps. Qed.
Lemma demo_layers_good : rtc good_step (empty, []) (demo_layers, []).
Proof. by apply (io_good all_ok), demo_layers_steps. Qed.
Lemma demo_get_reachable : rtc any_step (empty, []) (demo_get, [Getting "diff1"]).
Proof.
  eapply rtc_r; [apply (io_any all_ok), demo_layers_steps|]. exists all_ok, false. apply step_get.
  destruct (getWithoutLock "diff1" demo_layers) as [s|] eqn:E; [unfold demo_get; by rewrite E|].
  exfalso. assert (Hs : bool_decide (is_Some (getWithoutLock "diff1" demo_layers)) = true) by (vm_compute; reflexivity).
  by rewrite E in Hs.
Qed.

Lemma layers_counted_witness :
  match layerMap demo_get !! ("diff1" : gostring) with
  | Some l => referenceCount l = size (references l) + children (layerMap demo_get) "diff1" + mounted (mounts demo_get) "diff1" + occ "diff1" ["diff1"]
  | None => False
  end.
Proof.
  assert (Hs : bool_decide (is_Some (layerMap demo_get !! ("diff1" : gostring))) = true) by (vm_compute; reflexivity).
  destruct (layerMap demo_get !! ("diff1" : gostring)) as [l|] eqn:Hl; [|discriminate Hs].
  exact (proj1 (proj2 (layers_counted demo_get [Getting "diff1"] demo_get_reachable) "diff1" l Hl)).
Defined.

(** ** No garbage *)

(** [below m top id]: [id] is [top] or a layer under it. *)
Definition below (m : gmap ChainID roLayer) : ChainID → ChainID → Prop := rtc (fun x y => m !! x ≫= parent = Some y).
(** A layer that is held from outside. *)
Definition rooted (s : layerStore) (pend : list ChainID) (id : ChainID) : Prop :=
  ∃ l, layerMap s !! id = Some l ∧ (references l ≠ ∅ ∨ (∃ n m, mounts s !! n = Some m ∧ m_parent m = Some id) ∨ id ∈ pend).

Lemma live_rooted s pend :
  inv s pend → live s → ∀ id, is_Some (layerMap s !! id) → ∃ top, rooted s pend top ∧ below (layerMap s) top id.
Proof.
  intros Hinv Hlive. destruct (inv_rank _ _ Hinv) as (rk & Hrk).
  assert (H : ∀ k id, maxLayerDepth - rk id ≤ k → is_Some (layerMap s !! id) → ∃ top, rooted s pend top ∧ below (layerMap s) top id).
  2: { intros id. by apply (H (maxLayerDepth - rk id)). }
  induction k as [|k IH]; intros id Hk [l Hl].
  all: pose proof (Hlive id l Hl) as Hpos; rewrite (inv_count _ _ Hinv id l Hl) in Hpos.
  all: destruct (decide (0 < children (layerMap s) id)) as [Hc|Hc].
  1, 3: apply mcount_pos in Hc as (c & lc & Hc & Hp); rewrite bool_decide_eq_true in Hp;
    destruct (Hrk c lc Hc) as [E Hle]; rewrite Hp in E.
  - lia.
  - destruct (IH c) as (top & Ht & Hb); [lia|by eexists|]. exists top. split; [done|].
    eapply rtc_r; [exact Hb|]. by rewrite Hc.
  - exists id. split; [|apply rtc_refl]. exists l. split; [done|].
    destruct (decide (references l = ∅)) as [E|]; [|by left]. rewrite E, size_empty in Hpos. right.
    destruct (decide (0 < mounted (mounts s) id)) as [Hm|Hm].
    + left. apply mcount_pos in Hm as (n & m & Hn & Hm). rewrite bool_decide_eq_true in Hm. eauto.
    + right. apply occ_pos. lia.
  - exists id. split; [|apply rtc_refl]. exists l. split; [done|].
    destruct (decide (references l = ∅)) as [E|]; [|by left]. rewrite E, size_empty in Hpos. right.
    destruct (decide (0 < mounted (mounts s) id)) as [Hm|Hm].
    + left. apply mcount_pos in Hm as (n & m & Hn & Hm). rewrite bool_decide_eq_true in Hm. eauto.
    + right. apply occ_pos. lia.
Qed.

(** C3: No layer is leaked: as long as the removals asked of the driver and of the metadata
    store succeed, whatever else fails, every layer of the store is at or below a layer that
    is held from outside, by a reference, by a mount or by an operation under way; and the
    layers below a layer of the store are in the store. *)
Theorem layers_collected s acts id :
  rtc good_step (empty, []) (s, acts) →
  is_Some (layerMap s !! id) ↔ ∃ top, rooted s (pending acts) top ∧ below (layerMap s) top id.
Proof.
  intros Hr. assert (Hok : sys_ok (s, acts) ∧ live s).
  { change (sys_ok (s, acts) ∧ live (s, acts).1).
    apply (rtc_ind_r (fun y => sys_ok y ∧ live y.1) (empty, [])) in Hr; [done|split; [apply sys_ok_empty|by intros ??]|].
    intros y z _ (io & c & Hall & Hs) [Hy Hl]. apply layer_step_ok in Hs as (Hz & _ & Hc); [|done]. split; [done|]. by apply Hc. }
  destruct Hok as [[Hinv _ _] Hlive]. simpl in *. split; [by apply live_rooted|].
  intros (top & (l & Hl & _) & Hb). assert (Hs : is_Some (layerMap s !! top)) by (by eexists).
  clear Hl. induction Hb as [|x y z Hxy _ IH]; [done|]. apply IH.
  apply bind_Some in Hxy as (lx & Hx & Hp). by eapply Hinv.
Qed.
Lemma layers_collected_witness :
  is_Some (layerMap demo_layers !! ("diff1" : gostring)) ↔
  ∃ top, rooted demo_layers [] top ∧ below (layerMap demo_layers) top "diff1".
Proof. exact (layers_collected demo_layers [] "diff1" demo_layers_good). Defined.

(** ** What a release removes *)

(** Releasing a reference that is held ends, without a panic, either with the list of
    exactly the layers that are gone from the store, or with an error of the driver; the
    layers that remain are unchanged but for the counts, and the same reference is not
    accepted again. *)
Theorem Release_exact io s acts id n l s' x :
  rtc any_step (empty, []) (s, acts) → layerMap s !! id = Some l → n ∈ references l →
  Release io (id, n) s = (s', x) →
  ((∃ ms, x = Removed ms ∧ ∀ i, i ∈ md_ChainID <$> ms ↔ is_Some (layerMap s !! i) ∧ layerMap s' !! i = None) ∨
   (x = NotRemoved ErrDriver ∧ ∃ i, io i = false)) ∧
  (∀ i li, i ≠ id → layerMap s' !! i = Some li → ∃ l0, layerMap s !! i = Some l0 ∧ same_layer l0 li) ∧
  (∀ io', (Release io' (id, n) s').2 = Removed [] ∨ (Release io' (id, n) s').2 = NotRemoved ErrLayerNotRetained).
Proof.
  intros Hr Hl Hn. apply reachable_ok in Hr as [Hinv _ _]. simpl in Hinv.
  unfold Release at 1. simpl. rewrite Hl. unfold hasReference. rewrite bool_decide_eq_true_2 by done. simpl.
  intros Hrel. apply (release_spec _ _ _ (pending acts)) in Hrel as [Hi Hrel]; [|by apply inv_unref].
  assert (Hdom : ∀ i, is_Some (layerMap (set_layer id (deleteReference n l) s) !! i) ↔ is_Some (layerMap s !! i)).
  { intros i. simpl. destruct (decide (i = id)) as [->|]; simplify_map_eq; [|done]. split; intros _; by eexists. }
  split_and!.
  - destruct (rel_result _ _ _ _ _ Hrel) as [(ms & -> & Hms)|[-> He]]; [left|by right].
    exists ms. split; [done|]. intros i. by rewrite Hms, Hdom.
  - intros i li Hne Hi'. apply (rel_kept _ _ _ _ _ Hrel) in Hi' as (l0 & H0 & Hs). simpl in H0. simplify_map_eq. eauto.
  - intros io'. unfold Release. simpl. destruct (layerMap s' !! id) as [l'|] eqn:E; [right|by left].
    apply (rel_kept _ _ _ _ _ Hrel) in E as (l0 & H0 & k & ->). simpl in H0. simplify_map_eq. unfold hasReference.
    rewrite bool_decide_eq_false_2; [done|]. simpl. set_solver.
Qed.
Lemma base_store_reachable : rtc any_step (empty, []) (base_store, []).
Proof. apply (io_any all_ok), Register_steps. Qed.
Lemma Release_exact_witness :
  match Release all_ok ("diff1" : gostring, 0) base_store with
  | (s', Removed ms) => ("diff1" : gostring) ∈ md_ChainID <$> ms ↔
      is_Some (layerMap base_store !! ("diff1" : gostring)) ∧ layerMap s' !! ("diff1" : gostring) = None
  | _ => False
  end.
Proof.
  assert (Hl : layerMap base_store !! ("diff1" : gostring) = Some (mkLayer "diff1" "diff1" None "cache" 10 1 {[0]}))
    by (vm_compute; reflexivity).
  assert (Hn : 0 ∈ references (mkLayer "diff1" "diff1" None "cache" 10 1 {[0]})) by (simpl; set_solver).
  destruct (Release all_ok ("diff1" : gostring, 0) base_store) as [s' x] eqn:E.
  destruct (Release_exact all_ok base_store [] "diff1" 0 _ s' x base_store_reachable Hl Hn E) as [[(ms & -> & Hms)|[_ [i Hi]]] _].
  - exact (Hms "diff1").
  - discriminate Hi.
Defined.

(** ** Addresses *)

(** The diffs of a chain of layers, from the bottom. *)
Fixpoint DiffIDs_ (fuel : nat) (m : gmap ChainID roLayer) (id : ChainID) : list DiffID :=
  match fuel, m !! id with
  | S fuel, Some l => match parent l with None => [] | Some p => DiffIDs_ fuel m p end ++ [diffID l]
  | _, _ => []
  end.
Definition DiffIDs (m : gmap ChainID roLayer) (id : ChainID) : list DiffID := DiffIDs_ (S maxLayerDepth) m id.

Lemma DiffIDs_CreateChainID s pend fuel id l (rk : ChainID → nat) :
  inv s pend →
  (∀ id l, layerMap s !! id = Some l → rk id = match parent l with None => 1 | Some p => S (rk p) end) →
  layerMap s !! id = Some l → rk id ≤ fuel → CreateChainID (DiffIDs_ fuel (layerMap s) id) = id.
Proof.
  intros Hinv Hrk. revert id l. induction fuel as [|fuel IH]; intros id l Hl Hle.
  { rewrite (Hrk id l Hl) in Hle. destruct (parent l); lia. }
  cbn [DiffIDs_]. rewrite Hl. destruct (inv_id _ _ Hinv id l Hl) as [_ Ha]. unfold addressed in Ha. unfold CreateChainID in *.
  rewrite createChainID_app. rewrite (Hrk id l Hl) in Hle. destruct (parent l) as [p|] eqn:E.
  - destruct (inv_parent _ _ Hinv id l p Hl E) as [lp Hp]. rewrite (IH p lp Hp); [done|lia].
  - done.
Qed.

(** ** References handed out *)

Definition held (s : layerStore) (r : ChainID * nat) : Prop := ∃ l, layerMap s !! r.1 = Some l ∧ r.2 ∈ references l.

Lemma held_set s id l l' r :
  layerMap s !! id = Some l → (∀ n, n ∈ references l → n ∈ references l') → held s r → held (set_layer id l' s) r.
Proof.
  intros Hl Hn (l0 & H0 & Hr). unfold held. simpl.
  destruct (decide (r.1 = id)) as [E|]; [rewrite E in *; simplify_map_eq; eauto|]. rewrite lookup_insert_ne by done. eauto.
Qed.
(** Neither the release of a layer nor a new reference takes a reference away. *)
Lemma releaseLayer_held fuel io id depth removed s r :
  held s r → held (releaseLayer fuel io id depth removed s).1 r.
Proof.
  revert id depth removed s. induction fuel as [|fuel IH]; intros id depth removed s Hr; [done|].
  cbn [releaseLayer]. destruct (layerMap s !! id) as [l|] eqn:Hl; [|done].
  destruct (referenceCount l) as [|n]; [done|].
  pose proof (held_set s id l (set_count n l) r Hl (fun k H => H) Hr) as Hs.
  destruct (negb (Nat.eqb n 0)); [done|]. destruct (_ && _); [done|]. unfold hasReferences.
  case_bool_decide as He; simpl negb; cbn iota; [|done]. destruct (io id); [|done].
  assert (Hd : held (del_layer id (set_layer id (set_count n l) s)) r).
  { destruct Hs as (l0 & H0 & Hn). unfold held. simpl in *. destruct (decide (r.1 = id)) as [E|].
    - rewrite E in *. simplify_map_eq. simpl in *. set_solver.
    - rewrite lookup_delete_ne by done. eauto. }
  simpl. destruct (parent l); [|done]. apply IH, Hd.
Qed.
Lemma release_parent_held {A} io p (a : A) s r : held s r → held (release_parent io p a s).1 r.
Proof.
  intros Hr. destruct p as [p|]; [|done]. unfold release_parent, release.
  pose proof (releaseLayer_held (S (size (layerMap s))) io p 0 [] s r Hr). by destruct (releaseLayer _ _ _ _ _ _) as [s' []].
Qed.
Lemma getReference_held id s r : held s r → held (getReference id s).1 r.
Proof.
  intros (l & Hl & Hn). unfold held. simpl. destruct (decide (r.1 = id)) as [E|].
  - rewrite E, lookup_alter_eq, <-E, Hl. eexists. split; [done|]. simpl. set_solver.
  - rewrite lookup_alter_ne by done. eauto.
Qed.
Lemma getReference_new id s : is_Some (layerMap s !! id) → held (getReference id s).1 (getReference id s).2.
Proof. intros [l Hl]. unfold held. simpl. rewrite lookup_alter_eq, Hl. eexists. split; [done|]. simpl. set_solver. Qed.

(** A registration that succeeds hands out a reference to the layer addressed by the diff on
    its parent. *)
Lemma Register_end_result r p s s' id n drop :
  Register_end r p s = (s', (Ok (id, n), drop)) → ∃ d z, r_applyTar r = Some (d, z) ∧ addressed id d p ∧ held s' (id, n).
Proof.
  unfold Register_end. destruct (r_Create r); simpl negb; cbn iota; [|done].
  destruct (r_StartTransaction r); simpl negb; cbn iota; [|done].
  destruct (r_applyTar r) as [[d z]|]; [|done]. destruct (r_storeLayer r); simpl negb; cbn iota; [|done].
  intros Hreg. exists d, z. split; [done|]. set (i := match p with None => d | Some p => _ end) in Hreg.
  destruct (getWithoutLock i s) as [s1|] eqn:E.
  - injection Hreg as <- <- <- <-. split; [done|]. apply (getReference_new i s1). unfold getWithoutLock in E.
    destruct (layerMap s !! i); [|done]. injection E as <-. simpl. rewrite lookup_insert_eq. by eexists.
  - destruct (r_Commit r); simpl negb in Hreg; cbn iota in Hreg; [|done]. injection Hreg as <- <- <- <-. split; [done|].
    apply (getReference_new i (set_layer i (mkLayer i d p (r_cacheID r) z 1 ∅) s)). simpl. rewrite lookup_insert_eq. by eexists.
Qed.
Lemma Register_begin_result q s s' p :
  Register_begin q s = (s', inl p) → (q =s [] = true ∧ p = None) ∨ (q =s [] = false ∧ p = Some q ∧ is_Some (layerMap s !! q)).
Proof.
  unfold Register_begin. destruct (q =s []); [intros [= <- <-]; auto|]. unfold getWithoutLock.
  destruct (layerMap s !! q) as [l|]; [|done]. destruct (Nat.leb _ _); [done|]. intros [= <- <-]. right. split_and!; [done|done|by eexists].
Qed.
Lemma release_parent_result {A} io p (a : A) s s' b : release_parent io p a s = (s', inl b) → b = a.
Proof. unfold release_parent. destruct p as [p|]; [|by intros [= _ <-]]. destruct (release io p s) as [? []]; by intros [= _ <-]. Qed.

(** The layers of a store are named by content: the chain ID of every layer is the one
    computed from the diffs of the layers from the bottom of its chain up to it, so the
    layers of an image are found by the list of diffs in its configuration; and registering
    a diff on a layer gives the chain ID of the list extended with that diff. *)
Theorem layers_addressed s acts :
  rtc any_step (empty, []) (s, acts) →
  (∀ id, is_Some (layerMap s !! id) → CreateChainID (DiffIDs (layerMap s) id) = id) ∧
  (∀ io r q s' id n, Register io r q s = (s', inl (Ok (id, n))) →
     ∃ d z, r_applyTar r = Some (d, z) ∧ is_Some (layerMap s' !! id) ∧
       id = CreateChainID ((if q =s [] then [] else DiffIDs (layerMap s) q) ++ [d])).
Proof.
  intros Hr. apply reachable_ok in Hr as Hok. assert (Hinv := sys_inv _ Hok). simpl in Hinv.
  assert (Hall : ∀ id, is_Some (layerMap s !! id) → CreateChainID (DiffIDs (layerMap s) id) = id).
  { intros id [l Hl]. destruct (inv_rank _ _ Hinv) as (rk & Hrk). eapply (DiffIDs_CreateChainID _ _ _ _ _ rk); try done.
    - intros i li Hi. by apply Hrk.
    - destruct (Hrk id l Hl). lia. }
  split; [done|]. intros io r q s' id n Hreg. unfold Register in Hreg.
  destruct (Register_begin q s) as [s1 [p|[e drop]]] eqn:Eb; [|by apply release_parent_result in Hreg].
  apply Register_begin_result in Eb as Hp. destruct (Register_end r p s1) as [s2 [res drop]] eqn:Ee.
  pose proof (release_parent_result _ _ _ _ _ _ Hreg) as <-. apply Register_end_result in Ee as (d & z & Hd & Ha & Hh).
  apply (release_parent_held io drop (Ok (id, n) : result error (ChainID * nat))) in Hh. rewrite Hreg in Hh. destruct Hh as (l & Hl & _).
  exists d, z. split; [done|]. split; [by eexists|]. unfold addressed in Ha. rewrite Ha.
  unfold CreateChainID in *. rewrite createChainID_app.
  destruct Hp as [[-> ->]|(-> & -> & Hq)]; [done|]. by rewrite (Hall q Hq).
Qed.
Lemma layers_addressed_witness : CreateChainID (DiffIDs (layerMap base_store) "diff1") = "diff1".
Proof.
  apply (proj1 (layers_addressed base_store [] base_store_reachable)). eexists. vm_compute. reflexivity.
Defined.

(** A mount that the driver refuses still counts as active: the reference cannot be released,
    and an unmount that was never matched by a mount makes it releasable. *)
Theorem failed_mount_stays_active :
  let s0 := (CreateRWLayer all_ok "m" None true true "box" "" empty).1 in
  let r := ("box" : gostring, 0) in
  (Mount false r s0).2 = Some ErrDriver ∧
  (ReleaseRWLayer all_ok true true true r (Mount false r s0).1).2 = NotRemoved ErrActiveMount ∧
  (ReleaseRWLayer all_ok true true true r (Unmount true r (Mount false r s0).1).1).2 = Removed [].
Proof. split_and!; vm_compute; reflexivity. Qed.
