(* ===== verification/DigestSet.v ===== *)
(** * DigestSet: finding an image by the start of its ID

    Models the sorted set of digests of
    [src/vendor/src/github.com/docker/distribution/digest/set.go], with the binary
    search of Go's [sort.Search].  A lookup by a short string is proved to be the
    search for the digests that start with it. *)

From S2P Require Import Prelude Strconv Regexp Reference RefStore.
Import Strings Regexp Reference.

Module DigestSet.

Record digestEntry := mkEntry { alg : gostring; val : gostring; digest : gostring }.
#[global] Instance digestEntry_eq_dec : EqDecision digestEntry.
Proof. solve_decision. Defined.
Abbreviation digestEntries := (list digestEntry).

Inductive error := ErrDigestNotFound | ErrDigestAmbiguous | ErrInvalid (e : DistRef.error).

Definition NewSet : digestEntries := [].

(** [sort.Search]: the interval shrinks at each step, so its length is enough fuel. *)
Fixpoint search_ (fuel : nat) (f : nat → bool) (i j : nat) : nat :=
  match fuel with
  | O => i
  | S fuel =>
      if Nat.ltb i j then
        let h := i + (j - i) / 2 in
        if negb (f h) then search_ fuel f (S h) j else search_ fuel f i h
      else i
  end.
Definition Search (n : nat) (f : nat → bool) : nat := search_ n f 0 n.

(** [Algorithm] and [Hex]; only used on strings with a colon. *)
Definition Algorithm (d : gostring) : gostring := match Cut ":" d with Some (a, _) => a | None => [] end.
Definition Hex (d : gostring) : gostring := match Cut ":" d with Some (_, h) => h | None => [] end.

Definition checkShortMatch (alg hex shortAlg shortHex : gostring) : bool :=
  if Nat.eqb (length hex) (length shortHex) then
    if negb (hex =s shortHex) then false
    else if Nat.ltb 0 (length shortAlg) && negb (alg =s shortAlg) then false
    else true
  else if negb (HasPrefix hex shortHex) then false
  else if Nat.ltb 0 (length shortAlg) && negb (alg =s shortAlg) then false
  else true.

(** The search for the place of an entry: the first one that is not before it. *)
Definition entry_leb (e x : digestEntry) : bool :=
  if val x =s val e then leb (alg e) (alg x) else leb (val e) (val x).
Definition position (f : digestEntry → bool) (es : digestEntries) : nat :=
  Search (length es) (fun i => match es !! i with Some x => f x | None => false end).

Definition Lookup (d : gostring) (es : digestEntries) : result error gostring :=
  if bool_decide (es = []) then Err ErrDigestNotFound
  else
    let short := match DistRef.Validate d with Err DistRef.ErrChecksumInvalidFormat => true | _ => false end in
    let hex := if short then d else Hex d in
    let a := if short then [] else Algorithm d in
    let idx := position (if short then fun x => leb d (val x) else entry_leb (mkEntry a hex d)) es in
    match es !! idx with
    | None => Err ErrDigestNotFound
    | Some e =>
        if negb (checkShortMatch (alg e) (val e) a hex) then Err ErrDigestNotFound
        else if (alg e =s a) && (val e =s hex) then Ok (digest e)
        else match es !! S idx with
             | Some f => if checkShortMatch (alg f) (val f) a hex then Err ErrDigestAmbiguous else Ok (digest e)
             | None => Ok (digest e)
             end
    end.

Definition entry_of (d : gostring) : digestEntry := mkEntry (Algorithm d) (Hex d) d.

Definition Add (d : gostring) (es : digestEntries) : result error digestEntries :=
  match DistRef.Validate d with
  | Err e => Err (ErrInvalid e)
  | Ok _ =>
      let entry := entry_of d in
      let idx := position (entry_leb entry) es in
      match es !! idx with
      | None => Ok (es ++ [entry])
      | Some x => if digest x =s d then Ok es else Ok (take idx es ++ entry :: drop idx es)
      end
  end.
Definition Remove (d : gostring) (es : digestEntries) : result error digestEntries :=
  match DistRef.Validate d with
  | Err e => Err (ErrInvalid e)
  | Ok _ =>
      let idx := position (entry_leb (entry_of d)) es in
      match es !! idx with
      | None => Ok es
      | Some x => if negb (digest x =s d) then Ok es else Ok (take idx es ++ drop (S idx) es)
      end
  end.
Definition All (es : digestEntries) : list gostring := digest <$> es.

End DigestSet.

Import DigestSet.

(** ** The binary search *)

Lemma search_spec fuel f i j :
  i ≤ j → j - i ≤ fuel → (∀ h k, i ≤ h → h ≤ k → k < j → f h = true → f k = true) →
  let r := search_ fuel f i j in
  i ≤ r ∧ r ≤ j ∧ (∀ k, i ≤ k → k < r → f k = false) ∧ (∀ k, r ≤ k → k < j → f k = true).
Proof.
  revert i j. induction fuel as [|fuel IH]; intros i j Hij Hf Hmono; cbn [search_]; cbn zeta.
  { assert (i = j) by lia. subst. split_and!; intros; lia. }
  destruct (Nat.ltb_spec i j) as [Hlt|]; [|split_and!; intros; lia].
  set (h := i + (j - i) / 2). assert (Hh : i ≤ h ∧ h < j).
  { pose proof (Nat.div_lt (j - i) 2). unfold h. lia. }
  destruct (f h) eqn:E; simpl negb; cbn iota.
  - destruct (IH i h) as (H1 & H2 & H3 & H4); [lia|lia| |].
    { intros x y ? ? ?. apply Hmono; lia. }
    split_and!; [lia|lia|done|]. intros k Hk Hkj. destruct (decide (k < h)) as [?|?]; [by apply H4|].
    apply (Hmono h); lia || done.
  - destruct (IH (S h) j) as (H1 & H2 & H3 & H4); [lia|lia| |].
    { intros x y ? ? ?. apply Hmono; lia. }
    split_and!; [lia|lia| |done]. intros k Hk Hkr. destruct (decide (k ≤ h)) as [?|?]; [|apply H3; lia].
    destruct (f k) eqn:Ek; [|done]. rewrite <-E. symmetry. by apply (Hmono k); lia || done.
Qed.

Lemma StronglySorted_lookup_lt {A} (R : relation A) l i j x y :
  StronglySorted R l → i < j → l !! i = Some x → l !! j = Some y → R x y.
Proof.
  intros Hs. revert i j. induction Hs as [|a l Hs IH Hall]; intros [|i] [|j] Hij Hx Hy; simpl in *; try done; try lia.
  - simplify_eq. rewrite Forall_forall in Hall. apply Hall. by eapply list_elem_of_lookup_2.
  - apply (IH i j); [lia|done|done].
Qed.

(** On a sorted list and for a predicate closed upwards, the search cuts the list in two. *)
Lemma position_spec (R : relation digestEntry) f es :
  StronglySorted R es → (∀ x y, R x y → f x = true → f y = true) →
  let i := position f es in
  Forall (fun x => f x = false) (take i es) ∧ Forall (fun x => f x = true) (drop i es) ∧ i ≤ length es.
Proof.
  intros Hs Hup.
  set (g := fun i => match es !! i with Some x => f x | None => false end).
  destruct (search_spec (length es) g 0 (length es)) as (_ & H2 & H3 & H4); [lia|lia| |].
  { intros h k _ Hhk Hk. unfold g. destruct (lookup_lt_is_Some_2 es k Hk) as [y Hy]. rewrite Hy.
    destruct (es !! h) as [x|] eqn:Hx; [|done]. destruct (decide (h = k)) as [->|Hne]; [by simplify_eq|].
    apply Hup. apply (StronglySorted_lookup_lt _ _ h k _ _ Hs); lia || done. }
  change (position f es) with (search_ (length es) g 0 (length es)).
  set (i := search_ (length es) g 0 (length es)) in *. cbn zeta. split_and!; [| |done].
  - apply Forall_lookup. intros k x Hk. apply lookup_take_Some in Hk as [Hk Hi]. specialize (H3 k). unfold g in H3.
    rewrite Hk in H3. apply H3; [lia|done].
  - apply Forall_lookup. intros k x Hk. rewrite lookup_drop in Hk. specialize (H4 (i + k)). unfold g in H4.
    rewrite Hk in H4. apply H4; [lia|]. by eapply lookup_lt_Some.
Qed.

(** ** The order of entries *)

Definition entry_le (x y : digestEntry) : Prop := entry_leb x y = true.
Definition valid (d : gostring) : Prop := is_ok (DistRef.Validate d) = true.

Lemma leb_antisym s t : leb s t = true → leb t s = true → s = t.
Proof.
  revert t. induction s as [|c s IH]; intros [|d t]; simpl; try done.
  destruct (N.ltb_spec (N_of_ascii c) (N_of_ascii d)), (N.ltb_spec (N_of_ascii d) (N_of_ascii c)); try done; try lia.
  intros H1 H2. f_equal; [|by apply IH]. rewrite <-(ascii_N_embedding c), <-(ascii_N_embedding d). f_equal. lia.
Qed.
Lemma entry_le_cases x y : entry_le x y ↔ (val y = val x ∧ leb (alg x) (alg y) = true) ∨ (val y ≠ val x ∧ leb (val x) (val y) = true).
Proof. unfold entry_le, entry_leb, streqb. case_bool_decide; naive_solver. Qed.
#[export] Instance entry_le_trans : Transitive entry_le.
Proof.
  intros x y z. rewrite !entry_le_cases. intros [[E1 H1]|[E1 H1]] [[E2 H2]|[E2 H2]].
  - left. split; [congruence|by eapply leb_trans].
  - right. split; congruence.
  - right. split; congruence.
  - right. assert (Hl : leb (val x) (val z) = true) by (by eapply leb_trans). split; [|done].
    intros E. rewrite E in H2. apply E1. by apply leb_antisym.
Qed.
#[export] Instance entry_le_total : Total entry_le.
Proof.
  intros x y. rewrite !entry_le_cases. destruct (decide (val y = val x)) as [E|E].
  - destruct (leb_total (alg x) (alg y)); [left|right]; left; split; congruence.
  - destruct (leb_total (val x) (val y)); [left|right]; right; split; congruence.
Qed.
Lemma entry_le_val x y : entry_le x y → leb (val x) (val y) = true.
Proof. rewrite entry_le_cases. intros [[-> _]|[_ ?]]; [apply leb_refl|done]. Qed.
Lemma entry_le_antisym x y : entry_le x y → entry_le y x → val x = val y ∧ alg x = alg y.
Proof.
  rewrite !entry_le_cases. intros [[E1 H1]|[E1 H1]] [[E2 H2]|[E2 H2]]; try congruence.
  - split; [done|by apply leb_antisym].
  - exfalso. apply E1. by apply leb_antisym.
Qed.

Lemma valid_split d : valid d → d = Algorithm d ++ ":" ++ Hex d ∧ Algorithm d ≠ [].
Proof.
  unfold valid, DistRef.Validate, Algorithm, Hex. destruct (MatchString _ d); [|done]. simpl.
  destruct (Cut ":" d) as [[a h]|] eqn:E; [|done]. intros Hv. split; [by apply Cut_Some_eq in E|].
  intros ->. simpl in Hv. by destruct (decide (h = [])).
Qed.

(** ** The set *)

Record set_ok (es : digestEntries) : Prop := {
  set_sorted : StronglySorted entry_le es;
  set_nodup : NoDup es;
  set_entries : Forall (fun e => e = entry_of (digest e) ∧ valid (digest e)) es
}.

Lemma set_ok_nil : set_ok [].
Proof. split; constructor. Qed.
Lemma entry_same es x d : set_ok es → x ∈ es → valid d → val x = Hex d → alg x = Algorithm d → digest x = d.
Proof.
  intros Hok Hx Hd E1 E2. destruct (proj1 (Forall_forall _ _) (set_entries _ Hok) x Hx) as [Ex Hv].
  rewrite Ex in E1, E2. simpl in E1, E2.
  rewrite (proj1 (valid_split _ Hd)), (proj1 (valid_split _ Hv)). congruence.
Qed.
Lemma entry_in es d : set_ok es → d ∈ All es → entry_of d ∈ es.
Proof.
  intros Hok (x & -> & Hx)%list_elem_of_fmap.
  destruct (proj1 (Forall_forall _ _) (set_entries _ Hok) x Hx) as [<- _]. done.
Qed.

(** Where the search for the place of a valid digest ends: the entries before it are smaller,
    and the digest is in the set exactly if it is found there. *)
Lemma position_entry es d :
  set_ok es → valid d →
  let i := position (entry_leb (entry_of d)) es in
  (∀ x, x ∈ take i es → entry_le x (entry_of d) ∧ digest x ≠ d) ∧ (∀ x, x ∈ drop i es → entry_le (entry_of d) x) ∧
  (d ∈ All es → ∃ x, es !! i = Some x ∧ digest x = d).
Proof.
  intros Hok Hd. destruct (position_spec entry_le (entry_leb (entry_of d)) es) as (H1 & H2 & H3); [apply Hok| |].
  { intros x y Hxy Hx. exact (entry_le_trans _ _ _ Hx Hxy). }
  cbn zeta. set (i := position _ es) in *. rewrite Forall_forall in H1, H2.
  assert (Htake : ∀ x, x ∈ take i es → entry_le x (entry_of d) ∧ digest x ≠ d).
  { intros x Hx. pose proof (H1 x Hx) as Hno. split.
    - destruct (entry_le_total x (entry_of d)) as [?|Hle]; [done|]. unfold entry_le in Hle. congruence.
    - intros <-. assert (Hin : x ∈ es) by (rewrite <-(take_drop i es); apply elem_of_app; by left).
      destruct (proj1 (Forall_forall _ _) (set_entries _ Hok) x Hin) as [Ex _]. rewrite <-Ex in Hno.
      destruct (entry_le_total x x) as [Hle|Hle]; unfold entry_le in Hle; congruence. }
  split_and!; [done|done|]. intros Hin. apply entry_in in Hin; [|done].
  rewrite <-(take_drop i es) in Hin. apply elem_of_app in Hin as [Hin|Hin]; [by destruct (Htake _ Hin)|].
  destruct (drop i es) as [|x l] eqn:E; [by apply elem_of_nil in Hin|]. exists x.
  assert (Hx : es !! i = Some x) by (pose proof (lookup_drop es i 0) as Hd0; by rewrite E, Nat.add_0_r in Hd0).
  split; [done|].
  assert (Hs : StronglySorted entry_le (x :: l)).
  { rewrite <-E. eapply StronglySorted_app_1_r. rewrite take_drop. apply Hok. }
  apply elem_of_cons in Hin as [<-|Hin]; [done|].
  destruct (entry_le_antisym x (entry_of d)) as [Ev Ea].
  - apply StronglySorted_cons in Hs as [Hall _]. rewrite Forall_forall in Hall. by apply Hall.
  - apply H2. by left.
  - eapply entry_same; [done| |done|done|done]. by eapply list_elem_of_lookup_2.
Qed.

Lemma Add_spec es d es' :
  set_ok es → Add d es = Ok es' → set_ok es' ∧ valid d ∧ ∀ x, x ∈ All es' ↔ x = d ∨ x ∈ All es.
Proof.
  intros Hok. unfold Add. destruct (DistRef.Validate d) as [u|e] eqn:Hv; [|done].
  assert (Hd : valid d) by (unfold valid; by rewrite Hv).
  destruct (position_entry es d Hok Hd) as (H1 & H2 & H3). set (i := position _ es) in *.
  assert (Hins : d ∉ All es → set_ok (take i es ++ entry_of d :: drop i es)).
  { intros Hno. split.
    - apply StronglySorted_app_2; [|eapply StronglySorted_app_1_l; rewrite take_drop; apply Hok|].
      + intros x y Hx [->|Hy]%elem_of_cons; [by apply H1|].
        eapply (StronglySorted_app_1_elem_of entry_le (take i es)); [rewrite take_drop; apply Hok|done|done].
      + apply StronglySorted_cons. split; [by apply Forall_forall|].
        eapply StronglySorted_app_1_r. rewrite take_drop. apply Hok.
    - rewrite <-Permutation_middle, take_drop. apply NoDup_cons. split; [|apply Hok].
      intros Hin. apply Hno. apply list_elem_of_fmap. by exists (entry_of d).
    - rewrite <-Permutation_middle, take_drop. constructor; [done|apply Hok]. }
  assert (Hall : ∀ x, x ∈ All (take i es ++ entry_of d :: drop i es) ↔ x = d ∨ x ∈ All es).
  { intros x. unfold All. rewrite <-Permutation_middle, take_drop. rewrite fmap_cons, elem_of_cons. done. }
  destruct (es !! i) as [x|] eqn:Hx.
  - unfold streqb. case_bool_decide as Hdx; intros [= <-].
    + split_and!; [done|done|]. intros y. split; [by right|]. intros [->|?]; [|done].
      apply list_elem_of_fmap. exists x. split; [done|]. by eapply list_elem_of_lookup_2.
    + split_and!; [|done|done]. apply Hins. intros Hin. destruct (H3 Hin) as (y & Hy & ?). by simplify_eq.
  - intros [= <-]. assert (Ei : take i es = es ∧ drop i es = []).
    { apply lookup_ge_None in Hx. by rewrite take_ge, drop_ge by lia. }
    destruct Ei as [Et Ed]. rewrite Et, Ed in *. split_and!; [|done|done]. apply Hins. intros Hin.
    destruct (H3 Hin) as (y & Hy & ?). by simplify_eq.
Qed.
Lemma Add_valid es d : valid d → is_ok (Add d es) = true.
Proof. unfold valid, Add. destruct (DistRef.Validate d); [|done]. intros _. by repeat case_match. Qed.

Lemma Remove_spec es d es' :
  set_ok es → Remove d es = Ok es' → set_ok es' ∧ ∀ x, x ∈ All es' ↔ x ≠ d ∧ x ∈ All es.
Proof.
  intros Hok. unfold Remove. destruct (DistRef.Validate d) as [u|e] eqn:Hv; [|done].
  assert (Hd : valid d) by (unfold valid; by rewrite Hv).
  destruct (position_entry es d Hok Hd) as (H1 & H2 & H3). set (i := position _ es) in *.
  assert (Hsame : d ∉ All es → ∀ x, x ∈ All es ↔ x ≠ d ∧ x ∈ All es) by (intros ? x; split; [|by intros [_ ?]]; by intros ?; split; [intros ->|]).
  destruct (es !! i) as [x|] eqn:Hx.
  2: { intros [= <-]. split; [done|]. apply Hsame. intros Hin. destruct (H3 Hin) as (y & ? & _). congruence. }
  unfold streqb. case_bool_decide as Hdx; simpl; intros [= <-].
  2: { split; [done|]. apply Hsame. intros Hin. destruct (H3 Hin) as (y & ? & ?). by simplify_eq. }
  pose proof (take_drop_middle es i x Hx) as Hes. assert (Hok' := Hok). rewrite <-Hes in Hok'.
  destruct Hok' as [Hs Hn He]. rewrite <-Permutation_middle in Hn, He. apply NoDup_cons in Hn as [Hnx Hn]. inversion He as [|? ? _ He']; subst. split.
  - split; [|done|done]. apply StronglySorted_app in Hs as (Hc & Hs1 & Hs2). apply StronglySorted_cons in Hs2 as [_ Hs2].
    apply StronglySorted_app_2; [|done|done]. intros a b Ha Hb. apply Hc; [done|by right].
  - intros y. assert (Hy : y ∈ All es ↔ y = digest x ∨ y ∈ All (take i es ++ drop (S i) es)).
    { unfold All. rewrite <-Hes at 1. rewrite <-Permutation_middle, fmap_cons, elem_of_cons. done. }
    rewrite Hy. split; [|intros [? [?|?]]; done]. intros Hin. split; [|by right]. intros ->.
    apply list_elem_of_fmap in Hin as (z & Ez & Hz). apply Hnx. 
    rewrite Forall_forall in He'. destruct (He' z Hz) as [Ezz _].
    destruct (proj1 (Forall_forall _ _) (set_entries _ Hok) x) as [Exx _]; [by eapply list_elem_of_lookup_2|].
    assert (x = z) as -> by (rewrite Exx, Ezz, Ez; done). done.
Qed.

(** ** Lookup by the start of a digest *)

Lemma checkShortMatch_prefix a h s : checkShortMatch a h [] s = HasPrefix h s.
Proof.
  unfold checkShortMatch. simpl. destruct (Nat.eqb_spec (length h) (length s)) as [E|_]; [|by destruct (HasPrefix h s)].
  unfold streqb. case_bool_decide as Heq; simpl.
  - subst. symmetry. apply HasPrefix_spec. exists []. by rewrite app_nil_r.
  - destruct (HasPrefix h s) eqn:Hp; [|done]. exfalso. apply HasPrefix_spec in Hp as [t ->]. rewrite length_app in E.
    destruct t; simpl in *; [|lia]. by rewrite app_nil_r in Heq.
Qed.
Lemma leb_prefix d v t : leb d v = true → leb v (d ++ t) = true → ∃ u, v = d ++ u.
Proof.
  revert v. induction d as [|c d IH]; intros v; [by exists v|]. destruct v as [|e v]; [done|]. simpl.
  destruct (N.ltb_spec (N_of_ascii c) (N_of_ascii e)), (N.ltb_spec (N_of_ascii e) (N_of_ascii c)); try done; try lia.
  intros H1 H2. destruct (IH v H1 H2) as [u ->]. exists u.
  rewrite <-(ascii_N_embedding c), <-(ascii_N_embedding e). by replace (N_of_ascii e) with (N_of_ascii c) by lia.
Qed.
(** Past the first string without the prefix there is none with it. *)
Lemma prefix_range d v w : leb d v = true → HasPrefix v d = false → leb v w = true → HasPrefix w d = false.
Proof.
  intros H1 H2 H3. destruct (HasPrefix w d) eqn:E; [|done]. apply HasPrefix_spec in E as [t ->].
  destruct (leb_prefix d v t H1 H3) as [u ->]. rewrite <-H2. symmetry. apply HasPrefix_spec. by exists u.
Qed.
Lemma leb_prefix_ge d t : leb d (d ++ t) = true.
Proof. induction d as [|c d IH]; [done|]. simpl. by rewrite N.ltb_irrefl. Qed.

Definition starting (d : gostring) (es : digestEntries) : list gostring := filter (fun x => HasPrefix (Hex x) d = true) (All es).

Lemma starting_app d es1 es2 : starting d (es1 ++ es2) = starting d es1 ++ starting d es2.
Proof. unfold starting, All. by rewrite fmap_app, filter_app. Qed.
Lemma starting_none d es : Forall (fun e => e = entry_of (digest e) ∧ HasPrefix (val e) d = false) es → starting d es = [].
Proof.
  induction 1 as [|e es [He Hp] _ IH]; [done|]. unfold starting, All in *. rewrite fmap_cons, filter_cons_False; [done|].
  rewrite He in Hp. simpl in Hp. congruence.
Qed.
Lemma starting_cons d e es : e = entry_of (digest e) → HasPrefix (val e) d = true → starting d (e :: es) = digest e :: starting d es.
Proof. intros He Hp. unfold starting, All. rewrite fmap_cons, filter_cons_True; [done|]. rewrite He in Hp. done. Qed.

Lemma Lookup_short es d :
  set_ok es → DistRef.Validate d = Err DistRef.ErrChecksumInvalidFormat →
  Lookup d es = match starting d es with
                | [] => Err ErrDigestNotFound
                | [x] => Ok x
                | _ => Err ErrDigestAmbiguous
                end.
Proof.
  intros Hok Hv. unfold Lookup. rewrite Hv. case_bool_decide as Hes; [by subst|]. cbn iota zeta.
  destruct (position_spec entry_le (fun x => leb d (val x)) es) as (H1 & H2 & _); [apply Hok| |].
  { intros x y Hxy Hx. eapply leb_trans; [exact Hx|]. by apply entry_le_val. }
  set (i := position _ es) in *. assert (Hst : starting d es = starting d (drop i es)).
  { rewrite <-(take_drop i es) at 1. rewrite starting_app, starting_none; [done|]. apply Forall_forall. intros x Hx. rewrite Forall_forall in H1. specialize (H1 x Hx). simpl in H1. split.
    - apply (proj1 (Forall_forall _ _) (set_entries _ Hok) x). rewrite <-(take_drop i es). apply elem_of_app. by left.
    - destruct (HasPrefix (val x) d) eqn:E; [|done]. apply HasPrefix_spec in E as [t E]. rewrite E, leb_prefix_ge in H1. done. }
  rewrite Hst. simpl. pose proof (lookup_drop es i 0) as L0. pose proof (lookup_drop es i 1) as L1. rewrite Nat.add_0_r in L0. rewrite Nat.add_1_r in L1.
  rewrite <-L0, <-L1.
  assert (Hs : StronglySorted entry_le (drop i es)) by (eapply StronglySorted_app_1_r; rewrite take_drop; apply Hok).
  assert (He : Forall (fun e => e = entry_of (digest e) ∧ valid (digest e)) (drop i es))
    by (apply Forall_drop; apply Hok).
  assert (Hnone : ∀ e l, Forall (fun x => leb d (val x) = true) (e :: l) → StronglySorted entry_le (e :: l) →
    Forall (fun e => e = entry_of (digest e) ∧ valid (digest e)) (e :: l) → HasPrefix (val e) d = false → starting d (e :: l) = []).
  { intros e l Hge Hs' He' Hp. apply starting_none. apply Forall_forall. intros x Hx. split.
    { by apply (proj1 (Forall_forall _ _) He' x). }
    apply elem_of_cons in Hx as [->|Hx]; [done|]. apply StronglySorted_cons in Hs' as [Hall _]. rewrite Forall_forall in Hall.
    inversion Hge; subst. eapply prefix_range; [done|done|]. by apply entry_le_val, Hall. }
  destruct (drop i es) as [|e l]; [done|]. simpl. rewrite !checkShortMatch_prefix.
  destruct (HasPrefix (val e) d) eqn:Hp; simpl; [|by rewrite (Hnone e l)].
  inversion He as [|? ? [He0 Hve] Hel]; subst.
  assert (Ha : alg e ≠ []) by (rewrite He0; by apply valid_split).
  assert (alg e =s [] = false) as -> by (by apply bool_decide_eq_false). simpl. rewrite (starting_cons d e l He0 Hp).
  destruct l as [|f l]; [done|]. simpl. rewrite checkShortMatch_prefix. inversion Hel as [|? ? [Hf0 Hvf] Hfl]; subst.
  destruct (HasPrefix (val f) d) eqn:Hpf.
  - by rewrite (starting_cons d f l Hf0 Hpf).
  - rewrite (Hnone f l); [done|by inversion H2|by apply StronglySorted_cons in Hs as [_ ?]|done|done].
Qed.

(** Looking up a string that is not itself a digest finds the digest that starts with it
    (after the algorithm's name) when there is exactly one, reports ambiguity when there are
    several, and that there is none otherwise. *)
Theorem Lookup_prefix es d :
  set_ok es → DistRef.Validate d = Err DistRef.ErrChecksumInvalidFormat →
  Lookup d es = match starting d es with
                | [] => Err ErrDigestNotFound
                | [x] => Ok x
                | _ => Err ErrDigestAmbiguous
                end.
Proof. intros Hok Hv. by apply Lookup_short. Qed.

(** A digest of the set is found by its full text, and only those of the set are. *)
Lemma Lookup_full es d : set_ok es → valid d → (d ∈ All es → Lookup d es = Ok d).
Proof.
  intros Hok Hd Hin. unfold Lookup. case_bool_decide as Hes; [subst; by apply elem_of_nil in Hin|].
  unfold valid in Hd. destruct (DistRef.Validate d) as [u|] eqn:Hv; [|done].
  destruct (position_entry es d Hok) as (_ & _ & H3); [unfold valid; by rewrite Hv|].
  destruct (H3 Hin) as (x & Hx & Hdx). unfold entry_of in Hx. rewrite Hx.
  destruct (proj1 (Forall_forall _ _) (set_entries _ Hok) x) as [Ex _]; [by eapply list_elem_of_lookup_2|].
  rewrite Hdx in Ex. rewrite Ex. simpl. unfold checkShortMatch. rewrite Nat.eqb_refl. unfold streqb.
  rewrite !bool_decide_eq_true_2 by done. simpl. by rewrite andb_false_r.
Qed.

Definition demo_digest (c : ascii) : gostring := "sha256:" ++ replicate 63 c ++ ["0"%char].
Definition demo_set : digestEntries :=
  match Add (demo_digest "a") [] with Ok es => match Add (demo_digest "b") es with Ok es => es | _ => [] end | _ => [] end.
Lemma demo_set_ok : set_ok demo_set.
Proof.
  unfold demo_set. destruct (Add (demo_digest "a") []) as [es|] eqn:E1; [|apply set_ok_nil].
  apply Add_spec in E1 as [H1 _]; [|apply set_ok_nil]. destruct (Add (demo_digest "b") es) as [es2|] eqn:E2; [|apply set_ok_nil].
  by apply Add_spec in E2 as [H2 _].
Qed.
Lemma Lookup_prefix_witness : Lookup "bb" demo_set = Ok (demo_digest "b").
Proof. rewrite (Lookup_prefix demo_set "bb" demo_set_ok); vm_compute; reflexivity. Defined.
