(* ===== verification/LayerDiffFacts.v ===== *)
(** * LayerDiffFacts: applying a difference reproduces the layer

    Theorems about [LayerDiff]: the changes between two directories are found, also
    when subtrees that are the same files are skipped, and extracting their archive over
    the old directory gives the new one.  Files whose names look like whiteouts are
    excluded, and examples show why. *)

From S2P Require Import Prelude Strconv GoPath IdTools RefStore DigestSet LayerDiff.
Import Strings GoPath IdTools LayerDiff.LayerDiff.

Local Open Scope Z_scope.

(** ** Paths as strings *)

Section paths.
  Implicit Types (n : gostring) (p q : path).

Definition good_name n : Prop := plain_elem n ∧ n ≠ "..".
Definition good p : Prop := Forall good_name p.

Lemma good_nil : good [].
Proof. constructor. Qed.
#[local] Hint Resolve good_nil : core.

Lemma push_good r st p : good p → foldl (push_elem r) st p = rev p ++ st.
Proof.
  intros Hp. revert st. induction Hp as [|n p [(H1&H2&H3) H4] Hp IH]; intros st; [done|]. simpl. rewrite IH, <-app_assoc. simpl. do 2 f_equal.
  unfold push_elem. rewrite (streqb_ne n []), (streqb_ne n "."), (streqb_ne n "..") by done. done.
Qed.
Lemma good_slash_free p : good p → Forall (fun e => ch "/" ∉ e) p.
Proof. intros Hp. eapply Forall_impl; [exact Hp|]. by intros n [(?&?&?) ?]. Qed.
Lemma good_ne p : good p → Forall (fun e => e ≠ []) p.
Proof. intros Hp. eapply Forall_impl; [exact Hp|]. by intros n [(?&?&?) ?]. Qed.
Lemma Split_good p : good p → p ≠ [] → Split (Join p "/") "/" = p.
Proof. intros Hp Hne. apply Split_Join_char; [done|by apply good_slash_free]. Qed.
Lemma foldl_split r st p : good p → foldl (push_elem r) st (Split (Join p "/") "/") = rev p ++ st.
Proof. intros Hp. destruct (decide (p = [])) as [->|Hne]; [done|]. rewrite Split_good by done. by apply push_good. Qed.

Lemma elems_path p : good p → elems (path_string p) = p.
Proof.
  intros Hp. unfold elems, clean_elems, path_string. rewrite Split_slash_cons. cbn [foldl]. rewrite push_elem_nil, foldl_split by done.
  by rewrite app_nil_r, rev_involutive.
Qed.
Lemma path_of_string p : good p → path_of (path_string p) = p.
Proof.
  intros Hp. unfold path_of, path_string. destruct (decide (p = [])) as [->|Hne]; [done|]. simpl.
  rewrite streqb_ne; [by apply Split_good|]. intros [= Hj]. by apply (Join_ne p Hne (good_ne _ Hp)).
Qed.
Lemma path_string_inj p q : good p → good q → path_string p = path_string q → p = q.
Proof. intros Hp Hq E. by rewrite <-(path_of_string p), <-(path_of_string q), E. Qed.
Lemma good_app p q : good (p ++ q) ↔ good p ∧ good q.
Proof. apply Forall_app. Qed.
Lemma path_string_app p q : p ≠ [] → q ≠ [] → path_string (p ++ q) = path_string p ++ "/" ++ Join q "/".
Proof. intros Hp Hq. unfold path_string. by rewrite Join_app. Qed.

Lemma Clean_below p q : good p → good q → Clean (path_string p ++ "/" ++ Join q "/") = path_string (p ++ q).
Proof.
  intros Hp Hq. unfold Clean. rewrite streqb_ne by done. change (IsAbs _) with true. cbv iota. unfold path_string at 2. f_equal. f_equal.
  unfold clean_elems. change ("/" ++ Join q "/") with (ch "/" :: Join q "/"). rewrite (Split_app (ch "/")), foldl_app.
  unfold path_string. rewrite Split_slash_cons. cbn [foldl]. rewrite push_elem_nil, !foldl_split by done.
  by rewrite app_nil_r, <-rev_app_distr, rev_involutive.
Qed.
Lemma PathJoin_path p q : good p → good q → PathJoin [path_string p; Join q "/"] = path_string (p ++ q).
Proof.
  intros Hp Hq. unfold PathJoin. rewrite filter_cons_True by done. destruct (decide (q = [])) as [->|Hne].
  - rewrite filter_cons_False, filter_nil by naive_solver. cbn [Join]. rewrite <-(Clean_below p []) by done.
    unfold Clean. rewrite !streqb_ne by done. change (IsAbs _) with true. cbv iota. f_equal. f_equal. unfold clean_elems.
    change ("/" ++ Join [] "/") with (ch "/" :: []). rewrite (Split_app (ch "/") (path_string p)). by rewrite foldl_app.
  - rewrite filter_cons_True by (by apply Join_ne, good_ne). rewrite filter_nil. cbn [Join]. by apply Clean_below.
Qed.
Lemma PathJoin_dot p : good p → PathJoin [path_string p; "."] = path_string p.
Proof.
  intros Hp. unfold PathJoin. rewrite !filter_cons_True by done. rewrite filter_nil. cbn [Join]. transitivity (Clean (path_string p ++ "/" ++ Join [] "/")); [|rewrite Clean_below by done; by rewrite app_nil_r].
  unfold Clean. rewrite !streqb_ne by done. change (IsAbs _) with true. cbv iota. f_equal. f_equal. unfold clean_elems.
  change ("/" ++ ".") with (ch "/" :: "."). change ("/" ++ Join [] "/") with (ch "/" :: []). by rewrite !(Split_app (ch "/") (path_string p)), !foldl_app.
Qed.
Lemma Rel_path p q : good p → good q → Rel (path_string p) (path_string (p ++ q)) = q.
Proof.
  intros Hp Hq. unfold Rel. rewrite !elems_path by (by try apply good_app). assert (strip_common p (p ++ q) = ([], q)) as ->; [|done].
  clear. induction p as [|n p IH]; [by destruct q|]. simpl. unfold streqb. by rewrite bool_decide_true.
Qed.

Lemma Clean_rel p s : good p → p ≠ [] → s = [] ∨ s = "/" → Clean (Join p "/" ++ s) = Join p "/".
Proof.
  intros Hp Hne Hs. pose proof (Join_ne p Hne (good_ne _ Hp)) as Hj. unfold Clean. rewrite streqb_ne by (intros E; by apply app_eq_nil in E as [? _]).
  assert (Ha : IsAbs (Join p "/" ++ s) = false).
  { destruct p as [|n p]; [done|]. apply Forall_cons in Hp as [[(Hn&_&Hsl) _] _]. unfold IsAbs. apply not_true_iff_false. intros [t Ht]%HasPrefix_spec.
    destruct n as [|c n]; [done|]. destruct p; simpl in Ht; injection Ht as -> _; apply Hsl; by left. }
  rewrite Ha. assert (clean_elems false (Split (Join p "/" ++ s) "/") = p) as ->.
  { unfold clean_elems. destruct Hs as [->| ->].
    - rewrite app_nil_r, foldl_split by done. by rewrite app_nil_r, rev_involutive.
    - rewrite (Split_app (ch "/")), foldl_app, foldl_split by done. change (Split [] "/") with [[] : gostring]. simpl. by rewrite push_elem_nil, app_nil_r, rev_involutive. }
  by rewrite streqb_ne.
Qed.

Lemma split_last_snoc q n : ch "/" ∉ n → q ≠ [] → split_last (ch "/") (Join (q ++ [n]) "/") = Some (Join q "/", n).
Proof. intros Hn Hq. apply split_last_Some. split; [|done]. by rewrite Join_app. Qed.
Lemma TrimRight_good s n : ch "/" ∉ n → n ≠ [] → TrimRight (s ++ n) "/" = s ++ n.
Proof.
  intros Hn Hne. unfold TrimRight, TrimRightFunc. destruct (rev n) as [|c m] eqn:E; [by destruct Hne; rewrite <-(rev_involutive n), E|].
  assert (Hc : c ∈ n). { apply list_elem_of_In, in_rev. rewrite E. by left. }
  rewrite rev_app_distr, E. simpl. rewrite bool_decide_false; [|intros ->%list_elem_of_singleton; done].
  change (c :: m ++ rev s) with ((c :: m) ++ rev s). by rewrite <-E, <-rev_app_distr, rev_involutive.
Qed.
Lemma Join_snoc_suffix q n : ∃ s, Join (q ++ [n]) "/" = s ++ n.
Proof. destruct q as [|m q]; [by exists []|]. exists (Join (m :: q) "/" ++ "/"). rewrite Join_app by done. by rewrite <-app_assoc. Qed.

Lemma Base_path q n s : good (q ++ [n]) → s = [] ∨ s = "/" → Base (s ++ Join (q ++ [n]) "/") = n.
Proof.
  intros [Hq [[(Hn&_&Hs) _] _]%Forall_cons]%good_app Hsl. unfold Base. destruct (Join_snoc_suffix q n) as [t Ht].
  assert (s ++ Join (q ++ [n]) "/" ≠ []) by (rewrite Ht; intros [_ [_ ?]%app_eq_nil]%app_eq_nil; done).
  rewrite streqb_ne by done. rewrite Ht, app_assoc, TrimRight_good by done. rewrite <-app_assoc, <-Ht.
  assert ((PathSplit (s ++ Join (q ++ [n]) "/")).2 = n) as ->; [|by rewrite streqb_ne].
  unfold PathSplit. destruct (decide (q = [])) as [->|Hqn].
  - destruct Hsl as [->| ->]; simpl.
    + by rewrite (proj2 (split_last_None _ n)).
    + by rewrite (proj2 (split_last_Some (ch "/") (ch "/" :: n) [] n)).
  - rewrite (proj2 (split_last_Some (ch "/") _ (s ++ Join q "/") n)); [done|]. split; [|done]. rewrite Join_app by done. by rewrite <-!app_assoc.
Qed.
Lemma Base_string q n : good (q ++ [n]) → Base (path_string (q ++ [n])) = n.
Proof. intros H. apply (Base_path q n "/"); [done|by right]. Qed.

Lemma Dir_string q n : good (q ++ [n]) → Dir (path_string (q ++ [n])) = path_string q.
Proof.
  intros [Hq [[(Hn&_&Hs) _] _]%Forall_cons]%good_app. unfold Dir, PathSplit, path_string. destruct (decide (q = [])) as [->|Hqn].
  - by rewrite (proj2 (split_last_Some (ch "/") (ch "/" :: Join ([] ++ [n]) "/") [] n)).
  - rewrite (proj2 (split_last_Some (ch "/") _ (ch "/" :: Join q "/") n)); [|split; [|done]; by rewrite Join_app]. simpl.
    change (ch "/" :: Join q "/" ++ "/") with (path_string q ++ "/" ++ Join [] "/"). rewrite Clean_below by done. by rewrite app_nil_r.
Qed.
Lemma Dir_rel q n : good (q ++ [n]) → Dir (Join (q ++ [n]) "/") = if decide (q = []) then "." else Join q "/".
Proof.
  intros [Hq [[(Hn&_&Hs) _] _]%Forall_cons]%good_app. unfold Dir, PathSplit. destruct (decide (q = [])) as [->|Hqn].
  - simpl. by rewrite (proj2 (split_last_None _ n)).
  - rewrite (proj2 (split_last_Some (ch "/") _ (Join q "/") n)); [|split; [|done]; by rewrite Join_app]. simpl. apply Clean_rel; [done|done|by right].
Qed.

(** A directory comes before what is in it. *)
Lemma path_string_le p q : leb (path_string p) (path_string (p ++ q)) = true.
Proof.
  destruct (decide (q = [])) as [->|Hq]; [rewrite app_nil_r; apply leb_refl|]. destruct (decide (p = [])) as [->|Hp]; [simpl; by destruct (Join q "/")|].
  rewrite path_string_app by done. apply leb_prefix_ge.
Qed.
End paths.

Lemma elem_of_concat {A} (x : A) ls : x ∈ concat ls ↔ ∃ l, x ∈ l ∧ l ∈ ls.
Proof. setoid_rewrite list_elem_of_In. rewrite in_concat. naive_solver. Qed.

(** ** Trees *)

Section trees.
  Implicit Types (m d : tree) (p q r : path) (n : gostring) (e : entry).

(** Every file is in a directory; names are names. *)
Record wf_tree m : Prop := {
  wf_root : ∃ e, m !! [] = Some e ∧ IsDir e = true;
  wf_parent : ∀ p n e, m !! (p ++ [n]) = Some e → ∃ f, m !! p = Some f ∧ IsDir f = true;
  wf_names : ∀ p e, m !! p = Some e → good p
}.

Lemma wf_prefix m p q e : wf_tree m → m !! (p ++ q) = Some e → q ≠ [] → ∃ f, m !! p = Some f ∧ IsDir f = true.
Proof.
  intros Hw. revert e. induction q as [|n q IH] using rev_ind; [done|]. intros e He _. rewrite app_assoc in He.
  apply (wf_parent _ Hw) in He as (d&Hd&Hdir). destruct (decide (q = [])) as [->|Hne]; [rewrite app_nil_r in Hd; eauto|by eapply IH].
Qed.

Lemma child_of_iff p q n : child_of p q = Some n ↔ q = p ++ [n].
Proof.
  unfold child_of. split.
  - intros H. destruct (drop (length p) q) as [|x [|]] eqn:E; try done. case_bool_decide as Ht; [|done]. injection H as ->.
    by rewrite <-(take_drop (length p) q), Ht, E.
  - intros ->. rewrite drop_app_length, bool_decide_true; [done|]. by rewrite take_app_length.
Qed.
Lemma elem_of_children m p n : n ∈ children m p ↔ is_Some (m !! (p ++ [n])).
Proof.
  unfold children. rewrite list_elem_of_omap. split.
  - intros ([q e]&Hq&Hc). simpl in Hc. apply child_of_iff in Hc as ->. apply elem_of_map_to_list in Hq. eauto.
  - intros [e He]. exists (p ++ [n], e). split; [by apply elem_of_map_to_list|by apply child_of_iff].
Qed.
Lemma depth_bound m p e : m !! p = Some e → (length p ≤ depth m)%nat.
Proof.
  intros He. apply elem_of_map_to_list in He. unfold depth. induction (map_to_list m) as [|x l IH]; [by apply not_elem_of_nil in He|].
  simpl. apply elem_of_cons in He as [<-|He]; simpl; [lia|]. specialize (IH He). lia.
Qed.

(** *** The names in a directory *)

Lemma elem_of_readdir m p n i : (n, i) ∈ readdirnames m p ↔ ∃ e, m !! (p ++ [n]) = Some e ∧ st_ino e = i.
Proof.
  unfold readdirnames. rewrite merge_sort_Permutation, list_elem_of_omap. setoid_rewrite elem_of_children. split.
  - intros (n'&[e He]&Hb). rewrite He in Hb. simpl in Hb. injection Hb as -> <-. eauto.
  - intros (e&He&<-). exists n. split; [eauto|]. by rewrite He.
Qed.
#[export] Instance name_le_total : Total name_le.
Proof. intros a b. apply leb_total. Qed.
#[export] Instance name_le_trans : Transitive name_le.
Proof. intros a b c. apply leb_trans. Qed.
Lemma readdir_sorted m p : StronglySorted name_le (readdirnames m p).
Proof. unfold readdirnames. apply Sorted_StronglySorted; [apply _|]. apply Sorted_merge_sort, _. Qed.
Lemma readdir_functional m p n i j : (n, i) ∈ readdirnames m p → (n, j) ∈ readdirnames m p → i = j.
Proof. rewrite !elem_of_readdir. intros (e&He&<-) (e'&He'&<-). congruence. Qed.
Lemma NoDup_children m p : NoDup (children m p).
Proof.
  unfold children. pose proof (NoDup_fst_map_to_list m) as Hn. induction (map_to_list m) as [|[q e] l IH]; [constructor|].
  cbn [fmap list_fmap] in Hn. apply NoDup_cons in Hn as [Hq Hn]. simpl. destruct (child_of p q) as [n|] eqn:E; [|by apply IH].
  constructor; [|by apply IH]. rewrite list_elem_of_omap. intros ([q' e']&Hin&E'). simpl in E'. apply child_of_iff in E as ->. apply child_of_iff in E' as ->.
  apply Hq, list_elem_of_fmap. by exists (p ++ [n], e').
Qed.
Lemma readdir_names m p : NoDup (readdirnames m p).*1.
Proof.
  unfold readdirnames. rewrite merge_sort_Permutation. pose proof (NoDup_children m p) as Hn. induction Hn as [|n l Hl Hn IH]; [constructor|].
  simpl. destruct (m !! (p ++ [n])) as [e|]; simpl; [|done]. constructor; [|done]. rewrite list_elem_of_fmap. intros ([n' i]&->&Hin).
  apply list_elem_of_omap in Hin as (n''&Hin&E). simpl in *. destruct (m !! (p ++ [n''])); simpl in E; [|done]. injection E as -> _. done.
Qed.

(** *** The merge of the names *)

Lemma name_le_head (x : gostring * Z) l y : StronglySorted name_le (x :: l) → NoDup (x :: l).*1 → y ∈ l → x.1 ≠ y.1 ∧ leb x.1 y.1 = true.
Proof.
  intros Hs Hn Hy. apply StronglySorted_cons in Hs as [Hall _]. apply NoDup_cons in Hn as [Hx _]. rewrite Forall_forall in Hall. split.
  - intros E. apply Hx. rewrite E. by apply list_elem_of_fmap_2.
  - by apply Hall.
Qed.
Lemma name_before n (x : gostring * Z) l : n ≠ x.1 → leb n x.1 = true → StronglySorted name_le (x :: l) → n ∉ (x :: l).*1.
Proof.
  intros Hne Hle [Hall _]%StronglySorted_cons Hin. cbn [fmap list_fmap] in Hin. apply elem_of_cons in Hin as [->|Hin]; [done|].
  apply list_elem_of_fmap in Hin as (y&->&Hy). rewrite Forall_forall in Hall. apply Hne. apply leb_antisym; [done|]. by apply Hall.
Qed.
Lemma in_names n i (l : list (gostring * Z)) : (n, i) ∈ l → n ∈ l.*1.
Proof. intros H. by apply (list_elem_of_fmap_2 fst) in H. Qed.
Lemma merge_names_spec sd l1 l2 n :
  StronglySorted name_le l1 → NoDup l1.*1 → StronglySorted name_le l2 → NoDup l2.*1 →
  n ∈ merge_names sd l1 l2 ↔ (n ∈ l1.*1 ∨ n ∈ l2.*1) ∧ ¬ (sd = true ∧ ∃ i, (n, i) ∈ l1 ∧ (n, i) ∈ l2).
Proof.
  revert l2. induction l1 as [|[n1 i1] r1 IH1]; intros l2 Hs1 Hn1 Hs2 Hn2.
  { destruct l2; simpl; set_solver. }
  induction l2 as [|[n2 i2] r2 IH2]; [simpl; set_solver|].
  assert (StronglySorted name_le r1 ∧ NoDup r1.*1 ∧ n1 ∉ r1.*1) as (Hs1'&Hn1'&Hx1) by (apply StronglySorted_cons in Hs1; apply NoDup_cons in Hn1; naive_solver).
  assert (StronglySorted name_le r2 ∧ NoDup r2.*1 ∧ n2 ∉ r2.*1) as (Hs2'&Hn2'&Hx2) by (apply StronglySorted_cons in Hs2; apply NoDup_cons in Hn2; naive_solver).
  cbn [merge_names]. unfold streqb. case_bool_decide as E.
  - subst n2. rewrite elem_of_app, IH1 by done. cbn [fmap list_fmap fst]. rewrite !elem_of_cons. destruct (decide (n = n1)) as [->|Hne].
    + assert (Hi : (∃ i, (n1, i) ∈ (n1, i1) :: r1 ∧ (n1, i) ∈ (n1, i2) :: r2) ↔ i1 = i2).
      { split; [|intros ->; exists i2; split; by left]. intros (i&[[= ->]|H1]%elem_of_cons&[[= ->]|H2]%elem_of_cons); [done|by apply in_names in H2|by apply in_names in H1..]. }
      rewrite Hi. clear Hi. split.
      * intros [H|[[H|H] _]]; [|done|done]. split; [by left; left|]. intros [-> ->]. rewrite Z.eqb_refl in H. by apply not_elem_of_nil in H.
      * intros [_ Hn]. left. destruct (Z.eqb_spec i1 i2), sd; simpl; [by destruct Hn|by left..].
    + assert (Hi : ∀ i, ((n, i) ∈ (n1, i1) :: r1 ↔ (n, i) ∈ r1) ∧ ((n, i) ∈ (n1, i2) :: r2 ↔ (n, i) ∈ r2)).
      { intros i. rewrite !elem_of_cons. naive_solver. }
      setoid_rewrite (fun i => proj1 (Hi i)). setoid_rewrite (fun i => proj2 (Hi i)).
      assert (n ∉ (if (i1 =? i2) && sd then [] else [n1])) by (case_match; [apply not_elem_of_nil|by rewrite list_elem_of_singleton]). naive_solver.
  - destruct (leb n1 n2) eqn:El.
    + pose proof (name_before n1 (n2, i2) r2 E El Hs2) as Hb. rewrite elem_of_cons, IH1 by done. clear -Hb. generalize dependent ((n2, i2) :: r2). intros l2 Hb.
      cbn [fmap list_fmap fst]. rewrite (elem_of_cons _ n n1). destruct (decide (n = n1)) as [->|Hne].
      * split; [|by left]. intros _. split; [by left; left|]. intros (_&i&_&H2). by apply in_names in H2.
      * assert (Hi : ∀ i, (n, i) ∈ (n1, i1) :: r1 ↔ (n, i) ∈ r1) by (intros i; rewrite elem_of_cons; naive_solver). setoid_rewrite Hi. naive_solver.
    + assert (El' : leb n2 n1 = true) by (destruct (leb_total n1 n2); congruence). assert (E' : n2 ≠ n1) by done.
      pose proof (name_before n2 (n1, i1) r1 E' El' Hs1) as Hb. specialize (IH2 Hs2' Hn2').
      change (n ∈ n2 :: merge_names sd ((n1, i1) :: r1) r2 ↔ (n ∈ ((n1, i1) :: r1).*1 ∨ n ∈ ((n2, i2) :: r2).*1) ∧ ¬ (sd = true ∧ ∃ i, (n, i) ∈ (n1, i1) :: r1 ∧ (n, i) ∈ (n2, i2) :: r2)).
      rewrite elem_of_cons, IH2. clear -Hb. generalize dependent ((n1, i1) :: r1). intros l1 Hb.
      cbn [fmap list_fmap fst]. rewrite (elem_of_cons _ n n2). destruct (decide (n = n2)) as [->|Hne].
      * split; [|by left]. intros _. split; [by right; left|]. intros (_&i&H1&_). by apply in_names in H1.
      * assert (Hi : ∀ i, (n, i) ∈ (n2, i2) :: r2 ↔ (n, i) ∈ r2) by (intros i; rewrite elem_of_cons; naive_solver). setoid_rewrite Hi. naive_solver.
Qed.
(** *** What the walk registers *)

(** The same file in both trees, as the inodes say. *)
Definition pruned d1 d2 p n : Prop :=
  match d1 !! p, d2 !! p, d1 !! (p ++ [n]), d2 !! (p ++ [n]) with
  | Some f1, Some f2, Some e1, Some e2 => st_dev f1 = st_dev f2 ∧ st_ino e1 = st_ino e2
  | _, _, _, _ => False
  end.
(** No step from [p] on is skipped. *)
Fixpoint visible d1 d2 p (rest : path) : Prop :=
  match rest with
  | [] => True
  | n :: rest => ¬ pruned d1 d2 p n ∧ visible d1 d2 (p ++ [n]) rest
  end.

Lemma elem_of_here p q (x : option entry * option entry) i1 i2 :
  (q, x) ∈ (if bool_decide (p = []) then [] else [(p, (i1, i2))]) ↔ p ≠ [] ∧ q = p ∧ x = (i1, i2).
Proof. case_bool_decide; [split; [by intros ?%not_elem_of_nil|naive_solver]|]. rewrite list_elem_of_singleton. naive_solver. Qed.
Lemma walk_shape fuel d1 d2 p i1 i2 q x : (q, x) ∈ walk fuel d1 d2 p i1 i2 → ∃ rest, q = p ++ rest.
Proof.
  assert (Hh : ∀ p, p ≠ [] ∧ q = p ∧ x = (i1, i2) → ∃ rest, q = p ++ rest) by (intros p' (_&->&_); exists []; by rewrite app_nil_r).
  revert p i1 i2 Hh. induction fuel as [|fuel IH]; intros p i1 i2 Hh; cbn [walk]; [rewrite elem_of_here; by apply Hh|].
  destruct (negb (default false (IsDir <$> i1)) && _); [rewrite elem_of_here; by apply Hh|].
  rewrite elem_of_app, elem_of_here, elem_of_concat. intros [H1|(l&Hin&Hl)]; [by apply Hh|]. apply list_elem_of_fmap in Hl as (n&->&_).
  apply IH in Hin as [rest ->]; [exists (n :: rest); by rewrite <-app_assoc|]. intros p' (_&->&_). exists []. by rewrite app_nil_r.
Qed.

Lemma dir_child d p n : wf_tree d → (if default false (IsDir <$> d !! p) then d !! (p ++ [n]) else None) = d !! (p ++ [n]).
Proof.
  intros Hw. destruct (d !! (p ++ [n])) as [e|] eqn:E; [|by case_match]. apply (wf_parent _ Hw) in E as (f&->&Hf). simpl. by rewrite Hf.
Qed.
Lemma dir_names d p n : wf_tree d → n ∈ (if default false (IsDir <$> d !! p) then readdirnames d p else []).*1 ↔ is_Some (d !! (p ++ [n])).
Proof.
  intros Hw. rewrite list_elem_of_fmap. split.
  - intros ([n' i]&->&Hin). case_match; [|by apply not_elem_of_nil in Hin]. apply elem_of_readdir in Hin as (e&He&_). eauto.
  - intros [e He]. exists (n, st_ino e). split; [done|]. pose proof (wf_parent _ Hw _ _ _ He) as (f&Hf&Hd). rewrite Hf. simpl. rewrite Hd.
    apply elem_of_readdir. eauto.
Qed.
Lemma walk_names d1 d2 p n :
  wf_tree d1 → wf_tree d2 →
  n ∈ merge_names (match d1 !! p, d2 !! p with Some e1, Some e2 => st_dev e1 =? st_dev e2 | _, _ => false end)
        (if default false (IsDir <$> d1 !! p) then readdirnames d1 p else []) (if default false (IsDir <$> d2 !! p) then readdirnames d2 p else []) ↔
  (is_Some (d1 !! (p ++ [n])) ∨ is_Some (d2 !! (p ++ [n]))) ∧ ¬ pruned d1 d2 p n.
Proof.
  intros H1 H2. rewrite merge_names_spec; [|case_match; [apply readdir_sorted|constructor]|case_match; [apply readdir_names|constructor]
    |case_match; [apply readdir_sorted|constructor]|case_match; [apply readdir_names|constructor]].
  rewrite !dir_names by done. apply and_iff_compat_l, not_iff_compat. unfold pruned.
  assert (Hd : ∀ d i, wf_tree d → (n, i) ∈ (if default false (IsDir <$> d !! p) then readdirnames d p else []) ↔ ∃ e, d !! (p ++ [n]) = Some e ∧ st_ino e = i).
  { intros d i Hw. rewrite <-elem_of_readdir. case_match eqn:E; [done|]. split; [by intros ?%not_elem_of_nil|].
    intros (e&He&_)%elem_of_readdir. apply (wf_parent _ Hw) in He as (f&Hf&Hdir). rewrite Hf in E. simpl in E. congruence. }
  setoid_rewrite Hd; [|done..]. split.
  - intros (Hs&i&(e1&He1&<-)&(e2&He2&Hi)). destruct (d1 !! p), (d2 !! p); [|done..]. rewrite He1, He2. split; [by apply Z.eqb_eq|done].
  - destruct (d1 !! p), (d2 !! p), (d1 !! (p ++ [n])) as [e1|], (d2 !! (p ++ [n])) as [e2|]; try done. intros [Hs Hi]. split; [by apply Z.eqb_eq|]. eauto 10.
Qed.

Lemma walk_spec fuel d1 d2 p rest x :
  wf_tree d1 → wf_tree d2 → (length rest ≤ fuel)%nat →
  (p ++ rest, x) ∈ walk fuel d1 d2 p (d1 !! p) (d2 !! p) ↔
  p ++ rest ≠ [] ∧ x = (d1 !! (p ++ rest), d2 !! (p ++ rest)) ∧ visible d1 d2 p rest ∧
  (rest ≠ [] → is_Some (d1 !! (p ++ rest)) ∨ is_Some (d2 !! (p ++ rest))).
Proof.
  intros Hw1 Hw2. pose proof elem_of_here as Hh. revert p fuel. induction rest as [|n rest IH]; intros p fuel Hf.
  - rewrite app_nil_r. assert (Hw : (p, x) ∈ walk fuel d1 d2 p (d1 !! p) (d2 !! p) ↔ (p, x) ∈ (if bool_decide (p = []) then [] else [(p, (d1 !! p, d2 !! p))])).
    { destruct fuel as [|fuel]; [done|]. cbn [walk]. destruct (negb (default false (IsDir <$> d1 !! p)) && _); [done|]. rewrite elem_of_app. split; [|by left]. intros [H1|H1]; [done|].
      apply elem_of_concat in H1 as (l&Hin&Hl). apply list_elem_of_fmap in Hl as (n&->&_). apply walk_shape in Hin as [r Hr].
      apply (f_equal length) in Hr. rewrite !length_app in Hr. simpl in Hr. lia. }
    rewrite Hw, Hh. simpl. naive_solver.
  - destruct fuel as [|fuel]; [simpl in Hf; lia|]. cbn [walk]. destruct (negb (default false (IsDir <$> d1 !! p)) && _) eqn:Ed.
    { rewrite Hh. split; [intros (_&E&_); apply (f_equal length) in E; rewrite length_app in E; simpl in E; lia|]. intros (_&_&_&Hs).
      apply andb_true_iff in Ed as [Ed1%negb_true_iff Ed2%negb_true_iff]. destruct Hs as [[e He]|[e He]]; [done|..].
      - apply (wf_prefix _ _ (n :: rest)) in He as (f&Hf1&Hf2); [|done|done]. rewrite Hf1 in Ed1. simpl in Ed1. congruence.
      - apply (wf_prefix _ _ (n :: rest)) in He as (f&Hf1&Hf2); [|done|done]. rewrite Hf1 in Ed2. simpl in Ed2. congruence. }
    rewrite elem_of_app, Hh, elem_of_concat. rewrite (cons_middle n p rest), app_assoc. cbn [visible].
    assert (Hex : is_Some (d1 !! ((p ++ [n]) ++ rest)) ∨ is_Some (d2 !! ((p ++ [n]) ++ rest)) → is_Some (d1 !! (p ++ [n])) ∨ is_Some (d2 !! (p ++ [n]))).
    { destruct (decide (rest = [])) as [->|Hne]; [by rewrite app_nil_r|]. intros [[e He]|[e He]].
      - apply wf_prefix in He as (f&Hf1&_); [|done..]. left. eauto.
      - apply wf_prefix in He as (f&Hf1&_); [|done..]. right. eauto. }
    specialize (IH (p ++ [n]) fuel ltac:(simpl in Hf; lia)). split.
    + intros [(_&E&_)|(l&Hin&Hl)]; [apply (f_equal length) in E; rewrite !length_app in E; simpl in E; lia|].
      apply list_elem_of_fmap in Hl as (n'&->&Hn'). rewrite !dir_child in Hin by done.
      assert (n' = n) as -> by (apply walk_shape in Hin as [r Hr]; rewrite <-!app_assoc in Hr; by apply app_inv_head in Hr; injection Hr).
      apply IH in Hin as (H1&H2&H3&H4). apply walk_names in Hn' as [H5 H6]; [|done..]. split_and!; [done|done|done|done|]. intros _.
      destruct (decide (rest = [])) as [->|Hne]; [by rewrite app_nil_r|by apply H4].
    + intros (H1&H2&[H3 H4]&H5). right. eexists. split; [|apply list_elem_of_fmap; exists n; split; [done|]].
      * rewrite !dir_child by done. apply IH. split_and!; [done|done|done|]. intros _. by apply H5; destruct p.
      * apply walk_names; [done..|]. split; [|done]. apply Hex, H5. by destruct p.
Qed.

(** The same without a bound on the depth: what is registered is what is there. *)
Lemma walk_deep fuel d1 d2 q x : wf_tree d1 → wf_tree d2 → (q, x) ∈ walk fuel d1 d2 [] (d1 !! []) (d2 !! []) → q ≠ [] ∧ x = (d1 !! q, d2 !! q) ∧ visible d1 d2 [] q.
Proof.
  intros H1 H2. enough (Hg : ∀ p, (q, x) ∈ walk fuel d1 d2 p (d1 !! p) (d2 !! p) → ∃ rest, q = p ++ rest ∧ q ≠ [] ∧ x = (d1 !! q, d2 !! q) ∧ visible d1 d2 p rest).
  { intros Hin. by destruct (Hg [] Hin) as (rest&->&?&?&?). }
  induction fuel as [|fuel IH]; intros p; cbn [walk].
  { rewrite elem_of_here. intros (Hne&->&->). exists []. by rewrite app_nil_r. }
  destruct (negb (default false (IsDir <$> d1 !! p)) && _).
  { rewrite elem_of_here. intros (Hne&->&->). exists []. by rewrite app_nil_r. }
  rewrite elem_of_app, elem_of_here, elem_of_concat. intros [(Hne&->&->)|(l&Hin&Hl)]; [exists []; by rewrite app_nil_r|].
  apply list_elem_of_fmap in Hl as (n&->&Hn). rewrite !dir_child in Hin by done. apply walk_names in Hn as [_ Hn]; [|done..].
  apply IH in Hin as (rest&->&?&?&?). exists (n :: rest). rewrite <-app_assoc in *. done.
Qed.
Lemma visible_app d1 d2 p r1 r2 : visible d1 d2 p (r1 ++ r2) ↔ visible d1 d2 p r1 ∧ visible d1 d2 (p ++ r1) r2.
Proof.
  revert p. induction r1 as [|n r1 IH]; intros p; simpl; [rewrite app_nil_r; naive_solver|]. rewrite IH, <-app_assoc. simpl. naive_solver.
Qed.

(** The two trees that are compared. *)
Lemma collect_spec d1 d2 p e :
  wf_tree d1 → wf_tree d2 →
  ((collectFileInfoForChanges d1 d2).1 !! p = Some e ↔ p ≠ [] ∧ d1 !! p = Some e ∧ visible d1 d2 [] p) ∧
  ((collectFileInfoForChanges d1 d2).2 !! p = Some e ↔ p ≠ [] ∧ d2 !! p = Some e ∧ visible d1 d2 [] p).
Proof.
  intros H1 H2. unfold collectFileInfoForChanges. set (l := walk _ _ _ _ _ _).
  assert (Hl : ∀ q x, (length q ≤ S (depth d1 + depth d2))%nat → (q, x) ∈ l ↔ q ≠ [] ∧ x = (d1 !! q, d2 !! q) ∧ visible d1 d2 [] q ∧ (q ≠ [] → is_Some (d1 !! q) ∨ is_Some (d2 !! q))).
  { intros q x Hq. apply (walk_spec (S (depth d1 + depth d2)) d1 d2 [] q x); done. }
  assert (Hl' : ∀ q x, (q, x) ∈ l → q ≠ [] ∧ x = (d1 !! q, d2 !! q) ∧ visible d1 d2 [] q).
  { intros q x Hin. by apply walk_deep in Hin. }
  assert (Hg : ∀ (sel : option entry * option entry → option entry) (d : tree), (∀ q x, (q, x) ∈ l → sel x = d !! q) →
    (∀ q e, d !! q = Some e → (length q ≤ S (depth d1 + depth d2))%nat) → (∀ q e, d !! q = Some e → is_Some (d1 !! q) ∨ is_Some (d2 !! q)) →
    (list_to_map (omap (fun x => e ← sel x.2; Some (x.1, e)) l) : tree) !! p = Some e ↔ p ≠ [] ∧ d !! p = Some e ∧ visible d1 d2 [] p).
  { intros sel d Hsel Hdep Hex. split.
    - intros Hm%elem_of_list_to_map_2. apply list_elem_of_omap in Hm as ([q x]&Hin&E). simpl in E. destruct (sel x) as [e'|] eqn:Ex; simpl in E; [|done].
      injection E as -> ->. rewrite (Hsel _ _ Hin) in Ex. apply Hl' in Hin as (?&_&?). done.
    - intros (Hne&He&Hv). apply elem_of_list_to_map_1'.
      + intros y Hy. apply list_elem_of_omap in Hy as ([q x]&Hin&E). simpl in E. destruct (sel x) as [e'|] eqn:Ex; simpl in E; [|done].
        injection E as -> ->. rewrite (Hsel _ _ Hin) in Ex. congruence.
      + apply list_elem_of_omap. exists (p, (d1 !! p, d2 !! p)). assert (Hin : (p, (d1 !! p, d2 !! p)) ∈ l).
        { apply Hl; [by eapply Hdep|]. split_and!; [done|done|done|]. intros _. by eapply Hex. }
        split; [done|]. simpl. rewrite (Hsel _ _ Hin), He. done. }
  split; cbn [fst snd].
  - apply (Hg fst d1); [|intros q f Hf; apply depth_bound in Hf; lia|eauto]. intros q x (_&->&_)%Hl'. done.
  - apply (Hg snd d2); [|intros q f Hf; apply depth_bound in Hf; lia|eauto]. intros q x (_&->&_)%Hl'. done.
Qed.

End trees.

(** ** The changes between two trees *)

Section changes.
  Context (range : list gostring → list gostring) (Hrange : ∀ l, range l ≡ₚ l).
  Context (O N : tree).
(** Every file is in a directory of the tree, or in the root. *)
Definition in_dirs (m : tree) : Prop := ∀ p n e, m !! (p ++ [n]) = Some e → p = [] ∨ ∃ f, m !! p = Some f ∧ IsDir f = true.
  Context (HO : in_dirs O) (HN : in_dirs N).
  Implicit Types (p q r : path) (n : gostring) (c : Change) (fuel : nat).

Definition has (m : tree) p : bool := bool_decide (p = []) || bool_decide (is_Some (m !! p)).
Definition changed q : bool :=
  match O !! q, N !! q with
  | Some e, Some e' => statDifferent e e' || negb (capability e =s capability e')
  | _, _ => false
  end.
Abbreviation Add p := (mkChange (path_string p) ChangeAdd).
Abbreviation Modify p := (mkChange (path_string p) ChangeModify).
Abbreviation Delete p := (mkChange (path_string p) ChangeDelete).
Abbreviation changes fuel p added := (addChanges range fuel O N p (has O p) added).

Lemma IsDir_isDir m p f : m !! p = Some f → IsDir f = true → isDir m p = true.
Proof.
  intros Hf Hd. unfold isDir. rewrite Hf. apply orb_true_iff. right. apply negb_true_iff, Z.eqb_neq. unfold IsDir, ftype in Hd. apply Z.eqb_eq in Hd.
  intros H0. assert (Hb : Z.testbit (Z.land (st_mode f) S_IFMT) 14 = true) by (by rewrite Hd). rewrite Z.land_spec in Hb. apply andb_true_iff in Hb as [Hb _].
  assert (Hc : Z.testbit (Z.land (st_mode f) S_IFDIR) 14 = true) by (by rewrite Z.land_spec, Hb). rewrite H0 in Hc. done.
Qed.
Lemma isDir_child p n : is_Some (N !! (p ++ [n])) → isDir N p = true.
Proof using HN. intros [e He]. apply HN in He as [->|(f&Hf&Hd)]; [done|by eapply IsDir_isDir]. Qed.
Lemma has_child p n : is_Some (O !! (p ++ [n])) → has O p = true.
Proof using HO.
  intros [e He]. unfold has. apply HO in He as [->|(f&Hf&_)]; [done|]. rewrite Hf. apply orb_true_iff. right. apply bool_decide_eq_true. eauto.
Qed.
Lemma has_snoc p n : has O (p ++ [n]) = bool_decide (is_Some (O !! (p ++ [n]))).
Proof. unfold has. rewrite bool_decide_false; [done|]. by destruct p. Qed.

Lemma in_dirs_prefix m p rest : in_dirs m → p ≠ [] → is_Some (m !! (p ++ rest)) → is_Some (m !! p).
Proof.
  intros Hm Hp. induction rest as [|n rest IH] using rev_ind; [by rewrite app_nil_r|]. intros [e He]. rewrite app_assoc in He.
  apply Hm in He as [E|(f&Hf&_)]; [by apply app_eq_nil in E as [? _]|]. eauto.
Qed.

(** The changes at [p] and below, without the one that is added because of the others. *)
Definition inner fuel p c : Prop :=
  has O p = false ∧ c = Add p ∨
  (∃ n, is_Some (N !! (p ++ [n])) ∧ (changed (p ++ [n]) = true ∧ c = Modify (p ++ [n]) ∨ c ∈ changes fuel (p ++ [n]) (changed (p ++ [n])))) ∨
  (∃ n, is_Some (O !! (p ++ [n])) ∧ N !! (p ++ [n]) = None ∧ isDir N p = true ∧ c = Delete (p ++ [n])).

Lemma elem_of_changes fuel p added c :
  c ∈ changes (S fuel) p added ↔
  inner fuel p c ∨ c = Modify p ∧ (∃ c', inner fuel p c') ∧ isDir N p = true ∧ added = false ∧ has O p = true ∧ p ≠ [].
Proof using HN HO Hrange.
  cbn [addChanges]. set (oldC := if has O p && isDir N p then children O p else []).
  assert (Hold : ∀ n, n ∈ oldC ↔ is_Some (O !! (p ++ [n])) ∧ isDir N p = true).
  { intros n. unfold oldC. rewrite <-elem_of_children. split.
    - destruct (has O p && isDir N p) eqn:E; [|by intros ?%not_elem_of_nil]. apply andb_true_iff in E as [_ ->]. done.
    - intros [H1 H2]. rewrite H2, (has_child p n); [done|by apply elem_of_children]. }
  match goal with |- c ∈ (if bool_decide (?l ≠ []) && _ && _ && _ then _ else _) ↔ _ => set (ins := l) end.
  assert (Hin : ∀ c, c ∈ ins ↔ inner fuel p c).
  { intros c'. unfold ins, inner. rewrite !elem_of_app. apply Morphisms_Prop.or_iff_morphism; [|apply Morphisms_Prop.or_iff_morphism].
    - destruct (has O p); [rewrite elem_of_nil; naive_solver|rewrite list_elem_of_singleton; naive_solver].
    - rewrite elem_of_concat. setoid_rewrite list_elem_of_fmap. setoid_rewrite Hrange. setoid_rewrite elem_of_children. split.
      + intros (l&Hc&n&->&Hn). exists n. split; [done|]. pose proof (isDir_child _ _ Hn) as Hdir. rewrite has_snoc. case_bool_decide as Ho.
        * apply Hold in Ho as [Ho _]. rewrite (bool_decide_true (is_Some _)) by done. apply elem_of_app in Hc as [Hc|Hc]; [left|by right].
          unfold changed. case_match; [by apply list_elem_of_singleton in Hc|by apply not_elem_of_nil in Hc].
        * assert (Hno : ¬ is_Some (O !! (p ++ [n]))) by (intros Hs; by apply Ho, Hold). rewrite (bool_decide_false (is_Some _)) by done. right.
          unfold changed. by destruct (O !! (p ++ [n])); [destruct Hno; eauto|].
      + intros (n&Hn&Hc). pose proof (isDir_child _ _ Hn) as Hdir. eexists. split; [|by exists n]. rewrite has_snoc in Hc. destruct (decide (n ∈ oldC)) as [Ho|Ho]; [rewrite (bool_decide_true (n ∈ oldC)) by done|rewrite (bool_decide_false (n ∈ oldC)) by done].
        * apply Hold in Ho as [Ho _]. rewrite (bool_decide_true (is_Some _)) in Hc by done. apply elem_of_app. destruct Hc as [[Hc ->]|Hc]; [left|by right].
          unfold changed in Hc. rewrite Hc. by left.
        * assert (Hno : ¬ is_Some (O !! (p ++ [n]))) by (intros Hs; by apply Ho, Hold). rewrite (bool_decide_false (is_Some _)) in Hc by done.
          unfold changed in Hc. by destruct (O !! (p ++ [n])); [destruct Hno; eauto|]; destruct Hc as [[? _]|?].
    - rewrite list_elem_of_fmap. setoid_rewrite Hrange. setoid_rewrite list_elem_of_filter. setoid_rewrite Hrange. setoid_rewrite elem_of_children.
      setoid_rewrite Hold. split.
      + intros (n&->&Hn&Ho&Hd). exists n. split_and!; [done|by apply eq_None_not_Some|done|done].
      + intros (n&Ho&Hn&Hd&->). exists n. split_and!; [done|by rewrite Hn; apply is_Some_None|done|done]. }
  assert (Hne : ins ≠ [] ↔ ∃ c', inner fuel p c').
  { split.
    - destruct ins as [|c' l]; [done|]. intros _. exists c'. apply Hin. by left.
    - intros [c' Hc'] E. apply Hin in Hc'. rewrite E in Hc'. by apply not_elem_of_nil in Hc'. }
  destruct (bool_decide (ins ≠ []) && isDir N p && negb (added || negb (has O p)) && bool_decide (p ≠ [])) eqn:E.
  - rewrite !andb_true_iff, !bool_decide_eq_true, negb_true_iff, orb_false_iff, negb_false_iff in E. rewrite elem_of_cons, Hin. naive_solver.
  - rewrite Hin. split; [by left|]. intros [?|(_&Hex&Hd&Ha&Hh&Hp)]; [done|]. exfalso. rewrite Hd, Ha, Hh, !bool_decide_true in E; [done|done|by apply Hne].
Qed.
(** A change at [q]: what it says of the trees. *)
Definition sound c q : Prop :=
  Path c = path_string q ∧
  match Kind c with
  | ChangeDelete => ∃ r n, q = r ++ [n] ∧ is_Some (O !! q) ∧ N !! q = None ∧ isDir N r = true ∧ has N r = true
  | _ => q ≠ [] ∧ is_Some (N !! q)
  end.
(** A change that writes [q]. *)
Definition put_at (l : list Change) q : Prop := ∃ c, c ∈ l ∧ Path c = path_string q ∧ Kind c ≠ ChangeDelete.

Lemma put_at_mono l l' q : (∀ c, c ∈ l → c ∈ l') → put_at l q → put_at l' q.
Proof. intros Hl (c&Hc&?). exists c. auto. Qed.

(** The directory is written if anything in it has changed. *)
Lemma put_self fuel p added c : inner fuel p c → isDir N p = true → p = [] ∨ added = true ∨ put_at (changes (S fuel) p added) p.
Proof using HN HO Hrange.
  intros Hc Hd. destruct (decide (p = [])) as [->|Hne]; [by left|]. destruct added; [by right; left|]. right. right.
  destruct (has O p) eqn:Eh.
  - exists (Modify p). rewrite <-Eh. split; [|done]. apply elem_of_changes. right. split_and!; eauto.
  - exists (Add p). rewrite <-Eh. split; [|done]. apply elem_of_changes. left. by left.
Qed.

(** Every change is sound, and the directory that it is in is written too. *)
Lemma changes_sound fuel p added c :
  has N p = true → c ∈ changes fuel p added →
  ∃ rest, sound c (p ++ rest) ∧
    (rest = [] ∨ ∃ r n, rest = r ++ [n] ∧ (put_at (changes fuel p added) (p ++ r) ∨ r = [] ∧ (p = [] ∨ added = true))).
Proof using HN HO Hrange.
  revert p added c. induction fuel as [|fuel IH]; intros p added c Hp Hc; [by apply not_elem_of_nil in Hc|].
  assert (Hself : p ≠ [] → is_Some (N !! p)).
  { intros Hne. unfold has in Hp. rewrite bool_decide_false in Hp by done. by apply bool_decide_eq_true in Hp. }
  assert (Hsub : ∀ n c', is_Some (N !! (p ++ [n])) → c' ∈ changes fuel (p ++ [n]) (changed (p ++ [n])) → c' ∈ changes (S fuel) p added).
  { intros n c' Hn Hc'. apply elem_of_changes. left. right. left. eauto. }
  assert (Hparent : ∀ c' n, inner fuel p c' → isDir N p = true → ∃ r n', [n] = r ++ [n'] ∧ (put_at (changes (S fuel) p added) (p ++ r) ∨ r = [] ∧ (p = [] ∨ added = true))).
  { intros c' n Hc' Hd. exists [], n. split; [done|]. rewrite app_nil_r. destruct (put_self fuel p added c' Hc' Hd) as [?|[?|?]]; auto. }
  apply elem_of_changes in Hc as [Hc|(->&_&_&_&_&Hne)].
  2: { exists []. rewrite app_nil_r. split; [|by left]. split; [done|]. by split; [|apply Hself]. }
  pose proof Hc as Hin. destruct Hc as [[Hh ->]|[(n&Hn&Hc)|(n&Ho&Hn&Hd&->)]].
  - exists []. rewrite app_nil_r. split; [|by left]. assert (p ≠ []) by (by intros ->). split; [done|]. by split; [|apply Hself].
  - pose proof (isDir_child _ _ Hn) as Hd. destruct Hc as [[Hch ->]|Hc].
    + exists [n]. split; [|right; by eapply Hparent]. split; [done|]. split; [by destruct p|done].
    + assert (Hn' : has N (p ++ [n]) = true) by (unfold has; apply orb_true_iff; right; by apply bool_decide_eq_true).
      destruct (IH _ _ _ Hn' Hc) as (rest&Hs&Hr). exists (n :: rest). rewrite <-app_assoc in Hs. split; [done|]. right. destruct Hr as [->|(r&n'&->&Hr)]; [by eapply Hparent|].
      exists (n :: r), n'. split; [done|]. left. destruct Hr as [Hr|[-> [E|Hch]]].
      * rewrite <-app_assoc in Hr. eapply put_at_mono; [|exact Hr]. eauto.
      * by destruct p.
      * exists (Modify (p ++ [n])). split; [|done]. apply elem_of_changes. left. right. left. exists n. split; [done|]. by left.
  - exists [n]. split; [|right; by eapply Hparent]. split; [done|]. exists p, n. done.
Qed.

(** What is new or different is written. *)
Lemma changes_put fuel p added rest n :
  (S (length rest) < fuel)%nat → is_Some (N !! (p ++ rest ++ [n])) → O !! (p ++ rest ++ [n]) = None ∨ changed (p ++ rest ++ [n]) = true →
  put_at (changes fuel p added) (p ++ rest ++ [n]).
Proof using HN HO Hrange.
  revert p added fuel. induction rest as [|m rest IH]; intros p added fuel Hf Hn Hc; (destruct fuel as [|fuel]; [lia|]).
  - cbn [app] in *. destruct Hc as [Hc|Hc].
    + destruct fuel as [|fuel]; [simpl in Hf; lia|]. exists (Add (p ++ [n])). split; [|done]. apply elem_of_changes. left. right. left. exists n. split; [done|]. right.
      apply elem_of_changes. left. left. split; [|done]. rewrite has_snoc, Hc. done.
    + exists (Modify (p ++ [n])). split; [|done]. apply elem_of_changes. left. right. left. exists n. auto.
  - replace (p ++ (m :: rest) ++ [n]) with ((p ++ [m]) ++ rest ++ [n]) in * by (by rewrite <-app_assoc).
    apply (IH (p ++ [m]) (changed (p ++ [m])) fuel) in Hc; [|simpl in Hf; lia|done]. eapply put_at_mono; [|exact Hc].
    intros c Hc'. apply elem_of_changes. left. right. left. exists m. split; [|by right]. apply (in_dirs_prefix N (p ++ [m]) (rest ++ [n])); [done|by destruct p|done].
Qed.

(** What is gone is deleted. *)
Lemma changes_delete fuel p added rest n :
  (length rest < fuel)%nat → is_Some (O !! (p ++ rest ++ [n])) → N !! (p ++ rest ++ [n]) = None →
  (rest ≠ [] → is_Some (N !! (p ++ rest))) → isDir N (p ++ rest) = true →
  Delete (p ++ rest ++ [n]) ∈ changes fuel p added.
Proof using HN HO Hrange.
  revert p added fuel. induction rest as [|m rest IH]; intros p added fuel Hf Ho Hn Hr Hd; (destruct fuel as [|fuel]; [simpl in Hf; lia|]).
  - cbn [app] in *. rewrite app_nil_r in Hd. apply elem_of_changes. left. right. right. exists n. done.
  - replace (p ++ (m :: rest) ++ [n]) with ((p ++ [m]) ++ rest ++ [n]) in * by (by rewrite <-app_assoc).
    replace (p ++ m :: rest) with ((p ++ [m]) ++ rest) in * by (by rewrite <-app_assoc).
    apply elem_of_changes. left. right. left. exists m. specialize (Hr ltac:(done)). split.
    + destruct (decide (rest = [])) as [->|Hne]; [by rewrite app_nil_r in Hr|]. apply (in_dirs_prefix N (p ++ [m]) rest); [done|by destruct p|done].
    + right. apply IH; [simpl in Hf; lia|done..].
Qed.
End changes.
