(* ===== verification/LayerDiffRoundTrip.v ===== *)
(** * LayerDiffRoundTrip: the difference of two layers, applied to the first, gives the second

    The theorem about [Diff] and [ApplyDiff] of [LayerDiff], with what it needs of the
    two directories, and examples of what goes wrong without. *)

From S2P Require Import Prelude Strconv GoPath IdTools RefStore DigestSet LayerDiff LayerDiffFacts.
Import Strings GoPath IdTools LayerDiff.LayerDiff.

Local Open Scope Z_scope.

(** ** What the kernel finds *)

Section lstat.
  Implicit Types (m : tree) (p q r : path) (n : gostring) (e f : entry).

#[export] Instance pruned_dec d1 d2 p n : Decision (pruned d1 d2 p n).
Proof. unfold pruned. repeat case_match; apply _. Defined.
Lemma resolve_found m before rest e : wf_tree m → m !! (before ++ rest) = Some e → resolve m before rest = Found e.
Proof.
  intros Hw. revert before. induction rest as [|n rest IH]; intros before He.
  - rewrite app_nil_r in He. simpl. by rewrite He.
  - destruct (wf_prefix _ before (n :: rest) _ Hw He) as (f&Hf&Hd); [done|]. simpl. rewrite Hf, Hd. apply IH. by rewrite <-app_assoc.
Qed.
Lemma Lstat_found m p e : wf_tree m → m !! p = Some e → Lstat m p = Found e.
Proof. intros. by apply resolve_found. Qed.
Lemma resolve_snoc m before rest n f :
  wf_tree m → m !! (before ++ rest) = Some f → m !! (before ++ rest ++ [n]) = None →
  resolve m before (rest ++ [n]) = if IsDir f then NoEnt else if IsLink f then Follow else NotDir.
Proof.
  intros Hw. revert before. induction rest as [|k rest IH]; intros before Hf Hn.
  - rewrite app_nil_r in Hf. simpl in *. rewrite Hf. destruct (IsDir f); [|done]. by rewrite Hn.
  - destruct (wf_prefix _ before (k :: rest) _ Hw Hf) as (g&Hg&Hd); [done|]. simpl. rewrite Hg, Hd. apply IH; by rewrite <-app_assoc.
Qed.
Lemma Lstat_none m r n f :
  wf_tree m → m !! r = Some f → m !! (r ++ [n]) = None → Lstat m (r ++ [n]) = if IsDir f then NoEnt else if IsLink f then Follow else NotDir.
Proof. intros. by apply resolve_snoc. Qed.
(** Nothing is below what is not a directory. *)
Lemma below_nondir m q rest : wf_tree m → rest ≠ [] → (∀ f, m !! q = Some f → IsDir f = false) → m !! (q ++ rest) = None.
Proof.
  intros Hw Hne Hq. destruct (m !! (q ++ rest)) as [e|] eqn:E; [|done]. apply wf_prefix in E as (f&Hf&Hd); [|done..]. apply Hq in Hf. congruence.
Qed.

Lemma is_prefix_iff p q : is_prefix p q = true ↔ ∃ rest, q = p ++ rest.
Proof.
  unfold is_prefix. rewrite bool_decide_eq_true. split; [intros <-; exists (drop (length p) q); by rewrite take_drop|].
  intros [rest ->]. by rewrite take_app_length.
Qed.
Lemma lookup_removed m q p : filter (fun qe => is_prefix q qe.1 = false) m !! p = if is_prefix q p then None else m !! p.
Proof.
  destruct (is_prefix q p) eqn:E.
  - apply map_lookup_filter_None. right. intros e _. simpl. by rewrite E.
  - destruct (m !! p) as [e|] eqn:Em; [by apply map_lookup_filter_Some|]. apply map_lookup_filter_None. by left.
Qed.

(** Removing a subtree, or replacing it by a file, leaves a tree. *)
Lemma wf_removed m q : wf_tree m → q ≠ [] → wf_tree (filter (fun qe => is_prefix q qe.1 = false) m).
Proof.
  intros Hw Hq. split.
  - destruct (wf_root _ Hw) as (e&He&Hd). exists e. split; [|done]. rewrite lookup_removed. by destruct q.
  - intros p n e. rewrite lookup_removed. destruct (is_prefix q (p ++ [n])) eqn:E; [done|]. intros He. apply (wf_parent _ Hw) in He as (f&Hf&Hd).
    exists f. split; [|done]. rewrite lookup_removed. destruct (is_prefix q p) eqn:E'; [|done]. apply is_prefix_iff in E' as [rest ->].
    assert (is_prefix q ((q ++ rest) ++ [n]) = true) by (apply is_prefix_iff; exists (rest ++ [n]); by rewrite app_assoc). congruence.
  - intros p e. rewrite lookup_removed. case_match; [done|]. apply (wf_names _ Hw).
Qed.
Lemma wf_insert m r n e f :
  wf_tree m → m !! r = Some f → IsDir f = true → good_name n → (IsDir e = true ∨ ∀ k, m !! ((r ++ [n]) ++ [k]) = None) → wf_tree (<[r ++ [n] := e]> m).
Proof.
  intros Hw Hf Hd Hn He. split.
  - destruct (wf_root _ Hw) as (e0&?&?). exists e0. rewrite lookup_insert_ne by (by destruct r). done.
  - intros p k e' He'. destruct (decide (p = r ++ [n])) as [->|Hp].
    + exists e. rewrite lookup_insert_eq. split; [done|]. destruct He as [?|He]; [done|]. rewrite lookup_insert_ne in He'; [by rewrite He in He'|].
      intros E. apply (f_equal length) in E. rewrite !length_app in E. simpl in E. lia.
    + rewrite lookup_insert_ne by done. destruct (decide (r ++ [n] = p ++ [k])) as [E|Hne].
      * apply app_inj_tail in E as [-> ->]. eauto.
      * rewrite lookup_insert_ne in He' by done. by eapply wf_parent.
  - intros p e'. destruct (decide (p = r ++ [n])) as [->|Hp]; [|rewrite lookup_insert_ne by done; apply (wf_names _ Hw)].
    intros _. apply good_app. split; [by eapply wf_names|]. by apply Forall_singleton.
Qed.
End lstat.

(** ** Headers *)

Section entries.
  Implicit Types (e : entry).

(** What the kernel guarantees of a file. *)
Record entry_ok e : Prop := {
  ok_mode : 0 ≤ st_mode e < 65536;
  ok_type : ftype e ∈ [S_IFREG; S_IFDIR; S_IFLNK; S_IFCHR; S_IFBLK; S_IFIFO];
  ok_link : ftype e = S_IFLNK → st_mode e = Z.lor S_IFLNK 511;
  ok_contents : ftype e ≠ S_IFREG → ftype e ≠ S_IFLNK → contents e = [];
  ok_cap : ftype e = S_IFDIR → capability e = [];
  ok_rdev : 0 ≤ st_rdev e < 2 ^ 32
}.

(** The same file but for times, inodes and the sizes of directories. *)
Definition like e e' : Prop :=
  st_mode e = st_mode e' ∧ st_uid e = st_uid e' ∧ st_gid e = st_gid e' ∧ contents e = contents e' ∧ capability e = capability e' ∧
  (ftype e = S_IFCHR ∨ ftype e = S_IFBLK → st_rdev e = st_rdev e').
Lemma like_refl e : like e e.
Proof. by split_and!. Qed.

Lemma mode_split e : 0 ≤ st_mode e < 65536 → Z.lor (ftype e) (Z.land (Z.land (st_mode e) 4095) 4095) = st_mode e.
Proof.
  intros H. unfold ftype, S_IFMT. rewrite <-Z.land_assoc. change (Z.land 4095 4095) with 4095. rewrite <-Z.land_lor_distr_r. change (Z.lor 61440 4095) with (Z.ones 16).
  rewrite Z.land_ones by lia. apply Z.mod_small. lia.
Qed.

(** The number of a device survives being split and put together. *)
Lemma shifted_mask d k M : 0 ≤ k → Z.shiftl (Z.land (Z.shiftr d k) M) k = Z.land d (Z.shiftl M k).
Proof.
  intros Hk. apply Z.bits_inj'. intros n Hn. rewrite Z.land_spec, !Z.shiftl_spec, Z.land_spec by done. destruct (Z.lt_ge_cases n k).
  - rewrite !(Z.testbit_neg_r _ (n - k)) by lia. by rewrite !andb_false_r.
  - rewrite Z.shiftr_spec by lia. by rewrite Z.sub_add.
Qed.
Lemma Mkdev_split d : 0 ≤ d < 2 ^ 32 → Mkdev (major d) (minor d) = d.
Proof.
  intros Hd. unfold Mkdev, major, minor. rewrite !Z.land_lor_distr_l, <-!Z.land_assoc. change (Z.land 255 1048320) with 0. change (Z.land 1048320 255) with 0.
  change (Z.land 1048320 1048320) with 1048320. change (Z.land 4095 4095) with 4095. change (Z.land 255 255) with 255.
  rewrite !Z.land_0_r, Z.lor_0_l, Z.lor_0_r, !shifted_mask, <-!Z.land_lor_distr_r by lia.
  change (Z.lor (Z.lor (Z.shiftl 1048320 12) (Z.shiftl 4095 8)) 255) with (Z.ones 32). rewrite Z.land_ones by lia. rewrite Z.mod_mod by lia. by apply Z.mod_small.
Qed.

Lemma ftype_lor t p : t ∈ [S_IFREG; S_IFDIR; S_IFLNK; S_IFCHR; S_IFBLK; S_IFIFO] → Z.land (Z.lor t (Z.land p 4095)) S_IFMT = t.
Proof.
  intros Ht. rewrite Z.land_lor_distr_l, <-Z.land_assoc. change (Z.land 4095 S_IFMT) with 0. rewrite Z.land_0_r, Z.lor_0_r.
  repeat (apply elem_of_cons in Ht as [->|Ht]; [done|]). by apply not_elem_of_nil in Ht.
Qed.
Lemma like_dir e e' : like e e' → IsDir e' = IsDir e.
Proof. intros (Hm&_). unfold IsDir, ftype. by rewrite Hm. Qed.
Lemma special_mode e : ftype e = S_IFCHR ∨ ftype e = S_IFBLK → negb (Z.land (st_mode e) S_IFBLK =? 0) || negb (Z.land (st_mode e) S_IFCHR =? 0) = true.
Proof.
  intros Ht. apply orb_true_iff. right. apply negb_true_iff, Z.eqb_neq. intros H0.
  assert (Hb : Z.testbit (ftype e) 13 = true) by (by destruct Ht as [->| ->]). unfold ftype in Hb. rewrite Z.land_spec in Hb. apply andb_true_iff in Hb as [Hb _].
  assert (Hc : Z.testbit (Z.land (st_mode e) S_IFCHR) 13 = true) by (by rewrite Z.land_spec, Hb). by rewrite H0 in Hc.
Qed.
End entries.

(** ** What is needed *)

Section roundtrip.
  Context (range : list gostring → list gostring) (Hrange : ∀ l, range l ≡ₚ l).
  Context (uidMaps gidMaps : option (list IDMap)) (rootUID rootGID : Z) (D : path) (old new : tree).
  Implicit Types (p q r rest : path) (n : gostring) (e f : entry) (c : Change) (l : list Change).
  Abbreviation dest := (path_string D).

(** Two directories: no name looks like a whiteout; a file that looks unchanged is; and
    what is the same file by its inode is the same. *)
Record diffable : Prop := {
  df_old : wf_tree old;
  df_new : wf_tree new;
  df_plain : ∀ p e, old !! p = Some e ∨ new !! p = Some e → Forall (fun n => HasPrefix n WhiteoutPrefix = false) p;
  df_ok : ∀ p e, old !! p = Some e ∨ new !! p = Some e → entry_ok e;
  df_honest : ∀ p e e', old !! p = Some e → new !! p = Some e' → statDifferent e e' = false → capability e = capability e' → contents e = contents e';
  df_shared : ∀ p n rest, pruned old new p n → old !! (p ++ n :: rest) = new !! (p ++ n :: rest)
}.
(** The owners are mapped, and mapped back. *)
Record ids_ok : Prop := {
  ids_root : GetRootUIDGID uidMaps gidMaps = Some (rootUID, rootGID);
  ids_uid : ∀ p e, new !! p = Some e → ∃ u, ToContainer (st_uid e) uidMaps = Some u ∧ map_id rootUID u uidMaps = Ok (st_uid e);
  ids_gid : ∀ p e, new !! p = Some e → ∃ g, ToContainer (st_gid e) gidMaps = Some g ∧ map_id rootGID g gidMaps = Ok (st_gid e)
}.
(** Symbolic links do not point out of the destination. *)
Definition links_ok : Prop :=
  ∀ r n e, new !! (r ++ [n]) = Some e → ftype e = S_IFLNK → HasPrefix (PathJoin [path_string (D ++ r); contents e]) dest = true.

  Context (HD : good D) (Hdf : diffable) (Hids : ids_ok) (Hlinks : links_ok).

(** *** The header of a file *)

(** A header, translated to the host, that makes a file like [e]. *)
Record header_for e q (h : Header) : Prop := {
  h_name : Name h = Join q "/" ++ (if IsDir e then "/" else []);
  h_dir : bool_decide (Flag h = TypeDir) = IsDir e;
  h_made : Flag h ≠ TypeLink ∧ Flag h ≠ TypeXGlobalHeader ∧ Flag h ≠ TypeOther;
  h_uid : map_id rootUID (Uid h) uidMaps = Ok (st_uid e);
  h_gid : map_id rootGID (Gid h) gidMaps = Ok (st_gid e);
  h_link : Flag h = TypeSymlink → ftype e = S_IFLNK ∧ Linkname h = contents e;
  h_entry : ∃ e', header_entry (mkHeader (Name h) (Flag h) (Linkname h) (Mode h) (st_uid e) (st_gid e) (ModTime h) (Devmajor h) (Devminor h) (Body h) (Xattr h)) = Some e' ∧ like e e'
}.

Lemma HasSuffix_slash q : good q → q ≠ [] → HasSuffix (Join q "/") "/" = false.
Proof.
  intros Hq Hne. apply not_true_iff_false. intros [t Ht]%HasSuffix_spec. destruct q as [|n q _] using rev_ind; [done|].
  apply good_app in Hq as [_ [[(Hn&_&Hs) _] _]%Forall_cons]. destruct (Join_snoc_suffix q n) as [s Hj]. rewrite Hj in Ht.
  destruct n as [|a n _] using rev_ind; [done|]. rewrite app_assoc in Ht. apply app_inj_tail in Ht as [_ ->]. apply Hs, elem_of_app. right. by left.
Qed.

Lemma Base_dir r n : good (r ++ [n]) → Base (Join (r ++ [n]) "/" ++ "/") = n.
Proof.
  intros Hq. pose proof (Base_path r n [] Hq (or_introl eq_refl)) as H. cbn [app] in H.
  assert (Hne : Join (r ++ [n]) "/" ≠ []) by (apply Join_ne; [by destruct r|by apply good_ne]). generalize dependent (Join (r ++ [n]) "/"). intros j H Hne.
  unfold Base in *. rewrite (streqb_ne j []) in H by done. rewrite (streqb_ne (j ++ "/") []) by (intros [? _]%app_eq_nil; done).
  assert (TrimRight (j ++ "/") "/" = TrimRight j "/") as ->; [|done]. unfold TrimRight, TrimRightFunc. by rewrite rev_app_distr.
Qed.
Lemma flag_cases e :
  entry_ok e → ∃ flag, file_flag e = Some flag ∧ bool_decide (flag = TypeDir) = IsDir e ∧ (flag = TypeSymlink → ftype e = S_IFLNK) ∧
    flag ≠ TypeLink ∧ flag ≠ TypeXGlobalHeader ∧ flag ≠ TypeOther ∧
    ∀ name uid gid sec ma mi,
      (negb (Z.land (st_mode e) S_IFBLK =? 0) || negb (Z.land (st_mode e) S_IFCHR =? 0) = true → ma = major (st_rdev e) ∧ mi = minor (st_rdev e)) → st_uid e = uid → st_gid e = gid →
      ∃ e', header_entry (mkHeader name flag (if IsLink e then contents e else []) (Z.land (st_mode e) 4095) uid gid sec ma mi
        (if bool_decide (flag = TypeReg) then contents e else []) (capability e)) = Some e' ∧ like e e'.
Proof.
  intros [Hm Ht Hl Hc Hcap Hr]. pose proof (mode_split e Hm) as Hs.
  assert (Hdev : ∀ ma mi, ftype e = S_IFCHR ∨ ftype e = S_IFBLK → ma = major (st_rdev e) ∧ mi = minor (st_rdev e) → st_rdev e = Mkdev ma mi) by (intros ma mi _ [-> ->]; by rewrite Mkdev_split).
  pose proof (special_mode e) as Hsp.
  repeat (apply elem_of_cons in Ht as [E|Ht]); [..|by apply not_elem_of_nil in Ht]; unfold file_flag, IsDir, IsLink; rewrite E in Hs, Hl, Hc, Hsp, Hdev |- *; eexists;
    (split; [reflexivity|]); (split; [done|]); (split; [done|]); (split; [done|]); (split; [done|]); (split; [done|]); intros name uid gid sec ma mi Hma Hu Hg;
    (eexists; split; [reflexivity|]); unfold like; rewrite E; simpl; split_and!; try done; try (intros [?|?]; done); try (by rewrite Hc); try (by rewrite Hl).
  all: intros _; apply Hdev; auto.
Qed.
Lemma file_header r n e :
  new !! (r ++ [n]) = Some e → ∃ h, addTarFile uidMaps gidMaps new (r ++ [n]) (Join (r ++ [n]) "/") = Some h ∧ header_for e (r ++ [n]) h.
Proof using Hdf Hids.
  intros He. pose proof (wf_names _ (df_new Hdf) _ _ He) as Hq. assert (Hne : r ++ [n] ≠ []) by (by destruct r).
  pose proof (df_plain Hdf _ _ (or_intror He)) as Hpl. apply Forall_app in Hpl as [_ [Hpl _]%Forall_cons].
  pose proof (df_ok Hdf _ _ (or_intror He)) as Hok. destruct (ids_uid Hids _ _ He) as (u&Hu1&Hu2). destruct (ids_gid Hids _ _ He) as (g&Hg1&Hg2).
  destruct (flag_cases e Hok) as (flag&Hfl&Hdir&Hsym&H1&H2&H3&Hent).
  unfold addTarFile. rewrite He. cbn [mbind option_bind]. rewrite Hfl. cbn [mbind option_bind]. rewrite HasSuffix_slash by done. cbn [negb]. rewrite andb_true_r.
  set (name := if IsDir e then _ else _).
  assert (Hbase : HasPrefix (Base name) WhiteoutPrefix = false).
  { unfold name. destruct (IsDir e); [rewrite (Base_dir r n Hq); exact Hpl|]. pose proof (Base_path r n [] Hq (or_introl eq_refl)) as Hb. cbn [app] in Hb. rewrite Hb. exact Hpl. }
  rewrite Hbase. set (ids := if negb false && _ then _ else _). assert (Hi : ids = Some (u, g)).
  { unfold ids. destruct uidMaps, gidMaps; simpl in *; rewrite ?Hu1, ?Hg1; simpl; congruence. }
  rewrite Hi. cbn [mbind option_bind fst snd]. eexists. split; [reflexivity|]. split; simpl; try done.
  - unfold name. destruct (IsDir e); [done|]. by rewrite app_nil_r.
  - intros Hf. specialize (Hsym Hf). split; [done|]. unfold IsLink. by rewrite Hsym.
  - apply Hent; [|done|done]. intros Hspec. by rewrite Hspec.
Qed.

(** *** One entry of the archive *)

Lemma leaves_good q : good q → leaves q = false.
Proof. intros [|n q' [_ Hn] _]; [done|]. simpl. by rewrite streqb_ne. Qed.
Lemma parent_rel r n : good (r ++ [n]) → Rel dest (PathJoin [dest; Dir (Join (r ++ [n]) "/")]) = r.
Proof using HD.
  intros Hq. rewrite Dir_rel by done. apply good_app in Hq as [Hr _]. case_decide as E.
  - subst. rewrite PathJoin_dot by done. rewrite <-(app_nil_r D) at 2. apply Rel_path; [done|constructor].
  - rewrite PathJoin_path by done. by apply Rel_path.
Qed.
Lemma ensure_parent_ok m r n f : wf_tree m → good (r ++ [n]) → m !! r = Some f → ensure_parent dest (Join (r ++ [n]) "/") m = Ok m.
Proof using HD.
  intros Hw Hq Hf. unfold ensure_parent. rewrite parent_rel by done. rewrite leaves_good by (by apply good_app in Hq as [? _]). by rewrite (Lstat_found _ _ _ Hw Hf).
Qed.
Lemma HasPrefix_Join (x : gostring) (ls : list gostring) (w : gostring) : ch "/" ∉ w → HasPrefix (Join (x :: ls) "/") w = true → HasPrefix x w = true.
Proof.
  intros Hw. rewrite !HasPrefix_spec. intros [t Ht]. destruct ls as [|y ls]; [by exists t|]. change (x ++ "/" ++ Join (y :: ls) "/" = w ++ t) in Ht.
  revert x Ht. induction w as [|a w IH]; intros x Ht; [by exists x|]. apply not_elem_of_cons in Hw as [Ha Hw]. destruct x as [|b x].
  - simpl in Ht. injection Ht as Ht _. congruence.
  - simpl in Ht. injection Ht as -> Ht. destruct (IH Hw x Ht) as [t' ->]. by exists t'.
Qed.
Lemma not_meta q : q ≠ [] → Forall (fun n => HasPrefix n WhiteoutMetaPrefix = false) q → HasPrefix (Join q "/") WhiteoutMetaPrefix = false.
Proof.
  intros Hne Hall. destruct q as [|x l]; [done|]. apply Forall_cons in Hall as [Hx _]. apply not_true_iff_false. intros H.
  apply HasPrefix_Join in H; [congruence|]. vm_decide.
Qed.
Lemma prefix_meta n : HasPrefix n WhiteoutPrefix = false → HasPrefix n WhiteoutMetaPrefix = false.
Proof.
  intros Hn. apply not_true_iff_false. intros [t ->]%HasPrefix_spec. apply not_true_iff_false in Hn. apply Hn, HasPrefix_spec. exists (WhiteoutPrefix ++ t). done.
Qed.

(** What is left of the tree when [q] is about to be written with a file like [e]. *)
Definition cleared (m : tree) q e : tree :=
  match m !! q with
  | Some f => if IsDir f && IsDir e then m else filter (fun qe => is_prefix q qe.1 = false) m
  | None => m
  end.

Lemma clear_entry m r n e f h :
  wf_tree m → m !! r = Some f → IsDir f = true → header_for e (r ++ [n]) h →
  (match Lstat m (r ++ [n]) with
   | Found e0 => if IsDir e0 && bool_decide (Flag h = TypeDir) then Ok m else RemoveAll m (r ++ [n])
   | Follow => Err (UFollow (r ++ [n])) | _ => Ok m end) = Ok (cleared m (r ++ [n]) e).
Proof.
  intros Hw Hf Hd Hh. unfold cleared. rewrite (h_dir _ _ _ Hh). destruct (m !! (r ++ [n])) as [f'|] eqn:Ef'.
  - rewrite (Lstat_found _ _ _ Hw Ef'). destruct (IsDir f' && IsDir e); [done|]. unfold RemoveAll. by rewrite (Lstat_found _ _ _ Hw Ef').
  - by rewrite (Lstat_none _ _ _ _ Hw Hf Ef'), Hd.
Qed.
Lemma prefix_longer r n : is_prefix (r ++ [n]) r = false.
Proof. apply not_true_iff_false. intros [rest E]%is_prefix_iff. apply (f_equal length) in E. rewrite !length_app in E. simpl in E. lia. Qed.
Lemma prefix_refl q : is_prefix q q = true.
Proof. apply is_prefix_iff. exists []. by rewrite app_nil_r. Qed.

(** Of what is cleared only a directory is left, if a directory is to be written. *)
Lemma cleared_cases m r n e f :
  wf_tree m → m !! r = Some f → IsDir f = true →
  let m' := cleared m (r ++ [n]) e in
  wf_tree m' ∧ m' !! r = Some f ∧ (m' !! (r ++ [n]) = None ∨ ∃ f', m !! (r ++ [n]) = Some f' ∧ m' = m ∧ IsDir f' = true ∧ IsDir e = true).
Proof.
  intros Hw Hf Hd m'. unfold m', cleared. destruct (m !! (r ++ [n])) as [f'|] eqn:Ef'; [|by split_and!; [done|done|left]].
  destruct (IsDir f' && IsDir e) eqn:E; [apply andb_true_iff in E as [? ?]; split_and!; [done|done|right; eauto]|].
  split_and!; [apply wf_removed; [done|by destruct r]|by rewrite lookup_removed, prefix_longer|left; by rewrite lookup_removed, prefix_refl].
Qed.

Lemma make_entry m r n e f h :
  wf_tree m → m !! r = Some f → IsDir f = true → new !! (r ++ [n]) = Some e → header_for e (r ++ [n]) h →
  (∀ f', m !! (r ++ [n]) = Some f' → IsDir f' = true → capability f' = []) →
  ∃ e', like e e' ∧ createTarFile (path_string (D ++ r ++ [n])) dest (r ++ [n])
      (mkHeader (Name h) (Flag h) (Linkname h) (Mode h) (st_uid e) (st_gid e) (ModTime h) (Devmajor h) (Devminor h) (Body h) (Xattr h)) (cleared m (r ++ [n]) e) =
    Ok (<[r ++ [n] := e']> (cleared m (r ++ [n]) e)).
Proof using Hdf Hlinks HD.
  intros Hw Hf Hd He Hh Hcap. pose proof (wf_names _ (df_new Hdf) _ _ He) as Hgood. pose proof (df_ok Hdf _ _ (or_intror He)) as Hok.
  destruct (h_entry _ _ _ Hh) as (e'&Hent&Hlike). destruct (cleared_cases m r n e f Hw Hf Hd) as (Hw'&Hf'&Hq).
  assert (Hsym : bool_decide (Flag h = TypeSymlink) && negb (HasPrefix (PathJoin [Dir (path_string (D ++ r ++ [n])); Linkname h]) dest) = false).
  { case_bool_decide as Es; [|done]. destruct (h_link _ _ _ Hh Es) as [Ht ->]. rewrite app_assoc, Dir_string; [by rewrite (Hlinks r n e)|].
    rewrite <-app_assoc. by apply good_app. }
  assert (Hrl : removelast (r ++ [n]) = r) by apply removelast_last. assert (Hne : r ++ [n] ≠ []) by (by destruct r).
  unfold createTarFile. cbn [Flag Linkname]. rewrite Hsym, Hent, (h_dir _ _ _ Hh). destruct (h_made _ _ _ Hh) as (Hm1&Hm2&Hm3).
  destruct Hq as [Hq|(f'&Hq&->&Hd1&Hd2)].
  - exists e'. split; [done|]. rewrite (Lstat_none _ _ _ _ Hw' Hf' Hq), Hd, Hrl, (Lstat_found _ _ _ Hw' Hf'). destruct (r ++ [n]); [done|]. by destruct (Flag h).
  - rewrite (Lstat_found _ _ _ Hw Hq), Hd1, Hd2. eexists. split; [|by destruct (Flag h)].
    destruct Hlike as (L1&L2&L3&L4&L5&L6). assert (Ht : ftype e = S_IFDIR) by (by apply Z.eqb_eq in Hd2).
    unfold like. simpl. split_and!; [done|done|done|by rewrite (ok_contents _ Hok) by (by rewrite Ht)| |rewrite Ht; naive_solver].
    rewrite <-L5, (ok_cap _ Hok Ht), (Hcap _ Hq Hd1). done.
Qed.

(** A file is written. *)
Lemma put_step u r n e h f :
  wf_tree (ufs u) → ufs u !! r = Some f → IsDir f = true → new !! (r ++ [n]) = Some e → header_for e (r ++ [n]) h →
  (∀ f', ufs u !! (r ++ [n]) = Some f' → IsDir f' = true → capability f' = []) →
  ∃ e', like e e' ∧
    unpack_entry dest uidMaps gidMaps rootUID rootGID u h =
    Ok (mkUnpack (<[r ++ [n] := e']> (cleared (ufs u) (r ++ [n]) e)) ({[r ++ [n]]} ∪ unpackedPaths u) (if IsDir e then udirs u ++ [r ++ [n]] else udirs u)).
Proof using Hdf Hlinks HD.
  intros Hw Hf Hd He Hh Hcap. destruct (make_entry _ _ _ _ _ _ Hw Hf Hd He Hh Hcap) as (e'&Hl&Hmk). exists e'. split; [done|].
  pose proof (wf_names _ (df_new Hdf) _ _ He) as Hgood. assert (Hne : r ++ [n] ≠ []) by (by destruct r).
  pose proof (df_plain Hdf _ _ (or_intror He)) as Hpl. assert (Hn : HasPrefix n WhiteoutPrefix = false) by (by apply Forall_app in Hpl as [_ [? _]%Forall_cons]).
  unfold unpack_entry. rewrite (h_name _ _ _ Hh), Clean_rel by (done || by destruct (IsDir e); auto).
  rewrite HasSuffix_slash by done. cbn [negb]. rewrite (ensure_parent_ok _ _ _ _ Hw Hgood Hf). cbv zeta.
  rewrite not_meta; [|done|eapply Forall_impl; [exact Hpl|by apply prefix_meta]]. cbn [andb ufs unpackedPaths udirs].
  rewrite PathJoin_path by done. rewrite Rel_path by done. rewrite leaves_good by done. rewrite (app_assoc D r [n]), Base_string by (rewrite <-app_assoc; by apply good_app).
  rewrite Hn, <-app_assoc. unfold unpack_file. cbn [ufs unpackedPaths udirs]. rewrite (clear_entry _ _ _ _ _ _ Hw Hf Hd Hh), (h_uid _ _ _ Hh), (h_gid _ _ _ Hh), Hmk, (h_dir _ _ _ Hh).
  done.
Qed.

(** A file is removed. *)
Definition whiteout r n : Header := mkHeader (Join (r ++ [WhiteoutPrefix ++ n]) "/") TypeReg [] 0 0 0 0 0 0 [] [].
Lemma whiteout_good n : good_name n → good_name (WhiteoutPrefix ++ n).
Proof. intros [(H1&H2&H3) H4]. split; [|by destruct n]. split_and!; [done|done|]. simpl. rewrite !elem_of_cons. naive_solver. Qed.

Lemma delete_step u r n f :
  wf_tree (ufs u) → ufs u !! r = Some f → IsLink f = false → good (r ++ [n]) → Forall (fun n => HasPrefix n WhiteoutPrefix = false) (r ++ [n]) →
  unpack_entry dest uidMaps gidMaps rootUID rootGID u (whiteout r n) =
  Ok (mkUnpack (filter (fun qe => is_prefix (r ++ [n]) qe.1 = false) (ufs u)) (unpackedPaths u) (udirs u)).
Proof using HD.
  intros Hw Hf Hlnk Hgood Hpl. pose proof Hgood as [Hr [Hn _]%Forall_cons]%good_app. pose proof Hpl as [Hplr [Hpn _]%Forall_cons]%Forall_app.
  assert (Hwg : good (r ++ [WhiteoutPrefix ++ n])) by (apply good_app; split; [done|]; apply Forall_singleton; by apply whiteout_good).
  assert (Hne : r ++ [WhiteoutPrefix ++ n] ≠ []) by (by destruct r).
  unfold unpack_entry, whiteout. cbn [Name]. pose proof (Clean_rel _ [] Hwg Hne (or_introl eq_refl)) as Hc. rewrite app_nil_r in Hc. rewrite Hc.
  rewrite HasSuffix_slash by done. cbn [negb]. rewrite (ensure_parent_ok _ _ _ _ Hw Hwg Hf). cbv zeta.
  assert (Hmeta : Forall (fun n => HasPrefix n WhiteoutMetaPrefix = false) (r ++ [WhiteoutPrefix ++ n])).
  { apply Forall_app. split; [eapply Forall_impl; [exact Hplr|by apply prefix_meta]|]. apply Forall_singleton. exact Hpn. }
  rewrite not_meta by done. cbn [andb ufs unpackedPaths udirs].
  rewrite PathJoin_path by done. rewrite Rel_path by done. rewrite leaves_good by done. rewrite (app_assoc D r), Base_string by (rewrite <-app_assoc; by apply good_app).
  change (HasPrefix (WhiteoutPrefix ++ n) WhiteoutPrefix) with true. cbv iota. rewrite bool_decide_false by done.
  unfold unpack_whiteout. rewrite streqb_ne by (intros E; change WhiteoutOpaqueDir with (WhiteoutPrefix ++ ".wh..opq") in E; apply app_inv_head in E as ->; done).
  rewrite Dir_string by (rewrite <-app_assoc; by apply good_app). change (drop (length WhiteoutPrefix) (WhiteoutPrefix ++ n)) with n.
  pose proof (PathJoin_path (D ++ r) [n]) as Hj. cbn [Join] in Hj. rewrite Hj by (by (apply good_app || apply Forall_singleton)). cbv zeta.
  rewrite <-app_assoc, Rel_path by done. rewrite leaves_good by done. unfold RemoveAll. cbn [ufs unpackedPaths udirs].
  destruct (ufs u !! (r ++ [n])) as [e|] eqn:E; [by rewrite (Lstat_found _ _ _ Hw E)|]. rewrite (Lstat_none _ _ _ _ Hw Hf E), Hlnk.
  assert (Hm : filter (fun qe => is_prefix (r ++ [n]) qe.1 = false) (ufs u) = ufs u).
  { apply map_eq. intros p. rewrite lookup_removed. destruct (is_prefix (r ++ [n]) p) eqn:Ep; [|done]. apply is_prefix_iff in Ep as [rest ->]. symmetry.
    destruct (decide (rest = [])) as [->|Hne']; [by rewrite app_nil_r|]. apply below_nondir; [done|done|]. intros f' Hf'. congruence. }
  rewrite Hm. by destruct u, (IsDir f).
Qed.

(** *** All entries *)

Abbreviation O := (collectFileInfoForChanges old new).1.
Abbreviation N := (collectFileInfoForChanges old new).2.

Lemma old_spec p e : O !! p = Some e ↔ p ≠ [] ∧ old !! p = Some e ∧ visible old new [] p.
Proof using Hdf. apply collect_spec; apply Hdf. Qed.
Lemma new_spec p e : N !! p = Some e ↔ p ≠ [] ∧ new !! p = Some e ∧ visible old new [] p.
Proof using Hdf. apply collect_spec; apply Hdf. Qed.
Lemma old_dirs : in_dirs O.
Proof using Hdf.
  intros p n e (_&He&Hv)%old_spec. destruct (decide (p = [])) as [->|Hp]; [by left|right]. apply (wf_parent _ (df_old Hdf)) in He as (f&Hf&Hd).
  exists f. split; [|done]. apply old_spec. by apply visible_app in Hv as [? _].
Qed.
Lemma new_dirs : in_dirs N.
Proof using Hdf.
  intros p n e (_&He&Hv)%new_spec. destruct (decide (p = [])) as [->|Hp]; [by left|right]. apply (wf_parent _ (df_new Hdf)) in He as (f&Hf&Hd).
  exists f. split; [|done]. apply new_spec. by apply visible_app in Hv as [? _].
Qed.

Abbreviation Ch := (ChangesDirs range new old).
Lemma Ch_eq : Ch = addChanges range (S (depth N)) O N [] (has O []) false.
Proof. unfold ChangesDirs. by destruct (collectFileInfoForChanges old new). Qed.

(** A change is about a file of the two directories, and its parent is written. *)
Definition change_at c r n : Prop :=
  Path c = path_string (r ++ [n]) ∧ (r = [] ∨ put_at Ch r) ∧
  match Kind c with
  | ChangeDelete => is_Some (old !! (r ++ [n])) ∧ new !! (r ++ [n]) = None ∧ (r = [] ∨ ∃ f, new !! r = Some f ∧ IsLink f = false)
  | _ => is_Some (new !! (r ++ [n]))
  end.
Lemma isDir_link f : negb (Z.land (st_mode f) S_IFDIR =? 0) = true → IsLink f = false.
Proof.
  intros Hb%negb_true_iff%Z.eqb_neq. apply Z.eqb_neq. intros Ht. apply Hb. unfold ftype in Ht.
  change S_IFDIR with (Z.land S_IFMT S_IFDIR). by rewrite Z.land_assoc, Ht.
Qed.
Lemma change_cases c : c ∈ Ch → ∃ r n, change_at c r n.
Proof using Hrange Hdf.
  intros Hc. assert (Hc' := Hc). rewrite Ch_eq in Hc'. apply changes_sound in Hc' as (q&[Hp Hk]&Hr); [|done|apply old_dirs|apply new_dirs|done].
  rewrite <-Ch_eq in Hr. cbn [app] in *. assert (q ≠ []) by (destruct (Kind c); [naive_solver..|]; destruct Hk as (r&n&->&_); by destruct r).
  destruct Hr as [->|(r&n&->&Hr)]; [done|]. exists r, n. split; [done|]. split; [naive_solver|]. destruct (Kind c).
  1,2: destruct Hk as (_&e&(_&He&_)%new_spec); eauto.
  destruct Hk as (r'&n'&[<- <-]%app_inj_tail&(e&(Hne&He&Hv)%old_spec)&Hn&Hd&_). split; [eauto|]. split.
  - destruct (new !! (r ++ [n])) as [e'|] eqn:E; [|done]. assert (N !! (r ++ [n]) = Some e') by (by apply new_spec). congruence.
  - unfold isDir in Hd. apply orb_true_iff in Hd as [Hd%bool_decide_eq_true|Hd]; [by left|right]. destruct (N !! r) as [f|] eqn:Ef; [|done].
    exists f. apply new_spec in Ef as (_&Hf&_). split; [done|]. by apply isDir_link.
Qed.
Lemma change_good c r n : change_at c r n → good (r ++ [n]) ∧ Forall (fun n => HasPrefix n WhiteoutPrefix = false) (r ++ [n]).
Proof using Hdf.
  intros (_&_&Hk). assert (∃ e, old !! (r ++ [n]) = Some e ∨ new !! (r ++ [n]) = Some e) as [e He].
  { destruct (Kind c); [destruct Hk as [e He]; eauto..|]. destruct Hk as ([e He]&_). eauto. }
  split; [|by eapply df_plain]. destruct He as [He|He]; by eapply wf_names in He; [|apply Hdf].
Qed.

(** What [c] writes or removes. *)
Definition touches c p : Prop :=
  ∃ q rest, Path c = path_string q ∧ p = q ++ rest ∧ good q ∧
    (Kind c = ChangeDelete ∨ Kind c ≠ ChangeDelete ∧ (rest = [] ∨ ∃ e, new !! q = Some e ∧ IsDir e = false)).
(** The file at [p] is what it is to be. *)
Definition settled (m : tree) p : Prop :=
  match new !! p with Some e => ∃ e', m !! p = Some e' ∧ like e e' | None => m !! p = None end.
Record agree l (u : unpack) : Prop := {
  ag_wf : wf_tree (ufs u);
  ag_files : ∀ p, p ≠ [] → settled (ufs u) p ∨ ufs u !! p = old !! p ∧ ∀ c, c ∈ l → ¬ touches c p;
  ag_dirs : ∀ p, p ∈ udirs u → p ≠ [] ∧ is_Some (new !! p) ∧ put_at l p
}.

Lemma agree_put l u p e : agree l u → p ≠ [] → put_at l p → new !! p = Some e → ∃ e', ufs u !! p = Some e' ∧ like e e'.
Proof using Hdf.
  intros Hag Hp (c&Hc&Hpath&Hk) He. destruct (ag_files _ _ Hag p Hp) as [Hs|[_ Hn]]; [unfold settled in Hs; by rewrite He in Hs|].
  exfalso. apply (Hn c Hc). exists p, []. rewrite app_nil_r. split_and!; [done|done|by eapply wf_names in He; [|apply Hdf]|right; auto].
Qed.

(** The changes come in an order in which parents are first. *)
Lemma parent_first l c l' r n : merge_sort change_le Ch = l ++ c :: l' → change_at c r n → r = [] ∨ put_at l r.
Proof using Hdf.
  intros Hsort Hc. destruct (change_good _ _ _ Hc) as [Hgood _]. destruct Hc as (Hp&[->|(c'&Hin&Hp'&Hk')]&_); [by left|right]. exists c'. split; [|done].
  assert (Hin' : c' ∈ l ++ c :: l') by (rewrite <-Hsort; by rewrite merge_sort_Permutation).
  assert (Hne : path_string r ≠ path_string (r ++ [n])).
  { intros E%path_string_inj; [|by apply good_app in Hgood as [? _]|done]. apply (f_equal length) in E. rewrite length_app in E. simpl in E. lia. }
  apply elem_of_app in Hin' as [?|[->|Hin']%elem_of_cons]; [done|congruence|]. exfalso. apply Hne.
  assert (Hss : StronglySorted change_le (l ++ c :: l')).
  { rewrite <-Hsort. apply StronglySorted_merge_sort; intros ??; unfold change_le; [intros ?; apply leb_trans|apply leb_total]. }
  apply leb_antisym; [apply path_string_le|]. rewrite <-Hp, <-Hp'.
  apply StronglySorted_app in Hss as (_&_&[Hall _]%StronglySorted_cons). rewrite Forall_forall in Hall. by apply Hall.
Qed.

Lemma dir_not_link f : IsDir f = true → IsLink f = false.
Proof. unfold IsDir, IsLink. intros ->%Z.eqb_eq. done. Qed.
Lemma parent_found l u r c n :
  agree l u → change_at c r n → (r = [] ∨ put_at l r) →
  ∃ f, ufs u !! r = Some f ∧ (is_Some (new !! (r ++ [n])) → IsDir f = true) ∧ (Kind c = ChangeDelete → IsLink f = false).
Proof using Hdf Hrange.
  intros Hag (Hp&_&Hk) Hput. destruct (decide (r = [])) as [->|Hr].
  { destruct (wf_root _ (ag_wf _ _ Hag)) as (f&Hf&Hd). exists f. split_and!; [done|done|]. intros _. by apply dir_not_link. }
  assert (∃ f, new !! r = Some f ∧ (is_Some (new !! (r ++ [n])) → IsDir f = true) ∧ (Kind c = ChangeDelete → IsLink f = false)) as (f&Hf&H1&H2).
  { destruct (new !! (r ++ [n])) as [e|] eqn:E.
    - destruct (wf_parent _ (df_new Hdf) _ _ _ E) as (f&Hf&Hd). exists f. split_and!; [done|done|]. intros _. by apply dir_not_link.
    - destruct (Kind c) eqn:HK; [destruct Hk as [? ?]; done..|]. destruct Hk as (_&_&[?|(f&Hf&Hl)]); [done|]. exists f. split_and!; [done|by intros []|done]. }
  destruct Hput as [->|Hput]; [done|]. destruct (agree_put _ _ _ _ Hag Hr Hput Hf) as (f'&Hf'&Hlk). exists f'. split_and!; [done|by rewrite (like_dir _ _ Hlk)|].
  intros HK. specialize (H2 HK). unfold IsLink, ftype in *. destruct Hlk as [<- _]. done.
Qed.

Lemma touches_put c q p : Path c = path_string q → good q → Kind c ≠ ChangeDelete → touches c p →
  ∃ rest, p = q ++ rest ∧ (rest = [] ∨ ∃ e, new !! q = Some e ∧ IsDir e = false).
Proof. intros Hp Hq Hk (q'&rest&Hp'&->&Hg&Hc). rewrite Hp in Hp'. apply path_string_inj in Hp' as <-; [|done..]. exists rest. naive_solver. Qed.
Lemma touches_delete c q p : Path c = path_string q → good q → Kind c = ChangeDelete → touches c p → is_prefix q p = true.
Proof. intros Hp Hq Hk (q'&rest&Hp'&->&Hg&Hc). rewrite Hp in Hp'. apply path_string_inj in Hp' as <-; [|done..]. apply is_prefix_iff. eauto. Qed.

(** What a write leaves of the other files. *)
Lemma lookup_cleared m r n e p f :
  wf_tree m → m !! r = Some f → p ≠ r ++ [n] → ¬ (IsDir e = false ∧ is_prefix (r ++ [n]) p = true) → cleared m (r ++ [n]) e !! p = m !! p.
Proof.
  intros Hw Hf Hp Hnot. unfold cleared. destruct (m !! (r ++ [n])) as [f'|] eqn:Ef'; [|done]. destruct (IsDir f' && IsDir e) eqn:E; [done|].
  rewrite lookup_removed. destruct (is_prefix (r ++ [n]) p) eqn:Ep; [|done]. apply is_prefix_iff in Ep as [rest ->].
  apply andb_false_iff in E as [E|E]; [|naive_solver].
  symmetry. apply below_nondir; [done|intros ->; by rewrite app_nil_r in Hp|]. intros ? Hf''. congruence.
Qed.
Lemma cleared_below m r n e rest : wf_tree m → IsDir e = false → rest ≠ [] → cleared m (r ++ [n]) e !! ((r ++ [n]) ++ rest) = None.
Proof.
  intros Hw He Hr. unfold cleared. destruct (m !! (r ++ [n])) as [f'|] eqn:Ef'.
  - rewrite He, andb_false_r, lookup_removed. assert (is_prefix (r ++ [n]) ((r ++ [n]) ++ rest) = true) as -> by (apply is_prefix_iff; eauto). done.
  - apply below_nondir; [done|done|]. congruence.
Qed.

(** Each entry of the archive takes the destination closer to the new directory. *)
Lemma agree_write l u c r n e h :
  agree l u → change_at c r n → (r = [] ∨ put_at l r) → Kind c ≠ ChangeDelete → new !! (r ++ [n]) = Some e → header_for e (r ++ [n]) h →
  ∃ u', unpack_entry dest uidMaps gidMaps rootUID rootGID u h = Ok u' ∧ agree (l ++ [c]) u'.
Proof using Hdf Hids Hrange Hlinks HD.
  intros Hag Hc Hput Hk He Hh. pose proof (ag_wf _ _ Hag) as Hw. destruct (change_good _ _ _ Hc) as [Hgood _].
  destruct (parent_found _ _ _ _ _ Hag Hc Hput) as (f&Hf&Hd&_). specialize (Hd ltac:(by rewrite He)).
  assert (Hne : r ++ [n] ≠ []) by (by destruct r).
  destruct (put_step u r n e h f Hw Hf Hd He Hh) as (e'&Hlike&Hstep).
  { intros f' Hf' Hd'. destruct (ag_files _ _ Hag _ Hne) as [Hs|[Hs _]].
    - unfold settled in Hs. rewrite He in Hs. destruct Hs as (e0&Hs&Hl0). assert (e0 = f') as -> by congruence. rewrite (like_dir _ _ Hl0) in Hd'.
      destruct Hl0 as (_&_&_&_&<-&_). apply (ok_cap _ (df_ok Hdf _ _ (or_intror He))). by apply Z.eqb_eq.
    - rewrite Hf' in Hs. symmetry in Hs. apply (ok_cap _ (df_ok Hdf _ _ (or_introl Hs))). by apply Z.eqb_eq. }
  eexists. split; [exact Hstep|]. destruct (cleared_cases _ r n e f Hw Hf Hd) as (Hw'&Hf'&_).
  assert (Hbelow : ∀ rest, rest ≠ [] → IsDir e = false → new !! ((r ++ [n]) ++ rest) = None).
  { intros rest Hr Hde. apply below_nondir; [apply Hdf|done|]. congruence. }
  split; cbn [ufs udirs].
  - eapply wf_insert; [exact Hw'|exact Hf'|done|by apply good_app in Hgood as [_ [? _]%Forall_cons]|]. rewrite (like_dir _ _ Hlike).
    destruct (IsDir e) eqn:Ed; [by left|right]. intros k. by apply cleared_below.
  - intros p Hp. destruct (decide (p = r ++ [n])) as [->|Hpne].
    { left. unfold settled. rewrite He, lookup_insert_eq. eauto. }
    unfold settled. rewrite !lookup_insert_ne by done. destruct (decide (IsDir e = false ∧ is_prefix (r ++ [n]) p = true)) as [[Ed Hpre]|Hnot].
    + left. apply is_prefix_iff in Hpre as [rest ->]. assert (rest ≠ []) by (intros ->; by rewrite app_nil_r in Hpne). by rewrite Hbelow, cleared_below.
    + rewrite (lookup_cleared _ r n e p f Hw Hf Hpne Hnot). destruct (ag_files _ _ Hag p Hp) as [Hs|[Ho Hn]]; [by left|]. right. split; [done|].
      intros c' [Hin|E%list_elem_of_singleton]%elem_of_app; [by apply Hn|subst c']. intros Ht.
      destruct (touches_put _ _ _ (proj1 Hc) Hgood Hk Ht) as (rest&Ep&[E|(e0&He0&Hd0)]); [subst rest; by rewrite app_nil_r in Ep|].
      apply Hnot. split; [congruence|]. apply is_prefix_iff. eauto.
  - intros p Hin. assert (p ∈ udirs u ∨ p = r ++ [n]) as [Hin'|Ep].
    { destruct (IsDir e); [|by left]. apply elem_of_app in Hin as [?|?%list_elem_of_singleton]; auto. }
    + destruct (ag_dirs _ _ Hag _ Hin') as (?&?&Hpt). split_and!; [done|done|]. eapply put_at_mono; [|exact Hpt]. set_solver.
    + subst p. split_and!; [done|by rewrite He|]. exists c. split_and!; [set_solver|apply Hc|done].
Qed.

Lemma agree_remove l u c r n :
  agree l u → change_at c r n → (r = [] ∨ put_at l r) → Kind c = ChangeDelete →
  ∃ u', unpack_entry dest uidMaps gidMaps rootUID rootGID u (whiteout r n) = Ok u' ∧ agree (l ++ [c]) u'.
Proof using Hdf Hids Hrange Hlinks HD.
  intros Hag Hc Hput Hk. pose proof (ag_wf _ _ Hag) as Hw. destruct (change_good _ _ _ Hc) as [Hgood Hpl].
  destruct (parent_found _ _ _ _ _ Hag Hc Hput) as (f&Hf&_&Hl). eexists. split; [by eapply delete_step; [..|exact (Hl Hk)|done|done]|].
  assert (Hnew : new !! (r ++ [n]) = None) by (destruct Hc as (_&_&Hc); rewrite Hk in Hc; naive_solver).
  split; cbn [ufs udirs].
  - apply wf_removed; [done|by destruct r].
  - intros p Hp. unfold settled. rewrite lookup_removed. destruct (is_prefix (r ++ [n]) p) eqn:Epre.
    + left. apply is_prefix_iff in Epre as [rest ->]. destruct (decide (rest = [])) as [->|Hr]; [by rewrite app_nil_r, Hnew|].
      rewrite below_nondir; [done|apply Hdf|done|congruence].
    + destruct (ag_files _ _ Hag p Hp) as [Hs|[Ho Hn]]; [by left|]. right. split; [done|].
      intros c' [Hin|E%list_elem_of_singleton]%elem_of_app; [by apply Hn|subst c']. intros Ht.
      eapply touches_delete in Ht; [|apply Hc|done|done]. congruence.
  - intros p Hin. destruct (ag_dirs _ _ Hag _ Hin) as (?&?&Hpt). split_and!; [done|done|]. eapply put_at_mono; [|exact Hpt]. set_solver.
Qed.

(** The header that is made of a change. *)
Lemma export_delete c r n : change_at c r n → Kind c = ChangeDelete → export_one uidMaps gidMaps new c = Some (whiteout r n).
Proof using Hdf.
  intros Hc Hk. destruct (change_good _ _ _ Hc) as [Hgood _]. pose proof Hgood as [Hr [Hn _]%Forall_cons]%good_app. unfold export_one. rewrite Hk. destruct Hc as [-> _].
  rewrite Dir_string, Base_string by done. pose proof (PathJoin_path r [WhiteoutPrefix ++ n]) as Hj. cbn [Join] in Hj.
  rewrite Hj by (done || by apply Forall_singleton, whiteout_good). done.
Qed.
Lemma export_put c r n e : change_at c r n → Kind c ≠ ChangeDelete → new !! (r ++ [n]) = Some e → ∃ h, export_one uidMaps gidMaps new c = Some h ∧ header_for e (r ++ [n]) h.
Proof using Hdf Hids.
  intros Hc Hk He. destruct (change_good _ _ _ Hc) as [Hgood _]. destruct (file_header r n e He) as (h&Hh&Hfor). exists h. split; [|done].
  unfold export_one. destruct Hc as [-> _]. rewrite path_of_string by done. change (drop 1 (path_string (r ++ [n]))) with (Join (r ++ [n]) "/"). by destruct (Kind c).
Qed.

Lemma agree_all l l' u :
  merge_sort change_le Ch = l ++ l' → agree l u →
  ∃ u', rfoldM (unpack_entry dest uidMaps gidMaps rootUID rootGID) u (omap (export_one uidMaps gidMaps new) l') = Ok u' ∧ agree (l ++ l') u'.
Proof using Hdf Hids Hlinks HD Hrange.
  revert l u. induction l' as [|c l' IH]; intros l u Hsort Hag; [exists u; by rewrite app_nil_r|].
  assert (Hin : c ∈ Ch) by (rewrite <-(merge_sort_Permutation change_le Ch), Hsort; set_solver).
  destruct (change_cases c Hin) as (r&n&Hc). pose proof (parent_first _ _ _ _ _ Hsort Hc) as Hput.
  assert (∃ h u', export_one uidMaps gidMaps new c = Some h ∧ unpack_entry dest uidMaps gidMaps rootUID rootGID u h = Ok u' ∧ agree (l ++ [c]) u') as (h&u1&Hh&Hs&Hag1).
  { destruct (decide (Kind c = ChangeDelete)) as [Hk|Hk].
    - destruct (agree_remove _ _ _ _ _ Hag Hc Hput Hk) as (u1&?&?). exists (whiteout r n), u1. split_and!; [by apply export_delete|done|done].
    - assert (is_Some (new !! (r ++ [n]))) as [e He] by (destruct Hc as (_&_&Hc); by destruct (Kind c)).
      destruct (export_put _ _ _ _ Hc Hk He) as (h&Hh&Hfor). destruct (agree_write _ _ _ _ _ _ _ Hag Hc Hput Hk He Hfor) as (u1&?&?). eauto. }
  cbn [omap list_omap]. rewrite Hh. cbn [rfoldM]. rewrite Hs. cbn [rbind]. destruct (IH (l ++ [c]) u1) as (u'&Hu'&Hag'); [by rewrite <-app_assoc|done|].
  exists u'. split; [done|]. by rewrite <-app_assoc in Hag'.
Qed.

(** *** What no change touches is the same *)

Lemma visible_cases p q : visible old new p q ∨ ∃ a n b, q = a ++ n :: b ∧ pruned old new (p ++ a) n.
Proof.
  revert p. induction q as [|n q IH]; intros p; [by left|]. destruct (decide (pruned old new p n)) as [H|H].
  - right. exists [], n, q. by rewrite app_nil_r.
  - destruct (IH (p ++ [n])) as [?|(a&k&b&->&Hp)]; [by left|]. right. exists (n :: a), k, b. split; [done|]. by rewrite <-app_assoc in Hp.
Qed.
Lemma unchanged_like e e' : statDifferent e e' = false → capability e = capability e' → contents e = contents e' → like e' e.
Proof.
  unfold statDifferent. intros H ? ?. rewrite !orb_false_iff, !negb_false_iff, !Z.eqb_eq in H. destruct H as ((((?&?)&?)&?)&_). by split_and!.
Qed.
(** The first file on a path that is gone. *)
Lemma first_gone p : p ≠ [] → new !! p = None → ∃ r n rest, p = r ++ n :: rest ∧ is_Some (new !! r) ∧ new !! (r ++ [n]) = None.
Proof using Hdf.
  intros _. destruct (wf_root _ (df_new Hdf)) as (e&He&_). induction p as [|n p IH] using rev_ind; [congruence|]. intros Hn.
  destruct (new !! p) as [f|] eqn:E; [exists p, n, []; by rewrite E|]. destruct (IH eq_refl) as (r&k&rest&->&?&?). exists r, k, (rest ++ [n]). by rewrite <-app_assoc.
Qed.
Lemma put_touches q p rest : put_at Ch q → good q → p = q ++ rest → rest = [] ∨ (∃ e, new !! q = Some e ∧ IsDir e = false) → ∃ c, c ∈ Ch ∧ touches c p.
Proof. intros (c&Hc&Hp&Hk) Hq -> Hr. exists c. split; [done|]. exists q, rest. naive_solver. Qed.
Lemma put_complete r n e :
  new !! (r ++ [n]) = Some e → visible old new [] (r ++ [n]) → (∀ e0, old !! (r ++ [n]) = Some e0 → statDifferent e0 e = true ∨ capability e0 ≠ capability e) → put_at Ch (r ++ [n]).
Proof using Hdf Hrange.
  intros He Hv Hdiff. assert (Hne : r ++ [n] ≠ []) by (by destruct r). assert (HN : N !! (r ++ [n]) = Some e) by (by apply new_spec).
  rewrite Ch_eq. apply (changes_put range Hrange O N old_dirs new_dirs (S (depth N)) [] false r n); cbn [app].
  - apply depth_bound in HN. rewrite length_app in HN. cbn [length] in HN. lia.
  - by rewrite HN.
  - destruct (O !! (r ++ [n])) as [e0|] eqn:E0; [right|by left]. unfold changed. rewrite E0, HN. apply old_spec in E0 as (_&Ho&_).
    apply orb_true_iff. destruct (Hdiff _ Ho) as [->|Hcap]; [by left|right]. by rewrite streqb_ne.
Qed.
Lemma gone_touched p e : p ≠ [] → old !! p = Some e → new !! p = None → visible old new [] p → ∃ c, c ∈ Ch ∧ touches c p.
Proof using Hdf Hrange.
  intros Hp Ho Hn Hv. pose proof (wf_names _ (df_old Hdf) _ _ Ho) as Hgood. destruct (first_gone p Hp Hn) as (r&n&rest&->&[f Hf]&Hrn).
  assert (Horn : is_Some (old !! (r ++ [n]))).
  { replace (r ++ n :: rest) with ((r ++ [n]) ++ rest) in Ho by (by rewrite <-app_assoc). destruct (decide (rest = [])) as [->|Hr]; [by rewrite app_nil_r in Ho; rewrite Ho|].
    destruct (wf_prefix _ _ _ _ (df_old Hdf) Ho Hr) as (f'&->&_). done. }
  replace (r ++ n :: rest) with ((r ++ [n]) ++ rest) in Hv, Hgood |- * by (by rewrite <-app_assoc). apply visible_app in Hv as [Hv _].
  apply good_app in Hgood as [Hgood _]. pose proof Hgood as [Hgr _]%good_app. pose proof Hv as [Hvr _]%visible_app.
  destruct Horn as [e0 He0]. assert (HO : O !! (r ++ [n]) = Some e0) by (apply old_spec; split_and!; [by destruct r|done|done]).
  assert (HN : N !! (r ++ [n]) = None). { destruct (N !! (r ++ [n])) as [x|] eqn:E; [|done]. apply new_spec in E as (_&E&_). congruence. }
  destruct (decide (r = [])) as [->|Hr]; [|assert (HNr : N !! r = Some f) by (by apply new_spec)].
  - exists (mkChange (path_string [n]) ChangeDelete). split; [|exists [n], rest; cbn [app] in *; naive_solver].
    rewrite Ch_eq. apply (changes_delete range Hrange O N old_dirs new_dirs _ [] false [] n); (done || (cbn [length app] in *; lia) || by rewrite HO).
  - destruct (isDir N r) eqn:Ed.
    + exists (mkChange (path_string (r ++ [n])) ChangeDelete). split; [|exists (r ++ [n]), rest; naive_solver].
      rewrite Ch_eq. apply (changes_delete range Hrange O N old_dirs new_dirs _ [] false r n); cbn [app]; [|by rewrite HO|done|by rewrite HNr|done].
      apply depth_bound in HNr. lia.
    + assert (Hdf' : IsDir f = false) by (apply not_true_iff_false; intros Hd; rewrite (IsDir_isDir _ _ _ HNr Hd) in Ed; done).
      destruct (wf_parent _ (df_old Hdf) _ _ _ He0) as (g&Hg&Hdg). apply (put_touches r _ ([n] ++ rest)); [|done|by rewrite <-app_assoc|right; eauto].
      destruct r as [|k r' _] using rev_ind; [done|]. eapply put_complete; [done|done|]. intros e1 He1. assert (e1 = g) as -> by congruence. left.
      unfold statDifferent. destruct (st_mode g =? st_mode f) eqn:Em; [|done]. apply Z.eqb_eq in Em. unfold IsDir, ftype in *. rewrite Em in Hdg. congruence.
Qed.
Lemma untouched_settled p m : p ≠ [] → m !! p = old !! p → (∀ c, c ∈ Ch → ¬ touches c p) → settled m p.
Proof using Hdf Hrange.
  intros Hp Hm Hn. unfold settled. rewrite Hm. destruct (visible_cases [] p) as [Hv|(a&n&b&->&Hpr)].
  2: { cbn [app] in Hpr. rewrite (df_shared Hdf _ _ b Hpr). destruct (new !! (a ++ n :: b)); eauto using like_refl. }
  destruct (new !! p) as [e|] eqn:En.
  - assert (Hgood : good p) by (by eapply wf_names in En; [|apply Hdf]). destruct p as [|n r _] using rev_ind; [done|].
    assert (Hnp : ¬ put_at Ch (r ++ [n])). { intros H. eapply (put_touches _ _ []) in H as (c&Hc&Ht); [by eapply Hn|done|by rewrite app_nil_r|by left]. }
    destruct (old !! (r ++ [n])) as [e0|] eqn:Eo; [|exfalso; apply Hnp; eapply put_complete; [done|done|congruence]].
    exists e0. split; [done|]. destruct (statDifferent e0 e) eqn:Es; [exfalso; apply Hnp; eapply put_complete; [done|done|intros ??; left; congruence]|].
    destruct (decide (capability e0 = capability e)) as [Ec|Ec]; [|exfalso; apply Hnp; eapply put_complete; [done|done|intros ??; right; congruence]].
    apply unchanged_like; [done|done|]. by eapply df_honest.
  - destruct (old !! p) as [e0|] eqn:Eo; [|done]. destruct (gone_touched _ _ Hp Eo En Hv) as (c&Hc&Ht). exfalso. by eapply Hn.
Qed.

(** *** The whole *)

Lemma agree_start : agree [] (mkUnpack old ∅ []).
Proof using Hdf. split; [apply Hdf| |by intros p Hin%not_elem_of_nil]. intros p _. right. split; [done|]. by intros c Hc%not_elem_of_nil. Qed.
Lemma set_times_ok m dirs : wf_tree m → (∀ p, p ∈ dirs → is_Some (m !! p)) → set_times dirs m = Ok m.
Proof.
  intros Hw. induction dirs as [|p dirs IH]; intros Hd; [done|]. simpl. destruct (Hd p) as [e He]; [by left|]. rewrite (Lstat_found _ _ _ Hw He). apply IH. intros q Hq. apply Hd. by right.
Qed.
Lemma apply_diff :
  ∃ m size, ApplyDiff dest uidMaps gidMaps old (Diff range uidMaps gidMaps new old) = Ok (m, size) ∧ wf_tree m ∧ ∀ p, p ≠ [] → settled m p.
Proof using Hdf Hids Hrange Hlinks HD.
  destruct (agree_all [] _ _ eq_refl agree_start) as (u&Hu&Hag). cbn [app] in Hag. unfold ApplyDiff, UnpackLayer, Diff, ExportChanges. rewrite (ids_root Hids), Hu.
  rewrite set_times_ok; [|apply Hag|].
  - do 2 eexists. split; [reflexivity|]. split; [apply Hag|]. intros p Hp. destruct (ag_files _ _ Hag p Hp) as [Hs|[Ho Hn]]; [done|].
    apply untouched_settled; [done|done|]. intros c Hc. apply Hn. by rewrite merge_sort_Permutation.
  - intros p Hin. destruct (ag_dirs _ _ Hag _ Hin) as (Hp&[e He]&Hput). destruct (agree_put _ _ _ _ Hag Hp Hput He) as (e'&He'&_). eauto.
Qed.

End roundtrip.

(** ** A check of the hypotheses *)

Section check.
  Implicit Types (m : tree) (p q : path) (n : gostring) (e : entry).

#[export] Instance good_name_dec n : Decision (good_name n).
Proof. unfold good_name, plain_elem. apply _. Defined.
#[export] Instance visible_dec d1 d2 p q : Decision (visible d1 d2 p q).
Proof. revert p. induction q as [|n q IH]; intros p; simpl; [apply _|]. apply (and_dec _ _). Defined.

Definition entry_check e : bool :=
  bool_decide (0 ≤ st_mode e < 65536) && bool_decide (ftype e ∈ [S_IFREG; S_IFDIR; S_IFLNK; S_IFCHR; S_IFBLK; S_IFIFO]) &&
  bool_decide (ftype e = S_IFLNK → st_mode e = Z.lor S_IFLNK 511) && bool_decide (ftype e ≠ S_IFREG → ftype e ≠ S_IFLNK → contents e = []) &&
  bool_decide (ftype e = S_IFDIR → capability e = []) && bool_decide (0 ≤ st_rdev e < 2 ^ 32).
Lemma entry_check_ok e : entry_check e = true → entry_ok e.
Proof. unfold entry_check. rewrite !andb_true_iff, !bool_decide_eq_true. intros (((((?&?)&?)&?)&?)&?). by split. Qed.

Definition file_check m q e : bool :=
  bool_decide (Forall good_name q) && forallb (fun n => negb (HasPrefix n WhiteoutPrefix)) q && entry_check e &&
  (bool_decide (q = []) || default false (IsDir <$> m !! removelast q)).
Definition tree_check m : bool := default false (IsDir <$> m !! []) && forallb (fun qe => file_check m qe.1 qe.2) (map_to_list m).
Lemma tree_check_file m q e : tree_check m = true → m !! q = Some e → file_check m q e = true.
Proof.
  intros [_ H]%andb_true_iff He. rewrite forallb_forall in H. apply (H (q, e)). apply list_elem_of_In. by apply elem_of_map_to_list.
Qed.
Lemma tree_check_wf m : tree_check m = true → wf_tree m.
Proof.
  intros H. split.
  - apply andb_true_iff in H as [H _]. destruct (m !! []) as [e|]; [|done]. by exists e.
  - intros p n e He. apply tree_check_file in He; [|done]. apply andb_true_iff in He as [_ He]. rewrite bool_decide_false in He by (by destruct p).
    rewrite removelast_last in He. destruct (m !! p) as [f|]; [|done]. by exists f.
  - intros p e He. apply tree_check_file in He; [|done]. unfold file_check in He. rewrite !andb_true_iff, bool_decide_eq_true in He. naive_solver.
Qed.

Definition pair_check (old new : tree) q : bool :=
  (bool_decide (old !! q = new !! q) || bool_decide (visible old new [] q)) &&
  match old !! q, new !! q with
  | Some e, Some e' => statDifferent e e' || negb (bool_decide (capability e = capability e')) || bool_decide (contents e = contents e')
  | _, _ => true
  end.
Definition diffable_check (old new : tree) : bool :=
  tree_check old && tree_check new && forallb (pair_check old new) ((map_to_list old).*1 ++ (map_to_list new).*1).
Lemma diffable_check_pair old new q : diffable_check old new = true → is_Some (old !! q) ∨ is_Some (new !! q) → pair_check old new q = true.
Proof.
  intros [_ H]%andb_true_iff Hq. rewrite forallb_forall in H. apply H, list_elem_of_In, elem_of_app. setoid_rewrite list_elem_of_fmap.
  destruct Hq as [[e He]|[e He]]; [left|right]; exists (q, e); (split; [done|]); by apply elem_of_map_to_list.
Qed.
Lemma diffable_check_ok old new : diffable_check old new = true → diffable old new.
Proof.
  intros H. pose proof H as [[Ho Hn]%andb_true_iff _]%andb_true_iff. split; [by apply tree_check_wf..| | | |].
  - intros p e [He|He]; (apply tree_check_file in He; [|done]); unfold file_check in He; rewrite !andb_true_iff, forallb_forall in He; destruct He as [[[_ He] _] _];
      apply Forall_forall; intros n Hin; apply negb_true_iff, He; by apply list_elem_of_In.
  - intros p e [He|He]; (apply tree_check_file in He; [|done]); unfold file_check in He; rewrite !andb_true_iff in He; apply entry_check_ok; naive_solver.
  - intros p e e' He He' Hs Hc. pose proof (diffable_check_pair _ _ p H ltac:(eauto)) as [_ Hp]%andb_true_iff. rewrite He, He', Hs, bool_decide_true in Hp by done. by apply bool_decide_eq_true in Hp.
  - intros p n rest Hpr. destruct (decide (is_Some (old !! (p ++ n :: rest)) ∨ is_Some (new !! (p ++ n :: rest)))) as [Hq|Hq].
    + pose proof (diffable_check_pair _ _ _ H Hq) as [Hp _]%andb_true_iff. rewrite orb_true_iff, !bool_decide_eq_true in Hp. destruct Hp as [?|Hv]; [done|].
      apply visible_app in Hv as [_ Hv]. simpl in Hv. naive_solver.
    + destruct (old !! _), (new !! _); naive_solver.
Qed.

Definition owner_check (idMaps : option (list IDMap)) (root id : Z) : bool :=
  match ToContainer id idMaps with
  | Some c => match map_id root c idMaps with Ok i => i =? id | Err _ => false end
  | None => false
  end.
Lemma owner_check_ok idMaps root id : owner_check idMaps root id = true → ∃ c, ToContainer id idMaps = Some c ∧ map_id root c idMaps = Ok id.
Proof. unfold owner_check. destruct (ToContainer id idMaps) as [c|]; [|done]. destruct (map_id root c idMaps) as [i|] eqn:E; [|done]. intros ->%Z.eqb_eq. eauto. Qed.
Definition link_check (D q : path) e : bool :=
  bool_decide (ftype e = S_IFLNK → HasPrefix (PathJoin [path_string (D ++ removelast q); contents e]) (path_string D) = true).
Lemma ids_check_ok uidMaps gidMaps rootUID rootGID new :
  GetRootUIDGID uidMaps gidMaps = Some (rootUID, rootGID) →
  forallb (fun qe => owner_check uidMaps rootUID (st_uid qe.2) && owner_check gidMaps rootGID (st_gid qe.2)) (map_to_list new) = true →
  ids_ok uidMaps gidMaps rootUID rootGID new.
Proof.
  intros Hroot H. rewrite forallb_forall in H. assert (Hall : ∀ p e, new !! p = Some e → owner_check uidMaps rootUID (st_uid e) = true ∧ owner_check gidMaps rootGID (st_gid e) = true).
  { intros p e He. apply andb_true_iff, (H (p, e)), list_elem_of_In. by apply elem_of_map_to_list. }
  split; [done|..]; intros p e He; apply owner_check_ok; by destruct (Hall p e He).
Qed.
Lemma links_check_ok D new : forallb (fun qe => link_check D qe.1 qe.2) (map_to_list new) = true → links_ok D new.
Proof.
  intros H r n e He Ht. rewrite forallb_forall in H. specialize (H (r ++ [n], e)). unfold link_check in H. cbn [fst snd] in H.
  rewrite removelast_last, bool_decide_eq_true in H. apply H; [|done]. apply list_elem_of_In. by apply elem_of_map_to_list.
Qed.
End check.

(** ** The round trip *)


(** A directory that becomes a file, a file that becomes a directory, a file that is
    deleted, one that is changed, a symbolic link, a device, and a file that is shared. *)
Definition dir_at (ino : Z) : entry := mkEntry 16877 100000 100000 0 5 0 4096 1 ino [] [].
Definition file_at (ino : Z) (s : gostring) : entry := mkEntry 33188 100001 100002 0 7 0 (Z.of_nat (length s)) 1 ino s [].
Definition parent_layer : tree :=
  list_to_map [([] : path, dir_at 1); (["a"], dir_at 2); (["a"; "x"], file_at 3 "one"); (["b"], file_at 4 "two"); (["c"], file_at 5 "three");
    (["d"], dir_at 6); (["d"; "y"], file_at 7 "four"); (["d"; "z"], file_at 8 "five"); (["s"], file_at 9 "shared")].
Definition child_layer : tree :=
  list_to_map [([] : path, dir_at 21); (["a"], file_at 22 "new"); (["b"], dir_at 23); (["b"; "l"], mkEntry 41471 100000 100000 0 8 0 4 1 24 "../d" []);
    (["d"], dir_at 26); (["d"; "y"], file_at 27 "changed"); (["d"; "dev"], mkEntry 8630 100000 100000 259 9 0 0 1 28 [] []); (["s"], file_at 9 "shared")].
Definition sub_ids : option (list IDMap) := Some [mkIDMap 0 100000 65536].
Example layer_diff_names :
  Name <$> Diff (fun l => l) sub_ids sub_ids child_layer parent_layer =
  (["a"; "b/"; "b/l"; ".wh.c"; "d/"; "d/dev"; "d/y"; "d/.wh.z"] : list gostring).
Proof. vm_compute. reflexivity. Qed.

(** ** What goes wrong without *)

(** The lookup of a file after an extraction. *)
Definition after (r : result unpackError (tree * Z)) (p : path) : option (option entry) := match r with Ok (m, _) => Some (m !! p) | Err _ => None end.

(** A file whose name looks like a whiteout is not written, and the file that it names is removed. *)
Example whiteout_name_deletes :
  let new := <[[".wh.b"] := file_at 30 "six"]> parent_layer in
  let r := ApplyDiff (path_string ["mnt"]) sub_ids sub_ids parent_layer (Diff (fun l => l) sub_ids sub_ids new parent_layer) in
  after r [".wh.b"] = Some None ∧ after r ["b"] = Some None ∧ is_Some (new !! ["b"]).
Proof. vm_compute. by split_and!; [..|eexists]. Qed.

(** A whiteout of [.] removes the destination; one of [..] what is above it. *)
Definition whiteout_of (name : gostring) : Header := mkHeader (WhiteoutPrefix ++ name) TypeReg [] 0 0 0 0 0 0 [] [].
Example whiteout_of_dot : after (ApplyDiff (path_string ["mnt"]) None None parent_layer [whiteout_of "."]) [] = Some None.
Proof. vm_compute. reflexivity. Qed.
Example whiteout_of_dotdot : ApplyDiff (path_string ["var"; "mnt"]) None None parent_layer [whiteout_of ".."] = Err (UOutside "/var").
Proof. vm_compute. reflexivity. Qed.

(** The name [..] is not taken for one that breaks out: the directory above is opened
    to be replaced.  A longer path is refused after its parents were looked at. *)
Example dotdot_is_not_refused :
  let at_name name := ApplyDiff (path_string ["var"; "mnt"]) None None parent_layer [mkHeader name TypeReg [] 420 0 0 0 0 0 [] []] in
  at_name ".." = Err (UOutside "..") ∧ at_name "../../x" = Err (UBreakout "../../x") ∧ at_name "../x/y" = Err (UOutside "../x/y").
Proof. vm_compute. done. Qed.

(** A symbolic link may point to any path that starts like the destination. *)
Example link_to_sibling :
  let h := mkHeader "l" TypeSymlink "../mnt2/secret" 511 0 0 0 0 0 [] [] in
  ∃ e, after (ApplyDiff (path_string ["mnt"]) None None parent_layer [h]) ["l"] = Some (Some e) ∧ contents e = "../mnt2/secret".
Proof. eexists. vm_compute. by split. Qed.
