(* ===== verification/ImageStore.v ===== *)
(** * ImageStore: images, their parents and their layers

    Models [src/image/store.go] with its backend on the file system
    ([src/image/fs.go]).  The store of layers is used through the interface
    [LayerGetReleaser] of the source, which is a class here; the layer store of
    [LayerStore] is an instance of it.  The decoding of an image configuration from
    JSON is a parameter: an image is what the operations use of it, the diffs of its
    root file system and which entries of its history made no layer. *)

From S2P Require Import Prelude Strconv Regexp Reference Digest LayerStore DigestSet.
Import Strings Digest.

(** ** The interface to layers *)

(** [image.LayerGetReleaser]: a layer that is got is held until it is released, and the
    other layers that are held stay so. *)
Class LayerGetReleaser (L : Type) := {
  lg_ok : L → Prop;
  lg_held : L → gostring * nat → Prop;
  lg_Get : gostring → L → L * result LayerStore.error (gostring * nat);
  lg_Release : (gostring → bool) → gostring * nat → L → L * LayerStore.released;
  lg_Get_spec id l l' r : lg_ok l → lg_Get id l = (l', r) →
    lg_ok l' ∧ (∀ x, lg_held l x → lg_held l' x) ∧
    (∀ x, r = Ok x → x.1 = id ∧ lg_held l' x ∧ ¬ lg_held l x);
  lg_Release_spec io x l l' o : lg_ok l → lg_held l x → lg_Release io x l = (l', o) →
    lg_ok l' ∧ LayerStore.crash o = false ∧ (∀ y, y ≠ x → lg_held l y → lg_held l' y)
}.

Module ImageStore.

Abbreviation ID := gostring.

Record Image := mkImage {
  RootFS : option (list gostring);   (* the diff IDs; [None] without the key *)
  History : list bool                (* [EmptyLayer] of each entry *)
}.
Record imageMeta := mkMeta {
  layer : option (gostring * nat);
  children : gset ID
}.

(** ** The backend *)

Record fs := mkFS {
  content : gmap ID gostring;
  metadata : gmap ID (gmap gostring gostring)
}.

(** [get]: the content, verified against its ID. *)
Definition fs_get (id : ID) (f : fs) : option gostring :=
  match content f !! id with
  | Some c => if FromBytes c =s id then Some c else None
  | None => None
  end.
(** [Set]; [io] tells whether the file is written. *)
Definition fs_Set (io : bool) (data : gostring) (f : fs) : fs * option ID :=
  if bool_decide (data = []) then (f, None)
  else if negb io then (f, None)
  else (mkFS (<[FromBytes data := data]> (content f)) (metadata f), Some (FromBytes data)).
(** [Delete]: the metadata, then the content. *)
Definition fs_Delete (rm_meta rm_content : bool) (id : ID) (f : fs) : fs :=
  if negb rm_meta then f
  else mkFS (if rm_content then delete id (content f) else content f) (delete id (metadata f)).
Definition fs_SetMetadata (io : bool) (id : ID) (key data : gostring) (f : fs) : fs * bool :=
  match fs_get id f with
  | None => (f, false)
  | Some _ =>
      if negb io then (f, false)
      else (mkFS (content f) (<[id := <[key := data]> (default ∅ (metadata f !! id))]> (metadata f)), true)
  end.
Definition fs_GetMetadata (id : ID) (key : gostring) (f : fs) : option gostring :=
  match fs_get id f with
  | None => None
  | Some _ => metadata f !! id ≫= fun m => m !! key
  end.
Definition fs_DeleteMetadata (io : bool) (id : ID) (key : gostring) (f : fs) : fs :=
  if io then mkFS (content f) (alter (delete key) id (metadata f)) else f.

(** ** The store *)

Inductive error :=
| ErrJSON | ErrNoRootFS | ErrTooManyLayers | ErrFS | ErrLayer (e : LayerStore.error) | ErrDigest (e : DigestSet.error)
| ErrUnrecognized (id : ID) | ErrUnknownParent (id : ID).

(** An operation returns, or dereferences a nil pointer. *)
Inductive outcome (A : Type) := Returns (a : A) | NilPointer.
Arguments Returns {A} _.
Arguments NilPointer {A}.

Section store.
Context {L : Type} `{!LayerGetReleaser L} (Unmarshal : gostring → option Image).

Record store := mkStore {
  ls : L;
  images : gmap ID imageMeta;
  sfs : fs;
  digestSet : DigestSet.digestEntries
}.
Definition set_fs (f : fs) (s : store) : store := mkStore (ls s) (images s) f (digestSet s).
Definition set_images (m : gmap ID imageMeta) (s : store) : store := mkStore (ls s) m (sfs s) (digestSet s).
Definition set_layers (l : L) (s : store) : store := mkStore l (images s) (sfs s) (digestSet s).
Definition set_digests (d : DigestSet.digestEntries) (s : store) : store := mkStore (ls s) (images s) (sfs s) d.

(** [RootFS.ChainID]. *)
Definition ChainID (diffs : list gostring) : gostring := CreateChainID diffs.

(** The layer of an image, retained; none for an image without layers. *)
Definition get_layer (diffs : list gostring) (s : store) : store * result error (option (gostring * nat)) :=
  if ChainID diffs =s [] then (s, Ok None)
  else match lg_Get (ChainID diffs) (ls s) with
       | (l, Ok r) => (set_layers l s, Ok (Some r))
       | (l, Err e) => (set_layers l s, Err (ErrLayer e))
       end.

Definition GetParent (id : ID) (s : store) : option ID := fs_GetMetadata id "parent" (sfs s).

(** [Get], with [NewFromJSON]: the image and its parent, empty if there is none. *)
Definition Get (id : ID) (s : store) : result error (Image * ID) :=
  match fs_get id (sfs s) with
  | None => Err ErrFS
  | Some config =>
      match Unmarshal config with
      | None => Err ErrJSON
      | Some img => if bool_decide (RootFS img = None) then Err ErrNoRootFS else Ok (img, default [] (GetParent id s))
      end
  end.

(** [Create]. *)
Definition Create (io : bool) (config : gostring) (s : store) : store * outcome (result error ID) :=
  match Unmarshal config with
  | None => (s, Returns (Err ErrJSON))
  | Some img =>
      match RootFS img with
      | None => (s, NilPointer)
      | Some diffs =>
          if Nat.ltb (length diffs) (length (filter (fun e => e = false) (History img))) then (s, Returns (Err ErrTooManyLayers))
          else
            match fs_Set io config (sfs s) with
            | (_, None) => (s, Returns (Err ErrFS))
            | (f, Some imageID) =>
                let s := set_fs f s in
                match images s !! imageID with
                | Some _ => (s, Returns (Ok imageID))
                | None =>
                    match get_layer diffs s with
                    | (s, Err e) => (s, Returns (Err e))
                    | (s, Ok l) =>
                        let s := set_images (<[imageID := mkMeta l ∅]> (images s)) s in
                        match DigestSet.Add imageID (digestSet s) with
                        | Err e => (set_images (delete imageID (images s)) s, Returns (Err (ErrDigest e)))
                        | Ok d => (set_digests d s, Returns (Ok imageID))
                        end
                    end
                end
            end
      end
  end.

Definition Search (term : gostring) (s : store) : result DigestSet.error ID := DigestSet.Lookup term (digestSet s).

(** Which calls of the backend succeed when an image is deleted, and which layers the
    driver removes. *)
Record delete_io := mkDelIO {
  d_meta : ID → bool;
  rm_meta : bool;
  rm_content : bool;
  rm_layer : gostring → bool
}.
Definition unlink (id parent : ID) (m : gmap ID imageMeta) : gmap ID imageMeta :=
  alter (fun p => mkMeta (layer p) (children p ∖ {[id]})) parent m.
(** [Delete]: the layers removed with the image. *)
Definition Delete (io : delete_io) (id : ID) (s : store) : store * result error LayerStore.released :=
  match images s !! id with
  | None => (s, Err (ErrUnrecognized id))
  | Some meta =>
      let s := set_fs (set_fold (fun c f => fs_DeleteMetadata (d_meta io c) c "parent" f) (sfs s) (children meta)) s in
      let s := match GetParent id s with Some p => set_images (unlink id p (images s)) s | None => s end in
      let s := match DigestSet.Remove id (digestSet s) with Ok d => set_digests d s | Err _ => s end in
      let s := set_images (delete id (images s)) s in
      let s := set_fs (fs_Delete (rm_meta io) (rm_content io) id (sfs s)) s in
      match layer meta with
      | Some r => let '(l, x) := lg_Release (rm_layer io) r (ls s) in (set_layers l s, Ok x)
      | None => (s, Ok (LayerStore.Removed []))
      end
  end.

Definition SetParent (io : bool) (id parent : ID) (s : store) : store * option error :=
  match images s !! parent with
  | None => (s, Some (ErrUnknownParent parent))
  | Some p =>
      let s := set_images (<[parent := mkMeta (layer p) (children p ∪ {[id]})]> (images s)) s in
      let '(f, ok) := fs_SetMetadata io id "parent" parent (sfs s) in
      (set_fs f s, if ok then None else Some ErrFS)
  end.

Definition Children (id : ID) (s : store) : list ID :=
  match images s !! id with Some m => elements (children m) | None => [] end.

(** [imagesMap], [Heads] and [Map]: the images that can be read, without those that have
    children unless [all]. *)
Definition imagesMap (all : bool) (s : store) : gmap ID (Image * ID) :=
  map_imap (fun id _ => if negb all && negb (bool_decide (Children id s = [])) then None
                        else match Get id s with Ok x => Some x | Err _ => None end) (images s).
Definition Heads (s : store) : gmap ID (Image * ID) := imagesMap false s.
Definition Map_ (s : store) : gmap ID (Image * ID) := imagesMap true s.

(** [restore]: the first pass over the IDs of the backend, which stops at the first layer
    that is missing, and the second one. *)
Fixpoint restore_images (ids : list ID) (s : store) : store * option error :=
  match ids with
  | [] => (s, None)
  | id :: ids =>
      match Get id s with
      | Err _ => restore_images ids s
      | Ok (img, _) =>
          match get_layer (default [] (RootFS img)) s with
          | (s, Err e) => (s, Some e)
          | (s, Ok l) =>
              match DigestSet.Add id (digestSet s) with
              | Err e => (s, Some (ErrDigest e))
              | Ok d => restore_images ids (set_images (<[id := mkMeta l ∅]> (images s)) (set_digests d s))
              end
          end
      end
  end.
Definition restore_child (id : ID) (s : store) : store :=
  match GetParent id s with
  | Some p => set_images (alter (fun m => mkMeta (layer m) (children m ∪ {[id]})) p (images s)) s
  | None => s
  end.
Definition restore_children (s : store) : store := set_fold restore_child s (dom (images s)).
(** The order in which a directory is read. *)
Definition name_le (a b : gostring) : Prop := leb a b = true.
#[global] Instance name_le_dec : RelDecision name_le.
Proof. intros a b. unfold name_le. apply _. Defined.
(** [Walk]: the IDs of the content files, those that are no digests left out. *)
Definition Walk (f : fs) : list ID :=
  filter (fun id => is_ok (Reference.DistRef.Validate id) = true) (merge_sort name_le (elements (dom (content f)))).
Definition NewImageStore (f : fs) (l : L) : store * option error :=
  match restore_images (Walk f) (mkStore l ∅ f DigestSet.NewSet) with
  | (s, Some e) => (s, Some e)
  | (s, None) => (restore_children s, None)
  end.
End store.
Arguments store : clear implicits.
End ImageStore.

Import DigestSet.
Module I := ImageStore.
Import ImageStore.

(** ** The layer store implements the interface *)

#[export] Program Instance layer_store_lg : LayerGetReleaser LayerStore.layerStore := {|
  lg_ok s := ∃ pend, LayerStore.inv s pend;
  lg_held := held;
  lg_Get := LayerStore.LayerStore.Get;
  lg_Release := LayerStore.LayerStore.Release
|}.
Next Obligation.
  intros id l l' r [pend Hinv] HG. pose proof (Get_ok (fun _ => true) id l pend Hinv) as [Hok _ _]. rewrite HG in Hok.
  split; [by eexists|]. unfold LayerStore.LayerStore.Get in HG.
  destruct (LayerStore.LayerStore.getWithoutLock id l) as [l1|] eqn:E.
  - injection HG as <- <-. pose proof E as E'. apply (getWithoutLock_spec _ _ pend) in E' as (H1 & _); [|done].
    unfold LayerStore.LayerStore.getWithoutLock in E. destruct (LayerStore.LayerStore.layerMap l !! id) as [x|] eqn:Hx; [|done].
    injection E as <-. split.
    + intros y Hy. apply getReference_held. by apply (held_set _ _ x).
    + intros y [= <-]. split; [done|]. split; [apply getReference_new, H1; by left|].
      intros (z & Hz & Hn). simpl in *. simplify_eq. pose proof (inv_refs _ _ Hinv _ _ _ Hx Hn). lia.
  - injection HG as <- <-. by split.
Qed.
Next Obligation.
  intros io x l l' o [pend Hinv] (y & Hy & Hn) HR. pose proof HR as HR'.
  apply (Release_ok _ _ _ pend) in HR' as ([Hok _ _] & Hc & _); [|done]. split; [by eexists|]. split; [done|].
  unfold LayerStore.LayerStore.Release in HR. rewrite Hy in HR. unfold LayerStore.LayerStore.hasReference in HR.
  rewrite bool_decide_eq_true_2 in HR by done. simpl in HR. intros z Hz Hheld.
  replace l' with (LayerStore.LayerStore.release io x.1
    (LayerStore.LayerStore.set_layer x.1 (LayerStore.LayerStore.deleteReference x.2 y) l)).1 by (by rewrite HR).
  apply releaseLayer_held. destruct Hheld as (w & Hw & Hm). unfold held. simpl.
  destruct (decide (z.1 = x.1)) as [E|].
  - rewrite E in *. simplify_map_eq. eexists. split; [done|]. simpl.
    assert (z.2 ≠ x.2) by (intros E2; apply Hz; by destruct z, x; simpl in *; subst). set_solver.
  - rewrite lookup_insert_ne by done. eauto.
Qed.

(** ** The invariant of an image store *)

#[local] Opaque FromBytes CreateChainID.

Section images.
Context {L : Type} `{!LayerGetReleaser L} (Unmarshal : gostring → option Image).
Implicit Types (s : store L) (id : ID).

(** The layer that a configuration names. *)
Definition layer_of (diffs : list gostring) : option gostring := if ChainID diffs =s [] then None else Some (ChainID diffs).

Record img_inv s : Prop := {
  ii_ok : lg_ok (ls s);
  ii_held id m r : images s !! id = Some m → layer m = Some r → lg_held (ls s) r;
  ii_distinct id1 id2 m1 m2 r : images s !! id1 = Some m1 → images s !! id2 = Some m2 →
    layer m1 = Some r → layer m2 = Some r → id1 = id2;
  ii_set : set_ok (digestSet s);
  ii_digests id : id ∈ All (digestSet s) ↔ is_Some (images s !! id);
  ii_content id m : images s !! id = Some m →
    is_Some (fs_get id (sfs s)) ∧
    ∃ c img diffs, FromBytes c = id ∧ Unmarshal c = Some img ∧ RootFS img = Some diffs ∧ fst <$> layer m = layer_of diffs
}.

Lemma img_inv_empty l : lg_ok l → img_inv (mkStore l ∅ (mkFS ∅ ∅) []).
Proof.
  intros Hl. split; simpl; try (intros; simplify_map_eq; done); [apply set_ok_nil|].
  intros id. rewrite lookup_empty. split; [by intros ?%elem_of_nil|by intros [? ?]].
Qed.

(** Changes of the backend, of the layers, and of the children maps. *)
Lemma img_inv_fs s f : img_inv s → (∀ id, is_Some (images s !! id) → is_Some (fs_get id (sfs s)) → is_Some (fs_get id f)) → img_inv (set_fs f s).
Proof.
  intros [H1 H2 H3 H4 H5 H6] Hf. split; try done. simpl. intros id m Hm. destruct (H6 id m Hm) as [Hg Hc].
  split; [|done]. apply Hf; [by eexists|done].
Qed.
Lemma img_inv_layers s l : img_inv s → lg_ok l → (∀ r, lg_held (ls s) r → lg_held l r) → img_inv (set_layers l s).
Proof. intros [H1 H2 H3 H4 H5 H6] Hok Hh. split; try done. simpl. intros id m r Hm Hl. by eapply Hh, H2. Qed.
Lemma img_inv_children s id f :
  img_inv s → (∀ m, layer (f m) = layer m) → img_inv (set_images (alter f id (images s)) s).
Proof.
  intros [H1 H2 H3 H4 H5 H6] Hf.
  assert (Ha : ∀ i m, alter f id (images s) !! i = Some m → ∃ m0, images s !! i = Some m0 ∧ layer m = layer m0).
  { intros i m. destruct (decide (i = id)) as [->|].
    - rewrite lookup_alter_eq. intros (m0 & Hm0 & ->)%fmap_Some. eauto.
    - rewrite lookup_alter_ne by done. eauto. }
  split; simpl; try done.
  - intros i m r Hm Hr. apply Ha in Hm as (m0 & Hm & E). rewrite E in Hr. by eapply H2.
  - intros i1 i2 m1 m2 r Hm1 Hm2 Hr1 Hr2. apply Ha in Hm1 as (n1 & Hm1 & E1), Hm2 as (n2 & Hm2 & E2).
    rewrite E1 in Hr1. rewrite E2 in Hr2. by apply (H3 i1 i2 n1 n2 r).
  - intros i. rewrite H5. by rewrite lookup_alter_is_Some.
  - intros i m Hm. apply Ha in Hm as (m0 & Hm & E). rewrite E. by apply H6.
Qed.

(** A new image, with the layer just got for it. *)
Lemma img_inv_new s id lr c img diffs d :
  img_inv s → images s !! id = None → is_Some (fs_get id (sfs s)) →
  FromBytes c = id → Unmarshal c = Some img → RootFS img = Some diffs → fst <$> lr = layer_of diffs →
  (∀ r, lr = Some r → lg_held (ls s) r ∧ ∀ i m, images s !! i = Some m → layer m ≠ Some r) →
  Add id (digestSet s) = Ok d → img_inv (set_digests d (set_images (<[id := mkMeta lr ∅]> (images s)) s)).
Proof.
  intros [H1 H2 H3 H4 H5 H6] Hid Hfs Hc Hu Hr Hlr Hheld Hadd. apply Add_spec in Hadd as (Hs & _ & Hall); [|done].
  split; simpl; try done.
  - intros i m r Hm Hl. destruct (decide (i = id)) as [->|]; simplify_map_eq; [by apply Hheld|by eapply H2].
  - intros i1 i2 m1 m2 r Hm1 Hm2 Hl1 Hl2.
    destruct (decide (i1 = id)) as [->|], (decide (i2 = id)) as [->|]; simplify_map_eq; try done.
    + by destruct (Hheld r eq_refl) as [_ H]; apply H in Hm2.
    + by destruct (Hheld r eq_refl) as [_ H]; apply H in Hm1.
    + by apply (H3 i1 i2 m1 m2 r).
  - intros i. rewrite Hall, H5. destruct (decide (i = id)) as [->|]; simplify_map_eq; naive_solver.
  - intros i m Hm. destruct (decide (i = id)) as [->|]; simplify_map_eq; [|by apply H6]. split; [done|]. eauto 10.
Qed.

Lemma fs_Set_spec io data f f' id :
  fs_Set io data f = (f', Some id) → id = FromBytes data ∧ fs_get id f' = Some data ∧
  ∀ i, is_Some (fs_get i f) → is_Some (fs_get i f').
Proof.
  unfold fs_Set. case_bool_decide; [done|]. destruct io; simpl; [|done]. intros [= <- <-]. split; [done|]. unfold fs_get. simpl.
  rewrite lookup_insert_eq. unfold streqb. rewrite bool_decide_eq_true_2 by done. split; [done|].
  intros i. destruct (decide (i = FromBytes data)) as [->|]; [|by rewrite lookup_insert_ne].
  rewrite lookup_insert_eq, bool_decide_eq_true_2 by done. by eexists.
Qed.
Lemma get_layer_spec diffs s s' x :
  img_inv s → get_layer diffs s = (s', x) →
  img_inv s' ∧ images s' = images s ∧ sfs s' = sfs s ∧ digestSet s' = digestSet s ∧
  ∀ lr, x = Ok lr → fst <$> lr = layer_of diffs ∧
    ∀ r, lr = Some r → lg_held (ls s') r ∧ ∀ i m, images s !! i = Some m → layer m ≠ Some r.
Proof.
  intros Hinv. unfold get_layer, layer_of. destruct (ChainID diffs =s []).
  { intros [= <- <-]. split_and!; try done. by intros lr [= <-]. }
  destruct (lg_Get (ChainID diffs) (ls s)) as [l r] eqn:E. apply lg_Get_spec in E as (Hok & Hh & Hr); [|apply Hinv].
  assert (Hi : img_inv (set_layers l s)) by (by apply img_inv_layers).
  destruct r as [r|e]; intros [= <- <-]; split_and!; try done.
  intros lr [= <-]. destruct (Hr r eq_refl) as (Hid & Hheld & Hno). split; [simpl; by rewrite Hid|].
  intros r' [= <-]. split; [done|]. intros i m Hm Hl. apply Hno. by eapply Hinv.
Qed.

Lemma Create_inv io config s : img_inv s → img_inv (Create Unmarshal io config s).1.
Proof.
  intros Hinv. unfold Create. destruct (Unmarshal config) as [img|] eqn:Hu; [|done].
  destruct (RootFS img) as [diffs|] eqn:Hr; [|done]. destruct (Nat.ltb _ _); [done|].
  destruct (fs_Set io config (sfs s)) as [f [id|]] eqn:Ef; [|done]. apply fs_Set_spec in Ef as (-> & Hget & Hmono).
  assert (H1 : img_inv (set_fs f s)) by (apply img_inv_fs; auto). simpl.
  destruct (images s !! FromBytes config) eqn:Hid; [done|].
  destruct (get_layer diffs (set_fs f s)) as [s2 [lr|e]] eqn:El; apply get_layer_spec in El as (H2 & Ei & Ef & Ed & Hl); try done.
  destruct (Hl lr eq_refl) as [Hlr Hheld].
  destruct (Add (FromBytes config) (digestSet s2)) as [d|e] eqn:Ea.
  - rewrite Ei in *. simpl in *. rewrite <-Ei. eapply img_inv_new; try done.
    + by rewrite Ei.
    + rewrite Ef. simpl. by eexists.
    + by rewrite Ei.
  - pose proof (Add_valid (digestSet s2) (FromBytes config) (FromBytes_valid config)) as Hv. by rewrite Ea in Hv.
Qed.
End images.

Section image_operations.
Context {L : Type} `{!LayerGetReleaser L} (Unmarshal : gostring → option Image).
Implicit Types (s : store L) (id : ID).
Notation inv := (img_inv Unmarshal).

Lemma fs_get_content id f g : content f = content g → fs_get id f = fs_get id g.
Proof. unfold fs_get. by intros ->. Qed.
Lemma Remove_valid es d : valid d → is_ok (Remove d es) = true.
Proof. unfold valid, Remove. destruct (Reference.DistRef.Validate d); [|done]. intros _. by repeat case_match. Qed.
Lemma DeleteMetadata_content io id k f : content (fs_DeleteMetadata io id k f) = content f.
Proof. unfold fs_DeleteMetadata. by destruct io. Qed.
Lemma unlink_all_content (d : ID → bool) (cs : gset ID) f : content (set_fold (fun c f => fs_DeleteMetadata (d c) c "parent" f) f cs) = content f.
Proof.
  apply (set_fold_ind_L (fun g _ => content g = content f)); [done|]. intros x X g _ Hg. by rewrite DeleteMetadata_content.
Qed.
Lemma fs_SetMetadata_content io id k d f : content (fs_SetMetadata io id k d f).1 = content f.
Proof. unfold fs_SetMetadata. destruct (fs_get id f); [|done]. by destruct io. Qed.

Lemma SetParent_inv io id p s : inv s → inv (SetParent io id p s).1.
Proof.
  intros Hinv. unfold SetParent. destruct (images s !! p) as [m|] eqn:Hm; [|done].
  destruct (fs_SetMetadata io id "parent" p _) as [f ok] eqn:E. simpl.
  pose proof (fs_SetMetadata_content io id "parent" p (sfs s)) as Hc. simpl in E. rewrite E in Hc. simpl in Hc.
  apply (img_inv_fs _ (set_images _ s)); [|intros i _; by rewrite (fs_get_content i f (sfs s))].
  replace (<[p := mkMeta (layer m) (children m ∪ {[id]})]> (images s)) with
    (alter (fun m => mkMeta (layer m) (children m ∪ {[id]})) p (images s)); [by apply img_inv_children|].
  apply map_eq. intros i. destruct (decide (i = p)) as [->|].
  - by rewrite lookup_alter_eq, Hm, lookup_insert_eq.
  - by rewrite lookup_alter_ne, lookup_insert_ne.
Qed.

(** Taking an image out: its layer is still held, by nobody. *)
Lemma img_inv_remove s id d f :
  inv s → Remove id (digestSet s) = Ok d →
  (∀ i, i ≠ id → fs_get i f = fs_get i (sfs s)) →
  inv (set_fs f (set_images (delete id (images s)) (set_digests d s))).
Proof.
  intros [H1 H2 H3 H4 H5 H6] Hrem Hf. apply Remove_spec in Hrem as [Hs Hall]; [|done]. split; simpl; try done.
  - intros i m r [_ Hm]%lookup_delete_Some. by eapply H2.
  - intros i1 i2 m1 m2 r [_ ?]%lookup_delete_Some [_ ?]%lookup_delete_Some. by eapply H3.
  - intros i. rewrite Hall, H5. rewrite lookup_delete_is_Some. naive_solver.
  - intros i m [Hne Hm]%lookup_delete_Some. rewrite Hf by done. by apply H6.
Qed.
(** Releasing a layer that no image has. *)
Lemma img_inv_release s io r l x :
  inv s → lg_held (ls s) r → (∀ i m, images s !! i = Some m → layer m ≠ Some r) →
  lg_Release io r (ls s) = (l, x) → inv (set_layers l s) ∧ LayerStore.crash x = false.
Proof.
  intros [H1 H2 H3 H4 H5 H6] Hr Hno Hrel. apply lg_Release_spec in Hrel as (Hok & Hc & Hh); [|done|done]. split; [|done].
  split; simpl; try done. intros i m r' Hm Hl. apply Hh; [|by eapply H2]. intros ->. by eapply Hno.
Qed.

Lemma fs_Delete_get a b id f i : i ≠ id → fs_get i (fs_Delete a b id f) = fs_get i f.
Proof. intros Hne. unfold fs_Delete, fs_get. destruct a; [|done]. simpl. destruct b; [|done]. by rewrite lookup_delete_ne. Qed.

(** What [Delete] does to an image of the store. *)
Lemma image_Delete_spec io id s s' x :
  inv s → Delete io id s = (s', x) →
  inv s' ∧
  match images s !! id with
  | None => s' = s ∧ x = Err (ErrUnrecognized id)
  | Some _ => images s' !! id = None ∧
      (∀ i, i ≠ id → layer <$> images s' !! i = layer <$> images s !! i) ∧
      (∀ i m', i ≠ id → images s' !! i = Some m' → ∃ m, images s !! i = Some m ∧ children m' ⊆ children m) ∧
      ∃ r, x = Ok r ∧ LayerStore.crash r = false
  end.
Proof.
  intros Hinv. unfold Delete. destruct (images s !! id) as [m|] eqn:Hm; [|by intros [= <- <-]].
  set (s1 := set_fs _ s).
  assert (I1 : inv s1).
  { apply img_inv_fs; [done|]. intros i _ [c Hc]. exists c. rewrite <-Hc. apply fs_get_content, unlink_all_content. }
  set (s2 := match GetParent id s1 with Some p => _ | None => s1 end).
  assert (I2 : inv s2 ∧ digestSet s2 = digestSet s ∧ ls s2 = ls s ∧
    (∀ i, layer <$> images s2 !! i = layer <$> images s !! i) ∧
    (∀ i m', images s2 !! i = Some m' → ∃ m, images s !! i = Some m ∧ children m' ⊆ children m)).
  { unfold s2. destruct (GetParent id s1) as [p|].
    - split_and!; [by apply img_inv_children|done|done| |]; intros i; simpl; destruct (decide (i = p)) as [->|].
      + unfold unlink. rewrite lookup_alter_eq. by destruct (images s !! p).
      + unfold unlink. by rewrite lookup_alter_ne.
      + unfold unlink. rewrite lookup_alter_eq. intros m' (m0 & Hm0 & ->)%fmap_Some. exists m0. split; [done|]. simpl. set_solver.
      + unfold unlink. rewrite lookup_alter_ne by done. intros m' ?. by exists m'.
    - split_and!; try done. intros i m' ?. by exists m'. }
  clearbody s2. destruct I2 as (I2 & Ed & El & Hlay & Hch).
  destruct (ii_content _ _ Hinv id m Hm) as (_ & c & img & diffs & Hc & _).
  destruct (Remove id (digestSet s2)) as [d|e] eqn:Er.
  2: { pose proof (Remove_valid (digestSet s2) (FromBytes c) (FromBytes_valid c)) as Hv. by rewrite Hc, Er in Hv. }
  pose proof (img_inv_remove s2 id d (fs_Delete (rm_meta io) (rm_content io) id (sfs s2)) I2 Er
    (fun i Hi => fs_Delete_get _ _ id (sfs s2) i Hi)) as I3. simpl.
  assert (Hkeep : ∀ s4, images s4 = delete id (images s2) → images s4 !! id = None ∧
      (∀ i, i ≠ id → layer <$> images s4 !! i = layer <$> images s !! i) ∧
      (∀ i m', i ≠ id → images s4 !! i = Some m' → ∃ m, images s !! i = Some m ∧ children m' ⊆ children m)).
  { intros s4 ->. split_and!; [apply lookup_delete_eq| |].
    - intros i Hi. by rewrite lookup_delete_ne.
    - intros i m' Hi. rewrite lookup_delete_ne by done. apply Hch. }
  destruct (layer m) as [r|] eqn:Hl.
  - destruct (lg_Release (rm_layer io) r (ls s2)) as [l x0] eqn:Erel. intros [= <- <-].
    eapply (img_inv_release _ (rm_layer io) r l x0) in I3 as [I4 Hcr]; [| | |exact Erel].
    + split; [exact I4|]. edestruct Hkeep as (K1 & K2 & K3); [|split_and!; [exact K1|exact K2|exact K3|by eexists]]. done.
    + simpl. rewrite El. by eapply Hinv.
    + simpl. intros i m0 [Hne Hm0]%lookup_delete_Some Hl0. apply Hne.
      pose proof (Hlay i) as Hi. rewrite Hm0 in Hi. simpl in Hi. symmetry in Hi. apply fmap_Some in Hi as (m1 & Hm1 & E1).
      symmetry. apply (ii_distinct _ _ Hinv i id m1 m r); [done|done|congruence|done].
  - intros [= <- <-]. split; [exact I3|]. edestruct Hkeep as (K1 & K2 & K3); [|split_and!; [exact K1|exact K2|exact K3|by eexists]]. done.
Qed.
Lemma Delete_inv io id s : inv s → inv (Delete io id s).1.
Proof. intros Hinv. destruct (Delete io id s) as [s' x] eqn:E. by apply image_Delete_spec in E as [? _]. Qed.
End image_operations.

(** ** Reachable stores *)

Section image_steps.
Context {L : Type} `{!LayerGetReleaser L} (Unmarshal : gostring → option Image).

(** The operations of the store, and what others do with layers in between: they may change
    the store of layers as long as they release no layer of an image. *)
Inductive image_step : store L → store L → Prop :=
| step_create io config s : image_step s (Create Unmarshal io config s).1
| step_delete io id s : image_step s (Delete io id s).1
| step_setparent io id p s : image_step s (SetParent io id p s).1
| step_layers l s : lg_ok l → (∀ r, lg_held (ls s) r → lg_held l r) → image_step s (set_layers l s).

Lemma reachable_images l s :
  lg_ok l → rtc image_step (mkStore l ∅ (mkFS ∅ ∅) []) s → img_inv Unmarshal s.
Proof.
  intros Hl Hr. apply (rtc_ind_r (fun s => img_inv Unmarshal s) (mkStore l ∅ (mkFS ∅ ∅) [])) in Hr; [done|by apply img_inv_empty|].
  intros s1 s2 _ Hstep H1. destruct Hstep; [by apply Create_inv|by apply Delete_inv|by apply SetParent_inv|by apply img_inv_layers].
Qed.

(** C4: Whatever is created, deleted and re-parented, and whichever writes fail, every image
    holds the layer that its configuration names, no two images share a reference, and so the
    layers of an image are not removed while it is in the store; its configuration is stored
    under its digest; and the set searched for short IDs has exactly the images. *)
Theorem images_hold_layers l s id m :
  lg_ok l → rtc image_step (mkStore l ∅ (mkFS ∅ ∅) []) s → images s !! id = Some m →
  (∃ c img diffs, FromBytes c = id ∧ Unmarshal c = Some img ∧ RootFS img = Some diffs ∧
     match layer m with
     | Some r => lg_held (ls s) r ∧ r.1 = ChainID diffs
     | None => ChainID diffs = []
     end) ∧
  (∀ id' m' r, images s !! id' = Some m' → layer m = Some r → layer m' = Some r → id' = id) ∧
  is_Some (fs_get id (sfs s)) ∧ (∀ i, i ∈ All (digestSet s) ↔ is_Some (images s !! i)).
Proof.
  intros Hl Hr Hm. apply reachable_images in Hr as Hinv; [|done].
  destruct (ii_content _ _ Hinv id m Hm) as (Hfs & c & img & diffs & Hc & Hu & Hd & Hlr). split_and!.
  - exists c, img, diffs. split_and!; try done. unfold layer_of, streqb in Hlr.
    destruct (layer m) as [r|] eqn:E; simpl in Hlr; case_bool_decide; try done. split; [by eapply Hinv|by simplify_eq].
  - intros id' m' r Hm' E E'. by apply (ii_distinct _ _ Hinv id' id m' m r).
  - done.
  - apply Hinv.
Qed.

(** An image that is created is found: its ID is the digest of its configuration, reading
    it gives that configuration back, the other images stay as they were, and it is found by
    any string that starts its digest and no other's. *)
Theorem Create_found l s config s' id :
  lg_ok l → rtc image_step (mkStore l ∅ (mkFS ∅ ∅) []) s →
  Create Unmarshal true config s = (s', Returns (Ok id)) →
  id = FromBytes config ∧ is_Some (images s' !! id) ∧
  (∃ img, Unmarshal config = Some img ∧ Get Unmarshal id s' = Ok (img, default [] (GetParent id s'))) ∧
  (∀ i, i ≠ id → images s' !! i = images s !! i) ∧
  Search id s' = Ok id ∧
  (∀ t, Reference.DistRef.Validate t = Err Reference.DistRef.ErrChecksumInvalidFormat →
     starting t (digestSet s') = [id] → Search t s' = Ok id).
Proof.
  intros Hl Hr Hc. apply reachable_images in Hr as Hinv; [|done].
  pose proof (Create_inv Unmarshal true config s Hinv) as Hinv'. rewrite Hc in Hinv'. simpl in Hinv'.
  assert (Hmain : id = FromBytes config ∧ is_Some (images s' !! id) ∧ (∀ i, i ≠ id → images s' !! i = images s !! i) ∧
    ∃ img, Unmarshal config = Some img ∧ RootFS img ≠ None ∧ fs_get id (sfs s') = Some config).
  { unfold Create in Hc. destruct (Unmarshal config) as [img|] eqn:Hu; [|done].
    destruct (RootFS img) as [diffs|] eqn:Hrf; [|done]. destruct (Nat.ltb _ _); [done|].
    destruct (fs_Set true config (sfs s)) as [f [i|]] eqn:Ef; [|done]. apply fs_Set_spec in Ef as (-> & Hget & Hmono). simpl in Hc.
    destruct (images s !! FromBytes config) eqn:Hid.
    - injection Hc as <- <-. split_and!; [done|by eexists|done|]. exists img. split_and!; try done. by rewrite Hrf.
    - destruct (get_layer diffs (set_fs f s)) as [s2 [lr|e]] eqn:El; [|done].
      apply (get_layer_spec Unmarshal) in El as (_ & Ei & Ef & _ & _).
      2: { apply img_inv_fs; [done|]. intros j _. apply Hmono. }
      destruct (Add (FromBytes config) (digestSet s2)) as [d|]; [|done]. injection Hc as <- <-. simpl in *. rewrite Ei.
      split_and!; [done|by rewrite lookup_insert_eq; eexists|intros; by rewrite lookup_insert_ne|].
      exists img. split_and!; [done|by rewrite Hrf|]. by rewrite Ef. }
  destruct Hmain as (Hid & Hs & Hoth & img & Hu & Hrf & Hget). split_and!; try done.
  - exists img. split; [done|]. unfold Get. rewrite Hget, Hu. by rewrite bool_decide_eq_false_2.
  - unfold Search. apply Lookup_full; [apply Hinv'|rewrite Hid; apply FromBytes_valid|by apply Hinv'].
  - intros t Ht Hst. unfold Search. rewrite Lookup_short, Hst; [done|apply Hinv'|done].
Qed.
End image_steps.

(** ** Parents and children *)

Section links.
Context {L : Type} `{!LayerGetReleaser L} (Unmarshal : gostring → option Image).
Implicit Types (s : store L) (id p c : ID).

Definition recorded_parent (f : fs) id : option ID := metadata f !! id ≫= fun m => m !! ("parent" : gostring).

(** The children of an image are the images whose recorded parent it is; nothing is
    recorded for what is no image. *)
Record linked s : Prop := {
  ln_images : img_inv Unmarshal s;
  ln_children p m c : images s !! p = Some m → c ∈ children m → recorded_parent (sfs s) c = Some p;
  ln_recorded p c : recorded_parent (sfs s) c = Some p →
    is_Some (images s !! c) ∧ ∃ m, images s !! p = Some m ∧ c ∈ children m
}.

Lemma GetParent_recorded s id : is_Some (fs_get id (sfs s)) → GetParent id s = recorded_parent (sfs s) id.
Proof. intros [c Hc]. unfold GetParent, fs_GetMetadata. by rewrite Hc. Qed.

Lemma linked_GetParent s id : linked s → is_Some (images s !! id) → GetParent id s = recorded_parent (sfs s) id.
Proof. intros Hl [m Hm]. apply GetParent_recorded. by apply (ii_content _ _ (ln_images _ Hl) id m). Qed.

Lemma Create_images io config s s' x :
  img_inv Unmarshal s → Create Unmarshal io config s = (s', x) →
  metadata (sfs s') = metadata (sfs s) ∧ (images s' = images s ∨ ∃ id l, images s !! id = None ∧ images s' = <[id := mkMeta l ∅]> (images s)).
Proof.
  intros Hinv. unfold Create. destruct (Unmarshal config) as [img|]; [|intros [= <- <-]; auto].
  destruct (RootFS img) as [diffs|]; [|intros [= <- <-]; auto]. destruct (Nat.ltb _ _); [intros [= <- <-]; auto|].
  destruct (fs_Set io config (sfs s)) as [f [i|]] eqn:Ef; [|intros [= <- <-]; auto].
  assert (Hm : metadata f = metadata (sfs s)).
  { unfold fs_Set in Ef. case_bool_decide; [done|]. destruct io; [|done]. by injection Ef as <- <-. }
  pose proof (fs_Set_spec _ _ _ _ _ Ef) as (-> & _ & Hmono). simpl.
  destruct (images s !! FromBytes config) eqn:Hid; [intros [= <- <-]; auto|].
  destruct (get_layer diffs (set_fs f s)) as [s2 [lr|e]] eqn:El;
    apply (get_layer_spec Unmarshal) in El as (_ & Ei & Efs & _ & _); try (apply img_inv_fs; [done|]; intros j _; apply Hmono).
  - destruct (Add _ _) as [d|e]; intros [= <- <-]; simpl; rewrite Efs, Ei; simpl; split; auto; [by eauto|].
    left. rewrite delete_insert_eq. by apply delete_id.
  - intros [= <- <-]. rewrite Efs, Ei. auto.
Qed.
Lemma linked_Create io config s : linked s → linked (Create Unmarshal io config s).1.
Proof.
  intros Hl. assert (Hinv := ln_images _ Hl). pose proof (Create_inv Unmarshal io config s Hinv) as Hi.
  destruct (Create Unmarshal io config s) as [s' x] eqn:E. simpl in *. apply Create_images in E as [Hm Himg]; [|done].
  assert (Hrec : ∀ i, recorded_parent (sfs s') i = recorded_parent (sfs s) i) by (intros; unfold recorded_parent; by rewrite Hm).
  destruct Himg as [Himg|(id & l & Hid & Himg)]; split; try done; intros p; [intros m|..|intros m|]; intros c; rewrite ?Himg, ?Hrec;
    try by apply Hl.
  - destruct (decide (p = id)) as [->|]; intros; simplify_map_eq; [set_solver|by eapply Hl].
  - intros (Hc & m & Hp & Hin)%Hl. split.
    + destruct (decide (c = id)) as [->|]; simplify_map_eq; [by eexists|done].
    + exists m. split; [|done]. rewrite lookup_insert_ne; [done|]. intros ->. congruence.
Qed.

Lemma linked_SetParent id p s :
  linked s → is_Some (images s !! id) → is_Some (images s !! p) → (GetParent id s = None ∨ GetParent id s = Some p) →
  linked (SetParent true id p s).1.
Proof.
  intros Hl Hid [m Hm] Hpar. rewrite linked_GetParent in Hpar by done. pose proof (SetParent_inv Unmarshal true id p s (ln_images _ Hl)) as Hi.
  unfold SetParent in *. rewrite Hm in *.
  destruct (ii_content _ _ (ln_images _ Hl) id (default m (images s !! id))) as [[c Hc] _]; [by destruct Hid as [? ->]|].
  unfold fs_SetMetadata in *. simpl in *. rewrite Hc in *. simpl in *.
  assert (Hrec : ∀ i, recorded_parent (mkFS (content (sfs s)) (<[id := <["parent" : gostring := p]> (default ∅ (metadata (sfs s) !! id))]> (metadata (sfs s)))) i
    = if decide (i = id) then Some p else recorded_parent (sfs s) i).
  { intros i. unfold recorded_parent. simpl. case_decide as Hd; [subst; rewrite lookup_insert_eq; simpl; apply lookup_insert_eq|].
    by rewrite lookup_insert_ne. }
  split; simpl; [done| |].
  - intros q mq x. rewrite Hrec. case_decide as Hx.
    + subst. destruct (decide (q = p)) as [->|]; intros Hq Hin; [done|]. rewrite lookup_insert_ne in Hq by done.
      apply (ln_children _ Hl q mq id Hq) in Hin. destruct Hpar; congruence.
    + destruct (decide (q = p)) as [->|]; intros Hq Hin; simplify_map_eq; [|by eapply Hl].
      apply (ln_children _ Hl p m); [done|]. set_solver.
  - intros q x. rewrite Hrec. case_decide as Hx.
    + intros [= <-]. subst. split; [|eexists; rewrite lookup_insert_eq; split; [done|set_solver]].
      destruct (decide (id = p)) as [->|]; simplify_map_eq; [by eexists|done].
    + intros (Hxs & mq & Hq & Hin)%Hl. split; [destruct (decide (x = p)) as [->|]; simplify_map_eq; [by eexists|done]|].
      destruct (decide (q = p)) as [->|]; simplify_map_eq; [eexists; split; [done|set_solver]|eauto].
Qed.

(** The metadata of the children of an image, deleted one after the other. *)
Lemma unlink_all_recorded (d : ID → bool) (cs : gset ID) f i :
  (∀ c, d c = true) →
  let g := set_fold (fun c f => fs_DeleteMetadata (d c) c "parent" f) f cs in
  (i ∈ cs → recorded_parent g i = None) ∧ (i ∉ cs → recorded_parent g i = recorded_parent f i).
Proof.
  intros Hd. apply (set_fold_ind_L (fun g (X : gset ID) =>
    (i ∈ X → recorded_parent g i = None) ∧ (i ∉ X → recorded_parent g i = recorded_parent f i))).
  - split; [set_solver|done].
  - intros x X g Hx [H1 H2]. rewrite Hd. unfold recorded_parent in *. simpl. destruct (decide (i = x)) as [->|Hne].
    + split; [intros _|set_solver]. rewrite lookup_alter_eq. destruct (metadata g !! x); [|done]. simpl. apply lookup_delete_eq.
    + rewrite lookup_alter_ne by done. split; intros; [apply H1|apply H2]; set_solver.
Qed.
(** The images and the metadata that [Delete] leaves. *)
Lemma Delete_parts io id s m :
  images s !! id = Some m →
  let s1 := set_fs (set_fold (fun c f => fs_DeleteMetadata (d_meta io c) c "parent" f) (sfs s) (children m)) s in
  images (Delete io id s).1 = delete id (match GetParent id s1 with Some p => unlink id p (images s) | None => images s end) ∧
  metadata (sfs (Delete io id s).1) = metadata (fs_Delete (rm_meta io) (rm_content io) id (sfs s1)).
Proof.
  intros Hm. unfold Delete. rewrite Hm. cbn zeta. set (s1 := set_fs _ s).
  destruct (GetParent id s1) as [p|], (Remove id _) as [d|e]; simpl; destruct (layer m) as [r|]; simpl;
    try (destruct (lg_Release _ _ _)); done.
Qed.
Lemma linked_Delete io id s :
  linked s → (∀ c, d_meta io c = true) → rm_meta io = true → linked (Delete io id s).1.
Proof.
  intros Hl Hd Hrm. pose proof (Delete_inv Unmarshal io id s (ln_images _ Hl)) as Hi.
  destruct (images s !! id) as [m|] eqn:Hm.
  2: { unfold Delete in *. by rewrite Hm in *. }
  destruct (Delete_parts io id s m Hm) as [Himg Hmeta]. set (s1 := set_fs _ s) in *. set (s' := (Delete io id s).1) in *.
  assert (H1 : ∀ i, (i ∈ children m → recorded_parent (sfs s1) i = None) ∧ (i ∉ children m → recorded_parent (sfs s1) i = recorded_parent (sfs s) i))
    by (intros i; by apply unlink_all_recorded).
  assert (Hrec : ∀ i, i ≠ id → recorded_parent (sfs s') i = recorded_parent (sfs s1) i).
  { intros i Hi'. unfold recorded_parent. rewrite Hmeta. unfold fs_Delete. rewrite Hrm. simpl. by rewrite lookup_delete_ne. }
  assert (Hrid : recorded_parent (sfs s') id = None).
  { unfold recorded_parent. rewrite Hmeta. unfold fs_Delete. rewrite Hrm. simpl. by rewrite lookup_delete_eq. }
  assert (Hpar : ∀ i mi', images s' !! i = Some mi' → i ≠ id ∧ ∃ mi, images s !! i = Some mi ∧ children mi' ⊆ children mi ∧ id ∉ children mi').
  { intros i mi'. rewrite Himg. intros [Hne Hi']%lookup_delete_Some. split; [done|].
    assert (Hgp : GetParent id s1 = recorded_parent (sfs s1) id).
    { apply GetParent_recorded. destruct (ii_content _ _ (ln_images _ Hl) id m Hm) as [[c Hc] _]. exists c. rewrite <-Hc.
      apply fs_get_content. apply unlink_all_content. }
    rewrite Hgp in Hi'. destruct (recorded_parent (sfs s1) id) as [p|] eqn:Ep.
    - destruct (decide (i = p)) as [->|Hp].
      + unfold unlink in Hi'. rewrite lookup_alter_eq in Hi'. apply fmap_Some in Hi' as (mi & Hmi & ->). exists mi. simpl. set_solver.
      + unfold unlink in Hi'. rewrite lookup_alter_ne in Hi' by done. exists mi'. split_and!; [done|done|]. intros Hin.
        apply (ln_children _ Hl i mi' id Hi') in Hin. destruct (H1 id) as [_ H1'].
        destruct (decide (id ∈ children m)) as [Hin'|Hno]; [by rewrite (proj1 (H1 id)) in Ep|]. rewrite H1' in Ep by done. congruence.
    - exists mi'. split_and!; [done|done|]. intros Hin. pose proof (ln_children _ Hl i mi' id Hi' Hin) as Hr.
      destruct (decide (id ∈ children m)) as [Hin'|Hno].
      + rewrite (ln_children _ Hl id m id Hm Hin') in Hr. congruence.
      + destruct (H1 id) as [_ H1']. rewrite H1' in Ep by done. congruence. }
  split; [exact Hi| |].
  - intros p mp c Hp Hc. destruct (Hpar p mp Hp) as (Hne & mi & Hmi & Hsub & Hnid).
    assert (c ≠ id) by (intros ->; done). rewrite Hrec by done.
    pose proof (ln_children _ Hl p mi c Hmi (Hsub c Hc)) as Hr. destruct (H1 c) as [_ H1']. rewrite H1'; [done|].
    intros Hin. rewrite (ln_children _ Hl id m c Hm Hin) in Hr. congruence.
  - intros p c Hr. assert (Hcid : c ≠ id) by (intros ->; congruence). rewrite Hrec in Hr by done.
    destruct (decide (c ∈ children m)) as [Hin|Hno]; [by rewrite (proj1 (H1 c)) in Hr|]. rewrite (proj2 (H1 c)) in Hr by done.
    destruct (ln_recorded _ Hl p c Hr) as (Hcs & mp & Hmp & Hin).
    assert (Hpid : p ≠ id) by (intros ->; congruence).
    rewrite Himg. rewrite !lookup_delete_ne by done.
    destruct (GetParent id s1) as [q|]; [|split; [done|eauto]]. unfold unlink. split.
    + by apply lookup_alter_is_Some.
    + destruct (decide (p = q)) as [->|].
      * rewrite lookup_alter_eq, Hmp. eexists. split; [done|]. simpl. set_solver.
      * rewrite lookup_alter_ne by done. eauto.
Qed.
(** Deleting an image without children leaves the recorded parents of the others. *)
Lemma Delete_recorded io id s m c :
  (∀ c, d_meta io c = true) → images s !! id = Some m → children m = ∅ → c ≠ id →
  recorded_parent (sfs (Delete io id s).1) c = recorded_parent (sfs s) c.
Proof.
  intros Hd Hm Hch Hc. destruct (Delete_parts io id s m Hm) as [_ Hmeta]. unfold recorded_parent at 1. rewrite Hmeta, Hch.
  unfold fs_Delete. destruct (rm_meta io); simpl; [rewrite lookup_delete_ne by done|]; by rewrite set_fold_empty.
Qed.
End links.

Section parents.
Context {L : Type} `{!LayerGetReleaser L} (Unmarshal : gostring → option Image).

(** The operations, with the removals of metadata succeeding and [SetParent] called for an
    image that has no other parent yet. *)
Inductive linked_step : store L → store L → Prop :=
| lstep_create io config s : linked_step s (Create Unmarshal io config s).1
| lstep_delete io id s : (∀ c, d_meta io c = true) → rm_meta io = true → linked_step s (Delete io id s).1
| lstep_setparent id p s : is_Some (images s !! id) → is_Some (images s !! p) →
    (GetParent id s = None ∨ GetParent id s = Some p) → linked_step s (SetParent true id p s).1
| lstep_layers l s : lg_ok l → (∀ r, lg_held (ls s) r → lg_held l r) → linked_step s (set_layers l s).

Lemma reachable_linked l s : lg_ok l → rtc linked_step (mkStore l ∅ (mkFS ∅ ∅) []) s → linked Unmarshal s.
Proof.
  intros Hl Hr. apply (rtc_ind_r (fun s => linked Unmarshal s) (mkStore l ∅ (mkFS ∅ ∅) [])) in Hr; [done| |].
  - split; [by apply img_inv_empty|intros; simplify_map_eq|]. intros p c. unfold recorded_parent. simpl. by rewrite lookup_empty.
  - intros s1 s2 _ Hstep H1. destruct Hstep as [io config s0|io id s0 ? ?|id p s0 ? ? ?|l' s0 ? ?];
      [by apply linked_Create|by apply linked_Delete|by apply linked_SetParent|].
    destruct H1 as [Hi Hc Hrec]. split; [by apply img_inv_layers|exact Hc|exact Hrec].
Qed.

(** The children that an image reports, which protect it from deletion, are exactly the
    images whose recorded parent it is, through every creation, deletion and re-parenting that
    does not give an image a second parent. *)
Theorem children_exact l s p c :
  lg_ok l → rtc linked_step (mkStore l ∅ (mkFS ∅ ∅) []) s → is_Some (images s !! p) →
  c ∈ Children p s ↔ is_Some (images s !! c) ∧ GetParent c s = Some p.
Proof.
  intros Hl Hr [m Hm]. apply reachable_linked in Hr as Hk; [|done]. unfold Children. rewrite Hm, elem_of_elements. split.
  - intros Hc. pose proof (ln_children _ _ Hk p m c Hm Hc) as Hp. destruct (ln_recorded _ _ Hk p c Hp) as [Hs _].
    split; [done|]. by rewrite (linked_GetParent Unmarshal).
  - intros [Hs Hp]. rewrite (linked_GetParent Unmarshal) in Hp by done.
    destruct (ln_recorded _ _ Hk p c Hp) as (_ & m' & Hm' & Hin). congruence.
Qed.
End parents.

(** ** Examples *)

(** Configurations that name no layers. *)
Definition plain_config (c : gostring) : option Image := Some (mkImage (Some []) []).
Definition no_images : store LayerStore.layerStore := mkStore LayerStore.empty ∅ (mkFS ∅ ∅) [].
Definition two_images : store LayerStore.layerStore := (Create plain_config true "b" (Create plain_config true "a" no_images).1).1.
Definition family : store LayerStore.layerStore := (SetParent true (FromBytes "b") (FromBytes "a") two_images).1.

Lemma layers_empty_ok : lg_ok LayerStore.empty.
Proof. exists []. apply inv_empty. Qed.
Lemma two_images_reachable : rtc (image_step plain_config) no_images two_images.
Proof. eapply rtc_l; [apply step_create|]. eapply rtc_l; [apply step_create|]. apply rtc_refl. Qed.
Lemma is_Some_check {A} (o : option A) : bool_decide (is_Some o) = true → is_Some o.
Proof. by rewrite bool_decide_eq_true. Qed.
Lemma family_reachable : rtc (linked_step plain_config) no_images family.
Proof.
  eapply rtc_l; [apply (lstep_create plain_config true "a")|]. eapply rtc_l; [apply (lstep_create plain_config true "b")|].
  eapply rtc_l; [apply (lstep_setparent plain_config (FromBytes "b") (FromBytes "a"))|apply rtc_refl].
  - apply is_Some_check. vm_compute. reflexivity.
  - apply is_Some_check. vm_compute. reflexivity.
  - left. vm_compute. reflexivity.
Qed.

Lemma images_hold_layers_witness : is_Some (fs_get (FromBytes "a") (sfs two_images)).
Proof.
  assert (Hs : is_Some (images two_images !! FromBytes "a")) by (apply is_Some_check; vm_compute; reflexivity).
  destruct Hs as [m Hm].
  exact (proj1 (proj2 (proj2 (images_hold_layers plain_config LayerStore.empty two_images (FromBytes "a") m
    layers_empty_ok two_images_reachable Hm)))).
Defined.
Lemma Create_found_witness : Search (FromBytes "c") (Create plain_config true "c" two_images).1 = Ok (FromBytes "c").
Proof.
  assert (Hr : (Create plain_config true "c" two_images).2 = Returns (Ok (FromBytes "c"))) by (vm_compute; reflexivity).
  destruct (Create plain_config true "c" two_images) as [s' x] eqn:E. simpl in Hr. rewrite Hr in E.
  exact (proj1 (proj2 (proj2 (proj2 (proj2 (Create_found plain_config LayerStore.empty two_images "c" s' (FromBytes "c")
    layers_empty_ok two_images_reachable E)))))).
Defined.
Lemma children_exact_witness :
  FromBytes "b" ∈ Children (FromBytes "a") family ↔
  is_Some (images family !! FromBytes "b") ∧ GetParent (FromBytes "b") family = Some (FromBytes "a").
Proof.
  apply (children_exact plain_config LayerStore.empty family (FromBytes "a") (FromBytes "b") layers_empty_ok family_reachable).
  apply is_Some_check. vm_compute. reflexivity.
Defined.

(** An image that gets a second parent stays among the children of the first: the first can
    then not be deleted, although no image records it as its parent. *)
Theorem SetParent_stale_child :
  let s := (SetParent true (FromBytes "b") (FromBytes "c") (Create plain_config true "c" family).1).1 in
  GetParent (FromBytes "b") s = Some (FromBytes "c") ∧
  Children (FromBytes "a") s = [FromBytes "b"] ∧ Children (FromBytes "c") s = [FromBytes "b"].
Proof. split_and!; vm_compute; reflexivity. Qed.

(** A configuration without root file system crashes [Create]; one whose history names more
    layers than it has is refused, but nothing else about its history is checked. *)
Theorem Create_without_rootfs s :
  Create (L := LayerStore.layerStore) (fun _ => Some (mkImage None [])) true "x" s = (s, NilPointer).
Proof. reflexivity. Qed.
