(* ===== verification/ImageDelete.v ===== *)
(** * ImageDelete: deleting images

    Models [src/daemon/image_delete.go], the resolution of an image name of
    [src/daemon/daemon.go] ([GetImageID]) and [stringid.TruncateID].  The daemon is a
    client of the tag store and of the image store: the first is used through the
    class [TagStore], the second is [ImageStore] over any [LayerGetReleaser].

    [ImageDelete] returns its records together with the result of a call that extends
    them; the order in which Go evaluates the two is not specified, and the records
    are taken after the call. *)

From S2P Require Import Prelude Strconv Regexp Reference RefStore Digest LayerStore DigestSet ImageStore.
Import Strings Reference.

Local Open Scope Z_scope.

Module ImageDelete.

(** ** Names of images *)

Definition shortLen : nat := 12.
Definition TruncateID (id : gostring) : gostring :=
  let id := match Cut ":" id with Some (_, rest) => rest | None => id end in
  take (if Nat.ltb (length id) shortLen then length id else shortLen) id.

Definition isImageIDPrefix (imageID possiblePrefix : gostring) : bool :=
  if HasPrefix imageID possiblePrefix then true
  else match Cut ":" imageID with
       | Some (_, hex) => HasPrefix hex possiblePrefix
       | None => false
       end.

(** ** Conflicts *)

Definition conflictDependentChild : Z := 1.
Definition conflictRunningContainer : Z := 2.
Definition conflictActiveReference : Z := 4.
Definition conflictStoppedContainer : Z := 8.
Definition conflictHard : Z := Z.lor conflictDependentChild conflictRunningContainer.
Definition conflictSoft : Z := Z.lor conflictActiveReference conflictStoppedContainer.

Record imageDeleteConflict := mkConflict { hard : bool; used : bool; imgID : gostring; message : gostring }.

(** What is used of a container. *)
Record cont := mkCont { c_ID : gostring; c_ImageID : gostring; c_running : bool }.

Inductive record := Untagged (ref : gostring) | Deleted (id : gostring).

Inductive error :=
| ErrImageDoesNotExist (ref : gostring)
| ErrImgDelUsed (ref cid id : gostring)
| ErrReference (e : Reference.error)
| ErrTag (e : RefStore.error)
| ErrConflict (c : imageDeleteConflict)
| ErrImage (e : ImageStore.error)
| ErrLayer (e : LayerStore.error)
| Crash.   (* a panic of the layer store *)

(** Which external calls succeed: saving the tag store after a reference is removed, and
    those of the deletion of an image. *)
Record delete_io := mkIO {
  io_tag : Named → bool;
  io_image : ImageStore.delete_io
}.

Section daemon.
Context {T L : Type} `{!TagStore T} `{!LayerGetReleaser L} (Unmarshal : gostring → option ImageStore.Image).

Record daemon := mkDaemon {
  imageStore : ImageStore.store L;
  referenceStore : T;
  containers : list cont;
  events : list (gostring * gostring)
}.
Definition set_images (s : ImageStore.store L) (d : daemon) : daemon := mkDaemon s (referenceStore d) (containers d) (events d).
Definition set_refs (t : T) (d : daemon) : daemon := mkDaemon (imageStore d) t (containers d) (events d).
Definition LogImageEvent (id action : gostring) (d : daemon) : daemon :=
  mkDaemon (imageStore d) (referenceStore d) (containers d) (events d ++ [(id, action)]).

(** [GetImageID]. *)
Definition by_reference (refOrID : gostring) (d : daemon) : option gostring :=
  match ParseNamed refOrID with
  | Err _ => None
  | Ok ref =>
      match ts_get ref (referenceStore d) with
      | Ok id => Some id
      | Err _ =>
          match ref with
          | taggedRef n t =>
              match ImageStore.Search t (imageStore d) with
              | Ok id => if existsb (fun r => Name r =s n) (ts_references id (referenceStore d)) then Some id else None
              | Err _ => None
              end
          | _ => None
          end
      end
  end.
Definition GetImageID (refOrID : gostring) (d : daemon) : result error gostring :=
  match DistRef.ParseDigest refOrID with
  | Ok id => match ImageStore.Get Unmarshal id (imageStore d) with
             | Ok _ => Ok id
             | Err _ => Err (ErrImageDoesNotExist refOrID)
             end
  | Err _ =>
      match by_reference refOrID d with
      | Some id => Ok id
      | None =>
          match ImageStore.Search refOrID (imageStore d) with
          | Ok id => Ok id
          | Err _ => Err (ErrImageDoesNotExist refOrID)
          end
      end
  end.

Definition getContainerUsingImage (id : gostring) (d : daemon) : option cont :=
  List.find (fun c => c_ImageID c =s id) (containers d).

Definition nonempty {A} (l : list A) : bool := match l with [] => false | _ => true end.

(** [checkImageDeleteConflict]. *)
Definition checkImageDeleteConflict (id : gostring) (mask : Z) (d : daemon) : option imageDeleteConflict :=
  if negb (Z.land mask conflictDependentChild =? 0) && nonempty (ImageStore.Children id (imageStore d))
  then Some (mkConflict true false id "image has dependent child images")
  else
    match (if Z.land mask conflictRunningContainer =? 0 then None
           else List.find (fun c => c_running c && (c_ImageID c =s id)) (containers d)) with
    | Some c => Some (mkConflict true true id ("image is being used by running container " ++ TruncateID (c_ID c)))
    | None =>
        if negb (Z.land mask conflictActiveReference =? 0) && nonempty (ts_references id (referenceStore d))
        then Some (mkConflict false false id "image is referenced in one or more repositories")
        else
          match (if Z.land mask conflictStoppedContainer =? 0 then None
                 else List.find (fun c => negb (c_running c) && (c_ImageID c =s id)) (containers d)) with
          | Some c => Some (mkConflict false true id ("image is being used by stopped container " ++ TruncateID (c_ID c)))
          | None => None
          end
    end.

Definition imageIsDangling (id : gostring) (d : daemon) : bool :=
  negb (nonempty (ts_references id (referenceStore d)) || nonempty (ImageStore.Children id (imageStore d))).

(** [removeImageRef]. *)
Definition removeImageRef (io : delete_io) (ref : Named) (d : daemon) : daemon * (Named * option error) :=
  let ref := WithDefaultTag ref in
  let '(t, (_, err)) := ts_delete (io_tag io ref) ref (referenceStore d) in
  (set_refs t d, (ref, ErrTag <$> err)).

(** [removeAllReferencesToImageID]: the loop over the references listed at the start. *)
Fixpoint remove_refs (io : delete_io) (id : gostring) (refs : list Named) (records : list record) (d : daemon)
    : daemon * (list record * option error) :=
  match refs with
  | [] => (d, (records, None))
  | ref :: refs =>
      match removeImageRef io ref d with
      | (d, (_, Some err)) => (d, (records, Some err))
      | (d, (ref, None)) => remove_refs io id refs (records ++ [Untagged (String ref)]) (LogImageEvent id "untag" d)
      end
  end.
Definition removeAllReferencesToImageID (io : delete_io) (id : gostring) (records : list record) (d : daemon)
    : daemon * (list record * option error) :=
  remove_refs io id (ts_references id (referenceStore d)) records d.

(** [imageDeleteHelper]; [None] if the fuel runs out. *)
Fixpoint imageDeleteHelper (fuel : nat) (io : delete_io) (id : gostring) (records : list record) (force prune quiet : bool)
    (d : daemon) : option (daemon * (list record * option error)) :=
  match fuel with
  | O => None
  | S fuel =>
      let c := if force then conflictHard else Z.lor conflictHard conflictSoft in
      match checkImageDeleteConflict id c d with
      | Some conflict =>
          if quiet && (negb (imageIsDangling id d) || used conflict) then Some (d, (records, None))
          else Some (d, (records, Some (ErrConflict conflict)))
      | None =>
          let parent := default [] (ImageStore.GetParent id (imageStore d)) in
          match removeAllReferencesToImageID io id records d with
          | (d, (records, Some err)) => Some (d, (records, Some err))
          | (d, (records, None)) =>
              match ImageStore.Delete (io_image io) id (imageStore d) with
              | (s, Err e) => Some (set_images s d, (records, Some (ErrImage e)))
              | (s, Ok (LayerStore.NotRemoved e)) => Some (set_images s d, (records, Some (ErrLayer e)))
              | (s, Ok (LayerStore.Removed removedLayers)) =>
                  let d := LogImageEvent id "delete" (set_images s d) in
                  let records := records ++ [Deleted id] ++ ((fun m => Deleted (LayerStore.md_ChainID m)) <$> removedLayers) in
                  if negb prune || (parent =s []) then Some (d, (records, None))
                  else imageDeleteHelper fuel io parent records false true true d
              | (s, Ok _) => Some (set_images s d, (records, Some Crash))
              end
          end
      end
  end.
Definition delete_helper (io : delete_io) (id : gostring) (records : list record) (force prune quiet : bool) (d : daemon)
    : option (daemon * (list record * option error)) :=
  imageDeleteHelper (S (size (ImageStore.images (imageStore d)))) io id records force prune quiet d.

Definition isCanonical (r : Named) : bool := match r with canonicalRef _ _ => true | _ => false end.

(** The loop of [ImageDelete] over the digest references that remain after a tag is
    removed; it logs no event. *)
Fixpoint remove_digests (io : delete_io) (refs : list Named) (records : list record) (d : daemon)
    : daemon * (list record * option error) :=
  match refs with
  | [] => (d, (records, None))
  | ref :: refs =>
      match removeImageRef io ref d with
      | (d, (_, Some err)) => (d, (records, Some err))
      | (d, (_, None)) => remove_digests io refs (records ++ [Untagged (String ref)]) d
      end
  end.

(** [ImageDelete] with a reference. *)
Definition delete_by_reference (io : delete_io) (imageRef id : gostring) (force prune : bool) (d : daemon)
    : option (daemon * (list record * option error)) :=
  let in_use := if force || Nat.ltb 1 (length (ts_references id (referenceStore d))) then None else getContainerUsingImage id d in
  match in_use with
  | Some c => Some (d, ([], Some (ErrImgDelUsed imageRef (TruncateID (c_ID c)) (TruncateID id))))
  | None =>
      match ParseNamed imageRef with
      | Err e => Some (d, ([], Some (ErrReference e)))
      | Ok parsedRef =>
          match removeImageRef io parsedRef d with
          | (d, (_, Some err)) => Some (d, ([], Some err))
          | (d, (parsedRef, None)) =>
              let d := LogImageEvent id "untag" d in
              let records := [Untagged (String parsedRef)] in
              let repoRefs := ts_references id (referenceStore d) in
              if negb (isCanonical parsedRef) && forallb isCanonical repoRefs then
                match remove_digests io repoRefs records d with
                | (d, (records, Some err)) => Some (d, (records, Some err))
                | (d, (records, None)) => delete_helper io id records force prune true d
                end
              else if nonempty repoRefs then Some (d, (records, None))
              else delete_helper io id records force prune true d
          end
      end
  end.
(** [ImageDelete] with the start of an ID. *)
Definition delete_by_id (io : delete_io) (id : gostring) (force prune : bool) (d : daemon)
    : option (daemon * (list record * option error)) :=
  match ts_references id (referenceStore d) with
  | [ref] =>
      let c := if force then conflictHard else Z.lor conflictHard (Z.ldiff conflictSoft conflictActiveReference) in
      match checkImageDeleteConflict id c d with
      | Some conflict => Some (d, ([], Some (ErrConflict conflict)))
      | None =>
          match removeImageRef io ref d with
          | (d, (_, Some err)) => Some (d, ([], Some err))
          | (d, (parsedRef, None)) =>
              delete_helper io id [Untagged (String parsedRef)] force prune false (LogImageEvent id "untag" d)
          end
      end
  | _ => delete_helper io id [] force prune false d
  end.

Definition ImageDelete (io : delete_io) (imageRef : gostring) (force prune : bool) (d : daemon)
    : option (daemon * (list record * option error)) :=
  match GetImageID imageRef d with
  | Err e => Some (d, ([], Some e))
  | Ok id => if isImageIDPrefix id imageRef then delete_by_id io id force prune d
             else delete_by_reference io imageRef id force prune d
  end.
End daemon.
Arguments daemon : clear implicits.
End ImageDelete.

Import ImageDelete.

Section deletion.
Context {T L : Type} `{!TagStore T} `{!LayerGetReleaser L} (Unmarshal : gostring → option ImageStore.Image).
Implicit Types (d : daemon T L) (id : gostring) (r : Named).

Definition imgs d : gmap gostring ImageStore.imageMeta := ImageStore.images (imageStore d).
Definition tag d r : option gostring := ts_view (referenceStore d) r.
Definition parent_of d id : option gostring := recorded_parent (ImageStore.sfs (imageStore d)) id.

Definition daemon_ok d : Prop := linked Unmarshal (imageStore d) ∧ ts_ok (referenceStore d).

(** A container stands in the way: a running one always, a stopped one unless forced. *)
Definition protected (force : bool) d id : Prop :=
  ∃ c, c ∈ containers d ∧ c_ImageID c = id ∧ (force = false ∨ c_running c = true).

(** What a deletion may do. *)
Record evolves (force : bool) d d' : Prop := {
  ev_ok : daemon_ok d';
  ev_containers : containers d' = containers d;
  ev_images id : is_Some (imgs d' !! id) → is_Some (imgs d !! id);
  ev_tags r id : stored r → tag d' r = Some id → tag d r = Some id;
  ev_gone id : is_Some (imgs d !! id) → imgs d' !! id = None →
    ¬ protected force d id ∧ ∀ r, stored r → tag d' r ≠ Some id;
  ev_parent c p : is_Some (imgs d' !! c) → parent_of d c = Some p → is_Some (imgs d' !! p) ∧ parent_of d' c = Some p
}.
(** The records of a deletion that succeeds. *)
Record reported d d' (new : list record) : Prop := {
  rp_deleted id : is_Some (imgs d !! id) → imgs d' !! id = None → Deleted id ∈ new;
  rp_untagged r id : stored r → tag d r = Some id → tag d' r = None → Untagged (String r) ∈ new;
  rp_true x : Untagged x ∈ new → ∃ r id, stored r ∧ x = String r ∧ tag d r = Some id ∧ tag d' r = None
}.

Lemma evolves_refl force d : daemon_ok d → evolves force d d.
Proof.
  intros Hok. split; try done; [intros id [x Hx]; congruence|]. intros c p Hc Hp. split; [|done].
  destruct (ln_recorded _ _ (proj1 Hok) p c Hp) as (_ & m & Hm & _). by eexists.
Qed.
Lemma evolves_trans force d1 d2 d3 : evolves force d1 d2 → evolves force d2 d3 → evolves force d1 d3.
Proof.
  intros [A1 A2 A3 A4 A5 A6] [B1 B2 B3 B4 B5 B6]. split; [done|congruence|auto|auto| |].
  - intros id H1 H3. destruct (imgs d2 !! id) as [x|] eqn:E.
    + destruct (B5 id) as [C1 C2]; [by eexists|done|]. split; [|done]. intros (c & Hc & Hid & Hr). apply C1. exists c. by rewrite A2.
    + destruct (A5 id H1 E) as [C1 C2]. split; [done|]. intros r Hr Ht. by apply (C2 r Hr), B4.
  - intros c p Hc Hp. destruct (A6 c p (B3 c Hc) Hp) as [_ Hp2]. by apply B6.
Qed.
Lemma evolves_weaken force d d' : evolves false d d' → evolves force d d'.
Proof.
  intros [A1 A2 A3 A4 A5 A6]. split; try done. intros id H1 H2. destruct (A5 id H1 H2) as [C1 C2]. split; [|done].
  intros (c & Hc & Hid & _). apply C1. exists c. auto.
Qed.
Lemma reported_trans force d1 d2 d3 n1 n2 :
  evolves force d1 d2 → evolves force d2 d3 → reported d1 d2 n1 → reported d2 d3 n2 → reported d1 d3 (n1 ++ n2).
Proof.
  intros E1 E2 [A1 A2 A3] [B1 B2 B3]. split.
  - intros id H1 H3. apply elem_of_app. destruct (imgs d2 !! id) eqn:E; [right; apply B1; [by eexists|done]|left; auto].
  - intros r id Hr H1 H3. apply elem_of_app. destruct (tag d2 r) as [i|] eqn:E; [right; by apply (B2 r i)|left; by apply (A2 r id)].
  - intros x [Hx|Hx]%elem_of_app.
    + destruct (A3 x Hx) as (r & id & Hr & -> & H1 & H2). exists r, id. split_and!; try done.
      destruct (tag d3 r) as [i|] eqn:E; [|done]. apply (ev_tags _ _ _ E2) in E; [|done]. congruence.
    + destruct (B3 x Hx) as (r & id & Hr & -> & H1 & H2). exists r, id. split_and!; try done.
      by apply (ev_tags _ _ _ E1).
Qed.
Lemma reported_refl d : reported d d [].
Proof. split; [intros id [? ?] ?; congruence|intros; congruence|intros x Hx; by apply elem_of_nil in Hx]. Qed.

Lemma LogImageEvent_evolves force id a d d' : evolves force d d' → evolves force d (LogImageEvent id a d').
Proof. intros [A1 A2 A3 A4 A5 A6]. by split. Qed.
Lemma LogImageEvent_reported id a d d' n : reported d d' n → reported d (LogImageEvent id a d') n.
Proof. intros [A1 A2 A3]. by split. Qed.

(** ** Removing references *)

Lemma stored_default r : stored r → WithDefaultTag r = r.
Proof. intros [_ H]. rewrite WithDefaultTag_eq. by destruct r. Qed.

Lemma removeImageRef_spec force io r d d' r' e :
  daemon_ok d → wf r → removeImageRef io r d = (d', (r', e)) →
  evolves force d d' ∧ r' = WithDefaultTag r ∧ imageStore d' = imageStore d ∧
  (∀ x, stored x → tag d' x = if decide (x = r') then None else tag d x) ∧
  (e = None → reported d d' [Untagged (String r')]).
Proof.
  intros Hok Hwf. unfold removeImageRef. destruct (ts_delete _ _ _) as [t [b e0]] eqn:E. intros [= <- <- <-].
  pose proof (stored_WithDefaultTag r Hwf) as Hst. assert (Hwf' : wf (WithDefaultTag r)) by apply Hst.
  apply ts_delete_spec in E as [Hts E]; [|apply Hok|done]. rewrite (stored_default _ Hst) in E.
  set (r' := WithDefaultTag r) in *.
  assert (Htag : ∀ x, stored x → ts_view t x = if decide (x = r') then None else tag d x).
  { intros x Hx. destruct (ts_view (referenceStore d) r') as [i|] eqn:Ev.
    - destruct E as (_ & _ & E). by apply E.
    - destruct E as (-> & _). case_decide as Hd; [by subst|done]. }
  assert (Hev : evolves force d (set_refs t d)).
  { split; try done; [split; [apply Hok|done]| | |].
    - intros x i Hx. unfold tag. simpl. rewrite (Htag x Hx). by case_decide.
    - intros id [y Hy] Hn. unfold imgs in *. simpl in Hn. congruence.
    - intros c p Hc Hp. split; [|done]. destruct (ln_recorded _ _ (proj1 Hok) p c Hp) as (_ & m & Hm & _). by eexists. }
  split_and!; try done. intros He. apply fmap_None in He. split.
  - intros id [y Hy] Hn. unfold imgs in *. simpl in Hn. congruence.
  - intros x i Hx Hi. unfold tag at 1. simpl. rewrite (Htag x Hx). case_decide; [subst; intros _; by left|congruence].
  - intros x [= ->]%list_elem_of_singleton. destruct (ts_view (referenceStore d) r') as [i|] eqn:Ev.
    + exists r', i. split_and!; try done. unfold tag. simpl. rewrite (Htag r' Hst). by rewrite decide_True.
    + destruct E as (_ & _ & E). congruence.
Qed.

Lemma remove_refs_spec force io id refs records d d' records' e :
  daemon_ok d → Forall stored refs → remove_refs io id refs records d = (d', (records', e)) →
  evolves force d d' ∧ imageStore d' = imageStore d ∧
  (e = None → (∀ r, r ∈ refs → tag d' r = None) ∧ ∃ new, records' = records ++ new ∧ reported d d' new).
Proof.
  intros Hok Hrefs. revert records d Hok. induction Hrefs as [|r refs Hr Hrefs IH]; intros records d Hok; cbn [remove_refs].
  { intros [= <- <- <-]. split; [by apply evolves_refl|]. split; [done|]. intros _. split; [intros r Hr; by apply elem_of_nil in Hr|].
    exists []. rewrite app_nil_r. split; [done|apply reported_refl]. }
  destruct (removeImageRef io r d) as [d1 [r' [err|]]] eqn:E; apply (removeImageRef_spec force) in E as (E1 & -> & Ei & Ht & Hrep); try done; try apply Hr.
  { intros [= <- <- <-]. done. }
  intros H. rewrite (stored_default r Hr) in *. apply IH in H as (H1 & H2 & H3); [|apply E1].
  assert (E1' : evolves force d (LogImageEvent id "untag" d1)) by (by apply LogImageEvent_evolves).
  split; [by eapply evolves_trans|]. split; [by rewrite H2|]. intros ->. destruct (H3 eq_refl) as [H4 (new & -> & H5)]. split.
  - intros x [->|Hx]%elem_of_cons; [|by apply H4]. destruct (tag d' r) as [i|] eqn:Et; [|done].
    apply (ev_tags _ _ _ H1) in Et; [|done]. unfold tag in Et. simpl in Et. fold (tag d1 r) in Et. rewrite Ht, decide_True in Et; done.
  - exists ([Untagged (String r)] ++ new). split; [by rewrite (assoc_L app)|].
    eapply reported_trans; [exact E1'|exact H1| |exact H5]. by apply LogImageEvent_reported, Hrep.
Qed.

(** ** Conflicts *)

Definition full_mask (force : bool) : Z := if force then conflictHard else Z.lor conflictHard conflictSoft.

Lemma find_none {A} (f : A → bool) l x : List.find f l = None → x ∈ l → f x = false.
Proof. intros H Hx. by apply (List.find_none f l H), list_elem_of_In. Qed.
Lemma nonempty_false {A} (l : list A) : nonempty l = false → l = [].
Proof. by destruct l. Qed.

Lemma check_none force id d :
  checkImageDeleteConflict id (full_mask force) d = None →
  ImageStore.Children id (imageStore d) = [] ∧ ¬ protected force d id ∧
  (force = false → ts_references id (referenceStore d) = []).
Proof.
  unfold checkImageDeleteConflict, full_mask. destruct force; simpl.
  - destruct (nonempty _) eqn:E1; [done|]. destruct (List.find _ _) eqn:E2; [done|]. intros _.
    split_and!; [by apply nonempty_false| |done]. intros (c & Hc & <- & [?|Hr]); [done|].
    apply (find_none _ _ c) in E2; [|done]. simpl in E2. rewrite Hr in E2. by apply bool_decide_eq_false in E2.
  - destruct (nonempty _) eqn:E1; [done|]. destruct (List.find _ _) eqn:E2; [done|].
    destruct (nonempty (ts_references _ _)) eqn:E3; [done|]. destruct (List.find (fun c => negb _ && _) _) eqn:E4; [done|]. intros _.
    split_and!; [by apply nonempty_false| |intros _; by apply nonempty_false].
    intros (c & Hc & <- & _). apply (find_none _ _ c) in E2, E4; [|done|done].
    simpl in E2, E4. destruct (c_running c); simpl in E2, E4; [by apply bool_decide_eq_false in E2|by apply bool_decide_eq_false in E4].
Qed.

(** ** Deleting one image *)

Lemma size_unlink id (p : gostring) (m : gmap gostring ImageStore.imageMeta) : size (ImageStore.unlink id p m) = size m.
Proof. unfold ImageStore.unlink. rewrite <-!(size_dom (D := gset gostring)). by rewrite dom_alter_L. Qed.

(** The metadata calls of the backend succeed. *)
Definition metadata_ok (io : delete_io) : Prop :=
  (∀ c, ImageStore.d_meta (io_image io) c = true) ∧ ImageStore.rm_meta (io_image io) = true.

Lemma Delete_evolves force io id d s x :
  daemon_ok d → metadata_ok io → ImageStore.Children id (imageStore d) = [] → ¬ protected force d id →
  (∀ r, stored r → tag d r ≠ Some id) → ImageStore.Delete (io_image io) id (imageStore d) = (s, x) →
  evolves force d (set_images s d) ∧
  match x with
  | Ok o => LayerStore.crash o = false ∧ is_Some (imgs d !! id) ∧ (size (ImageStore.images s) < size (imgs d))%nat ∧
      ∀ l, reported d (set_images s d) (Deleted id :: (Deleted <$> l))
  | Err _ => set_images s d = d
  end.
Proof.
  intros Hok [Hd Hrm] Hch Hprot Htags HD. pose proof HD as HD'.
  apply (image_Delete_spec Unmarshal) in HD as [_ HD]; [|apply Hok]. unfold imgs.
  destruct (ImageStore.images (imageStore d) !! id) as [m|] eqn:Hm.
  2: { destruct HD as [-> ->]. assert (set_images (imageStore d) d = d) as -> by (by destruct d). split; [by apply evolves_refl|done]. }
  destruct HD as (Hgone & Hkeep & _ & o & -> & Hcr).
  assert (Hdom : ∀ i, i ≠ id → is_Some (ImageStore.images s !! i) ↔ is_Some (ImageStore.images (imageStore d) !! i)).
  { intros i Hi. rewrite <-(fmap_is_Some ImageStore.layer (ImageStore.images s !! i)), (Hkeep i Hi). apply fmap_is_Some. }
  assert (Hcm : ImageStore.children m = ∅).
  { unfold ImageStore.Children in Hch. rewrite Hm in Hch. by apply leibniz_equiv, elements_empty_iff. }
  assert (Hrec : ∀ c, c ≠ id → recorded_parent (ImageStore.sfs s) c = recorded_parent (ImageStore.sfs (imageStore d)) c).
  { intros c Hc. pose proof (Delete_recorded (io_image io) id (imageStore d) m c Hd Hm Hcm Hc) as Hr. by rewrite HD' in Hr. }
  assert (Hlink : linked Unmarshal s).
  { pose proof (linked_Delete Unmarshal (io_image io) id (imageStore d) (proj1 Hok) Hd Hrm) as H. by rewrite HD' in H. }
  split; [|split_and!; [done|by eexists| |]].
  - split; try done; [split; [done|apply Hok]| | |]; unfold imgs in *; simpl in *.
    + intros i Hi. destruct (decide (i = id)) as [->|Hne]; [by eexists|by apply Hdom].
    + intros i Hi Hno. destruct (decide (i = id)) as [->|Hne]; [done|]. apply Hdom in Hi as [? Hi]; [congruence|done].
    + intros c p Hc Hp. assert (c ≠ id) by (intros ->; by rewrite Hgone in Hc; destruct Hc).
      destruct (ln_recorded _ _ (proj1 Hok) p c Hp) as (_ & mp & Hmp & Hin). assert (p ≠ id) by (intros ->; set_solver).
      split; [apply Hdom; [done|by eexists]|]. unfold parent_of in *. simpl. by rewrite Hrec.
  - destruct (Delete_parts (io_image io) id (imageStore d) m Hm) as [Himg _]. rewrite HD' in Himg. simpl in Himg. rewrite Himg.
    rewrite map_size_delete_Some.
    + assert (size (ImageStore.images (imageStore d)) ≠ 0%nat) by (intros E; apply map_size_empty_inv in E; by rewrite E in Hm).
      destruct (ImageStore.GetParent _ _) as [p|]; [|lia]. rewrite size_unlink. lia.
    + destruct (ImageStore.GetParent _ _) as [p|]; [|by eexists]. unfold ImageStore.unlink. apply lookup_alter_is_Some. by eexists.
  - intros l. split; unfold imgs; simpl.
    + intros i Hi Hno. destruct (decide (i = id)) as [->|Hne]; [by left|]. apply Hdom in Hi as [? ?]; [congruence|done].
    + intros r i _ H1 H2. unfold tag in H2. simpl in H2. unfold tag in H1. congruence.
    + intros x Hx. exfalso. apply elem_of_cons in Hx as [?|Hx]; [done|]. by apply list_elem_of_fmap in Hx as (? & ? & _).
Qed.

(** A deletion that ends in [d'] with these records and this error. *)
Definition ends (force : bool) d (records : list record) (o : option (daemon T L * (list record * option error))) : Prop :=
  ∃ d' records' e, o = Some (d', (records', e)) ∧ evolves force d d' ∧ e ≠ Some Crash ∧
    (e = None → ∃ new, records' = records ++ new ∧ reported d d' new).

Lemma ends_refl force d records e : daemon_ok d → e ≠ Some Crash → ends force d records (Some (d, (records, e))).
Proof.
  intros Hok He. exists d, records, e. split_and!; [done|by apply evolves_refl|done|]. intros _. exists []. rewrite app_nil_r.
  split; [done|apply reported_refl].
Qed.
Lemma ends_trans force d d1 records new o :
  evolves force d d1 → reported d d1 new → ends force d1 (records ++ new) o → ends force d records o.
Proof.
  intros E1 R1 (d' & records' & e & -> & E2 & He & Hr). exists d', records', e. split_and!; [done|by eapply evolves_trans|done|].
  intros H. destruct (Hr H) as (new2 & -> & R2). exists (new ++ new2). split; [by rewrite (assoc_L app)|]. by eapply reported_trans.
Qed.
Lemma ends_error force d d1 records records' e :
  evolves force d d1 → e ≠ Crash → ends force d records (Some (d1, (records', Some e))).
Proof. intros E He. exists d1, records', (Some e). split_and!; [done|done|congruence|done]. Qed.
Lemma ends_weaken force d records o : ends false d records o → ends force d records o.
Proof. intros (d' & r & e & -> & E & He & Hr). exists d', r, e. split_and!; try done. by apply evolves_weaken. Qed.

Lemma references_stored id d : daemon_ok d → Forall stored (ts_references id (referenceStore d)).
Proof. intros Hok. apply Forall_forall. intros r Hr. by apply (ts_references_spec (referenceStore d) id (proj2 Hok)) in Hr as [? _]. Qed.

Lemma removeAll_spec force io id records d d' records' e :
  daemon_ok d → removeAllReferencesToImageID io id records d = (d', (records', e)) →
  evolves force d d' ∧ imageStore d' = imageStore d ∧
  (e = None → (∀ r, stored r → tag d' r ≠ Some id) ∧ ∃ new, records' = records ++ new ∧ reported d d' new).
Proof.
  intros Hok H. apply (remove_refs_spec force) in H as (E & Ei & Hr); [|done|by apply references_stored].
  split_and!; [done|done|]. intros He. destruct (Hr He) as [Hn Hnew]. split; [|done]. intros r Hst Ht.
  pose proof (ev_tags _ _ _ E r id Hst Ht) as Ht0. rewrite Hn in Ht; [done|].
  by apply (ts_references_spec (referenceStore d) id (proj2 Hok)).
Qed.

Lemma remove_crash io r d d' r' e : removeImageRef io r d = (d', (r', Some e)) → e ≠ Crash.
Proof.
  unfold removeImageRef. destruct (ts_delete _ _ _) as [t [b [x|]]]; simpl; [|discriminate]. intros [= _ _ <-]. discriminate.
Qed.
Lemma remove_refs_crash io id refs records d d' records' : remove_refs io id refs records d ≠ (d', (records', Some Crash)).
Proof.
  revert records d. induction refs as [|r refs IH]; intros records d; [done|]. cbn [remove_refs].
  destruct (removeImageRef io r d) as [d1 [r1 [e|]]] eqn:E; [|apply IH]. apply remove_crash in E. congruence.
Qed.

(** The helper ends within as many rounds as there are images, and one more. *)
Lemma helper_ends fuel io id records force prune quiet d :
  daemon_ok d → metadata_ok io → (size (imgs d) < fuel)%nat →
  ends force d records (imageDeleteHelper fuel io id records force prune quiet d).
Proof.
  revert id records force prune quiet d. induction fuel as [|fuel IH]; intros id records force prune quiet d Hok Hio Hf; [lia|].
  cbn [imageDeleteHelper]. fold (full_mask force).
  destruct (checkImageDeleteConflict id (full_mask force) d) as [c|] eqn:Ec.
  { destruct (quiet && _); by apply ends_refl. }
  apply check_none in Ec as (Hch & Hprot & _).
  destruct (removeAllReferencesToImageID io id records d) as [d1 [records1 [e|]]] eqn:Er.
  { pose proof Er as Er'. apply (removeAll_spec force) in Er as (E1 & _ & _); [|done]. apply ends_error; [done|].
    intros ->. by apply remove_refs_crash in Er'. }
  assert (Hev := Er). apply (removeAll_spec force) in Hev as (E1 & Ei & Hr1); [|done]. destruct (Hr1 eq_refl) as (Ht & new & -> & R1).
  eapply ends_trans; [exact E1|exact R1|].
  assert (Hprot1 : ¬ protected force d1 id).
  { intros (c & Hc & Hid & Hrun). apply Hprot. exists c. by rewrite <-(ev_containers _ _ _ E1). }
  destruct (ImageStore.Delete (io_image io) id (imageStore d1)) as [s x] eqn:ED.
  apply (Delete_evolves force) in ED as [E2 Hx]; try done; [|apply E1|by rewrite Ei].
  destruct x as [o|e]; [|by apply ends_error].
  destruct Hx as (Hcr & _ & Hsize & R2). destruct o as [ms|e| |]; try done; [|by apply ends_error].
  set (ids := _ <$> ms). assert (Hids : ids = Deleted <$> (LayerStore.md_ChainID <$> ms)) by (by rewrite <-list_fmap_compose).
  assert (E3 : evolves force d1 (LogImageEvent id "delete" (set_images s d1))) by (by apply LogImageEvent_evolves).
  eapply (ends_trans _ _ _ _ (Deleted id :: ids)); [exact E3|by apply LogImageEvent_reported; rewrite Hids|].
  destruct (negb prune || _); [apply ends_refl; [apply E3|done]|].
  apply ends_weaken. apply IH; [apply E3|done|]. unfold imgs in *. simpl. rewrite Ei in Hsize. lia.
Qed.
Lemma delete_helper_ends io id records force prune quiet d :
  daemon_ok d → metadata_ok io → ends force d records (delete_helper io id records force prune quiet d).
Proof. intros Hok Hio. apply helper_ends; [done|done|]. unfold imgs. lia. Qed.

Lemma remove_digests_spec force io refs records d d' records' e :
  daemon_ok d → Forall stored refs → remove_digests io refs records d = (d', (records', e)) →
  evolves force d d' ∧ e ≠ Some Crash ∧ (e = None → ∃ new, records' = records ++ new ∧ reported d d' new).
Proof.
  intros Hok Hrefs. revert records d Hok. induction Hrefs as [|r refs Hr Hrefs IH]; intros records d Hok; cbn [remove_digests].
  { intros [= <- <- <-]. split_and!; [by apply evolves_refl|done|]. intros _. exists []. rewrite app_nil_r. split; [done|apply reported_refl]. }
  destruct (removeImageRef io r d) as [d1 [r' [err|]]] eqn:E; pose proof E as E0;
    apply (removeImageRef_spec force) in E as (E1 & -> & _ & _ & Hrep); try done; try apply Hr.
  { intros [= <- <- <-]. apply remove_crash in E0. split_and!; [done|congruence|done]. }
  rewrite (stored_default r Hr) in *. intros H. apply IH in H as (H1 & H2 & H3); [|apply E1].
  split_and!; [by eapply evolves_trans|done|]. intros He. destruct (H3 He) as (new & -> & R).
  exists ([Untagged (String r)] ++ new). split; [by rewrite (assoc_L app)|]. by eapply reported_trans; [..|apply Hrep|].
Qed.

Lemma ImageDelete_ends io ref force prune d :
  daemon_ok d → metadata_ok io → ends force d [] (ImageDelete Unmarshal io ref force prune d).
Proof.
  intros Hok Hio. unfold ImageDelete. destruct (GetImageID Unmarshal ref d) as [id|e] eqn:Eg.
  2: { apply ends_refl; [done|]. intros [= ->]. unfold GetImageID in Eg. by repeat case_match; simplify_eq. }
  destruct (isImageIDPrefix id ref).
  - unfold delete_by_id. pose proof (references_stored id d Hok) as Hst.
    destruct (ts_references id (referenceStore d)) as [|r [|r2 rs]]; try by apply delete_helper_ends.
    destruct (checkImageDeleteConflict _ _ _); [by apply ends_refl|].
    inversion Hst as [|? ? Hr _]; subst. destruct (removeImageRef io r d) as [d1 [r' [err|]]] eqn:E; pose proof E as E0;
      apply (removeImageRef_spec force) in E as (E1 & _ & _ & _ & Hrep); try done; try apply Hr.
    + apply ends_error; [done|]. by eapply remove_crash.
    + eapply (ends_trans _ _ _ [] [Untagged (String r')]); [by apply LogImageEvent_evolves|by apply LogImageEvent_reported, Hrep|].
      apply delete_helper_ends; [apply E1|done].
  - unfold delete_by_reference. destruct (if _ || _ then _ else _); [by apply ends_refl|].
    destruct (ParseNamed ref) as [parsed|e] eqn:Ep; [|by apply ends_refl]. apply ParseNamed_sound in Ep as [Hwf _].
    destruct (removeImageRef io parsed d) as [d1 [r' [err|]]] eqn:E; pose proof E as E0;
      apply (removeImageRef_spec force) in E as (E1 & _ & _ & _ & Hrep); try done.
    { apply ends_error; [done|]. by eapply remove_crash. }
    eapply (ends_trans _ _ _ [] [Untagged (String r')]); [by apply LogImageEvent_evolves|by apply LogImageEvent_reported, Hrep|].
    simpl. set (d2 := LogImageEvent id "untag" d1). assert (Hok2 : daemon_ok d2) by apply E1.
    destruct (negb _ && _).
    + destruct (remove_digests io _ _ d2) as [d3 [recs [err|]]] eqn:Er;
        apply (remove_digests_spec force) in Er as (E3 & Hcr & Hr3); try done; try by apply references_stored.
      * apply ends_error; [done|congruence].
      * destruct (Hr3 eq_refl) as (new & -> & R3). eapply ends_trans; [exact E3|exact R3|]. apply delete_helper_ends; [apply E3|done].
    + destruct (nonempty _); [by apply ends_refl|by apply delete_helper_ends].
Qed.

(** C22: Deleting an image always ends: the pruning of parents stops within as many rounds as
    there are images, and the layer store is never driven into a panic. *)
Theorem ImageDelete_returns io ref force prune d :
  daemon_ok d → metadata_ok io →
  ∃ d' records e, ImageDelete Unmarshal io ref force prune d = Some (d', (records, e)) ∧ e ≠ Some Crash.
Proof. intros Hok Hio. destruct (ImageDelete_ends io ref force prune d Hok Hio) as (d' & r & e & H & _ & He & _). eauto. Qed.

(** C5: In a daemon whose stores are consistent ([daemon_ok]), where the removal of the
    metadata of an image that goes does not fail ([metadata_ok]): whatever reference is given, whether forced or pruning, and however it ends, a deletion
    keeps every image that a running container uses, and every image that any container uses
    unless it is forced; it never takes the parent of an image that remains; an image that is
    gone has no reference left; no reference is added or moved; and the stores stay
    consistent. *)
Theorem ImageDelete_safe io ref force prune d d' records e :
  daemon_ok d → metadata_ok io → ImageDelete Unmarshal io ref force prune d = Some (d', (records, e)) →
  daemon_ok d' ∧
  (∀ c, c ∈ containers d → c_running c = true ∨ force = false →
     is_Some (imgs d !! c_ImageID c) → is_Some (imgs d' !! c_ImageID c)) ∧
  (∀ c p, is_Some (imgs d' !! c) → parent_of d c = Some p → is_Some (imgs d' !! p)) ∧
  (∀ id r, is_Some (imgs d !! id) → imgs d' !! id = None → stored r → tag d' r ≠ Some id) ∧
  (∀ id r, stored r → tag d' r = Some id → tag d r = Some id).
Proof.
  intros Hok Hio H. destruct (ImageDelete_ends io ref force prune d Hok Hio) as (? & ? & ? & H' & E & _).
  rewrite H in H'. injection H' as <- <- <-. split_and!.
  - apply E.
  - intros c Hc Hr Hi. destruct (imgs d' !! c_ImageID c) as [m|] eqn:Em; [by eexists|].
    destruct (ev_gone _ _ _ E _ Hi Em) as [[] _]. exists c. naive_solver.
  - intros c p Hc Hp. by apply (ev_parent _ _ _ E c p).
  - intros id r Hi Hn. by apply (ev_gone _ _ _ E id).
  - intros id r. apply E.
Qed.

(** A deletion that reports no error reports what it did: every image that is gone is among
    its records as deleted, every reference that is gone as untagged, and every reference it
    says it untagged was there and is gone. *)
Theorem ImageDelete_reports io ref force prune d d' records :
  daemon_ok d → metadata_ok io → ImageDelete Unmarshal io ref force prune d = Some (d', (records, None)) →
  (∀ id, is_Some (imgs d !! id) → imgs d' !! id = None → Deleted id ∈ records) ∧
  (∀ r id, stored r → tag d r = Some id → tag d' r = None → Untagged (String r) ∈ records) ∧
  (∀ x, Untagged x ∈ records → ∃ r id, stored r ∧ x = String r ∧ tag d r = Some id ∧ tag d' r = None).
Proof.
  intros Hok Hio H. destruct (ImageDelete_ends io ref force prune d Hok Hio) as (? & ? & ? & H' & _ & _ & Hr).
  rewrite H in H'. injection H' as <- <- <-. destruct (Hr eq_refl) as (new & -> & [R1 R2 R3]). done.
Qed.
End deletion.

(** ** Examples *)

Definition b_tags : RefStore.store :=
  (RefStore.run exec (RefStore.mkStore "/r.json" ∅ ∅ (Some ∅)) [OpAddTag (taggedRef "app" "1") (Digest.FromBytes "b") false true]).1.
Lemma b_tags_ok : ts_ok b_tags.
Proof.
  apply (run_refines _ (fun _ => None)).
  - apply (fresh_refines "/r.json"). reflexivity.
  - apply Forall_cons_2; [|apply Forall_nil_2]. apply wf_tagged_check. vm_compute. reflexivity.
Qed.
(** The image [b], a child of [a], with one tag. *)
Definition demo_daemon (cs : list cont) : daemon RefStore.store LayerStore.layerStore := mkDaemon family b_tags cs [].
Definition io_fine : delete_io := mkIO (fun _ => true) (ImageStore.mkDelIO (fun _ => true) true true (fun _ => true)).
Lemma demo_daemon_ok cs : daemon_ok plain_config (demo_daemon cs).
Proof. split; [|apply b_tags_ok]. by apply (reachable_linked plain_config LayerStore.empty), family_reachable; apply layers_empty_ok. Qed.
Lemma io_fine_ok : metadata_ok io_fine.
Proof. by split. Qed.

(** Untagging [b] deletes it, and prunes its parent. *)
Example delete_and_prune :
  match ImageDelete plain_config io_fine "app:1" false true (demo_daemon []) with
  | Some (d, (records, e)) => bool_decide (dom (imgs d) = ∅) &&
      match records with [Untagged r; Deleted x; Deleted y] => (r =s "app:1") && (x =s Digest.FromBytes "b") && (y =s Digest.FromBytes "a") | _ => false end
  | None => false
  end = true.
Proof. vm_compute. reflexivity. Qed.
(** A stopped container of [a] keeps it. *)
Example delete_keeps_used :
  match ImageDelete plain_config io_fine "app:1" false true (demo_daemon [mkCont "c" (Digest.FromBytes "a") false]) with
  | Some (d, (records, e)) => bool_decide (dom (imgs d) = {[Digest.FromBytes "a"]})
  | None => false
  end = true.
Proof. vm_compute. reflexivity. Qed.

Lemma ImageDelete_returns_witness :
  ∃ d' records e, ImageDelete plain_config io_fine "app:1" false true (demo_daemon []) = Some (d', (records, e)) ∧ e ≠ Some Crash.
Proof. exact (ImageDelete_returns plain_config io_fine "app:1" false true (demo_daemon []) (demo_daemon_ok []) io_fine_ok). Defined.
Lemma ImageDelete_safe_witness :
  match ImageDelete plain_config io_fine "app:1" true true (demo_daemon [mkCont "c" (Digest.FromBytes "a") true]) with
  | Some (d', _) => is_Some (imgs d' !! Digest.FromBytes "a")
  | None => False
  end.
Proof.
  destruct (ImageDelete_ends plain_config io_fine "app:1" true true (demo_daemon [mkCont "c" (Digest.FromBytes "a") true])
    (demo_daemon_ok _) io_fine_ok) as (d' & records & e & E & _).
  rewrite E.
  pose proof (ImageDelete_safe plain_config io_fine "app:1" true true _ d' records e (demo_daemon_ok _) io_fine_ok E) as (_ & H & _).
  apply (H (mkCont "c" (Digest.FromBytes "a") true)); [by left|by left|]. apply is_Some_check. vm_compute. reflexivity.
Defined.
Lemma ImageDelete_reports_witness :
  match ImageDelete plain_config io_fine "app:1" false true (demo_daemon []) with
  | Some (d', (records, None)) => imgs d' !! Digest.FromBytes "b" = None → Deleted (Digest.FromBytes "b") ∈ records
  | _ => False
  end.
Proof.
  assert (Hn : match ImageDelete plain_config io_fine "app:1" false true (demo_daemon []) with Some (_, (_, None)) => true | _ => false end = true)
    by (vm_compute; reflexivity).
  destruct (ImageDelete plain_config io_fine "app:1" false true (demo_daemon [])) as [[d' [records [e|]]]|] eqn:E; try discriminate Hn.
  apply (proj1 (ImageDelete_reports plain_config io_fine "app:1" false true _ d' records (demo_daemon_ok _) io_fine_ok E)).
  apply is_Some_check. vm_compute. reflexivity.
Defined.
