(* ===== verification/StdCopy.v ===== *)
(** * StdCopy: multiplexed output streams

    [src/pkg/stdcopy/stdcopy.go].  The output of a container without a terminal
    travels over one connection: [stdWriter.Write] puts an eight-byte header
    before every buffer (the stream in the first byte, the length in the last
    four, big endian), and [StdCopy] takes the frames apart again, through a
    buffer that it extends when a frame does not fit.

    [io.Reader] and [io.Writer] are interfaces: a reader is a state with a [Read]
    operation, the two destinations are operations on a state that they may
    share.  What [StdCopy] relies on is the documented contract of [io.Reader],
    the class [ReaderLaws]; a reader that delivers given pieces is an instance.

    The loops take fuel; [reads r + length (pending r)] steps are enough, which is
    part of every theorem. *)

From S2P Require Import Prelude Strconv.
Import Strconv.

(** Errors of the [io] package, and those of others. *)
Inductive ioError := EOF | ErrShortWrite | ErrOther (msg : gostring).
#[global] Instance ioError_eq_dec : EqDecision ioError.
Proof. solve_decision. Defined.

Module StdCopy.

(** [type StdType byte] *)
Definition Stdin : Z := 0.
Definition Stdout : Z := 1.
Definition Stderr : Z := 2.
Definition stdWriterPrefixLen : nat := 8.
Definition stdWriterFdIndex : nat := 0.
Definition stdWriterSizeIndex : nat := 4.
Definition startingBufLen : nat := 32 * 1024 + stdWriterPrefixLen + 1.

(** [encoding/binary]: [BigEndian.PutUint32] and [BigEndian.Uint32]. *)
Definition byte_of (z : Z) : ascii := ascii_of_N (Z.to_N (Z.land z 255)).
Definition to_byte (c : ascii) : Z := Z.of_N (N_of_ascii c).
Definition PutUint32 (v : Z) : gostring :=
  byte_of <$> [Z.shiftr v 24; Z.shiftr v 16; Z.shiftr v 8; v].
Definition Uint32 (b : gostring) : Z := foldl (fun acc c => Z.lor (Z.shiftl acc 8) (to_byte c)) 0%Z (take 4 b).
Definition to_uint32 (n : Z) : Z := (n mod 2 ^ 32)%Z.

(** An [io.Writer] on a state [W]: the count it reports, its error, the new
    state. *)
Abbreviation writer W := (W → gostring → Z * option ioError * W).

(** [type stdWriter struct] *)
Record stdWriter (W : Type) := { Writer : option (writer W); prefix : Z }.
Arguments Writer {W} _.
Arguments prefix {W} _.

Definition NewStdWriter {W} (w : option (writer W)) (t : Z) : stdWriter W := {| Writer := w; prefix := t |}.

(** The header of [Write], an array of eight bytes. *)
Definition header (fd : Z) (len : nat) : gostring :=
  byte_of fd :: replicate 3 "000"%char ++ PutUint32 (to_uint32 (Z.of_nat len)).

(** [Write]; [None] is a nil pointer, a nil slice. *)
Definition Write {W} (w : option (stdWriter W)) (buf : option gostring) (st : W) : Z * option ioError * W :=
  match w ≫= Writer with
  | None => (0%Z, Some (ErrOther "Writer not instantiated"), st)
  | Some wr =>
      match buf with
      | None => (0%Z, None, st)
      | Some buf =>
          let line := header (from_option prefix 0%Z w) (length buf) ++ buf in
          let '(n, err, st) := wr st line in
          (Z.max 0 (n - Z.of_nat stdWriterPrefixLen), err, st)
      end
  end.

Section StdCopy.
  (** [src], and the two destinations. *)
  Context {R W : Type} (Read : R → nat → gostring * option ioError * R).
  Context (dstout dsterr : writer W).

(** The bytes a [Read] put into [buf[nr:]]. *)
Definition into (buf : gostring) (nr : nat) (bs : gostring) : gostring :=
  take nr buf ++ bs ++ drop (nr + length bs) buf.

Inductive filled :=
| Filled (buf : gostring) (nr : nat) (r : R)
| Corrupted
| Failed (e : ioError).

(** The loops that read until [need] bytes are there: a header, a frame. *)
Fixpoint fill (fuel need : nat) (buf : gostring) (nr : nat) (r : R) : option filled :=
  match fuel with
  | O => None
  | S fuel =>
      if bool_decide (nr < need) then
        let '(bs, er, r) := Read r (length buf - nr) in
        let buf := into buf nr bs in
        let nr := nr + length bs in
        match er with
        | Some EOF => Some (if bool_decide (nr < need) then Corrupted else Filled buf nr r)
        | Some e => Some (Failed e)
        | None => fill fuel need buf nr r
        end
      else Some (Filled buf nr r)
  end.

(** The switch on the first byte: where to write. *)
Definition select (fd : Z) : option (writer W) :=
  if decide (fd = Stdin ∨ fd = Stdout) then Some dstout
  else if decide (fd = Stderr) then Some dsterr
  else None.
Definition unrecognized (fd : Z) : ioError := ErrOther ("Unrecognized input header: " ++ FormatInt fd).

(** [append(buf, make([]byte, ...)...)] when the frame does not fit. *)
Definition extend (buf : gostring) (frameSize : nat) : gostring :=
  if bool_decide (length buf < frameSize + stdWriterPrefixLen)
  then buf ++ replicate (frameSize + stdWriterPrefixLen - length buf + 1) "000"%char
  else buf.

(** [copy(buf, buf[n:])] *)
Definition shift (buf : gostring) (n : nat) : gostring := drop n buf ++ drop (length buf - n) buf.

(** The outer loop. *)
Fixpoint copy_loop (fuel inner : nat) (buf : gostring) (nr : nat) (written : Z) (r : R) (w : W)
    : option (Z * option ioError * W) :=
  match fuel with
  | O => None
  | S fuel =>
      match fill inner stdWriterPrefixLen buf nr r with
      | None => None
      | Some Corrupted => Some (written, None, w)
      | Some (Failed er) => Some (0%Z, Some er, w)
      | Some (Filled buf nr r) =>
          let fd := to_byte (nth stdWriterFdIndex buf "000"%char) in
          match select fd with
          | None => Some (0%Z, Some (unrecognized fd), w)
          | Some out =>
              let frameSize := Z.to_nat (Uint32 (drop stdWriterSizeIndex buf)) in
              let buf := extend buf frameSize in
              match fill inner (frameSize + stdWriterPrefixLen) buf nr r with
              | None => None
              | Some Corrupted => Some (written, None, w)
              | Some (Failed er) => Some (0%Z, Some er, w)
              | Some (Filled buf nr r) =>
                  let '(nw, ew, w) := out w (take frameSize (drop stdWriterPrefixLen buf)) in
                  match ew with
                  | Some ew => Some (0%Z, Some ew, w)
                  | None =>
                      if decide (nw = Z.of_nat frameSize) then
                        let written := to_int64 (written + nw) in
                        let buf := shift buf (frameSize + stdWriterPrefixLen) in
                        copy_loop fuel inner buf (nr - (frameSize + stdWriterPrefixLen)) written r w
                      else Some (0%Z, Some ErrShortWrite, w)
                  end
              end
          end
      end
  end.

Definition StdCopy (fuel : nat) (src : R) (w : W) : option (Z * option ioError * W) :=
  copy_loop fuel fuel (replicate startingBufLen "000"%char) 0 0 src w.

End StdCopy.
Arguments Filled {R} _ _ _.
Arguments Corrupted {R}.
Arguments Failed {R} _.

End StdCopy.

Import StdCopy.

(** ** The contract of [io.Reader]

    [pending] is what a reader still delivers, [ending] how it ends, [reads] a
    bound on the calls that it answers without ending. *)
Class ReaderLaws {R : Type} (Read : R → nat → gostring * option ioError * R) := {
  pending : R → gostring;
  ending : R → ioError;
  reads : R → nat;
  Read_length : ∀ r k bs er r', Read r k = (bs, er, r') → length bs ≤ k;
  Read_more : ∀ r k bs r', 0 < k → Read r k = (bs, None, r') →
    pending r = bs ++ pending r' ∧ ending r' = ending r ∧ reads r' < reads r;
  Read_ends : ∀ r k bs e r', 0 < k → Read r k = (bs, Some e, r') →
    pending r = bs ∧ ending r = e;
  (** A reader that has ended stays ended. *)
  Read_eof : ∀ r k bs r', 0 < k → Read r k = (bs, Some EOF, r') →
    pending r' = [] ∧ ending r' = EOF ∧ reads r' ≤ reads r;
}.

(** A reader that delivers given pieces, splitting a piece that does not fit, and
    then ends with an error: at once with the last piece when [glue] says so, as
    the contract permits. *)
Module Pieces.

Record pieces := { glue : bool; todo : list gostring; final : ioError }.

Definition Read (r : pieces) (k : nat) : gostring * option ioError * pieces :=
  match todo r with
  | [] => ([], Some (final r), r)
  | [b] =>
      if bool_decide (length b ≤ k)
      then (b, if glue r then Some (final r) else None, {| glue := glue r; todo := []; final := final r |})
      else (take k b, None, {| glue := glue r; todo := [drop k b]; final := final r |})
  | b :: bs =>
      if bool_decide (length b ≤ k)
      then (b, None, {| glue := glue r; todo := bs; final := final r |})
      else (take k b, None, {| glue := glue r; todo := drop k b :: bs; final := final r |})
  end.

End Pieces.

#[global] Program Instance pieces_laws : ReaderLaws Pieces.Read := {|
  pending r := concat (Pieces.todo r);
  ending r := Pieces.final r;
  reads r := length (Pieces.todo r) + length (concat (Pieces.todo r));
|}.
Next Obligation.
  intros [g t f] k bs er r' H. unfold Pieces.Read in H. simpl in H.
  destruct t as [|b [|b' t]]; repeat case_bool_decide; simplify_eq/=; rewrite ?length_take; lia.
Qed.
Next Obligation.
  intros [g t f] k bs r' Hk H. unfold Pieces.Read in H. simpl in H.
  destruct t as [|b [|b' t]]; repeat case_bool_decide; try destruct g; simplify_eq/=;
    rewrite ?app_nil_r, ?(assoc_L (++)), ?take_drop, ?length_app, ?length_drop; simpl;
    split_and!; try done; lia.
Qed.
Next Obligation.
  intros [g t f] k bs e r' Hk H. unfold Pieces.Read in H. simpl in H.
  destruct t as [|b [|b' t]]; repeat case_bool_decide; try destruct g; simplify_eq/=; by rewrite ?app_nil_r.
Qed.
Next Obligation.
  intros [g t f] k bs r' Hk H. unfold Pieces.Read in H. simpl in H.
  destruct t as [|b [|b' t]]; repeat case_bool_decide; try destruct g; simplify_eq/=; split_and!; try done; lia.
Qed.

(** ** What a stream of bytes says

    The frames of a byte sequence, and the error that stops the demultiplexing; an
    incomplete header or frame at the end is dropped without one. *)

Definition fd_of (s : gostring) : Z := to_byte (nth stdWriterFdIndex s "000"%char).
Definition size_of (s : gostring) : nat := Z.to_nat (Uint32 (drop stdWriterSizeIndex s)).
Definition known_fd (fd : Z) : Prop := fd = Stdin ∨ fd = Stdout ∨ fd = Stderr.

Inductive demuxes : gostring → list (Z * gostring) → option ioError → Prop :=
| demux_short s : length s < stdWriterPrefixLen → demuxes s [] None
| demux_bad s : stdWriterPrefixLen ≤ length s → ¬ known_fd (fd_of s) → demuxes s [] (Some (unrecognized (fd_of s)))
| demux_partial s : stdWriterPrefixLen ≤ length s → known_fd (fd_of s) →
    length s < size_of s + stdWriterPrefixLen → demuxes s [] None
| demux_frame s fs e : known_fd (fd_of s) → size_of s + stdWriterPrefixLen ≤ length s →
    demuxes (drop (size_of s + stdWriterPrefixLen) s) fs e →
    demuxes s ((fd_of s, take (size_of s) (drop stdWriterPrefixLen s)) :: fs) e.

Section spec.
  Context {R W : Type} (Read : R → nat → gostring * option ioError * R) `{!ReaderLaws Read}.
  Context (dstout dsterr : writer W).
  Implicit Types (r : R) (w : W) (fs : list (Z * gostring)) (buf s : gostring).

(** Frames written in order to the destinations, until one refuses. *)
Fixpoint deliver (written : Z) (w : W) (fs : list (Z * gostring)) (e : option ioError) : Z * option ioError * W :=
  match fs with
  | [] => match e with None => (written, None, w) | Some e => (0%Z, Some e, w) end
  | (fd, b) :: fs =>
      match select dstout dsterr fd with
      | None => (0%Z, Some (unrecognized fd), w)
      | Some out =>
          match out w b with
          | (_, Some ew, w) => (0%Z, Some ew, w)
          | (nw, None, w) =>
              if decide (nw = Z.of_nat (length b)) then deliver (to_int64 (written + nw)) w fs e
              else (0%Z, Some ErrShortWrite, w)
          end
      end
  end.

(** How far a reader that ends with [fin] lets the demultiplexing get. *)
Definition reached (fin : ioError) (fs : list (Z * gostring)) (e : option ioError) (fs' : list (Z * gostring)) (e' : option ioError) : Prop :=
  (fs' = fs ∧ e' = e ∧ (fin = EOF ∨ e ≠ None)) ∨ (fin ≠ EOF ∧ fs' `prefix_of` fs ∧ e' = Some fin).

Lemma take_into buf nr bs : nr ≤ length buf → take (nr + length bs) (into buf nr bs) = take nr buf ++ bs.
Proof.
  intros Hnr. unfold into. rewrite (assoc_L (++)). apply take_app_length'.
  rewrite length_app, length_take. lia.
Qed.

Lemma length_into buf nr bs : nr + length bs ≤ length buf → length (into buf nr bs) = length buf.
Proof. intros H. unfold into. rewrite !length_app, length_take, length_drop. lia. Qed.

(** A filling loop ends, with what was asked for or because the reader has no
    more; it loses nothing. *)
Lemma fill_spec fuel need buf nr r :
  reads r < fuel → need ≤ length buf → nr ≤ length buf →
  ∃ res, fill Read fuel need buf nr r = Some res ∧
    match res with
    | Filled buf' nr' r' =>
        length buf' = length buf ∧ need ≤ nr' ≤ length buf ∧ take nr' buf' ++ pending r' = take nr buf ++ pending r ∧
        ending r' = ending r ∧ reads r' ≤ reads r
    | Corrupted => length (take nr buf ++ pending r) < need ∧ ending r = EOF
    | Failed e => e = ending r ∧ e ≠ EOF
    end.
Proof.
  revert buf nr r. induction fuel as [|fuel IH]; intros buf nr r Hf Hneed Hnr; [lia|]. simpl.
  case_bool_decide as Hlt; [|exists (Filled buf nr r); split_and!; (done || lia)].
  destruct (Read r (length buf - nr)) as [[bs er] r'] eqn:ER. assert (0 < length buf - nr) as Hk by lia.
  pose proof (Read_length _ _ _ _ _ ER) as Hbs.
  assert (nr + length bs ≤ length buf) as Hb by lia. pose proof (length_into buf nr bs Hb) as Hl.
  destruct er as [e|].
  - destruct (Read_ends _ _ _ _ _ Hk ER) as [Hp He].
    destruct (decide (e = EOF)) as [->|Hne].
    + destruct (Read_eof _ _ _ _ Hk ER) as (Hp' & He' & Hr').
      case_bool_decide; eexists; (split; [done|]); simpl.
      * rewrite length_app, length_take, Hp. split; [lia|done].
      * rewrite take_into, Hp', Hp, app_nil_r by lia. split_and!; (done || congruence || lia).
    + exists (Failed e). split; [by destruct e|]. by rewrite He.
  - destruct (Read_more _ _ _ _ Hk ER) as (Hp & He & Hr).
    destruct (IH (into buf nr bs) (nr + length bs) r') as (res & -> & Hres); [lia..|].
    exists res. split; [done|]. rewrite take_into, <-(assoc_L (++)), <-Hp, Hl, He in Hres by lia.
    destruct res; [|done..]. destruct Hres as (?&?&?&?&?). split_and!; (done || lia).
Qed.

(** The header is read off the first eight bytes. *)
Lemma header_of buf s t : stdWriterPrefixLen ≤ length buf → s = buf ++ t → fd_of s = fd_of buf ∧ size_of s = size_of buf.
Proof.
  unfold stdWriterPrefixLen. intros H ->. do 8 (destruct buf as [|? buf]; [simpl in H; lia|]). done.
Qed.

Lemma header_take nr buf : stdWriterPrefixLen ≤ nr ≤ length buf → fd_of (take nr buf) = fd_of buf ∧ size_of (take nr buf) = size_of buf.
Proof.
  intros H. destruct (header_of (take nr buf) buf (drop nr buf)) as [-> ->]; [|by rewrite take_drop|done].
  rewrite length_take. lia.
Qed.

Lemma extend_spec buf f nr :
  nr ≤ length buf → take nr (extend buf f) = take nr buf ∧ length buf ≤ length (extend buf f) ∧ f + stdWriterPrefixLen ≤ length (extend buf f).
Proof.
  intros H. unfold extend. case_bool_decide; [|split_and!; (done || lia)].
  rewrite take_app_le, length_app, length_replicate by done. split_and!; (done || lia).
Qed.

Lemma shift_spec buf n nr : n ≤ nr ≤ length buf → take (nr - n) (shift buf n) = drop n (take nr buf) ∧ length (shift buf n) = length buf.
Proof.
  intros H. unfold shift. rewrite length_app, !length_drop. split; [|lia].
  rewrite take_app_le by (rewrite length_drop; lia). rewrite take_drop_commute. do 2 f_equal. lia.
Qed.

Lemma select_known fd : known_fd fd ↔ is_Some (select dstout dsterr fd).
Proof.
  unfold select, known_fd. repeat case_decide; [naive_solver..|]. split; [tauto|]. by intros [? [=]].
Qed.

Lemma reached_failed e fs e0 : e ≠ EOF → reached e fs e0 [] (Some e).
Proof. right. split_and!; [done|apply prefix_nil|done]. Qed.

Lemma reached_cons fin f fs e fs' e' : reached fin fs e fs' e' → reached fin (f :: fs) e (f :: fs') e'.
Proof. intros [(-> & -> & H)|(H & Hp & ->)]; [by left|right]. split_and!; [done|by apply prefix_cons|done]. Qed.

(** The frame that lies in the buffer once the second loop is done. *)
Lemma payload_of buf nr t f :
  f + stdWriterPrefixLen ≤ nr ≤ length buf →
  take f (drop stdWriterPrefixLen buf) = take f (drop stdWriterPrefixLen (take nr buf ++ t)).
Proof.
  intros H. rewrite drop_app_le, take_app_le by (rewrite ?length_drop, length_take; lia).
  rewrite <-(take_drop nr buf) at 1. rewrite drop_app_le, take_app_le by (rewrite ?length_drop, length_take; lia). done.
Qed.

(** The frames of a byte sequence, case by case. *)
Lemma demuxes_inv s fs e : demuxes s fs e →
  (length s < stdWriterPrefixLen → fs = [] ∧ e = None) ∧
  (stdWriterPrefixLen ≤ length s → ¬ known_fd (fd_of s) → fs = [] ∧ e = Some (unrecognized (fd_of s))) ∧
  (stdWriterPrefixLen ≤ length s → known_fd (fd_of s) → length s < size_of s + stdWriterPrefixLen → fs = [] ∧ e = None) ∧
  (known_fd (fd_of s) → size_of s + stdWriterPrefixLen ≤ length s →
    ∃ fs', fs = (fd_of s, take (size_of s) (drop stdWriterPrefixLen s)) :: fs' ∧
      demuxes (drop (size_of s + stdWriterPrefixLen) s) fs' e).
Proof. destruct 1; split_and!; intros; try (tauto || lia); eauto. Qed.

(** A header in the buffer is the header of what is left of the stream. *)
Lemma header_buffered nr buf t :
  stdWriterPrefixLen ≤ nr ≤ length buf →
  fd_of (take nr buf ++ t) = fd_of buf ∧ size_of (take nr buf ++ t) = size_of buf ∧ stdWriterPrefixLen ≤ length (take nr buf ++ t).
Proof.
  intros H. destruct (header_take nr buf H) as [<- <-]. assert (stdWriterPrefixLen ≤ length (take nr buf)) as Hl.
  { rewrite length_take. lia. }
  destruct (header_of (take nr buf) (take nr buf ++ t) t Hl eq_refl) as [-> ->].
  split_and!; [done..|]. rewrite length_app. lia.
Qed.

(** One frame is in the buffer: it is delivered, and the loop goes on behind it. *)
Lemma demuxes_buffered nr buf t fs e f :
  demuxes (take nr buf ++ t) fs e → known_fd (fd_of (take nr buf ++ t)) → size_of (take nr buf ++ t) = f →
  f + stdWriterPrefixLen ≤ nr ≤ length buf →
  let b := take f (drop stdWriterPrefixLen buf) in
  let buf' := shift buf (f + stdWriterPrefixLen) in
  let nr' := nr - (f + stdWriterPrefixLen) in
  ∃ fs', fs = (fd_of (take nr buf ++ t), b) :: fs' ∧ length b = f ∧ demuxes (take nr' buf' ++ t) fs' e ∧
    length buf' = length buf ∧ length (take nr' buf' ++ t) < length (take nr buf ++ t).
Proof.
  intros Hd Hk Hf Hn b buf' nr'. destruct (demuxes_inv _ _ _ Hd) as (_ & _ & _ & Hfr). rewrite Hf in Hfr.
  destruct Hfr as (fs' & Hfs & Hd'); [done|rewrite length_app, length_take; lia|].
  destruct (shift_spec buf (f + stdWriterPrefixLen) nr Hn) as [Hsh Hl].
  rewrite drop_app_le, <-Hsh in Hd' by (rewrite length_take; lia).
  exists fs'. subst b. rewrite Hfs, (payload_of buf nr t f) by done. split_and!; [done| |done|done|].
  - rewrite length_take, length_drop, length_app, length_take. lia.
  - subst nr' buf'. rewrite Hsh, !length_app, length_drop, length_take. unfold stdWriterPrefixLen in *. lia.
Qed.

Lemma copy_loop_spec fuel inner buf nr written r w fs e :
  demuxes (take nr buf ++ pending r) fs e →
  length (take nr buf ++ pending r) < fuel → reads r < inner → stdWriterPrefixLen ≤ length buf → nr ≤ length buf →
  ∃ fs' e', reached (ending r) fs e fs' e' ∧
    copy_loop Read dstout dsterr fuel inner buf nr written r w = Some (deliver written w fs' e').
Proof.
  revert buf nr written r w fs e. induction fuel as [|fuel IH]; intros buf nr written r w fs e Hd Hf Hi Hb Hnr; [lia|].
  simpl copy_loop. destruct (demuxes_inv _ _ _ Hd) as (Hshort & Hbad & Hpart & _).
  destruct (fill_spec inner stdWriterPrefixLen buf nr r Hi Hb Hnr) as (res & -> & Hres).
  destruct res as [buf1 nr1 r1| |e1].
  2:{ destruct Hres as [Hl ->]. destruct (Hshort Hl) as [-> ->]. exists [], None. split; [left; naive_solver|done]. }
  2:{ destruct Hres as [-> Hne]. eauto using reached_failed. }
  destruct Hres as (Hl1 & Hn1 & Hs & He1 & Hr1). rewrite <-Hs in *. rewrite <-He1. clear Hs Hshort.
  destruct (header_buffered nr1 buf1 (pending r1)) as (Hfd & Hsz & H8); [lia|].
  fold (fd_of buf1) (size_of buf1). rewrite <-Hfd. pose proof (select_known (fd_of (take nr1 buf1 ++ pending r1))) as Hsel.
  destruct (select dstout dsterr _) as [out|] eqn:Eout.
  2:{ destruct Hbad as [-> ->]; [done|by intros ?%Hsel%is_Some_None|].
      eexists [], _. split; [left; naive_solver|done]. }
  assert (known_fd (fd_of (take nr1 buf1 ++ pending r1))) as Hk by (apply Hsel; eauto).
  destruct (extend_spec buf1 (size_of buf1) nr1) as (Ht & Hle & Hge); [lia|].
  destruct (fill_spec inner (size_of buf1 + stdWriterPrefixLen) (extend buf1 (size_of buf1)) nr1 r1)
    as (res & -> & Hres); [lia..|]. rewrite Ht in Hres.
  destruct res as [buf2 nr2 r2| |e2].
  2:{ destruct Hres as [Hl ->]. destruct Hpart as [-> ->]; [done..|by rewrite Hsz|].
      exists [], None. split; [left; naive_solver|done]. }
  2:{ destruct Hres as [-> Hne]. eauto using reached_failed. }
  destruct Hres as (Hl2 & Hn2 & Hs2 & He2 & Hr2). rewrite <-Hs2 in *. rewrite <-He2. clear Hs2 Hbad Hpart.
  destruct (demuxes_buffered nr2 buf2 _ _ _ _ Hd Hk Hsz) as (fs1 & -> & Hlb & Hd' & Hl' & Hlt); [lia|].
  set (b := take _ (drop _ buf2)) in *. destruct (out w b) as [[nw ew] w'] eqn:EW.
  destruct (IH _ _ (to_int64 (written + nw)) r2 w' _ _ Hd') as (fs' & e' & Hre & Hloop); [lia..|].
  eexists (_ :: fs'), e'. split; [by apply reached_cons|].
  simpl. rewrite Eout, EW, Hlb. destruct ew; [done|]. by case_decide.
Qed.

(** [StdCopy] delivers exactly the frames that the bytes of its source spell,
    in order, each to its own destination, until a destination refuses or a header
    is not recognised; how the reader cuts the bytes into pieces does not matter,
    and it always returns.  A reader that ends with an error other than [EOF] may
    cut the frames short, and its error is returned. *)
Theorem StdCopy_spec (r : R) (w : W) (fs : list (Z * gostring)) (e : option ioError) (fuel : nat) :
  demuxes (pending r) fs e → reads r + length (pending r) < fuel →
  ∃ fs' e', reached (ending r) fs e fs' e' ∧ StdCopy Read dstout dsterr fuel r w = Some (deliver 0 w fs' e').
Proof.
  intros Hd Hf. apply copy_loop_spec; rewrite ?take_0; [done|simpl; lia..| |lia].
  rewrite length_replicate. unfold startingBufLen. lia.
Qed.

End spec.

(** ** Round trip *)

Lemma to_byte_of z : to_byte (byte_of z) = (z mod 256)%Z.
Proof.
  unfold to_byte, byte_of. change 255%Z with (Z.ones 8). rewrite Z.land_ones by lia. change (2 ^ 8)%Z with 256%Z.
  pose proof (Z.mod_pos_bound z 256 eq_refl). rewrite N_ascii_embedding by lia. lia.
Qed.

Lemma land_shift a b : (0 <= b < 256)%Z → Z.land (Z.shiftl a 8) b = 0%Z.
Proof.
  intros H. apply Z.bits_inj'. intros n Hn. rewrite Z.land_spec, Z.bits_0.
  destruct (Z.lt_ge_cases n 8); [by rewrite Z.shiftl_spec_low|].
  rewrite <-(Z.mod_small b (2 ^ 8)), Z.mod_pow2_bits_high by lia. apply andb_false_r.
Qed.

Lemma lor_shift a b : (0 <= b < 256)%Z → Z.lor (Z.shiftl a 8) b = (a * 256 + b)%Z.
Proof.
  intros H. pose proof (land_shift a b H). by rewrite <-Z.lxor_lor, <-Z.add_nocarry_lxor, Z.shiftl_mul_pow2.
Qed.

Lemma Uint32_PutUint32 v t : (0 <= v < 2 ^ 32)%Z → Uint32 (PutUint32 v ++ t) = v.
Proof.
  intros H. unfold Uint32, PutUint32. simpl. rewrite !to_byte_of, Z.shiftl_0_l, Z.lor_0_l.
  rewrite !lor_shift by (apply Z.mod_pos_bound; lia). rewrite !Z.shiftr_div_pow2 by lia.
  change (2 ^ 24)%Z with (65536 * 256)%Z. change (2 ^ 16)%Z with 65536%Z. change (2 ^ 8)%Z with 256%Z.
  change (2 ^ 32)%Z with 4294967296%Z in H.
  rewrite <-Z.div_div by lia. change 65536%Z with (256 * 256)%Z. rewrite <-Z.div_div by lia.
  pose proof (Z.div_mod v 256). pose proof (Z.div_mod (v / 256) 256). pose proof (Z.div_mod (v / 256 / 256) 256).
  rewrite (Z.mod_small (v / 256 / 256 / 256)); [lia|].
  rewrite !Z.div_div by lia. split; [apply Z.div_pos; lia|apply Z.div_lt_upper_bound; lia].
Qed.

(** A connection, and the two buffers that collect the output. *)
Definition conn : writer gostring := fun st b => (Z.of_nat (length b), None, st ++ b).
Definition to_out : writer (gostring * gostring) := fun st b => (Z.of_nat (length b), None, (st.1 ++ b, st.2)).
Definition to_err : writer (gostring * gostring) := fun st b => (Z.of_nat (length b), None, (st.1, st.2 ++ b)).

(** What a sequence of [Write]s puts on the connection. *)
Definition sent (fs : list (Z * gostring)) (st : gostring) : gostring :=
  foldl (fun st f => (Write (Some (NewStdWriter (Some conn) f.1)) (Some f.2) st).2) st fs.

(** The payloads of the streams [fds]. *)
Definition payloads (fds : list Z) (fs : list (Z * gostring)) : gostring :=
  concat (snd <$> filter (fun f => f.1 ∈ fds) fs).

Definition frame_ok (f : Z * gostring) : Prop := known_fd f.1 ∧ (Z.of_nat (length f.2) < 2 ^ 32)%Z.

Lemma header_decodes fd n t :
  known_fd fd → (Z.of_nat n < 2 ^ 32)%Z → fd_of (header fd n ++ t) = fd ∧ size_of (header fd n ++ t) = n.
Proof.
  intros Hfd Hn. split.
  - unfold fd_of, header. simpl. rewrite to_byte_of. by destruct Hfd as [->|[->| ->]].
  - unfold size_of, header, stdWriterSizeIndex. unfold to_uint32.
    rewrite Z.mod_small by lia. change (drop 4 _) with (PutUint32 (Z.of_nat n) ++ t).
    rewrite Uint32_PutUint32 by lia. lia.
Qed.

Lemma sent_app fs st : sent fs st = st ++ concat ((fun f => header f.1 (length f.2) ++ f.2) <$> fs).
Proof.
  revert st. induction fs as [|f fs IH]; intros st; [by rewrite app_nil_r|].
  unfold sent in *. simpl foldl. rewrite IH. cbn. by rewrite <-!(assoc_L (++)).
Qed.

(** An unfinished header or frame. *)
Definition unfinished (s : gostring) : Prop :=
  length s < stdWriterPrefixLen ∨ stdWriterPrefixLen ≤ length s < size_of s + stdWriterPrefixLen ∧ known_fd (fd_of s).

Lemma demuxes_unfinished s : unfinished s → demuxes s [] None.
Proof. intros [H|[[? ?] ?]]; [by constructor|by apply demux_partial]. Qed.

Lemma demuxes_sent fs rest :
  Forall frame_ok fs → unfinished rest → demuxes (sent fs [] ++ rest) fs None.
Proof.
  rewrite sent_app. simpl. intros Hfs Hr. induction Hfs as [|[fd b] fs [Hfd Hlen] _ IH]; simpl in *; [by apply demuxes_unfinished|].
  rewrite <-!(assoc_L (++)). set (t := concat _ ++ rest) in *.
  destruct (header_decodes fd (length b) (b ++ t) Hfd Hlen) as [E1 E2].
  assert (length (header fd (length b)) = stdWriterPrefixLen) as Hh by done.
  pose proof (demux_frame (header fd (length b) ++ b ++ t) fs None) as Hstep.
  rewrite E1, E2 in Hstep. change (drop stdWriterPrefixLen (header _ _ ++ b ++ t)) with (b ++ t) in Hstep.
  rewrite take_app_length in Hstep. apply Hstep; [done| |].
  - rewrite !length_app, Hh. lia.
  - rewrite Nat.add_comm, <-drop_drop. change (drop stdWriterPrefixLen _) with (b ++ t).
    by rewrite drop_app_length.
Qed.

Lemma payloads_cons fds f fs : payloads fds (f :: fs) = (if decide (f.1 ∈ fds) then f.2 else []) ++ payloads fds fs.
Proof. unfold payloads. rewrite filter_cons. by case_decide. Qed.

(** Buffers take every frame. *)
Lemma deliver_buffers written fs o e :
  Forall frame_ok fs → (0 <= written)%Z →
  (written + Z.of_nat (length (concat (snd <$> fs))) < 2 ^ 63)%Z →
  deliver to_out to_err written (o, e) fs None =
  ((written + Z.of_nat (length (concat (snd <$> fs))))%Z, None,
    (o ++ payloads [Stdin; Stdout] fs, e ++ payloads [Stderr] fs)).
Proof.
  intros Hfs. revert written o e. induction Hfs as [|[fd b] fs [Hfd _] _ IH]; intros written o e H0 Hlt.
  { unfold payloads. simpl. by rewrite !app_nil_r, Z.add_0_r. }
  rewrite fmap_cons in *. cbn [concat snd] in *. rewrite length_app in *. rewrite !payloads_cons.
  set (l := length (concat (snd <$> fs))) in *.
  assert (to_int64 (written + Z.of_nat (length b)) = written + Z.of_nat (length b))%Z as Hw.
  { unfold to_int64. rewrite Z.mod_small; lia. }
  destruct Hfd as [Hfd|[Hfd|Hfd]]; simpl in Hfd; subst fd; simpl;
    rewrite decide_True, Hw, IH by (done || lia); rewrite <-!(assoc_L (++)), Nat2Z.inj_add, Z.add_assoc; done.
Qed.

(** The frames of a connection go to their streams. *)
Lemma StdCopy_frames {R} (Read : R → nat → gostring * option ioError * R) `{!ReaderLaws Read}
    (r : R) (fs : list (Z * gostring)) (rest : gostring) (fuel : nat) :
  Forall frame_ok fs → unfinished rest → (Z.of_nat (length (concat (snd <$> fs))) < 2 ^ 63)%Z →
  pending r = sent fs [] ++ rest → ending r = EOF → reads r + length (pending r) < fuel →
  StdCopy Read to_out to_err fuel r ([], []) =
  Some (Z.of_nat (length (concat (snd <$> fs))), None, (payloads [Stdin; Stdout] fs, payloads [Stderr] fs)).
Proof.
  intros Hfs Hrest Hlen Hp He Hf.
  destruct (copy_loop_spec Read to_out to_err fuel fuel (replicate startingBufLen "000"%char) 0 0 r ([], []) fs None)
    as (fs' & e' & Hre & Hc); rewrite ?take_0, ?length_replicate.
  - rewrite Hp. by apply demuxes_sent.
  - simpl. lia.
  - lia.
  - unfold startingBufLen. lia.
  - lia.
  - unfold StdCopy. rewrite Hc. destruct Hre as [(-> & -> & _)|(Hne & _)]; [|congruence].
    by rewrite deliver_buffers.
Qed.
(** C20: whatever is written to the multiplexing writers of the three streams, in pieces of
    less than 2^32 bytes (and 2^63 in all), and
    however the connection cuts it into pieces, comes out of [StdCopy] on the right
    side, complete and in order: standard input and output on one, standard error
    on the other.  What is left of a connection that breaks inside a frame is
    dropped, without an error. *)
Theorem StdCopy_demultiplexes {R} (Read : R → nat → gostring * option ioError * R) `{!ReaderLaws Read}
    (r : R) (fs : list (Z * gostring)) (rest : gostring) (fuel : nat) :
  Forall frame_ok fs → unfinished rest → (Z.of_nat (length (concat (snd <$> fs))) < 2 ^ 63)%Z →
  pending r = sent fs [] ++ rest → ending r = EOF → reads r + length (pending r) < fuel →
  StdCopy Read to_out to_err fuel r ([], []) =
  Some (Z.of_nat (length (concat (snd <$> fs))), None, (payloads [Stdin; Stdout] fs, payloads [Stderr] fs)).
Proof. apply StdCopy_frames. Qed.

(** A buffer of [2^32] bytes more has the same header, so a frame of four
    gibibytes is not read back. *)
Lemma header_wraps (fd : Z) (n m : nat) : Z.of_nat m = (Z.of_nat n + 2 ^ 32)%Z → header fd m = header fd n.
Proof.
  intros H. unfold header, to_uint32. do 3 f_equal. rewrite H. rewrite <-(Z.mul_1_l (2 ^ 32)) at 1. by rewrite Z.mod_add.
Qed.

(** Frames of three streams, cut in the middle of headers and of payloads, with a
    frame that breaks off. *)
Definition demo_frames : list (Z * gostring) := [(Stdout, "out"); (Stderr, "problem"); (Stdin, []); (Stdout, "put")].
Definition demo_rest : gostring := header Stderr 9 ++ "lost".
Definition demo_reader : Pieces.pieces :=
  let s := sent demo_frames [] ++ demo_rest in
  {| Pieces.glue := true; Pieces.todo := [take 5 s; []; take 20 (drop 5 s); drop 25 s]; Pieces.final := EOF |}.

Lemma demo_frames_ok : Forall frame_ok demo_frames.
Proof. repeat constructor; unfold known_fd; naive_solver. Qed.

Lemma demo_rest_unfinished : unfinished demo_rest.
Proof. right. split; [vm_compute; lia|]. right. right. reflexivity. Qed.

Lemma StdCopy_demultiplexes_witness :
  StdCopy Pieces.Read to_out to_err 200 demo_reader ([], []) = Some (13%Z, None, ("output", "problem")).
Proof.
  rewrite (StdCopy_demultiplexes Pieces.Read demo_reader demo_frames demo_rest 200).
  - vm_compute. reflexivity.
  - apply demo_frames_ok.
  - apply demo_rest_unfinished.
  - vm_compute. reflexivity.
  - vm_compute. reflexivity.
  - reflexivity.
  - apply Nat.ltb_lt. vm_compute. reflexivity.
Defined.

Lemma StdCopy_spec_witness :
  ∃ fs' e', reached (ending demo_reader) demo_frames None fs' e' ∧
    StdCopy Pieces.Read to_out to_err 200 demo_reader ([], []) = Some (deliver to_out to_err 0 ([], []) fs' e').
Proof.
  apply (StdCopy_spec Pieces.Read to_out to_err demo_reader ([], []) demo_frames None 200).
  - change (pending demo_reader) with (sent demo_frames [] ++ demo_rest).
    apply demuxes_sent; [apply demo_frames_ok|apply demo_rest_unfinished].
  - apply Nat.ltb_lt. vm_compute. reflexivity.
Defined.
