(* ===== verification/Symlink.v ===== *)
(** * Symlink: path resolution inside a root directory

    [src/pkg/symlink/fs.go]: [FollowSymlinkInScope] resolves the symbolic links of
    a path as a process confined to [root] would see them, and keeps the result
    inside [root].  The file system is what [Lstat] and [Readlink] answer during
    the call.  The loop of [evalSymlinksInScope] is bounded by the code itself
    ([maxIter]), so it is a structural recursion on the iterations left. *)

From S2P Require Import Prelude GoPath.
Import Strings GoPath.

Module Symlink.

(** What [os.Lstat] and [os.Readlink] answer. *)
Inductive lstat := NotExist | LstatErr (e : gostring) | Mode (symlink : bool).

Inductive symlinkError :=
| ErrNotIn (path root : gostring)
| ErrTooManyLinks (originalPath : gostring)
| ErrOS (e : gostring).

Section eval.
  Context (Lstat : gostring → lstat) (Readlink : gostring → result gostring gostring).

Definition maxIter : nat := 255.

(** The next path component and the rest: [strings.IndexRune] and the slices. *)
Definition next_component (path : gostring) : gostring * gostring :=
  match Cut "/" path with
  | None => (path, [])
  | Some (p, rest) => (p, rest)
  end.

(** The loop, with [iters] iterations left; it returns the buffer [b]. *)
Fixpoint eval_loop (root originalPath : gostring) (iters : nat) (path b : gostring) : result symlinkError gostring :=
  if path =s [] then Ok b
  else
    match iters with
    | O => Err (ErrTooManyLinks originalPath)
    | S iters =>
        let '(p, path) := next_component path in
        if p =s [] then eval_loop root originalPath iters path b
        else
          let cleanP := Clean ("/" ++ b ++ p) in
          if cleanP =s "/" then eval_loop root originalPath iters path []
          else
            let fullP := Clean (root ++ cleanP) in
            match Lstat fullP with
            | NotExist => eval_loop root originalPath iters path (b ++ p ++ "/")
            | LstatErr e => Err (ErrOS e)
            | Mode false => eval_loop root originalPath iters path (b ++ p ++ "/")
            | Mode true =>
                match Readlink fullP with
                | Err e => Err (ErrOS e)
                | Ok dest =>
                    let b := if IsAbs dest then [] else b in
                    eval_loop root originalPath iters (dest ++ "/" ++ path) b
                end
            end
    end.

Definition evalSymlinksInScope (path root : gostring) : result symlinkError gostring :=
  let root := Clean root in
  if path =s root then Ok path
  else if negb (HasPrefix path root) then Err (ErrNotIn path root)
  else
    let originalPath := path in
    let path := drop (length root) path in
    let path := if root =s "/" then "/" ++ path else path in
    if negb (HasPrefix path "/") then Err (ErrNotIn path root)
    else
      let path := Clean path in
      let! b := eval_loop root originalPath (S maxIter) path [] in
      Ok (Clean (root ++ Clean ("/" ++ b))).

(** [filepath.Abs] in the working directory [wd]. *)
Definition Abs (wd : result gostring gostring) (p : gostring) : result symlinkError gostring :=
  if IsAbs p then Ok (Clean p)
  else match wd with
       | Err e => Err (ErrOS e)
       | Ok wd => Ok (PathJoin [wd; p])
       end.

Definition FollowSymlinkInScope (wd : result gostring gostring) (path root : gostring) : result symlinkError gostring :=
  let! path := Abs wd path in
  let! root := Abs wd root in
  evalSymlinksInScope path root.

End eval.
End Symlink.

Import Symlink.

(** ** Absolute paths as element lists *)

Definition abs_path (es : list gostring) : gostring := "/" ++ Join es "/".
Arguments abs_path : simpl never.
(** The elements of a path, innermost first. *)
Definition stack_of (p : gostring) : list gostring := foldl (push_elem true) [] (Split p "/").
Definition normal (e : gostring) : Prop := plain_elem e ∧ e ≠ "..".

Lemma clean_stack_normal st : clean_stack true st ↔ Forall normal st.
Proof.
  induction st as [|e st IH]; simpl; [done|]. rewrite Forall_cons, IH. unfold normal. naive_solver.
Qed.

Lemma stack_of_app a b : stack_of (a ++ "/" ++ b) = foldl (push_elem true) (stack_of a) (Split b "/").
Proof. unfold stack_of. simpl. by rewrite Split_app, foldl_app. Qed.

Lemma stack_of_normal p : Forall normal (stack_of p).
Proof.
  apply clean_stack_normal. pose proof (clean_elems_shape true p) as H. unfold clean_elems in H.
  by rewrite rev_involutive in H.
Qed.

Lemma Clean_slash_stack p : Clean ("/" ++ p) = abs_path (rev (stack_of p)).
Proof. unfold Clean, abs_path, stack_of. simpl. unfold clean_elems. by rewrite Split_slash_cons. Qed.

Lemma push_normal st e : normal e → push_elem true st e = e :: st.
Proof.
  intros [(H1 & H2 & _) H3]. unfold push_elem, streqb.
  by rewrite !bool_decide_eq_false_2 by done.
Qed.

Lemma foldl_push_normal es st : Forall normal es → foldl (push_elem true) st es = rev es ++ st.
Proof.
  intros H. revert st. induction H as [|e es He _ IH]; intros st; simpl; [done|].
  rewrite push_normal, IH by done. by rewrite <-(assoc_L (++)).
Qed.

Lemma foldl_push_Join es st :
  Forall normal es → foldl (push_elem true) st (Split (Join es "/") "/") = rev es ++ st.
Proof.
  intros H. destruct es as [|e es]; [done|]. rewrite Split_Join_char; [by apply foldl_push_normal|done|].
  eapply Forall_impl; [exact H|]. by intros x [(_ & _ & ?) _].
Qed.

Lemma stack_of_abs es : Forall normal es → stack_of (abs_path es) = rev es.
Proof.
  intros H. change (abs_path es) with ([] ++ "/" ++ Join es "/"). rewrite stack_of_app, foldl_push_Join by done.
  apply app_nil_r.
Qed.

(** Appending a clean path to a clean root. *)
Lemma Clean_under rs es :
  Forall normal rs → Forall normal es → Clean (abs_path rs ++ abs_path es) = abs_path (rs ++ es).
Proof.
  intros Hr He. unfold abs_path at 1. rewrite <-(assoc_L (++)), Clean_slash_stack.
  change (abs_path es) with ("/" ++ Join es "/"). rewrite stack_of_app. unfold stack_of. rewrite !foldl_push_Join, app_nil_r, <-rev_app_distr, rev_involutive by done. done.
Qed.

Lemma Clean_root root : IsAbs root = true → ∃ rs, Clean root = abs_path rs ∧ Forall normal rs.
Proof.
  intros [t ->]%HasPrefix_spec. exists (rev (stack_of t)). split; [apply Clean_slash_stack|].
  apply Forall_rev, stack_of_normal.
Qed.

Lemma abs_path_slash es : Forall normal es → abs_path es = "/" ↔ es = [].
Proof.
  intros H. split; [|by intros ->]. destruct es as [|e es]; [done|]. intros [= Hj]. exfalso.
  apply (Join_ne (e :: es)) in Hj; [done..|]. eapply Forall_impl; [exact H|]. by intros x [(? & _) _].
Qed.

(** ** Resolution, abstractly

    The view of a process confined to the directory with elements [rs]: the
    components are followed one by one from the directory [st] (innermost element
    first), a link is replaced by its target, which starts over at the root when
    it is absolute, and [..] does not leave the root. *)

(** The components of a path. *)
Definition comps (path : gostring) : list gostring := filter (fun e => e ≠ []) (Split path "/").

Section resolution.
  Context (Lstat : gostring → lstat) (Readlink : gostring → result gostring gostring).
  Context (rs : list gostring) (Hrs : Forall normal rs) (root : gostring) (Hroot : root = abs_path rs).

Definition at_root (st : list gostring) : gostring := abs_path (rs ++ rev st).

Inductive resolves : list gostring → list gostring → list gostring → Prop :=
| resolves_end st : resolves st [] st
| resolves_dot st es r : resolves st es r → resolves st ("." :: es) r
| resolves_up st es r : resolves (tail st) es r → resolves st (".." :: es) r
| resolves_file st e es r :
    normal e → Lstat (at_root (e :: st)) = NotExist ∨ Lstat (at_root (e :: st)) = Mode false →
    resolves (e :: st) es r → resolves st (e :: es) r
| resolves_link st e es r dest :
    normal e → Lstat (at_root (e :: st)) = Mode true → Readlink (at_root (e :: st)) = Ok dest →
    resolves (if IsAbs dest then [] else st) (comps dest ++ es) r → resolves st (e :: es) r.

(** No directory on the way to [st] is a link. *)
Definition linkless (st : list gostring) : Prop :=
  ∀ st', st' ≠ [] → st' `suffix_of` st → Lstat (at_root st') ≠ Mode true.

Lemma linkless_nil : linkless [].
Proof. intros st' Hne ->%suffix_nil_inv. done. Qed.

Lemma linkless_tail st : linkless st → linkless (tail st).
Proof. intros H st' Hne Hs. apply H; [done|]. destruct st; [done|]. by apply suffix_cons_r. Qed.

Lemma linkless_cons e st : linkless st → Lstat (at_root (e :: st)) ≠ Mode true → linkless (e :: st).
Proof.
  intros H He st' Hne Hs. destruct st' as [|x st']; [done|].
  apply suffix_cons_inv in Hs as [->|Hs]; [done|by apply H].
Qed.

Lemma linkless_resolves st es r : linkless st → resolves st es r → linkless r.
Proof.
  intros Hl H. induction H as [| |? ? ? _ IH|st e es r _ Hs _ IH|st e es r dest _ _ _ _ IH];
    auto using linkless_tail.
  - apply IH, linkless_cons; [done|]. destruct Hs as [->| ->]; done.
  - apply IH. destruct (IsAbs dest); auto using linkless_nil.
Qed.

(** ** The loop resolves *)

(** The buffer is empty or ends with a slash. *)
Definition buffer (b : gostring) : Prop := b = [] ∨ ∃ b0, b = b0 ++ "/".

Lemma stack_of_buffer b p : buffer b → ch "/" ∉ p → stack_of (b ++ p) = push_elem true (stack_of b) p.
Proof.
  intros [->|[b0 ->]] Hp.
  - unfold stack_of. simpl. by rewrite Split_char_nil.
  - rewrite <-(assoc_L (++)), stack_of_app, Split_char_nil by done. simpl.
    by rewrite <-(app_nil_r (b0 ++ "/")), <-(assoc_L (++)), stack_of_app.
Qed.

Lemma stack_of_write b p : buffer b → ch "/" ∉ p → stack_of (b ++ p ++ "/") = push_elem true (stack_of b) p.
Proof.
  intros Hb Hp. rewrite <-stack_of_buffer by done.
  rewrite (assoc_L (++)), <-(app_nil_r "/"), stack_of_app. done.
Qed.

Lemma buffer_write b p : buffer (b ++ p ++ "/").
Proof. right. exists (b ++ p). by rewrite <-(assoc_L (++)). Qed.

Lemma comps_next path p rest :
  next_component path = (p, rest) → ch "/" ∉ p ∧ comps path = (if p =s [] then [] else [p]) ++ comps rest.
Proof.
  unfold next_component, comps. destruct (Cut "/" path) as [[p' rest']|] eqn:E; intros [= <- <-].
  - apply Cut_char_Some in E as [-> Hp]. split; [done|]. rewrite Split_app, Split_char_nil by done. simpl.
    rewrite filter_cons. unfold streqb. by case_decide; case_bool_decide.
  - apply Cut_char_None in E. split; [done|]. rewrite Split_char_nil by done.
    rewrite filter_cons. unfold streqb. by case_decide; case_bool_decide.
Qed.

Lemma comps_app a b : comps (a ++ "/" ++ b) = comps a ++ comps b.
Proof. unfold comps. simpl. by rewrite Split_app, filter_app. Qed.

Lemma component_cases p : p ≠ [] → ch "/" ∉ p → p = "." ∨ p = ".." ∨ normal p.
Proof.
  intros. destruct (decide (p = ".")); [by left|]. destruct (decide (p = "..")); [by right; left|].
  right. right. done.
Qed.

Lemma push_up st : Forall normal st → push_elem true st ".." = tail st.
Proof.
  unfold push_elem. simpl. destruct 1 as [|top st [_ Ht] _]; [done|]. unfold streqb.
  by rewrite (bool_decide_eq_false_2 (top = "..")).
Qed.

Lemma full_path b p :
  buffer b → ch "/" ∉ p → Clean (root ++ Clean (ch "/" :: b ++ p)) = at_root (push_elem true (stack_of b) p).
Proof.
  intros Hb Hp. change (ch "/" :: b ++ p) with ("/" ++ b ++ p). rewrite Hroot, Clean_slash_stack, stack_of_buffer by done. apply Clean_under; [done|].
  apply Forall_rev. rewrite <-stack_of_buffer by done. apply stack_of_normal.
Qed.

Lemma clean_is_slash b p :
  buffer b → ch "/" ∉ p → (Clean (ch "/" :: b ++ p) =s "/") = bool_decide (push_elem true (stack_of b) p = []).
Proof.
  intros Hb Hp. unfold streqb. apply bool_decide_ext. change (ch "/" :: b ++ p) with ("/" ++ b ++ p).
  rewrite Clean_slash_stack, stack_of_buffer by done.
  rewrite abs_path_slash.
  - split; intros H; [|by rewrite H]. apply (f_equal (@rev gostring)) in H. by rewrite rev_involutive in H.
  - rewrite <-stack_of_buffer by done. apply Forall_rev, stack_of_normal.
Qed.

(** One component that is not a link. *)
Lemma resolves_push st p es r :
  Forall normal st → linkless st → p ≠ [] → ch "/" ∉ p →
  Lstat (at_root (push_elem true st p)) = NotExist ∨ Lstat (at_root (push_elem true st p)) = Mode false ∨ push_elem true st p = [] →
  resolves (push_elem true st p) es r → resolves st (p :: es) r.
Proof.
  intros Hn Hl Hp0 Hp Hs Hr. destruct (component_cases p Hp0 Hp) as [->|[->|Hnp]].
  - by apply resolves_dot.
  - apply resolves_up. by rewrite push_up in Hr.
  - rewrite push_normal in * by done. apply resolves_file; naive_solver.
Qed.

(** Only a normal component can be a link. *)
Lemma link_normal st p :
  Forall normal st → linkless st → p ≠ [] → ch "/" ∉ p → push_elem true st p ≠ [] →
  Lstat (at_root (push_elem true st p)) = Mode true → normal p.
Proof.
  intros Hn Hl Hp0 Hp Hne Hm. destruct (component_cases p Hp0 Hp) as [->|[->|]]; [exfalso..|done].
  - by apply (Hl _ Hne).
  - rewrite push_up in * by done. by apply (linkless_tail _ Hl _ Hne).
Qed.

Lemma linkless_push st p :
  Forall normal st → linkless st → p ≠ [] → ch "/" ∉ p →
  Lstat (at_root (push_elem true st p)) ≠ Mode true → linkless (push_elem true st p).
Proof.
  intros Hn Hl Hp0 Hp Hs. destruct (component_cases p Hp0 Hp) as [->|[->|Hnp]]; [done| |].
  - rewrite push_up by done. by apply linkless_tail.
  - rewrite push_normal in * by done. by apply linkless_cons.
Qed.

Lemma eval_loop_resolves orig iters path b b' :
  eval_loop Lstat Readlink root orig iters path b = Ok b' → buffer b → linkless (stack_of b) →
  resolves (stack_of b) (comps path) (stack_of b').
Proof.
  revert path b. induction iters as [|iters IH]; intros path b; simpl;
    (destruct (path =s []) eqn:E0; [apply bool_decide_eq_true in E0 as ->; intros [= <-] _ _; constructor|]); [done|].
  destruct (next_component path) as [p rest] eqn:En. apply comps_next in En as [Hp ->].
  intros Hloop Hb Hl. destruct (p =s []) eqn:Ep; [by apply IH|]. apply bool_decide_eq_false in Ep.
  rewrite clean_is_slash in Hloop by done. pose proof (stack_of_normal b) as Hn. simpl.
  case_bool_decide as Hs.
  { apply resolves_push; [done..|by rewrite Hs; auto|]. rewrite Hs.
    apply (IH rest []); [done|by left|apply linkless_nil]. }
  rewrite full_path in Hloop by done.
  assert (Lstat (at_root (push_elem true (stack_of b) p)) ≠ Mode true →
    eval_loop Lstat Readlink root orig iters rest (b ++ p ++ "/") = Ok b' →
    resolves (push_elem true (stack_of b) p) (comps rest) (stack_of b')) as Hrest.
  { intros Hm H. rewrite <-stack_of_write by done. apply IH; [done|apply buffer_write|].
    rewrite stack_of_write by done. by apply linkless_push. }
  destruct (Lstat (at_root (push_elem true (stack_of b) p))) as [|e|[]] eqn:EL; [|done| |].
  - apply resolves_push; auto.
  - pose proof (link_normal _ _ Hn Hl Ep Hp Hs EL) as Hnp. rewrite push_normal in * by done.
    destruct (Readlink _) as [dest|] eqn:ER; [|done]. eapply resolves_link; [done..|].
    rewrite <-comps_app. assert (stack_of (if IsAbs dest then [] else b) = if IsAbs dest then [] else stack_of b) as <- by (by destruct (IsAbs dest)).
    apply IH; [done|destruct (IsAbs dest); [by left|done]|]. destruct (IsAbs dest); [apply linkless_nil|done].
  - apply resolves_push; auto.
Qed.

End resolution.

(** ** Confinement *)

Lemma comps_Clean p : comps (Clean ("/" ++ p)) = rev (stack_of p).
Proof.
  rewrite Clean_slash_stack. pose proof (Forall_rev (stack_of_normal p)) as H. revert H.
  generalize (rev (stack_of p)). intros es H. unfold comps, abs_path. cbn [app]. rewrite Split_slash_cons, filter_cons.
  rewrite decide_False by (intros HH; by apply HH). destruct es as [|e es]; [done|].
  rewrite Split_Join_char; [|done|eapply Forall_impl; [exact H|]; by intros x [(_ & _ & ?) _]].
  induction H as [|x l [(Hx & _) _] _ IH]; [done|]. rewrite filter_cons, decide_True, IH; done.
Qed.

Lemma stack_of_slash p : stack_of ("/" ++ p) = stack_of p.
Proof. apply (stack_of_app []). Qed.

Lemma Clean_slash p : HasPrefix p "/" = true → Clean p = Clean ("/" ++ p).
Proof. intros [t ->]%HasPrefix_spec. by rewrite !Clean_slash_stack, stack_of_slash. Qed.

Lemma evalSymlinksInScope_resolves Lstat Readlink rs path root q :
  Clean root = abs_path rs → Forall normal rs → evalSymlinksInScope Lstat Readlink path root = Ok q →
  ∃ rel es, path = abs_path rs ++ rel ∧ Forall normal es ∧ q = abs_path (rs ++ es) ∧
    resolves Lstat Readlink rs [] (rev (stack_of rel)) (rev es).
Proof.
  intros Hroot Hrs. unfold evalSymlinksInScope. rewrite Hroot. clear Hroot root.
  destruct (path =s abs_path rs) eqn:E.
  { apply bool_decide_eq_true in E as ->. intros [= <-]. exists [], []. rewrite !app_nil_r.
    split_and!; [done..|constructor]. }
  destruct (HasPrefix path (abs_path rs)) eqn:Hp; [|done]. apply HasPrefix_spec in Hp as [rel ->].
  cbn [negb]. rewrite drop_app_length. set (path := if abs_path rs =s "/" then "/" ++ rel else rel).
  assert (stack_of path = stack_of rel) as Hst.
  { unfold path. destruct (abs_path rs =s "/"); [apply stack_of_slash|done]. }
  clearbody path.
  destruct (HasPrefix path "/") eqn:Hs; [|done]. cbn [negb]. intros (b & Hb & [= <-])%rbind_ok.
  assert (comps (Clean path) = rev (stack_of rel)) as Hc.
  { by rewrite Clean_slash, comps_Clean, Hst by done. }
  exists rel, (rev (stack_of b)). change (Clean (ch "/" :: _ ++ _)) with (Clean (abs_path rs ++ Clean ("/" ++ b))).
  rewrite Clean_slash_stack.
  pose proof (Forall_rev (stack_of_normal b)) as Hn. rewrite Clean_under by done. split_and!; [done..|].
  rewrite rev_involutive, <-Hc.
  apply (eval_loop_resolves Lstat Readlink rs Hrs _ eq_refl) in Hb; [done|by left|apply linkless_nil].
Qed.

Lemma Abs_elems wd p q :
  (∀ w, wd = Ok w → IsAbs w = true) → Abs wd p = Ok q → ∃ es, q = abs_path es ∧ Forall normal es ∧ Clean q = q.
Proof.
  intros Hwd. unfold Abs. destruct (IsAbs p) eqn:Ep.
  - intros [= <-]. destruct (Clean_root p Ep) as (es & Hes & Hn). exists es. by rewrite Clean_idemp.
  - destruct wd as [w|]; [|done]. intros [= <-]. specialize (Hwd w eq_refl).
    assert (∃ j, PathJoin [w; p] = Clean j ∧ IsAbs j = true) as (j & -> & Hj).
    { apply HasPrefix_spec in Hwd as [t ->]. unfold PathJoin. rewrite filter_cons, decide_True by done.
      eexists. split; [reflexivity|]. rewrite filter_cons. by case_decide. }
    destruct (Clean_root j Hj) as (es & Hes & Hn). exists es. by rewrite Clean_idemp.
Qed.

(** C19: [FollowSymlinkInScope] never leaves its root: the result is the root
    followed by normal elements, it is where the links of the path lead a process
    confined to the root, and no directory on the way below the root is itself a
    link. *)
Theorem FollowSymlinkInScope_confined Lstat Readlink wd path root q :
  (∀ w, wd = Ok w → IsAbs w = true) → FollowSymlinkInScope Lstat Readlink wd path root = Ok q →
  ∃ rs rel es, Abs wd root = Ok (abs_path rs) ∧ Abs wd path = Ok (abs_path rs ++ rel) ∧
    Forall normal (rs ++ es) ∧ q = abs_path (rs ++ es) ∧
    resolves Lstat Readlink rs [] (rev (stack_of rel)) (rev es) ∧
    ∀ es', es' ≠ [] → es' `prefix_of` es → Lstat (abs_path (rs ++ es')) ≠ Mode true.
Proof.
  intros Hwd H. unfold FollowSymlinkInScope in H. inv_ok.
  destruct (Abs_elems _ _ _ Hwd H0) as (rs & -> & Hrs & Hc).
  destruct (evalSymlinksInScope_resolves _ _ _ _ _ _ Hc Hrs H1) as (rel & es & -> & Hes & -> & Hr).
  exists rs, rel, es. split_and!; [done|done|by apply Forall_app|done|done|].
  intros es' Hne Hpre. pose proof (linkless_resolves _ _ _ _ _ _ (linkless_nil Lstat rs) Hr (rev es')) as Hl.
  unfold at_root in Hl. rewrite rev_involutive in Hl. apply Hl.
  - by intros ->%(f_equal (@rev gostring))%(eq_trans (eq_sym (rev_involutive es'))).
  - destruct Hpre as [k ->]. exists (rev k). apply rev_app_distr.
Qed.

(** ** Without links *)

Lemma next_component_Join e es : ch "/" ∉ e → next_component (Join (e :: es) "/") = (e, Join es "/").
Proof.
  intros He. unfold next_component. destruct es as [|e' es].
  - simpl. by rewrite (proj2 (Cut_char_None _ _) He).
  - change (Join (e :: e' :: es) "/") with (e ++ ch "/" :: Join (e' :: es) "/"). by rewrite Cut_char_app.
Qed.

Lemma eval_loop_plain Lstat Readlink root rs orig iters es b :
  root = abs_path rs → Forall normal rs → (∀ p, Lstat p = NotExist ∨ Lstat p = Mode false) →
  Forall normal es → buffer b →
  if bool_decide (length es ≤ iters)
  then ∃ b', eval_loop Lstat Readlink root orig iters (Join es "/") b = Ok b' ∧ stack_of b' = rev es ++ stack_of b
  else eval_loop Lstat Readlink root orig iters (Join es "/") b = Err (ErrTooManyLinks orig).
Proof.
  intros Hroot Hrs HL Hes. revert iters b. induction Hes as [|e es He Hes IH]; intros iters b Hb.
  { rewrite bool_decide_eq_true_2 by (simpl; lia). exists b. by destruct iters. }
  pose proof He as [(He1 & _ & He2) _].
  assert (Join (e :: es) "/" =s [] = false) as Hj.
  { apply bool_decide_eq_false_2. apply Join_ne; [done|]. constructor; [done|].
    eapply Forall_impl; [exact Hes|]. by intros x [(? & _) _]. }
  assert (e =s [] = false) as Hje by by apply bool_decide_eq_false_2.
  destruct iters as [|iters]; cbn [eval_loop]; rewrite Hj; [done|].
  rewrite next_component_Join, Hje by done. cbn [app]. rewrite clean_is_slash, push_normal, (bool_decide_eq_false_2 (e :: stack_of b = [])) by done.
  specialize (IH iters (b ++ e ++ "/") (buffer_write _ _)).
  rewrite stack_of_write, push_normal in IH by done. cbn [length].
  rewrite (bool_decide_ext (S (length es) ≤ S iters) (length es ≤ iters)) by lia.
  replace (rev (e :: es) ++ stack_of b) with (rev es ++ e :: stack_of b) by (simpl; by rewrite <-(assoc_L (++))).
  by destruct (HL (Clean (root ++ Clean (ch "/" :: b ++ e)))) as [-> | ->].
Qed.

Lemma Clean_abs_path es : Forall normal es → Clean (abs_path es) = abs_path es.
Proof. intros H. by apply (Clean_under []). Qed.

Lemma abs_path_app rs es :
  es ≠ [] → abs_path (rs ++ es) = abs_path rs ++ (if decide (rs = []) then Join es "/" else abs_path es).
Proof.
  intros Hes. unfold abs_path. case_decide as Hr; [by rewrite Hr|]. by rewrite Join_app, <-(assoc_L (++)).
Qed.

(** What is left of a path below the root is its elements. *)
Lemma below_root rs es :
  Forall normal rs → Forall normal es → es ≠ [] →
  (abs_path (rs ++ es) =s abs_path rs) = false ∧ HasPrefix (abs_path (rs ++ es)) (abs_path rs) = true ∧
  let path := drop (length (abs_path rs)) (abs_path (rs ++ es)) in
  (if abs_path rs =s "/" then "/" ++ path else path) = abs_path es.
Proof.
  intros Hrs Hes Hne. split_and!.
  - apply bool_decide_eq_false_2. intros H%(f_equal stack_of). rewrite !stack_of_abs in H by (done || by apply Forall_app).
    apply (f_equal length) in H. rewrite !length_rev, length_app in H. destruct es; [done|simpl in H; lia].
  - apply HasPrefix_spec. rewrite abs_path_app by done. eauto.
  - cbv zeta. rewrite abs_path_app, drop_app_length by done. unfold streqb.
    rewrite (bool_decide_ext _ _ (abs_path_slash rs Hrs)). by case_decide; case_bool_decide.
Qed.

(** The first component of an absolute path is empty. *)
Lemma eval_loop_slash Lstat Readlink root orig n es b :
  eval_loop Lstat Readlink root orig (S n) (abs_path es) b = eval_loop Lstat Readlink root orig n (Join es "/") b.
Proof. reflexivity. Qed.

(** A path without links resolves to itself, as long as it has at most 255
    elements below the root: the loop counts every element, and a deeper path is
    refused as having too many links although it has none. *)
Theorem evalSymlinksInScope_plain Lstat Readlink rs es :
  Forall normal rs → Forall normal es → (∀ p, Lstat p = NotExist ∨ Lstat p = Mode false) →
  evalSymlinksInScope Lstat Readlink (abs_path (rs ++ es)) (abs_path rs) =
  if bool_decide (length es ≤ maxIter) then Ok (abs_path (rs ++ es)) else Err (ErrTooManyLinks (abs_path (rs ++ es))).
Proof.
  intros Hrs Hes HL. unfold evalSymlinksInScope. rewrite Clean_abs_path by done.
  destruct (decide (es = [])) as [->|Hne].
  { rewrite app_nil_r. unfold streqb. by rewrite bool_decide_eq_true_2. }
  destruct (below_root rs es Hrs Hes Hne) as (-> & -> & ->). cbn [negb].
  change (HasPrefix (abs_path es) "/") with true. cbn [negb]. rewrite Clean_abs_path by done.
  rewrite eval_loop_slash.
  pose proof (eval_loop_plain Lstat Readlink _ rs (abs_path (rs ++ es)) maxIter es [] eq_refl Hrs HL Hes (or_introl eq_refl)) as H.
  case_bool_decide; [|by rewrite H]. destruct H as (b & -> & Hb). cbn [rbind].
  rewrite Clean_slash_stack, Hb. rewrite app_nil_r, rev_involutive. by rewrite Clean_under.
Qed.

(** A root with an absolute link that points outside, and one that climbs. *)
Definition demo_Lstat (p : gostring) : lstat :=
  if p =s "/jail/bar" then Mode true else if p =s "/jail/dir/up" then Mode true
  else if p =s "/jail/dir" then Mode false else NotExist.
Definition demo_Readlink (p : gostring) : result gostring gostring :=
  if p =s "/jail/bar" then Ok "/outside" else if p =s "/jail/dir/up" then Ok "../../../bar" else Err "EINVAL".

Lemma FollowSymlinkInScope_confined_witness :
  ∃ rs rel es, Abs (Ok "/") "/jail/" = Ok (abs_path rs) ∧ Abs (Ok "/") "jail/dir/up/f" = Ok (abs_path rs ++ rel) ∧
    Forall normal (rs ++ es) ∧ "/jail/outside/f" = abs_path (rs ++ es) ∧
    resolves demo_Lstat demo_Readlink rs [] (rev (stack_of rel)) (rev es) ∧
    ∀ es', es' ≠ [] → es' `prefix_of` es → demo_Lstat (abs_path (rs ++ es')) ≠ Mode true.
Proof.
  apply (FollowSymlinkInScope_confined demo_Lstat demo_Readlink (Ok "/") "jail/dir/up/f" "/jail/").
  - intros w [= <-]. reflexivity.
  - vm_compute. reflexivity.
Defined.

Lemma evalSymlinksInScope_plain_witness :
  evalSymlinksInScope (fun _ => NotExist) demo_Readlink (abs_path (["jail"] ++ replicate 256 "d")) (abs_path ["jail"]) =
  Err (ErrTooManyLinks (abs_path (["jail"] ++ replicate 256 "d"))).
Proof.
  rewrite (evalSymlinksInScope_plain (fun _ => NotExist) demo_Readlink ["jail"] (replicate 256 "d")).
  - reflexivity.
  - repeat constructor; vm_decide.
  - apply Forall_replicate. repeat constructor; vm_decide.
  - intros p. by left.
Defined.
