(* ===== verification/Registrar.v ===== *)
(** * Registrar: names reserved for keys

    [src/pkg/registrar/registrar.go].  The registrar keeps the reserved names of
    every key in a slice, and hands these slices out: [GetNames] returns the slice
    itself, not a copy.  The model therefore has Go's slices: a slice is a window
    on a backing array, [append] writes into the array while there is room, and
    arrays live in a store of their own.  How much room a new array gets is the
    runtime's choice, the parameter [grow]. *)

From S2P Require Import Prelude.

(** ** Slices over a store of arrays *)

Module Slices.

(** A slice that starts at the beginning of its array. *)
Record slice := { arr : nat; len : nat }.
Record heap := { arrays : gmap nat (list gostring); fresh : nat }.

#[global] Instance slice_eq_dec : EqDecision slice.
Proof. solve_decision. Defined.

Definition array (h : heap) (a : nat) : list gostring := default [] (arrays h !! a).
Definition contents (h : heap) (s : slice) : list gostring := take (len s) (array h (arr s)).
Definition cap (h : heap) (s : slice) : nat := length (array h (arr s)).
Definition nil_slice : slice := {| arr := 0; len := 0 |}.
Definition new_heap : heap := {| arrays := ∅; fresh := 1 |}.

Definition write (h : heap) (a : nat) (l : list gostring) : heap :=
  {| arrays := <[a := l]> (arrays h); fresh := fresh h |}.
Definition alloc (h : heap) (l : list gostring) : heap * nat :=
  ({| arrays := <[fresh h := l]> (arrays h); fresh := S (fresh h) |}, fresh h).

(** [append(s, x)] *)
Definition append1 (grow : nat → nat) (h : heap) (s : slice) (x : gostring) : heap * slice :=
  let a := array h (arr s) in
  if bool_decide (len s < length a)
  then (write h (arr s) (<[len s := x]> a), {| arr := arr s; len := S (len s) |})
  else
    let '(h, b) := alloc h (take (len s) a ++ [x] ++ replicate (grow (len s)) []) in
    (h, {| arr := b; len := S (len s) |}).

(** [append(s[:i], s[i+1:]...)]: there is room, the elements move down. *)
Definition remove_at (h : heap) (s : slice) (i : nat) : heap * slice :=
  let a := array h (arr s) in
  let moved := take (len s - S i) (drop (S i) a) in
  (write h (arr s) (take i a ++ moved ++ drop (i + length moved) a), {| arr := arr s; len := len s - 1 |}).

End Slices.

Import Slices.

Module Registrar.

Inductive registrarError := ErrNameReserved | ErrNameNotReserved | ErrNoSuchKey.

Record Registrar := { idx : gmap gostring slice; names : gmap gostring gostring; mem : heap }.

Definition NewRegistrar : Registrar := {| idx := ∅; names := ∅; mem := new_heap |}.

Definition Reserve (grow : nat → nat) (r : Registrar) (name key : gostring) : Registrar * option registrarError :=
  match names r !! name with
  | Some k => (r, if k =s key then None else Some ErrNameReserved)
  | None =>
      let '(h, s) := append1 grow (mem r) (default nil_slice (idx r !! key)) name in
      ({| idx := <[key := s]> (idx r); names := <[name := key]> (names r); mem := h |}, None)
  end.

(** The position of a name in the slice of its key: the loop of [Release]. *)
Definition position (name : gostring) (l : list gostring) : option nat := fst <$> list_find (eq name) l.

Definition Release (r : Registrar) (name : gostring) : Registrar :=
  match names r !! name with
  | None => r
  | Some key =>
      let s := default nil_slice (idx r !! key) in
      let '(h, s) :=
        match position name (contents (mem r) s) with
        | Some i => remove_at (mem r) s i
        | None => (mem r, s)
        end in
      let idx := if bool_decide (len s = 0) then delete key (idx r) else <[key := s]> (idx r) in
      {| idx := idx; names := delete name (names r); mem := h |}
  end.

Definition Delete (r : Registrar) (key : gostring) : Registrar :=
  let reserved := contents (mem r) (default nil_slice (idx r !! key)) in
  {| idx := delete key (idx r); names := foldl (fun m n => delete n m) (names r) reserved; mem := mem r |}.

Definition GetNames (r : Registrar) (key : gostring) : result registrarError slice :=
  match idx r !! key with
  | None => Err ErrNoSuchKey
  | Some s => Ok s
  end.

Definition Get (r : Registrar) (name : gostring) : result registrarError gostring :=
  match names r !! name with
  | None => Err ErrNameNotReserved
  | Some key => Ok key
  end.

(** [GetAll] copies the index, not the slices. *)
Definition GetAll (r : Registrar) : gmap gostring slice := idx r.

End Registrar.

Import Registrar.

(** ** Slices: what the operations do to the contents *)

Lemma array_write h a l b : array (write h a l) b = if decide (a = b) then l else array h b.
Proof. unfold array, write. simpl. case_decide as H; [by rewrite H, lookup_insert_eq|by rewrite lookup_insert_ne]. Qed.

Lemma array_alloc h l b : array (alloc h l).1 b = if decide (fresh h = b) then l else array h b.
Proof. apply array_write. Qed.

(** A slice is in order: within its array, which has been allocated. *)
Definition slice_ok (h : heap) (s : slice) : Prop := len s ≤ cap h s ∧ arr s < fresh h.

Lemma length_contents h s : slice_ok h s → length (contents h s) = len s.
Proof. intros [H _]. unfold contents. rewrite length_take. unfold cap in H. lia. Qed.

(** An array that an operation leaves alone keeps its slices. *)
Lemma array_frame h h' t :
  array h' (arr t) = array h (arr t) → fresh h ≤ fresh h' → slice_ok h t → contents h' t = contents h t ∧ slice_ok h' t.
Proof. unfold slice_ok, cap, contents. intros ->. intros ? []. split_and!; (done || lia). Qed.

Lemma append1_spec grow h s x h' s' :
  append1 grow h s x = (h', s') → slice_ok h s →
  contents h' s' = contents h s ++ [x] ∧ slice_ok h' s' ∧ fresh h ≤ fresh h' ∧ len s' ≠ 0 ∧
  (arr s' = arr s ∧ len s < cap h s ∨ arr s' = fresh h) ∧
  ∀ b, b < fresh h → b ≠ arr s' → array h' b = array h b.
Proof.
  unfold append1, slice_ok, cap, contents. intros Happ [Hlen Harr]. case_bool_decide as Hc.
  - injection Happ as <- <-. simpl. rewrite array_write, decide_True, length_insert by done. split_and!; try lia.
    + rewrite (take_S_r _ _ x) by (by apply list_lookup_insert_eq). by rewrite take_insert_ge by lia.
    + intros b _ Hb. by rewrite array_write, decide_False.
  - destruct (alloc h _) as [h1 b] eqn:E. injection Happ as <- <-.
    pose proof (array_alloc h (take (len s) (array h (arr s)) ++ [x] ++ replicate (grow (len s)) [])) as Ha.
    rewrite E in Ha. injection E as <- <-. simpl in *. rewrite Ha, decide_True by done.
    rewrite !length_app, length_take, Nat.min_l by lia. split_and!; try (simpl; lia).
    + rewrite cons_middle, (assoc_L (++)). apply take_app_length'. rewrite length_app, length_take. simpl. lia.
    + intros b Hb _. by rewrite Ha, decide_False by lia.
Qed.

Lemma remove_at_spec h s i h' s' :
  remove_at h s i = (h', s') → slice_ok h s → i < len s →
  contents h' s' = take i (contents h s) ++ drop (S i) (contents h s) ∧ slice_ok h' s' ∧ fresh h' = fresh h ∧ arr s' = arr s ∧
  contents h' s = take i (contents h s) ++ drop (S i) (contents h s) ++ drop (len s - 1) (contents h s) ∧
  ∀ b, b ≠ arr s → array h' b = array h b.
Proof.
  unfold remove_at, slice_ok, cap, contents. intros [= <- <-] [Hlen Harr] Hi. simpl.
  rewrite !array_write, !decide_True by done. set (a := array h (arr s)) in *.
  assert (length (take (len s - S i) (drop (S i) a)) = len s - S i) as Hm by (rewrite length_take, length_drop; lia).
  assert (take i (take (len s) a) = take i a) as -> by (rewrite take_take; f_equal; lia).
  assert (drop (S i) (take (len s) a) = take (len s - S i) (drop (S i) a)) as -> by by rewrite skipn_firstn_comm.
  set (m := take (len s - S i) (drop (S i) a)) in *. rewrite Hm.
  split_and!; try done.
  - rewrite (assoc_L (++)). apply take_app_length'. rewrite length_app, length_take, Hm. lia.
  - rewrite !length_app, length_take, length_drop, Hm. lia.
  - rewrite !(assoc_L (++)), take_app_ge by (rewrite length_app, length_take, Hm; lia).
    rewrite !length_app, length_take, Hm. f_equal. rewrite skipn_firstn_comm. do 2 f_equal; lia.
  - intros b Hb. by rewrite array_write, decide_False.
Qed.

(** ** The abstract registrar: the reservations, oldest first *)

Abbreviation table := (list (gostring * gostring)).

Definition names_of (key : gostring) (l : table) : list gostring := (filter (fun p => p.2 = key) l).*1.

Inductive request :=
| OpReserve (name key : gostring) | OpRelease (name : gostring) | OpDelete (key : gostring)
| OpGetNames (key : gostring) | OpGet (name : gostring).
Inductive reply :=
| Done (e : option registrarError) | Names (r : result registrarError (list gostring)) | Key (r : result registrarError gostring).

Definition spec_step (l : table) (op : request) : table * reply :=
  match op with
  | OpReserve name key =>
      match list_find (fun p => p.1 = name) l with
      | Some (_, (_, k)) => (l, Done (if k =s key then None else Some ErrNameReserved))
      | None => (l ++ [(name, key)], Done None)
      end
  | OpRelease name => (filter (fun p => p.1 ≠ name) l, Done None)
  | OpDelete key => (filter (fun p => p.2 ≠ key) l, Done None)
  | OpGetNames key => (l, Names (if names_of key l is [] then Err ErrNoSuchKey else Ok (names_of key l)))
  | OpGet name =>
      (l, Key (match list_find (fun p => p.1 = name) l with Some (_, (_, k)) => Ok k | None => Err ErrNameNotReserved end))
  end.

(** A client reads the slice it is given at once. *)
Definition step (grow : nat → nat) (r : Registrar) (op : request) : Registrar * reply :=
  match op with
  | OpReserve name key => let '(r, e) := Reserve grow r name key in (r, Done e)
  | OpRelease name => (Release r name, Done None)
  | OpDelete key => (Delete r key, Done None)
  | OpGetNames key => (r, Names (let! s := GetNames r key in Ok (contents (mem r) s)))
  | OpGet name => (r, Key (Get r name))
  end.

Fixpoint replies {S} (stp : S → request → S * reply) (s : S) (ops : list request) : list reply :=
  match ops with
  | [] => []
  | op :: ops => let '(s, a) := stp s op in a :: replies stp s ops
  end.

Definition idx_ok (h : heap) (i : gmap gostring slice) (l : table) (k : gostring) : Prop :=
  match i !! k with
  | Some s => slice_ok h s ∧ arr s ≠ 0 ∧ contents h s = names_of k l ∧ len s ≠ 0
  | None => names_of k l = []
  end.

(** The concrete registrar represents the reservations [l]: no name twice, and
    the slices of different keys do not share an array. *)
Record represents (r : Registrar) (l : table) : Prop := {
  rep_nodup : NoDup l.*1;
  rep_names n k : names r !! n = Some k ↔ (n, k) ∈ l;
  rep_idx k : idx_ok (mem r) (idx r) l k;
  rep_apart k k' s s' : idx r !! k = Some s → idx r !! k' = Some s' → arr s = arr s' → k = k';
  rep_zero : array (mem r) 0 = [] ∧ 0 < fresh (mem r);
}.

Lemma elem_of_names_of n k l : n ∈ names_of k l ↔ (n, k) ∈ l.
Proof. unfold names_of. rewrite list_elem_of_fmap. setoid_rewrite list_elem_of_filter. split; [intros ([? ?] & -> & <- & ?); done|intros H; by exists (n, k)]. Qed.

Lemma NoDup_fst_filter (P : gostring * gostring → Prop) `{∀ x, Decision (P x)} l : NoDup l.*1 → NoDup (filter P l).*1.
Proof.
  intros Hl. induction l as [|p l IH]; [constructor|]. apply NoDup_cons in Hl as [Hp Hl].
  rewrite filter_cons. case_decide; [|auto]. apply NoDup_cons. split; [|auto].
  intros Hin. apply Hp. apply list_elem_of_fmap in Hin as (q & -> & Hq). apply list_elem_of_filter in Hq as [_ Hq].
  by apply list_elem_of_fmap_2.
Qed.

Lemma NoDup_names_of k l : NoDup l.*1 → NoDup (names_of k l).
Proof. apply NoDup_fst_filter. Qed.

Lemma names_of_app k l l' : names_of k (l ++ l') = names_of k l ++ names_of k l'.
Proof. unfold names_of. by rewrite filter_app, fmap_app. Qed.

Lemma names_of_release k n l : names_of k (filter (fun p => p.1 ≠ n) l) = filter (fun x => x ≠ n) (names_of k l).
Proof.
  unfold names_of. induction l as [|[n' k'] l IH]; [done|].
  destruct (decide (n' = n)) as [->|Hn]; destruct (decide (k' = k)) as [->|Hk];
    repeat (first [rewrite filter_cons_True by naive_solver|rewrite filter_cons_False by naive_solver|rewrite fmap_cons]; cbn [fst snd]); congruence.
Qed.

Lemma names_of_delete k k' l : names_of k (filter (fun p => p.2 ≠ k') l) = if decide (k = k') then [] else names_of k l.
Proof.
  unfold names_of. induction l as [|[n k''] l IH]; [by case_decide|].
  destruct (decide (k = k')) as [->|Hk]; destruct (decide (k'' = k')) as [->|Hn]; try destruct (decide (k'' = k)) as [->|];
    repeat (first [rewrite filter_cons_True by naive_solver|rewrite filter_cons_False by naive_solver|rewrite fmap_cons]; cbn [fst snd]); congruence.
Qed.

Lemma rep_key r l n k k' : represents r l → (n, k) ∈ l → (n, k') ∈ l → k = k'.
Proof. intros [_ Hn _ _ _] H1%Hn H2%Hn. congruence. Qed.

Lemma rep_find r l n :
  represents r l → match list_find (fun p => p.1 = n) l with Some (_, (_, k)) => names r !! n = Some k | None => names r !! n = None end.
Proof.
  intros H. destruct (list_find _ l) as [[i [n' k]]|] eqn:E.
  - apply list_find_Some in E as (Hi & Hn & _). simpl in Hn. subst n'. apply (rep_names _ _ H).
    by apply list_elem_of_lookup_2 in Hi.
  - apply list_find_None in E. apply eq_None_not_Some. intros [k Hk]. apply (rep_names _ _ H) in Hk.
    rewrite Forall_forall in E. by apply E in Hk.
Qed.

Lemma rep_new : represents NewRegistrar [].
Proof.
  split; simpl; [apply NoDup_nil_2| |done|intros k k' s s'; by rewrite lookup_empty|split; [done|simpl; lia]].
  intros n k. simpl. rewrite lookup_empty, elem_of_nil. done.
Qed.

(** The slice of a key, nil when it has none. *)
Lemma rep_slice r l k : represents r l →
  let s := default nil_slice (idx r !! k) in slice_ok (mem r) s ∧ contents (mem r) s = names_of k l.
Proof.
  intros H. pose proof (rep_idx _ _ H k) as Hk. unfold idx_ok in Hk. destruct (idx r !! k) as [s|]; simpl in *.
  - tauto.
  - rewrite Hk. split; [|done]. split; simpl; [lia|]. apply (rep_zero _ _ H).
Qed.

Lemma rep_Reserve grow r l n k r' e :
  represents r l → names r !! n = None → Reserve grow r n k = (r', e) → e = None ∧ represents r' (l ++ [(n, k)]).
Proof.
  intros H Hn. unfold Reserve. rewrite Hn. destruct (rep_slice r l k H) as [Hok Hc].
  set (s := default nil_slice (idx r !! k)) in *. destruct (append1 grow (mem r) s n) as [h' s'] eqn:E.
  intros [= <- <-]. split; [done|]. destruct (append1_spec _ _ _ _ _ _ E Hok) as (Hc' & Hok' & Hfr & Hlen & Hat & Hframe).
  assert (arr s' ≠ 0) as Hz.
  { destruct (rep_zero _ _ H) as [Hz ?]. destruct Hat as [[-> Hlt]| ->]; [|lia]. intros Hs. unfold cap in Hlt.
    rewrite Hs, Hz in Hlt. simpl in Hlt. lia. }
  assert (∀ k0 t, k0 ≠ k → idx r !! k0 = Some t → arr t ≠ arr s') as Hne.
  { intros k0 t Hk0 Ht. pose proof (rep_idx _ _ H k0) as Hi. unfold idx_ok in Hi. rewrite Ht in Hi.
    destruct Hi as ([_ Hlt] & Ht0 & _). destruct Hat as [[-> _]| ->]; [|lia]. unfold s.
    destruct (idx r !! k) as [s0|] eqn:Es; simpl; [|done]. intros Heq. apply Hk0. by eapply (rep_apart _ _ H). }
  split; simpl.
  - rewrite fmap_app. apply NoDup_app. split_and!; [apply (rep_nodup _ _ H)| |apply NoDup_singleton].
    intros x Hx Hx'. simpl in Hx'. apply list_elem_of_singleton in Hx' as ->.
    apply list_elem_of_fmap in Hx as ([n' k1] & Heq & Hx%(rep_names _ _ H)). simpl in Heq. congruence.
  - intros n0 k0. rewrite elem_of_app, list_elem_of_singleton, <-(rep_names _ _ H), lookup_insert_Some. naive_solver congruence.
  - intros k0. unfold idx_ok. rewrite names_of_app. destruct (decide (k0 = k)) as [->|Hk0].
    + rewrite lookup_insert_eq, Hc', Hc. unfold names_of at 3. rewrite filter_cons_True by done. done.
    + rewrite lookup_insert_ne by done. pose proof (rep_idx _ _ H k0) as Hi. unfold idx_ok in Hi.
      unfold names_of at 2 4. rewrite filter_cons_False by (by simpl; auto). simpl. rewrite app_nil_r.
      destruct (idx r !! k0) as [t|] eqn:Et; [|done]. destruct Hi as (Hokt & ? & <- & ?).
      destruct (array_frame (mem r) h' t) as [-> ?]; [|done..]. apply Hframe; [apply Hokt|by eapply Hne].
  - intros k1 k2 s1 s2 [[<- <-]|[Hk1 H1]]%lookup_insert_Some [[<- <-]|[Hk2 H2]]%lookup_insert_Some Ha; [done|..].
    + by exfalso; eapply Hne.
    + by exfalso; eapply Hne.
    + by eapply (rep_apart _ _ H).
  - destruct (rep_zero _ _ H) as [Hz0 Hf]. rewrite Hframe by (done || lia). split; [done|lia].
Qed.

Lemma position_split n l : n ∈ l → NoDup l →
  ∃ i, position n l = Some i ∧ i < length l ∧ take i l ++ drop (S i) l = filter (fun x => x ≠ n) l.
Proof.
  intros Hn Hnd. unfold position. destruct (list_find (eq n) l) as [[i x]|] eqn:E.
  2:{ apply list_find_None in E. rewrite Forall_forall in E. by destruct (E n Hn). }
  exists i. apply list_find_Some in E as (Hi & <- & _). split; [done|]. split; [by eapply lookup_lt_Some|].
  pose proof (take_drop_middle l i n Hi) as Hl. rewrite <-Hl in Hnd at 1. rewrite <-Hl at 3.
  apply NoDup_app in Hnd as (Hnd1 & Hd & [Hn2 Hnd2]%NoDup_cons).
  rewrite filter_app, filter_cons_False by naive_solver. f_equal; symmetry; apply list_filter_all; apply Forall_forall; set_solver.
Qed.

(** Releasing a reserved name: the names of its key move down in their array. *)
Lemma rep_Release_in r l n k :
  represents r l → names r !! n = Some k →
  ∃ s i h' s', idx r !! k = Some s ∧ position n (contents (mem r) s) = Some i ∧ i < len s ∧ slice_ok (mem r) s ∧ arr s ≠ 0 ∧
    remove_at (mem r) s i = (h', s') ∧ contents h' s' = filter (fun x => x ≠ n) (names_of k l) ∧
    Release r n = {| idx := if bool_decide (len s' = 0) then delete k (idx r) else <[k := s']> (idx r);
                     names := delete n (names r); mem := h' |}.
Proof.
  intros H Hn. pose proof Hn as Hin%(rep_names _ _ H)%elem_of_names_of.
  pose proof (rep_idx _ _ H k) as Hk. unfold idx_ok in Hk. destruct (idx r !! k) as [s|] eqn:Es.
  2:{ rewrite Hk in Hin. by apply elem_of_nil in Hin. }
  destruct Hk as (Hok & Hz & Hc & _). pose proof (NoDup_names_of k l (rep_nodup _ _ H)) as Hnd.
  rewrite <-Hc in Hin, Hnd. destruct (position_split n _ Hin Hnd) as (i & Hpos & Hi & Hf).
  rewrite length_contents in Hi by done. destruct (remove_at (mem r) s i) as [h' s'] eqn:E.
  exists s, i, h', s'. split_and!; try done.
  - rewrite <-Hc, <-Hf. by apply (remove_at_spec _ _ _ _ _ E).
  - unfold Release. rewrite Hn, Es. simpl. by rewrite Hpos, E.
Qed.

Lemma rep_Release r l n : represents r l → represents (Release r n) (filter (fun p => p.1 ≠ n) l).
Proof.
  intros H. destruct (names r !! n) as [k|] eqn:Hn.
  2:{ unfold Release. rewrite Hn. replace (filter _ l) with l; [done|]. symmetry. apply list_filter_all, Forall_forall.
      intros [n' k'] Hin%(rep_names _ _ H) Heq. simpl in Heq. congruence. }
  destruct (rep_Release_in r l n k H Hn) as (s & i & h' & s' & Es & _ & Hi & Hok & Hz & E & Hc & ->).
  destruct (remove_at_spec _ _ _ _ _ E Hok Hi) as (_ & Hok' & Hfr & Harr & _ & Hframe).
  assert (∀ k0 t, k0 ≠ k → idx r !! k0 = Some t → arr t ≠ arr s) as Hne.
  { intros k0 t Hk0 Ht Heq. apply Hk0. by eapply (rep_apart _ _ H). }
  assert (∀ k0 t, (if bool_decide (len s' = 0) then delete k (idx r) else <[k := s']> (idx r)) !! k0 = Some t ↔
    k0 = k ∧ t = s' ∧ len s' ≠ 0 ∨ k0 ≠ k ∧ idx r !! k0 = Some t) as Hidx.
  { intros k0 t. case_bool_decide; rewrite ?lookup_delete_Some, ?lookup_insert_Some; naive_solver. }
  split; cbn [idx names mem].
  - by apply NoDup_fst_filter, (rep_nodup _ _ H).
  - intros n0 k0. rewrite lookup_delete_Some, (rep_names _ _ H), list_elem_of_filter. naive_solver.
  - intros k0. unfold idx_ok. rewrite names_of_release. destruct (_ !! k0) as [t|] eqn:Et.
    + apply Hidx in Et as [(-> & -> & Hlen)|[Hk0 Et]]; [by rewrite Hc, Harr|].
      pose proof (rep_idx _ _ H k0) as Hi0. unfold idx_ok in Hi0. rewrite Et in Hi0. destruct Hi0 as (Hokt & ? & Hct & ?).
      destruct (array_frame (mem r) h' t) as [-> ?]; [by apply Hframe, (Hne k0)|lia|done|]. split_and!; try done.
      rewrite Hct. symmetry. apply list_filter_all, Forall_forall. intros x Hx ->. apply elem_of_names_of in Hx.
      apply Hk0. eapply rep_key; [done..|]. by apply (rep_names _ _ H).
    + destruct (decide (k0 = k)) as [->|Hk0].
      * rewrite <-Hc. apply length_zero_iff_nil. rewrite length_contents by done.
        destruct (decide (len s' = 0)); [done|]. exfalso. assert (Some s' = None) as [=]. rewrite <-Et. symmetry. apply Hidx. auto.
      * pose proof (rep_idx _ _ H k0) as Hi0. unfold idx_ok in Hi0. destruct (idx r !! k0) as [t|] eqn:Et0; [|by rewrite Hi0].
        exfalso. assert (Some t = None) as [=]. rewrite <-Et. symmetry. apply Hidx. auto.
  - intros k1 k2 s1 s2 [(-> & -> & _)|[? ?]]%Hidx [(-> & -> & _)|[? ?]]%Hidx Ha; [done|..].
    + rewrite Harr in Ha. by destruct (Hne k2 s2).
    + rewrite Harr in Ha. by destruct (Hne k1 s1).
    + by eapply (rep_apart _ _ H).
  - destruct (rep_zero _ _ H) as [Hz0 Hf]. rewrite Hframe, Hfr by done. done.
Qed.

Lemma lookup_delete_all (m : gmap gostring gostring) (ns : list gostring) n k :
  foldl (fun m n => delete n m) m ns !! n = Some k ↔ m !! n = Some k ∧ n ∉ ns.
Proof.
  revert m. induction ns as [|x ns IH]; intros m; simpl; [set_solver|]. rewrite IH, lookup_delete_Some. set_solver.
Qed.

Lemma rep_Delete r l k : represents r l → represents (Delete r k) (filter (fun p => p.2 ≠ k) l).
Proof.
  intros H. destruct (rep_slice r l k H) as [_ Hc]. unfold Delete. simpl in Hc. rewrite Hc. split; simpl.
  - by apply NoDup_fst_filter, (rep_nodup _ _ H).
  - intros n0 k0. rewrite lookup_delete_all, (rep_names _ _ H), list_elem_of_filter, elem_of_names_of. simpl. split.
    + intros [Hin Hnot]. split; [|done]. by intros ->.
    + intros [Hne Hin]. split; [done|]. intros Hin'. apply Hne. by eapply rep_key.
  - intros k0. unfold idx_ok. rewrite names_of_delete. destruct (decide (k0 = k)) as [->|Hne].
    + by rewrite lookup_delete_eq.
    + rewrite lookup_delete_ne by done. apply (rep_idx _ _ H k0).
  - intros k1 k2 s1 s2 [? ?]%lookup_delete_Some [? ?]%lookup_delete_Some. by apply (rep_apart _ _ H).
  - apply (rep_zero _ _ H).
Qed.

(** One request on both sides. *)
Lemma rep_step grow r l op :
  represents r l →
  (step grow r op).2 = (spec_step l op).2 ∧ represents (step grow r op).1 (spec_step l op).1.
Proof.
  intros H. destruct op as [n k|n|k|k|n]; simpl.
  - pose proof (rep_find r l n H) as Hf. destruct (list_find _ l) as [[i [n' k']]|].
    + unfold Reserve. by rewrite Hf.
    + destruct (Reserve grow r n k) as [r' e] eqn:E. by destruct (rep_Reserve _ _ _ _ _ _ _ H Hf E) as [-> ?].
  - split; [done|by apply rep_Release].
  - split; [done|by apply rep_Delete].
  - split; [|done]. f_equal. unfold GetNames. pose proof (rep_idx _ _ H k) as Hk. unfold idx_ok in Hk.
    destruct (idx r !! k) as [s|]; [|by rewrite Hk]. destruct Hk as (Hok & _ & <- & Hlen). simpl.
    pose proof (length_contents _ _ Hok) as Hl. by destruct (contents (mem r) s).
  - split; [|done]. f_equal. unfold Get. pose proof (rep_find r l n H) as Hf.
    by destruct (list_find _ l) as [[i [n' k']]|]; rewrite Hf.
Qed.

Lemma rep_replies grow r l ops : represents r l → replies (step grow) r ops = replies spec_step l ops.
Proof.
  revert r l. induction ops as [|op ops IH]; intros r l H; simpl; [done|].
  destruct (rep_step grow r l op H) as [He Hr].
  destruct (step grow r op) as [r' a]. destruct (spec_step l op) as [l' a']. simpl in *. subst a'. f_equal. by apply IH.
Qed.

(** C21: the registrar, with its two maps and its slices that share memory, answers
    every sequence of requests as a plain list of reservations does: a name has at
    most one key, a released name can be reserved again, and the names of a key are
    listed in the order in which they were reserved. *)
Theorem registrar_refines (grow : nat → nat) (ops : list request) :
  replies (step grow) NewRegistrar ops = replies spec_step [] ops.
Proof. apply rep_replies, rep_new. Qed.

Inductive reachable (grow : nat → nat) : Registrar → Prop :=
| reach_new : reachable grow NewRegistrar
| reach_step r op : reachable grow r → reachable grow (step grow r op).1.

Lemma reachable_represents grow r : reachable grow r → ∃ l, represents r l.
Proof.
  induction 1 as [|r op _ [l IH]]; [eauto using rep_new|]. destruct (rep_step grow r l op IH) as [_ ?]. eauto.
Qed.

(** The slice that [GetNames] returns is the registrar's own: when one of its
    names is released, the slice that the client still holds has that name taken
    out, the ones behind it moved down and the last one twice. *)
Theorem GetNames_shared (grow : nat → nat) (r : Registrar) (key name : gostring) (s : slice) (before after : list gostring) :
  reachable grow r → GetNames r key = Ok s → contents (mem r) s = before ++ name :: after →
  contents (mem (Release r name)) s = before ++ after ++ [List.last (name :: after) []].
Proof.
  intros [l H]%reachable_represents Hg Hc. unfold GetNames in Hg. destruct (idx r !! key) as [s0|] eqn:Es; [|done].
  injection Hg as ->. pose proof (rep_idx _ _ H key) as Hk. unfold idx_ok in Hk. rewrite Es in Hk.
  destruct Hk as (Hok & _ & Hn & _).
  assert (names r !! name = Some key) as Hname.
  { apply (rep_names _ _ H), elem_of_names_of. rewrite <-Hn, Hc. set_solver. }
  destruct (rep_Release_in r l name key H Hname) as (s1 & i & h' & s' & Es1 & Hpos & Hi & _ & _ & E & _ & ->).
  assert (s1 = s) as -> by congruence. clear Es1.
  destruct (remove_at_spec _ _ _ _ _ E Hok Hi) as (_ & _ & _ & _ & Hcs & _). simpl. rewrite Hcs. clear Hcs E.
  pose proof (NoDup_names_of key l (rep_nodup _ _ H)) as Hnd. rewrite <-Hn, Hc in Hnd.
  pose proof (length_contents _ _ Hok) as Hlen. rewrite Hc in Hpos, Hlen |- *.
  assert (i = length before) as ->.
  { unfold position in Hpos. apply fmap_Some in Hpos as ([j x] & Hf & ->). apply list_find_Some in Hf as (Hj & <- & _). simpl.
    eapply NoDup_lookup; [exact Hnd|exact Hj|]. by rewrite lookup_app_r, Nat.sub_diag by lia. }
  rewrite take_app_length, drop_app_ge by lia. replace (S (length before) - length before) with 1 by lia. simpl. do 2 f_equal.
  rewrite <-Hlen, length_app, drop_app_ge by (simpl; lia). simpl length. replace (_ - length before) with (length after) by lia.
  clear. revert name. induction after as [|x l IH]; intros n; [done|]. apply IH.
Qed.

(** Two names of a container, one of which is released. *)
Definition demo_registrar : Registrar :=
  (step (fun _ => 0) (step (fun _ => 0) (step (fun _ => 0) NewRegistrar (OpReserve "/web" "c1")).1 (OpReserve "/db" "c2")).1 (OpReserve "/app/web" "c1")).1.

Lemma GetNames_shared_witness :
  ∃ s, GetNames demo_registrar "c1" = Ok s ∧ contents (mem demo_registrar) s = ["/web"; "/app/web"] ∧
    contents (mem (Release demo_registrar "/web")) s = ["/app/web"; "/app/web"].
Proof.
  eexists. split; [vm_compute; reflexivity|]. split; [vm_compute; reflexivity|].
  apply (GetNames_shared (fun _ => 0) demo_registrar "c1" "/web" {| arr := 3; len := 2 |} [] ["/app/web"]).
  - repeat constructor.
  - vm_compute. reflexivity.
  - vm_compute. reflexivity.
Defined.
