(* ===== verification/TruncIndex.v ===== *)
(** * TruncIndex: identifiers by unique prefix

    [src/pkg/truncindex/truncindex.go] finds a container by any prefix of its ID
    that no other ID has.

    The prefix tree is the vendored [go-patricia]: it is used through the class
    [Trie], and what the index relies on is the class [TrieLaws] (a plain set of
    keys is an instance).  [VisitSubtree] calls its visitor on the keys under a
    prefix, in some order, until the visitor returns an error. *)

From S2P Require Import Prelude.
Import Strings.

Class Trie (T : Type) := {
  NewTrie : T;
  Insert : T → gostring → T * bool;
  Remove : T → gostring → T * bool;
  (** The keys that [VisitSubtree] visits, in its order. *)
  subtree : T → gostring → list gostring;
}.

Class TrieLaws (T : Type) `{!Trie T} := {
  keys : T → gset gostring;
  keys_new : keys NewTrie = ∅;
  Insert_new t k : k ∉ keys t → (Insert t k).2 = true ∧ keys (Insert t k).1 = {[k]} ∪ keys t;
  Remove_old t k : k ∈ keys t → (Remove t k).2 = true ∧ keys (Remove t k).1 = keys t ∖ {[k]};
  subtree_nodup t s : NoDup (subtree t s);
  subtree_keys t s k : s ≠ [] → k ∈ subtree t s ↔ k ∈ keys t ∧ HasPrefix k s = true;
}.

#[global] Instance set_trie : Trie (gset gostring) := {|
  NewTrie := ∅;
  Insert t k := ({[k]} ∪ t, bool_decide (k ∉ t));
  Remove t k := (t ∖ {[k]}, bool_decide (k ∈ t));
  subtree t s := filter (fun k => HasPrefix k s = true) (elements t);
|}.
#[global] Program Instance set_trie_laws : TrieLaws (gset gostring) := {| keys t := t |}.
Next Obligation. done. Qed.
Next Obligation. intros t k H. by simpl; rewrite bool_decide_eq_true_2. Qed.
Next Obligation. intros t k H. by simpl; rewrite bool_decide_eq_true_2. Qed.
Next Obligation. intros t s. simpl. apply NoDup_filter, NoDup_elements. Qed.
Next Obligation. intros t s k _. simpl. rewrite list_elem_of_filter, elem_of_elements. tauto. Qed.

Module TruncIndex.

Inductive truncError :=
| ErrEmptyPrefix | ErrAmbiguousPrefix | ErrIllegalChar | ErrNotExist
| ErrIDExists (id : gostring) | ErrInsertFailed (id : gostring) | ErrNoSuchID (id : gostring).

#[global] Instance truncError_eq_dec : EqDecision truncError.
Proof. solve_decision. Defined.

Record TruncIndex (T : Type) := { trie : T; ids : gset gostring }.
Arguments trie {T} _.
Arguments ids {T} _.

Section index.
  Context {T : Type} `{!Trie T}.

Definition addID (idx : TruncIndex T) (id : gostring) : TruncIndex T * option truncError :=
  if Contains id " " then (idx, Some ErrIllegalChar)
  else if id =s [] then (idx, Some ErrEmptyPrefix)
  else if bool_decide (id ∈ ids idx) then (idx, Some (ErrIDExists id))
  else
    let '(t, inserted) := Insert (trie idx) id in
    ({| trie := t; ids := {[id]} ∪ ids idx |}, if inserted then None else Some (ErrInsertFailed id)).

Definition NewTruncIndex (l : list gostring) : TruncIndex T :=
  foldl (fun idx id => (addID idx id).1) {| trie := NewTrie; ids := ∅ |} l.

Definition Add (idx : TruncIndex T) (id : gostring) : TruncIndex T * option truncError := addID idx id.

Definition Delete (idx : TruncIndex T) (id : gostring) : TruncIndex T * option truncError :=
  if bool_decide (id ∉ ids idx) || (id =s []) then (idx, Some (ErrNoSuchID id))
  else
    let '(t, deleted) := Remove (trie idx) id in
    ({| trie := t; ids := ids idx ∖ {[id]} |}, if deleted then None else Some (ErrNoSuchID id)).

(** [subTreeVisitFunc] over the visited keys; [id] is the captured variable. *)
Fixpoint visit (id : gostring) (ks : list gostring) : result truncError gostring :=
  match ks with
  | [] => Ok id
  | k :: ks => if id =s [] then visit k ks else Err ErrAmbiguousPrefix
  end.

Definition Get (idx : TruncIndex T) (s : gostring) : result truncError gostring :=
  if s =s [] then Err ErrEmptyPrefix
  else
    let! id := visit [] (subtree (trie idx) s) in
    if id =s [] then Err ErrNotExist else Ok id.

End index.
End TruncIndex.

Import TruncIndex.

Section proofs.
  Context {T : Type} `{!Trie T, !TrieLaws T}.
  Implicit Types (idx : TruncIndex T).

(** The tree holds the identifiers, none of them empty. *)
Record idx_inv (idx : TruncIndex T) : Prop := {
  inv_keys : keys (trie idx) = ids idx;
  inv_nonempty : [] ∉ ids idx;
}.

Lemma addID_spec idx id :
  idx_inv idx → idx_inv (addID idx id).1 ∧
  (if decide (Contains id " " = true ∨ id = [] ∨ id ∈ ids idx) then (addID idx id).1 = idx ∧ (addID idx id).2 ≠ None
   else ids (addID idx id).1 = {[id]} ∪ ids idx ∧ (addID idx id).2 = None).
Proof.
  intros [Hk Hn]. unfold addID. destruct (Contains id " "); [by rewrite decide_True by auto|].
  destruct (id =s []) eqn:E; [apply bool_decide_eq_true in E; by rewrite decide_True by auto|]. apply bool_decide_eq_false in E.
  case_bool_decide as Hin; [by rewrite decide_True by auto|]. rewrite decide_False by naive_solver.
  destruct (Insert_new (trie idx) id) as [Hi Hk']; [by rewrite Hk|]. destruct (Insert (trie idx) id) as [t b]. simpl in *. subst b.
  split_and!; [|done..]. split; simpl; [by rewrite Hk', Hk|set_solver].
Qed.

Lemma trunc_Delete_inv idx id :
  idx_inv idx → idx_inv (Delete idx id).1 ∧ ids (Delete idx id).1 = ids idx ∖ {[id]} ∧
  ((Delete idx id).2 = None ↔ id ∈ ids idx).
Proof.
  intros [Hk Hn]. unfold Delete. case_bool_decide as Hin; simpl.
  { split_and!; [done|set_solver|done]. }
  rewrite (streqb_ne id []) by set_solver.
  destruct (Remove_old (trie idx) id) as [Hd Hk']; [by rewrite Hk|]. destruct (Remove (trie idx) id) as [t b]. simpl in *. subst b.
  split_and!; [|done|done]. split; simpl; [by rewrite Hk', Hk|set_solver].
Qed.

Lemma visit_spec ks : [] ∉ ks →
  visit [] ks = match ks with [] => Ok [] | [k] => Ok k | _ => Err ErrAmbiguousPrefix end.
Proof.
  destruct ks as [|k [|k' ks]]; [done..|]. intros H. simpl.
  by rewrite (streqb_ne k []) by set_solver.
Qed.

(** The three outcomes of a lookup. *)
Lemma Get_cases idx s :
  idx_inv idx → s ≠ [] →
  match Get idx s with
  | Ok id => id ∈ ids idx ∧ HasPrefix id s = true ∧ ∀ id', id' ∈ ids idx → HasPrefix id' s = true → id' = id
  | Err e =>
      e = ErrNotExist ∧ (∀ id, id ∈ ids idx → HasPrefix id s = false) ∨
      e = ErrAmbiguousPrefix ∧ ∃ id id', id ≠ id' ∧ id ∈ ids idx ∧ id' ∈ ids idx ∧ HasPrefix id s = true ∧ HasPrefix id' s = true
  end.
Proof.
  intros [Hk Hn] Hs. unfold Get. rewrite (streqb_ne s [] Hs).
  pose proof (fun k => subtree_keys (trie idx) s k Hs) as Hsub. rewrite Hk in Hsub.
  pose proof (subtree_nodup (trie idx) s) as Hnd. rewrite visit_spec by (rewrite Hsub; tauto).
  destruct (subtree (trie idx) s) as [|k [|k' ks]]; simpl.
  - left. split; [done|]. intros id Hid. apply not_true_iff_false. intros Hp. by apply (elem_of_nil id), Hsub.
  - assert (k ∈ ids idx ∧ HasPrefix k s = true) as [Hin Hp] by (apply Hsub; set_solver).
    rewrite (streqb_ne k []) by (intros ->; done).
    split_and!; [done..|]. intros id' Hid' Hp'. assert (id' ∈ [k]) by by apply Hsub. set_solver.
  - right. split; [done|]. apply NoDup_cons in Hnd as [Hne _].
    destruct (proj1 (Hsub k)) as [? ?]; [set_solver|]. destruct (proj1 (Hsub k')) as [? ?]; [set_solver|].
    exists k, k'. split_and!; try done. set_solver.
Qed.

Inductive reachable_index : TruncIndex T → Prop :=
| ri_new l : reachable_index (NewTruncIndex l)
| ri_add idx id : reachable_index idx → reachable_index (Add idx id).1
| ri_delete idx id : reachable_index idx → reachable_index (Delete idx id).1.

Lemma trunc_New_inv l : idx_inv (NewTruncIndex l : TruncIndex T).
Proof.
  unfold NewTruncIndex. assert (idx_inv {| trie := NewTrie : T; ids := ∅ |}) as H by (split; [apply keys_new|set_solver]).
  revert H. generalize {| trie := NewTrie : T; ids := ∅ |}. induction l as [|id l IH]; intros idx H; simpl; [done|].
  by apply IH, addID_spec.
Qed.

Lemma trunc_reachable_inv idx : reachable_index idx → idx_inv idx.
Proof. induction 1 as [l|idx id _ IH|idx id _ IH]; [apply trunc_New_inv|by apply addID_spec|by apply trunc_Delete_inv]. Qed.

(** In every index that can be built, a prefix finds an identifier exactly
    when it is the only one that starts with it; it is reported as ambiguous when
    there are two, and as unknown when there is none. *)
Theorem TruncIndex_Get idx (s id : gostring) :
  reachable_index idx → s ≠ [] →
  (Get idx s = Ok id ↔ id ∈ ids idx ∧ HasPrefix id s = true ∧ ∀ id', id' ∈ ids idx → HasPrefix id' s = true → id' = id) ∧
  (Get idx s = Err ErrNotExist ↔ ∀ id, id ∈ ids idx → HasPrefix id s = false) ∧
  (Get idx s = Err ErrAmbiguousPrefix ↔
     ∃ id id', id ≠ id' ∧ id ∈ ids idx ∧ id' ∈ ids idx ∧ HasPrefix id s = true ∧ HasPrefix id' s = true).
Proof.
  intros Hr%trunc_reachable_inv Hs. pose proof (Get_cases idx s Hr Hs) as H.
  destruct (Get idx s) as [k|e].
  - destruct H as (Hin & Hp & Hu). split_and!; split; try done.
    + by intros [= <-].
    + intros (Hid & Hpid & _). by rewrite (Hu id).
    + intros H. by rewrite H in Hp.
    + intros (i & j & Hne & Hi & Hj & Hpi & Hpj). destruct Hne. by rewrite (Hu i), (Hu j).
  - destruct H as [(-> & H)|(-> & i & j & Hne & Hi & Hj & Hpi & Hpj)]; split_and!; split; try done.
    + intros (Hid & Hp & _). by rewrite H in Hp.
    + intros (i & j & _ & Hi & _ & Hp & _). by rewrite H in Hp.
    + intros (Hid & _ & Hu). destruct Hne. by rewrite (Hu i), (Hu j).
    + intros H. by rewrite H in Hpi.
    + intros _. naive_solver.
Qed.

End proofs.

Definition demo_index : TruncIndex (gset gostring) := (Add (NewTruncIndex ["4fa6"; "4fb1"]) "90cd").1.
Lemma TruncIndex_Get_witness :
  Get demo_index "4f" = Err ErrAmbiguousPrefix ∧ Get demo_index "9" = Ok "90cd" ∧ Get demo_index "ab" = Err ErrNotExist.
Proof.
  split_and!.
  - apply (TruncIndex_Get demo_index "4f" []); [apply ri_add, ri_new|done|]. exists "4fa6", "4fb1". split_and!; vm_decide.
  - vm_compute. reflexivity.
  - vm_compute. reflexivity.
Defined.
