(* ===== verification/Naming.v ===== *)
(** * Naming: how the daemon finds containers

    [src/daemon/daemon.go] ([GetContainer], [GetByName], [reserveName],
    [generateNewName], [registerName], [Register], [registerLink]),
    [src/daemon/rename.go], the part of [src/daemon/delete.go] that works on the
    indexes, [src/daemon/links.go] and [src/utils/names.go].

    A container is a pointer to a mutable record; the daemon keeps four indexes:
    the containers by ID, the name registrar, the prefix index of the IDs and the
    link index.  Disk and network are inputs: the error of [ToDisk], the error of
    the sandbox, the names that the random generator proposes. *)

From S2P Require Import Prelude Regexp GoPath Registrar TruncIndex ImageDelete.
Import Strings Regexp GoPath.

(** ** Links *)

Module LinkIndex.

(** A [*container.Container]. *)
Abbreviation cptr := nat.

(** [idx] maps parent, alias to child; [childIdx] child, parent to aliases. *)
Record linkIndex := { idx : gmap cptr (gmap gostring cptr); childIdx : gmap cptr (gmap cptr (gset gostring)) }.

Definition newLinkIndex : linkIndex := {| idx := ∅; childIdx := ∅ |}.

Definition link (l : linkIndex) (parent child : cptr) (alias : gostring) : linkIndex :=
  let children := default ∅ (idx l !! parent) in
  let parents := default ∅ (childIdx l !! child) in
  let aliases := default ∅ (parents !! parent) in
  {| idx := <[parent := <[alias := child]> children]> (idx l);
     childIdx := <[child := <[parent := {[alias]} ∪ aliases]> parents]> (childIdx l) |}.

(** Deleting from a nil map does nothing. *)
Definition unlink (l : linkIndex) (alias : gostring) (child parent : cptr) : linkIndex :=
  {| idx := alter (delete alias) parent (idx l); childIdx := alter (delete parent) child (childIdx l) |}.

Definition children (l : linkIndex) (parent : cptr) : gmap gostring cptr := default ∅ (idx l !! parent).

(** The loop over the parents runs in the order [order] that [range] chooses. *)
Definition parents (l : linkIndex) (child : cptr) (order : list cptr) : gmap gostring cptr :=
  let aliases := default ∅ (childIdx l !! child) in
  foldl (fun m p => set_fold (fun a m => <[a := p]> m) m (default ∅ (aliases !! p))) ∅ order.

Definition delete_links (l : linkIndex) (c : cptr) : linkIndex :=
  let kids := (map_to_list (default ∅ (idx l !! c))).*2 in
  {| idx := delete c (idx l);
     childIdx := delete c (foldl (fun m child => alter (delete c) child m) (childIdx l) kids) |}.

End LinkIndex.

Import LinkIndex.

(** ** The daemon's indexes *)

Module Naming.

Record container := { ID : gostring; Name : gostring; Running : bool }.

Inductive namingError :=
| Panic
| ErrNoEntity (name : gostring)
| ErrNoContainerForID (id : gostring)
| ErrNoSuchContainer (name : gostring)
| ErrIndex (e : TruncIndex.truncError)
| ErrInvalidName (name : gostring)
| ErrConflict (name id : gostring)
| ErrReserve (e : Registrar.registrarError)
| ErrAlreadyLoaded
| ErrEmptyID
| ErrEmptyRename
| ErrRenameTaken (e : namingError)
| ErrDefaultName
| ErrNoParent (parent name : gostring)
| ErrIO (msg : gostring).

Record daemon (T : Type) := {
  containers : gmap gostring cptr;
  store : gmap cptr container;
  nameIndex : Registrar.Registrar;
  idIndex : TruncIndex.TruncIndex T;
  links : linkIndex;
}.
Arguments containers {T} _.
Arguments store {T} _.
Arguments nameIndex {T} _.
Arguments idIndex {T} _.
Arguments links {T} _.

Definition RestrictedNameChars : re :=
  Seq (Chr is_alnum) (Plus (Chr (fun c => is_alnum c || (c =c "_") || (c =c ".") || (c =c "-")))).
Definition RestrictedNamePattern : re := Seq (Opt (Lit "/")) RestrictedNameChars.
Definition RestrictedVolumeNamePattern : re := RestrictedNameChars.

(** [if name[0] != '/' { name = "/" + name }]; indexing an empty name panics. *)
Definition rooted (name : gostring) : option gostring :=
  match name with
  | [] => None
  | c :: _ => Some (if c =c "/" then name else "/" ++ name)
  end.

Section daemon.
  Context {T : Type} `{!Trie T} (grow : nat → nat).

Definition set_names (d : daemon T) (r : Registrar.Registrar) : daemon T :=
  {| containers := containers d; store := store d; nameIndex := r; idIndex := idIndex d; links := links d |}.
Definition set_links (d : daemon T) (l : linkIndex) : daemon T :=
  {| containers := containers d; store := store d; nameIndex := nameIndex d; idIndex := idIndex d; links := l |}.
(** Assignments to the fields of a container. *)
Definition update (d : daemon T) (c : cptr) (f : container → container) : daemon T :=
  {| containers := containers d; store := alter f c (store d); nameIndex := nameIndex d; idIndex := idIndex d; links := links d |}.
Definition set_Name (name : gostring) (c : container) : container := {| ID := ID c; Name := name; Running := Running c |}.
Definition set_Running (b : bool) (c : container) : container := {| ID := ID c; Name := Name c; Running := b |}.

Definition GetByName (d : daemon T) (name : gostring) : result namingError cptr :=
  match rooted name with
  | None => Err Panic
  | Some fullName =>
      match Registrar.Get (nameIndex d) fullName with
      | Err _ => Err (ErrNoEntity name)
      | Ok id =>
          match containers d !! id with
          | None => Err (ErrNoContainerForID id)
          | Some e => Ok e
          end
      end
  end.

(** The result can be a nil pointer without an error. *)
Definition GetContainer (d : daemon T) (prefixOrName : gostring) : result namingError (option cptr) :=
  match containers d !! prefixOrName with
  | Some c => Ok (Some c)
  | None =>
      match GetByName d prefixOrName with
      | Err Panic => Err Panic
      | Ok c => Ok (Some c)
      | Err _ =>
          match TruncIndex.Get (idIndex d) prefixOrName with
          | Err TruncIndex.ErrNotExist => Err (ErrNoSuchContainer prefixOrName)
          | Err e => Err (ErrIndex e)
          | Ok containerID => Ok (containers d !! containerID)
          end
      end
  end.

Definition Exists (d : daemon T) (id : gostring) : result namingError bool :=
  match GetContainer d id with
  | Err Panic => Err Panic
  | Err _ | Ok None => Ok false
  | Ok (Some _) => Ok true
  end.

Definition validateID (id : gostring) : option namingError := if id =s [] then Some ErrEmptyID else None.

Definition reserveName (d : daemon T) (id name : gostring) : daemon T * result namingError gostring :=
  if negb (MatchString RestrictedNamePattern name) then (d, Err (ErrInvalidName name))
  else
    match rooted name with
    | None => (d, Err Panic)
    | Some name =>
        match Registrar.Reserve grow (nameIndex d) name id with
        | (r, None) => (set_names d r, Ok name)
        | (r, Some Registrar.ErrNameReserved) =>
            (set_names d r,
             match Registrar.Get r name with
             | Err e => Err (ErrReserve e)
             | Ok id => Err (ErrConflict name id)
             end)
        | (r, Some e) => (set_names d r, Err (ErrReserve e))
        end
    end.

Definition releaseName (d : daemon T) (name : gostring) : daemon T :=
  set_names d (Registrar.Release (nameIndex d) name).

(** The attempts with random names; [rnd i] is [namesgenerator.GetRandomName(i)]. *)
Fixpoint try_names (d : daemon T) (id : gostring) (candidates : list gostring) : daemon T * option (result namingError gostring) :=
  match candidates with
  | [] => (d, None)
  | name :: candidates =>
      match rooted name with
      | None => (d, Some (Err Panic))
      | Some name =>
          match Registrar.Reserve grow (nameIndex d) name id with
          | (r, None) => (set_names d r, Some (Ok name))
          | (r, Some Registrar.ErrNameReserved) => try_names (set_names d r) id candidates
          | (r, Some e) => (set_names d r, Some (Err (ErrReserve e)))
          end
      end
  end.

Definition generateNewName (rnd : nat → gostring) (d : daemon T) (id : gostring) : daemon T * result namingError gostring :=
  match try_names d id (rnd <$> seq 0 6) with
  | (d, Some r) => (d, r)
  | (d, None) =>
      let name := "/" ++ ImageDelete.TruncateID id in
      match Registrar.Reserve grow (nameIndex d) name id with
      | (r, None) => (set_names d r, Ok name)
      | (r, Some e) => (set_names d r, Err (ErrReserve e))
      end
  end.

(** [generateIDAndName], with the ID that the generator drew. *)
Definition generateIDAndName (rnd : nat → gostring) (d : daemon T) (id name : gostring)
    : daemon T * result namingError (gostring * gostring) :=
  let '(d, r) := if name =s [] then generateNewName rnd d id else reserveName d id name in
  (d, let! name := r in Ok (id, name)).

Definition registerName (rnd : nat → gostring) (d : daemon T) (c : cptr) : daemon T * option namingError :=
  match store d !! c with
  | None => (d, Some Panic)
  | Some k =>
      match Exists d (ID k) with
      | Err e => (d, Some e)
      | Ok true => (d, Some ErrAlreadyLoaded)
      | Ok false =>
          match validateID (ID k) with
          | Some e => (d, Some e)
          | None =>
              let '(d, r) :=
                if Name k =s [] then
                  match generateNewName rnd d (ID k) with
                  | (d, Ok name) => (update d c (set_Name name), Ok name)
                  | (d, Err e) => (d, Err e)
                  end
                else (d, Ok (Name k)) in
              match r with
              | Err e => (d, Some e)
              | Ok name =>
                  let '(r, e) := Registrar.Reserve grow (nameIndex d) name (ID k) in
                  (set_names d r, ErrReserve <$> e)
              end
          end
      end
  end.

(** The indexes and the running flag; pipes, the execution driver and the disk are
    left out. *)
Definition Register (d : daemon T) (c : cptr) : daemon T :=
  match store d !! c with
  | None => d
  | Some k =>
      let d := {| containers := <[ID k := c]> (containers d); store := store d; nameIndex := nameIndex d;
                  idIndex := (TruncIndex.Add (idIndex d) (ID k)).1; links := links d |} in
      if Running k then update d c (set_Running false) else d
  end.

Definition registerLink (d : daemon T) (parent child : cptr) (alias : gostring) : daemon T * option namingError :=
  match store d !! parent, store d !! child with
  | Some p, Some k =>
      let fullName := PathJoin [Name p; alias] in
      match Registrar.Reserve grow (nameIndex d) fullName (ID k) with
      | (r, Some Registrar.ErrNameReserved) => (set_names d r, None)
      | (r, Some e) => (set_names d r, Some (ErrReserve e))
      | (r, None) => (set_links (set_names d r) (link (links d) parent child fullName), None)
      end
  | _, _ => (d, Some Panic)
  end.

Definition rmLink (d : daemon T) (c : cptr) (name : gostring) : daemon T * option namingError :=
  match rooted name with
  | None => (d, Some Panic)
  | Some name =>
      let parent := (PathSplit name).1 in
      if parent =s "/" then (d, Some ErrDefaultName)
      else
        let parent := TrimSuffix parent "/" in
        match Registrar.Get (nameIndex d) parent with
        | Err _ => (d, Some (ErrNoParent parent name))
        | Ok pe =>
            let d := releaseName d name in
            match GetContainer d pe with
            | Err Panic => (d, Some Panic)
            | Ok (Some p) => (set_links d (unlink (links d) name c p), None)
            | _ => (d, None)
            end
        end
  end.

(** The deferred function of [cleanupContainer]: the container leaves the indexes. *)
Definition unregister (d : daemon T) (c : cptr) : daemon T :=
  match store d !! c with
  | None => d
  | Some k =>
      {| containers := delete (ID k) (containers d); store := store d;
         nameIndex := Registrar.Delete (nameIndex d) (ID k);
         idIndex := (TruncIndex.Delete (idIndex d) (ID k)).1;
         links := delete_links (links d) c |}
  end.

(** [ContainerRename]; [disk] and [sandbox] are the errors of [ToDisk] and of the
    network sandbox, which only a running container has. *)
Definition ContainerRename (disk sandbox : option gostring) (d : daemon T) (oldName newName : gostring)
    : daemon T * option namingError :=
  if (oldName =s []) || (newName =s []) then (d, Some ErrEmptyRename)
  else
    match GetContainer d oldName with
    | Err e => (d, Some e)
    | Ok None => (d, Some Panic)
    | Ok (Some c) =>
        match store d !! c with
        | None => (d, Some Panic)
        | Some k =>
            let oldName := Name k in
            match reserveName d (ID k) newName with
            | (d, Err e) => (d, Some (ErrRenameTaken e))
            | (d, Ok newName) =>
                let d := update d c (set_Name newName) in
                (** the deferred function *)
                let undo d := releaseName (reserveName (update d c (set_Name oldName)) (ID k) oldName).1 newName in
                let d := releaseName d oldName in
                match disk with
                | Some e => (undo d, Some (ErrIO e))
                | None =>
                    if negb (Running k) then (d, None)
                    else match sandbox with
                         | Some e => (undo d, Some (ErrIO e))
                         | None => (d, None)
                         end
                end
            end
        end
    end.

End daemon.
End Naming.

Import Naming.

(** ** The link index *)

(** Parent [p] is listed as a parent of [c] under the alias [a]. *)
Definition up (l : linkIndex) (c p : cptr) (a : gostring) : Prop := a ∈ default ∅ (default ∅ (childIdx l !! c) !! p).

Lemma children_link l p c a p' a' :
  children (link l p c a) p' !! a' = if decide (p' = p ∧ a' = a) then Some c else children l p' !! a'.
Proof.
  unfold children, link. simpl. destruct (decide (p' = p)) as [->|Hp].
  - rewrite lookup_insert_eq. simpl. destruct (decide (a' = a)) as [->|Ha].
    + by rewrite lookup_insert_eq, decide_True.
    + rewrite lookup_insert_ne, decide_False by naive_solver. done.
  - rewrite lookup_insert_ne, decide_False by naive_solver. done.
Qed.

Lemma up_link l p c a c' p' a' : up (link l p c a) c' p' a' ↔ (c' = c ∧ p' = p ∧ a' = a) ∨ up l c' p' a'.
Proof.
  unfold up, link. simpl. destruct (decide (c' = c)) as [->|Hc].
  - rewrite lookup_insert_eq. simpl. destruct (decide (p' = p)) as [->|Hp].
    + rewrite lookup_insert_eq. simpl. set_solver.
    + rewrite lookup_insert_ne by done. naive_solver.
  - rewrite lookup_insert_ne by done. naive_solver.
Qed.

Lemma children_unlink l a c p p' a' :
  children (unlink l a c p) p' !! a' = if decide (p' = p ∧ a' = a) then None else children l p' !! a'.
Proof.
  unfold children, unlink. simpl. destruct (decide (p' = p)) as [->|Hp].
  - rewrite lookup_alter_eq. destruct (idx l !! p) as [m|]; simpl.
    + destruct (decide (a' = a)) as [->|]; [by rewrite lookup_delete_eq, decide_True|].
      rewrite lookup_delete_ne, decide_False by naive_solver. done.
    + rewrite lookup_empty. by case_decide.
  - rewrite lookup_alter_ne, decide_False by naive_solver. done.
Qed.

Lemma up_unlink l a c p c' p' a' : up (unlink l a c p) c' p' a' ↔ up l c' p' a' ∧ ¬ (c' = c ∧ p' = p).
Proof.
  unfold up, unlink. simpl. destruct (decide (c' = c)) as [->|Hc].
  - rewrite lookup_alter_eq. destruct (childIdx l !! c) as [m|]; simpl.
    + destruct (decide (p' = p)) as [->|]; [rewrite lookup_delete_eq; set_solver|].
      rewrite lookup_delete_ne by done. naive_solver.
    + rewrite lookup_empty. set_solver.
  - rewrite lookup_alter_ne by done. naive_solver.
Qed.

Lemma children_delete l x p : children (delete_links l x) p = if decide (p = x) then ∅ else children l p.
Proof.
  unfold children, delete_links. simpl. case_decide as H; [by rewrite H, lookup_delete_eq|by rewrite lookup_delete_ne].
Qed.

Lemma up_alter_all l x (kids : list cptr) c p a :
  a ∈ default ∅ (default ∅ (foldl (fun m child => alter (delete x) child m) l kids !! c) !! p) ↔
  a ∈ default ∅ (default ∅ ((l : gmap cptr (gmap cptr (gset gostring))) !! c) !! p) ∧ ¬ (p = x ∧ c ∈ kids).
Proof.
  revert l. induction kids as [|k kids IH]; intros l; simpl; [set_solver|]. rewrite IH.
  destruct (decide (c = k)) as [->|Hc].
  - rewrite lookup_alter_eq. destruct (l !! k) as [m|]; simpl; [|rewrite !lookup_empty; set_solver].
    destruct (decide (p = x)) as [->|]; [rewrite lookup_delete_eq|rewrite lookup_delete_ne by done]; set_solver.
  - rewrite lookup_alter_ne by done. set_solver.
Qed.

Lemma up_delete l x c p a :
  up (delete_links l x) c p a ↔ up l c p a ∧ c ≠ x ∧ ¬ (p = x ∧ ∃ b, children l x !! b = Some c).
Proof.
  unfold up, delete_links. simpl. destruct (decide (c = x)) as [->|Hc].
  - rewrite lookup_delete_eq. simpl. rewrite lookup_empty. set_solver.
  - rewrite lookup_delete_ne, up_alter_all by done. fold (children l x).
    assert (c ∈ (map_to_list (children l x)).*2 ↔ ∃ b, children l x !! b = Some c) as ->; [|naive_solver].
    rewrite list_elem_of_fmap. split.
    + intros ([b c'] & -> & Hb%elem_of_map_to_list). eauto.
    + intros [b Hb]. exists (b, c). by rewrite elem_of_map_to_list.
Qed.

(** Links as the daemon makes them: an alias is not given to a second child while
    the first has it, and an unlinked alias is the child's. *)
Inductive links_reachable : linkIndex → Prop :=
| lr_new : links_reachable newLinkIndex
| lr_link l p c a : links_reachable l → (∀ c', up l c' p a → c' = c) → links_reachable (link l p c a)
| lr_unlink l a c p : links_reachable l → (∀ c', up l c' p a → c' = c) → links_reachable (unlink l a c p)
| lr_delete l x : links_reachable l → links_reachable (delete_links l x).

(** Whoever is listed as a parent under an alias does have that child under
    that alias, through every sequence of links, unlinks and deletions. *)
Theorem parents_sound (l : linkIndex) (c p : cptr) (a : gostring) :
  links_reachable l → up l c p a → children l p !! a = Some c.
Proof.
  intros H. revert c p a. induction H as [|l p c a _ IH Hp|l a c p _ IH Hp|l x _ IH]; intros c' p' a'.
  - unfold up. simpl. rewrite lookup_empty. simpl. rewrite lookup_empty. set_solver.
  - rewrite up_link, children_link. intros [(-> & -> & ->)|Hu]; [by rewrite decide_True|].
    case_decide as Hd; [|by apply IH]. destruct Hd as [-> ->]. by rewrite (Hp c').
  - rewrite up_unlink, children_unlink. intros [Hu Hne]. rewrite decide_False; [by apply IH|].
    intros [-> ->]. apply Hne. split; [|done]. by apply Hp.
  - rewrite up_delete, children_delete. intros (Hu & Hc & Hp). rewrite decide_False; [by apply IH|].
    intros ->. apply Hp. split; [done|]. exists a'. by apply IH.
Qed.

(** The converse fails: removing one alias of a child makes its parent forget the
    others, and a deleted container stays a child of its parents. *)
Lemma unlink_forgets l p c a b :
  a ≠ b → children l p !! b = Some c →
  children (unlink l a c p) p !! b = Some c ∧ ¬ up (unlink l a c p) c p b.
Proof.
  intros Hab Hb. rewrite children_unlink, decide_False by naive_solver. split; [done|]. rewrite up_unlink. tauto.
Qed.
Lemma delete_leaves l p c a : p ≠ c → children l p !! a = Some c → children (delete_links l c) p !! a = Some c.
Proof. intros Hp Ha. by rewrite children_delete, decide_False. Qed.

Lemma parents_sound_witness : ∃ l, links_reachable l ∧ up l 2 1 "/a/web" ∧ children l 1 !! "/a/web" = Some 2.
Proof.
  set (l := link (link newLinkIndex 1 2 "/a/web") 1 3 "/a/db").
  assert (links_reachable l) as Hl.
  { apply lr_link; [apply lr_link; [apply lr_new|]|]; intros c'; [vm_compute; set_solver|].
    rewrite up_link. intros [(-> & _ & [=])|H]. revert H. vm_compute. set_solver. }
  assert (up l 2 1 "/a/web") as Hu by (apply up_link; right; apply up_link; by left).
  exists l. split; [exact Hl|]. split; [exact Hu|]. apply (parents_sound l 2 1 "/a/web" Hl Hu).
Defined.

(** ** Names of containers *)

(** The name of a container: what [reserveName] accepts, with its slash. *)
Definition default_name (n : gostring) : Prop := ∃ t, n = "/" ++ t ∧ lang RestrictedNameChars t.
(** A generated ID. *)
Definition good_id (id : gostring) : Prop := 2 ≤ length id ∧ Forall (fun c => is_alnum c = true) id.
(** What [GetRandomName] proposes. *)
Definition good_names (rnd : nat → gostring) : Prop := ∀ i, lang RestrictedNameChars (rnd i).

Definition name_char (c : ascii) : bool := is_alnum c || (c =c "_") || (c =c ".") || (c =c "-").

Lemma RestrictedNameChars_lang t :
  lang RestrictedNameChars t ↔ ∃ c u, t = c :: u ∧ is_alnum c = true ∧ u ≠ [] ∧ Forall (fun x => name_char x = true) u.
Proof.
  unfold RestrictedNameChars. rewrite lang_Seq. setoid_rewrite lang_Chr. setoid_rewrite (lang_Plus_Forall name_char). split.
  - intros (v & u & -> & (c & -> & Hc) & Hu & Hf). by exists c, u.
  - intros (c & u & -> & Hc & Hu & Hf). exists [c], u. split_and!; [done|by exists c|done..].
Qed.

Lemma RestrictedNamePattern_lang n :
  lang RestrictedNamePattern n ↔ lang RestrictedNameChars n ∨ default_name n.
Proof.
  unfold RestrictedNamePattern, default_name. rewrite lang_Seq. setoid_rewrite lang_Opt. setoid_rewrite lang_Lit. split.
  - intros (u & v & -> & [->| ->] & Hv); [right; by exists v|by left].
  - intros [H|(t & -> & H)]; [exists [], n|exists "/", t]; auto.
Qed.

Lemma name_chars t : lang RestrictedNameChars t → Forall (fun c => name_char c = true) t.
Proof.
  intros (c & u & -> & Hc & _ & Hu)%RestrictedNameChars_lang. constructor; [|done]. unfold name_char. by rewrite Hc.
Qed.

Lemma name_no_slash t : lang RestrictedNameChars t → ch "/" ∉ t.
Proof. intros H%name_chars Hin. rewrite Forall_forall in H. by apply H in Hin. Qed.

Lemma id_no_slash id : good_id id → ch "/" ∉ id.
Proof. intros [_ H] Hin. rewrite Forall_forall in H. by apply H in Hin. Qed.

Lemma rooted_name n : MatchString RestrictedNamePattern n = true → ∃ n', rooted n = Some n' ∧ default_name n'.
Proof.
  rewrite MatchString_lang, RestrictedNamePattern_lang. intros [H|H].
  - pose proof (name_no_slash _ H) as Hs. pose proof H as (c & u & -> & _)%RestrictedNameChars_lang.
    exists ("/" ++ c :: u). split; [|by exists (c :: u)]. simpl. unfold chareqb. rewrite bool_decide_eq_false_2; [done|set_solver].
  - destruct H as (t & -> & H). exists ("/" ++ t). split; [done|by exists t].
Qed.

Lemma rooted_default n : default_name n → rooted n = Some n.
Proof. by intros (t & -> & _). Qed.

Lemma default_valid n : default_name n → MatchString RestrictedNamePattern n = true.
Proof. intros H. apply MatchString_lang, RestrictedNamePattern_lang. by right. Qed.

Lemma default_split n : default_name n → (PathSplit n).1 = "/".
Proof.
  intros (t & -> & Ht%name_no_slash). unfold PathSplit.
  rewrite (proj2 (split_last_Some _ _ [] t)); [done|]. by split.
Qed.

Lemma truncated_name id : good_id id → default_name ("/" ++ ImageDelete.TruncateID id).
Proof.
  intros [Hl Hf]. exists (ImageDelete.TruncateID id). split; [done|].
  assert (ImageDelete.TruncateID id = take 12 id) as ->.
  { unfold ImageDelete.TruncateID. rewrite (proj2 (Cut_char_None _ id)).
    - unfold ImageDelete.shortLen. destruct (Nat.ltb_spec (length id) 12); [by rewrite !take_ge by lia|done].
    - intros Hin. rewrite Forall_forall in Hf. by apply Hf in Hin. }
  destruct id as [|c [|c' id]]; simpl in Hl; [lia..|]. apply Forall_cons in Hf as [Hc Hf].
  apply RestrictedNameChars_lang. exists c, (take 11 (c' :: id)). split_and!; [done|done|done|].
  apply Forall_take. eapply Forall_impl; [exact Hf|]. intros x Hx. unfold name_char. by rewrite Hx.
Qed.

(** The names map after the operations of the registrar. *)
Lemma names_Reserve grow r n k :
  Registrar.names (Registrar.Reserve grow r n k).1 = if decide (is_Some (Registrar.names r !! n)) then Registrar.names r else <[n := k]> (Registrar.names r).
Proof.
  unfold Registrar.Reserve. destruct (Registrar.names r !! n) as [k'|]; [by rewrite decide_True|].
  rewrite decide_False by (by intros [? ?]). by destruct (Slices.append1 _ _ _ _).
Qed.
Lemma Reserve_error grow r n k :
  (Registrar.Reserve grow r n k).2 = match Registrar.names r !! n with
    | Some k' => if k' =s k then None else Some Registrar.ErrNameReserved | None => None end.
Proof. unfold Registrar.Reserve. destruct (Registrar.names r !! n) as [k'|]; [done|]. by destruct (Slices.append1 _ _ _ _). Qed.
Lemma names_Release r n : Registrar.names (Registrar.Release r n) = delete n (Registrar.names r).
Proof.
  unfold Registrar.Release. destruct (Registrar.names r !! n) as [k|] eqn:E; [|by rewrite delete_id].
  by destruct (match Registrar.position _ _ with Some _ => _ | None => _ end).
Qed.
Lemma names_Delete r l k n :
  represents r l → Registrar.names (Registrar.Delete r k) !! n = if decide (Registrar.names r !! n = Some k) then None else Registrar.names r !! n.
Proof.
  intros H. pose proof (rep_Delete r l k H) as H'. apply option_eq. intros k'. rewrite (rep_names _ _ H'), list_elem_of_filter, <-(rep_names _ _ H).
  simpl. case_decide; naive_solver congruence.
Qed.

Section naming.
  Context {T : Type} `{!Trie T, !TrieLaws T} (grow : nat → nat).
  Implicit Types (d : daemon T).

Abbreviation reserved d := (Registrar.names (nameIndex d)).
Abbreviation consistent d := (∃ l, represents (nameIndex d) l).

(** Every container is registered under its own ID, in the prefix index too, and
    its name is reserved for it. *)
Record named (d : daemon T) : Prop := {
  nm_rep : consistent d;
  nm_idx : idx_inv (idIndex d);
  nm_ids id : id ∈ TruncIndex.ids (idIndex d) ↔ is_Some (containers d !! id);
  nm_name id c : containers d !! id = Some c →
    good_id id ∧ ∃ k, store d !! c = Some k ∧ ID k = id ∧ default_name (Name k) ∧ reserved d !! Name k = Some id;
}.

Lemma consistent_Reserve d n k : consistent d → ∃ l, represents (Registrar.Reserve grow (nameIndex d) n k).1 l.
Proof. intros [l Hl]. pose proof (rep_step grow _ _ (Registrar.OpReserve n k) Hl) as [_ H]. simpl in H. destruct (Registrar.Reserve _ _ _ _). eauto. Qed.
Lemma consistent_Release d n : consistent d → ∃ l, represents (Registrar.Release (nameIndex d) n) l.
Proof. intros [l Hl]. eauto using rep_Release. Qed.

(** A new registrar that keeps the names of the containers. *)
Lemma named_names d r :
  named d → (∃ l, represents r l) →
  (∀ id c k, containers d !! id = Some c → store d !! c = Some k → reserved d !! Name k = Some id → Registrar.names r !! Name k = Some id) →
  named (set_names d r).
Proof.
  intros [Hrep Hidx Hids Hnm] Hr Hkeep. split; simpl; [done..|]. intros id c Hc.
  destruct (Hnm id c Hc) as (Hid & k & Hk & <- & Hdn & Hres). split; [done|]. exists k. split_and!; eauto.
Qed.

Lemma named_Reserve d n k : named d → named (set_names d (Registrar.Reserve grow (nameIndex d) n k).1).
Proof.
  intros H. apply named_names; [done|apply consistent_Reserve, H|]. intros id c k' _ _ Hres. rewrite names_Reserve.
  case_decide as Hn; [done|]. rewrite lookup_insert_ne; [done|]. intros ->. apply Hn. eauto.
Qed.

(** What reserving does: the name is then the container's, the others are as they
    were. *)
Definition reserves d (id : gostring) d' (res : result namingError gostring) : Prop :=
  (∃ r, d' = set_names d r) ∧ consistent d' ∧
  match res with
  | Ok n => default_name n ∧ reserved d' !! n = Some id ∧ (reserved d !! n = None ∨ reserved d !! n = Some id) ∧
      ∀ m, m ≠ n → reserved d' !! m = reserved d !! m
  | Err _ => reserved d' = reserved d
  end.

Lemma set_names_id d : set_names d (nameIndex d) = d.
Proof. by destruct d. Qed.

Lemma Reserve_reserves d id n :
  consistent d → default_name n → (Registrar.Reserve grow (nameIndex d) n id).2 = None →
  reserves d id (set_names d (Registrar.Reserve grow (nameIndex d) n id).1) (Ok n).
Proof.
  intros Hc Hn He. split; [by eexists|]. split; [by apply consistent_Reserve|]. simpl. rewrite Reserve_error in He. rewrite names_Reserve.
  split; [done|]. destruct (reserved d !! n) as [k'|] eqn:E.
  - rewrite decide_True by eauto. destruct (k' =s id) eqn:Ek; [|done]. apply bool_decide_eq_true in Ek as ->. split_and!; auto.
  - rewrite decide_False by (by intros [? ?]). split_and!; [by rewrite lookup_insert_eq|by left|]. intros m Hm. by rewrite lookup_insert_ne.
Qed.

Lemma Reserve_fails d id n e :
  (Registrar.Reserve grow (nameIndex d) n id).2 = Some e → (Registrar.Reserve grow (nameIndex d) n id).1 = nameIndex d.
Proof. unfold Registrar.Reserve. destruct (_ !! n) as [k'|]; [done|]. by destruct (Slices.append1 _ _ _ _). Qed.

Lemma reserveName_reserves d id name :
  consistent d → reserves d id (reserveName grow d id name).1 (reserveName grow d id name).2.
Proof.
  intros Hc. assert (∀ e : namingError, reserves d id d (Err e)) as Hsame.
  { intros e. split; [exists (nameIndex d); by rewrite set_names_id|]. by split. }
  unfold reserveName. destruct (MatchString RestrictedNamePattern name) eqn:Em; simpl; [|apply Hsame].
  destruct (rooted_name name Em) as (n & -> & Hn).
  pose proof (Reserve_reserves d id n Hc Hn) as Hok. pose proof (Reserve_fails d id n) as Hf.
  destruct (Registrar.Reserve grow (nameIndex d) n id) as [r [e|]]; simpl in *; [|by apply Hok].
  rewrite (Hf e eq_refl), set_names_id in *. destruct e; simpl; try apply Hsame. destruct (Registrar.Get _ _); apply Hsame.
Qed.

Lemma rnd_name t : lang RestrictedNameChars t → ∃ n, rooted t = Some n ∧ default_name n.
Proof. intros H. apply rooted_name, MatchString_lang, RestrictedNamePattern_lang. by left. Qed.

Lemma try_names_reserves d id ns :
  consistent d → Forall (lang RestrictedNameChars) ns →
  match (try_names grow d id ns).2 with
  | Some res => reserves d id (try_names grow d id ns).1 res
  | None => (try_names grow d id ns).1 = d
  end.
Proof.
  intros Hc Hns. induction Hns as [|t ns Ht _ IH]; simpl; [done|].
  destruct (rnd_name t Ht) as (n & -> & Hn).
  pose proof (Reserve_reserves d id n Hc Hn) as Hok. pose proof (Reserve_fails d id n) as Hf.
  destruct (Registrar.Reserve grow (nameIndex d) n id) as [r [e|]]; simpl in *; [|by apply Hok].
  rewrite (Hf e eq_refl), set_names_id in *.
  destruct e; simpl; [done|..]; (split; [exists (nameIndex d); by rewrite set_names_id|by split]).
Qed.

Lemma generateNewName_reserves rnd d id :
  consistent d → good_names rnd → good_id id →
  reserves d id (generateNewName grow rnd d id).1 (generateNewName grow rnd d id).2.
Proof.
  intros Hc Hr Hid. unfold generateNewName.
  assert (Forall (lang RestrictedNameChars) (rnd <$> seq 0 6)) as Hns by (simpl; eauto 10).
  pose proof (try_names_reserves d id (rnd <$> seq 0 6) Hc Hns) as Ht.
  destruct (try_names grow d id (rnd <$> seq 0 6)) as [d' [res|]]; cbn [fst snd] in *; [done|]. subst d'.
  pose proof (Reserve_reserves d id _ Hc (truncated_name id Hid)) as Hok.
  pose proof (Reserve_fails d id ("/" ++ ImageDelete.TruncateID id)) as Hf. cbv zeta.
  destruct (Registrar.Reserve grow (nameIndex d) ("/" ++ ImageDelete.TruncateID id) id) as [r [e|]]; cbn [fst snd] in *; [|by apply Hok].
  rewrite (Hf e eq_refl), set_names_id. split; [exists (nameIndex d); by rewrite set_names_id|by split].
Qed.

(** Reserving keeps the names of the containers. *)
Lemma reserves_keeps d id d' res m k : reserves d id d' res → reserved d !! m = Some k → reserved d' !! m = Some k.
Proof.
  intros (_ & _ & Hres) Hm. destruct res as [n|]; simpl in Hres; [|by rewrite Hres].
  destruct Hres as (_ & Hn & Hold & Hother). destruct (decide (m = n)) as [->|Hne]; [|by rewrite Hother]. naive_solver congruence.
Qed.

Lemma named_reserves d id d' res : named d → reserves d id d' res → named d'.
Proof.
  intros H Hr. pose proof Hr as ((r & ->) & Hc & _). apply named_names; [done..|]. intros id' c k _ _ Hn.
  by apply (reserves_keeps _ _ _ _ _ _ Hr).
Qed.

(** Releasing a name that no container has as its own. *)
Lemma named_release d n :
  named d → (∀ id c k, containers d !! id = Some c → store d !! c = Some k → Name k ≠ n) → named (releaseName d n).
Proof.
  intros H Hn. apply named_names; [done|apply consistent_Release, H|]. intros id c k Hid Hk Hres.
  rewrite names_Release, lookup_delete_ne; [done|]. intros ->. by eapply Hn.
Qed.

(** Two containers with the same name are the same. *)
Lemma named_unique d id c k id' c' k' :
  named d → containers d !! id = Some c → store d !! c = Some k → containers d !! id' = Some c' → store d !! c' = Some k' →
  Name k = Name k' → id = id' ∧ c = c'.
Proof.
  intros H Hc Hk Hc' Hk' Hn. destruct (nm_name _ H _ _ Hc) as (_ & k1 & Hk1 & _ & _ & Hr).
  destruct (nm_name _ H _ _ Hc') as (_ & k2 & Hk2 & _ & _ & Hr'). assert (id = id') as -> by congruence. split; congruence.
Qed.

Lemma named_pointer d id id' c : named d → containers d !! id = Some c → containers d !! id' = Some c → id = id'.
Proof.
  intros H Hc Hc'. destruct (nm_name _ H _ _ Hc) as (_ & k1 & Hk1 & <- & _).
  destruct (nm_name _ H _ _ Hc') as (_ & k2 & Hk2 & <- & _). congruence.
Qed.

(** ** Lookups *)

Lemma GetContainer_id d id c : containers d !! id = Some c → GetContainer d id = Ok (Some c).
Proof. intros H. unfold GetContainer. by rewrite H. Qed.

Lemma GetContainer_name d id c k :
  named d → containers d !! id = Some c → store d !! c = Some k → GetContainer d (Name k) = Ok (Some c).
Proof.
  intros H Hc Hk. destruct (nm_name _ H _ _ Hc) as (_ & k' & Hk' & Hid & Hdn & Hres). assert (k' = k) as -> by congruence.
  unfold GetContainer. destruct (containers d !! Name k) as [c'|] eqn:E.
  { exfalso. destruct (nm_name _ H _ _ E) as [Hg _]. apply (id_no_slash _ Hg). destruct Hdn as (t & -> & _). set_solver. }
  unfold GetByName. rewrite rooted_default by done. unfold Registrar.Get. by rewrite Hres, Hc.
Qed.

Lemma GetContainer_registered d s c : GetContainer d s = Ok (Some c) → ∃ id, containers d !! id = Some c.
Proof.
  unfold GetContainer, GetByName. intros H. repeat case_match; simplify_eq; eauto.
Qed.

(** ** Registration *)

Definition unregistered d (c : cptr) : Prop := ∀ id, containers d !! id ≠ Some c.

Lemma named_Register d c k :
  named d → store d !! c = Some k → unregistered d c → good_id (ID k) → containers d !! ID k = None →
  default_name (Name k) → reserved d !! Name k = Some (ID k) → named (Register d c).
Proof.
  intros H Hk Hun Hid Hnew Hn Hres. unfold Register. rewrite Hk.
  assert (ID k ∉ TruncIndex.ids (idIndex d)) as Hnot by (rewrite (nm_ids _ H), Hnew; by intros [? ?]).
  destruct (addID_spec (idIndex d) (ID k) (nm_idx _ H)) as [Hidx Hadd]. rewrite decide_False in Hadd.
  2:{ intros [Hs|[Hs|Hs]]; [|by rewrite Hs in Hid; destruct Hid; simpl in *; lia|done].
      rewrite Contains_char, bool_decide_eq_true in Hs. destruct Hid as [_ Hf]. rewrite Forall_forall in Hf. by apply Hf in Hs. }
  destruct Hadd as [Hids _].
  assert (∀ st, (∀ c', c' ≠ c → st !! c' = store d !! c') → (∃ k', st !! c = Some k' ∧ ID k' = ID k ∧ Name k' = Name k) →
    named {| containers := <[ID k := c]> (containers d); store := st; nameIndex := nameIndex d;
             idIndex := (TruncIndex.Add (idIndex d) (ID k)).1; links := links d |}) as Hgen.
  { intros st Hst (k' & Hk' & HI & HN). split; simpl; [apply H|done| |].
    - intros id. unfold TruncIndex.Add. rewrite Hids, elem_of_union, elem_of_singleton, (nm_ids _ H), lookup_insert_is_Some'. naive_solver.
    - intros id c' [[<- <-]|[Hne Hc]]%lookup_insert_Some.
      + split; [done|]. exists k'. by rewrite HI, HN.
      + rewrite Hst by (intros ->; by apply (Hun id)). by apply (nm_name _ H). }
  destruct (Running k); simpl.
  - apply Hgen; [intros c' Hc'; by rewrite lookup_alter_ne|]. exists (set_Running false k). split; [|done]. rewrite lookup_alter_eq. simpl. by rewrite Hk.
  - apply Hgen; eauto.
Qed.

(** Allocating a container record. *)
Definition alloc_container d (c : cptr) (k : container) : daemon T :=
  {| containers := containers d; store := <[c := k]> (store d); nameIndex := nameIndex d; idIndex := idIndex d; links := links d |}.

Lemma named_alloc d c k : named d → unregistered d c → named (alloc_container d c k).
Proof.
  intros H Hun. split; simpl; [apply H..|]. intros id c' Hc. rewrite lookup_insert_ne; [by apply (nm_name _ H)|].
  intros ->. by apply (Hun id).
Qed.

Lemma named_update d c f : named d → unregistered d c → named (update d c f).
Proof.
  intros H Hun. split; simpl; [apply H..|]. intros id c' Hc. rewrite lookup_alter_ne; [by apply (nm_name _ H)|].
  intros ->. by apply (Hun id).
Qed.

Lemma Exists_false d id : Exists d id = Ok false → containers d !! id = None.
Proof. unfold Exists. destruct (containers d !! id) as [c|] eqn:E; [|done]. by rewrite (GetContainer_id _ _ _ E). Qed.

Lemma update_set_names d r c f : update (set_names d r) c f = set_names (update d c f) r.
Proof. done. Qed.

(** [registerName] reserves the name that the container then has. *)
Lemma registerName_named rnd d c k d' :
  named d → store d !! c = Some k → unregistered d c → good_id (ID k) → good_names rnd → Name k = [] ∨ default_name (Name k) →
  registerName grow rnd d c = (d', None) →
  named d' ∧ unregistered d' c ∧ containers d' !! ID k = None ∧
  ∃ k', store d' !! c = Some k' ∧ ID k' = ID k ∧ default_name (Name k') ∧ reserved d' !! Name k' = Some (ID k).
Proof.
  intros H Hk Hun Hid Hrnd Hnm. unfold registerName. rewrite Hk. destruct (Exists d (ID k)) as [[]|] eqn:Ex; try done.
  apply Exists_false in Ex. destruct (validateID (ID k)); [done|].
  assert (∀ d1 k1, named d1 → unregistered d1 c → containers d1 = containers d → store d1 !! c = Some k1 → ID k1 = ID k →
    default_name (Name k1) → (let '(r, e) := Registrar.Reserve grow (nameIndex d1) (Name k1) (ID k) in (set_names d1 r, ErrReserve <$> e)) = (d', None) →
    named d' ∧ unregistered d' c ∧ containers d' !! ID k = None ∧
    ∃ k', store d' !! c = Some k' ∧ ID k' = ID k ∧ default_name (Name k') ∧ reserved d' !! Name k' = Some (ID k)) as Hgen.
  { intros d1 k1 H1 Hun1 Hc1 Hk1 HI Hn1 Hr. pose proof (Reserve_reserves d1 (ID k) (Name k1) (nm_rep _ H1) Hn1) as Hrs.
    destruct (Registrar.Reserve grow (nameIndex d1) (Name k1) (ID k)) as [r [e|]]; simpl in *; [done|]. injection Hr as <-.
    specialize (Hrs eq_refl). split; [by eapply named_reserves|]. split; [exact Hun1|]. split; [simpl; by rewrite Hc1|].
    exists k1. split_and!; try done. apply Hrs. }
  destruct (Name k =s []) eqn:En.
  - pose proof (generateNewName_reserves rnd d (ID k) (nm_rep _ H) Hrnd Hid) as Hg.
    destruct (generateNewName grow rnd d (ID k)) as [d1 [n|e]]; [|done]. simpl in Hg.
    pose proof (named_reserves _ _ _ _ H Hg) as H1. destruct Hg as ((r & ->) & _ & Hn & _ & _).
    apply (Hgen (update (set_names d r) c (set_Name n)) (set_Name n k)); try done; [by apply named_update|].
    simpl. by rewrite lookup_alter_eq, Hk.
  - apply bool_decide_eq_false in En. apply (Hgen d k); try done. naive_solver.
Qed.

(** ** Renaming *)

Lemma reserved_update d c f : reserved (update d c f) = reserved d.
Proof. done. Qed.

Lemma named_rename d c k n :
  named d → containers d !! ID k = Some c → store d !! c = Some k → default_name n → reserved d !! n = Some (ID k) →
  n ≠ Name k → named (releaseName (update d c (set_Name n)) (Name k)).
Proof.
  intros H Hc Hk Hn Hres Hne. split; simpl; [apply consistent_Release, H|apply H..|].
  intros id c' Hc'. destruct (nm_name _ H _ _ Hc') as (Hid & k' & Hk' & <- & Hdn & Hres'). split; [done|].
  destruct (decide (c' = c)) as [->|Hcc].
  - assert (k' = k) as -> by congruence. exists (set_Name n k). rewrite lookup_alter_eq, Hk. split_and!; try done.
    simpl. by rewrite names_Release, lookup_delete_ne.
  - exists k'. rewrite lookup_alter_ne by done. split_and!; try done. rewrite names_Release, lookup_delete_ne; [done|].
    intros Heq. apply Hcc. by destruct (named_unique d _ _ _ _ _ _ H Hc Hk Hc' Hk' Heq).
Qed.

Lemma reserveName_update d c f id n :
  reserveName grow (update d c f) id n = (update (reserveName grow d id n).1 c f, (reserveName grow d id n).2).
Proof.
  unfold reserveName. destruct (negb _); [done|]. destruct (rooted n) as [n'|]; [|done]. simpl.
  by destruct (Registrar.Reserve grow (nameIndex d) n' id) as [r [[]|]].
Qed.

Lemma reserveName_free d id n : default_name n → reserved d !! n = None → (reserveName grow d id n).2 = Ok n.
Proof.
  intros Hn Hr. unfold reserveName. rewrite default_valid, rooted_default by done. simpl.
  pose proof (Reserve_error grow (nameIndex d) n id) as He. rewrite Hr in He.
  destruct (Registrar.Reserve grow (nameIndex d) n id) as [r e]. simpl in He. by subst e.
Qed.

(** The deferred function puts the old name back. *)
Lemma named_undo d c k n :
  named d → containers d !! ID k = Some c → store d !! c = Some (set_Name n k) → default_name (Name k) →
  reserved d !! Name k = None → n ≠ Name k →
  named (releaseName (reserveName grow (update d c (set_Name (Name k))) (ID k) (Name k)).1 n).
Proof.
  intros H Hc Hk Hdn Hfree Hne. rewrite reserveName_update. cbn [fst].
  pose proof (reserveName_reserves d (ID k) (Name k) (nm_rep _ H)) as Hr. rewrite reserveName_free in Hr by done.
  pose proof (named_reserves _ _ _ _ H Hr) as H1. destruct Hr as ((r & Hd1) & _ & _ & Hres & _).
  rewrite Hd1 in *. apply (named_rename (set_names d r) c (set_Name n k) (Name k)); simpl; auto.
Qed.

Lemma ContainerRename_named disk sandbox d old new :
  named d →
  (∀ c k, GetContainer d old = Ok (Some c) → store d !! c = Some k → rooted new ≠ Some (Name k)) →
  named (ContainerRename grow disk sandbox d old new).1.
Proof.
  intros H Hdiff. unfold ContainerRename. destruct (_ || _); [done|].
  destruct (GetContainer d old) as [[c|]|] eqn:Eg; [|done..].
  destruct (GetContainer_registered _ _ _ Eg) as [id Hc]. destruct (nm_name _ H _ _ Hc) as (_ & k & Hk & <- & Hdn & Hold).
  rewrite Hk. specialize (Hdiff c k eq_refl Hk).
  pose proof (reserveName_reserves d (ID k) new (nm_rep _ H)) as Hr.
  assert (∀ d1 n, reserveName grow d (ID k) new = (d1, Ok n) → n ≠ Name k) as Hne.
  { intros d1 n. unfold reserveName. destruct (negb _); [done|]. destruct (rooted new) as [n'|]; [|done].
    destruct (Registrar.Reserve _ _ _ _) as [r [[]|]]; try destruct (Registrar.Get _ _); intros ?; simplify_eq. naive_solver. }
  destruct (reserveName grow d (ID k) new) as [d1 [n|e]]; simpl in Hr; [|by eapply named_reserves].
  specialize (Hne d1 n eq_refl). pose proof (named_reserves _ _ _ _ H Hr) as H1.
  destruct Hr as ((r & ->) & _ & Hn & Hres & _). cbv zeta.
  pose proof (named_rename _ c k n H1 Hc Hk Hn Hres Hne) as H3.
  assert (named (releaseName (reserveName grow (update (releaseName (update (set_names d r) c (set_Name n)) (Name k)) c
    (set_Name (Name k))) (ID k) (Name k)).1 n)) as Hundo.
  { apply named_undo; try done; simpl; [by rewrite lookup_alter_eq, Hk|]. rewrite names_Release. apply lookup_delete_eq. }
  destruct disk; [exact Hundo|]. destruct (negb (Running k)); [exact H3|]. by destruct sandbox.
Qed.

(** ** Links and removal *)

Lemma named_set_links d l : named d → named (set_links d l).
Proof. intros H. split; apply H. Qed.

Lemma registerLink_named d p c a : named d → named (registerLink grow d p c a).1.
Proof.
  intros H. unfold registerLink. destruct (store d !! p) as [kp|]; [|done]. destruct (store d !! c) as [kc|]; [|done].
  pose proof (named_Reserve d (PathJoin [Name kp; a]) (ID kc) H) as H'.
  destruct (Registrar.Reserve grow (nameIndex d) (PathJoin [Name kp; a]) (ID kc)) as [r [[]|]]; simpl in *; try done.
  by apply named_set_links.
Qed.

Lemma rmLink_named d c name : named d → named (rmLink d c name).1.
Proof.
  intros H. unfold rmLink. destruct (rooted name) as [n|] eqn:En; [|done].
  destruct ((PathSplit n).1 =s "/") eqn:Es; [done|]. apply bool_decide_eq_false in Es.
  destruct (Registrar.Get _ _) as [pe|]; [|done].
  assert (named (releaseName d n)) as H'.
  { apply named_release; [done|]. intros id c' k Hc Hk Heq. destruct (nm_name _ H _ _ Hc) as (_ & k' & Hk' & _ & Hdn & _).
    assert (k' = k) as -> by congruence. apply Es. rewrite <-Heq. by apply default_split. }
  destruct (GetContainer (releaseName d n) pe) as [[p|]|[]]; try exact H'. by apply named_set_links.
Qed.

Lemma unregister_named d c k :
  named d → store d !! c = Some k → containers d !! ID k = Some c → named (unregister d c).
Proof.
  intros H Hk Hc. unfold unregister. rewrite Hk. destruct (trunc_Delete_inv (idIndex d) (ID k) (nm_idx _ H)) as (Hidx & Hids & _).
  destruct (nm_rep _ H) as [l Hl]. split; cbn [containers store nameIndex idIndex links]; [by eauto using rep_Delete|done| |].
  - intros id. rewrite Hids, elem_of_difference, elem_of_singleton, (nm_ids _ H), lookup_delete_is_Some. naive_solver.
  - intros id c' [Hne Hc']%lookup_delete_Some. destruct (nm_name _ H _ _ Hc') as (Hid & k' & Hk' & Hk'' & Hdn & Hres).
    split; [done|]. exists k'. split_and!; try done. rewrite (names_Delete _ _ _ _ Hl), decide_False; [done|]. congruence.
Qed.

(** ** The daemon's steps *)

Definition new_daemon : daemon T :=
  {| containers := ∅; store := ∅; nameIndex := Registrar.NewRegistrar; idIndex := TruncIndex.NewTruncIndex []; links := newLinkIndex |}.

Inductive naming_step : daemon T → daemon T → Prop :=
(** a new container, with a drawn ID that is not in use *)
| st_create d d1 rnd id name n c :
    good_names rnd → good_id id → containers d !! id = None → store d !! c = None → unregistered d c →
    generateIDAndName grow rnd d id name = (d1, Ok (id, n)) →
    naming_step d (Register (alloc_container d1 c {| ID := id; Name := n; Running := false |}) c)
| st_create_fails d d1 rnd id name e :
    good_names rnd → good_id id → generateIDAndName grow rnd d id name = (d1, Err e) → naming_step d d1
(** a container read from disk *)
| st_load d c k : store d !! c = None → unregistered d c → naming_step d (alloc_container d c k)
| st_restore d d1 rnd c k :
    good_names rnd → store d !! c = Some k → unregistered d c → good_id (ID k) → Name k = [] ∨ default_name (Name k) →
    registerName grow rnd d c = (d1, None) → naming_step d (Register d1 c)
(** a new name that is not the old one *)
| st_rename d disk sandbox old new :
    (∀ c k, GetContainer d old = Ok (Some c) → store d !! c = Some k → rooted new ≠ Some (Name k)) →
    naming_step d (ContainerRename grow disk sandbox d old new).1
| st_link d p c a : naming_step d (registerLink grow d p c a).1
| st_rmlink d c name : naming_step d (rmLink d c name).1
| st_remove d c k : store d !! c = Some k → containers d !! ID k = Some c → naming_step d (unregister d c).

Lemma new_daemon_named : named new_daemon.
Proof.
  split; simpl; [eauto using rep_new|apply trunc_New_inv| |].
  - intros id. rewrite lookup_empty, is_Some_alt. set_solver.
  - intros id c. by rewrite lookup_empty.
Qed.

Lemma naming_step_named d d' : named d → naming_step d d' → named d'.
Proof.
  intros H Hs.
  assert (∀ rnd id name, good_names rnd → good_id id →
    reserves d id (generateIDAndName grow rnd d id name).1 (let! p := (generateIDAndName grow rnd d id name).2 in Ok p.2)) as Hg.
  { intros rnd id name Hrnd Hid. unfold generateIDAndName. destruct (name =s []).
    - pose proof (generateNewName_reserves rnd d id (nm_rep _ H) Hrnd Hid) as Hr. by destruct (generateNewName grow rnd d id) as [d1 []].
    - pose proof (reserveName_reserves d id name (nm_rep _ H)) as Hr. by destruct (reserveName grow d id name) as [d1 []]. }
  destruct Hs as [d d1 rnd id name n c Hrnd Hid Hnew Hc Hun Hgen|d d1 rnd id name e Hrnd Hid Hgen|d c k Hc Hun
                 |d d1 rnd c k Hrnd Hk Hun Hid Hn Hreg| |d p c a|d c name|d c k Hk Hc].
  - specialize (Hg rnd id name Hrnd Hid). rewrite Hgen in Hg. simpl in Hg. pose proof (named_reserves _ _ _ _ H Hg) as H1.
    destruct Hg as ((r & ->) & _ & Hdn & Hres & _).
    apply (named_Register _ c {| ID := id; Name := n; Running := false |}); simpl; try done; [by apply named_alloc|apply lookup_insert_eq].
  - specialize (Hg rnd id name Hrnd Hid). rewrite Hgen in Hg. by eapply named_reserves.
  - by apply named_alloc.
  - destruct (registerName_named rnd d c k d1) as (H1 & Hun1 & Hc1 & k' & Hk' & HI & Hn' & Hres); [done..|].
    apply (named_Register d1 c k'); try done; by rewrite HI.
  - by apply ContainerRename_named.
  - by apply registerLink_named.
  - by apply rmLink_named.
  - by eapply unregister_named.
Qed.

Lemma reachable_named d : rtc naming_step new_daemon d → named d.
Proof.
  assert (∀ x, rtc naming_step x d → named x → named d) as H; [|intros; by eapply H, new_daemon_named].
  induction 1 as [|x y z Hs _ IH]; [done|]. intros Hx. by eapply IH, naming_step_named.
Qed.

(** C14: as long as no container is renamed to the name it has ([rename_to_itself] shows
    what comes of that), in every state that the daemon gets into by creating, renaming,
    linking and removing containers, a container is found by its ID and by its name, no
    other container has that name, and the name cannot be reserved for another one. *)
Theorem containers_named d id c k :
  rtc naming_step new_daemon d → containers d !! id = Some c → store d !! c = Some k →
  GetContainer d id = Ok (Some c) ∧ GetContainer d (Name k) = Ok (Some c) ∧
  (∀ id' c' k', containers d !! id' = Some c' → store d !! c' = Some k' → Name k' = Name k → c' = c) ∧
  ∀ id', id' ≠ id → (reserveName grow d id' (Name k)).2 = Err (ErrConflict (Name k) id).
Proof.
  intros H%reachable_named Hc Hk. split_and!; [by apply GetContainer_id|by eapply GetContainer_name| |].
  - intros id' c' k' Hc' Hk' Hn. by destruct (named_unique d _ _ _ _ _ _ H Hc' Hk' Hc Hk Hn).
  - intros id' Hne. destruct (nm_name _ H _ _ Hc) as (_ & k0 & Hk0 & Hid & Hdn & Hres). assert (k0 = k) as -> by congruence.
    unfold reserveName. rewrite default_valid, rooted_default by done. simpl. unfold Registrar.Reserve. rewrite Hres.
    rewrite streqb_ne by congruence. unfold Registrar.Get. by rewrite Hres.
Qed.

(** ** A name given up by mistake

    Renaming a container to the name it has reserves nothing, and then releases
    the name. *)

(** A container renamed to its own name loses it: the name is free for any
    other container, although the container still carries it. *)
Theorem rename_to_itself d id c k :
  rtc naming_step new_daemon d → containers d !! id = Some c → store d !! c = Some k →
  let '(d', e) := ContainerRename grow None None d id (Name k) in
  e = None ∧ store d' !! c = Some k ∧ containers d' !! id = Some c ∧
  ∀ id', (reserveName grow d' id' (Name k)).2 = Ok (Name k).
Proof.
  intros H%reachable_named Hc Hk. destruct (nm_name _ H _ _ Hc) as (Hid & k0 & Hk0 & HI & Hdn & Hres). assert (k0 = k) as -> by congruence.
  unfold ContainerRename. rewrite (streqb_ne id []), (streqb_ne (Name k) []).
  2:{ by destruct Hdn as (t & -> & _). }
  2:{ intros ->. destruct Hid. simpl in *. lia. }
  simpl. rewrite (GetContainer_id _ _ _ Hc), Hk.
  assert (reserveName grow d (ID k) (Name k) = (d, Ok (Name k))) as ->.
  { unfold reserveName. rewrite default_valid, rooted_default by done. simpl. unfold Registrar.Reserve. rewrite Hres, HI.
    unfold streqb. by rewrite bool_decide_eq_true_2, set_names_id. }
  assert (store (update d c (set_Name (Name k))) !! c = Some k) as Hst.
  { simpl. rewrite lookup_alter_eq, Hk. by destruct k. }
  assert (∀ id', (reserveName grow (releaseName (update d c (set_Name (Name k))) (Name k)) id' (Name k)).2 = Ok (Name k)) as Hfree.
  { intros id'. apply reserveName_free; [done|]. simpl. rewrite names_Release. apply lookup_delete_eq. }
  destruct (Running k); simpl; split_and!; done.
Qed.

End naming.

(** ** A daemon with a container that was given a name, and one that was not *)

Definition demo_rnd (i : nat) : gostring := "focused_turing".
Lemma demo_rnd_good : good_names demo_rnd.
Proof. intros i. apply MatchString_lang. vm_compute. reflexivity. Qed.

Definition demo_create (d : daemon (gset gostring)) (id name : gostring) (c : cptr) : daemon (gset gostring) :=
  let '(d1, r) := generateIDAndName (fun n => n) demo_rnd d id name in
  match r with
  | Ok (id, n) => Register (alloc_container d1 c {| ID := id; Name := n; Running := false |}) c
  | Err _ => d1
  end.

Lemma demo_create_step d id name c n :
  good_id id → containers d !! id = None → store d !! c = None → unregistered d c →
  (generateIDAndName (fun n => n) demo_rnd d id name).2 = Ok (id, n) →
  naming_step (fun n => n) d (demo_create d id name c).
Proof.
  intros Hid Hc Hs Hun Hg. unfold demo_create.
  destruct (generateIDAndName (fun n => n) demo_rnd d id name) as [d1 r] eqn:E. simpl in Hg. subst r.
  eapply st_create; eauto using demo_rnd_good.
Qed.

Definition demo_daemon1 : daemon (gset gostring) := demo_create new_daemon "4fa6" "web" 1.
Definition demo_daemon : daemon (gset gostring) := demo_create demo_daemon1 "90cd" [] 2.

Lemma demo_good_id s : MatchString (Seq (Chr is_alnum) (Plus (Chr is_alnum))) s = true → good_id s.
Proof.
  rewrite MatchString_lang, lang_Seq. setoid_rewrite lang_Chr. setoid_rewrite lang_Plus_Forall.
  intros (u & v & -> & (c & -> & Hc) & Hv & Hf). split; [|by constructor]. destruct v; [done|]. simpl. lia.
Qed.

Lemma demo_reachable : rtc (naming_step (fun n => n)) new_daemon demo_daemon.
Proof.
  eapply rtc_l with demo_daemon1; [|apply rtc_once].
  - apply (demo_create_step _ _ _ _ "/web"); [apply demo_good_id; vm_compute; reflexivity|done|done|by intros i|].
    vm_compute. reflexivity.
  - apply (demo_create_step _ _ _ _ "/focused_turing"); [apply demo_good_id; vm_compute; reflexivity|vm_compute; reflexivity..| |].
    + intros i Hi. assert (containers demo_daemon1 = {["4fa6" := 1]}) as E by (vm_compute; reflexivity).
      rewrite E in Hi. by apply lookup_singleton_Some in Hi as [_ ?].
    + vm_compute. reflexivity.
Qed.

Lemma containers_named_witness :
  GetContainer demo_daemon "90cd" = Ok (Some 2) ∧ GetContainer demo_daemon "/focused_turing" = Ok (Some 2) ∧
  (∀ id' c' k', containers demo_daemon !! id' = Some c' → store demo_daemon !! c' = Some k' → Name k' = "/focused_turing" → c' = 2) ∧
  ∀ id', id' ≠ "90cd" → (reserveName (fun n => n) demo_daemon id' "/focused_turing").2 = Err (ErrConflict "/focused_turing" "90cd").
Proof.
  apply (containers_named (fun n => n) demo_daemon "90cd" 2 {| ID := "90cd"; Name := "/focused_turing"; Running := false |}).
  - apply demo_reachable.
  - vm_compute. reflexivity.
  - vm_compute. reflexivity.
Defined.

Lemma rename_to_itself_witness :
  let '(d', e) := ContainerRename (fun n => n) None None demo_daemon "4fa6" "/web" in
  e = None ∧ store d' !! 1 = Some {| ID := "4fa6"; Name := "/web"; Running := false |} ∧ containers d' !! "4fa6" = Some 1 ∧
  ∀ id', (reserveName (fun n => n) d' id' "/web").2 = Ok "/web".
Proof.
  apply (rename_to_itself (fun n => n) demo_daemon "4fa6" 1 {| ID := "4fa6"; Name := "/web"; Running := false |}).
  - apply demo_reachable.
  - vm_compute. reflexivity.
  - vm_compute. reflexivity.
Defined.
