(* ===== verification/Transfer.v ===== *)
(** * Transfer: the scheduler of layer downloads and uploads

    [src/distribution/xfer/transfer.go] with the transfer functions of
    [src/distribution/xfer/download.go] and [src/distribution/xfer/upload.go].
    The transfer manager runs at most [concurrencyLimit] transfers at a time, lets
    the others wait in a queue, and joins a second request for a key to the
    transfer in progress.  A transfer that only waits for the layers below its own
    gives its slot back by closing [inactive].

    The state is what the two mutexes protect; a step is what a goroutine does
    while it holds one, so every interleaving of the goroutines is a sequence of
    steps.  The work of a transfer function is its phases: [<-start], the transfer
    itself, the wait for the transfers it depends on, the registration, and the
    closing of the progress channel, which ends [Broadcast].  The goroutines that
    copy progress messages to the watchers are left out. *)

From S2P Require Import Prelude.

Module Transfer.

Abbreviation tid := nat.

(** Where a transfer function is. *)
Inductive phase := PStart | PTransfer | PParents | PRegister | PFinished.
#[global] Instance phase_eq_dec : EqDecision phase.
Proof. solve_decision. Defined.

(** [type transfer struct], the channels [start] and [inactive], and the progress
    of the two goroutines that [Transfer] starts. *)
Record xfer := {
  key : gostring;
  deps : list tid;             (** the downloads it waits for *)
  started : bool;              (** [start] is closed *)
  at_phase : phase;
  inactive : bool;             (** [inactive] is closed *)
  handled : bool;              (** the manager has taken the slot back *)
  done : bool;                 (** [running] is closed *)
  removed : bool;              (** no longer in the map *)
  closed : bool;               (** [Close] has been called *)
  watchers : nat;
  cancelled : bool;
  released : bool;
}.

Record transferManager := {
  concurrencyLimit : Z;
  activeTransfers : Z;
  transfers : gmap gostring tid;
  waitingTransfers : list tid;
  xs : gmap tid xfer;
  next : tid;
}.

Definition NewTransferManager (limit : Z) : transferManager :=
  {| concurrencyLimit := limit; activeTransfers := 0; transfers := ∅; waitingTransfers := []; xs := ∅; next := 0 |}.

Definition set_phase (p : phase) (x : xfer) : xfer :=
  {| key := key x; deps := deps x; started := started x; at_phase := p; inactive := inactive x; handled := handled x; done := done x;
     removed := removed x; closed := closed x; watchers := watchers x; cancelled := cancelled x; released := released x |}.
Definition set_started (x : xfer) : xfer :=
  {| key := key x; deps := deps x; started := true; at_phase := at_phase x; inactive := inactive x; handled := handled x; done := done x;
     removed := removed x; closed := closed x; watchers := watchers x; cancelled := cancelled x; released := released x |}.
Definition set_inactive (x : xfer) : xfer :=
  {| key := key x; deps := deps x; started := started x; at_phase := at_phase x; inactive := true; handled := handled x; done := done x;
     removed := removed x; closed := closed x; watchers := watchers x; cancelled := cancelled x; released := released x |}.
Definition set_handled (x : xfer) : xfer :=
  {| key := key x; deps := deps x; started := started x; at_phase := at_phase x; inactive := inactive x; handled := true; done := done x;
     removed := removed x; closed := closed x; watchers := watchers x; cancelled := cancelled x; released := released x |}.
Definition set_done (x : xfer) : xfer :=
  {| key := key x; deps := deps x; started := started x; at_phase := at_phase x; inactive := inactive x; handled := handled x; done := true;
     removed := removed x; closed := closed x; watchers := watchers x; cancelled := cancelled x; released := released x |}.
Definition set_removed (x : xfer) : xfer :=
  {| key := key x; deps := deps x; started := started x; at_phase := at_phase x; inactive := inactive x; handled := handled x; done := done x;
     removed := true; closed := closed x; watchers := watchers x; cancelled := cancelled x; released := released x |}.
Definition set_watch (n : nat) (c r cl : bool) (x : xfer) : xfer :=
  {| key := key x; deps := deps x; started := started x; at_phase := at_phase x; inactive := inactive x; handled := handled x; done := done x;
     removed := removed x; closed := cl; watchers := n; cancelled := c; released := r |}.

(** [Watch], [Release] and [Close] of a transfer. *)
Definition Watch (x : xfer) : xfer := set_watch (S (watchers x)) (cancelled x) (released x) (closed x) x.
Definition Release (x : xfer) : xfer :=
  let n := watchers x - 1 in
  if bool_decide (n = 0)
  then if closed x then set_watch n (cancelled x) true (closed x) x else set_watch n true (released x) (closed x) x
  else set_watch n (cancelled x) (released x) (closed x) x.
Definition Close (x : xfer) : xfer :=
  set_watch (watchers x) (cancelled x) (if bool_decide (watchers x = 0) then true else released x) true x.

Definition upd (t : tid) (f : xfer → xfer) (m : transferManager) : transferManager :=
  {| concurrencyLimit := concurrencyLimit m; activeTransfers := activeTransfers m; transfers := transfers m;
     waitingTransfers := waitingTransfers m; xs := alter f t (xs m); next := next m |}.

(** [inactivate]: the slot goes to the first transfer that waits. *)
Definition inactivate (m : transferManager) (t : tid) : transferManager :=
  match xs m !! t with
  | Some x =>
      if started x then
        match waitingTransfers m with
        | s :: rest =>
            upd s set_started
              {| concurrencyLimit := concurrencyLimit m; activeTransfers := activeTransfers m; transfers := transfers m;
                 waitingTransfers := rest; xs := xs m; next := next m |}
        | [] =>
            {| concurrencyLimit := concurrencyLimit m; activeTransfers := activeTransfers m - 1; transfers := transfers m;
               waitingTransfers := []; xs := xs m; next := next m |}
        end
      else m
  | None => m
  end.

(** One round of the loop of [Transfer] for a key: the caller joins the transfer in
    progress, or has to wait for a cancelled one, or starts a new one. *)
Inductive outcome := Joined (t : tid) | Wait (t : tid) | Started (t : tid).

Definition new_xfer (k : gostring) (ds : list tid) (start : bool) : xfer :=
  {| key := k; deps := ds; started := start; at_phase := PStart; inactive := false; handled := false; done := false;
     removed := false; closed := false; watchers := 0; cancelled := false; released := false |}.

Definition request (m : transferManager) (k : gostring) (ds : list tid) : transferManager * outcome :=
  match transfers m !! k with
  | Some t =>
      let m := upd t Watch m in
      if from_option cancelled false (xs m !! t) then (upd t Release m, Wait t) else (m, Joined t)
  | None =>
      let t := next m in
      let run := (activeTransfers m <? concurrencyLimit m)%Z in
      ({| concurrencyLimit := concurrencyLimit m;
          activeTransfers := if run then activeTransfers m + 1 else activeTransfers m;
          transfers := <[k := t]> (transfers m);
          waitingTransfers := if run then waitingTransfers m else waitingTransfers m ++ [t];
          xs := <[t := Watch (new_xfer k ds run)]> (xs m);
          next := S t |}, Started t)
  end.

(** The two branches of the goroutine that waits for a transfer. *)
Definition on_inactive (m : transferManager) (t : tid) : transferManager := upd t set_handled (inactivate m t).
Definition on_done (m : transferManager) (t : tid) : transferManager :=
  match xs m !! t with
  | None => m
  | Some x =>
      let m := if handled x then m else inactivate m t in
      let m := upd t (set_removed ∘ set_handled) m in
      {| concurrencyLimit := concurrencyLimit m; activeTransfers := activeTransfers m; transfers := delete (key x) (transfers m);
         waitingTransfers := waitingTransfers m; xs := xs m; next := next m |}
  end.

(** What the goroutines of a transfer do: the transfer function, [Broadcast], the
    manager's goroutine. *)
Inductive internal : transferManager → transferManager → Prop :=
| i_begin m t x : xs m !! t = Some x → at_phase x = PStart → started x = true → internal m (upd t (set_phase PTransfer) m)
| i_transferred m t x : xs m !! t = Some x → at_phase x = PTransfer → internal m (upd t (set_phase PParents ∘ set_inactive) m)
(** an upload that is complete, a failure, a cancellation *)
| i_ends m t x : xs m !! t = Some x → at_phase x = PTransfer → internal m (upd t (set_phase PFinished) m)
(** the select on the context and on the downloads below: it goes on when they are all
    done, and otherwise only when the transfer is cancelled *)
| i_parents m t x : xs m !! t = Some x → at_phase x = PParents →
    (∀ d, d ∈ deps x → from_option done false (xs m !! d) = true) → internal m (upd t (set_phase PRegister) m)
| i_cancelled m t x : xs m !! t = Some x → at_phase x = PParents → cancelled x = true → internal m (upd t (set_phase PFinished) m)
(** the registration ends, well or not; a download below that failed is one of the ways *)
| i_registered m t x : xs m !! t = Some x → at_phase x = PRegister → internal m (upd t (set_phase PFinished) m)
| i_broadcast m t x : xs m !! t = Some x → at_phase x = PFinished → done x = false → internal m (upd t set_done m)
| i_inactive m t x : xs m !! t = Some x → inactive x = true → handled x = false → removed x = false → internal m (on_inactive m t)
| i_done m t x : xs m !! t = Some x → done x = true → removed x = false → internal m (on_done m t)
| i_close m t x : xs m !! t = Some x → removed x = true → closed x = false → internal m (upd t Close m).

(** What clients do. *)
Inductive external : transferManager → transferManager → Prop :=
| e_request m k ds : Forall (fun d => d < next m) ds → external m (request m k ds).1
| e_release m t x : xs m !! t = Some x → 0 < watchers x → external m (upd t Release m).

Definition step (m m' : transferManager) : Prop := internal m m' ∨ external m m'.

(** ** The retries of a download or an upload *)

Inductive attempt := Success | Failure (doNotRetry : bool) (cancelled : bool).
Inductive final := Transferred | GaveUp | Cancelled.

Definition maxDownloadAttempts : nat := 5.
Definition maxUploadAttempts : nat := 5.

(** The loop, with the number of [retries] so far; [cancel r] says whether the
    context is cancelled during the delay after retry [r].  The delays add up to
    the last component, in seconds. *)
Fixpoint attempts (maxAttempts : nat) (cancel : nat → bool) (retries : nat) (results : list attempt) (waited : nat)
    : option (final * nat * nat) :=
  match results with
  | [] => None
  | r :: results =>
      match r with
      | Success => Some (Transferred, S retries, waited)
      | Failure doNotRetry cancelled =>
          if cancelled then Some (Cancelled, S retries, waited)
          else
            let retries := S retries in
            if doNotRetry || bool_decide (retries = maxAttempts) then Some (GaveUp, retries, waited)
            else if cancel retries then Some (Cancelled, retries, waited)
            else attempts maxAttempts cancel retries results (waited + retries * 5)
      end
  end.

End Transfer.

Import Transfer.

(** ** Sums over the transfers *)

Definition wsum (f : xfer → nat) (m : gmap tid xfer) : nat := map_fold (fun _ x acc => f x + acc) 0 m.

Lemma wsum_insert f m t x : m !! t = None → wsum f (<[t := x]> m) = f x + wsum f m.
Proof. intros H. unfold wsum. rewrite map_fold_insert_L; [done| |done]. intros. lia. Qed.

Lemma wsum_alter f g m t x : m !! t = Some x → wsum f (alter g t m) + f x = wsum f m + f (g x).
Proof.
  intros H. rewrite <-(insert_delete_id m t x H) at 2. rewrite wsum_insert by apply lookup_delete_eq.
  assert (alter g t m = <[t := g x]> (delete t m)) as ->.
  { apply map_eq. intros i. destruct (decide (i = t)) as [->|Hi].
    - by rewrite lookup_alter_eq, H, lookup_insert_eq.
    - by rewrite lookup_alter_ne, lookup_insert_ne, lookup_delete_ne. }
  rewrite wsum_insert by apply lookup_delete_eq. lia.
Qed.

Lemma wsum_pos f m : 0 < wsum f m → ∃ t x, m !! t = Some x ∧ 0 < f x.
Proof.
  induction m as [|t x m Ht IH] using map_ind; [unfold wsum; rewrite map_fold_empty; lia|].
  rewrite wsum_insert by done. intros H. destruct (decide (0 < f x)).
  - exists t, x. by rewrite lookup_insert_eq.
  - destruct IH as (t' & x' & Hx & Hf); [lia|]. exists t', x'. rewrite lookup_insert_ne; [done|congruence].
Qed.

(** ** The invariant *)

(** Each transfer by itself. *)
Record xfer_ok (x : xfer) : Prop := {
  ok_started : at_phase x ≠ PStart → started x = true;
  ok_inactive : at_phase x = PParents ∨ at_phase x = PRegister → inactive x = true;
  ok_active : inactive x = true → at_phase x ≠ PStart ∧ at_phase x ≠ PTransfer;
  ok_done : done x = true → at_phase x = PFinished;
  ok_handled : handled x = true → inactive x = true ∨ done x = true;
  ok_removed : removed x = true → done x = true ∧ handled x = true;
  ok_closed : closed x = true → removed x = true;
  ok_watched : cancelled x = true → watchers x = 0;
  ok_released : released x = true ↔ closed x = true ∧ watchers x = 0;
}.

(** A transfer holds a slot. *)
Definition holds (x : xfer) : nat := if started x && negb (handled x) then 1 else 0.

Record inv (m : transferManager) : Prop := {
  inv_xfer t x : xs m !! t = Some x → xfer_ok x;
  inv_next t : is_Some (xs m !! t) ↔ t < next m;
  inv_deps t x : xs m !! t = Some x → Forall (fun d => d < t) (deps x);
  inv_waiting t : t ∈ waitingTransfers m ↔ ∃ x, xs m !! t = Some x ∧ started x = false;
  inv_nodup : NoDup (waitingTransfers m);
  inv_active : activeTransfers m = Z.of_nat (wsum holds (xs m));
  inv_limit : (activeTransfers m <= Z.max 0 (concurrencyLimit m))%Z;
  inv_full : waitingTransfers m ≠ [] → (concurrencyLimit m <= activeTransfers m)%Z;
  inv_keys k t : transfers m !! k = Some t ↔ ∃ x, xs m !! t = Some x ∧ removed x = false ∧ key x = k;
}.

(** A change of one transfer that does not touch its slot, its key or its place in
    the map. *)
Definition keeps (f : xfer → xfer) (x : xfer) : Prop :=
  started (f x) = started x ∧ handled (f x) = handled x ∧ key (f x) = key x ∧ deps (f x) = deps x ∧ removed (f x) = removed x ∧ xfer_ok (f x).

Lemma upd_lookup m t f t' x' :
  xs (upd t f m) !! t' = Some x' ↔ (t' = t ∧ ∃ x, xs m !! t = Some x ∧ x' = f x) ∨ (t' ≠ t ∧ xs m !! t' = Some x').
Proof.
  simpl. destruct (decide (t' = t)) as [->|Hne].
  - rewrite lookup_alter_eq, fmap_Some. naive_solver.
  - rewrite lookup_alter_ne by done. naive_solver.
Qed.

Lemma upd_is_Some m t f t' : is_Some (xs (upd t f m) !! t') ↔ is_Some (xs m !! t').
Proof. apply lookup_alter_is_Some. Qed.

Lemma inv_keeps m t x f : inv m → xs m !! t = Some x → keeps f x → inv (upd t f m).
Proof.
  intros H Hx (Hst & Hh & Hk & Hd & Hr & Hok). split.
  - intros t' x' [(-> & x0 & H0 & ->)|[_ H']]%upd_lookup; [|by eapply (inv_xfer _ H)]. congruence.
  - intros t'. rewrite upd_is_Some. apply (inv_next _ H).
  - intros t' x' [(-> & x0 & H0 & ->)|[_ H']]%upd_lookup; [|by eapply (inv_deps _ H)].
    assert (x0 = x) as -> by congruence. rewrite Hd. by apply (inv_deps _ H).
  - intros t'. cbn [upd waitingTransfers]. rewrite (inv_waiting _ H). setoid_rewrite upd_lookup.
    destruct (decide (t' = t)) as [->|Hne]; [|naive_solver]. split.
    + intros (x0 & H0 & Hs). assert (x0 = x) as -> by congruence. exists (f x). rewrite Hst. eauto 10.
    + intros (x0 & [(_ & x1 & H1 & ->)|[? ?]] & Hs); [|done]. assert (x1 = x) as -> by congruence. exists x. by rewrite <-Hst.
  - apply (inv_nodup _ H).
  - simpl. rewrite (inv_active _ H). pose proof (wsum_alter holds f (xs m) t x Hx) as Hw.
    assert (holds (f x) = holds x) as Heq by (unfold holds; by rewrite Hst, Hh). lia.
  - apply (inv_limit _ H).
  - apply (inv_full _ H).
  - intros k t'. cbn [upd transfers]. rewrite (inv_keys _ H). setoid_rewrite upd_lookup.
    destruct (decide (t' = t)) as [->|Hne]; [|naive_solver]. split.
    + intros (x0 & H0 & Hs). assert (x0 = x) as -> by congruence. exists (f x). rewrite Hr, Hk. eauto 10.
    + intros (x0 & [(_ & x1 & H1 & ->)|[? ?]] & Hs); [|done]. assert (x1 = x) as -> by congruence. exists x. by rewrite <-Hr, <-Hk.
Qed.

(** The steps inside a transfer. *)
Lemma keeps_begin x : xfer_ok x → at_phase x = PStart → started x = true → keeps (set_phase PTransfer) x.
Proof. intros [] **. split_and!; [done..|]. split; simpl; intuition congruence. Qed.
Lemma keeps_transferred x : xfer_ok x → at_phase x = PTransfer → keeps (set_phase PParents ∘ set_inactive) x.
Proof. intros [] **. split_and!; [done..|]. split; simpl; intuition congruence. Qed.
Lemma keeps_ends x : xfer_ok x → at_phase x = PTransfer ∨ at_phase x = PParents ∨ at_phase x = PRegister → keeps (set_phase PFinished) x.
Proof. intros [] **. split_and!; [done..|]. split; simpl; intuition congruence. Qed.
Lemma keeps_parents x : xfer_ok x → at_phase x = PParents → keeps (set_phase PRegister) x.
Proof. intros [] **. split_and!; [done..|]. split; simpl; intuition congruence. Qed.
Lemma keeps_broadcast x : xfer_ok x → at_phase x = PFinished → keeps set_done x.
Proof. intros [] **. split_and!; [done..|]. split; simpl; intuition congruence. Qed.
Lemma keeps_close x : xfer_ok x → removed x = true → closed x = false → keeps Close x.
Proof. intros [] Hr Hc. split_and!; [done..|]. split; simpl; try case_bool_decide; intuition congruence. Qed.
Lemma keeps_watch x : xfer_ok x → removed x = false → cancelled x = false → keeps Watch x.
Proof. intros [] Hr Hc. split_and!; [done..|]. split; simpl; intuition congruence. Qed.
Lemma keeps_release x : xfer_ok x → 0 < watchers x → keeps Release x.
Proof.
  intros [] Hw. unfold keeps, Release. case_bool_decide as Hn; [destruct (closed x) eqn:Ec|]; (split_and!; [done..|]; split; simpl; intuition (congruence || lia)).
Qed.
Lemma keeps_rejoin x : xfer_ok x → removed x = false → cancelled x = true → keeps (Release ∘ Watch) x.
Proof.
  intros [] Hr Hc. unfold keeps, compose, Release, Watch. simpl. rewrite Nat.sub_0_r.
  assert (watchers x = 0) as Hw by auto. rewrite Hw. rewrite bool_decide_eq_true_2 by done.
  destruct (closed x) eqn:Ec; (split_and!; [done..|]; split; simpl; intuition congruence).
Qed.

(** ** Slots *)

Lemma handled_started x : xfer_ok x → inactive x = true ∨ done x = true → started x = true.
Proof.
  intros [] [H|H]; apply ok_started0.
  - by apply ok_active0.
  - rewrite ok_done0 by done. done.
Qed.

Lemma on_inactive_lookup m t x t' x' :
  xs m !! t = Some x → started x = true → ¬ t ∈ waitingTransfers m →
  xs (on_inactive m t) !! t' = Some x' ↔ ∃ x0, xs m !! t' = Some x0 ∧
    x' = (if decide (t' = t) then set_handled x0 else if decide (head (waitingTransfers m) = Some t') then set_started x0 else x0).
Proof.
  intros Hx Hs Hnot. unfold on_inactive. rewrite upd_lookup. unfold inactivate. rewrite Hx, Hs.
  destruct (waitingTransfers m) as [|s rest]; cbn [head].
  - cbn [xs]. destruct (decide (t' = t)) as [->|]; naive_solver.
  - setoid_rewrite upd_lookup. cbn [xs]. assert (t ≠ s) as Hts by set_solver.
    destruct (decide (t' = t)) as [->|Hne]; [naive_solver|].
    destruct (decide (Some s = Some t')) as [[= ->]|Hs']; naive_solver congruence.
Qed.

Lemma on_inactive_fields m t x :
  xs m !! t = Some x → started x = true →
  waitingTransfers (on_inactive m t) = tail (waitingTransfers m) ∧
  activeTransfers (on_inactive m t) = (if waitingTransfers m is [] then activeTransfers m - 1 else activeTransfers m)%Z ∧
  concurrencyLimit (on_inactive m t) = concurrencyLimit m ∧ transfers (on_inactive m t) = transfers m ∧ next (on_inactive m t) = next m.
Proof.
  intros Hx Hs. unfold on_inactive, inactivate. rewrite Hx, Hs. by destruct (waitingTransfers m).
Qed.

Lemma on_inactive_holds m t x :
  inv m → xs m !! t = Some x → started x = true → handled x = false →
  Z.of_nat (wsum holds (xs (on_inactive m t))) = activeTransfers (on_inactive m t).
Proof.
  intros H Hx Hs Hh. unfold on_inactive, inactivate. rewrite Hx, Hs.
  assert (holds x = 1 ∧ holds (set_handled x) = 0) as [H1 H0].
  { unfold holds. simpl. by rewrite Hs, Hh. }
  destruct (waitingTransfers m) as [|s rest] eqn:Ew; cbn [upd xs activeTransfers].
  - pose proof (wsum_alter holds set_handled (xs m) t x Hx). rewrite (inv_active _ H). lia.
  - destruct (proj1 (inv_waiting _ H s)) as (y & Hy & Hys); [rewrite Ew; set_solver|].
    assert (t ≠ s) as Hts by congruence.
    assert (holds y = 0 ∧ holds (set_started y) = 1) as [Hy0 Hy1].
    { unfold holds. simpl. rewrite Hys. split; [done|]. destruct (handled y) eqn:E; [|done].
      pose proof (inv_xfer _ H _ _ Hy) as Hok. pose proof (ok_handled _ Hok E). by rewrite (handled_started y) in Hys. }
    pose proof (wsum_alter holds set_started (xs m) s y Hy).
    pose proof (wsum_alter holds set_handled (alter set_started s (xs m)) t x) as Hw.
    rewrite lookup_alter_ne in Hw by done. specialize (Hw Hx). rewrite (inv_active _ H). lia.
Qed.

Lemma set_handled_ok x : xfer_ok x → inactive x = true ∨ done x = true → xfer_ok (set_handled x).
Proof. intros [] ?. split; simpl; intuition congruence. Qed.
Lemma set_started_ok x : xfer_ok x → xfer_ok (set_started x).
Proof. intros []. split; simpl; intuition congruence. Qed.

(** Taking a slot back: the first of the queue has it, or it is free. *)
Lemma inv_on_inactive m t x :
  inv m → xs m !! t = Some x → handled x = false → inactive x = true ∨ done x = true → inv (on_inactive m t).
Proof.
  intros H Hx Hh Hi. pose proof (inv_xfer _ H _ _ Hx) as Hok. pose proof (handled_started x Hok Hi) as Hs.
  assert (t ∉ waitingTransfers m) as Hnot by (rewrite (inv_waiting _ H); intros (y & Hy & Hys); congruence).
  pose proof (fun t' x' => on_inactive_lookup m t x t' x' Hx Hs Hnot) as Hl.
  destruct (on_inactive_fields m t x Hx Hs) as (Hw & Ha & Hlim & Htr & Hnx).
  split; rewrite ?Hw, ?Hlim, ?Htr, ?Hnx.
  - intros t' x' (x0 & H0 & ->)%Hl. pose proof (inv_xfer _ H _ _ H0). repeat case_decide; subst; auto using set_started_ok.
    apply set_handled_ok; [done|]. congruence.
  - intros t'. rewrite <-(inv_next _ H). split.
    + intros [x' (x0 & H0 & _)%Hl]. eauto.
    + intros [x0 H0]. eexists. apply Hl. eauto.
  - intros t' x' (x0 & H0 & ->)%Hl. pose proof (inv_deps _ H _ _ H0). by repeat case_decide.
  - intros t'. setoid_rewrite Hl. pose proof (inv_nodup _ H) as Hnd. pose proof (inv_waiting _ H t') as Hwt.
    destruct (waitingTransfers m) as [|s rest] eqn:Ew; cbn [head tail] in *.
    + rewrite Hwt. split.
      * intros (y & Hy & Hys). eexists. split; [eauto|]. rewrite decide_False; [done|congruence].
      * intros (? & (y & Hy & ->) & Hys). exists y. split; [done|]. by case_decide.
    + apply NoDup_cons in Hnd as [Hsr _]. split.
      * intros Hin. assert (t' ≠ s) by set_solver. destruct (proj1 Hwt) as (y & Hy & Hys); [set_solver|].
        eexists. split; [eauto|]. rewrite !decide_False by congruence. done.
      * intros (? & (y & Hy & ->) & Hys). assert (t' ∈ s :: rest) as Hin.
        { apply Hwt. exists y. split; [done|]. repeat case_decide; simpl in *; congruence. }
        apply elem_of_cons in Hin as [->|]; [|done]. exfalso. revert Hys. rewrite decide_False by set_solver.
        by rewrite decide_True.
  - pose proof (inv_nodup _ H). destruct (waitingTransfers m); [done|]. by apply NoDup_cons in H0 as [_ ?].
  - symmetry. by eapply on_inactive_holds.
  - pose proof (inv_limit _ H). rewrite Ha. destruct (waitingTransfers m); lia.
  - intros Hne. pose proof (inv_full _ H) as Hf. rewrite Ha. destruct (waitingTransfers m) as [|s rest]; [done|]. by apply Hf.
  - intros k t'. rewrite (inv_keys _ H). setoid_rewrite Hl. split.
    + intros (x0 & H0 & Hr & Hk). eexists. split; [eauto|]. by repeat case_decide.
    + intros (? & (x0 & H0 & ->) & Hr & Hk). exists x0. split; [done|]. by repeat case_decide.
Qed.

(** A finished transfer leaves the map. *)
Definition remove (m : transferManager) (t : tid) (k : gostring) : transferManager :=
  let m := upd t set_removed m in
  {| concurrencyLimit := concurrencyLimit m; activeTransfers := activeTransfers m; transfers := delete k (transfers m);
     waitingTransfers := waitingTransfers m; xs := xs m; next := next m |}.

Lemma inv_remove m t x : inv m → xs m !! t = Some x → handled x = true → done x = true → removed x = false → inv (remove m t (key x)).
Proof.
  intros H Hx Hh Hd Hr. pose proof (inv_xfer _ H _ _ Hx) as Hok.
  assert (∀ t' x', xs (remove m t (key x)) !! t' = Some x' ↔ ∃ x0, xs m !! t' = Some x0 ∧ x' = if decide (t' = t) then set_removed x0 else x0) as Hl.
  { intros t' x'. unfold remove. cbn [xs]. rewrite upd_lookup. case_decide as E; [subst|]; naive_solver. }
  split; cbn [remove upd concurrencyLimit activeTransfers waitingTransfers transfers next].
  - intros t' x' (x0 & H0 & ->)%Hl. pose proof (inv_xfer _ H _ _ H0) as Hok0. case_decide as E; [|done]. subst.
    assert (x0 = x) as -> by congruence. destruct Hok. split; simpl; intuition congruence.
  - intros t'. rewrite <-(inv_next _ H). split.
    + intros [x' (x0 & H0 & _)%Hl]. eauto.
    + intros [x0 H0]. eexists. apply Hl. eauto.
  - intros t' x' (x0 & H0 & ->)%Hl. pose proof (inv_deps _ H _ _ H0). by case_decide.
  - intros t'. rewrite (inv_waiting _ H). setoid_rewrite Hl. split.
    + intros (y & Hy & Hs). eexists. split; [eauto|]. by case_decide.
    + intros (? & (y & Hy & ->) & Hs). exists y. split; [done|]. by case_decide.
  - apply (inv_nodup _ H).
  - unfold remove. cbn [upd xs]. pose proof (wsum_alter holds set_removed (xs m) t x Hx) as Hw. rewrite (inv_active _ H).
    change (holds (set_removed x)) with (holds x) in Hw. lia.
  - apply (inv_limit _ H).
  - apply (inv_full _ H).
  - intros k t'. rewrite lookup_delete_Some, (inv_keys _ H). setoid_rewrite Hl. split.
    + intros [Hne (x0 & H0 & Hr0 & <-)]. eexists. split; [eauto|]. rewrite decide_False; [done|]. intros ->. congruence.
    + intros (? & (x0 & H0 & ->) & Hr0 & Hk). case_decide as E; [done|]. subst k. split; [|eauto].
      intros Hk. apply E. assert (transfers m !! key x = Some t) as H1 by (apply (inv_keys _ H); eauto).
      assert (transfers m !! key x0 = Some t') as H2 by (apply (inv_keys _ H); eauto). congruence.
Qed.

Lemma on_done_alt m t x :
  xs m !! t = Some x → started x = true → ¬ t ∈ waitingTransfers m →
  on_done m t = remove (if handled x then m else on_inactive m t) t (key x).
Proof.
  intros Hx Hs Hnot. unfold on_done. rewrite Hx. unfold remove. destruct (handled x) eqn:Eh.
  - simpl. f_equal. apply map_eq. intros i. destruct (decide (i = t)) as [->|]; [|by rewrite !lookup_alter_ne].
    rewrite !lookup_alter_eq, Hx. simpl. do 2 f_equal. destruct x; simpl in *. by subst.
  - unfold on_inactive. simpl. f_equal. by rewrite alter_alter_eq.
Qed.

Lemma inv_on_done m t x : inv m → xs m !! t = Some x → done x = true → removed x = false → inv (on_done m t).
Proof.
  intros H Hx Hd Hr. pose proof (inv_xfer _ H _ _ Hx) as Hok. pose proof (handled_started x Hok (or_intror Hd)) as Hs.
  assert (t ∉ waitingTransfers m) as Hnot by (rewrite (inv_waiting _ H); intros (y & Hy & Hys); congruence).
  rewrite (on_done_alt m t x) by done. destruct (handled x) eqn:Eh; [by apply inv_remove|].
  assert (xs (on_inactive m t) !! t = Some (set_handled x)) as Hx'.
  { apply (on_inactive_lookup m t x); [done..|]. exists x. by rewrite decide_True. }
  apply (inv_remove (on_inactive m t) t (set_handled x)); try done. apply (inv_on_inactive m t x); auto.
Qed.

Lemma new_xfer_ok k ds run : xfer_ok (Watch (new_xfer k ds run)).
Proof. split; simpl; intuition congruence. Qed.

Lemma inv_request m k ds : inv m → Forall (fun d => d < next m) ds → inv (request m k ds).1.
Proof.
  intros H Hds. unfold request. destruct (transfers m !! k) as [t|] eqn:Ek.
  - apply (inv_keys _ H) in Ek as (x & Hx & Hr & _). pose proof (inv_xfer _ H _ _ Hx) as Hok.
    simpl. rewrite lookup_alter_eq, Hx. simpl. destruct (cancelled x) eqn:Ec; simpl.
    + assert (upd t Release (upd t Watch m) = upd t (Release ∘ Watch) m) as ->.
      { unfold upd. simpl. f_equal. apply alter_alter_eq. }
      by apply (inv_keeps m t x); [done..|apply keeps_rejoin].
    + by apply (inv_keeps m t x); [done..|apply keeps_watch].
  - set (run := (activeTransfers m <? concurrencyLimit m)%Z).
    assert (xs m !! next m = None) as Hnew.
    { apply eq_None_not_Some. rewrite (inv_next _ H). lia. }
    assert (∀ t' x', <[next m := Watch (new_xfer k ds run)]> (xs m) !! t' = Some x' ↔
      t' = next m ∧ x' = Watch (new_xfer k ds run) ∨ t' ≠ next m ∧ xs m !! t' = Some x') as Hl.
    { intros t' x'. rewrite lookup_insert_Some. naive_solver. }
    split; simpl.
    + intros t' x' [[-> ->]|[_ Hx']]%Hl; [apply new_xfer_ok|by eapply (inv_xfer _ H)].
    + intros t'. rewrite lookup_insert_is_Some', (inv_next _ H). lia.
    + intros t' x' [[-> ->]|[_ Hx']]%Hl; [done|by eapply (inv_deps _ H)].
    + intros t'. setoid_rewrite Hl. pose proof (inv_waiting _ H t') as Hw.
      assert (t' ∈ waitingTransfers m → t' ≠ next m) as Hne by (intros (y & Hy & _)%Hw; congruence).
      destruct run; [|rewrite elem_of_app, list_elem_of_singleton]; naive_solver.
    + destruct run; [apply (inv_nodup _ H)|]. apply NoDup_app. split_and!; [apply (inv_nodup _ H)| |apply NoDup_singleton].
      intros t' (y & Hy & _)%(inv_waiting _ H) ->%list_elem_of_singleton. congruence.
    + rewrite wsum_insert by done. rewrite (inv_active _ H).
      assert (holds (Watch (new_xfer k ds run)) = if run then 1 else 0) as -> by (by destruct run). destruct run; lia.
    + pose proof (inv_limit _ H). pose proof (Z.ltb_spec (activeTransfers m) (concurrencyLimit m)) as Hlt. fold run in Hlt.
      destruct Hlt; lia.
    + pose proof (Z.ltb_spec (activeTransfers m) (concurrencyLimit m)) as Hlt. fold run in Hlt.
      destruct Hlt as [Hlt|Hlt]; [|lia]. intros Hne. pose proof (inv_full _ H Hne). lia.
    + intros k' t'. rewrite lookup_insert_Some, (inv_keys _ H). setoid_rewrite Hl. split.
      * intros [[<- <-]|[Hk (x0 & H0 & Hr & Hk')]]; [eexists; split; [left; done|done]|].
        exists x0. split; [right; split; [congruence|done]|done].
      * intros (x0 & [[-> ->]|[Hne Hx0]] & Hr & Hk'); [by left|right]. split; [|eauto].
        intros ->. assert (transfers m !! k' = Some t') by (apply (inv_keys _ H); eauto). congruence.
Qed.

Lemma inv_internal m m' : inv m → internal m m' → inv m'.
Proof.
  intros H Hs. destruct Hs as [m t x Hx|m t x Hx|m t x Hx|m t x Hx|m t x Hx|m t x Hx|m t x Hx|m t x Hx|m t x Hx|m t x Hx];
    pose proof (inv_xfer _ H _ _ Hx) as Hok.
  - apply (inv_keeps m t x); auto using keeps_begin.
  - apply (inv_keeps m t x); auto using keeps_transferred.
  - apply (inv_keeps m t x); auto using keeps_ends.
  - apply (inv_keeps m t x); auto using keeps_parents.
  - apply (inv_keeps m t x); auto. apply keeps_ends; tauto.
  - apply (inv_keeps m t x); auto. apply keeps_ends; tauto.
  - apply (inv_keeps m t x); auto using keeps_broadcast.
  - eapply inv_on_inactive; eauto.
  - eapply inv_on_done; eauto.
  - apply (inv_keeps m t x); auto using keeps_close.
Qed.

Lemma inv_step m m' : inv m → step m m' → inv m'.
Proof.
  intros H [Hs|Hs]; [by eapply inv_internal|]. destruct Hs as [m k ds Hds|m t x Hx Hw]; [by apply inv_request|].
  apply (inv_keeps m t x); [done..|]. apply keeps_release; [|done]. by apply (inv_xfer _ H _ _ Hx).
Qed.

Lemma manager_inv_new limit : inv (NewTransferManager limit).
Proof.
  split; simpl; try done.
  - intros t. rewrite lookup_empty. split; [by intros [? ?]|lia].
  - intros t. rewrite elem_of_nil. split; [done|]. by intros (x & Hx & _).
  - apply NoDup_nil_2.
  - lia.
  - intros k t. rewrite lookup_empty. split; [done|]. by intros (x & Hx & _).
Qed.

Lemma limit_step m m' : inv m → step m m' → concurrencyLimit m' = concurrencyLimit m.
Proof.
  intros H [Hs|Hs].
  - destruct Hs; try done.
    + unfold on_inactive, inactivate. repeat case_match; done.
    + unfold on_done, inactivate. repeat case_match; done.
  - destruct Hs; [|done]. unfold request. repeat case_match; done.
Qed.

Lemma manager_reachable_inv limit m : rtc step (NewTransferManager limit) m → inv m ∧ concurrencyLimit m = limit.
Proof.
  assert (∀ x, rtc step x m → inv x → inv m ∧ concurrencyLimit m = concurrencyLimit x) as H.
  { induction 1 as [|x y z Hs _ IH]; [done|]. intros Hx. pose proof (inv_step _ _ Hx Hs) as Hy.
    rewrite <-(limit_step x y Hx Hs). auto. }
  intros Hr. apply (H _ Hr (manager_inv_new limit)).
Qed.

(** C7: the manager's count is exact in every interleaving: [activeTransfers] is the
    number of transfers that have been started and have not given their slot back,
    it never exceeds the limit, a transfer waits only while the limit is reached,
    and two requests for one key never run at the same time. *)
Theorem slots_exact (limit : Z) (m : transferManager) :
  rtc step (NewTransferManager limit) m →
  activeTransfers m = Z.of_nat (wsum holds (xs m)) ∧
  (activeTransfers m <= Z.max 0 limit)%Z ∧
  (waitingTransfers m ≠ [] → (limit <= activeTransfers m)%Z) ∧
  (∀ t, t ∈ waitingTransfers m ↔ ∃ x, xs m !! t = Some x ∧ started x = false) ∧
  (∀ t x t' x', xs m !! t = Some x → xs m !! t' = Some x' → removed x = false → removed x' = false → key x = key x' → t = t').
Proof.
  intros [H Hlim]%manager_reachable_inv.
  split_and!.
  - apply (inv_active _ H).
  - rewrite <-Hlim. apply (inv_limit _ H).
  - rewrite <-Hlim. apply (inv_full _ H).
  - apply (inv_waiting _ H).
  - intros t x t' x' Hx Hx' Hrx Hrx' Hk.
    assert (transfers m !! key x = Some t) as H1 by (apply (inv_keys _ H); eauto).
    assert (transfers m !! key x = Some t') as H2 by (apply (inv_keys _ H); eauto). congruence.
Qed.

(** ** Liveness *)

(** What is left of a transfer's life. *)
Definition rank (p : phase) : nat := match p with PStart => 4 | PTransfer => 3 | PParents => 2 | PRegister => 1 | PFinished => 0 end.
Definition pending (b : bool) : nat := if b then 0 else 1.
Definition remaining (x : xfer) : nat :=
  rank (at_phase x) + pending (done x) + pending (handled x) + pending (removed x) + pending (closed x).

Lemma wsum_lt f g m t x : m !! t = Some x → f (g x) < f x → wsum f (alter g t m) < wsum f m.
Proof. intros Hx Hlt. pose proof (wsum_alter f g m t x Hx). lia. Qed.

Lemma on_inactive_remaining m t x :
  inv m → xs m !! t = Some x → started x = true → handled x = false → wsum remaining (xs (on_inactive m t)) < wsum remaining (xs m).
Proof.
  intros H Hx Hst Hh. assert (remaining (set_handled x) < remaining x) as Hlt by (unfold remaining; simpl; rewrite Hh; simpl; lia).
  unfold on_inactive, inactivate. rewrite Hx, Hst. destruct (waitingTransfers m) as [|s rest] eqn:Ew; cbn [upd xs].
  - by apply (wsum_lt _ _ _ t x).
  - destruct (proj1 (inv_waiting _ H s)) as (y & Hy & Hys); [rewrite Ew; set_solver|]. assert (t ≠ s) by congruence.
    pose proof (wsum_alter remaining set_started (xs m) s y Hy) as Hw. change (remaining (set_started y)) with (remaining y) in Hw.
    eapply Nat.lt_le_trans; [apply (wsum_lt _ _ _ t x); [by rewrite lookup_alter_ne|done]|lia].
Qed.

Lemma on_done_remaining m t x :
  inv m → xs m !! t = Some x → done x = true → removed x = false → wsum remaining (xs (on_done m t)) < wsum remaining (xs m).
Proof.
  intros H Hx Hd Hr. pose proof (handled_started x (inv_xfer _ H _ _ Hx) (or_intror Hd)) as Hst.
  assert (t ∉ waitingTransfers m) as Hnot by (rewrite (inv_waiting _ H); intros (y & Hy & Hys); congruence).
  rewrite (on_done_alt m t x) by done. unfold remove. cbn [upd xs].
  assert (∀ y, removed y = false → remaining (set_removed y) < remaining y) as Hrem.
  { intros y Hy. unfold remaining. simpl. rewrite Hy. simpl. lia. }
  destruct (handled x) eqn:Eh; [apply (wsum_lt _ _ _ t x); auto|].
  eapply Nat.lt_trans; [|by apply (on_inactive_remaining m t x)].
  apply (wsum_lt _ _ _ t (set_handled x)); [|by apply Hrem].
  apply (on_inactive_lookup m t x); [done..|]. exists x. by rewrite decide_True.
Qed.

(** Every step of the goroutines brings a transfer closer to its end. *)
Lemma internal_remaining m m' : inv m → internal m m' → wsum remaining (xs m') < wsum remaining (xs m).
Proof.
  intros H Hs.
  destruct Hs as [m t x Hx Hp Hst|m t x Hx Hp|m t x Hx Hp|m t x Hx Hp|m t x Hx Hp|m t x Hx Hp|m t x Hx Hp Hd|m t x Hx Hi Hh Hr|m t x Hx Hd Hr|m t x Hx Hr Hc].
  8:{ apply (on_inactive_remaining m t x); auto. apply handled_started; [by apply (inv_xfer _ H _ _ Hx)|by left]. }
  8:{ by apply (on_done_remaining m t x). }
  all: apply (wsum_lt _ _ _ t x); [done|]; unfold remaining; simpl; rewrite ?Hd, ?Hc.
  all: rewrite ?Hp; simpl; lia.
Qed.

(** A transfer that holds a slot can go on by itself. *)
Lemma holder_moves m t x : inv m → xs m !! t = Some x → holds x = 1 → ∃ m', internal m m'.
Proof.
  intros H Hx Hh. unfold holds in Hh. destruct (started x) eqn:Es; [|done]. destruct (handled x) eqn:Eh; [done|].
  pose proof (inv_xfer _ H _ _ Hx) as Hok.
  assert (removed x = false) as Hr by (destruct (removed x) eqn:E; [|done]; destruct (ok_removed _ Hok E); congruence).
  destruct (at_phase x) eqn:Ep.
  - eexists. by eapply i_begin.
  - eexists. by eapply i_transferred.
  - eexists. eapply i_inactive; eauto. apply (ok_inactive _ Hok). auto.
  - eexists. eapply i_inactive; eauto. apply (ok_inactive _ Hok). auto.
  - destruct (done x) eqn:Ed; eexists; [by eapply i_done|by eapply i_broadcast].
Qed.

(** A transfer whose dependencies are done can go on, or waits for a slot. *)
Lemma ready_moves m t x :
  inv m → xs m !! t = Some x → closed x = false → (∀ d, d < t → from_option done false (xs m !! d) = true) → (0 < concurrencyLimit m)%Z →
  ∃ m', internal m m'.
Proof.
  intros H Hx Hc Hdeps Hpos. pose proof (inv_xfer _ H _ _ Hx) as Hok.
  destruct (started x) eqn:Es.
  - destruct (removed x) eqn:Er; [eexists; by eapply i_close|].
    destruct (at_phase x) eqn:Ep.
    + eexists. by eapply i_begin.
    + eexists. by eapply i_transferred.
    + eexists. eapply i_parents; eauto. intros d Hd. apply Hdeps. pose proof (inv_deps _ H _ _ Hx) as Hf. rewrite Forall_forall in Hf. auto.
    + eexists. by eapply i_registered.
    + destruct (done x) eqn:Ed; eexists; [by eapply i_done|by eapply i_broadcast].
  - assert (waitingTransfers m ≠ []) as Hw.
    { intros Hnil. assert (t ∈ waitingTransfers m) as Hin by (apply (inv_waiting _ H); eauto). rewrite Hnil in Hin. set_solver. }
    pose proof (inv_full _ H Hw) as Hfull. rewrite (inv_active _ H) in Hfull.
    destruct (wsum_pos holds (xs m)) as (t' & x' & Hx' & Hh); [lia|]. apply (holder_moves m t' x'); [done..|].
    unfold holds in *. destruct (started x' && negb (handled x')); lia.
Qed.

(** The first transfer that is not closed can go on. *)
Lemma unfinished_moves m t x :
  inv m → (0 < concurrencyLimit m)%Z → xs m !! t = Some x → closed x = false → ∃ m', internal m m'.
Proof.
  intros H Hpos. revert x. induction (lt_wf t) as [t _ IH]. intros x Hx Hc.
  destruct (decide (Exists (fun d => from_option closed true (xs m !! d) = false) (seq 0 t))) as [Hex|Hno].
  - apply Exists_exists in Hex as (d & Hd%elem_of_seq & Hcd). destruct (xs m !! d) as [y|] eqn:Ey; [|done]. simpl in Hcd.
    by apply (IH d ltac:(lia) y).
  - apply (ready_moves m t x); [done..| |done]. intros d Hd.
    destruct (proj2 (inv_next _ H d)) as [y Hy]; [assert (t < next m) by (apply (inv_next _ H); eauto); lia|].
    rewrite Hy. simpl. destruct (closed y) eqn:Ecy.
    + pose proof (inv_xfer _ H _ _ Hy) as Hok. by apply (ok_removed _ Hok), (ok_closed _ Hok).
    + exfalso. apply Hno, Exists_exists. exists d. rewrite Hy. split; [apply elem_of_seq; lia|done].
Qed.

Lemma internal_inv_star m n m' : inv m → nsteps internal n m m' → inv m' ∧ concurrencyLimit m' = concurrencyLimit m ∧ n + wsum remaining (xs m') ≤ wsum remaining (xs m).
Proof.
  intros H Hs. induction Hs as [|n x y z Hs _ IH]; [done|].
  pose proof (internal_remaining x y H Hs). pose proof (limit_step x y H (or_introl Hs)).
  destruct IH as (? & ? & ?); [by eapply inv_internal|]. split_and!; [done|congruence|lia].
Qed.

(** C6: with a positive limit the manager never deadlocks: when no client does
    anything any more, the goroutines take finitely many steps, whatever the
    interleaving and although transfers wait for each other, and when they can take
    no more, every transfer is done, removed and closed. *)
Theorem transfers_drain (limit : Z) (m : transferManager) :
  (0 < limit)%Z → rtc step (NewTransferManager limit) m →
  (∀ n m', nsteps internal n m m' → n ≤ wsum remaining (xs m)) ∧
  (∀ m', rtc internal m m' → (∀ m'', ¬ internal m' m'') →
     ∀ t x, xs m' !! t = Some x → done x = true ∧ removed x = true ∧ closed x = true).
Proof.
  intros Hpos [H Hlim]%manager_reachable_inv. split.
  - intros n m' Hs. destruct (internal_inv_star m n m' H Hs) as (_ & _ & ?). lia.
  - intros m' [n Hs]%rtc_nsteps Hstuck t x Hx. destruct (internal_inv_star m n m' H Hs) as (H' & Hl & _).
    assert (closed x = true) as Hc.
    { apply not_false_is_true. intros Hc. destruct (unfinished_moves m' t x H') as [m'' Hm]; [lia|done..|]. by apply (Hstuck m''). }
    pose proof (inv_xfer _ H' _ _ Hx) as Hok. pose proof (ok_closed _ Hok Hc) as Hr. by destruct (ok_removed _ Hok Hr).
Qed.

(** A transfer that somebody watches is never cancelled, and the data of a
    transfer is released exactly when the manager has dropped it and its last
    watcher has left. *)
Theorem watched_not_cancelled (limit : Z) (m : transferManager) (t : tid) (x : xfer) :
  rtc step (NewTransferManager limit) m → xs m !! t = Some x →
  (0 < watchers x → cancelled x = false) ∧ (released x = true ↔ closed x = true ∧ watchers x = 0).
Proof.
  intros [H _]%manager_reachable_inv Hx. pose proof (inv_xfer _ H _ _ Hx) as Hok. split; [|apply (ok_released _ Hok)].
  intros Hw. apply not_true_is_false. intros Hc%(ok_watched _ Hok). lia.
Qed.

(** A transfer function that ends before its transfer was started, which [inactivate]
    allows for, would cost a slot: its channel stays in the queue, and the slot that
    it is given later is given back by nobody. *)
Lemma dead_transfer_queued m t x :
  xs m !! t = Some x → started x = false → waitingTransfers (on_done m t) = waitingTransfers m ∧ activeTransfers (on_done m t) = activeTransfers m.
Proof.
  intros Hx Hs. unfold on_done. rewrite Hx. destruct (handled x); [done|]. unfold inactivate. by rewrite Hx, Hs.
Qed.
Lemma dead_transfer_takes_slot m t x s rest :
  xs m !! t = Some x → started x = true → waitingTransfers m = s :: rest →
  waitingTransfers (on_inactive m t) = rest ∧ activeTransfers (on_inactive m t) = activeTransfers m.
Proof. intros Hx Hs Hw. destruct (on_inactive_fields m t x Hx Hs) as (-> & -> & _). by rewrite Hw. Qed.

(** ** Retries *)

(** A transfer is tried at most five times, with delays of 5, 10, 15 and 20
    seconds in between: it always comes to an end, and the delays before the [n]-th
    attempt add up to [5 n (n - 1) / 2] seconds. *)
Theorem attempts_bounded (cancel : nat → bool) (results : list attempt) :
  maxDownloadAttempts ≤ length results →
  ∃ f n w, attempts maxDownloadAttempts cancel 0 results 0 = Some (f, n, w) ∧ 1 ≤ n ≤ maxDownloadAttempts ∧ 2 * w = 5 * n * (n - 1) ∧
    (f = GaveUp → n = maxDownloadAttempts ∨ ∃ r, results !! (n - 1) = Some (Failure true r)).
Proof.
  assert (∀ results r w, r < maxDownloadAttempts → maxDownloadAttempts - r ≤ length results → 2 * w = 5 * (r + 1) * r →
    ∃ f n w', attempts maxDownloadAttempts cancel r results w = Some (f, n, w') ∧ r < n ≤ maxDownloadAttempts ∧ 2 * w' = 5 * n * (n - 1) ∧
      (f = GaveUp → n = maxDownloadAttempts ∨ ∃ c, results !! (n - 1 - r) = Some (Failure true c))) as H.
  { clear results. induction results as [|a results IH]; intros r w Hr Hl Hw; [simpl in Hl; lia|]. simpl.
    assert (2 * w = 5 * S r * (S r - 1)) as Hw' by (simpl; rewrite Nat.sub_0_r; lia).
    destruct a as [|dnr []]; [by exists Transferred, (S r), w; split_and!; try lia; done|by exists Cancelled, (S r), w; split_and!; try lia; done|].
    destruct (dnr || bool_decide (S r = maxDownloadAttempts)) eqn:Ed.
    { exists GaveUp, (S r), w. split_and!; try lia; [done|]. intros _. apply orb_true_iff in Ed as [->|E%bool_decide_eq_true]; [right|by left].
      exists false. by replace (S r - 1 - r) with 0 by lia. }
    apply orb_false_iff in Ed as [-> E%bool_decide_eq_false].
    destruct (cancel (S r)); [by exists Cancelled, (S r), w; split_and!; try lia; done|].
    destruct (IH (S r) (w + S r * 5)) as (f & n & w' & He & Hn & Hw2 & Hg); [lia|simpl in Hl; lia|nia|].
    exists f, n, w'. split_and!; [done|lia|lia|done|]. intros Hf. destruct (Hg Hf) as [?|[c Hc]]; [by left|right].
    exists c. replace (n - 1 - r) with (S (n - 1 - S r)) by lia. done. }
  intros Hl. destruct (H results 0 0) as (f & n & w & He & Hn & Hw & Hg); [unfold maxDownloadAttempts; lia|lia|done|].
  exists f, n, w. rewrite Nat.sub_0_r in Hg. split_and!; try lia; done.
Qed.

Lemma attempts_bounded_witness :
  ∃ f n w, attempts maxDownloadAttempts (fun _ => false) 0 (replicate 5 (Failure false false)) 0 = Some (f, n, w) ∧ 1 ≤ n ≤ maxDownloadAttempts ∧ 2 * w = 5 * n * (n - 1) ∧
    (f = GaveUp → n = maxDownloadAttempts ∨ ∃ r, replicate 5 (Failure false false) !! (n - 1) = Some (Failure true r)).
Proof. apply (attempts_bounded (fun _ => false) (replicate 5 (Failure false false))). vm_compute. lia. Defined.

(** ** Two downloads, one slot, the second on top of the first *)

Definition demo_manager : transferManager := (request (request (NewTransferManager 1) "base" []).1 "top" [0]).1.

Lemma demo_manager_reachable : rtc step (NewTransferManager 1) demo_manager.
Proof.
  apply (rtc_l _ _ (request (NewTransferManager 1) "base" []).1); [|apply rtc_once]; right; apply e_request; repeat constructor.
Qed.

Lemma slots_exact_witness :
  activeTransfers demo_manager = 1%Z ∧ waitingTransfers demo_manager = [1] ∧ (waitingTransfers demo_manager ≠ [] → (1 <= activeTransfers demo_manager)%Z).
Proof.
  split; [vm_compute; reflexivity|]. split; [vm_compute; reflexivity|].
  apply (slots_exact 1 demo_manager demo_manager_reachable).
Defined.

Lemma transfers_drain_witness :
  wsum remaining (xs demo_manager) = 16 ∧ ∀ n m', nsteps internal n demo_manager m' → n ≤ wsum remaining (xs demo_manager).
Proof.
  split; [vm_compute; reflexivity|]. apply (transfers_drain 1 demo_manager); [lia|apply demo_manager_reachable].
Defined.

Lemma watched_not_cancelled_witness :
  ∃ x, xs demo_manager !! 1 = Some x ∧ watchers x = 1 ∧ (0 < watchers x → cancelled x = false).
Proof.
  eexists. split; [vm_compute; reflexivity|]. split; [reflexivity|].
  eapply (watched_not_cancelled 1 demo_manager 1); [apply demo_manager_reachable|vm_compute; reflexivity].
Defined.
