(* ===== verification/Container.v ===== *)
(** * Container: the state of a container and its restart monitor

    Models [src/container/state.go] (with [state_unix.go]), the supervision loop
    of [monitor.go] and the in-memory container store ([memory_store.go],
    [history.go]).

    The channel that wakes waiters is a generation number: closing it and making a
    new one increments it, and a waiter that read generation [e] is released once
    the generation exceeds [e].  The clock, the execution driver and the requests to
    stop are the events of a [run]; the monitor is a function of the list of runs.
    Event logs and disk writes are recorded; streams and terminals are not. *)

From S2P Require Import Prelude Strconv Opts.
Import Strings Strconv.

Local Open Scope Z_scope.

Module Container.

(** ** State *)

(** Times are nanoseconds, 0 being the zero time. *)
Record State := mkState {
  Running : bool;
  Paused : bool;
  Restarting : bool;
  OOMKilled : bool;
  RemovalInProgress : bool;
  Dead : bool;
  Pid : Z;
  ExitCode : Z;
  Error : gostring;
  StartedAt : Z;
  FinishedAt : Z;
  waitChan : nat
}.
Record ExitStatus := mkExit { es_ExitCode : Z; es_OOMKilled : bool }.

Definition NewState : State := mkState false false false false false false 0 0 [] 0 0 0.

Definition StateString (s : State) : gostring :=
  if Running s then
    if Paused s then "paused" else if Restarting s then "restarting" else "running"
  else if Dead s then "dead"
  else if StartedAt s =? 0 then "created"
  else "exited".
Definition IsValidStateString (s : gostring) : bool :=
  negb (negb (s =s "paused") && negb (s =s "restarting") && negb (s =s "running") && negb (s =s "dead")
        && negb (s =s "created") && negb (s =s "exited")).

Definition IsRunning (s : State) : bool := Running s.
Definition GetPID (s : State) : Z := Pid s.
Definition getExitCode (s : State) : Z := ExitCode s.
Definition IsPaused (s : State) : bool := Paused s.
Definition IsRestarting (s : State) : bool := Restarting s.

Definition SetRunning (pid now : Z) (s : State) : State :=
  mkState true false false (OOMKilled s) (RemovalInProgress s) (Dead s) pid 0 [] now (FinishedAt s) (S (waitChan s)).
(** [SetStopped] and [SetRestarting], with [setFromExitStatus]. *)
Definition SetStopped (e : ExitStatus) (now : Z) (s : State) : State :=
  mkState false (Paused s) false (es_OOMKilled e) (RemovalInProgress s) (Dead s) 0 (es_ExitCode e) (Error s)
    (StartedAt s) now (S (waitChan s)).
Definition SetRestarting (e : ExitStatus) (now : Z) (s : State) : State :=
  mkState true (Paused s) true (es_OOMKilled e) (RemovalInProgress s) (Dead s) 0 (es_ExitCode e) (Error s)
    (StartedAt s) now (S (waitChan s)).
Definition SetError (err : gostring) (s : State) : State :=
  mkState (Running s) (Paused s) (Restarting s) (OOMKilled s) (RemovalInProgress s) (Dead s) (Pid s) (ExitCode s)
    err (StartedAt s) (FinishedAt s) (waitChan s).
Definition set_removal (b : bool) (s : State) : State :=
  mkState (Running s) (Paused s) (Restarting s) (OOMKilled s) b (Dead s) (Pid s) (ExitCode s)
    (Error s) (StartedAt s) (FinishedAt s) (waitChan s).
Definition SetRemovalInProgress (s : State) : State * option goerror :=
  if RemovalInProgress s then (s, Some (Errorf "AlreadyRemoving" [])) else (set_removal true s, None).
Definition ResetRemovalInProgress (s : State) : State := set_removal false s.
Definition SetDead (s : State) : State :=
  mkState (Running s) (Paused s) (Restarting s) (OOMKilled s) (RemovalInProgress s) true (Pid s) (ExitCode s)
    (Error s) (StartedAt s) (FinishedAt s) (waitChan s).
Definition set_exit_code (c : Z) (s : State) : State :=
  mkState (Running s) (Paused s) (Restarting s) (OOMKilled s) (RemovalInProgress s) (Dead s) (Pid s) c
    (Error s) (StartedAt s) (FinishedAt s) (waitChan s).

(** [containerPause] and [containerUnpause] of the daemon, with the answer of the
    execution driver. *)
Inductive pauseError := NotRunning | AlreadyPaused | ContainerRestarting | NotPaused | DriverRefused (e : gostring).
Definition set_paused (b : bool) (s : State) : State :=
  mkState (Running s) b (Restarting s) (OOMKilled s) (RemovalInProgress s) (Dead s) (Pid s) (ExitCode s)
    (Error s) (StartedAt s) (FinishedAt s) (waitChan s).
Definition containerPause (driver : option gostring) (s : State) : State * option pauseError :=
  if negb (Running s) then (s, Some NotRunning)
  else if Paused s then (s, Some AlreadyPaused)
  else if Restarting s then (s, Some ContainerRestarting)
  else match driver with Some e => (s, Some (DriverRefused e)) | None => (set_paused true s, None) end.
Definition containerUnpause (driver : option gostring) (s : State) : State * option pauseError :=
  if negb (Running s) then (s, Some NotRunning)
  else if negb (Paused s) then (s, Some NotPaused)
  else match driver with Some e => (s, Some (DriverRefused e)) | None => (set_paused false s, None) end.
(** What a failed [containerStart] leaves: its error, and an exit code if there is none. *)
Definition start_failed (err : gostring) (s : State) : State :=
  let s := SetError err s in if ExitCode s =? 0 then set_exit_code 128 s else s.

(** [WaitStop] and [waitRunning]: an immediate answer, or the channel to wait on; and
    the answer once that channel is closed ([None] while it is not). *)
Definition WaitStop_begin (s : State) : Z + nat := if Running s then inr (waitChan s) else inl (ExitCode s).
Definition waitRunning_begin (s : State) : Z + nat := if Running s then inl (Pid s) else inr (waitChan s).
Definition WaitStop_end (ch_ : nat) (s : State) : option Z := if Nat.ltb ch_ (waitChan s) then Some (getExitCode s) else None.
Definition waitRunning_end (ch_ : nat) (s : State) : option Z := if Nat.ltb ch_ (waitChan s) then Some (GetPID s) else None.

(** ** The restart monitor *)

Definition defaultTimeIncrement : Z := 100.

Record containerMonitor := mkMonitor {
  restartPolicy : RunOpts.RestartPolicy;
  failureCount : Z;
  shouldStop : bool;
  startSignal : bool;   (* closed *)
  stopChan : bool;      (* closed *)
  timeIncrement : Z;
  lastStartTime : Z
}.
Record Cont := mkCont {
  st : State;
  RestartCount : Z;
  HasBeenManuallyStopped : bool;
  events : list gostring;
  toDisk : nat;
  cleaned : bool
}.

(** [StartMonitor]'s initial monitor. *)
Definition newMonitor (policy : RunOpts.RestartPolicy) : containerMonitor :=
  mkMonitor policy 0 false false false defaultTimeIncrement 0.

Definition IsAlways (p : RunOpts.RestartPolicy) : bool := RunOpts.rp_Name p =s "always".
Definition IsUnlessStopped (p : RunOpts.RestartPolicy) : bool := RunOpts.rp_Name p =s "unless-stopped".
Definition IsOnFailure (p : RunOpts.RestartPolicy) : bool := RunOpts.rp_Name p =s "on-failure".

Definition ExitOnNext (m : containerMonitor) : containerMonitor :=
  if shouldStop m then m
  else mkMonitor (restartPolicy m) (failureCount m) true (startSignal m) true (timeIncrement m) (lastStartTime m).

(** [resetMonitor], [now] in seconds. *)
Definition resetMonitor (successful : bool) (now : Z) (m : containerMonitor) : containerMonitor :=
  mkMonitor (restartPolicy m) (if successful then 0 else failureCount m + 1) (shouldStop m) (startSignal m) (stopChan m)
    (if 10 <? now - lastStartTime m then defaultTimeIncrement else to_int64 (timeIncrement m * 2)) (lastStartTime m).

(** [shouldRestart]: the decision, and the container with its manual-stop mark. *)
Definition shouldRestart (exitCode : Z) (shuttingDown : bool) (m : containerMonitor) (c : Cont) : bool * Cont :=
  if shouldStop m then
    (false, mkCont (st c) (RestartCount c) (negb shuttingDown) (events c) (toDisk c) (cleaned c))
  else if IsAlways (restartPolicy m) || IsUnlessStopped (restartPolicy m) then (true, c)
  else if IsOnFailure (restartPolicy m) then
    let max := RunOpts.MaximumRetryCount (restartPolicy m) in
    if negb (max =? 0) && (max <? failureCount m) then (false, c) else (negb (exitCode =? 0), c)
  else (false, c).

Definition set_st (c : Cont) (s : State) : Cont :=
  mkCont s (RestartCount c) (HasBeenManuallyStopped c) (events c) (toDisk c) (cleaned c).
Definition logEvent (e : gostring) (c : Cont) : Cont :=
  mkCont (st c) (RestartCount c) (HasBeenManuallyStopped c) (events c ++ [e]) (toDisk c) (cleaned c).
(** [callback]: the process has started. *)
Definition callback (pid now : Z) (m : containerMonitor) (c : Cont) : containerMonitor * Cont :=
  (mkMonitor (restartPolicy m) (failureCount m) (shouldStop m) true (stopChan m) (timeIncrement m) (lastStartTime m),
   mkCont (SetRunning pid now (st c)) (RestartCount c) (HasBeenManuallyStopped c) (events c) (S (toDisk c)) (cleaned c)).
(** [Close]: cleanup and a dump to disk. *)
Definition Close (c : Cont) : Cont :=
  mkCont (st c) (RestartCount c) (HasBeenManuallyStopped c) (events c) (S (toDisk c)) true.

(** One round of the loop as the environment plays it: whether logging starts, the time
    of the start, the pid if the process starts, how [Run] ends and when, and whether
    a stop is requested before the restart decision or during the pause after it. *)
Record run := mkRun {
  log_err : option gostring;
  start_time : Z;
  started : option Z;
  status : ExitStatus;
  run_err : option gostring;
  end_time : Z;
  stop_running : bool;
  shutting_down : bool;
  stop_waiting : bool
}.

Inductive start_error := LoggingError (e : gostring) | CmdNotFound | CmdCouldNotBeInvoked | CantStart (e : gostring) | RunError (e : gostring).

(** The errors that end an initial start, with the exit code they leave. *)
Definition not_found (err : gostring) : bool :=
  Contains err "executable file not found" || Contains err "no such file or directory"
    || Contains err "system cannot find the file specified".
Definition initial_error (err : gostring) : Z * start_error :=
  if not_found err then (127, CmdNotFound)
  else if Contains err "permission denied" then (126, CmdCouldNotBeInvoked)
  else (-1, CantStart err).

(** [start]'s deferred function. *)
Definition finish (afterRun : bool) (e : ExitStatus) (now : Z) (c : Cont) : Cont :=
  Close (if afterRun then set_st c (SetStopped e now (st c)) else c).

Inductive outcome_ := Waiting (m : containerMonitor) (c : Cont) (afterRun : bool) | Returned (m : containerMonitor) (c : Cont) (err : option start_error).

(** The loop; [afterRun] and [last] are the variables its deferred function reads. *)
Fixpoint monitor_loop (runs : list run) (afterRun : bool) (last_ : ExitStatus) (m : containerMonitor) (c : Cont) : outcome_ :=
  match runs with
  | [] => Waiting m c afterRun
  | r :: runs =>
      let c := mkCont (st c) (RestartCount c + 1) (HasBeenManuallyStopped c) (events c) (toDisk c) (cleaned c) in
      match log_err r with
      | Some e => Returned m (finish afterRun last_ (start_time r) c) (Some (LoggingError e))
      | None =>
          let c := logEvent "start" c in
          let m := mkMonitor (restartPolicy m) (failureCount m) (shouldStop m) (startSignal m) (stopChan m) (timeIncrement m) (start_time r) in
          let '(m, c) := match started r with Some pid => callback pid (start_time r) m c | None => (m, c) end in
          let fatal := match run_err r with Some err => if RestartCount c =? 0 then Some (initial_error err) else None | None => None end in
          match fatal with
          | Some (code, e) => Returned m (finish afterRun (status r) (end_time r) (set_st c (set_exit_code code (st c)))) (Some e)
          | None =>
              let err := RunError <$> run_err r in
              let m := resetMonitor (bool_decide (run_err r = None) && (es_ExitCode (status r) =? 0)) (end_time r) m in
              let m := if stop_running r then ExitOnNext m else m in
              let '(again, c) := shouldRestart (es_ExitCode (status r)) (shutting_down r) m c in
              if again then
                let c := logEvent "die" (set_st c (SetRestarting (status r) (end_time r) (st c))) in
                let m := if stop_waiting r then ExitOnNext m else m in
                if shouldStop m then Returned m (finish true (status r) (end_time r) c) err
                else monitor_loop runs true (status r) m c
              else Returned m (finish true (status r) (end_time r) (logEvent "die" c)) err
          end
      end
  end.

(** [start]. *)
Definition start (runs : list run) (policy : RunOpts.RestartPolicy) (c : Cont) : outcome_ :=
  monitor_loop runs false (mkExit 0 false) (newMonitor policy)
    (mkCont (st c) (-1) false (events c) (toDisk c) (cleaned c)).

(** [ShouldRestart], when the daemon starts again. *)
Definition ShouldRestart (p : RunOpts.RestartPolicy) (c : Cont) : bool :=
  IsAlways p || (IsUnlessStopped p && negb (HasBeenManuallyStopped c)) || (IsOnFailure p && negb (ExitCode (st c) =? 0)).

(** ** The in-memory store *)

Section memory_store.
Context {C : Type} (Created : C → Z).

Definition memoryStore := gmap gostring C.
Definition NewMemoryStore : memoryStore := ∅.
Definition Add (id : gostring) (c : C) (s : memoryStore) : memoryStore := <[id := c]> s.
Definition Get (id : gostring) (s : memoryStore) : option C := s !! id.
Definition Delete (id : gostring) (s : memoryStore) : memoryStore := delete id s.
Definition Size (s : memoryStore) : nat := size s.
(** [History.Less], made total for the sort: newest first. *)
Definition newer (c d : C) : Prop := Created d <= Created c.
#[global] Instance newer_dec c d : Decision (newer c d).
Proof. unfold newer. apply _. Defined.
Definition List_ (range : memoryStore → list C) (s : memoryStore) : list C := merge_sort newer (range s).
(** [First]: the first container of the range that satisfies the filter. *)
Definition First (range : memoryStore → list C) (filter : C → bool) (s : memoryStore) : option C := List.find filter (range s).
End memory_store.

End Container.

Import Container.

(** ** The state machine of a container *)

(** The writes to a state, as the daemon may interleave them: the operations of [State],
    the exit code that the monitor stores when a start fails (without waking anybody), what
    a failed [containerStart] stores, and pausing. *)
Inductive state_step : State → State → Prop :=
| step_running s pid now : state_step s (SetRunning pid now s)
| step_stopped s e now : state_step s (SetStopped e now s)
| step_restarting s e now : state_step s (SetRestarting e now s)
| step_error s e : state_step s (SetError e s)
| step_exit_code s code : state_step s (set_exit_code code s)
| step_start_failed s e : state_step s (start_failed e s)
| step_pause s driver : state_step s (containerPause driver s).1
| step_unpause s driver : state_step s (containerUnpause driver s).1
| step_removal s : state_step s (SetRemovalInProgress s).1
| step_reset_removal s : state_step s (ResetRemovalInProgress s)
| step_dead s : state_step s (SetDead s).

(** A container that does not run has no process and is not restarting; one that is
    restarting counts as running and has no process. *)
Definition coherent (s : State) : Prop :=
  (Running s = false → Pid s = 0 ∧ Restarting s = false) ∧ (Restarting s = true → Running s = true ∧ Pid s = 0).

(** The writes that leave the flags of a running process alone. *)
Definition same_run (s s' : State) : Prop :=
  Running s' = Running s ∧ Restarting s' = Restarting s ∧ Pid s' = Pid s ∧ waitChan s' = waitChan s.
Lemma state_step_cases s s' : state_step s s' →
  same_run s s' ∨ waitChan s' = S (waitChan s) ∧ ((∃ pid now, s' = SetRunning pid now s) ∨ ∃ e now, s' = SetStopped e now s ∨ s' = SetRestarting e now s).
Proof.
  destruct 1; [right; eauto 10..| | | | | | | |]; left; unfold same_run, start_failed, containerPause, containerUnpause, SetRemovalInProgress;
    repeat case_match; done.
Qed.
Lemma coherent_step s s' : state_step s s' → coherent s → coherent s'.
Proof.
  intros [(E1&E2&E3&_)|[_ [(pid&now&->)|(e&now&[->| ->])]]]%state_step_cases; unfold coherent; [by rewrite E1, E2, E3|simpl; intros [? ?]..]; split; auto; discriminate.
Qed.
Lemma waitChan_step s s' : state_step s s' → (waitChan s ≤ waitChan s')%nat ∧ (waitChan s' = waitChan s → same_run s s').
Proof. intros [H|[E _]]%state_step_cases; [|lia]. split; [|done]. destruct H as (_&_&_&->). lia. Qed.
Lemma rtc_waitChan s s' : rtc state_step s s' → (waitChan s ≤ waitChan s')%nat ∧ (waitChan s' = waitChan s → same_run s s').
Proof.
  induction 1 as [s|s t u Hst _ [IH1 IH2]]; [done|]. apply waitChan_step in Hst as [H1 H2]. split; [lia|].
  intros Heq. destruct IH2 as (E1&E2&E3&E4); [lia|]. destruct H2 as (F1&F2&F3&F4); [lia|]. unfold same_run. by rewrite E1, E2, E3, E4.
Qed.

(** The restart monitor makes such writes only. *)
Definition left_in (o : outcome_) : State := match o with Waiting _ c _ | Returned _ c _ => st c end.
Lemma finish_steps b e now c : rtc state_step (st c) (st (finish b e now c)).
Proof. destruct b; [|apply rtc_refl]. apply rtc_once, (step_stopped (st c) e now). Qed.
Lemma callback_steps r m c m' c' : (match started r with Some pid => callback pid (start_time r) m c | None => (m, c) end) = (m', c') → rtc state_step (st c) (st c').
Proof. destruct (started r); intros [= <- <-]; [|apply rtc_refl]. apply rtc_once, (step_running (st c)). Qed.
Lemma shouldRestart_st x b m c : st (shouldRestart x b m c).2 = st c.
Proof. unfold shouldRestart. by repeat case_match. Qed.
Lemma monitor_steps runs afterRun last_ m c : rtc state_step (st c) (left_in (monitor_loop runs afterRun last_ m c)).
Proof.
  revert afterRun last_ m c. induction runs as [|r runs IH]; intros afterRun last_ m c; [apply rtc_refl|]. cbn [monitor_loop].
  destruct (log_err r); [apply (finish_steps afterRun last_ (start_time r) (mkCont (st c) _ _ _ _ _))|].
  destruct (match started r with Some _ => _ | None => _ end) as [m1 c1] eqn:Es. apply callback_steps in Es. cbn [st logEvent] in Es. etransitivity; [exact Es|].
  destruct (match run_err r with Some _ => _ | None => _ end) as [[code e]|].
  { eapply rtc_l; [apply (step_exit_code (st c1) code)|]. apply (finish_steps afterRun _ _ (set_st c1 (set_exit_code code (st c1)))). }
  destruct (shouldRestart _ _ _ c1) as [again c2] eqn:Er. assert (Hst : st c2 = st c1) by (change c2 with (again, c2).2; rewrite <- Er; apply shouldRestart_st).
  rewrite <- Hst. destruct again; [|apply (finish_steps true _ _ (logEvent "die" c2))].
  eapply rtc_l; [apply (step_restarting (st c2) (status r) (end_time r))|]. destruct (shouldStop _); [|apply (IH true (status r) _ (logEvent "die" (set_st c2 (SetRestarting (status r) (end_time r) (st c2)))))].
  apply (finish_steps true _ _ (logEvent "die" (set_st c2 (SetRestarting (status r) (end_time r) (st c2))))).
Qed.

(** C37: In every state that the writes of the daemon reach (the operations of the state,
    the exit codes and errors of failed starts, pausing) the flags are coherent: no process
    unless running, none while restarting, restarting only while counted as running.  The
    state's name is a valid one, and a waiter is not released before the process has changed:
    as long as the channel it waits on is open, the running and restarting flags and the pid
    are as they were.  The restart monitor only makes such writes. *)
Theorem state_reachable s s' :
  rtc state_step NewState s → rtc state_step s s' →
  coherent s ∧ IsValidStateString (StateString s) = true ∧
  (∀ ch_, WaitStop_begin s = inr ch_ → WaitStop_end ch_ s' = None → same_run s s') ∧
  (∀ runs policy c, st c = s → rtc state_step s (left_in (start runs policy c))).
Proof.
  intros Hr Hs. split_and!; [..|intros runs policy c <-; apply (monitor_steps runs false _ (newMonitor policy) (mkCont (st c) (-1) false _ _ _))].
  - assert (Hc : coherent NewState) by (unfold coherent; simpl; naive_solver).
    clear Hs. induction Hr as [|x y z Hxy _ IH]; [done|]. apply IH. by apply (coherent_step x).
  - unfold StateString. by repeat case_match.
  - intros ch_. unfold WaitStop_begin, WaitStop_end. destruct (Running s) eqn:Er; [|done]. intros [= <-].
    destruct (Nat.ltb_spec (waitChan s) (waitChan s')); [done|]. intros _.
    apply rtc_waitChan in Hs as [H1 H2]. apply H2. lia.
Qed.
Lemma state_reachable_witness : coherent (set_exit_code (-1) (containerPause None (SetRunning 42 7 (start_failed "no such network" NewState))).1).
Proof.
  refine (proj1 (state_reachable _ _ _ (rtc_refl _ _))).
  eapply rtc_l; [apply (step_start_failed NewState)|]. eapply rtc_l; [apply (step_running _ 42 7)|]. eapply rtc_l; [apply (step_pause _ None)|].
  eapply rtc_l; [apply (step_exit_code _ (-1))|]. apply rtc_refl.
Defined.
(** A container whose process ends while it is paused stays marked: it can neither be
    started, which asks for that mark, nor unpaused, which asks for a running one. *)
Example paused_not_reset :
  let s := SetStopped (mkExit 137 false) 9 (containerPause None (SetRunning 42 7 NewState)).1 in
  IsPaused s = true ∧ IsRunning s = false ∧ (containerUnpause None s).2 = Some NotRunning.
Proof. split_and!; reflexivity. Qed.

(** [WaitStop] may return while the container runs.  A waiter that starts while the
    container is being restarted waits on the channel that the next start closes, and it
    then gets the exit code 0 that the start stored. *)
Theorem WaitStop_wakes_on_start s e now pid now' :
  let restarting := SetRestarting e now s in
  let running := SetRunning pid now' restarting in
  ∃ ch_, WaitStop_begin restarting = inr ch_ ∧ WaitStop_end ch_ restarting = None ∧
    WaitStop_end ch_ running = Some 0 ∧ Running running = true.
Proof.
  simpl. eexists. split; [done|]. unfold WaitStop_end. simpl. split_and!; [| |done].
  - by rewrite Nat.ltb_irrefl.
  - by destruct (Nat.ltb_spec (S (waitChan s)) (S (S (waitChan s)))); [|lia].
Qed.

(** ** The restart monitor *)

Section monitor.
Implicit Types (r : run) (runs : list run) (m : containerMonitor) (c : Cont).

(** How a round of the loop ends: it goes on with a new monitor and container, or returns. *)
Definition round r afterRun last_ m c : (containerMonitor * Cont) + outcome_ :=
  match monitor_loop [r] afterRun last_ m c with
  | Waiting m c _ => inl (m, c)
  | o => inr o
  end.

Lemma monitor_loop_cons r runs afterRun last_ m c :
  monitor_loop (r :: runs) afterRun last_ m c =
  match round r afterRun last_ m c with
  | inl (m', c') => monitor_loop runs true (status r) m' c'
  | inr o => o
  end.
Proof.
  unfold round. cbn [monitor_loop]. destruct (log_err r); [done|].
  destruct (match started r with Some _ => _ | None => _ end) as [m1 c1].
  destruct (match run_err r with Some _ => _ | None => _ end) as [[code e]|]; [done|].
  destruct (shouldRestart _ _ _ _) as [[] c2]; [|done]. by destruct (shouldStop _).
Qed.

Lemma shouldRestart_cont x b m c : (shouldRestart x b m c).2 = c ∨ shouldStop m = true.
Proof. unfold shouldRestart. destruct (shouldStop m); [by right|left]. by repeat case_match. Qed.

(** What a round that goes on tells: the policy wants a restart, nobody asked to stop. *)
Lemma round_continues r afterRun last_ m c m' c' :
  round r afterRun last_ m c = inl (m', c') →
  RestartCount c' = RestartCount c + 1 ∧ restartPolicy m' = restartPolicy m ∧ shouldStop m' = false ∧
  Running (st c') = true ∧ Restarting (st c') = true ∧ Pid (st c') = 0 ∧
  HasBeenManuallyStopped c' = HasBeenManuallyStopped c ∧
  failureCount m' = (if bool_decide (run_err r = None) && (es_ExitCode (status r) =? 0) then 0 else failureCount m + 1) ∧
  (IsAlways (restartPolicy m) || IsUnlessStopped (restartPolicy m) = true ∨
   (IsOnFailure (restartPolicy m) = true ∧ es_ExitCode (status r) ≠ 0 ∧
    (RunOpts.MaximumRetryCount (restartPolicy m) = 0 ∨ failureCount m' <= RunOpts.MaximumRetryCount (restartPolicy m)))).
Proof.
  unfold round. cbn [monitor_loop]. destruct (log_err r); [done|].
  destruct (match started r with Some _ => _ | None => _ end) as [m1 c1] eqn:Es.
  assert (Hs : RestartCount c1 = RestartCount c + 1 ∧ HasBeenManuallyStopped c1 = HasBeenManuallyStopped c ∧
    restartPolicy m1 = restartPolicy m ∧ failureCount m1 = failureCount m).
  { destruct (started r); injection Es as <- <-; done. }
  clear Es. destruct Hs as (Hc & Hm & Hp & Hf). destruct (match run_err r with Some _ => _ | None => _ end) as [[code e]|]; [done|].
  set (m2 := if stop_running r then _ else _).
  assert (Hp2 : restartPolicy m2 = restartPolicy m1) by (unfold m2, ExitOnNext; repeat case_match; done).
  assert (Hf2 : failureCount m2 = (if bool_decide (run_err r = None) && (es_ExitCode (status r) =? 0) then 0 else failureCount m1 + 1))
    by (unfold m2, ExitOnNext; repeat case_match; done).
  destruct (shouldRestart (es_ExitCode (status r)) (shutting_down r) m2 c1) as [again c2] eqn:E.
  destruct again; [|done]. unfold shouldRestart in E.
  destruct (shouldStop m2) eqn:Hst; [done|].
  set (m3 := if stop_waiting r then _ else _). destruct (shouldStop m3) eqn:H3; [done|]. intros [= <- <-].
  assert (m3 = m2) as ->.
  { unfold m3. destruct (stop_waiting r); [|done]. unfold m3, ExitOnNext in H3. rewrite Hst in H3. done. }
  rewrite <-Hp, <-Hf, Hp2 in *. 
  assert (c2 = c1) as -> by (repeat case_match; congruence). simpl. split_and!; try done; try congruence.
  destruct (IsAlways (restartPolicy m1) || IsUnlessStopped (restartPolicy m1)); [by left|]. right.
  destruct (IsOnFailure (restartPolicy m1)); [|done]. split; [done|].
  destruct (negb (RunOpts.MaximumRetryCount (restartPolicy m1) =? 0) && (RunOpts.MaximumRetryCount (restartPolicy m1) <? failureCount m2)) eqn:Em; [done|].
  injection E as E. split; lia.
Qed.

(** With a retry limit, rounds that go on are failures, counted from the start. *)
Lemma monitor_bound runs afterRun last_ m c N m' c' b :
  IsOnFailure (restartPolicy m) = true → RunOpts.MaximumRetryCount (restartPolicy m) = N → 0 < N →
  failureCount m <= N →
  monitor_loop runs afterRun last_ m c = Waiting m' c' b → failureCount m + Z.of_nat (length runs) <= N.
Proof.
  revert afterRun last_ m c. induction runs as [|r runs IH]; intros afterRun last_ m c Hon Hmax HN Hf; [simpl; lia|].
  rewrite monitor_loop_cons. destruct (round r afterRun last_ m c) as [[m1 c1]|o] eqn:E.
  - apply round_continues in E as (_ & Hp & _ & _ & _ & _ & _ & Hfc & Hor). intros H.
    destruct Hor as [Ha|(_ & Hne & Hor)].
    { exfalso. unfold IsOnFailure, IsAlways, IsUnlessStopped in *. apply bool_decide_eq_true in Hon. by rewrite Hon in Ha. }
    assert (Hfc' : failureCount m1 = failureCount m + 1).
    { rewrite Hfc. destruct (Z.eqb_spec (es_ExitCode (status r)) 0); [done|]. by rewrite andb_false_r. }
    rewrite <-Hp in *. apply IH in H; [|done|done|done|lia]. simpl. lia.
  - unfold round in E. destruct (monitor_loop [r] afterRun last_ m c) eqn:El; [done|]. injection E as <-. done.
Qed.
End monitor.

(** A run that fails by itself: it starts, exits with a code other than 0, and nobody asks
    to stop. *)
Definition fails (r : run) : Prop :=
  log_err r = None ∧ run_err r = None ∧ es_ExitCode (status r) ≠ 0 ∧ stop_running r = false ∧ stop_waiting r = false.

Lemma fails_round r afterRun last_ m c :
  fails r → IsOnFailure (restartPolicy m) = true → shouldStop m = false → 0 < RunOpts.MaximumRetryCount (restartPolicy m) →
  match round r afterRun last_ m c with
  | inl _ => failureCount m + 1 <= RunOpts.MaximumRetryCount (restartPolicy m)
  | inr (Returned m' c' err) =>
      RunOpts.MaximumRetryCount (restartPolicy m) < failureCount m + 1 ∧ RestartCount c' = RestartCount c + 1
  | inr (Waiting _ _ _) => False
  end.
Proof.
  intros (Hl & Hr & He & Hs & Hw) Hon Hst HN. unfold round. cbn [monitor_loop]. rewrite Hl, Hr, Hs, Hw.
  destruct (match started r with Some _ => _ | None => _ end) as [m1 c1] eqn:Es.
  assert (Hm1 : RestartCount c1 = RestartCount c + 1 ∧ restartPolicy m1 = restartPolicy m ∧ failureCount m1 = failureCount m
    ∧ shouldStop m1 = false).
  { destruct (started r); injection Es as <- <-; done. }
  clear Es. destruct Hm1 as (Hc & Hp & Hf & Hs1). unfold shouldRestart. cbn [resetMonitor shouldStop restartPolicy failureCount].
  rewrite Hs1, Hp, Hon, Hf. apply bool_decide_eq_true in Hon. unfold IsAlways, IsUnlessStopped. rewrite Hon. simpl.
  destruct (Z.eqb_spec (es_ExitCode (status r)) 0) as [|_]; [done|]. simpl.
  destruct (Z.eqb_spec (RunOpts.MaximumRetryCount (restartPolicy m)) 0) as [|_]; [lia|]. simpl.
  destruct (Z.ltb_spec (RunOpts.MaximumRetryCount (restartPolicy m)) (failureCount m + 1)); simpl; [|lia].
  by rewrite Hc.
Qed.

Lemma monitor_exact runs afterRun last_ m c m' c' err :
  Forall fails runs → IsOnFailure (restartPolicy m) = true → shouldStop m = false →
  0 < RunOpts.MaximumRetryCount (restartPolicy m) → failureCount m <= RunOpts.MaximumRetryCount (restartPolicy m) →
  monitor_loop runs afterRun last_ m c = Returned m' c' err →
  RestartCount c' - RestartCount c = RunOpts.MaximumRetryCount (restartPolicy m) - failureCount m + 1.
Proof.
  intros Hf. revert afterRun last_ m c. induction Hf as [|r runs Hr _ IH]; intros afterRun last_ m c Hon Hst HN Hle; [done|].
  rewrite monitor_loop_cons. pose proof (fails_round r afterRun last_ m c Hr Hon Hst HN) as Hround.
  destruct (round r afterRun last_ m c) as [[m1 c1]|[|m1 c1 e1]] eqn:E; [|done|intros [= <- <- <-]; lia].
  apply round_continues in E as (Hrc & Hp & Hs1 & _ & _ & _ & _ & Hfc & _).
  assert (Hfc' : failureCount m1 = failureCount m + 1).
  { rewrite Hfc. destruct Hr as (_ & _ & He & _). destruct (Z.eqb_spec (es_ExitCode (status r)) 0); [done|]. by rewrite andb_false_r. }
  rewrite <-Hp in *. intros H. apply IH in H; [|done|done|done|lia]. lia.
Qed.

(** C34: Under [on-failure:N] with N positive the monitor supervises at most N+1 runs: given
    N+1 rounds, it has returned; and when every run fails by itself, it has restarted the
    container exactly N times. *)
Theorem monitor_on_failure_returns runs policy c :
  IsOnFailure policy = true → 0 < RunOpts.MaximumRetryCount policy →
  RunOpts.MaximumRetryCount policy < Z.of_nat (length runs) →
  ∃ m c' err, start runs policy c = Returned m c' err ∧
    (Forall fails runs → RestartCount c' = RunOpts.MaximumRetryCount policy).
Proof.
  intros Hon HN Hl. destruct (start runs policy c) as [m c' b|m c' err] eqn:E.
  - exfalso. apply (monitor_bound _ _ _ _ _ (RunOpts.MaximumRetryCount policy)) in E; simpl in *; lia || done.
  - exists m, c', err. split; [done|]. intros Hf. apply monitor_exact in E; simpl in *; lia || done.
Qed.
Definition failing_run : run := mkRun None 1 (Some 7) (mkExit 1 false) None 2 false false false.
Definition new_cont : Cont := mkCont NewState 0 false [] 0 false.
Lemma monitor_on_failure_returns_witness :
  ∃ m c' err, start [failing_run; failing_run; failing_run] (RunOpts.mkRestart "on-failure" 2) new_cont = Returned m c' err ∧
    (Forall fails [failing_run; failing_run; failing_run] → RestartCount c' = 2).
Proof. apply (monitor_on_failure_returns [failing_run; failing_run; failing_run] (RunOpts.mkRestart "on-failure" 2)); done. Defined.

(** ** How the monitor ends *)

Definition at_rest (s : State) : Prop := Running s = false ∧ Restarting s = false ∧ Pid s = 0.
Definition failed_to_start (c : Cont) (err : option start_error) : Prop := RestartCount c = 0 ∧ is_Some err.

Lemma finish_rest e now c : cleaned (finish true e now c) = true ∧ at_rest (st (finish true e now c)).
Proof. done. Qed.

Lemma round_returns r afterRun last_ m c m' c' err :
  (afterRun = false → RestartCount c = -1) → (afterRun = true → 0 <= RestartCount c) →
  round r afterRun last_ m c = inr (Returned m' c' err) →
  cleaned c' = true ∧ (at_rest (st c') ∨ failed_to_start c' err) ∧
  (IsAlways (restartPolicy m) || IsUnlessStopped (restartPolicy m) = true →
   shouldStop m' = true ∨ (∃ e, err = Some (LoggingError e)) ∨ failed_to_start c' err).
Proof.
  intros Hf Ht. unfold round. cbn [monitor_loop]. destruct (log_err r) as [e|].
  { intros [= <- <- <-]. split; [done|]. split; [|by eauto].
    destruct afterRun; [by left|right]. split; [simpl; rewrite Hf by done; done|by eexists]. }
  destruct (match started r with Some _ => _ | None => _ end) as [m1 c1] eqn:Es.
  assert (Hc : RestartCount c1 = RestartCount c + 1 ∧ restartPolicy m1 = restartPolicy m)
    by (destruct (started r); injection Es as <- <-; done).
  clear Es. destruct Hc as [Hc Hp].
  destruct (match run_err r with Some _ => _ | None => _ end) as [[code e]|] eqn:Efatal.
  { assert (H0 : RestartCount c1 = 0).
    { destruct (run_err r); [|done]. destruct (Z.eqb_spec (RestartCount c1) 0); [done|done]. }
    assert (afterRun = false) as -> by (destruct afterRun; [specialize (Ht eq_refl); lia|done]).
    intros [= <- <- <-]. split; [done|].
    assert (Hs : failed_to_start (finish false (status r) (end_time r) (set_st c1 (set_exit_code code (st c1)))) (Some e))
      by (split; [done|by eexists]). auto. }
  set (m2 := if stop_running r then _ else _).
  assert (Hp2 : restartPolicy m2 = restartPolicy m1) by (unfold m2, ExitOnNext; repeat case_match; done).
  destruct (shouldRestart _ _ m2 c1) as [again c2] eqn:E. destruct again.
  - set (m3 := if stop_waiting r then _ else _). destruct (shouldStop m3) eqn:H3; [|done]. intros [= <- <- <-].
    split; [done|]. split; [by left|]. by left.
  - intros [= <- <- <-]. split; [done|]. split; [by left|]. intros Ha. left. unfold shouldRestart in E.
    destruct (shouldStop m2); [done|]. rewrite Hp2, Hp, Ha in E. done.
Qed.

Lemma monitor_loop_ends runs afterRun last_ m c m' c' err :
  (afterRun = false → RestartCount c = -1) → (afterRun = true → 0 <= RestartCount c) →
  monitor_loop runs afterRun last_ m c = Returned m' c' err →
  cleaned c' = true ∧ (at_rest (st c') ∨ failed_to_start c' err) ∧
  (IsAlways (restartPolicy m) || IsUnlessStopped (restartPolicy m) = true →
   shouldStop m' = true ∨ (∃ e, err = Some (LoggingError e)) ∨ failed_to_start c' err).
Proof.
  revert afterRun last_ m c. induction runs as [|r runs IH]; intros afterRun last_ m c Hf Ht; [done|].
  rewrite monitor_loop_cons. destruct (round r afterRun last_ m c) as [[m1 c1]|o] eqn:E.
  - apply round_continues in E as (Hrc & Hp & _). rewrite <-Hp. apply IH; [done|]. intros _.
    destruct afterRun; [specialize (Ht eq_refl)|specialize (Hf eq_refl)]; lia.
  - intros ->. by apply round_returns in E.
Qed.

(** C33: Whenever the monitor returns, the container has been cleaned up and is at rest (not
    running, not restarting, no process) unless its very first start failed; and under
    [always] or [unless-stopped] it returns only if a stop was requested, logging could not
    be started, or the first start failed. *)
Theorem monitor_ends runs policy c m c' err :
  start runs policy c = Returned m c' err →
  cleaned c' = true ∧ (at_rest (st c') ∨ failed_to_start c' err) ∧
  (IsAlways policy || IsUnlessStopped policy = true →
   shouldStop m = true ∨ (∃ e, err = Some (LoggingError e)) ∨ failed_to_start c' err).
Proof. intros H. by apply monitor_loop_ends in H. Qed.

Definition stopped_run : run := mkRun None 1 (Some 7) (mkExit 0 false) None 2 true false false.
Lemma monitor_ends_witness :
  match start [failing_run; stopped_run] (RunOpts.mkRestart "always" 0) new_cont with
  | Returned m c' err => at_rest (st c') ∨ failed_to_start c' err
  | Waiting _ _ _ => False
  end.
Proof.
  destruct (start [failing_run; stopped_run] (RunOpts.mkRestart "always" 0) new_cont) as [|m c' err] eqn:E; [discriminate E|].
  exact (proj1 (proj2 (monitor_ends _ _ _ _ _ _ E))).
Defined.

(** A stop requested while the monitor pauses before the next restart is not recorded as
    a manual stop, so a container with the [unless-stopped] policy that was stopped then is
    started again with the daemon; the same stop while the process runs is recorded. *)
Theorem stop_during_pause_forgotten :
  let policy := RunOpts.mkRestart "unless-stopped" 0 in
  let paused := mkRun None 1 (Some 7) (mkExit 1 false) None 2 false false true in
  let running := mkRun None 1 (Some 7) (mkExit 1 false) None 2 true false false in
  (∃ m c err, start [paused] policy new_cont = Returned m c err ∧ shouldStop m = true ∧
     HasBeenManuallyStopped c = false ∧ ShouldRestart policy c = true) ∧
  (∃ m c err, start [running] policy new_cont = Returned m c err ∧ shouldStop m = true ∧
     HasBeenManuallyStopped c = true ∧ ShouldRestart policy c = false).
Proof. split; do 3 eexists; (split; [reflexivity|]); done. Qed.

(** ** The store *)

(** Listing is by creation time, newest first, and loses nothing. *)
Lemma List_sorted {C} (Created : C → Z) range s :
  StronglySorted (newer Created) (List_ Created range s) ∧ List_ Created range s ≡ₚ range s.
Proof.
  unfold List_. split; [|apply merge_sort_Permutation].
  apply StronglySorted_merge_sort; [intros ???; unfold newer; lia|intros ??; unfold newer; lia].
Qed.
