(* ===== verification/Volume.v ===== *)
(** * Volume: mount specifications and drivers of volumes

    Package [src/volume]: mount points and the specifications they are read from
    ([volume.go], [volume_unix.go], [volume_propagation_linux.go]), the interface of
    drivers, the local driver ([src/volume/local]) and the adapter of plugins
    ([src/volume/drivers/adapter.go]). *)

From S2P Require Import Prelude Regexp GoPath Naming LayerDiff LayerDiffFacts.
Import Strings Regexp GoPath LayerDiff.LayerDiff.

Local Open Scope Z_scope.

Module Volume.

(** ** Modes of mounts *)

Definition DefaultDriverName : gostring := "local".
Definition DefaultPropagationMode : gostring := "rprivate".
Definition rwModes (o : gostring) : bool := (o =s "rw") || (o =s "ro").
Definition labelModes (o : gostring) : bool := (o =s "Z") || (o =s "z").
Definition propagationModes (o : gostring) : bool :=
  (o =s "private") || (o =s "rprivate") || (o =s "slave") || (o =s "rslave") || (o =s "shared") || (o =s "rshared").

(** The loop of [ValidMountMode] with its three counters. *)
Fixpoint mode_loop (rw lab prop : nat) (l : list gostring) : bool :=
  match l with
  | [] => negb ((1 <? rw)%nat || (1 <? lab)%nat || (1 <? prop)%nat)
  | o :: l =>
      if rwModes o then mode_loop (S rw) lab prop l
      else if labelModes o then mode_loop rw (S lab) prop l
      else if propagationModes o then mode_loop rw lab (S prop) l
      else false
  end.
Definition ValidMountMode (mode : gostring) : bool := mode_loop 0 0 0 (Split mode ",").
Definition ReadWrite (mode : gostring) : bool :=
  if negb (ValidMountMode mode) then false else forallb (fun o => negb (o =s "ro")) (Split mode ",").
Definition GetPropagation (mode : gostring) : gostring := default DefaultPropagationMode (find propagationModes (Split mode ",")).
Definition HasPropagation (mode : gostring) : bool := existsb propagationModes (Split mode ",").

(** ** Mount points *)

(** What a volume answers to its interface. *)
Record volume := mkVolume { Name : gostring; DriverName : gostring; Path : gostring }.
#[global] Instance volume_eq_dec : EqDecision volume.
Proof. solve_decision. Defined.

Record MountPoint := mkMount {
  Source : gostring; Destination : gostring; RW : bool; mName : gostring; Driver : gostring; mVolume : option volume;
  Mode : gostring; Propagation : gostring; Named : bool
}.
#[global] Instance MountPoint_eq_dec : EqDecision MountPoint.
Proof. solve_decision. Defined.

Inductive specError :=
| VolumeInvalid (spec : gostring) | VolumeInvalidMode (mode : gostring) | VolumeAbs (dest : gostring) | VolumeSlash (spec : gostring)
| VolumeFromBlank.

Definition ParseVolumeSource (spec : gostring) : gostring * gostring := if negb (IsAbs spec) then (spec, []) else ([], spec).

(** The parts of a specification: source, destination, mode, whether it is writable,
    and its propagation. *)
Definition spec_parts (spec : gostring) : result specError (gostring * gostring * gostring * bool * gostring) :=
  if (2 <? Count spec ":")%nat then Err (VolumeInvalid spec)
  else
    match SplitN spec ":" 3 with
    | [] => Err (VolumeInvalid spec)
    | a :: arr =>
        if a =s [] then Err (VolumeInvalid spec)
        else
          match arr with
          | [] => Ok ([], Clean a, [], true, DefaultPropagationMode)
          | [b] => if ValidMountMode b then Err (VolumeInvalid spec) else Ok (a, b, [], true, DefaultPropagationMode)
          | [b; mode] => if negb (ValidMountMode mode) then Err (VolumeInvalidMode mode) else Ok (a, b, mode, ReadWrite mode, GetPropagation mode)
          | _ => Err (VolumeInvalid spec)
          end
    end.
Definition ParseMountSpec (spec volumeDriver : gostring) : result specError MountPoint :=
  match spec_parts spec with
  | Err e => Err e
  | Ok (source, dest, mode, rw, prop) =>
      let dest := Clean dest in
      if negb (IsAbs dest) then Err (VolumeAbs dest)
      else if dest =s "/" then Err (VolumeSlash spec)
      else
        let '(name, source) := ParseVolumeSource source in
        if source =s [] then
          if HasPropagation mode then Err (VolumeInvalid spec)
          else Ok (mkMount [] dest rw name (if volumeDriver =s [] then DefaultDriverName else volumeDriver) None mode prop false)
        else Ok (mkMount (Clean source) dest rw name [] None mode prop false)
  end.

(** The ID of the container, and the mode. *)
Definition ParseVolumesFrom (spec : gostring) : result specError (gostring * gostring) :=
  if spec =s [] then Err VolumeFromBlank
  else
    match SplitN spec ":" 2 with
    | [id; mode] =>
        if negb (ValidMountMode mode) then Err (VolumeInvalidMode mode)
        else if HasPropagation mode then Err (VolumeInvalidMode mode)
        else Ok (id, mode)
    | id :: _ => Ok (id, "rw")
    | [] => Ok ([], "rw")
    end.

Definition BackwardsCompatible (m : MountPoint) : bool := negb (Source m =s []) || (Driver m =s DefaultDriverName).
(** [HasResource]; the destination of a mount point is absolute. *)
Definition HasResource (m : MountPoint) (absolutePath : gostring) : bool :=
  IsAbs absolutePath && negb (leaves (Rel (Destination m) absolutePath)).

(** ** Drivers *)

(** The interface of a driver of type [D]; [E] is what the world answers to its calls. *)
Class VolumeDriver (D E : Type) := {
  dCreate : E → D → gostring → result gostring volume * D;
  dRemove : E → D → volume → option gostring * D;
  dList : E → D → result gostring (list volume);
  dGet : E → D → gostring → result gostring volume * D
}.

(** *** The local driver *)

Definition VolumeDataPathName : gostring := "_data".
Definition volumesPathName : gostring := "volumes".
Record Root := mkRoot { scope : gostring; volumes : gmap gostring volume }.
Definition root_path (r : Root) : gostring := PathJoin [scope r; volumesPathName].
Definition DataPath (r : Root) (name : gostring) : gostring := PathJoin [root_path r; name; VolumeDataPathName].
Definition localVolume (r : Root) (name : gostring) : volume := mkVolume name DefaultDriverName (DataPath r name).
(** [New] on the entries of the directory; [None] is a failure to make or to read it. *)
Definition New (sc : gostring) (dirs : option (list gostring)) : option Root :=
  names ← dirs;
  let r := mkRoot sc ∅ in
  Some (mkRoot sc (list_to_map ((fun n => (Base n, localVolume r (Base n))) <$> rev names))).

Inductive evalSymlinks := Real (p : gostring) | NotExist | EvalError (e : gostring).
(** What the file system answers; an error of [MkdirAllAs] may say that the path exists. *)
Record localIO := mkLocalIO { io_mkdir : option (gostring * bool); io_eval : evalSymlinks; io_rm_data : option gostring; io_rm_dir : option gostring }.

Definition oldVfsDir : gostring := "vfs/dir".
Definition scopedPath (r : Root) (realPath : gostring) : bool :=
  HasPrefix realPath (PathJoin [scope r; volumesPathName]) && negb (realPath =s PathJoin [scope r; volumesPathName]) ||
  HasPrefix realPath (PathJoin [scope r; oldVfsDir]).

Definition local_Create (io : localIO) (r : Root) (name : gostring) : result gostring volume * Root :=
  if negb (MatchString Naming.Naming.RestrictedVolumeNamePattern name) then (Err (name ++ " includes invalid characters for a local volume name"), r)
  else
    match volumes r !! name with
    | Some v => (Ok v, r)
    | None =>
        match io_mkdir io with
        | Some (e, isExist) => (Err (if isExist then "volume already exists under " ++ Dir (DataPath r name) else e), r)
        | None => (Ok (localVolume r name), mkRoot (scope r) (<[name := localVolume r name]> (volumes r)))
        end
    end.
(** The paths that [Remove] deletes, in order, with its answer. *)
Definition local_remove_paths (io : localIO) (r : Root) (v : volume) : list gostring * option gostring * Root :=
  let deleted realPath :=
    if negb (scopedPath r realPath) then ([], Some ("Unable to remove a directory of out the Docker root " ++ scope r ++ ": " ++ realPath), r)
    else
      match io_rm_data io with
      | Some e => ([realPath], Some e, r)
      | None => ([realPath; Dir (Path v)], io_rm_dir io, mkRoot (scope r) (delete (Name v) (volumes r)))
      end in
  if negb (DriverName v =s DefaultDriverName) then ([], Some "unknown volume type", r)
  else
    match io_eval io with
    | EvalError e => ([], Some e, r)
    | NotExist => deleted (Dir (Path v))
    | Real p => deleted p
    end.
Definition local_Remove (io : localIO) (r : Root) (v : volume) : option gostring * Root :=
  let '(_, e, r) := local_remove_paths io r v in (e, r).
Definition ErrNotFound : gostring := "volume not found".
Definition local_Get (r : Root) (name : gostring) : result gostring volume * Root :=
  (match volumes r !! name with Some v => Ok v | None => Err ErrNotFound end, r).
Definition local_List (r : Root) : result gostring (list volume) := Ok (map_to_list (volumes r)).*2.
#[global] Instance local_driver : VolumeDriver Root localIO := {|
  dCreate := local_Create; dRemove := local_Remove; dList _ := local_List; dGet _ := local_Get
|}.

(** *** Plugins *)

Inductive proxyGet := GetOk (name mountpoint : gostring) | GetNotFound | GetErr (e : gostring).
(** The answers of a plugin; a volume without a mount point is asked for its path. *)
Record proxy := mkProxy {
  pCreate : gostring → option gostring; pRemove : gostring → option gostring; pList : result gostring (list (gostring * gostring));
  pGet : gostring → proxyGet; pPath : gostring → gostring
}.
Definition adapted (e : proxy) (driver name eMount : gostring) : volume := mkVolume name driver (if eMount =s [] then pPath e name else eMount).
Definition adapter_Create (e : proxy) (driver name : gostring) : result gostring volume :=
  match pCreate e name with Some err => Err err | None => Ok (adapted e driver name []) end.
Definition adapter_Get (e : proxy) (driver name : gostring) : result gostring volume :=
  match pGet e name with
  | GetOk n mountpoint => Ok (adapted e driver n mountpoint)
  | GetNotFound => adapter_Create e driver name
  | GetErr err => Err err
  end.
Definition adapter_List (e : proxy) (driver : gostring) : result gostring (list volume) :=
  let! l := pList e in Ok ((fun vp => adapted e driver vp.1 vp.2) <$> l).

(** A registered driver is the local one, or a plugin by its name. *)
Inductive driver := Local (r : Root) | Plugin (name : gostring).
Definition driver_name (d : driver) : gostring := match d with Local _ => DefaultDriverName | Plugin n => n end.
Record driverIO := mkDriverIO { io_local : localIO; io_plugin : gostring → proxy }.
#[global] Instance driver_driver : VolumeDriver driver driverIO := {|
  dCreate e d name :=
    match d with
    | Local r => let '(v, r) := dCreate (io_local e) r name in (v, Local r)
    | Plugin n => (adapter_Create (io_plugin e n) n name, d)
    end;
  dRemove e d v :=
    match d with
    | Local r => let '(err, r) := dRemove (io_local e) r v in (err, Local r)
    | Plugin n => (pRemove (io_plugin e n) (Name v), d)
    end;
  dList e d := match d with Local r => dList (io_local e) r | Plugin n => adapter_List (io_plugin e n) n end;
  dGet e d name :=
    match d with
    | Local r => let '(v, r) := dGet (io_local e) r name in (v, Local r)
    | Plugin n => (adapter_Get (io_plugin e n) n name, d)
    end
|}.

End Volume.
