(* ===== verification/VolumeStore.v ===== *)
(** * VolumeStore: which volumes exist, and which containers use them

    The store of volumes ([src/volume/store/store.go]) with the registry of drivers
    ([src/volume/drivers/extpoint.go]), and what the daemon does with it: the mount
    points of containers ([src/daemon/volumes.go], [volumes_unix.go], [mounts.go],
    [create_unix.go]), the creation and removal of containers as far as their mounts
    are concerned ([create.go], [delete.go]), and the requests about volumes
    ([create.go], [delete.go], [inspect.go], [list.go]).

    The locks of the store are per name of a volume, so that operations on a volume are
    one step each; a request of the daemon is modelled as one step.  What drivers,
    plugins and the file system answer, and the order of Go's maps, is an argument of
    each operation. *)

From S2P Require Import Prelude GoPath Volume.
Import Strings GoPath Volume.Volume.

Local Open Scope Z_scope.

Module VolumeStore.

(** ** Errors *)

Inductive verr :=
| errVolumeInUse | errNoSuchVolume | errInvalidName | errNameConflict
| EDriver (msg : gostring) | ELookup (name : gostring) | EPlugins
| OpErr (Err : verr) (Op name : gostring) (Refs : list gostring)
| ESpec (e : specError) | ENoContainer (name : gostring) | EMountDup (dest : gostring) | ERelabel (path : gostring)
| EMountOverFile (dest : gostring) | EIO (what : gostring) | ERemoving (es : list verr) | ERmVolumeInUse (e : verr) | ERmVolume (name : gostring) (e : verr)
| EVolumeNameTaken (name : gostring).
#[global] Instance specError_eq_dec : EqDecision specError.
Proof. solve_decision. Defined.

(** [isErr] looks through one [OpErr]. *)
Definition is_errVolumeInUse (e : verr) : bool := match e with errVolumeInUse => true | _ => false end.
Definition is_errNameConflict (e : verr) : bool := match e with errNameConflict => true | _ => false end.
Definition unwrap (e : verr) : verr := match e with OpErr e _ _ _ => e | _ => e end.
Definition IsInUse (e : verr) : bool := is_errVolumeInUse (unwrap e).
Definition IsNameConflict (e : verr) : bool := is_errNameConflict (unwrap e).

(** ** State *)

Section state.
  Context {D : Type}.

(** The registered drivers, the two maps of the store, and the mount points of each
    container that is registered with the daemon. *)
Record vstate := mkVS {
  extensions : gmap gostring D; names : gmap gostring volume; refs : gmap gostring (list gostring);
  containers : gmap gostring (gmap gostring MountPoint)
}.
Definition set_extensions (f : gmap gostring D → gmap gostring D) (s : vstate) : vstate := mkVS (f (extensions s)) (names s) (refs s) (containers s).
Definition set_names (f : gmap gostring volume → gmap gostring volume) (s : vstate) : vstate := mkVS (extensions s) (f (names s)) (refs s) (containers s).
Definition set_refs (f : gmap gostring (list gostring) → gmap gostring (list gostring)) (s : vstate) : vstate := mkVS (extensions s) (names s) (f (refs s)) (containers s).
Definition set_containers (f : gmap gostring (gmap gostring MountPoint) → gmap gostring (gmap gostring MountPoint)) (s : vstate) : vstate :=
  mkVS (extensions s) (names s) (refs s) (f (containers s)).

(** ** Programs *)

Inductive res (A : Type) := RVal (x : A) | RErr (e : verr) | RPanic.
#[global] Arguments RVal {A} x.
#[global] Arguments RErr {A} e.
#[global] Arguments RPanic {A}.
Definition prog (A : Type) : Type := vstate → vstate * res A.
  Abbreviation M := prog.
Definition ret {A} (x : A) : M A := fun s => (s, RVal x).
Definition throw {A} (e : verr) : M A := fun s => (s, RErr e).
Definition panic {A} : M A := fun s => (s, RPanic).
Definition gets {A} (f : vstate → A) : M A := fun s => (s, RVal (f s)).
Definition modify (f : vstate → vstate) : M unit := fun s => (f s, RVal tt).
Definition bind {A B} (m : M A) (k : A → M B) : M B :=
  fun s => match m s with (s, RVal x) => k x s | (s, RErr e) => (s, RErr e) | (s, RPanic) => (s, RPanic) end.
(** The error of a call as a value; a panic goes through. *)
Definition try {A} (m : M A) : M (result verr A) :=
  fun s => match m s with (s, RVal x) => (s, RVal (Ok x)) | (s, RErr e) => (s, RVal (Err e)) | (s, RPanic) => (s, RPanic) end.
Definition lift {A} (r : result verr A) : M A := match r with Ok x => ret x | Err e => throw e end.
Definition on_err {A} (m : M A) (f : verr → verr) : M A := fun s => match m s with (s, RErr e) => (s, RErr (f e)) | r => r end.

Definition foldM {A B} (f : B → A → M B) : B → list A → M B :=
  fix go b l := match l with [] => ret b | x :: l => bind (f b x) (fun b => go b l) end.
Definition iterM {A} (f : A → M unit) (l : list A) : M unit := foldM (fun _ x => f x) tt l.
End state.
#[global] Arguments vstate : clear implicits.
#[global] Arguments prog : clear implicits.

Declare Scope vol_scope.
Delimit Scope vol_scope with vol.
Notation "x <- m ;; k" := (bind m (fun x => k)) (at level 100, m at next level, right associativity) : vol_scope.
Notation "m ;; k" := (bind m (fun _ => k)) (at level 100, right associativity) : vol_scope.
Open Scope vol_scope.

(** ** The registry of drivers *)

Section store.
  Context {D E : Type} `{VolumeDriver D E}.
  Abbreviation M := (prog D).

(** What the world answers during an operation: the drivers, [plugins.Get] and
    [plugins.GetAll], and the order in which Go goes through a map. *)
Record venv := mkEnv {
  drv : E; plugins_Get : gostring → option D; plugins_GetAll : option (list (gostring * D)); order : list gostring → list gostring
}.

Section ops.
  Context (env : venv).

(** [Lookup] returns the name under which the driver is registered. *)
Definition Lookup (name : gostring) : M gostring :=
  ds <- gets extensions ;;
  match ds !! name with
  | Some _ => ret name
  | None =>
      match plugins_Get env name with
      | None => throw (ELookup name)
      | Some d => modify (set_extensions (<[name := d]>)) ;; ret name
      end
  end.
Definition GetDriver (name : gostring) : M gostring := Lookup (if name =s [] then DefaultDriverName else name).
Definition GetAllDrivers : M (list gostring) :=
  match plugins_GetAll env with
  | None => throw EPlugins
  | Some ps =>
      ds <- gets (fun s => order env (map_to_list (extensions s)).*1) ;;
      foldM (fun ds p =>
        known <- gets extensions ;;
        match known !! p.1 with
        | Some _ => ret ds
        | None => modify (set_extensions (<[p.1 := p.2]>)) ;; ret (ds ++ [p.1])
        end) ds ps
  end.

(** A call of a driver that is registered. *)
Definition with_driver {A} (key : gostring) (f : D → result gostring A * D) : M A :=
  ds <- gets extensions ;;
  match ds !! key with
  | None => throw (ELookup key)
  | Some d => let '(r, d) := f d in modify (set_extensions (<[key := d]>)) ;; match r with Ok x => ret x | Err e => throw (EDriver e) end
  end.
Definition drv_Get (key name : gostring) : M volume := with_driver key (fun d => dGet (drv env) d name).
Definition drv_Create (key name : gostring) : M volume := with_driver key (fun d => dCreate (drv env) d name).
Definition drv_Remove (key : gostring) (v : volume) : M unit :=
  with_driver key (fun d => let '(e, d) := dRemove (drv env) d v in (match e with None => Ok tt | Some e => Err e end, d)).
Definition drv_List (key : gostring) : M (list volume) := with_driver key (fun d => (dList (drv env) d, d)).

(** ** The store *)

Definition getNamed (name : gostring) : M (option volume) := gets (fun s => names s !! name).
Definition setNamed (v : volume) (ref : gostring) : M unit :=
  modify (set_names (<[Name v := v]>)) ;;
  if ref =s [] then ret tt else modify (set_refs (fun m => <[Name v := default [] (m !! Name v) ++ [ref]]> m)).
Definition purge (name : gostring) : M unit := modify (set_names (delete name)) ;; modify (set_refs (delete name)).

Definition create (name driverName : gostring) : M volume :=
  known <- getNamed name ;;
  match known with
  | Some v =>
      if negb (DriverName v =s driverName) && negb (driverName =s []) && negb (driverName =s DefaultDriverName) then throw errNameConflict
      else ret v
  | None =>
      vd <- on_err (GetDriver driverName) (fun e => OpErr e "create" name []) ;;
      r <- try (drv_Get vd name) ;;
      match r with Ok v => ret v | Err _ => drv_Create vd name end
  end.
Definition CreateWithRef (name driverName ref : gostring) : M volume :=
  v <- on_err (create name driverName) (fun e => OpErr e "create" name []) ;;
  setNamed v ref ;; ret v.
Definition Create (name driverName : gostring) : M volume := CreateWithRef name driverName [].
Definition GetWithRef (name driverName ref : gostring) : M volume :=
  v <- on_err (vd <- GetDriver driverName ;; drv_Get vd name) (fun e => OpErr e "get" name []) ;;
  setNamed v ref ;; ret v.

Fixpoint probe (drivers : list gostring) (name : gostring) : M volume :=
  match drivers with
  | [] => throw errNoSuchVolume
  | d :: drivers => r <- try (drv_Get d name) ;; match r with Ok v => ret v | Err _ => probe drivers name end
  end.
Definition getVolume (name : gostring) : M volume :=
  known <- getNamed name ;;
  match known with
  | Some v => vd <- GetDriver (DriverName v) ;; drv_Get vd name
  | None => drivers <- GetAllDrivers ;; probe drivers name
  end.
Definition Get (name : gostring) : M volume :=
  v <- on_err (getVolume name) (fun e => OpErr e "get" name []) ;;
  setNamed v [] ;; ret v.

(** A driver that cannot be found is asked for its name. *)
Definition Remove (v : volume) : M unit :=
  rs <- gets (fun s => refs s !! Name v) ;;
  match rs with
  | Some (r :: rs) => throw (OpErr errVolumeInUse "remove" (Name v) (r :: rs))
  | _ =>
      vd <- try (GetDriver (DriverName v)) ;;
      match vd with
      | Err _ => panic
      | Ok vd => on_err (drv_Remove vd v) (fun e => OpErr e "remove" (Name v) []) ;; purge (Name v)
      end
  end.

(** The loop of [Dereference] over the slice [refs], while [s.refs[v.Name()]] is cut in
    the same array: [arr] is the array, [len] the length of the slice in the map. *)
Fixpoint deref_loop (n i : nat) (ref : gostring) (arr : list gostring) (len : nat) : list gostring * nat * bool :=
  match n with
  | O => (arr, len, true)
  | S n =>
      if bool_decide (arr !! i = Some ref) then
        if (len <? S i)%nat then (arr, len, false)
        else deref_loop n (S i) ref (take i arr ++ drop (S i) (take len arr) ++ drop (len - 1) arr) (len - 1)
      else deref_loop n (S i) ref arr len
  end.
Definition Dereference (v : volume) (ref : gostring) : M unit :=
  rs <- gets (fun s => refs s !! Name v) ;;
  match rs with
  | None => ret tt
  | Some rs =>
      let '(arr, len, ok) := deref_loop (length rs) 0 ref rs (length rs) in
      modify (set_refs (<[Name v := take len arr]>)) ;;
      if ok then ret tt else panic
  end.
Definition Refs (v : volume) : M (list gostring) := gets (fun s => default [] (refs s !! Name v)).

(** The volumes of all drivers, in the order in which they answer. *)
Definition list_drivers : M (list volume * list verr) :=
  drivers <- GetAllDrivers ;;
  answers <- foldM (fun acc d => r <- try (drv_List d) ;; ret (acc ++ [(d, r)])) [] (order env drivers) ;;
  stored <- gets (fun s => omap (fun n => names s !! n) (order env (map_to_list (names s)).*1)) ;;
  let bad := omap (fun x => match x.2 with Err _ => Some x.1 | Ok _ => None end) answers in
  ret (concat (omap (fun x => match x.2 with Ok l => Some l | Err _ => None end) answers) ++ filter (fun v => DriverName v ∈ bad) stored,
       omap (fun x => match x.2 with Err e => Some (OpErr e "list" x.1 []) | Ok _ => None end) answers).
Definition List : M (list volume * list verr) :=
  x <- on_err list_drivers (fun e => OpErr e "list" [] []) ;;
  out <- foldM (fun out v =>
    stored <- getNamed (Name v) ;;
    match stored with
    | None => setNamed v [] ;; ret (out ++ [v])
    | Some storedV => if DriverName storedV =s DriverName v then ret (out ++ [v]) else ret out
    end) [] x.1 ;;
  ret (out, x.2).
Definition FilterByDriver (name : gostring) : M (list volume) :=
  on_err (vd <- GetDriver name ;; drv_List vd) (fun e => OpErr e "list" name []).
Definition FilterByUsed (vols : list volume) (used : bool) : M (list volume) :=
  gets (fun s => filter (fun v => match refs s !! Name v with Some (_ :: _) => used | _ => negb used end = true) vols).
End ops.
End store.
#[global] Arguments venv : clear implicits.
End VolumeStore.
