(* ===== verification/Mounts.v ===== *)
(** * Mounts: the mount points of containers

    What the daemon does with volumes: it registers the mount points of a container
    ([src/daemon/volumes.go]), creates the volumes of its configuration
    ([create_unix.go]), initialises and sorts its mounts when it starts
    ([volumes_unix.go]), lets go of them when it is removed ([mounts.go], [delete.go]),
    and serves the requests about volumes ([create.go], [delete.go], [inspect.go],
    [list.go]). *)

From S2P Require Import Prelude GoPath Volume VolumeStore.
Import Strings GoPath Volume.Volume VolumeStore.VolumeStore.

Local Open Scope Z_scope.

Module Mounts.

Section daemon.
  Context {D E : Type} `{VolumeDriver D E}.

(** What else the world answers: the container that a name means, the labelling of
    files, whether a destination can be mounted, the copying of files into a volume,
    and where a mount point is set up. *)
Inductive placement := PlaceError | PlaceFile | PlaceDir.
Record denv := mkDenv {
  venv_of : venv D E; resolve : gostring → option gostring; relabelled : gostring → bool; place : gostring → placement;
  copied : gostring → bool; setup : MountPoint → option gostring
}.

Abbreviation M := (prog D).
Section ops.
  Context (env : denv).
  Abbreviation venv := (venv_of env).

(** The values of a map of mount points, in some order. *)
Definition points (m : gmap gostring MountPoint) : list MountPoint := omap (fun d => m !! d) (order venv (map_to_list m).*1).
Definition mounts_of (id : gostring) : M (gmap gostring MountPoint) := gets (fun s => default ∅ (containers s !! id)).

(** ** Registration *)

Definition with_volume (m : MountPoint) (v : option volume) : MountPoint :=
  mkMount (Source m) (Destination m) (RW m) (mName m) (Driver m) v (Mode m) (Propagation m) (Named m).

(** One mount point of another container. *)
Definition mount_from (id mode : gostring) (mps : gmap gostring MountPoint) (m : MountPoint) : M (gmap gostring MountPoint) :=
  let cp := mkMount (Source m) (Destination m) (RW m && ReadWrite mode) (mName m) (Driver m) None [] (Propagation m) (Named m) in
  if Source cp =s [] then
    v <- GetWithRef venv (mName cp) (Driver cp) id ;;
    ret (<[Destination cp := with_volume cp (Some v)]> mps)
  else ret (<[Destination cp := cp]> mps).
Definition volumes_from (id : gostring) (mps : gmap gostring MountPoint) (spec : gostring) : M (gmap gostring MountPoint) :=
  match ParseVolumesFrom spec with
  | Err e => throw (ESpec e)
  | Ok (name, mode) =>
      match resolve env name with
      | None => throw (ENoContainer name)
      | Some c => ms <- mounts_of c ;; foldM (mount_from id mode) mps (points ms)
      end
  end.

Definition setBindModeIfNull (mode : gostring) : gostring := if mode =s [] then "z" else mode.
Definition RelabelNeeded (mode : gostring) : bool := Contains mode "z" || Contains mode "Z".
(** One bind; [binds] are the destinations of the ones before. *)
Definition bind_mount (id volumeDriver : gostring) (acc : list gostring * gmap gostring MountPoint) (b : gostring) : M (list gostring * gmap gostring MountPoint) :=
  let '(binds, mps) := acc in
  match ParseMountSpec b volumeDriver with
  | Err e => throw (ESpec e)
  | Ok bind =>
      if bool_decide (Destination bind ∈ binds) then throw (EMountDup (Destination bind))
      else
        bind <- (if negb (mName bind =s []) && negb (Driver bind =s []) then
                   v <- CreateWithRef venv (mName bind) (Driver bind) id ;;
                   ret (mkMount (Path v) (Destination bind) (RW bind) (mName bind) (DriverName v) (Some v) (setBindModeIfNull (Mode bind)) (Propagation bind) true)
                 else ret bind) ;;
        if RelabelNeeded (Mode bind) && negb (relabelled env (Source bind)) then throw (ERelabel (Source bind))
        else ret (binds ++ [Destination bind], <[Destination bind := bind]> mps)
  end.
(** The mount point that was there before loses its volume. *)
Definition cleanup_old (id : gostring) (old : gmap gostring MountPoint) (m : MountPoint) : M unit :=
  if BackwardsCompatible m then
    match old !! Destination m with
    | Some mp => match mVolume mp with Some v => Dereference v id | None => ret tt end
    | None => ret tt
    end
  else ret tt.
Definition registerMountPoints (id : gostring) (volumesFrom binds : list gostring) (volumeDriver : gostring) : M unit :=
  old <- mounts_of id ;;
  mps <- foldM (volumes_from id) old volumesFrom ;;
  acc <- foldM (bind_mount id volumeDriver) ([], mps) binds ;;
  iterM (cleanup_old id old) (points acc.2) ;;
  modify (set_containers (<[id := acc.2]>)).

(** ** Volumes of the configuration *)

(** [AddMountPointWithVolume]. *)
Definition mount_with_volume (destination : gostring) (v : volume) (rw : bool) : MountPoint := mkMount [] destination rw (Name v) (DriverName v) (Some v) [] [] false.
(** A path of [config.Volumes] with the name that is generated for it. *)
Definition config_volume (id volumeDriver : gostring) (x : gostring * gostring) : M unit :=
  let destination := Clean x.1 in
  ms <- mounts_of id ;;
  if bool_decide (is_Some (ms !! destination)) then ret tt
  else
    match place env destination with
    | PlaceError => throw (EIO destination)
    | PlaceFile => throw (EMountOverFile destination)
    | PlaceDir =>
        v <- CreateWithRef venv x.2 volumeDriver id ;;
        if negb (relabelled env (Path v)) then throw (ERelabel (Path v))
        else modify (set_containers (alter (<[destination := mount_with_volume destination v true]>) id))
    end.
Definition populateVolumes (id : gostring) : M unit :=
  ms <- mounts_of id ;;
  iterM (fun m =>
    match mVolume m with
    | None => ret tt
    | Some v =>
        rs <- Refs v ;;
        if (Driver m =s []) || (1 <? length rs)%nat then ret tt
        else if copied env (Destination m) then ret tt else throw (EIO (Destination m))
    end) (points ms).
(** [mounted] is whether the root file system could be mounted and has its working directory. *)
Definition createContainerPlatformSpecificSettings (id volumeDriver : gostring) (mounted : bool) (vols : list (gostring * gostring)) : M unit :=
  if negb mounted then throw (EIO id)
  else iterM (config_volume id volumeDriver) vols ;; populateVolumes id.

(** ** Removal *)

Definition removeMountPoints (id : gostring) (ms : gmap gostring MountPoint) (rm : bool) : M unit :=
  errs <- foldM (fun errs m =>
    match mVolume m with
    | None => ret errs
    | Some v =>
        Dereference v id ;;
        if rm && negb (Named m) then
          r <- try (Remove venv v) ;;
          match r with
          | Ok _ => ret errs
          | Err e => if IsInUse e then ret errs else ret (errs ++ [e])
          end
        else ret errs
    end) [] (points ms) ;;
  if bool_decide (length errs = 0)%nat then ret tt else throw (ERemoving errs).

(** How far [cleanupContainer] gets: it succeeds, it fails before or after it has
    arranged for the container to be forgotten. *)
Inductive cleanup := CleanOk | CleanEarly | CleanLate.
Definition ContainerRm (id : gostring) (clean : cleanup) (force removeVolume : bool) : M unit :=
  known <- gets (fun s => containers s !! id) ;;
  match known with
  | None => throw (ENoContainer id)
  | Some ms =>
      (match clean with
       | CleanOk => modify (set_containers (delete id))
       | CleanLate => if force then modify (set_containers (delete id)) else ret tt
       | CleanEarly => ret tt
       end) ;;
      (if bool_decide (force = true) || match clean with CleanOk => true | _ => false end
       then try (removeMountPoints id ms removeVolume) ;; ret tt else ret tt) ;;
      match clean with CleanOk => ret tt | _ => throw (EIO id) end
  end.

(** The part of [create] that concerns mounts; [linked], [mounted] and [rest] say how
    far the other parts get.  A container that cannot be created is removed again; it
    does not run, so that it can be removed. *)
Definition undo_create (id : gostring) (e : verr) : M unit := try (ContainerRm id CleanOk true false) ;; throw e.
Definition finish_create (id volumeDriver : gostring) (mounted : bool) (vols : list (gostring * gostring)) (rest : bool) : M unit :=
  r <- try (createContainerPlatformSpecificSettings id volumeDriver mounted vols ;; if rest then ret tt else throw (EIO id)) ;;
  match r with
  | Err e => ms <- mounts_of id ;; try (removeMountPoints id ms true) ;; undo_create id e
  | Ok _ => ret tt
  end.
Definition create_container (id : gostring) (volumesFrom binds : list gostring) (volumeDriver : gostring) (linked mounted : bool)
    (vols : list (gostring * gostring)) (rest : bool) : M unit :=
  modify (set_containers (<[id := ∅]>)) ;;
  r <- try (registerMountPoints id volumesFrom binds volumeDriver ;; if linked then ret tt else throw (EIO id)) ;;
  match r with
  | Err e => undo_create id e
  | Ok _ => finish_create id volumeDriver mounted vols rest
  end.

(** ** Start *)

Definition lazyInitializeVolume (id : gostring) (m : MountPoint) : M MountPoint :=
  match mVolume m with
  | None => if Driver m =s [] then ret m else v <- GetWithRef venv (mName m) (Driver m) id ;; ret (with_volume m (Some v))
  | Some _ => ret m
  end.
Definition init_point (id : gostring) (dest : gostring) : M (option MountPoint) :=
  ms <- mounts_of id ;;
  match ms !! dest with
  | None => ret None
  | Some m => m' <- lazyInitializeVolume id m ;; modify (set_containers (alter (<[dest := m']>) id)) ;; ret (Some m')
  end.
Definition prepareMountPoints (id : gostring) : M unit :=
  ms <- mounts_of id ;; iterM (fun d => init_point id d ;; ret tt) (order venv (map_to_list ms).*1).

Record Mount := mkM { msource : gostring; mdest : gostring; writable : bool; mpropagation : gostring }.
Definition parts (m : Mount) : nat := Count (Clean (mdest m)) "/".
Definition parts_le (a b : Mount) : Prop := (parts a ≤ parts b)%nat.
#[global] Instance parts_le_dec : RelDecision parts_le.
Proof. intros a b. unfold parts_le. apply _. Defined.
(** One of the orders that Go's sort may give. *)
Definition sortMounts (l : list Mount) : list Mount := merge_sort parts_le l.
Definition TrySetNetworkMount (dest : gostring) : bool := (dest =s "/etc/resolv.conf") || (dest =s "/etc/hostname") || (dest =s "/etc/hosts").
(** [setupMounts], without the network files of the daemon itself. *)
Definition setupMounts (id : gostring) : M (list Mount) :=
  ms <- mounts_of id ;;
  l <- foldM (fun l d =>
    m <- init_point id d ;;
    match m with
    | None => ret l
    | Some m =>
        match setup env m with
        | None => throw (EIO (Destination m))
        | Some path => ret (if TrySetNetworkMount (Destination m) then l else l ++ [mkM path (Destination m) (RW m) (Propagation m)])
        end
    end) [] (order venv (map_to_list ms).*1) ;;
  ret (sortMounts l).

(** [ContainerStart] with a host configuration replaces the mount points first. *)
Definition start (id : gostring) (hostConfig : option (list gostring * list gostring * gostring)) : M (list Mount) :=
  (match hostConfig with
   | Some (volumesFrom, binds, volumeDriver) => registerMountPoints id volumesFrom binds volumeDriver
   | None => ret tt
   end) ;; setupMounts id.

(** ** Requests about volumes *)

Definition VolumeCreate (name generated driverName : gostring) : M volume :=
  let name := if name =s [] then generated else name in
  on_err (Create venv name driverName) (fun e => if IsNameConflict e then EVolumeNameTaken name else e).
Definition VolumeRm (name : gostring) : M unit :=
  v <- Get venv name ;;
  on_err (Remove venv v) (fun e => if IsInUse e then ERmVolumeInUse e else ERmVolume name e).
Definition VolumeInspect (name : gostring) : M volume := Get venv name.
Definition Volumes (dangling : option bool) : M (list volume * list verr) :=
  x <- List venv ;;
  match dangling with
  | None => ret x
  | Some danglingOnly => vols <- FilterByUsed x.1 (negb danglingOnly) ;; ret (vols, x.2)
  end.
End ops.

(** A daemon that starts knows no volumes; the volumes of mount points are not saved. *)
Definition reload (ds : gmap gostring D) (s : vstate D) : vstate D :=
  mkVS ds ∅ ∅ (fmap (M := gmap gostring) (fun ms : gmap gostring MountPoint => (fun m => with_volume m None) <$> ms) (containers s)).
End daemon.
End Mounts.
