(* ===== verification/VolumeFacts.v ===== *)
(** * VolumeFacts: specifications, paths and the order of mounts

    Theorems about [Volume], [VolumeStore] and [Mounts] that are not about references:
    what a mount specification is read as, where the local driver keeps and removes
    files, which paths a mount point has, the order of mounts, and the list of volumes. *)

From S2P Require Import Prelude Regexp GoPath RefStore DigestSet Naming LayerDiff LayerDiffFacts Volume VolumeStore Mounts.
Import Strings Regexp GoPath LayerDiff.LayerDiff Volume.Volume VolumeStore.VolumeStore Mounts.Mounts.

(** ** Specifications *)

Section specs.
  Implicit Types (src dst mode vd spec n : gostring) (m : MountPoint).

Lemma ParseMountSpec_inv spec vd m :
  ParseMountSpec spec vd = Ok m →
  ∃ src dst rw prop, spec_parts spec = Ok (src, dst, Mode m, rw, prop) ∧ Destination m = Clean dst ∧ RW m = rw ∧ Propagation m = prop ∧
    IsAbs (Clean dst) = true ∧ Clean dst ≠ "/" ∧ mVolume m = None ∧ Named m = false ∧
    (IsAbs src = false ∧ Source m = [] ∧ mName m = src ∧ Driver m = (if vd =s [] then DefaultDriverName else vd) ∧ HasPropagation (Mode m) = false ∨
     IsAbs src = true ∧ Source m = Clean src ∧ mName m = [] ∧ Driver m = []).
Proof.
  unfold ParseMountSpec. destruct (spec_parts spec) as [[[[[src dst] mode] rw] prop]|]; [|done]. destruct (IsAbs (Clean dst)) eqn:Ea; [|done]. cbn [negb].
  destruct (Clean dst =s "/") eqn:Es; [done|]. assert (Clean dst ≠ "/") by (intros E; rewrite E in Es; done). unfold ParseVolumeSource.
  destruct (IsAbs src) eqn:Eas; cbn [negb].
  - assert (src ≠ []) by (by intros ->). rewrite streqb_ne by done. intros [= <-]. exists src, dst, rw, prop. simpl. split_and!; auto.
  - change (([] : gostring) =s []) with true. cbv iota. destruct (HasPropagation mode) eqn:Ep; [done|]. intros [= <-]. exists src, dst, rw, prop. simpl. split_and!; auto 10.
Qed.

(** What is written out is read back. *)
Lemma colon_free_parts (l : list gostring) : l ≠ [] → Forall (fun x => ch ":" ∉ x) l → length l ≤ 3 → (2 <? Count (Join l ":") ":") = false ∧ SplitN (Join l ":") ":" 3 = l.
Proof.
  intros Hne Hl Hlen. split; [|by apply SplitN_Join_char]. apply Nat.ltb_ge. unfold Count. rewrite (Split_Join_char (ch ":") l) by done. lia.
Qed.
Lemma spec_parts_three src dst mode :
  src ≠ [] → ch ":" ∉ src → ch ":" ∉ dst → ch ":" ∉ mode → ValidMountMode mode = true →
  spec_parts (src ++ ":" ++ dst ++ ":" ++ mode) = Ok (src, dst, mode, ReadWrite mode, GetPropagation mode).
Proof.
  intros Hne H1 H2 H3 Hm. destruct (colon_free_parts [src; dst; mode]) as [Hc Hs]; [done|by repeat constructor|done|].
  change (Join [src; dst; mode] ":") with (src ++ ":" ++ dst ++ ":" ++ mode) in Hc, Hs. unfold spec_parts. by rewrite Hc, Hs, streqb_ne, Hm.
Qed.
Lemma spec_parts_two src dst :
  src ≠ [] → ch ":" ∉ src → ch ":" ∉ dst → ValidMountMode dst = false → spec_parts (src ++ ":" ++ dst) = Ok (src, dst, [], true, DefaultPropagationMode).
Proof.
  intros Hne H1 H2 Hm. destruct (colon_free_parts [src; dst]) as [Hc Hs]; [done|by repeat constructor|simpl; lia|].
  change (Join [src; dst] ":") with (src ++ ":" ++ dst) in Hc, Hs. unfold spec_parts. by rewrite Hc, Hs, streqb_ne, Hm.
Qed.
(** Modes have no colons, and are not absolute. *)
Lemma mode_loop_words a b c l : mode_loop a b c l = true → Forall (fun o => rwModes o = true ∨ labelModes o = true ∨ propagationModes o = true) l.
Proof.
  revert a b c. induction l as [|o l IH]; intros a b c Hl; [constructor|]. simpl in Hl.
  destruct (rwModes o) eqn:E1; [|destruct (labelModes o) eqn:E2; [|destruct (propagationModes o) eqn:E3; [|done]]]; constructor; eauto.
Qed.
Lemma mode_word o : rwModes o = true ∨ labelModes o = true ∨ propagationModes o = true → o ≠ [] ∧ ch ":" ∉ o ∧ ch "/" ∉ o.
Proof.
  unfold rwModes, labelModes, propagationModes. rewrite !orb_true_iff. unfold streqb. rewrite !bool_decide_eq_true. intros Ho.
  repeat match type of Ho with _ ∨ _ => destruct Ho as [Ho|Ho] end; subst o; vm_decide.
Qed.
Lemma mode_chars mode c : ValidMountMode mode = true → (c = ch ":" ∨ c = ch "/") → c ∉ mode.
Proof.
  intros Hm%mode_loop_words Hc Hin. rewrite <-(Join_Split mode ",") in Hin. apply elem_of_Join in Hin as [Hin|(o&Ho&Hin)]; [apply list_elem_of_singleton in Hin; naive_solver|].
  rewrite Forall_forall in Hm. pose proof (mode_word _ (Hm _ Ho)). naive_solver.
Qed.
Lemma abs_not_mode p : IsAbs p = true → ValidMountMode p = false.
Proof. intros [t ->]%HasPrefix_spec. apply not_true_iff_false. intros Hm. eapply (mode_chars _ (ch "/") Hm); [by right|by left]. Qed.
Lemma spec_parts_cases spec src dst mode rw prop :
  spec_parts spec = Ok (src, dst, mode, rw, prop) → mode = [] ∧ rw = true ∨ ValidMountMode mode = true ∧ rw = ReadWrite mode.
Proof.
  unfold spec_parts. destruct (2 <? _); [done|]. destruct (SplitN spec ":" 3) as [|a [|b [|c [|]]]]; try done; destruct (a =s []); try done.
  - intros [= <- <- <- <- <-]. by left.
  - destruct (ValidMountMode b); [done|]. intros [= <- <- <- <- <-]. by left.
  - destruct (ValidMountMode c) eqn:Ec; [|done]. intros [= <- <- <- <- <-]. by right.
Qed.
Lemma ReadWrite_ro mode : ValidMountMode mode = true → ReadWrite mode = false ↔ "ro" ∈ Split mode ",".
Proof.
  intros Hm. unfold ReadWrite. rewrite Hm. cbn [negb]. rewrite <-not_true_iff_false, forallb_forall. split.
  - intros Hn. destruct (decide (ch "r" :: "o" ∈ Split mode ",")) as [Hin|Hin]; [done|]. exfalso. apply Hn. intros o Ho. apply negb_true_iff, streqb_ne. intros ->.
    by apply Hin, list_elem_of_In.
  - intros Hin Hall. specialize (Hall (ch "r" :: "o")). by rewrite list_elem_of_In in Hin; apply Hall in Hin.
Qed.
End specs.

(** A mount specification that is accepted has an absolute and clean destination other
    than the root, and either the clean absolute path of a file of the host, or the name
    of a volume with the driver that was asked for and no propagation; it is writable
    unless its mode says [ro]. *)
Theorem ParseMountSpec_wf spec vd m :
  ParseMountSpec spec vd = Ok m →
  IsAbs (Destination m) = true ∧ Clean (Destination m) = Destination m ∧ Destination m ≠ "/" ∧ (Mode m = [] ∨ ValidMountMode (Mode m) = true) ∧
  (RW m = false ↔ "ro" ∈ Split (Mode m) ",") ∧
  (IsAbs (Source m) = true ∧ Clean (Source m) = Source m ∧ mName m = [] ∧ Driver m = [] ∨
   Source m = [] ∧ IsAbs (mName m) = false ∧ Driver m = (if vd =s [] then DefaultDriverName else vd) ∧ HasPropagation (Mode m) = false).
Proof.
  intros Hp. apply ParseMountSpec_inv in Hp as (src&dst&rw&prop&Hparts&->&Hrw&_&Ha&Hs&_&_&Hsrc).
  apply spec_parts_cases in Hparts. split_and!; [done|apply Clean_idemp|done|naive_solver| |].
  - rewrite Hrw. destruct Hparts as [[-> ->]|[Hm ->]]; [|by apply ReadWrite_ro]. split; [done|]. intros Hin. vm_compute in Hin. by apply list_elem_of_singleton in Hin.
  - destruct Hsrc as [(H1&H2&H3&H4&H5)|(H1&H2&H3&H4)]; [right|left]; rewrite ?H2, ?H3, ?H4, ?IsAbs_Clean, ?Clean_idemp; auto.
Qed.
Lemma ParseMountSpec_wf_witness : let m := mkMount [] "/data" false "vol" "local" None "ro,z" "rprivate" false in IsAbs (Destination m) = true.
Proof. intros m. apply (ParseMountSpec_wf "vol:/data/:ro,z" [] m). vm_compute. reflexivity. Defined.

(** A mount point of a file of the host, or of a volume, that is written out with its
    mode, or without, is read back. *)
Theorem ParseMountSpec_render src dst mode vd :
  src ≠ [] → ch ":" ∉ src → ch ":" ∉ dst → Clean dst = dst → IsAbs dst = true → dst ≠ "/" → ValidMountMode mode = true →
  (IsAbs src = true ∧ Clean src = src →
   ParseMountSpec (src ++ ":" ++ dst ++ ":" ++ mode) vd = Ok (mkMount src dst (ReadWrite mode) [] [] None mode (GetPropagation mode) false) ∧
   ParseMountSpec (src ++ ":" ++ dst) vd = Ok (mkMount src dst true [] [] None [] DefaultPropagationMode false)) ∧
  (IsAbs src = false ∧ HasPropagation mode = false ∧ vd ≠ [] →
   ParseMountSpec (src ++ ":" ++ dst ++ ":" ++ mode) vd = Ok (mkMount [] dst (ReadWrite mode) src vd None mode (GetPropagation mode) false) ∧
   ParseMountSpec (src ++ ":" ++ dst) vd = Ok (mkMount [] dst true src vd None [] DefaultPropagationMode false)).
Proof.
  intros Hne Hs Hd Hc Ha Hr Hm. assert (Hmc : ch ":" ∉ mode) by (apply mode_chars; auto).
  pose proof (spec_parts_three src dst mode Hne Hs Hd Hmc Hm) as H3. pose proof (spec_parts_two src dst Hne Hs Hd (abs_not_mode _ Ha)) as H2.
  split; [intros (Has&Hcs)|intros (Has&Hp&Hvd)]; unfold ParseMountSpec; rewrite H2, H3, Hc, Ha, streqb_ne by done; cbn [negb]; unfold ParseVolumeSource; rewrite Has; cbn [negb];
    [by rewrite (streqb_ne src []), Hcs|]. rewrite Hp, (streqb_ne vd []) by done. done.
Qed.
Lemma ParseMountSpec_render_witness :
  ParseMountSpec ("/srv" ++ ":" ++ "/data" ++ ":" ++ "ro,rslave") [] = Ok (mkMount "/srv" "/data" false [] [] None "ro,rslave" "rslave" false).
Proof. apply (ParseMountSpec_render "/srv" "/data" "ro,rslave" []); first [vm_decide|by split|done]. Defined.

(** ** Paths *)

Section paths.
  Implicit Types (p q rest : path) (n : gostring) (r : Root).

Lemma strip_common_spec p q : ∃ c, p = c ++ (strip_common p q).1 ∧ q = c ++ (strip_common p q).2 ∧
  (∀ x y a b, (strip_common p q).1 = x :: a → (strip_common p q).2 = y :: b → x ≠ y).
Proof.
  revert q. induction p as [|x p IH]; intros q; [exists []; by destruct q|]. destruct q as [|y q]; [exists []; split_and!; [done|done|done]|]. simpl.
  unfold streqb. destruct (bool_decide_reflect (x = y)) as [->|Hne]; [|exists []; split_and!; [done|done|naive_solver]].
  destruct (IH q) as (c&H1&H2&H3). exists (y :: c). simpl. split_and!; [by f_equal|by f_equal|done].
Qed.
Lemma elems_no_dotdot s : ".." ∉ elems s.
Proof.
  unfold elems. pose proof (clean_elems_shape true s) as Hs. intros Hin. generalize dependent (clean_elems true (Split s "/")). intros l Hs Hin.
  apply list_elem_of_In, in_rev, list_elem_of_In in Hin. induction (rev l) as [|e st IH]; [by apply not_elem_of_nil in Hin|]. destruct Hs as (_&Hd&Hs). apply elem_of_cons in Hin as [<-|Hin]; [by destruct (Hd eq_refl)|by apply IH].
Qed.
End paths.

(** A mount point has a path exactly if the path is below its destination. *)
Theorem HasResource_iff m p : IsAbs p = true → HasResource m p = true ↔ ∃ rest, elems p = elems (Destination m) ++ rest.
Proof.
  intros Ha. unfold HasResource. rewrite Ha. cbn [andb]. rewrite negb_true_iff. unfold Rel.
  destruct (strip_common_spec (elems (Destination m)) (elems p)) as (c&H1&H2&H3). pose proof (elems_no_dotdot p) as Hno.
  destruct (strip_common (elems (Destination m)) (elems p)) as [b t]. cbn [fst snd] in *. split.
  - intros Hl. destruct b as [|x b]; [|done]. exists t. rewrite H1, app_nil_r. done.
  - intros [rest Hr]. rewrite H1, <-app_assoc in Hr. rewrite H2 in Hr. apply app_inv_head in Hr as ->.
    destruct b as [|x b]; [|exfalso; by eapply H3]. destruct rest as [|y rest]; [done|]. simpl. apply streqb_ne. intros ->. apply Hno. rewrite H2. set_solver.
Qed.
Lemma HasResource_iff_witness : HasResource (mkMount [] "/data" true [] [] None [] [] false) "/data/../data/x" = true.
Proof. apply HasResource_iff; [done|]. exists ["x"]. vm_compute. reflexivity. Defined.

Section sorting.
  Implicit Types (a b : Mount) (l : list Mount) (p rest : path).

Lemma count_path p : good p → p ≠ [] → Count (path_string p) "/" = length p.
Proof.
  intros Hp Hne. unfold Count, path_string. rewrite Split_slash_cons, Split_good by done. done.
Qed.
#[local] Instance parts_le_total : Total parts_le.
Proof. intros a b. unfold parts_le. lia. Qed.
#[local] Instance parts_le_trans : Transitive parts_le.
Proof. intros a b c. unfold parts_le. lia. Qed.
Lemma sortMounts_sorted l : StronglySorted parts_le (sortMounts l) ∧ sortMounts l ≡ₚ l.
Proof. split; [apply StronglySorted_merge_sort; apply _|apply merge_sort_Permutation]. Qed.
End sorting.

(** A mount never hides one that is made before it: the mounts are sorted so that the
    mount of a directory comes before the mounts below it. *)
Theorem mounts_parents_first a b l l1 l2 p rest :
  good (p ++ rest) → p ≠ [] → rest ≠ [] → Clean (mdest a) = path_string p → Clean (mdest b) = path_string (p ++ rest) →
  sortMounts l = l1 ++ b :: l2 → a ∈ l → a ∈ l1.
Proof.
  intros Hg Hp Hr Ha Hb Hs Hin. pose proof Hg as [Hgp _]%good_app. destruct (sortMounts_sorted l) as [Hss Hperm]. rewrite <-Hperm, Hs in Hin. rewrite Hs in Hss.
  assert (Hlt : parts a < parts b).
  { unfold parts. rewrite Ha, Hb, !count_path, length_app by (done || by destruct p). destruct rest; [done|simpl; lia]. }
  apply elem_of_app in Hin as [Hin|[->|Hin]%elem_of_cons]; [done|lia|]. apply StronglySorted_app in Hss as (_&_&[Hall _]%StronglySorted_cons).
  rewrite Forall_forall in Hall. specialize (Hall _ Hin). unfold parts_le in Hall. lia.
Qed.
Lemma mounts_parents_first_witness :
  let a := mkM "/x" "/etc" true [] in let b := mkM "/y" "/etc/ssl" true [] in a ∈ [a; mkM "/z" "/data" true []].
Proof.
  intros a b. apply (mounts_parents_first a b [b; mkM "/z" "/data" true []; a] _ [] ["etc"] ["ssl"]); try done; [vm_decide|]. set_solver.
Defined.

(** ** The local driver *)

Section local.
  Implicit Types (r : Root) (n : gostring) (p : path).

Lemma volume_name_good n : MatchString Naming.Naming.RestrictedVolumeNamePattern n = true → good_name n.
Proof.
  intros (c&u&->&Hc&Hu&Hf)%MatchString_lang%Naming.RestrictedNameChars_lang. rewrite Forall_forall in Hf.
  assert (Hcs : c ≠ ch "/" ∧ c ≠ ch ".") by (split; intros ->; vm_compute in Hc; done). repeat split; try (naive_solver).
  intros Hin. apply elem_of_cons in Hin as [Hin|Hin]; [naive_solver|]. specialize (Hf _ Hin). by vm_compute in Hf.
Qed.
Lemma DataPath_inside r n p : scope r = path_string p → good p → good_name n → DataPath r n = path_string (p ++ [volumesPathName; n; VolumeDataPathName]).
Proof.
  intros Hs Hp Hn. unfold DataPath, root_path. rewrite Hs. assert (Hv : good [volumesPathName]) by vm_decide.
  pose proof (PathJoin_path p [volumesPathName] Hp Hv) as H1. cbn [Join] in H1. rewrite H1.
  pose proof (PathJoin_path (p ++ [volumesPathName]) [n; VolumeDataPathName]) as H2. cbn [Join] in H2.
  assert (Hg2 : good [n; VolumeDataPathName]) by (apply Forall_cons; split; [done|vm_decide]). assert (Hg1 : good (p ++ [volumesPathName])) by (by apply good_app).
  specialize (H2 Hg1 Hg2). rewrite <-app_assoc in H2. cbn [app] in H2. rewrite <-H2. unfold PathJoin. destruct n as [|c n]; [by destruct Hn as [[? _] _]|]. reflexivity.
Qed.
(** Every volume of the driver is in a directory of its own below the root. *)
Definition local_ok r : Prop := ∀ n v, volumes r !! n = Some v → v = localVolume r n ∧ good_name n.
Lemma local_ok_Create io r n : local_ok r → local_ok (local_Create io r n).2 ∧ scope (local_Create io r n).2 = scope r.
Proof.
  intros Hr. unfold local_Create. destruct (MatchString _ n) eqn:Em; [|done]. cbn [negb]. destruct (volumes r !! n) eqn:En; [done|].
  destruct (io_mkdir io) as [[]|]; [done|]. split; [|done]. intros n' v'. simpl. destruct (decide (n' = n)) as [->|Hne].
  - rewrite lookup_insert_eq. intros [= <-]. split; [done|by apply volume_name_good].
  - rewrite lookup_insert_ne by done. apply Hr.
Qed.
Lemma local_ok_Remove io r v : local_ok r → local_ok (local_Remove io r v).2 ∧ scope (local_Remove io r v).2 = scope r.
Proof.
  intros Hr. assert (Hd : local_ok (mkRoot (scope r) (delete (Name v) (volumes r)))).
  { intros n v' Hv'. simpl in Hv'. apply lookup_delete_Some in Hv' as [_ Hv']. by apply Hr in Hv'. }
  unfold local_Remove, local_remove_paths. destruct (negb _); [done|]. destruct (io_eval io); [..|done]; (destruct (negb _); [done|]); by destruct (io_rm_data io).
Qed.
Lemma Base_name n : good_name n → Base n = n.
Proof. intros Hn. pose proof (Base_path [] n [] ltac:(by apply Forall_singleton) (or_introl eq_refl)) as H. done. Qed.
Lemma local_ok_New sc dirs r : New sc (Some dirs) = Some r → Forall good_name dirs → local_ok r ∧ scope r = sc.
Proof.
  intros [= <-] Hd. split; [|done]. intros n v Hv. apply elem_of_list_to_map_2, list_elem_of_fmap in Hv as (n'&[= -> ->]&Hin). rewrite Forall_forall in Hd.
  assert (Hg : good_name n') by (apply Hd; apply list_elem_of_In, in_rev; by apply list_elem_of_In). by rewrite Base_name.
Qed.

Inductive local_op := LCreate (io : localIO) (n : gostring) | LRemove (io : localIO) (v : volume).
Definition local_step r (o : local_op) : Root := match o with LCreate io n => (local_Create io r n).2 | LRemove io v => (local_Remove io r v).2 end.
Lemma local_steps ops r : local_ok r → local_ok (foldl local_step r ops) ∧ scope (foldl local_step r ops) = scope r.
Proof.
  revert r. induction ops as [|o ops IH]; intros r Hr; [done|]. simpl. assert (Ho : local_ok (local_step r o) ∧ scope (local_step r o) = scope r).
  { destruct o; [by apply local_ok_Create|by apply local_ok_Remove]. }
  destruct Ho as [Ho Hs]. rewrite <-Hs. by apply IH.
Qed.
End local.

(** The local driver keeps every volume in a directory of its own below its root,
    whatever names it is given and whichever calls of the file system fail; when a
    volume whose path is not a symbolic link is removed, its directory is deleted and
    nothing else. *)
Theorem local_volumes_inside sc p dirs r ops n v :
  sc = path_string p → good p → Forall good_name dirs → New sc (Some dirs) = Some r → volumes (foldl local_step r ops) !! n = Some v →
  good_name n ∧ v = mkVolume n DefaultDriverName (path_string (p ++ [volumesPathName; n; VolumeDataPathName])) ∧
  ∀ io x, io_eval io = NotExist ∨ io_eval io = Real (Path v) → x ∈ (local_remove_paths io (foldl local_step r ops) v).1.1 →
    x = Path v ∨ x = path_string (p ++ [volumesPathName; n]).
Proof.
  intros -> Hp Hd Hnew Hv. destruct (local_ok_New _ _ _ Hnew Hd) as [Hr Hs]. destruct (local_steps ops r Hr) as [Hr' Hs']. rewrite Hs in Hs'.
  set (r' := foldl local_step r ops) in *. destruct (Hr' n v Hv) as [-> Hn]. unfold localVolume. rewrite (DataPath_inside r' n p) by done.
  split; [done|]. split; [done|]. intros io x Hio. cbn [Path].
  assert (Hdir : Dir (path_string (p ++ [volumesPathName; n; VolumeDataPathName])) = path_string (p ++ [volumesPathName; n])).
  { change [volumesPathName; n; VolumeDataPathName] with ([volumesPathName; n] ++ [VolumeDataPathName]). rewrite app_assoc. apply Dir_string.
    rewrite <-app_assoc. apply good_app. split; [done|]. repeat (apply Forall_cons; split; [first [exact Hn|vm_decide]|]). constructor. }
  unfold local_remove_paths. cbn [DriverName Path]. change (negb (DefaultDriverName =s DefaultDriverName)) with false. cbv iota. rewrite Hdir.
  destruct Hio as [-> | ->]; (destruct (negb _); [by intros ?%not_elem_of_nil|]); destruct (io_rm_data io); cbn [fst]; set_solver.
Qed.
Lemma local_volumes_inside_witness :
  let r := mkRoot "/var/lib/docker" ∅ in
  let r' := foldl local_step r [LCreate (mkLocalIO None NotExist None None) "vol"] in
  ∃ v, volumes r' !! "vol" = Some v ∧ v = mkVolume "vol" DefaultDriverName (path_string (["var"; "lib"; "docker"] ++ [volumesPathName; "vol"; VolumeDataPathName])).
Proof.
  intros r r'. eexists. split; [vm_compute; reflexivity|].
  apply (local_volumes_inside "/var/lib/docker" ["var"; "lib"; "docker"] [] r [LCreate (mkLocalIO None NotExist None None) "vol"]);
    first [vm_decide|vm_compute; reflexivity|constructor].
Defined.

(** A volume whose data is a link to a sibling of the directory of volumes is deleted there. *)
Example sibling_in_scope : scopedPath (mkRoot "/var/lib/docker" ∅) "/var/lib/docker/volumes-backup/x" = true.
Proof. vm_compute. reflexivity. Qed.

(** ** The list of volumes *)

Section listing.
  Context {D E : Type} `{VolumeDriver D E}.
  Implicit Types (s : vstate D) (out : list volume) (v : volume).

(** The volumes that are listed are those of the drivers that the store knows. *)
Definition listed s out : Prop := ∀ v, v ∈ out → ∃ sv, names s !! Name v = Some sv ∧ DriverName sv = DriverName v.
Definition list_step out v : prog D (list volume) :=
  bind (getNamed (Name v)) (fun stored =>
    match stored with
    | None => bind (setNamed v []) (fun _ => ret (out ++ [v]))
    | Some storedV => if DriverName storedV =s DriverName v then ret (out ++ [v]) else ret out
    end).
Lemma list_step_ok out v s : listed s out → ∃ out', (list_step out v s).2 = RVal out' ∧ listed (list_step out v s).1 out'.
Proof.
  intros Hl. unfold list_step, bind, getNamed. cbn [gets]. destruct (names s !! Name v) as [sv|] eqn:Ev.
  - unfold streqb. destruct (bool_decide_reflect (DriverName sv = DriverName v)) as [Ed|]; simpl; [|by exists out].
    exists (out ++ [v]). split; [done|]. intros v' [Hin|Heq%list_elem_of_singleton]%elem_of_app; [by apply Hl|]. subst v'. eauto.
  - simpl. exists (out ++ [v]). split; [done|]. intros v' [Hin|Heq%list_elem_of_singleton]%elem_of_app; simpl; [|subst v'; rewrite lookup_insert_eq; eauto].
    destruct (Hl v' Hin) as (sv&Hsv&Hd). exists sv. split; [|done]. rewrite lookup_insert_ne; [done|]. intros E'. rewrite E' in Ev. congruence.
Qed.
Lemma list_loop_ok l out s : listed s out → ∃ out', (foldM list_step out l s).2 = RVal out' ∧ listed (foldM list_step out l s).1 out'.
Proof.
  revert out s. induction l as [|v l IH]; intros out s Hl; [by exists out|]. cbn [foldM]. destruct (list_step_ok out v s Hl) as (out'&Hr&Hl').
  unfold bind. destruct (list_step out v s) as [s1 r]. cbn [fst snd] in *. subst r. by apply IH.
Qed.
End listing.

(** C0: of volumes with one name that belong to different drivers at most those of one
    driver are listed, whatever the drivers answer and in which order. *)
Theorem List_no_conflict {D E} `{VolumeDriver D E} (env : venv D E) (s s' : vstate D) out ws v v' :
  List env s = (s', RVal (out, ws)) → v ∈ out → v' ∈ out → Name v = Name v' → DriverName v = DriverName v'.
Proof.
  intros Hl Hv Hv' Hn. assert (Hout : listed s' out).
  { unfold List in Hl. unfold bind at 1 in Hl. destruct (on_err (list_drivers env) _ s) as [s1 [x|e|]]; [|done..]. change (fun out v => _) with (@list_step D) in Hl.
    destruct (list_loop_ok x.1 [] s1) as (out'&Hr&Hl'); [by intros ? ?%not_elem_of_nil|]. unfold bind in Hl. destruct (foldM list_step [] x.1 s1) as [s2 r]. cbn [fst snd] in *. subst r.
    by injection Hl as <- <- <-. }
  destruct (Hout v Hv) as (sv&H1&H2). destruct (Hout v' Hv') as (sv'&H1'&H2'). rewrite Hn in H1. congruence.
Qed.
