(* ===== verification/MountsFacts.v ===== *)
(** * MountsFacts: volumes that are in use are kept

    What the operations of [VolumeStore] and [Mounts] keep: the removal of a reference,
    the references of containers that stay, and examples of references that are lost
    or left behind. *)

From S2P Require Import Prelude GoPath Volume VolumeStore Mounts.
Import Strings GoPath Volume.Volume VolumeStore.VolumeStore Mounts.Mounts.

(** ** Dereference *)

(** What the loop computes: after an element that is removed the next one is skipped. *)
Fixpoint skip_remove (ref : gostring) (l : list gostring) : list gostring :=
  match l with
  | [] => []
  | x :: l =>
      if bool_decide (x = ref) then match l with [] => [] | y :: l => y :: skip_remove ref l end
      else x :: skip_remove ref l
  end.

(** It goes out of bounds if the last element is to be removed, and another was before. *)
Definition out_of_bounds (ref : gostring) (l : list gostring) : bool := bool_decide (last l = Some ref) && bool_decide (ref ∈ removelast l).

Section deref.
  Implicit Types (ref L x : gostring) (done rest stale l arr : list gostring).

(** Past the end of the slice in the map. *)
Lemma past_loop ref L arr len n i :
  len ≤ i → n + i = length arr → (∀ j x, len ≤ j → arr !! j = Some x → x = L) →
  deref_loop n i ref arr len = (arr, len, negb (bool_decide (L = ref) && (0 <? n))).
Proof.
  revert i. induction n as [|n IH]; intros i Hi Hn HL; [simpl; by rewrite andb_false_r|].
  destruct (arr !! i) as [x|] eqn:Ex; [|apply lookup_ge_None in Ex; lia]. pose proof (HL i x Hi Ex) as ->. cbn [deref_loop]. rewrite Ex.
  destruct (decide (L = ref)) as [->|Hne].
  - rewrite !bool_decide_true by done. assert ((len <? S i) = true) as -> by (apply Nat.ltb_lt; lia). done.
  - rewrite !bool_decide_false by congruence. rewrite IH by (done || lia). by rewrite bool_decide_false.
Qed.

(** One step of the loop that removes an element. *)
Lemma cut_step done x rest stale :
  take (length done) (done ++ (x :: rest) ++ stale) ++ drop (S (length done)) (take (length done + length (x :: rest)) (done ++ (x :: rest) ++ stale)) ++
    drop (length done + length (x :: rest) - 1) (done ++ (x :: rest) ++ stale) =
  done ++ rest ++ drop (length rest) (x :: rest) ++ stale.
Proof.
  rewrite take_app_length, (app_assoc done (x :: rest) stale), <-length_app, take_app_length.
  replace (length (done ++ x :: rest) - 1) with (length rest + length done) by (rewrite length_app; simpl; lia).
  rewrite <-app_assoc, (drop_app_ge done ((x :: rest) ++ stale)), Nat.add_sub, (drop_app_le (x :: rest) stale) by (simpl; lia).
  change (x :: rest) with ([x] ++ rest) at 1. rewrite (app_assoc done [x] rest).
  replace (S (length done)) with (length (done ++ [x])) by (rewrite length_app; simpl; lia). by rewrite drop_app_length.
Qed.
Lemma last_drop x rest L : last (x :: rest) = Some L → drop (length rest) (x :: rest) = [L].
Proof.
  intros H. destruct rest as [|y rest _] using rev_ind; [simpl in *; congruence|]. change (x :: rest ++ [y]) with ((x :: rest) ++ [y]) in *.
  rewrite last_snoc in H. injection H as ->. replace (length (rest ++ [L])) with (length (x :: rest)) by (rewrite length_app; simpl; lia). by rewrite drop_app_length.
Qed.

Lemma nonempty_bool stale ref : (0 <? length stale) = bool_decide (stale ≠ []) || bool_decide (ref ∈ []).
Proof. rewrite (bool_decide_false (ref ∈ [])) by apply not_elem_of_nil. rewrite orb_false_r. by destruct stale. Qed.

Lemma deref_loop_spec ref L rest : ∀ done stale,
  Forall (fun x => x = L) stale → (rest ≠ [] → last rest = Some L) →
  ∃ arr, deref_loop (length rest + length stale) (length done) ref (done ++ rest ++ stale) (length done + length rest) =
    (arr, length done + length (skip_remove ref rest), negb (bool_decide (L = ref) && (bool_decide (stale ≠ []) || bool_decide (ref ∈ removelast rest)))) ∧
    take (length done + length (skip_remove ref rest)) arr = done ++ skip_remove ref rest.
Proof.
  remember (length rest) as k eqn:Hk. revert rest Hk. induction (Nat.lt_wf_0 k) as [k _ IH]. intros rest -> done stale Hst Hlast.
  destruct rest as [|x rest].
  - cbn [length skip_remove app removelast Nat.add]. rewrite Nat.add_0_r, app_nil_r. eexists. split.
    + rewrite (past_loop ref L); [|lia|rewrite length_app; lia|].
      * by rewrite (nonempty_bool stale ref).
      * intros j y Hj Hy. rewrite lookup_app_r in Hy by done. apply list_elem_of_lookup_2 in Hy. rewrite Forall_forall in Hst. by apply Hst.
    + by rewrite take_app_length.
  - cbn [Nat.add length deref_loop]. rewrite lookup_app_r, Nat.sub_diag by done. cbn [app lookup list_lookup].
    destruct (decide (x = ref)) as [->|Hx].
    + rewrite bool_decide_true by done. assert ((length done + S (length rest) <? S (length done)) = false) as -> by (apply Nat.ltb_ge; lia).
      pose proof (cut_step done ref rest stale) as Hcut. cbn [app length] in Hcut. rewrite Hcut, (last_drop _ _ L) by (by apply Hlast). clear Hcut.
      replace (length done + S (length rest) - 1) with (length done + length rest) by lia.
      assert (HLst : Forall (fun z => z = L) (L :: stale)) by (by constructor). destruct rest as [|y rest].
      * assert (L = ref) as -> by (specialize (Hlast ltac:(done)); simpl in Hlast; congruence). cbn [length skip_remove]. rewrite bool_decide_true by done.
        cbn [length app removelast Nat.add] in *. rewrite !Nat.add_0_r. eexists. split.
        -- rewrite (past_loop ref ref); [|lia|rewrite length_app; simpl; lia|].
           ++ by rewrite (nonempty_bool stale ref), bool_decide_true.
           ++ intros j z Hj Hz. rewrite lookup_app_r in Hz by done. apply list_elem_of_lookup_2 in Hz. rewrite Forall_forall in HLst. by apply HLst.
        -- by rewrite take_app_length, app_nil_r.
      * cbn [skip_remove]. rewrite bool_decide_true by done. destruct (IH (length rest) ltac:(simpl; lia) rest eq_refl (done ++ [y]) (L :: stale) HLst) as (arr&Hl&Ht).
        { intros Hne. specialize (Hlast ltac:(done)). destruct rest; [done|exact Hlast]. }
        rewrite !length_app in Hl, Ht. cbn [length] in Hl, Ht. rewrite <-!app_assoc in Hl, Ht. cbn [app] in Hl, Ht. exists arr. cbn [length].
        replace (length done + S (length (skip_remove ref rest))) with (length done + 1 + length (skip_remove ref rest)) by lia. split; [|done].
        replace (length rest + S (length stale)) with (S (length rest) + length stale) in Hl by lia.
        replace (length done + 1) with (S (length done)) in Hl |- * by lia. replace (length done + S (length rest)) with (S (length done) + length rest) by lia.
        cbn [app length] in Hl |- *. rewrite Hl. f_equal. f_equal. f_equal. rewrite (bool_decide_true (_ :: _ ≠ [])) by done. cbn [orb].
        rewrite (bool_decide_true (ref ∈ _)) by (destruct rest; by left). by rewrite orb_true_r.
    + rewrite bool_decide_false by congruence. cbn [skip_remove]. rewrite bool_decide_false by done.
      destruct (IH (length rest) ltac:(simpl; lia) rest eq_refl (done ++ [x]) stale Hst) as (arr&Hl&Ht).
      { intros Hne. specialize (Hlast ltac:(done)). destruct rest; [done|exact Hlast]. }
      rewrite !length_app in Hl, Ht. cbn [length] in Hl, Ht. rewrite <-!app_assoc in Hl, Ht. cbn [app] in Hl, Ht. exists arr. cbn [length].
      replace (length done + S (length (skip_remove ref rest))) with (length done + 1 + length (skip_remove ref rest)) by lia. split; [|done].
      replace (length done + S (length rest)) with (length done + 1 + length rest) by lia. replace (S (length done)) with (length done + 1) by lia. rewrite Hl.
      f_equal. f_equal. destruct (decide (L = ref)) as [->|HL]; [|by rewrite bool_decide_false]. f_equal. f_equal. apply bool_decide_ext.
      destruct rest as [|y rest]; [|cbn [removelast]; rewrite elem_of_cons; naive_solver].
      specialize (Hlast ltac:(done)). simpl in Hlast. congruence.
Qed.

Lemma deref_spec ref l :
  ∃ arr, deref_loop (length l) 0 ref l (length l) = (arr, length (skip_remove ref l), negb (out_of_bounds ref l)) ∧
    take (length (skip_remove ref l)) arr = skip_remove ref l.
Proof.
  destruct (last l) as [L|] eqn:El.
  - destruct (deref_loop_spec ref L l [] [] (Forall_nil_2 _) (fun _ => El)) as (arr&Hl&Ht). cbn [app length Nat.add] in *. rewrite app_nil_r, Nat.add_0_r in Hl.
    exists arr. split; [|done]. rewrite Hl. f_equal. unfold out_of_bounds. rewrite El. f_equal. rewrite (bool_decide_false ([] ≠ [])) by auto. cbn [orb].
    f_equal. apply bool_decide_ext. naive_solver.
  - apply last_None in El as ->. by exists [].
Qed.

(** What is not removed is kept; without repetition exactly [ref] is removed. *)
Lemma elem_of_skip x ref l : x ≠ ref → x ∈ l → x ∈ skip_remove ref l.
Proof.
  intros Hx. remember (length l) as k eqn:Hk. revert l Hk. induction (Nat.lt_wf_0 k) as [k _ IH]. intros [|y l] -> Hin; [done|]. simpl.
  destruct (bool_decide_reflect (y = ref)) as [->|Hy].
  - apply elem_of_cons in Hin as [?|Hin]; [done|]. destruct l as [|z l]; [by apply not_elem_of_nil in Hin|]. apply elem_of_cons in Hin as [->|Hin]; [by left|].
    right. eapply (IH (length l)); [simpl; lia|done|done].
  - apply elem_of_cons in Hin as [->|Hin]; [by left|]. right. eapply (IH (length l)); [simpl; lia|done|done].
Qed.
Lemma skip_subset ref l x : x ∈ skip_remove ref l → x ∈ l.
Proof.
  remember (length l) as k eqn:Hk. revert l Hk. induction (Nat.lt_wf_0 k) as [k _ IH]. intros [|y l] -> Hin; [done|]. simpl in Hin.
  destruct (bool_decide_reflect (y = ref)) as [->|Hy].
  - destruct l as [|z l]; [by apply not_elem_of_nil in Hin|]. apply elem_of_cons in Hin as [->|Hin]; [set_solver|].
    right. right. eapply (IH (length l)); [simpl; lia|done|done].
  - apply elem_of_cons in Hin as [->|Hin]; [by left|]. right. eapply (IH (length l)); [simpl; lia|done|done].
Qed.
Lemma skip_notin ref l : ref ∉ l → skip_remove ref l = l.
Proof. induction l as [|x l IH]; intros Hin; [done|]. apply not_elem_of_cons in Hin as [Hx Hin]. simpl. rewrite bool_decide_false by congruence. by rewrite IH. Qed.
Lemma skip_NoDup ref l : NoDup l → skip_remove ref l = filter (fun x => x ≠ ref) l.
Proof.
  induction 1 as [|x l Hx Hl IH]; [done|]. simpl. destruct (bool_decide_reflect (x = ref)) as [->|Hne].
  - rewrite filter_cons_False by naive_solver. rewrite list_filter_all; [|apply Forall_forall; intros y Hy ->; done]. destruct l as [|y l]; [done|].
    rewrite skip_notin; [done|]. by apply not_elem_of_cons in Hx as [_ ?].
  - by rewrite filter_cons_True, IH.
Qed.
Lemma NoDup_in_bounds ref l : NoDup l → out_of_bounds ref l = false.
Proof.
  intros Hn. unfold out_of_bounds. destruct l as [|y l _] using rev_ind; [done|]. rewrite last_snoc, removelast_last. apply NoDup_app in Hn as (_&Hn&_).
  apply andb_false_iff. destruct (decide (y = ref)) as [->|Hy]; [right; apply bool_decide_eq_false; intros Hin; apply (Hn _ Hin); by left|left; by apply bool_decide_eq_false; congruence].
Qed.
End deref.

(** ** References that are kept *)

Section safe.
  Context {D E : Type} `{VolumeDriver D E}.
  Abbreviation state := (vstate D).
  Abbreviation M := (prog D).
  Implicit Types (s : state) (id ref n x d : gostring) (v : volume) (ms : gmap gostring MountPoint) (env : venv D E).

(** [x] refers to the volume [n]. *)
Definition refd s n x : Prop := ∃ l, refs s !! n = Some l ∧ x ∈ l.
Definition known s : Prop := ∀ n x, refd s n x → is_Some (names s !! n).
(** Containers stay as they are, and references only go if they are in [lose]. *)
Record grows (lose : gostring → Prop) s s' : Prop := {
  gr_containers : containers s' = containers s;
  gr_refs : ∀ n x, ¬ lose x → refd s n x → refd s' n x;
  gr_known : known s → known s'
}.
Definition nothing (x : gostring) : Prop := False.
Lemma grows_refl lose s : grows lose s s.
Proof. by split. Qed.
Lemma grows_trans lose s1 s2 s3 : grows lose s1 s2 → grows lose s2 s3 → grows lose s1 s3.
Proof. intros [A1 A2 A3] [B1 B2 B3]. split; [congruence|eauto|eauto]. Qed.
Lemma grows_weaken lose s s' : grows nothing s s' → grows lose s s'.
Proof. intros [A1 A2 A3]. split; [done| |done]. intros n x _. by apply A2; intros []. Qed.

(** A program that only [grows] the state, and what holds of its result. *)
Definition ok {A} (lose : gostring → Prop) (P : state → Prop) (m : M A) (Q : A → state → Prop) : Prop :=
  ∀ s, P s → grows lose s (m s).1 ∧ ∀ y, (m s).2 = RVal y → Q y (m s).1.

Lemma grow_ret {A} lose (P : state → Prop) (y : A) (Q : A → state → Prop) : (∀ s, P s → Q y s) → ok lose P (ret y) Q.
Proof. intros HQ s Hs. split; [apply grows_refl|]. intros z Hz. injection Hz as <-. by apply HQ. Qed.
Lemma grow_gets {A} lose (P : state → Prop) (f : state → A) (Q : A → state → Prop) : (∀ s, P s → Q (f s) s) → ok lose P (gets f) Q.
Proof. intros HQ s Hs. split; [apply grows_refl|]. intros z Hz. injection Hz as <-. by apply HQ. Qed.
Lemma grow_throw {A} lose P e (Q : A → state → Prop) : ok lose P (throw e) Q.
Proof. intros s Hs. split; [apply grows_refl|done]. Qed.
Lemma grow_panic {A} lose P (Q : A → state → Prop) : ok lose P panic Q.
Proof. intros s Hs. split; [apply grows_refl|done]. Qed.
Lemma grow_bind {A B} lose P (m : M A) (k : A → M B) Q Q' : ok lose P m Q → (∀ y, ok lose (Q y) (k y) Q') → ok lose P (bind m k) Q'.
Proof.
  intros Hm Hk s Hs. destruct (Hm s Hs) as [Hg HQ]. unfold bind. destruct (m s) as [s1 [y|e|]]; cbn [fst snd] in *; [|by split..].
  destruct (Hk y s1 (HQ y eq_refl)) as [Hg' HQ']. split; [by eapply grows_trans|done].
Qed.
Lemma grow_try {A} lose P (m : M A) Q : ok lose P m Q → ok lose P (try m) (fun r s => match r with Ok y => Q y s | Err _ => True end).
Proof.
  intros Hm s Hs. destruct (Hm s Hs) as [Hg HQ]. unfold try. destruct (m s) as [s1 [y|e|]]; cbn [fst snd] in *; (split; [done|]); intros z Hz; try done;
    injection Hz as <-; [by apply HQ|done].
Qed.
Lemma grow_on_err {A} lose P (m : M A) f Q : ok lose P m Q → ok lose P (on_err m f) Q.
Proof.
  intros Hm s Hs. destruct (Hm s Hs) as [Hg HQ]. unfold on_err. destruct (m s) as [s1 [y|e|]]; cbn [fst snd] in *; (split; [done|]); intros z Hz; try done.
  injection Hz as <-. by apply HQ.
Qed.
Lemma grow_conseq {A} lose (P P' : state → Prop) (m : M A) (Q Q' : A → state → Prop) :
  ok lose P m Q → (∀ s, P' s → P s) → (∀ y s, Q y s → Q' y s) → ok lose P' m Q'.
Proof. intros Hm HP HQ s Hs. destruct (Hm s (HP s Hs)). eauto. Qed.
(** What [grows] keeps is a frame. *)
Lemma grow_frame {A} lose P (m : M A) Q (F : state → Prop) :
  ok lose P m Q → (∀ s s', grows lose s s' → F s → F s') → ok lose (fun s => P s ∧ F s) m (fun y s => Q y s ∧ F s).
Proof. intros Hm HF s [Hs Hf]. destruct (Hm s Hs) as [Hg HQ]. split; [done|]. eauto. Qed.
Lemma grow_weaken {A} lose P (m : M A) Q : ok nothing P m Q → ok lose P m Q.
Proof. intros Hm s Hs. destruct (Hm s Hs). split; [by apply grows_weaken|done]. Qed.
Lemma grow_foldM {A B} lose (I : B → state → Prop) (f : B → A → M B) l : (∀ b y, ok lose (I b) (f b y) I) → ∀ b, ok lose (I b) (foldM f b l) I.
Proof. intros Hf. induction l as [|y l IH]; intros b; [by apply grow_ret|]. cbn [foldM]. eapply grow_bind; [apply Hf|apply IH]. Qed.

Definition any {A} (y : A) s : Prop := True.
Lemma grow_loop {A B} lose P (f : B → A → M B) l b : (∀ b y, ok lose (any b) (f b y) any) → ok lose P (foldM f b l) any.
Proof. intros Hf. eapply grow_conseq; [by apply (grow_foldM _ any)|done|done]. Qed.
Lemma grow_if {A} lose P (b : bool) (m m' : M A) Q : ok lose P m Q → ok lose P m' Q → ok lose P (if b then m else m') Q.
Proof. by destruct b. Qed.

(** *** Drivers *)

Lemma grows_extensions lose f s : grows lose s (set_extensions f s).
Proof. by split. Qed.
Lemma grow_set_extensions lose P f : ok lose P (modify (set_extensions f)) any.
Proof. intros s Hs. split; [apply grows_extensions|done]. Qed.
Lemma grow_Lookup lose P env n : ok lose P (Lookup env n) any.
Proof.
  eapply grow_bind; [by apply (grow_gets _ _ _ any)|]. intros ds. destruct (ds !! n); [by apply grow_ret|]. destruct (plugins_Get env n); [|apply grow_throw].
  eapply grow_bind; [apply grow_set_extensions|]. intros ?. by apply grow_ret.
Qed.
Lemma grow_with_driver {A} lose P n (f : D → result gostring A * D) : ok lose P (with_driver n f) any.
Proof.
  eapply grow_bind; [by apply (grow_gets _ _ _ any)|]. intros ds. destruct (ds !! n) as [dr|]; [|apply grow_throw]. destruct (f dr) as [r dr'].
  eapply grow_bind; [apply grow_set_extensions|]. intros ?. destruct r; [by apply grow_ret|apply grow_throw].
Qed.
Lemma grow_GetAllDrivers lose P env : ok lose P (GetAllDrivers env) any.
Proof.
  unfold GetAllDrivers. destruct (plugins_GetAll env); [|apply grow_throw]. eapply grow_bind; [by apply (grow_gets _ _ _ any)|]. intros ds. apply grow_foldM.
  intros b p. eapply grow_bind; [by apply (grow_gets _ _ _ any)|]. intros k. destruct (k !! _); [by apply grow_ret|].
  eapply grow_bind; [apply grow_set_extensions|]. intros ?. by apply grow_ret.
Qed.

(** *** The store *)

Lemma refd_setNamed v ref s n x : refd s n x → refd (setNamed v ref s).1 n x.
Proof.
  intros (l&Hl&Hx). unfold setNamed, bind, refd. simpl. destruct (ref =s []); simpl; [by exists l|]. destruct (decide (n = Name v)) as [->|Hn].
  - exists (l ++ [ref]). rewrite lookup_insert_eq, Hl. set_solver.
  - exists l. by rewrite lookup_insert_ne.
Qed.
Lemma grow_setNamed lose P v ref : ok lose P (setNamed v ref) (fun _ s => ref ≠ [] → refd s (Name v) ref).
Proof.
  intros s Hs. assert (Hr : ref ≠ [] → refd (setNamed v ref s).1 (Name v) ref).
  { intros Hne. unfold setNamed, bind, refd. simpl. rewrite streqb_ne by done. simpl. eexists. rewrite lookup_insert_eq. split; [done|]. set_solver. }
  split; [|done]. split.
  - unfold setNamed, bind. simpl. by destruct (ref =s []).
  - intros n x _. apply refd_setNamed.
  - intros Hk n x. unfold setNamed, bind, refd. simpl. destruct (decide (n = Name v)) as [->|Hn].
    + intros _. destruct (ref =s []); simpl; by rewrite lookup_insert_eq.
    + destruct (ref =s []); simpl; rewrite ?lookup_insert_ne by done; intros Hx; by apply (Hk n x).
Qed.
Lemma grow_create lose P env n dn : ok lose P (create env n dn) any.
Proof.
  eapply grow_bind; [by apply (grow_gets _ _ _ any)|]. intros [v|]; [apply grow_if; [apply grow_throw|by apply grow_ret]|].
  eapply grow_bind; [apply grow_on_err, grow_Lookup|]. intros vd. eapply grow_bind; [apply grow_try, grow_with_driver|]. intros [v|e]; [by apply grow_ret|apply grow_with_driver].
Qed.
Lemma grow_CreateWithRef lose P env n dn ref : ok lose P (CreateWithRef env n dn ref) (fun v s => ref ≠ [] → refd s (Name v) ref).
Proof.
  eapply grow_bind; [apply grow_on_err, grow_create|]. intros v. eapply grow_bind; [apply grow_setNamed|]. intros ?. by apply grow_ret.
Qed.
Lemma grow_GetWithRef lose P env n dn ref : ok lose P (GetWithRef env n dn ref) (fun v s => ref ≠ [] → refd s (Name v) ref).
Proof.
  eapply grow_bind; [eapply grow_on_err, grow_bind; [apply grow_Lookup|intros ?; apply grow_with_driver]|]. intros v. eapply grow_bind; [apply grow_setNamed|]. intros ?. by apply grow_ret.
Qed.
Lemma grow_probe lose P env ds n : ok lose P (probe env ds n) any.
Proof.
  induction ds as [|d ds IH] in P |- *; [apply grow_throw|]. eapply grow_bind; [apply grow_try, grow_with_driver|]. intros [v|e]; [by apply grow_ret|apply IH].
Qed.
Lemma grow_Get lose P env n : ok lose P (Get env n) any.
Proof.
  eapply grow_bind.
  - eapply grow_on_err, grow_bind; [by apply (grow_gets _ _ _ any)|]. intros [v|]; (eapply grow_bind; [apply grow_Lookup || apply grow_GetAllDrivers|]); intros ?; [apply grow_with_driver|apply grow_probe].
  - intros v. eapply grow_bind; [apply grow_setNamed|]. intros ?. by apply grow_ret.
Qed.
Lemma grow_List lose P env : ok lose P (List env) any.
Proof.
  eapply grow_bind.
  - eapply grow_on_err, grow_bind; [apply grow_GetAllDrivers|]. intros ds. eapply grow_bind; [eapply grow_loop|].
    + intros b y. eapply grow_bind; [apply grow_try, grow_with_driver|]. intros r. by apply grow_ret.
    + intros b. eapply grow_bind; [by apply (grow_gets _ _ _ any)|]. intros st. by apply (grow_ret _ _ _ any).
  - intros [vols ws]. eapply grow_bind; [eapply grow_loop|intros out; by apply (grow_ret _ _ _ any)].
    intros out v. eapply grow_bind; [by apply (grow_gets _ _ _ any)|]. intros [v'|]; [apply grow_if; by apply grow_ret|]. eapply grow_bind; [apply grow_setNamed|]. intros ?. by apply grow_ret.
Qed.

(** Looking up and calling a driver changes nothing else. *)
Definition ext s s' : Prop := ∃ f, s' = set_extensions f s.
Lemma ext_Lookup env n s : ext s (Lookup env n s).1.
Proof.
  unfold Lookup, bind. simpl. destruct (extensions s !! n); simpl; [exists (fun m => m); by destruct s|]. destruct (plugins_Get env n); simpl; [by eexists|].
  exists (fun m => m). by destruct s.
Qed.
Lemma ext_with_driver {A} n (f : D → result gostring A * D) s : ext s (with_driver n f s).1.
Proof.
  unfold with_driver, bind. simpl. destruct (extensions s !! n) as [dr|]; simpl; [|exists (fun m => m); by destruct s]. destruct (f dr) as [[y|e] dr']; simpl; by eexists.
Qed.

(** A volume without references is removed, and others are kept. *)
Lemma grows_purge lose n s s' : ext s s' → (∀ x, ¬ refd s n x) → grows lose s (purge n s').1.
Proof.
  intros [f ->] Hno. split; [done| |].
  - intros n' x _ (l&Hl&Hx). destruct (decide (n' = n)) as [->|Hn]; [exfalso; apply (Hno x); by exists l|]. exists l. simpl. by rewrite lookup_delete_ne.
  - intros Hk n' x (l&Hl&Hx). cbn in Hl |- *. destruct (decide (n' = n)) as [->|Hn]; [by rewrite lookup_delete_eq in Hl|]. rewrite lookup_delete_ne by done. rewrite lookup_delete_ne in Hl by done.
    apply (Hk n' x). by exists l.
Qed.
Lemma grows_ext lose s s' : ext s s' → grows lose s s'.
Proof. intros [f ->]. apply grows_extensions. Qed.
Lemma ext_trans s1 s2 s3 : ext s1 s2 → ext s2 s3 → ext s1 s3.
Proof. intros [f ->] [g ->]. by exists (fun m => g (f m)). Qed.
Lemma remove_unreferenced lose env v s : (∀ x, ¬ refd s (Name v) x) →
  grows lose s (bind (try (GetDriver env (DriverName v))) (fun vd => match vd with
    | Err _ => panic
    | Ok vd => bind (on_err (drv_Remove env vd v) (fun e => OpErr e "remove" (Name v) [])) (fun _ => purge (Name v)) end) s).1.
Proof.
  intros Hno. pose proof (ext_Lookup env (if DriverName v =s [] then DefaultDriverName else DriverName v) s) as He. unfold bind at 1, try, GetDriver.
  destruct (Lookup env _ s) as [s1 [vd|e|]]; cbn [fst snd] in *; [|by apply grows_ext..].
  assert (He' : ext s1 (drv_Remove env vd v s1).1) by apply ext_with_driver. unfold bind, on_err. destruct (drv_Remove env vd v s1) as [s2 [u|e|]]; cbn [fst snd] in *.
  - apply grows_purge; [by eapply ext_trans|done].
  - apply grows_ext. by eapply ext_trans.
  - apply grows_ext. by eapply ext_trans.
Qed.
Lemma grow_Remove lose P env v : ok lose P (Remove env v) any.
Proof.
  intros s _. split; [|done]. unfold Remove, bind at 1. cbn [gets fst snd]. destruct (refs s !! Name v) as [[|r l]|] eqn:Er; [|apply grows_refl|].
  all: apply remove_unreferenced; intros x (l'&Hl'&Hx); rewrite Er in Hl'; simplify_eq; by apply not_elem_of_nil in Hx.
Qed.
Lemma Remove_refused env v s x : refd s (Name v) x → ∃ l, x ∈ l ∧ Remove env v s = (s, RErr (OpErr errVolumeInUse "remove" (Name v) l)).
Proof.
  intros (l&Hl&Hx). exists l. split; [done|]. unfold Remove, bind. cbn [gets]. rewrite Hl. destruct l; [by apply not_elem_of_nil in Hx|done].
Qed.

(** A reference that is removed does not take others with it. *)
Lemma Dereference_eq v ref s l :
  refs s !! Name v = Some l →
  Dereference v ref s = (set_refs (<[Name v := skip_remove ref l]>) s, if out_of_bounds ref l then RPanic else RVal tt).
Proof.
  intros Hl. unfold Dereference, bind. cbn [gets]. rewrite Hl. destruct (deref_spec ref l) as (arr&Hd&Ht). rewrite Hd, Ht. simpl. by destruct (out_of_bounds ref l).
Qed.
Lemma grow_Dereference P v ref : ok (fun x => x = ref) P (Dereference v ref) any.
Proof.
  intros s _. split; [|done]. destruct (refs s !! Name v) as [l|] eqn:Hl.
  2: { unfold Dereference, bind. cbn [gets]. rewrite Hl. apply grows_refl. }
  rewrite (Dereference_eq _ _ _ l Hl). cbn [fst]. assert (Hsub : ∀ x, x ∈ skip_remove ref l → x ∈ l) by apply skip_subset. split; [done| |].
  - intros n x Hx (l'&Hl'&Hin). unfold refd. simpl. destruct (decide (n = Name v)) as [->|Hn]; [|exists l'; by rewrite lookup_insert_ne].
    exists (skip_remove ref l). rewrite lookup_insert_eq. split; [done|]. apply elem_of_skip; [done|]. congruence.
  - intros Hk n x (l'&Hl'&Hin). simpl in *. destruct (decide (n = Name v)) as [->|Hn].
    + rewrite lookup_insert_eq in Hl'. injection Hl' as <-. apply (Hk (Name v) x). exists l. auto.
    + rewrite lookup_insert_ne in Hl' by done. apply (Hk n x). by exists l'.
Qed.

(** *** Mount points *)

(** The volumes of mount points are referred to. *)
Definition held id ms s : Prop := ∀ d m v, ms !! d = Some m → mVolume m = Some v → refd s (Name v) id.
Definition held_point id (m : MountPoint) s : Prop := ∀ v, mVolume m = Some v → refd s (Name v) id.
Lemma held_insert id ms d m s : held id ms s → held_point id m s → held id (<[d := m]> ms) s.
Proof.
  intros Hms Hm d' m' v. destruct (decide (d' = d)) as [->|Hd]; [rewrite lookup_insert_eq; intros [= <-]; apply Hm|rewrite lookup_insert_ne by done; apply Hms].
Qed.
Lemma held_grows id ms s s' : grows nothing s s' → held id ms s → held id ms s'.
Proof. intros Hg Hh d m v Hm Hv. apply (gr_refs _ _ _ Hg); [by intros []|by eapply Hh]. Qed.
Lemma held_point_none id m s : mVolume m = None → held_point id m s.
Proof. intros Hm v Hv. congruence. Qed.

  Implicit Types (denv : @denv D E).

Lemma grow_GetWithRef_held env n dn id ms : id ≠ [] → ok nothing (held id ms) (GetWithRef env n dn id) (fun v s => refd s (Name v) id ∧ held id ms s).
Proof.
  intros Hid. eapply grow_conseq; [eapply (grow_frame nothing (fun _ => True) _ _ (held id ms)); [apply grow_GetWithRef|intros s s' Hg; by apply held_grows]|done|].
  intros v s [Hr Hh]. auto.
Qed.
Lemma grow_CreateWithRef_held env n dn id ms : id ≠ [] → ok nothing (held id ms) (CreateWithRef env n dn id) (fun v s => refd s (Name v) id ∧ held id ms s).
Proof.
  intros Hid. eapply grow_conseq; [eapply (grow_frame nothing (fun _ => True) _ _ (held id ms)); [apply grow_CreateWithRef|intros s s' Hg; by apply held_grows]|done|].
  intros v s [Hr Hh]. auto.
Qed.

Lemma grow_mount_from denv id mode ms m : id ≠ [] → ok nothing (held id ms) (mount_from denv id mode ms m) (held id).
Proof.
  intros Hid. unfold mount_from. apply grow_if; [|apply grow_ret; intros s Hs; by apply held_insert, held_point_none].
  eapply grow_bind; [by apply grow_GetWithRef_held|]. intros v. apply grow_ret. intros s [Hr Hh]. apply held_insert; [done|]. intros v' Hv'. simpl in Hv'. by injection Hv' as <-.
Qed.
Lemma grow_volumes_from denv id ms spec : id ≠ [] → ok nothing (held id ms) (volumes_from denv id ms spec) (held id).
Proof.
  intros Hid. unfold volumes_from. destruct (ParseVolumesFrom spec) as [[n mode]|]; [|apply grow_throw]. destruct (resolve denv n); [|apply grow_throw].
  eapply grow_bind; [by apply (grow_gets _ _ _ (fun _ => held id ms))|]. intros ms'. apply (grow_foldM nothing (held id)). intros b m. by apply grow_mount_from.
Qed.
Lemma spec_no_volume b vd m : ParseMountSpec b vd = Ok m → mVolume m = None.
Proof.
  unfold ParseMountSpec. destruct (spec_parts b) as [[[[[src dst] mode] rw] prop]|]; [|done]. destruct (negb _); [done|]. destruct (_ =s _); [done|].
  destruct (ParseVolumeSource src) as [n src']. destruct (src' =s []); [destruct (HasPropagation mode); [done|]|]; by intros [= <-].
Qed.
Lemma grow_bind_mount denv id vd acc b : id ≠ [] → ok nothing (held id acc.2) (bind_mount denv id vd acc b) (fun acc => held id acc.2).
Proof.
  intros Hid. destruct acc as [ds ms]. unfold bind_mount. cbn [snd]. destruct (ParseMountSpec b vd) as [m|] eqn:Em; [|apply grow_throw]. apply grow_if; [apply grow_throw|].
  eapply (grow_bind _ _ _ _ (fun m s => held_point id m s ∧ held id ms s)).
  - apply grow_if; [|apply grow_ret; intros s Hs; split; [apply held_point_none; by eapply spec_no_volume|done]].
    eapply grow_bind; [by apply grow_CreateWithRef_held|]. intros v. apply grow_ret. intros s [Hr Hh]. split; [|done]. intros v' Hv'. simpl in Hv'. by injection Hv' as <-.
  - intros m'. apply grow_if; [apply grow_throw|]. apply grow_ret. intros s [Hm Hh]. by apply held_insert.
Qed.

(** ** States *)

(** What the mounts of containers, but for one, refer to. *)
Definition kept (except : gostring → Prop) s : Prop := (∀ id ms, ¬ except id → containers s !! id = Some ms → held id ms s) ∧ known s.
Abbreviation inv := (kept nothing).
Lemma kept_grows except s s' : grows except s s' → kept except s → kept except s'.
Proof.
  intros Hg [Hh Hk]. split; [|by apply (gr_known _ _ _ Hg)]. intros id ms Hid Hms d m v Hm Hv. apply (gr_refs _ _ _ Hg); [done|].
  rewrite (gr_containers _ _ _ Hg) in Hms. by eapply Hh.
Qed.
Lemma kept_weaken except s : inv s → kept except s.
Proof. intros [Hh Hk]. split; [|done]. intros id ms _. apply Hh. by intros []. Qed.
Lemma kept_set except id ms f s : kept except s → (¬ except id → held id ms s) → (∀ id', id' ≠ id → f (containers s) !! id' = containers s !! id') → 
  (f (containers s) !! id = Some ms ∨ f (containers s) !! id = None) → kept except (set_containers f s).
Proof.
  intros [Hh Hk] Hms Hother Hid. split; [|done]. intros id' ms' He Hms'. simpl in Hms'. change (held id' ms' s). destruct (decide (id' = id)) as [->|Hne].
  - destruct Hid as [Hid|Hid]; rewrite Hid in Hms'; [|done]. injection Hms' as <-. by apply Hms.
  - rewrite Hother in Hms' by done. by eapply Hh.
Qed.

(** Programs that may change containers: what they keep, also when they fail. *)
Definition safe {A} (P : state → Prop) (m : M A) (Q : A → state → Prop) : Prop :=
  ∀ s, inv s → P s → inv (m s).1 ∧ ∀ y, (m s).2 = RVal y → Q y (m s).1.
Lemma grow_safe {A} P (m : M A) Q : ok nothing P m Q → safe P m Q.
Proof. intros Hm s Hi Hs. destruct (Hm s Hs) as [Hg HQ]. split; [by eapply kept_grows|done]. Qed.
Lemma holds_bind {A B} P (m : M A) (k : A → M B) Q Q' : safe P m Q → (∀ y, safe (Q y) (k y) Q') → safe P (bind m k) Q'.
Proof.
  intros Hm Hk s Hi Hs. destruct (Hm s Hi Hs) as [Hi' HQ]. unfold bind. destruct (m s) as [s1 [y|e|]]; cbn [fst snd] in *; [|by split..].
  by destruct (Hk y s1 Hi' (HQ y eq_refl)).
Qed.
Lemma holds_conseq {A} (P P' : state → Prop) (m : M A) (Q Q' : A → state → Prop) : safe P m Q → (∀ s, inv s → P' s → P s) → (∀ y s, Q y s → Q' y s) → safe P' m Q'.
Proof. intros Hm HP HQ s Hi Hs. destruct (Hm s Hi (HP s Hi Hs)). eauto. Qed.
Lemma holds_loop {A B} P (f : B → A → M B) l b : (∀ b y, safe (any b) (f b y) any) → safe P (foldM f b l) any.
Proof.
  intros Hf. apply (holds_conseq (any b) _ _ any _); [|done|done]. revert b. induction l as [|y l IH]; intros b; [by apply grow_safe, grow_ret|].
  cbn [foldM]. eapply holds_bind; [apply Hf|]. intros b'. apply IH.
Qed.
Lemma holds_if {A} P (b : bool) (m m' : M A) Q : safe P m Q → safe P m' Q → safe P (if b then m else m') Q.
Proof. by destruct b. Qed.
Lemma holds_throw {A} P e (Q : A → state → Prop) : safe P (throw e) Q.
Proof. apply grow_safe, grow_throw. Qed.
Lemma holds_ret {A} P (y : A) : safe P (ret y) any.
Proof. by apply grow_safe, grow_ret. Qed.

(** The mounts of a container, as they are read. *)
Lemma holds_mounts_of P id : safe P (mounts_of id) (fun ms s => held id ms s).
Proof.
  intros s [Hh Hk] _. split; [done|]. intros ms Hms. injection Hms as <-. destruct (containers s !! id) as [ms|] eqn:Em; [apply (Hh id ms); [by intros []|done]|].
  intros d m v Hm. simpl in Hm. by rewrite lookup_empty in Hm.
Qed.
Lemma holds_set_point id d m : safe (held_point id m) (modify (set_containers (alter (<[d := m]>) id))) any.
Proof.
  intros s Hi Hm. split; [|done]. destruct (containers s !! id) as [ms|] eqn:Em.
  - apply (kept_set nothing id (<[d := m]> ms)); [done| |intros id' Hne; by rewrite lookup_alter_ne|left; by rewrite lookup_alter_eq, Em].
    intros Hn. apply held_insert; [|done]. by apply Hi.
  - apply (kept_set nothing id ∅); [done| |intros id' Hne; by rewrite lookup_alter_ne|right; by rewrite lookup_alter_eq, Em].
    intros _ d' m' v Hm'. by rewrite lookup_empty in Hm'.
Qed.

Lemma holds_config_volume denv id vd y : id ≠ [] → safe (fun _ => True) (config_volume denv id vd y) any.
Proof.
  intros Hid. eapply holds_bind; [apply holds_mounts_of|]. intros ms. apply holds_if; [apply holds_ret|]. destruct (place denv _); [apply holds_throw..|].
  eapply holds_bind; [apply grow_safe, grow_CreateWithRef|]. intros v. apply holds_if; [apply holds_throw|].
  eapply holds_conseq; [apply holds_set_point| |done]. intros s _ Hr v' Hv'. simpl in Hv'. injection Hv' as <-. by apply Hr.
Qed.
Lemma holds_platform denv P id vd mounted vols : id ≠ [] → safe P (createContainerPlatformSpecificSettings denv id vd mounted vols) any.
Proof.
  intros Hid. apply holds_if; [apply holds_throw|]. eapply holds_bind; [apply holds_loop; intros b y; eapply holds_conseq; [by apply holds_config_volume|done|done]|]. intros ?.
  eapply holds_bind; [apply holds_mounts_of|]. intros ms. apply holds_loop. intros b m. destruct (mVolume m); [|apply holds_ret].
  eapply holds_bind; [by apply grow_safe, (grow_gets _ _ _ any)|]. intros rs. apply holds_if; [apply holds_ret|]. apply holds_if; [apply holds_ret|apply holds_throw].
Qed.
Lemma holds_init_point denv id d : id ≠ [] → safe (fun _ => True) (init_point denv id d) any.
Proof.
  intros Hid. eapply holds_bind; [apply holds_mounts_of|]. intros ms. destruct (ms !! d) as [m|] eqn:Em; [|apply holds_ret].
  eapply (holds_bind _ _ _ (held_point id)).
  - unfold lazyInitializeVolume. destruct (mVolume m) as [v|] eqn:Ev; [apply grow_safe, grow_ret; intros s Hh v' Hv'; by eapply Hh|].
    apply holds_if; [apply grow_safe, grow_ret; intros s _; by apply held_point_none|]. eapply holds_bind; [apply grow_safe, grow_GetWithRef|]. intros v. apply grow_safe, grow_ret.
    intros s Hr v' Hv'. simpl in Hv'. injection Hv' as <-. by apply Hr.
  - intros m'. eapply holds_bind; [apply holds_set_point|]. intros ?. apply holds_ret.
Qed.
Lemma holds_prepare denv P id : id ≠ [] → safe P (prepareMountPoints denv id) any.
Proof.
  intros Hid. eapply holds_bind; [apply holds_mounts_of|]. intros ms. apply holds_loop. intros b d. eapply holds_bind; [|intros ?; apply holds_ret].
  eapply holds_conseq; [by apply holds_init_point|done|done].
Qed.
Lemma holds_setupMounts denv P id : id ≠ [] → safe P (setupMounts denv id) any.
Proof.
  intros Hid. eapply holds_bind; [apply holds_mounts_of|]. intros ms. eapply holds_bind; [apply holds_loop|intros l; apply holds_ret].
  intros l d. eapply holds_bind; [eapply holds_conseq; [by apply (holds_init_point denv)|done|done]|]. intros [m|]; [|apply holds_ret]. destruct (setup denv m); [apply holds_ret|apply holds_throw].
Qed.

(** The mount points of a container that has none. *)
Lemma iter_noop id l s : iterM (cleanup_old id ∅) l s = (s, @RVal unit tt).
Proof.
  unfold iterM. induction l as [|m l IH]; [done|]. cbn [foldM]. unfold bind at 1. assert (cleanup_old id ∅ m s = (s, RVal tt)) as ->; [|exact IH].
  unfold cleanup_old. destruct (BackwardsCompatible m); [|done]. by rewrite lookup_empty.
Qed.
Lemma holds_register denv id vf binds vd : id ≠ [] → safe (fun s => containers s !! id = Some ∅) (registerMountPoints denv id vf binds vd) any.
Proof.
  intros Hid. eapply (holds_bind _ _ _ (fun old _ => old = ∅)).
  { apply grow_safe, grow_gets. intros s ->. done. }
  intros old. eapply (holds_bind _ _ _ (fun mps s => old = ∅ ∧ held id mps s)).
  { intros s Hi ->. destruct (grow_safe _ _ _ (grow_foldM nothing (held id) (volumes_from denv id) vf (fun b y => grow_volumes_from denv id b y Hid) ∅) s Hi) as [Hi' HQ]; [|split; [done|]; eauto].
    intros d m v Hm. by rewrite lookup_empty in Hm. }
  intros mps. eapply (holds_bind _ _ _ (fun acc s => old = ∅ ∧ held id acc.2 s)).
  { intros s Hi [-> Hh]. destruct (grow_safe _ _ _ (grow_foldM nothing (fun acc => held id acc.2) (bind_mount denv id vd) binds (fun b y => grow_bind_mount denv id vd b y Hid) ([], mps)) s Hi Hh) as [Hi' HQ].
    split; [done|]. eauto. }
  intros acc. eapply (holds_bind _ _ _ (fun _ => held id acc.2)).
  - intros s Hi [-> Hh]. rewrite iter_noop. split; [done|]. by intros [] _.
  - intros ?. intros s Hi Hh. split; [|done]. apply (kept_set nothing id acc.2); [done|done|intros id' Hne; by rewrite lookup_insert_ne|left; by rewrite lookup_insert_eq].
Qed.

(** The mount points of a container that goes. *)
Lemma grow_removeMountPoints denv P id ms rm : ok (fun x => x = id) P (removeMountPoints denv id ms rm) any.
Proof.
  eapply grow_bind; [apply grow_loop|intros errs; apply grow_if; [by apply grow_ret|apply grow_throw]].
  intros errs m. destruct (mVolume m) as [v|]; [|by apply grow_ret]. eapply grow_bind; [apply grow_Dereference|]. intros ?. apply grow_if; [|by apply grow_ret].
  eapply grow_bind; [apply grow_try, grow_Remove|]. intros [u|e]; [by apply grow_ret|apply grow_if; by apply grow_ret].
Qed.
Lemma kept_gone id s : kept (fun x => x = id) s → containers s !! id = None → inv s.
Proof. intros [Hh Hk] Hn. split; [|done]. intros id' ms _ Hms. apply Hh; [|done]. intros ->. congruence. Qed.
Lemma kept_delete id s : kept (fun x => x = id) s → kept (fun x => x = id) (set_containers (delete id) s).
Proof.
  intros Hk. apply (kept_set _ id ∅); [done|naive_solver|intros id' Hne; by rewrite lookup_delete_ne|right; by rewrite lookup_delete_eq].
Qed.
Lemma remove_gone {A} denv id ms rm (k : result verr unit → M A) s :
  kept (fun x => x = id) s → containers s !! id = None → (∀ r s', (k r s').1 = s') → inv (bind (try (removeMountPoints denv id ms rm)) k s).1.
Proof.
  intros Hk Hn Hkk. destruct (grow_removeMountPoints denv (fun _ => True) id ms rm s I) as [Hg _]. pose proof (kept_grows _ _ _ Hg Hk) as Hk'. rewrite <-(gr_containers _ _ _ Hg) in Hn.
  unfold bind, try. destruct (removeMountPoints denv id ms rm s) as [s1 [u|e|]]; cbn [fst snd] in *; rewrite ?Hkk; by eapply kept_gone.
Qed.
Lemma ContainerRm_clean denv id force rv s : kept (fun x => x = id) s → inv (ContainerRm denv id CleanOk force rv s).1.
Proof.
  intros Hk. unfold ContainerRm, bind at 1. cbn [gets]. destruct (containers s !! id) as [ms|] eqn:Em; [|by apply (kept_gone id)].
  rewrite orb_true_r. unfold bind at 1. cbn [modify]. unfold bind at 1.
  pose proof (remove_gone denv id ms rv (fun _ => ret tt) (set_containers (delete id) s) (kept_delete _ _ Hk)) as Hr.
  destruct (bind (try _) _ (set_containers _ s)) as [s1 [u|e|]]; cbn [fst snd] in *; apply Hr; (apply lookup_delete_eq || done).
Qed.
Lemma inv_ContainerRm denv id clean force rv s : ¬ (clean = CleanEarly ∧ force = true) → inv s → inv (ContainerRm denv id clean force rv s).1.
Proof.
  intros Hc Hi. destruct clean; [by apply ContainerRm_clean, kept_weaken|..].
  - destruct force; [naive_solver|]. unfold ContainerRm, bind. simpl. by destruct (containers s !! id).
  - unfold ContainerRm, bind at 1. cbn [gets]. destruct (containers s !! id) as [ms|] eqn:Em; [|done]. destruct force; [|done].
    rewrite bool_decide_true by done. unfold bind at 1. cbn [modify orb]. unfold bind at 1.
    pose proof (remove_gone denv id ms rv (fun _ => ret tt) (set_containers (delete id) s) (kept_delete _ _ (kept_weaken _ _ Hi))) as Hr.
    destruct (bind (try _) _ (set_containers _ s)) as [s1 [u|e|]]; cbn [fst snd] in *; apply Hr; (apply lookup_delete_eq || done).
Qed.

(** A container is created, or gone; unless the request panics. *)
Definition quiet {A} (P : state → Prop) (m : M A) : Prop := ∀ s, P s → (m s).2 ≠ RPanic → inv (m s).1.
Lemma quiet_catch {A} P (m : M unit) (k : unit → M A) (h : verr → M A) :
  safe P m any → (∀ u, quiet inv (k u)) → (∀ e, quiet inv (h e)) →
  quiet (fun s => inv s ∧ P s) (bind (try m) (fun r => match r with Err e => h e | Ok u => k u end)).
Proof.
  intros Hm Hk Hh s [Hi Hs]. destruct (Hm s Hi Hs) as [Hi' _]. unfold bind, try. destruct (m s) as [s1 [u|e|]]; cbn [fst snd] in *; [by apply Hk|by apply Hh|done].
Qed.
Lemma undo_inv denv id e s : kept (fun x => x = id) s → inv (undo_create denv id e s).1.
Proof.
  intros Hk. pose proof (ContainerRm_clean denv id true false s Hk) as Hi. unfold undo_create, bind, try. by destruct (ContainerRm denv id CleanOk true false s) as [s1 [u|e'|]].
Qed.
Lemma quiet_finish denv id vd mounted vols rest : id ≠ [] → quiet inv (finish_create denv id vd mounted vols rest).
Proof.
  intros Hid s Hi. eapply (quiet_catch (fun _ => True)); [|by intros [] s' Hi'| |done].
  - eapply holds_bind; [by apply holds_platform|]. intros ?. apply holds_if; [apply holds_ret|apply holds_throw].
  - intros e s' Hi'. unfold bind at 1 3. cbn [mounts_of gets]. set (ms := default ∅ _).
    destruct (grow_removeMountPoints denv (fun _ => True) id ms true s' I) as [Hg _]. pose proof (kept_grows _ _ _ Hg (kept_weaken _ _ Hi')) as Hk.
    unfold bind, try. destruct (removeMountPoints denv id ms true s') as [s1 [u|e'|]]; cbn [fst snd] in *; intros Hp; [by apply undo_inv..|done].
Qed.
Lemma quiet_create denv id vf binds vd linked mounted vols rest : id ≠ [] → quiet inv (create_container denv id vf binds vd linked mounted vols rest).
Proof.
  intros Hid s Hi. unfold create_container. unfold bind at 1 4. cbn [modify]. eapply (quiet_catch (fun s => containers s !! id = Some ∅)).
  - eapply holds_bind; [by apply holds_register|]. intros ?. apply holds_if; [apply holds_ret|apply holds_throw].
  - intros u. by apply quiet_finish.
  - intros e s' Hi' _. by apply undo_inv, kept_weaken.
  - split; [|apply lookup_insert_eq].
    apply (kept_set _ id ∅); [done|intros _ d m v Hm; by rewrite lookup_empty in Hm|intros id' Hne; by rewrite lookup_insert_ne|left; by rewrite lookup_insert_eq].
Qed.

(** ** Requests *)

Inductive request :=
| ReqCreate (e : @denv D E) (id : gostring) (volumesFrom binds : list gostring) (volumeDriver : gostring) (linked mounted : bool) (vols : list (gostring * gostring)) (rest : bool)
| ReqRm (e : @denv D E) (id : gostring) (clean : cleanup) (force removeVolume : bool)
| ReqStart (e : @denv D E) (id : gostring)
| ReqVolumeCreate (e : @denv D E) (name generated driverName : gostring)
| ReqVolumeRm (e : @denv D E) (name : gostring)
| ReqVolumeInspect (e : @denv D E) (name : gostring)
| ReqVolumes (e : @denv D E) (dangling : option bool)
| ReqRestart (ds : gmap gostring D)
| ReqPrepare (e : @denv D E) (id : gostring).
Definition forget {A} (m : M A) : M unit := bind m (fun _ => ret tt).
Definition serve (r : request) : M unit :=
  match r with
  | ReqCreate e id vf binds vd linked mounted vols rest => create_container e id vf binds vd linked mounted vols rest
  | ReqRm e id clean force rv => ContainerRm e id clean force rv
  | ReqStart e id => forget (start e id None)
  | ReqVolumeCreate e n g dn => forget (VolumeCreate e n g dn)
  | ReqVolumeRm e n => VolumeRm e n
  | ReqVolumeInspect e n => forget (VolumeInspect e n)
  | ReqVolumes e dangling => forget (Volumes e dangling)
  | ReqRestart ds => modify (reload ds)
  | ReqPrepare e id => prepareMountPoints e id
  end.
(** A container has an ID; one that cannot be stopped is not removed by force. *)
Definition sensible (r : request) : Prop :=
  match r with
  | ReqCreate _ id _ _ _ _ _ _ _ | ReqStart _ id | ReqPrepare _ id => id ≠ []
  | ReqRm _ _ clean force _ => ¬ (clean = CleanEarly ∧ force = true)
  | _ => True
  end.
Inductive served : state → state → Prop :=
| served_refl s : served s s
| served_step s1 s2 r : served s1 s2 → sensible r → (serve r s2).2 ≠ RPanic → served s1 (serve r s2).1.

Lemma forget_state {A} (m : M A) s : (forget m s).1 = (m s).1.
Proof. unfold forget, bind. by destruct (m s) as [s1 []]. Qed.
Lemma holds_inv {A} (m : M A) Q s : safe (fun _ => True) m Q → inv s → inv (m s).1.
Proof. intros Hm Hi. by apply Hm. Qed.
Lemma serve_inv r s : sensible r → inv s → (serve r s).2 ≠ RPanic → inv (serve r s).1.
Proof.
  intros Hr Hi Hp. destruct r; simpl in Hr |- *; rewrite ?forget_state.
  - by apply quiet_create.
  - by apply inv_ContainerRm.
  - eapply holds_inv; [|done]. eapply holds_bind; [apply holds_ret|]. intros ?. by apply holds_setupMounts.
  - eapply holds_inv; [|done]. apply grow_safe, grow_on_err, grow_CreateWithRef.
  - eapply holds_inv; [|done]. apply grow_safe. eapply grow_bind; [apply grow_Get|]. intros v. apply grow_on_err, grow_Remove.
  - eapply holds_inv; [|done]. apply grow_safe, grow_Get.
  - eapply holds_inv; [|done]. apply grow_safe. eapply grow_bind; [apply grow_List|]. intros y. destruct dangling; [|by apply grow_ret].
    eapply grow_bind; [by apply (grow_gets _ _ _ any)|]. intros vols. by apply (grow_ret _ _ _ any).
  - split.
    + intros id ms _ Hms d m v Hm Hv. simpl in Hms. rewrite lookup_fmap in Hms. destruct (containers s !! id); [|done]. injection Hms as <-.
      rewrite lookup_fmap in Hm. destruct (_ !! d); [|done]. by injection Hm as <-.
    + intros n x (l&Hl&_). simpl in Hl. by rewrite lookup_empty in Hl.
  - eapply holds_inv; [|done]. by apply holds_prepare.
Qed.
Lemma served_inv s s' : served s s' → inv s → inv s'.
Proof. induction 1 as [|s1 s2 r _ IH Hr Hp]; [done|]. intros Hi. by apply serve_inv; [|apply IH|]. Qed.
Definition fresh (ds : gmap gostring D) : state := mkVS ds ∅ ∅ ∅.
Lemma inv_fresh ds : inv (fresh ds).
Proof. split; [|intros n x (l&Hl&_)]; [intros id ms _ Hms|]; simpl in *; by rewrite lookup_empty in *. Qed.
End safe.

(** ** What is shown *)

(** A reference is taken away by a loop that shortens the slice it goes through.  The
    result is the list without the reference, but the element after one that is removed
    is not looked at; the loop panics exactly if the last element is the reference and
    it occurs before as well.  A container that refers to a volume once loses exactly
    this reference. *)
Theorem Dereference_spec {D : Type} (v : volume) (ref : gostring) (s : vstate D) l :
  refs s !! Name v = Some l →
  Dereference v ref s = (set_refs (<[Name v := skip_remove ref l]>) s, if out_of_bounds ref l then RPanic else RVal tt) ∧
  (NoDup l → Dereference v ref s = (set_refs (<[Name v := filter (fun x => x ≠ ref) l]>) s, RVal tt)).
Proof.
  intros Hl. split; [by apply Dereference_eq|]. intros Hn. by rewrite (Dereference_eq _ _ _ _ Hl), skip_NoDup, NoDup_in_bounds.
Qed.

(** C13: As long as no container is started with a host configuration
    ([start_drops_references]), no container that cannot be stopped is removed by force
    ([forced_rm_releases]) and no request panics: a volume that a container uses is known to
    the store and cannot be removed, in every state that the daemon gets into by serving
    requests to create, start and remove containers, requests about volumes and restarts of
    the daemon, whatever drivers, plugins and the file system answer. *)
Theorem volumes_in_use_kept {D E} `{VolumeDriver D E} ds (s : vstate D) id ms d m v (env : venv D E) :
  served (fresh ds) s → containers s !! id = Some ms → ms !! d = Some m → mVolume m = Some v →
  is_Some (names s !! Name v) ∧ ∃ l, id ∈ l ∧ Remove env v s = (s, RErr (OpErr errVolumeInUse "remove" (Name v) l)).
Proof.
  intros Hs Hc Hm Hv. destruct (served_inv _ _ Hs (inv_fresh ds)) as [Hh Hk]. assert (Hr : refd s (Name v) id) by (by eapply (Hh id ms); [intros []|..]).
  split; [by eapply Hk|]. by apply Remove_refused.
Qed.

(** ** A daemon with the local driver *)

Definition demo_io : driverIO := mkDriverIO (mkLocalIO None NotExist None None)
  (fun _ => mkProxy (fun _ => None) (fun _ => None) (Ok []) (fun _ => GetNotFound) (fun _ => [])).
Definition demo_env : @denv driver driverIO :=
  mkDenv (mkEnv demo_io (fun _ => None) (Some []) (fun l => l)) (fun n => Some n) (fun _ => true) (fun _ => PlaceDir) (fun _ => true) (fun m => Some (Source m)).
Definition demo_drivers : gmap gostring driver := {["local" := Local (mkRoot "/var/lib/docker" ∅)]}.
Abbreviation create_c id vf binds vols := (create_container demo_env id vf binds [] true true vols true).
(** The state and the answer after a sequence of programs. *)
Definition after_all (l : list (prog driver unit)) : vstate driver * res unit := foldl (fun r m => m r.1) (fresh demo_drivers, RVal tt) l.
Definition registered (id : gostring) (r : vstate driver * res unit) : bool := match containers r.1 !! id with Some _ => true | None => false end.
Definition mount_name (id d : gostring) (r : vstate driver * res unit) : option gostring :=
  match containers r.1 !! id with Some ms => match ms !! d with Some m => Some (mName m) | None => None end | None => None end.
Definition refs_of (n : gostring) (r : vstate driver * res unit) : option (list gostring) := refs r.1 !! n.

Definition demo_request : request := ReqCreate demo_env "c" [] ["vol:/data"] [] true true [("/tmp", "anon")] true.
Lemma demo_served : served (fresh demo_drivers) (serve demo_request (fresh demo_drivers)).1.
Proof. apply (served_step _ _ demo_request); [apply served_refl|done|]. vm_compute. done. Qed.
Lemma volumes_in_use_kept_witness :
  let s := (serve demo_request (fresh demo_drivers)).1 in
  let v := mkVolume "vol" "local" "/var/lib/docker/volumes/vol/_data" in
  is_Some (names s !! Name v) ∧ ∃ l, "c" ∈ l ∧ Remove (venv_of demo_env) v s = (s, RErr (OpErr errVolumeInUse "remove" (Name v) l)).
Proof.
  intros s v. set (ms := default ∅ (containers s !! "c")). set (m := default (mount_with_volume [] v true) (ms !! "/data")).
  apply (volumes_in_use_kept demo_drivers s "c" ms "/data" m v (venv_of demo_env)); [exact demo_served|vm_compute; reflexivity..].
Defined.
Lemma Dereference_spec_witness :
  let s : vstate driver := mkVS demo_drivers ∅ {["vol" := ["a"; "c"; "b"]]} ∅ in
  let v := mkVolume "vol" "local" [] in
  Dereference v "c" s = (set_refs (<[Name v := skip_remove "c" ["a"; "c"; "b"]]>) s, RVal tt).
Proof. intros s v. destruct (Dereference_spec v "c" s ["a"; "c"; "b"]) as [Hd _]; [vm_compute; reflexivity|]. rewrite Hd. vm_compute. reflexivity. Defined.

(** *** References that are lost or left *)

(** A container that mounts a volume twice cannot be removed: the request panics. *)
Example mounted_twice_panics :
  (after_all [create_c "c" [] ["vol:/a"; "vol:/b"] []; ContainerRm demo_env "c" CleanOk false false]).2 = RPanic.
Proof. vm_compute. reflexivity. Qed.
(** A container that cannot be created leaves its references. *)
Example failed_create_leaks :
  let r := after_all [create_c "c" [] ["vol:/a"; "/a:/b:wrong"] []] in
  containers r.1 = ∅ ∧ refs_of "vol" r = Some ["c"].
Proof. vm_compute. done. Qed.
(** So does a mount point that another one replaces. *)
Example replaced_mount_leaks :
  let r := after_all [create_c "a" [] [] [("/data", "v1")]; create_c "b" [] [] [("/data", "v2")]; create_c "c" ["a"; "b"] [] [];
    ContainerRm demo_env "c" CleanOk false false] in
  refs_of "v1" r = Some ["a"; "c"] ∧ refs_of "v2" r = Some ["b"].
Proof. vm_compute. done. Qed.
(** A start with a host configuration takes away the references of mounts that stay: the
    volume of a running container can be removed. *)
Example start_drops_references :
  let r := after_all [create_c "c" [] [] [("/data", "v1")]; forget (start demo_env "c" (Some ([], [], [])))] in
  registered "c" r = true ∧ (VolumeRm demo_env "v1" r.1).2 = RVal tt.
Proof. vm_compute. split; reflexivity. Qed.
(** A start that repeats the binds of a container panics, while the lock of the container is held. *)
Example start_with_binds_panics :
  (after_all [create_c "c" [] ["vol:/a"] []; forget (start demo_env "c" (Some ([], ["vol:/a"], [])))]).2 = RPanic.
Proof. vm_compute. reflexivity. Qed.
(** A forced removal that cannot stop the container lets go of its volumes. *)
Example forced_rm_releases :
  let r := after_all [create_c "c" [] [] [("/data", "v1")]; ContainerRm demo_env "c" CleanEarly true true] in
  registered "c" r = true ∧ names r.1 !! "v1" = None.
Proof. vm_compute. split; reflexivity. Qed.
(** A named volume of another container is not referred to before the container starts. *)
Example volumes_from_unreferenced :
  let r := after_all [create_c "a" [] ["vol:/data"] []; create_c "c" ["a"] [] []; ContainerRm demo_env "a" CleanOk false false] in
  mount_name "c" "/data" r = Some "vol" ∧ (VolumeRm demo_env "vol" r.1).2 = RVal tt.
Proof. vm_compute. split; reflexivity. Qed.
(** The removal of a volume whose driver is not found panics. *)
Example remove_without_driver_panics :
  (Remove (venv_of demo_env) (mkVolume "v" "flocker" []) (fresh demo_drivers)).2 = RPanic.
Proof. vm_compute. reflexivity. Qed.
