(* ===== verification/Ioutils.v ===== *)
(** * Ioutils: the tail of a file, pipes of bytes, and the concatenation of readers

    [src/pkg/tailfile/tailfile.go] and, of [src/pkg/ioutils], [bytespipe.go] and
    [multireader.go].  Files are read from their position as far as is asked for and as
    there is; seeking to a negative position fails. *)

From S2P Require Import Prelude.
Import Strings.

Local Open Scope Z_scope.

(** ** Readers with a position *)

Module ReadSeeker.

Inductive whence := SEEK_SET | SEEK_CUR | SEEK_END | SEEK_OTHER.
Inductive readResult := RData (data : gostring) | REOF | RPanic.

(** [io.ReadSeeker]: reading into a slice of a length (and of this capacity), and seeking,
    which gives the new position or an error. *)
Class ReadSeeker (R : Type) := {
  Read : nat → R → R * readResult;
  Seek : Z → whence → R → R * option Z }.

Inductive op := MRead (k : nat) | MSeek (offset : Z) (w : whence).
Inductive out := OutRead (r : readResult) | OutSeek (o : option Z).
Definition step `{ReadSeeker R} (m : R) (o : op) : R * out :=
  match o with
  | MRead k => let '(m, r) := Read k m in (m, OutRead r)
  | MSeek offset w => let '(m, r) := Seek offset w m in (m, OutSeek r)
  end.

(** What a reader of [all] at the position [p] answers. *)
Definition flat_step (all : gostring) (p : Z) (o : op) : Z * out :=
  match o with
  | MRead k =>
      let data := take k (drop (Z.to_nat p) all) in
      (p + Z.of_nat (length data), OutRead (if bool_decide (data = []) && negb (k =? 0)%nat then REOF else RData data))
  | MSeek offset w =>
      let p' := match w with SEEK_SET => offset | SEEK_CUR => p + offset | _ => Z.of_nat (length all) + offset end in (p', OutSeek (Some p'))
  end.
(** The seeks that a client may rely on: to positions that exist; from the current
    position only the question where it is. *)
Definition legal (all : gostring) (o : op) : bool :=
  match o with
  | MRead _ => true
  | MSeek offset SEEK_SET => (0 <=? offset) && (offset <=? Z.of_nat (length all))
  | MSeek offset SEEK_END => (offset <=? 0) && (0 <=? Z.of_nat (length all) + offset)
  | MSeek offset SEEK_CUR => offset =? 0
  | MSeek _ SEEK_OTHER => false
  end.
(** What a reader promises: it stands for some contents and a position in them, and
    answers like a reader of these contents. *)
Class ReadSeekerLaws (R : Type) `{ReadSeeker R} := {
  stands : gostring → Z → R → Prop;
  step_stands all p m o : stands all p m → legal all o = true →
    let '(m', r) := step m o in let '(p', r') := flat_step all p o in stands all p' m' ∧ r = r' }.

(** The outputs of a sequence of calls. *)
Fixpoint outs {S : Type} (step : S → op → S * out) (s : S) (ops : list op) : list out :=
  match ops with [] => [] | o :: ops => let '(s, r) := step s o in r :: outs step s ops end.

(** A file: its contents and the position, which may be behind the end. *)
Record reader := mkReader { content : gostring; off : Z }.
Definition size (r : reader) : Z := Z.of_nat (length (content r)).
Definition set_off (r : reader) (o : Z) : reader := mkReader (content r) o.
(** Up to [n] bytes from the position on. *)
Definition read_n (r : reader) (n : Z) : reader * gostring :=
  let data := take (Z.to_nat n) (drop (Z.to_nat (off r)) (content r)) in (set_off r (off r + Z.of_nat (length data)), data).
#[global] Instance file : ReadSeeker reader := {
  Read k r := let '(r, data) := read_n r (Z.of_nat k) in (r, if bool_decide (data = []) && negb (k =? 0)%nat then REOF else RData data);
  Seek offset w r :=
    match match w with SEEK_SET => Some offset | SEEK_CUR => Some (off r + offset) | SEEK_END => Some (size r + offset) | SEEK_OTHER => None end with
    | Some p => if p <? 0 then (r, None) else (set_off r p, Some p)
    | None => (r, None)
    end }.
End ReadSeeker.

(** ** The tail of a file *)

Module TailFile.
Import ReadSeeker.

Definition newline : ascii := "010"%char.
Definition eol : gostring := [newline].
Inductive tailError := ErrNonPositiveLinesNumber | ErrSeek | ErrRead | ErrFuel.
Section tail.
  Context `{ReadSeeker R} (blockSize : nat).

(** [f.Read(b)] into a slice of [k] zeros, with its error. *)
Definition read_block (k : nat) (f : R) : R * result tailError gostring :=
  let '(f, r) := Read k f in
  (f, match r with RData d => Ok (d ++ replicate (k - length d) "000"%char) | _ => Err ErrRead end).
(** The blocks from the end on: [data] is what was read, [cnt] the newlines in the
    blocks.  A file that is shorter than the blocks is read from its start. *)
Fixpoint tail_loop (fuel : nat) (block : nat) (size : Z) (n : Z) (data : gostring) (cnt : nat) (f : R) : R * result tailError gostring :=
  match fuel with
  | O => (f, Err ErrFuel)
  | S fuel =>
      let step := - Z.of_nat (block * blockSize) in
      let left := size + step in
      if left <? 0 then
        match Seek 0 SEEK_SET f with
        | (f, None) => (f, Err ErrSeek)
        | (f, Some _) =>
            match read_block (Z.to_nat (Z.of_nat blockSize + left)) f with
            | (f, Err e) => (f, Err e)
            | (f, Ok b) => (f, Ok (b ++ data))
            end
        end
      else
        match Seek step SEEK_END f with
        | (f, None) => (f, Err ErrSeek)
        | (f, Some _) =>
            match read_block blockSize f with
            | (f, Err e) => (f, Err e)
            | (f, Ok b) =>
                let data := b ++ data in
                let cnt := (cnt + Count b eol)%nat in
                if n <? Z.of_nat cnt then (f, Ok data) else tail_loop fuel (S block) size n data cnt f
            end
        end
  end.
Definition TailFile (f : R) (n : Z) : R * result tailError (list gostring) :=
  if n <=? 0 then (f, Err ErrNonPositiveLinesNumber)
  else
    match Seek 0 SEEK_END f with
    | (f, None) => (f, Err ErrSeek)
    | (f, Some size) =>
        match tail_loop (S (S (Z.to_nat size))) 1 size n [] 0 f with
        | (f, Err e) => (f, Err e)
        | (f, Ok data) =>
            let lines := Split data eol in
            let len := Z.of_nat (length lines) in
            (f, Ok (if n <? len then take (Z.to_nat n) (drop (Z.to_nat (len - n - 1)) lines) else take (Z.to_nat (len - 1)) lines))
        end
    end.
End tail.
End TailFile.

(** ** Pipes of bytes *)

Module BytesPipe.

(** A slice with its capacity. *)
Record slice := mkSlice { sdata : gostring; scap : nat }.
Record BytesPipe := mkPipe { buf : list slice; lastRead : nat; bufLen : nat; closeErr : option gostring }.

Section pipe.
  Context (maxCap blockThreshold : nat).

(** [NewBytesPipe] on a slice of capacity [c]. *)
Definition NewBytesPipe (c : nat) : BytesPipe := mkPipe [mkSlice [] (if (c =? 0)%nat then 64 else c)] 0 0 None.

Inductive written := WOk (n : nat) | WClosed (n : nat) | WBlocked (rest : gostring) (n : nat).
(** Writing to the last slice. *)
Definition fill (p : gostring) (b : slice) : slice * nat :=
  let n := Nat.min (scap b - length (sdata b)) (length p) in (mkSlice (sdata b ++ take n p) (scap b), n).
Definition grow (bp : BytesPipe) : BytesPipe :=
  let c := match last (buf bp) with Some b => scap b | None => 0%nat end in
  mkPipe (buf bp ++ [mkSlice [] (Nat.min (2 * c) maxCap)]) (lastRead bp) (bufLen bp) (closeErr bp).
(** The loop of [Write]; it stops where it would wait. *)
Fixpoint write_loop (fuel : nat) (p : gostring) (w : nat) (bp : BytesPipe) : BytesPipe * written :=
  match fuel with
  | O => (bp, WBlocked p w)
  | S fuel =>
      match closeErr bp with
      | Some _ => (bp, WClosed w)
      | None =>
          match last (buf bp) with
          | None => (bp, WClosed w) (* the pipe always has a slice *)
          | Some b =>
              let '(b', n) := fill p b in
              let bp := mkPipe (removelast (buf bp) ++ [b']) (lastRead bp) (bufLen bp + n) None in
              if (length p =? n)%nat then (bp, WOk (w + n))
              else if (blockThreshold <=? bufLen bp)%nat then (bp, WBlocked (drop n p) (w + n))
              else write_loop fuel (drop n p) (w + n) (grow bp)
          end
      end
  end.
Definition Write (p : gostring) (bp : BytesPipe) : BytesPipe * written := write_loop (S (S (length p))) p 0 bp.
(** A writer that waits is woken: [rest] is still to be written, [w] bytes are. *)
Definition wake (rest : gostring) (w : nat) (bp : BytesPipe) : BytesPipe * written :=
  if (blockThreshold <=? bufLen bp)%nat then (bp, WBlocked rest w) else write_loop (S (S (length rest))) rest w (grow bp).

Definition CloseWithError (err : option gostring) (bp : BytesPipe) : BytesPipe :=
  mkPipe (buf bp) (lastRead bp) (bufLen bp) (Some (default "EOF" err)).
Definition len (bp : BytesPipe) : nat := bufLen bp - lastRead bp.

Inductive readResult := ROk (data : gostring) | RErr (e : gostring) | RBlocked.
(** The loop of [Read] into [k] bytes. *)
Fixpoint read_loop (k : nat) (bs : list slice) (lr bl : nat) (acc : gostring) : list slice * nat * nat * gostring :=
  match bs with
  | [] => ([], lr, bl, acc)
  | b :: rest =>
      let r := Nat.min k (length (drop lr (sdata b))) in
      let acc := acc ++ take r (drop lr (sdata b)) in
      if (bl - (lr + r) =? 0)%nat then (mkSlice [] (scap b) :: rest, 0%nat, (bl - length (sdata b))%nat, acc)
      else if (k =? r)%nat then (bs, (lr + r)%nat, bl, acc)
      else read_loop (k - r) rest 0 (bl - length (sdata b)) acc
  end.
Definition read_now (k : nat) (bp : BytesPipe) : BytesPipe * readResult :=
  let '(bs, lr, bl, data) := read_loop k (buf bp) (lastRead bp) (bufLen bp) [] in (mkPipe bs lr bl (closeErr bp), ROk data).
Definition Read (k : nat) (bp : BytesPipe) : BytesPipe * readResult :=
  if (len bp =? 0)%nat then (bp, match closeErr bp with Some e => RErr e | None => RBlocked end) else read_now k bp.
(** A reader that waits is woken: an empty pipe that is not closed gives no bytes. *)
Definition read_woken (k : nat) (bp : BytesPipe) : BytesPipe * readResult :=
  if (len bp =? 0)%nat then match closeErr bp with Some e => (bp, RErr e) | None => read_now k bp end else read_now k bp.
End pipe.
End BytesPipe.

(** ** The concatenation of readers *)

Module MultiReader.

Import ReadSeeker.

Record multiReadSeeker := mkMulti { readers : list reader; pos : option (nat * Z) }.
(** One reader is returned as it is.  The readers are different objects. *)
Definition MultiReadSeeker (l : list reader) : reader + multiReadSeeker :=
  match l with [r] => inl r | _ => inr (mkMulti l None) end.

(** The loop for [SEEK_SET]. *)
Fixpoint seek_loop (l : list reader) (i : nat) (tmpOffset offset : Z) : list reader * option (nat * Z) :=
  match l with
  | [] => ([], None)
  | rdr :: rest =>
      let s := size rdr in
      if tmpOffset + s <? offset then
        match rest with
        | [] => let rdrOffset := s + (offset - tmpOffset) in ([set_off rdr rdrOffset], Some (i, rdrOffset))
        | _ => let '(rest, p) := seek_loop rest (S i) (tmpOffset + s) offset in (set_off rdr s :: rest, p)
        end
      else
        let rdrOffset := offset - tmpOffset in
        ((if rdrOffset <? 0 then set_off rdr s else set_off rdr rdrOffset) :: ((fun r => set_off r 0) <$> rest),
         Some (if (rdrOffset =? s) && bool_decide (rest ≠ []) then (S i, 0) else (i, rdrOffset)))
  end.
Definition seek_set (offset : Z) (m : multiReadSeeker) : multiReadSeeker * option Z :=
  match seek_loop (readers m) 0 0 offset with
  | (l, Some p) => (mkMulti l (Some p), Some offset)
  | (l, None) => (mkMulti l (pos m), None)
  end.

Definition total (l : list reader) : Z := foldr (fun r n => size r + n) 0 l.
Definition getCurOffset (p : nat * Z) (l : list reader) : Z := total (take p.1 l) + p.2.
(** The offset that is looked for is computed from the size of one reader; the reader is lost. *)
Fixpoint reader_loop (i : nat) (l : list reader) (offset : Z) : option Z :=
  match l with
  | [] => Some 0
  | rdr :: rest =>
      let offsetTo := Z.of_nat i * size rdr in
      if offset <? offsetTo then (if (i =? 0)%nat then None else Some (offsetTo - offset))
      else match rest with [] => Some (offsetTo + offset) | _ => reader_loop (S i) rest offset end
  end.
(** [None] is an error or, for an index below zero, a panic. *)
Definition Seek (offset : Z) (w : whence) (m : multiReadSeeker) : multiReadSeeker * option Z :=
  match w with
  | SEEK_SET => seek_set offset m
  | SEEK_END =>
      let t := total (readers m) in
      let m := mkMulti ((fun r => set_off r (size r)) <$> readers m) (pos m) in
      ((seek_set (t + offset) m).1, Some (t + offset))
  | SEEK_CUR =>
      match pos m with
      | None => seek_set offset m
      | Some p =>
          let cur := getCurOffset p (readers m) in
          if offset =? 0 then (m, Some cur)
          else
            match reader_loop 0 (readers m) (cur + offset) with
            | None => (m, None)
            | Some rdrOffset => (mkMulti (readers m) (Some (0%nat, rdrOffset)), Some (cur + offset))
            end
      end
  | SEEK_OTHER => (m, None)
  end.

(** The readers from one on: what they give, and the last that was asked. *)
Fixpoint read_readers (l : list reader) (i : nat) (bCap : Z) : list reader * gostring * option (nat * Z) :=
  match l with
  | [] => ([], [], None)
  | rdr :: rest =>
      let '(rdr, data) := read_n rdr bCap in
      let bCap := bCap - Z.of_nat (length data) in
      if bCap =? 0 then (rdr :: rest, data, Some (i, off rdr))
      else
        let '(rest, data', p) := read_readers rest (S i) bCap in
        (rdr :: rest, data ++ data', match p with Some p => Some p | None => Some (i, off rdr) end)
  end.
(** [Read] into a slice of length [blen] and capacity [bcap]; without readers there is
    none to ask for its position. *)
Definition Read (blen bcap : nat) (m : multiReadSeeker) : multiReadSeeker * readResult :=
  let idx := (default (0%nat, 0) (pos m)).1 in
  let '(l, data, p) := read_readers (drop idx (readers m)) idx (Z.of_nat bcap) in
  let m' := mkMulti (take idx (readers m) ++ l) in
  match p with
  | None => (m' (Some (default (0%nat, 0) (pos m))), RPanic)
  | Some p => (m' (Some p), if bool_decide (data = []) && negb (blen =? 0)%nat then REOF else RData (take blen data))
  end.
#[global] Instance multi : ReadSeeker multiReadSeeker := { Read k := Read k k; Seek := Seek }.
(** The reader that [MultiReadSeeker] returns. *)
#[global] Instance any : ReadSeeker (reader + multiReadSeeker) := {
  Read k r :=
    match r with
    | inl r => let '(r, o) := ReadSeeker.Read k r in (inl r, o)
    | inr m => let '(m, o) := ReadSeeker.Read k m in (inr m, o)
    end;
  Seek offset w r :=
    match r with
    | inl r => let '(r, o) := ReadSeeker.Seek offset w r in (inl r, o)
    | inr m => let '(m, o) := ReadSeeker.Seek offset w m in (inr m, o)
    end }.
End MultiReader.
