(* ===== verification/IoutilsFacts.v ===== *)
(** * IoutilsFacts: tails, pipes and concatenations do what they stand for

    Theorems about [Ioutils]: the tail of a file is the last of its lines, a pipe is a
    queue of bytes, and readers in a row behave like one reader. *)

From S2P Require Import Prelude Ioutils.
Import Strings.

(** ** The concatenation of readers *)

Section multi.
  Import ReadSeeker MultiReader.
  Implicit Types (l rest : list reader) (r : reader) (m : multiReadSeeker).
  Local Open Scope Z_scope.

Definition flat l : gostring := concat (content <$> l).
Definition fresh l : Prop := Forall (fun r => off r = 0) l.
(** The position is in the [j]th reader at [o], and the readers after it are at their start. *)
Definition located (j : nat) (o : Z) l : Prop := ∃ l1 r l2, l = l1 ++ r :: l2 ∧ length l1 = j ∧ off r = o ∧ 0 <= o <= size r ∧ fresh l2.

Lemma total_cons r l : total (r :: l) = size r + total l.
Proof. done. Qed.
Lemma total_flat l : total l = Z.of_nat (length (flat l)).
Proof. induction l as [|r l IH]; [done|]. rewrite total_cons, IH. unfold flat, size. cbn [fmap list_fmap concat]. rewrite length_app. lia. Qed.
Lemma total_app l l' : total (l ++ l') = total l + total l'.
Proof. induction l as [|r l IH]; [done|]. rewrite <-app_comm_cons, !total_cons, IH. lia. Qed.
Lemma flat_app l l' : flat (l ++ l') = flat l ++ flat l'.
Proof. unfold flat. by rewrite fmap_app, concat_app. Qed.
Lemma fresh_reset l : fresh ((fun r => set_off r 0) <$> l) ∧ content <$> ((fun r => set_off r 0) <$> l) = content <$> l.
Proof. unfold fresh. split; [rewrite Forall_fmap; by apply Forall_forall|]. rewrite <-list_fmap_compose. done. Qed.
Lemma located_here r rest o : off r = o → 0 <= o <= size r → fresh rest → located 0 o (r :: rest).
Proof. intros. by exists [], r, rest. Qed.
Lemma located_there r j o l : located j o l → located (S j) o (r :: l).
Proof. intros (l1&r'&l2&->&<-&?&?&?). by exists (r :: l1), r', l2. Qed.
Lemma total_contents l l' : content <$> l = content <$> l' → total l = total l'.
Proof. intros E. rewrite !total_flat. unfold flat. by rewrite E. Qed.

(** Reading what one reader has, and going on to the next. *)
Lemma read_here r rest i n : 0 <= off r <= size r → 0 <= n <= size r - off r →
  read_readers (r :: rest) i n = (set_off r (off r + n) :: rest, take (Z.to_nat n) (drop (Z.to_nat (off r)) (content r)), Some (i, off r + n)).
Proof.
  intros Ho Hn. cbn [read_readers]. unfold read_n, size in *. cbn [off set_off].
  assert (Z.of_nat (length (take (Z.to_nat n) (drop (Z.to_nat (off r)) (content r)))) = n) as -> by (rewrite length_take, length_drop; lia).
  by rewrite Z.sub_diag.
Qed.
Lemma read_through r rest i n : 0 <= off r <= size r → size r - off r < n →
  read_readers (r :: rest) i n =
  let '(rest', data, p) := read_readers rest (S i) (n - (size r - off r)) in
  (set_off r (size r) :: rest', drop (Z.to_nat (off r)) (content r) ++ data, match p with Some p => Some p | None => Some (i, size r) end).
Proof.
  intros Ho Hn. cbn [read_readers]. unfold read_n, size in *. cbn [off set_off].
  rewrite (take_ge (drop _ _)) by (rewrite length_drop; lia). rewrite length_drop.
  replace (Z.of_nat (length (content r) - Z.to_nat (off r))) with (Z.of_nat (length (content r)) - off r) by lia.
  assert ((n - (Z.of_nat (length (content r)) - off r) =? 0) = false) as -> by (apply Z.eqb_neq; lia).
  by replace (off r + (Z.of_nat (length (content r)) - off r)) with (Z.of_nat (length (content r))) by lia.
Qed.

(** Reading from one reader on. *)
Definition piece (n o : Z) l : gostring := take (Z.to_nat n) (drop (Z.to_nat o) (flat l)).
Lemma piece_here n r rest : 0 <= off r <= size r → 0 <= n <= size r - off r →
  piece n (off r) (r :: rest) = take (Z.to_nat n) (drop (Z.to_nat (off r)) (content r)).
Proof.
  intros Ho Hn. unfold piece, size in *. change (flat (r :: rest)) with (content r ++ flat rest).
  rewrite drop_app_le by lia. apply take_app_le. rewrite length_drop. lia.
Qed.
Lemma piece_through n r rest : 0 <= off r <= size r → size r - off r < n →
  piece n (off r) (r :: rest) = drop (Z.to_nat (off r)) (content r) ++ piece (n - (size r - off r)) 0 rest.
Proof.
  intros Ho Hn. unfold piece, size in *. change (flat (r :: rest)) with (content r ++ flat rest). rewrite drop_app_le by lia.
  rewrite take_app, length_drop, take_ge by (rewrite length_drop; lia). do 2 f_equal. lia.
Qed.
Lemma read_readers_spec rest r i n : 0 <= off r <= size r → fresh rest → 0 <= n →
  ∃ l' j o', read_readers (r :: rest) i n = (l', piece n (off r) (r :: rest), Some ((i + j)%nat, o')) ∧
    content <$> l' = content <$> (r :: rest) ∧ located j o' l' ∧ total (take j l') + o' = off r + Z.of_nat (length (piece n (off r) (r :: rest))).
Proof.
  revert r i n. induction rest as [|r1 rest IH]; intros r i n Ho Hfr Hn; destruct (decide (n <= size r - off r)) as [Hle|Hgt].
  1, 3: rewrite read_here, piece_here by lia; eexists _, 0%nat, (off r + n); rewrite Nat.add_0_r; split; [done|]; split; [done|];
    split; [apply located_here; [done|unfold size in *; simpl; lia|done]|]; rewrite length_take, length_drop; unfold size in *; simpl; lia.
  - rewrite read_through, piece_through by lia. cbn [read_readers]. assert (piece (n - (size r - off r)) 0 [] = []) as -> by (unfold piece, flat; cbn [fmap list_fmap concat]; by rewrite drop_nil, take_nil).
    eexists _, 0%nat, (size r). rewrite Nat.add_0_r. split; [done|]. split; [done|]. split; [apply located_here; [done|unfold size in *; simpl; lia|done]|].
    rewrite app_nil_r, length_drop. unfold size in *. simpl. lia.
  - rewrite read_through, piece_through by lia. apply Forall_cons in Hfr as [H1 Hfr].
    destruct (IH r1 (S i) (n - (size r - off r))) as (l'&j&o'&E&Hc&Hl&Ht); [rewrite H1; unfold size; lia|done|lia|]. rewrite H1 in *. rewrite E.
    eexists _, (S j), o'. rewrite Nat.add_succ_r. split; [done|]. split; [cbn [fmap list_fmap]; by rewrite Hc|].
    split; [by apply located_there|]. cbn [take]. rewrite total_cons, length_app, length_drop. unfold size in *. simpl. lia.
Qed.

(** Seeking. *)
Lemma seek_loop_spec l i tmp offset : l ≠ [] → tmp <= offset <= tmp + total l →
  ∃ l' j o, seek_loop l i tmp offset = (l', Some ((i + j)%nat, o)) ∧ content <$> l' = content <$> l ∧ located j o l' ∧ total (take j l') + o = offset - tmp.
Proof.
  revert i tmp. induction l as [|r rest IH]; intros i tmp Hne Ho; [done|]. cbn [seek_loop]. rewrite total_cons in Ho.
  destruct (Z.ltb_spec (tmp + size r) offset) as [Hlt|Hge].
  - destruct rest as [|r1 rest]; [simpl in Ho; lia|].
    destruct (IH (S i) (tmp + size r)) as (l'&j&o&E&Hc&Hl&Ht); [done|lia|]. rewrite E. eexists _, (S j), o. rewrite Nat.add_succ_r.
    split; [done|]. split; [cbn [fmap list_fmap] in *; by rewrite Hc|]. split; [by apply located_there|]. cbn [take]. rewrite total_cons. unfold size in *. simpl. lia.
  - assert ((offset - tmp <? 0) = false) as -> by (apply Z.ltb_ge; lia). destruct (fresh_reset rest) as [Hf Hc].
    destruct (Z.eqb_spec (offset - tmp) (size r)) as [Heq|Hneq]; destruct rest as [|r1 rest]; cbn [andb].
    2: { eexists _, 1%nat, 0. rewrite Nat.add_1_r. split; [done|]. split; [cbn [fmap list_fmap] in *; by rewrite Hc|].
      split; [apply located_there, located_here; [done|unfold size; lia|by apply Forall_cons in Hf as [_ ?]]|]. cbn [fmap list_fmap take]. rewrite total_cons. unfold size in *. simpl. lia. }
    all: eexists _, 0%nat, (offset - tmp); rewrite Nat.add_0_r; split; [done|]; split; [cbn [fmap list_fmap] in *; by rewrite ?Hc|];
      split; [apply located_here; [done|unfold size in *; simpl; lia|done]|simpl; lia].
Qed.

(** The readers stand for the position [p] of [all]. *)
Definition multi_stands (all : gostring) (p : Z) m : Prop :=
  readers m ≠ [] ∧ flat (readers m) = all ∧
  match pos m with
  | None => fresh (readers m) ∧ p = 0
  | Some (j, o) => located j o (readers m) ∧ total (take j (readers m)) + o = p
  end.
Lemma located_start l : l ≠ [] → fresh l → located 0 0 l.
Proof. intros Hne Hf. destruct l as [|r l]; [done|]. apply Forall_cons in Hf as [H1 Hf]. apply located_here; [done|unfold size; lia|done]. Qed.
Lemma stands_located all p m : multi_stands all p m → let '(j, o) := default (0%nat, 0) (pos m) in located j o (readers m) ∧ total (take j (readers m)) + o = p.
Proof.
  intros (Hne&_&Hp). destruct (pos m) as [[j o]|]; [done|]. destruct Hp as [Hf ->]. simpl. split; [by apply located_start|done].
Qed.
Lemma flat_contents l l' : content <$> l = content <$> l' → flat l = flat l' ∧ (l ≠ [] → l' ≠ []).
Proof. intros E. unfold flat. rewrite E. split; [done|]. destruct l, l'; done. Qed.

Lemma Read_stands all p m k : multi_stands all p m → let '(m', r) := MultiReader.Read k k m in let '(p', r') := flat_step all p (MRead k) in multi_stands all p' m' ∧ OutRead r = r'.
Proof.
  intros Hs. pose proof (stands_located _ _ _ Hs) as Hl. destruct Hs as (Hne&Hall&_). unfold MultiReader.Read, flat_step.
  destruct (default (0%nat, 0) (pos m)) as [j o]. destruct Hl as [(l1&r&l2&El&Hj&Hr&Ho&Hf) Hp]. cbn [fst]. rewrite El, <-Hj, take_app_length in Hp. rewrite El, <-Hj, drop_app_length, take_app_length.
  destruct (read_readers_spec l2 r (length l1) (Z.of_nat k)) as (l'&j'&o'&->&Hc&Hl'&Ht); [lia|done|lia|].
  assert (Hpiece : piece (Z.of_nat k) (off r) (r :: l2) = take k (drop (Z.to_nat p) all)).
  { unfold piece. rewrite Nat2Z.id, <-Hall, El, flat_app. f_equal. rewrite total_flat in Hp. replace (Z.to_nat p) with (length (flat l1) + Z.to_nat (off r))%nat by lia. by rewrite drop_app_add. }
  rewrite Hpiece in *. split.
  - assert (Hc' : content <$> (l1 ++ l') = content <$> readers m) by (rewrite El, !fmap_app, Hc; done).
    split; [|split]; simpl; [by apply (flat_contents (readers m))|by rewrite <-Hall; apply flat_contents|].
    split.
    + destruct Hl' as (l3&r'&l4&->&<-&?&?&?). exists (l1 ++ l3), r', l4. by rewrite <-app_assoc, length_app.
    + rewrite take_app_add, total_app. lia.
  - f_equal. case_match; [done|]. by rewrite take_take, Nat.min_id.
Qed.
Lemma seek_set_stands all p m offset : multi_stands all p m → 0 <= offset <= Z.of_nat (length all) →
  ∃ m', seek_set offset m = (m', Some offset) ∧ multi_stands all offset m'.
Proof.
  intros (Hne&Hall&_) Ho. unfold seek_set. destruct (seek_loop_spec (readers m) 0 0 offset) as (l'&j&o&->&Hc&Hl&Ht); [done|by rewrite total_flat, Hall|].
  eexists. split; [done|]. destruct (flat_contents _ _ Hc) as [E Hn]. destruct (flat_contents _ _ (eq_sym Hc)) as [_ Hn'].
  split; [|split]; simpl; [auto|by rewrite E|]. split; [done|lia].
Qed.
Lemma multi_step_stands all p m o : multi_stands all p m → legal all o = true →
  let '(m', r) := step m o in let '(p', r') := flat_step all p o in multi_stands all p' m' ∧ r = r'.
Proof.
  intros Hs Hle. destruct o as [k|offset w].
  { cbn [step]. pose proof (Read_stands all p m k Hs) as H. change (ReadSeeker.Read k m) with (MultiReader.Read k k m).
    destruct (MultiReader.Read k k m), (flat_step all p (MRead k)). destruct H as [? ->]. done. }
  cbn [step flat_step]. change (ReadSeeker.Seek offset w m) with (MultiReader.Seek offset w m). destruct w; cbn [legal MultiReader.Seek] in *; [| | |done].
  - apply andb_true_iff in Hle as [H1%Z.leb_le H2%Z.leb_le]. by destruct (seek_set_stands all p m offset Hs) as (m'&->&?).
  - apply Z.eqb_eq in Hle as ->. rewrite Z.add_0_r. pose proof Hs as (Hne&Hall&Hp). destruct (pos m) as [[j o]|] eqn:Ep; cbn [Z.eqb].
    + destruct Hp as [Hl Hp]. unfold getCurOffset. simpl. by rewrite Hp.
    + destruct Hp as [Hf ->]. destruct (seek_set_stands all 0 m 0 Hs) as (m'&->&?); [lia|done].
  - apply andb_true_iff in Hle as [H1%Z.leb_le H2%Z.leb_le]. rewrite total_flat. pose proof Hs as (Hne&Hall&_). rewrite Hall. set (m1 := mkMulti _ _).
    assert (Hne1 : readers m1 ≠ []) by (unfold m1; simpl; by destruct (readers m)).
    assert (Hall1 : flat (readers m1) = all) by (unfold m1; simpl; rewrite <-Hall; apply flat_contents; by rewrite <-list_fmap_compose).
    unfold seek_set. destruct (seek_loop_spec (readers m1) 0 0 (Z.of_nat (length all) + offset)) as (l'&j&o&->&Hc&Hl&Ht); [done|rewrite total_flat, Hall1; lia|]. cbn [fst].
    split; [|done]. destruct (flat_contents _ _ (eq_sym Hc)) as [E Hn]. split; [|split]; simpl; [auto|congruence|]. split; [done|lia].
Qed.
#[global] Instance multi_laws : ReadSeekerLaws multiReadSeeker := {| stands := multi_stands; step_stands := multi_step_stands |}.

(** A file stands for its contents. *)
Definition file_stands (all : gostring) (p : Z) r : Prop := content r = all ∧ off r = p ∧ 0 <= p.
Lemma file_step_stands all p r o : file_stands all p r → legal all o = true →
  let '(r', x) := step r o in let '(p', x') := flat_step all p o in file_stands all p' r' ∧ x = x'.
Proof.
  intros (<-&<-&Hp) Hle. destruct o as [k|offset w]; simpl.
  - unfold read_n. rewrite Nat2Z.id. split; [|done]. repeat split; simpl; lia.
  - destruct w; cbn [legal] in *; [apply andb_true_iff in Hle as [H1%Z.leb_le H2%Z.leb_le]|apply Z.eqb_eq in Hle|apply andb_true_iff in Hle as [H1%Z.leb_le H2%Z.leb_le]|done].
    all: unfold size; match goal with |- context [?a <? 0] => assert ((a <? 0) = false) as -> by (apply Z.ltb_ge; lia) end; repeat split; simpl; lia.
Qed.
#[global] Instance file_laws : ReadSeekerLaws reader := {| stands := file_stands; step_stands := file_step_stands |}.

Definition any_stands (all : gostring) (p : Z) (x : reader + multiReadSeeker) : Prop :=
  match x with inl r => stands all p r | inr m => stands all p m end.
Lemma any_step_stands all p (x : reader + multiReadSeeker) o : any_stands all p x → legal all o = true →
  let '(x', y) := step x o in let '(p', y') := flat_step all p o in any_stands all p' x' ∧ y = y'.
Proof.
  intros Hs Hle. destruct x as [r|m].
  - pose proof (step_stands all p r o Hs Hle) as H. revert H. destruct o as [k|offset w]; cbn [step].
    + change (ReadSeeker.Read k (inl r : reader + multiReadSeeker)) with (let '(r', y) := ReadSeeker.Read k r in (inl r' : reader + multiReadSeeker, y)). by destruct (ReadSeeker.Read k r).
    + change (ReadSeeker.Seek offset w (inl r : reader + multiReadSeeker)) with (let '(r', y) := ReadSeeker.Seek offset w r in (inl r' : reader + multiReadSeeker, y)). by destruct (ReadSeeker.Seek offset w r).
  - pose proof (step_stands all p m o Hs Hle) as H. revert H. destruct o as [k|offset w]; cbn [step].
    + change (ReadSeeker.Read k (inr m : reader + multiReadSeeker)) with (let '(m', y) := ReadSeeker.Read k m in (inr m' : reader + multiReadSeeker, y)). by destruct (ReadSeeker.Read k m).
    + change (ReadSeeker.Seek offset w (inr m : reader + multiReadSeeker)) with (let '(m', y) := ReadSeeker.Seek offset w m in (inr m' : reader + multiReadSeeker, y)). by destruct (ReadSeeker.Seek offset w m).
Qed.
#[global] Instance any_laws : ReadSeekerLaws (reader + multiReadSeeker) := {| stands := any_stands; step_stands := any_step_stands |}.

(** The readers that are put in a row start where they are, at their start. *)
Lemma MultiReadSeeker_stands l : l ≠ [] → fresh l → stands (flat l) 0 (MultiReadSeeker l).
Proof.
  intros Hne Hf. destruct l as [|r [|r' l]]; [done| |by split].
  apply Forall_cons in Hf as [Hr _]. simpl. unfold flat. simpl. rewrite app_nil_r. by repeat split.
Qed.
End multi.

(** C38: readers that stand at their start, put in a row, behave like one reader of their
    contents in a row, for every sequence of reads into slices whose capacity is their
    length, of seeks from the start and from the end to a position within the contents, and
    of questions for the position (a seek by 0 from where it is).  Seeks by another distance
    from there ([seek_current_lost]), slices with spare capacity ([read_loses]) and readers
    that are not at their start ([not_rewound]) behave differently. *)
Theorem multi_reader_flat l ops :
  l ≠ [] → fresh l → Forall (fun o => ReadSeeker.legal (flat l) o = true) ops →
  ReadSeeker.outs ReadSeeker.step (MultiReader.MultiReadSeeker l) ops = ReadSeeker.outs (ReadSeeker.flat_step (flat l)) 0%Z ops.
Proof.
  intros Hne Hf Hops. pose proof (MultiReadSeeker_stands l Hne Hf) as Hs. revert Hs.
  generalize 0%Z as p, (MultiReader.MultiReadSeeker l) as m. induction Hops as [|o ops Ho Hops IH]; intros p m Hs; [done|]. cbn [ReadSeeker.outs].
  pose proof (ReadSeeker.step_stands _ _ _ _ Hs Ho) as H. destruct (ReadSeeker.step m o), (ReadSeeker.flat_step (flat l) p o). destruct H as [? ->]. f_equal. by apply IH.
Qed.
Definition three_readers : list ReadSeeker.reader := [ReadSeeker.mkReader "hello" 0; ReadSeeker.mkReader [] 0; ReadSeeker.mkReader " world" 0].
Section examples.
  Import ReadSeeker.
Definition reader_ops : list op := [MRead 3; MRead 4; MSeek 0 SEEK_CUR; MSeek 5 SEEK_SET; MRead 2; MSeek (-2) SEEK_END; MRead 9; MRead 9].
Example multi_reader_flat_witness :
  outs step (MultiReader.MultiReadSeeker three_readers) reader_ops =
  [OutRead (RData "hel"); OutRead (RData "lo w"); OutSeek (Some 7%Z); OutSeek (Some 5%Z); OutRead (RData " w"); OutSeek (Some 9%Z); OutRead (RData "ld"); OutRead REOF].
Proof.
  rewrite (multi_reader_flat three_readers reader_ops); [vm_compute; reflexivity|done|by repeat constructor|by repeat constructor].
Defined.

(** Where this ends: a seek from the current position answers as if it had moved, but the
    readers stay where they are, and the position that is kept is another one. *)
Definition two_readers : MultiReader.multiReadSeeker := MultiReader.mkMulti [mkReader "hello" 0; mkReader " world" 0] None.
Example seek_current_lost :
  outs step two_readers [MRead 2; MSeek 1 SEEK_CUR; MRead 2; MSeek 4 SEEK_CUR; MSeek 0 SEEK_CUR] =
  [OutRead (RData "he"); OutSeek (Some 3%Z); OutRead (RData "ll"); OutSeek (Some 8%Z); OutSeek (Some 14%Z)].
Proof. vm_compute. done. Qed.
(** A seek behind the end keeps a position that is too large by the size of the last reader. *)
Example seek_behind_end : outs step two_readers [MSeek 20 SEEK_SET; MSeek 0 SEEK_CUR] = [OutSeek (Some 20%Z); OutSeek (Some 26%Z)].
Proof. vm_compute. done. Qed.
(** A slice that is longer in its array than it is loses what is read beyond its length. *)
Example read_loses : let '(m, r) := MultiReader.Read 2 4 two_readers in r = RData "he" ∧ (MultiReader.Read 2 2 m).2 = RData "o ".
Proof. vm_compute. done. Qed.
(** The readers are read from where they are, not from their start. *)
Example not_rewound : (step (MultiReader.MultiReadSeeker [mkReader "hello" 3; mkReader " world" 0]) (MRead 4)).2 = OutRead (RData "lo w").
Proof. vm_compute. done. Qed.
End examples.

(** ** The tail of a file *)

Section tail.
  Import ReadSeeker TailFile.
  Implicit Types (a b data content : gostring).

(** The lines of two texts in a row: the last of the first goes on in the second. *)
Lemma Split_glue c a b : ∃ l x y r, Split a [c] = l ++ [x] ∧ Split b [c] = y :: r ∧ Split (a ++ b) [c] = l ++ [x ++ y] ++ r.
Proof.
  pose proof (Split_ne a [c]) as Ha. pose proof (Split_ne b [c]) as Hb. destruct (Split a [c]) as [|x l _] eqn:Ea using rev_ind; [done|].
  destruct (Split b [c]) as [|y r] eqn:Eb; [done|]. exists l, x, y, r. split; [done|]. split; [done|].
  assert (Hl : Forall (fun z => c ∉ z) (l ++ [x])) by (rewrite <-Ea; apply Forall_forall; intros z; apply Split_char_free).
  assert (Hr : Forall (fun z => c ∉ z) (y :: r)) by (rewrite <-Eb; apply Forall_forall; intros z; apply Split_char_free).
  apply Forall_app in Hl as [Hl [Hx _]%Forall_cons]. apply Forall_cons in Hr as [Hy Hr].
  rewrite <-(Join_Split a [c]), <-(Join_Split b [c]), Ea, Eb. assert (Join (l ++ [x]) [c] ++ Join (y :: r) [c] = Join (l ++ [x ++ y] ++ r) [c]) as ->.
  { clear. assert (Hxy : x ++ Join (y :: r) [c] = Join ([x ++ y] ++ r) [c]) by (simpl; destruct r; by rewrite <-?app_assoc).
    destruct l as [|z l]; [exact Hxy|]. rewrite !Join_app by done. by rewrite <-Hxy, <-!app_assoc. }
  apply (Split_Join_char c); [by destruct l|]. apply Forall_app. split; [done|]. apply Forall_cons. split; [set_solver|done].
Qed.
Lemma Count_app c a b : Count (a ++ b) [c] = Count a [c] + Count b [c].
Proof.
  destruct (Split_glue c a b) as (l&x&y&r&Ha&Hb&Hab). unfold Count. rewrite Ha, Hb, Hab, !length_app. simpl. lia.
Qed.

(** The lines that are returned. *)
Lemma last_lines (lines : list gostring) (n : Z) : lines ≠ [] → (0 < n)%Z →
  (if (n <? Z.of_nat (length lines))%Z then take (Z.to_nat n) (drop (Z.to_nat (Z.of_nat (length lines) - n - 1)) lines) else take (Z.to_nat (Z.of_nat (length lines) - 1)) lines) =
  drop (length (removelast lines) - Z.to_nat n) (removelast lines).
Proof.
  intros Hne Hn. destruct lines as [|z lines _] using rev_ind; [done|]. rewrite removelast_last, length_app. cbn [length].
  destruct (Z.ltb_spec n (Z.of_nat (length lines + 1))) as [Hm|Hm].
  - replace (Z.to_nat (Z.of_nat (length lines + 1) - n - 1)) with (length lines - Z.to_nat n) by lia. rewrite drop_app_le by lia.
    rewrite take_app_le by (rewrite length_drop; lia). by rewrite take_ge by (rewrite length_drop; lia).
  - replace (Z.to_nat (Z.of_nat (length lines + 1) - 1)) with (length lines) by lia. rewrite take_app_length. replace (length lines - Z.to_nat n) with 0 by lia. done.
Qed.
(** The last lines of a text are those of an end of it that has more newlines. *)
Lemma last_lines_suffix content k n : (0 < n)%Z → k = 0 ∨ (n < Z.of_nat (Count (drop k content) eol))%Z →
  let lines := removelast (Split (drop k content) eol) in let lines' := removelast (Split content eol) in
  drop (length lines - Z.to_nat n) lines = drop (length lines' - Z.to_nat n) lines'.
Proof.
  intros Hn [->|Hk]; [done|]. cbv zeta. destruct (Split_glue newline (take k content) (drop k content)) as (l&x&y&r&Ha&Hb&Hab). rewrite take_drop in Hab. fold eol in Hb, Hab.
  unfold Count in Hk. rewrite Hb in *. rewrite Hab, (removelast_app l) by done. simpl in Hk. destruct r as [|z r _] using rev_ind; [simpl in Hk; lia|]. rewrite length_app in Hk. simpl in Hk.
  change (y :: r ++ [z]) with ((y :: r) ++ [z]). change ([x ++ y] ++ r ++ [z]) with (((x ++ y) :: r) ++ [z]). rewrite !removelast_last, length_app. cbn [length].
  replace (length l + S (length r) - Z.to_nat n) with (length l + S (length r - Z.to_nat n)) by lia. rewrite drop_app_add.
  replace (S (length r) - Z.to_nat n) with (S (length r - Z.to_nat n)) by lia. done.
Qed.

  Context `{HR : ReadSeekerLaws R} (blockSize : nat) (HB : 0 < blockSize).

(** Seeking to a position and reading a block that is there. *)
Lemma seek_spec all p f offset w : stands all p f → legal all (MSeek offset w) = true →
  ∃ f', Seek offset w f = (f', Some (flat_step all p (MSeek offset w)).1) ∧ stands all (flat_step all p (MSeek offset w)).1 f'.
Proof using.
  intros Hs Hle. pose proof (step_stands all p f (MSeek offset w) Hs Hle) as H1. cbn [step] in H1. destruct (Seek offset w f) as [f' o].
  cbn [flat_step fst] in *. destruct H1 as [? [= ->]]. eauto.
Qed.
Lemma read_block_spec all p k f : stands all p f → (0 <= p)%Z → (p + Z.of_nat k <= Z.of_nat (length all))%Z →
  ∃ f' p', read_block k f = (f', Ok (take k (drop (Z.to_nat p) all))) ∧ stands all p' f'.
Proof using.
  clear HB. intros Hs Hp Hk. pose proof (step_stands all p f (MRead k) Hs eq_refl) as H1. cbn [step flat_step] in H1. unfold read_block. destruct (Read k f) as [f' r].
  destruct H1 as [Hs' [= ->]]. assert (Hl : length (take k (drop (Z.to_nat p) all)) = k) by (rewrite length_take, length_drop; lia). eexists _, _. split; [|exact Hs'].
  destruct (decide (k = 0)) as [->|Hk0]; [done|].
  rewrite bool_decide_eq_false_2 by (intros E; rewrite E in Hl; simpl in Hl; lia). cbn [andb]. by rewrite Hl, Nat.sub_diag, app_nil_r.
Qed.

(** What is read is the end of the file, and all of it or enough. *)
Lemma tail_loop_spec fuel block content n data cnt p f : stands content p f →
  1 ≤ block → data = drop (length content - (block - 1) * blockSize) content → (block - 1) * blockSize ≤ length content → cnt = Count data eol →
  length content + 1 < fuel + (block - 1) * blockSize →
  ∃ f' k, tail_loop blockSize fuel block (Z.of_nat (length content)) n data cnt f = (f', Ok (drop k content)) ∧ (k = 0 ∨ (n < Z.of_nat (Count (drop k content) eol))%Z).
Proof using HB.
  revert block data cnt p f. induction fuel as [|fuel IH]; intros block data cnt p f Hs Hb Hd Hle Hc Hf; [lia|]. cbn [tail_loop].
  assert (Hm : block * blockSize = (block - 1) * blockSize + blockSize) by (destruct block; [lia|simpl; rewrite Nat.sub_0_r; lia]).
  destruct (Z.ltb_spec (Z.of_nat (length content) + - Z.of_nat (block * blockSize)) 0) as [Hlt|Hge].
  - destruct (seek_spec content p f 0 SEEK_SET Hs) as (f1&->&Hs1); [simpl; apply Z.leb_le; lia|]. cbn [flat_step fst] in Hs1.
    replace (Z.to_nat (Z.of_nat blockSize + (Z.of_nat (length content) + - Z.of_nat (block * blockSize)))) with (length content - (block - 1) * blockSize) by lia.
    destruct (read_block_spec content 0 (length content - (block - 1) * blockSize) f1 Hs1) as (f2&p2&->&_); [lia|lia|]. eexists _, 0. split; [|by left].
    subst data. rewrite drop_0. by rewrite take_drop.
  - destruct (seek_spec content p f (- Z.of_nat (block * blockSize)) SEEK_END Hs) as (f1&->&Hs1); [cbn [legal]; apply andb_true_iff; split; apply Z.leb_le; lia|]. cbn [flat_step fst] in Hs1.
    set (left := Z.to_nat (Z.of_nat (length content) + - Z.of_nat (block * blockSize))). assert (Hleft : left = length content - block * blockSize) by (unfold left; lia).
    destruct (read_block_spec content _ blockSize f1 Hs1) as (f2&p2&->&Hs2); [lia|lia|]. fold left.
    assert (Hnew : take blockSize (drop left content) ++ data = drop left content).
    { subst data. rewrite <-(take_drop blockSize (drop left content)) at 2. f_equal. rewrite drop_drop. f_equal. lia. }
    rewrite Hnew. assert (Hcnt : cnt + Count (take blockSize (drop left content)) eol = Count (drop left content) eol).
    { pose proof (Count_app newline (take blockSize (drop left content)) data) as H1. rewrite Hnew in H1. unfold eol in *. lia. }
    rewrite Hcnt. destruct (Z.ltb_spec n (Z.of_nat (Count (drop left content) eol))) as [Hn|Hn]; [eauto|].
    replace (block * blockSize) with ((S block - 1) * blockSize) in * by (f_equal; lia). apply (IH _ _ _ p2); [done|lia| |lia|done|lia]. f_equal. lia.
Qed.
Lemma TailFile_lines content p f n : stands content p f → (0 < n)%Z →
  (TailFile blockSize f n).2 = let lines := removelast (Split content eol) in Ok (drop (length lines - Z.to_nat n) lines).
Proof using HB.
  intros Hs Hn. unfold TailFile. assert ((n <=? 0)%Z = false) as -> by (apply Z.leb_gt; lia).
  destruct (seek_spec content p f 0 SEEK_END Hs) as (f1&->&Hs1); [cbn [legal]; apply andb_true_iff; split; apply Z.leb_le; lia|]. cbn [flat_step fst] in *. rewrite Z.add_0_r in *. rewrite Nat2Z.id.
  destruct (tail_loop_spec (S (S (length content))) 1 content n [] 0 _ f1 Hs1) as (f2&k&->&Hk).
  { lia. }
  { simpl. by rewrite Nat.sub_0_r, drop_all. }
  { simpl. lia. }
  { done. }
  { simpl. lia. }
  cbn [snd]. cbv zeta. f_equal. rewrite last_lines by (done || apply Split_ne). by apply last_lines_suffix.
Qed.
End tail.

(** C39: the lines that are read backwards in blocks from the end of files in a row are the
    last [n] complete lines of their contents in a row, for every size of the blocks, and
    all lines if there are not more. *)
Theorem TailFile_spec blockSize l n :
  0 < blockSize → (0 < n)%Z → l ≠ [] → fresh l →
  (TailFile.TailFile blockSize (MultiReader.MultiReadSeeker l) n).2 =
  let lines := removelast (Split (flat l) TailFile.eol) in Ok (drop (length lines - Z.to_nat n) lines).
Proof. intros HB Hn Hne Hf. apply (TailFile_lines blockSize HB _ 0); [by apply MultiReadSeeker_stands|done]. Qed.
(** A log in two files, in blocks of four bytes; the last line is not complete. *)
Definition log_files : list ReadSeeker.reader :=
  [ReadSeeker.mkReader ("one" ++ TailFile.eol ++ "two" ++ TailFile.eol ++ "th") 0; ReadSeeker.mkReader ("ree" ++ TailFile.eol ++ "fo") 0].
Example TailFile_spec_witness : (TailFile.TailFile 4 (MultiReader.MultiReadSeeker log_files) 2).2 = Ok ["two"; "three"].
Proof. rewrite (TailFile_spec 4 log_files 2); [vm_compute; reflexivity|lia|lia|done|by repeat constructor]. Defined.

(** ** Pipes of bytes *)

Section pipe.
  Import BytesPipe.
  Implicit Types (bp : BytesPipe) (bs : list slice) (p rest : gostring).
  Context (maxCap blockThreshold : nat) (HC : 0 < maxCap).

Definition datas bs : gostring := concat (sdata <$> bs).
(** The bytes that are not read yet, and the room in the last slice. *)
Definition contents bp : gostring := drop (lastRead bp) (datas (buf bp)).
Definition free bs : nat := match last bs with Some b => scap b - length (sdata b) | None => 0 end.
Definition slice_ok (b : slice) : Prop := length (sdata b) ≤ scap b ∧ 0 < scap b.

(** The invariant of a pipe: the length is that of the slices, the first is read up to
    [lastRead], and what is buffered with the room that is left has a bound. *)
Record inv (B : nat) bp : Prop := mkInv {
  inv_first : ∃ b bs, buf bp = b :: bs ∧ lastRead bp ≤ length (sdata b);
  inv_len : bufLen bp = length (datas (buf bp));
  inv_caps : Forall slice_ok (buf bp);
  inv_bound : bufLen bp + free (buf bp) ≤ B }.

Lemma datas_app bs bs' : datas (bs ++ bs') = datas bs ++ datas bs'.
Proof. unfold datas. by rewrite fmap_app, concat_app. Qed.
Lemma datas_cons b bs : datas (b :: bs) = sdata b ++ datas bs.
Proof. done. Qed.
Lemma free_snoc bs b : free (bs ++ [b]) = scap b - length (sdata b).
Proof. unfold free. by rewrite last_snoc. Qed.
Lemma inv_lastRead B bp : inv B bp → lastRead bp ≤ length (datas (buf bp)).
Proof using. clear HC. intros [(b&bs&->&Hle) _ _ _]. rewrite datas_cons, length_app. lia. Qed.
Lemma len_contents B bp : inv B bp → len bp = length (contents bp).
Proof using. clear HC. intros Hi. unfold len, contents. by rewrite (inv_len _ _ Hi), length_drop. Qed.

Lemma NewBytesPipe_inv c B : c ≤ B → 64 ≤ B → inv B (NewBytesPipe c).
Proof using. clear HC.
  intros Hc HB. unfold NewBytesPipe. split; simpl; [eauto|done| |].
  - repeat constructor; simpl; destruct (Nat.eqb_spec c 0); lia.
  - unfold free. simpl. destruct (Nat.eqb_spec c 0); lia.
Qed.

(** The slices of a pipe end with one; the operations on it keep the first. *)
Lemma last_split B bp : inv B bp → ∃ bs b, buf bp = bs ++ [b] ∧ last (buf bp) = Some b ∧ removelast (buf bp) = bs.
Proof using. clear HC.
  intros [(b&bs&E&_) _ _ _]. rewrite E. destruct (exists_last (l := b :: bs)) as (l&x&->); [done|].
  exists l, x. rewrite last_snoc, removelast_last. done.
Qed.

Lemma grow_inv B bp : inv B bp → bufLen bp < blockThreshold → blockThreshold + maxCap ≤ S B → inv B (grow maxCap bp).
Proof.
  intros Hi Hlt HB. destruct (last_split _ _ Hi) as (bs&b&E&Hl&_). destruct Hi as [(b0&bs0&E0&Hr) Hlen Hcaps Hb].
  unfold grow. rewrite Hl. assert (Hpos : 0 < Nat.min (2 * scap b) maxCap).
  { rewrite E in Hcaps. apply Forall_app in Hcaps as [_ [[_ Hp] _]%Forall_cons]. lia. }
  split; simpl.
  - rewrite E0. simpl. eauto.
  - rewrite datas_app, length_app, Hlen. simpl. lia.
  - apply Forall_app. split; [done|]. repeat constructor; simpl; lia.
  - rewrite free_snoc. simpl. lia.
Qed.
Lemma grow_contents B bp : inv B bp → contents (grow maxCap bp) = contents bp ∧ 0 < free (buf (grow maxCap bp)).
Proof.
  intros Hi. destruct (last_split _ _ Hi) as (bs&b&E&Hl&_). pose proof (inv_caps _ _ Hi) as Hcaps. rewrite E in Hcaps.
  apply Forall_app in Hcaps as [_ [[_ Hp] _]%Forall_cons]. unfold grow, contents. rewrite Hl. simpl. rewrite free_snoc, datas_app. simpl. rewrite app_nil_r. split; [done|]. lia.
Qed.

(** Filling the last slice. *)
Lemma fill_inv B bp bs b p : inv B bp → buf bp = bs ++ [b] →
  let n := (fill p b).2 in let bp' := mkPipe (bs ++ [(fill p b).1]) (lastRead bp) (bufLen bp + n) (closeErr bp) in
  inv B bp' ∧ contents bp' = contents bp ++ take n p ∧ n ≤ length p ∧ (n = length p ∨ n = free (buf bp)).
Proof using. clear HC.
  intros Hi E. pose proof (inv_lastRead _ _ Hi) as Hlr. destruct Hi as [(b0&bs0&E0&Hr) Hlen Hcaps Hb].
  unfold fill. set (n := Nat.min _ _). cbn [fst snd]. rewrite E in Hcaps, Hb. rewrite free_snoc in Hb.
  pose proof Hcaps as [_ [[Hle Hpos] _]%Forall_cons]%Forall_app.
  assert (Ht : length (take n p) = n) by (rewrite length_take; lia).
  assert (Hd : datas (bs ++ [mkSlice (sdata b ++ take n p) (scap b)]) = datas (buf bp) ++ take n p).
  { rewrite E, !datas_app, !datas_cons. simpl. rewrite !app_nil_r. by rewrite <-app_assoc. }
  split; [|split; [|rewrite E, free_snoc; lia]].
  - split; simpl.
    + rewrite E in E0. destruct bs as [|x bs]; simplify_eq/=; [|eauto]. do 2 eexists. split; [done|]. simpl. rewrite length_app. lia.
    + rewrite Hd, length_app, Hlen. lia.
    + apply Forall_app in Hcaps as [? _]. apply Forall_app. split; [done|]. repeat constructor; simpl; [rewrite length_app|]; lia.
    + rewrite free_snoc. simpl. rewrite length_app. lia.
  - unfold contents. simpl. rewrite Hd. by rewrite drop_app_le.
Qed.

(** What a writer did: how much of its bytes went into the pipe, and whether it ended. *)
Definition wrote (p : gostring) (w : nat) bp bp' (r : written) (q : gostring) : Prop :=
  match r with
  | WOk w' => q = p ∧ w' = w + length p ∧ closeErr bp = None
  | WBlocked rest w' => p = q ++ rest ∧ rest ≠ [] ∧ w' = w + length q ∧ blockThreshold ≤ bufLen bp' ∧ closeErr bp = None
  | WClosed w' => q = [] ∧ w' = w ∧ closeErr bp ≠ None
  end.

Lemma write_loop_spec B fuel p w bp : inv B bp → blockThreshold + maxCap ≤ S B → length p < fuel → (free (buf bp) = 0 → S (length p) < fuel) →
  let '(bp', r) := write_loop maxCap blockThreshold fuel p w bp in
  ∃ q, inv B bp' ∧ contents bp' = contents bp ++ q ∧ closeErr bp' = closeErr bp ∧ wrote p w bp bp' r q.
Proof using HC.
  revert p w bp. induction fuel as [|fuel IH]; intros p w bp Hi HB Hf Hf0; [lia|]. cbn [write_loop].
  destruct (closeErr bp) as [e|] eqn:Hce.
  { exists []. rewrite app_nil_r. split; [done|]. split; [done|]. split; [done|]. simpl. rewrite Hce. done. }
  destruct (last_split _ _ Hi) as (bs&b&E&->&->). pose proof (fill_inv B bp bs b p Hi E) as Hfill. cbv zeta in Hfill.
  destruct (fill p b) as [b' n] eqn:Efill. cbn [fst snd] in Hfill. rewrite Hce in Hfill. set (bp1 := mkPipe _ _ _ None) in *.
  destruct Hfill as (Hi1&Hc1&Hn&Hor). destruct (Nat.eqb_spec (length p) n) as [Hpn|Hpn].
  { exists p. rewrite Hc1, <-Hpn, firstn_all. split; [done|]. split; [done|]. split; [done|]. simpl. rewrite Hce. done. }
  assert (Hrest : drop n p ≠ []) by (intros Hnil; apply (f_equal length) in Hnil; rewrite length_drop in Hnil; simpl in Hnil; lia).
  change (bufLen bp1) with (bufLen bp + n). destruct (Nat.leb_spec blockThreshold (bufLen bp + n)) as [Hth|Hth].
  { exists (take n p). split; [done|]. split; [done|]. split; [done|]. simpl. rewrite take_drop, length_take, Hce. repeat split; try done; lia. }
  pose proof (grow_inv B bp1 Hi1 Hth HB) as Hig. destruct (grow_contents B bp1 Hi1) as [Hcg Hfg].
  assert (Hlen : length (drop n p) < fuel) by (rewrite length_drop; destruct Hor; [lia|]; destruct (decide (free (buf bp) = 0)); lia).
  specialize (IH (drop n p) (w + n) (grow maxCap bp1) Hig HB Hlen ltac:(lia)).
  destruct (write_loop maxCap blockThreshold fuel (drop n p) (w + n) (grow maxCap bp1)) as [bp' r]. destruct IH as (q&Hi'&Hc'&He'&Hw).
  assert (Hln : length (take n p) = n) by (rewrite length_take; lia).
  exists (take n p ++ q). split; [done|]. split; [by rewrite Hc', Hcg, Hc1, <-app_assoc|]. split; [done|].
  unfold wrote in *. rewrite Hce. change (closeErr (grow maxCap bp1)) with (@None gostring) in Hw. destruct r as [w'|w'|rest w'].
  - destruct Hw as (->&->&_). rewrite take_drop, length_drop. repeat split; lia.
  - destruct Hw as (_&_&?). done.
  - destruct Hw as (Hq&?&->&?&_). rewrite <-app_assoc, <-Hq, take_drop, length_app, Hln. repeat split; try done; lia.
Qed.
Lemma Write_spec B p bp : inv B bp → blockThreshold + maxCap ≤ S B →
  let '(bp', r) := Write maxCap blockThreshold p bp in
  ∃ q, inv B bp' ∧ contents bp' = contents bp ++ q ∧ closeErr bp' = closeErr bp ∧ wrote p 0 bp bp' r q.
Proof using HC. intros. apply write_loop_spec; [done|done|lia|lia]. Qed.
Lemma wake_spec B rest w bp : inv B bp → rest ≠ [] → blockThreshold + maxCap ≤ S B →
  let '(bp', r) := wake maxCap blockThreshold rest w bp in
  ∃ q, inv B bp' ∧ contents bp' = contents bp ++ q ∧ closeErr bp' = closeErr bp ∧
    (wrote rest w bp bp' r q ∨ bp' = bp ∧ q = [] ∧ r = WBlocked rest w ∧ blockThreshold ≤ bufLen bp).
Proof using HC.
  intros Hi Hne HB. unfold wake. destruct (Nat.leb_spec blockThreshold (bufLen bp)) as [Hth|Hth].
  { exists []. rewrite app_nil_r. split; [done|]. split; [done|]. split; [done|]. by right. }
  destruct (grow_contents B bp Hi) as [Hcg Hfg].
  pose proof (write_loop_spec B (S (S (length rest))) rest w (grow maxCap bp) (grow_inv B bp Hi Hth HB) HB ltac:(lia) ltac:(lia)) as H.
  destruct (write_loop maxCap blockThreshold (S (S (length rest))) rest w (grow maxCap bp)) as [bp' r]. rewrite Hcg in H. destruct H as (q&?&?&?&?). eauto 10.
Qed.

(** Reading. *)
Lemma read_loop_spec k bs b lr bl acc : Forall slice_ok (b :: bs) → lr ≤ length (sdata b) → bl = length (datas (b :: bs)) →
  ∃ b' bs' lr' bl', read_loop k (b :: bs) lr bl acc = (b' :: bs', lr', bl', acc ++ take k (drop lr (datas (b :: bs)))) ∧
    Forall slice_ok (b' :: bs') ∧ lr' ≤ length (sdata b') ∧ bl' = length (datas (b' :: bs')) ∧
    drop lr' (datas (b' :: bs')) = drop k (drop lr (datas (b :: bs))) ∧ bl' + free (b' :: bs') ≤ bl + free (b :: bs).
Proof using.
  clear HC. revert k b lr bl acc. remember (length bs) as m eqn:Hm. revert bs Hm. induction m as [m IH] using lt_wf_ind. intros bs Hm k b lr bl acc Hok Hlr Hbl.
  cbn [read_loop]. rewrite length_drop. set (r := Nat.min k (length (sdata b) - lr)). pose proof Hok as [[Hle Hpos] Hok']%Forall_cons.
  rewrite datas_cons in *. rewrite length_app in Hbl. destruct (Nat.eqb_spec (bl - (lr + r)) 0) as [Hz|Hz]; [|destruct (Nat.eqb_spec k r) as [Hk|Hk]].
  - assert (Hd0 : datas bs = []) by (apply nil_length_inv; lia). rewrite Hd0, app_nil_r. do 4 eexists. split.
    { do 2 f_equal. destruct (decide (k ≤ length (sdata b) - lr)); [by replace r with k by lia|by rewrite !take_ge by (rewrite length_drop; lia)]. }
    rewrite datas_cons, Hd0. split; [constructor; [split; simpl; lia|done]|]. split; [simpl; lia|]. split; [simpl; rewrite Hd0 in Hbl; simpl in Hbl; lia|].
    split; [simpl; symmetry; apply nil_length_inv; rewrite !length_drop; rewrite Hd0 in Hbl; simpl in Hbl; lia|].
    unfold free. destruct bs as [|b1 bs]; simpl; lia.
  - exists b, bs, (lr + r), bl. rewrite datas_cons. split; [do 2 f_equal; rewrite drop_app_le by lia; rewrite <-Hk, take_app_le by (rewrite length_drop; lia); done|].
    split; [done|]. split; [lia|]. split; [rewrite length_app; lia|]. split; [by rewrite drop_drop, Hk|done].
  - assert (Hr : r = length (sdata b) - lr) by lia. destruct bs as [|b1 bs]; [simpl in Hbl; lia|]. simpl in Hm.
    destruct (IH (length bs) ltac:(lia) bs eq_refl (k - r) b1 0 (bl - length (sdata b)) (acc ++ take r (drop lr (sdata b))) Hok' ltac:(lia) ltac:(lia)) as (b'&bs'&lr'&bl'&E&H1&H2&H3&H4&H5).
    exists b', bs', lr', bl'. rewrite E, !drop_0 in *. split.
    { f_equal. rewrite <-app_assoc. f_equal. rewrite drop_app_le by lia. rewrite (take_ge (drop lr (sdata b))) by (rewrite length_drop; lia).
      rewrite take_app, length_drop, (take_ge (drop lr (sdata b))) by (rewrite length_drop; lia). by rewrite Hr. }
    split; [done|]. split; [done|]. split; [done|]. split.
    { rewrite H4, drop_app_le by lia. rewrite (drop_app (drop lr (sdata b))), length_drop, (drop_ge (drop lr (sdata b))) by (rewrite length_drop; lia). simpl. by rewrite Hr. }
    etrans; [exact H5|]. change (free (b :: b1 :: bs)) with (free (b1 :: bs)). lia.
Qed.
Lemma read_now_spec B k bp : inv B bp → ∃ bp', read_now k bp = (bp', ROk (take k (contents bp))) ∧ inv B bp' ∧ contents bp' = drop k (contents bp) ∧ closeErr bp' = closeErr bp.
Proof using.
  clear HC. intros [(b&bs&E&Hr) Hlen Hcaps Hb]. unfold read_now, contents. rewrite E in *.
  destruct (read_loop_spec k bs b _ _ [] Hcaps Hr Hlen) as (b'&bs'&lr'&bl'&->&H1&H2&H3&H4&H5). eexists. split; [done|]. simpl. split; [|done].
  split; simpl; [eauto|done|done|lia].
Qed.

(** Writers that wait, and the calls in any order: a call of [Write] or [Read], the
    awakening of a writer or of a reader that waits, and [CloseWithError].  A step gives
    the bytes that it took from a writer and those that it gave to a reader. *)
Inductive op := OWrite (p : gostring) | OWake (i : nat) | OClose (err : option gostring) | ORead (k : nat) | OReadWoken (k : nat).
Record sys := mkSys { pipe : BytesPipe; waiting : list (gostring * nat) }.
Definition read_bytes (r : readResult) : gostring := match r with ROk data => data | _ => [] end.
Definition step (o : op) (s : sys) : sys * gostring * gostring :=
  match o with
  | OWrite p =>
      let '(bp, r) := Write maxCap blockThreshold p (pipe s) in
      match r with
      | WOk n | WClosed n => (mkSys bp (waiting s), take n p, [])
      | WBlocked rest n => (mkSys bp (waiting s ++ [(rest, n)]), take n p, [])
      end
  | OWake i =>
      match waiting s !! i with
      | None => (s, [], [])
      | Some (rest, w) =>
          let '(bp, r) := wake maxCap blockThreshold rest w (pipe s) in
          match r with
          | WOk n | WClosed n => (mkSys bp (delete i (waiting s)), take (n - w) rest, [])
          | WBlocked rest' n => (mkSys bp (<[i := (rest', n)]> (waiting s)), take (n - w) rest, [])
          end
      end
  | OClose err => (mkSys (CloseWithError err (pipe s)) (waiting s), [], [])
  | ORead k => let '(bp, r) := Read k (pipe s) in (mkSys bp (waiting s), [], read_bytes r)
  | OReadWoken k => let '(bp, r) := read_woken k (pipe s) in (mkSys bp (waiting s), [], read_bytes r)
  end.
Fixpoint run (ops : list op) (s : sys) : sys * gostring * gostring :=
  match ops with
  | [] => (s, [], [])
  | o :: ops => let '(s, i, o) := step o s in let '(s, ins, outs) := run ops s in (s, i ++ ins, o ++ outs)
  end.

Definition sys_inv B (s : sys) : Prop := inv B (pipe s) ∧ Forall (fun w => w.1 ≠ []) (waiting s).
Lemma take_wrote p q rest w : p = q ++ rest → take (w + length q - w) p = q.
Proof using. clear HC. intros ->. replace (w + length q - w) with (length q) by lia. apply take_app_length. Qed.
Lemma closed_inv B err bp : inv B bp → inv B (CloseWithError err bp).
Proof using. by intros []. Qed.
Lemma step_spec B o s : sys_inv B s → blockThreshold + maxCap ≤ S B →
  let '(s', i, o) := step o s in sys_inv B s' ∧ contents (pipe s) ++ i = o ++ contents (pipe s').
Proof using HC.
  intros [Hi Hw] HB. destruct o as [p|i|err|k|k]; unfold step.
  - pose proof (Write_spec B p (pipe s) Hi HB) as H. destruct (Write maxCap blockThreshold p (pipe s)) as [bp r]. destruct H as (q&Hi'&Hc&_&Hr).
    destruct r as [n|n|rest n]; simpl in *.
    + destruct Hr as (->&->&_). rewrite firstn_all. done.
    + destruct Hr as (->&->&_). simpl. done.
    + destruct Hr as (->&?&->&_). rewrite take_app_length. split; [split; [done|]|done]. apply Forall_app. simpl. auto.
  - destruct (waiting s !! i) as [[rest w]|] eqn:Ew; [|by rewrite app_nil_r]. pose proof (proj1 (Forall_lookup _ _) Hw i _ Ew) as Hne.
    pose proof (wake_spec B rest w (pipe s) Hi Hne HB) as H. destruct (wake maxCap blockThreshold rest w (pipe s)) as [bp r]. destruct H as (q&Hi'&Hc&_&Hr).
    assert (Hdel : Forall (fun w => w.1 ≠ []) (delete i (waiting s))) by by apply Forall_delete.
    destruct r as [n|n|rest' n]; simpl in *.
    + destruct Hr as [(->&->&_)|(_&_&?&_)]; [|done]. rewrite (take_wrote rest rest [] w) by by rewrite app_nil_r. done.
    + destruct Hr as [(->&->&_)|(_&_&?&_)]; [|done]. rewrite Nat.sub_diag. done.
    + destruct Hr as [(Hq&?&->&_)|(_&->&[= -> ->]&_)].
      * rewrite (take_wrote _ _ _ w Hq). split; [split; [done|]|done]. by apply Forall_insert.
      * rewrite Nat.sub_diag. split; [split; [done|]|done]. by apply Forall_insert.
  - rewrite app_nil_r. split; [split; [by apply closed_inv|done]|done].
  - unfold Read. destruct (Nat.eqb_spec (len (pipe s)) 0) as [Hz|Hz].
    + rewrite app_nil_r. destruct (closeErr (pipe s)); done.
    + destruct (read_now_spec B k (pipe s) Hi) as (bp'&->&Hi'&Hc&_). simpl. rewrite app_nil_r, Hc, take_drop. done.
  - destruct (read_now_spec B k (pipe s) Hi) as (bp'&E&Hi'&Hc&_).
    assert (Hnow : let '(bp, r) := read_now k (pipe s) in sys_inv B (mkSys bp (waiting s)) ∧ contents (pipe s) ++ [] = read_bytes r ++ contents bp).
    { rewrite E. simpl. rewrite app_nil_r, Hc, take_drop. done. }
    unfold read_woken. destruct (len (pipe s) =? 0); [destruct (closeErr (pipe s))|]; [by rewrite app_nil_r|..]; destruct (read_now k (pipe s)); exact Hnow.
Qed.
Lemma run_spec B ops s : sys_inv B s → blockThreshold + maxCap ≤ S B →
  let '(s', i, o) := run ops s in sys_inv B s' ∧ contents (pipe s) ++ i = o ++ contents (pipe s').
Proof using HC.
  intros Hi HB. revert s Hi. induction ops as [|o ops IH]; intros s Hi; [simpl; by rewrite app_nil_r|]. simpl.
  pose proof (step_spec B o s Hi HB) as Hs. destruct (step o s) as [[s1 i1] o1]. destruct Hs as [Hi1 E1].
  specialize (IH s1 Hi1). destruct (run ops s1) as [[s2 i2] o2]. destruct IH as [Hi2 E2]. split; [done|].
  by rewrite app_assoc, E1, <-!app_assoc, E2.
Qed.
End pipe.

(** A pipe is a queue of bytes: in any order of calls of any number of writers and
    readers, the bytes that the writers were told are written are those that the readers
    got followed by those in the pipe, in this order; and what is kept has a bound that
    does not depend on what is written. *)
Theorem pipe_fifo maxCap blockThreshold c ops :
  0 < maxCap →
  let '(s, written, got) := run maxCap blockThreshold ops (mkSys (BytesPipe.NewBytesPipe c) []) in
  written = got ++ contents (pipe s) ∧ BytesPipe.bufLen (pipe s) ≤ Nat.max (Nat.max c 64) (blockThreshold + maxCap - 1).
Proof.
  intros HC. set (B := Nat.max (Nat.max c 64) (blockThreshold + maxCap - 1)).
  assert (Hi : sys_inv B (mkSys (BytesPipe.NewBytesPipe c) [])) by (split; [apply NewBytesPipe_inv; lia|constructor]).
  pose proof (run_spec maxCap blockThreshold HC B ops _ Hi ltac:(lia)) as H. destruct (run maxCap blockThreshold ops _) as [[s i] o]. destruct H as [[Hi' _] E].
  split; [exact E|]. pose proof (inv_bound _ _ Hi'). lia.
Qed.
(** Two writers and a reader: the first writer fills the pipe and waits, the second too. *)
Definition pipe_ops : list op := [OWrite "abcdefgh"; OWrite "xy"; ORead 3; OWake 0; ORead 9; OWake 0; OWake 0; ORead 9].
Example pipe_fifo_witness :
  let '(s, written, got) := run 4 4 pipe_ops (mkSys (BytesPipe.NewBytesPipe 2) []) in
  written = "abcdefghxy" ∧ written = got ++ contents (pipe s) ∧ BytesPipe.bufLen (pipe s) ≤ Nat.max (Nat.max 2 64) (4 + 4 - 1).
Proof.
  pose proof (pipe_fifo 4 4 2 pipe_ops ltac:(lia)) as H. destruct (run 4 4 pipe_ops _) as [[s i] o] eqn:E.
  split; [|exact H]. vm_compute in E. injection E as <- <- <-. reflexivity.
Defined.

(** A writer that waits for room is not released when the pipe is closed: it waits until
    a reader makes room, and there may be none. *)
Example closed_writer_waits :
  let '(s, _, _) := run 4 4 [OWrite "abcdefgh"; OClose None; OWake 0] (mkSys (BytesPipe.NewBytesPipe 4) []) in
  waiting s = [("efgh", 4)] ∧ BytesPipe.closeErr (pipe s) = Some "EOF".
Proof. vm_compute. done. Qed.
(** A reader that was woken by the empty write of another gets no bytes and no error. *)
Example woken_reader_empty : (BytesPipe.read_woken 8 (BytesPipe.Write 4 4 [] (BytesPipe.NewBytesPipe 4)).1).2 = BytesPipe.ROk [].
Proof. vm_compute. done. Qed.

