(* ===== verification/TarUpload.v ===== *)
(** * TarUpload: the archive of a local volume, written while it is read

    [src/api/client/tarfile.go]: a reader that produces a tar archive piece by piece.
    Every file goes through the states header, contents, padding, uploaded and finished;
    a call of [Read] serves one file.

    The bytes of a header are made by the standard library and belong to the entry; the
    contents of the files are read anew by every call and are an argument of it. *)

From S2P Require Import Prelude.
Import Strings.

Module TarUpload.

Inductive tarState := TARINFO_HEADER | TARINFO_FILE | TARINFO_PAD | TARINFO_UPLOADED | TARINFO_FINISHED.

(** What is known of a file when it is added: the encoded header or the error of encoding
    it, whether it is a regular file, its size and its path. *)
Record fileInfo := mkInfo { encoded : result gostring gostring; regular : bool; Size : nat; path : gostring }.
Record tarInfo := mkTar { info : fileInfo; pad : nat; headerBuf : option gostring; pos : nat; state : tarState }.
Record TarFile := mkTarFile { fileList : list tarInfo; blockSize : nat; endPad : nat; closed : bool }.

Definition NewTarFile (blockSize : nat) : TarFile := mkTarFile [] blockSize (blockSize * 2) false.
Definition AddFile (i : fileInfo) (t : TarFile) : TarFile :=
  let p := (blockSize t - Size i mod blockSize t) mod blockSize t in
  mkTarFile (fileList t ++ [mkTar i p None 0 TARINFO_HEADER]) (blockSize t) (endPad t) (closed t).
Definition Close (t : TarFile) : TarFile := mkTarFile (fileList t) (blockSize t) (endPad t) true.

Definition zeros (n : nat) : gostring := replicate n "000"%char.
Definition set_buf (b : gostring) (f : tarInfo) : tarInfo := mkTar (info f) (pad f) (Some b) (pos f) (state f).
Definition set_pos (p : nat) (f : tarInfo) : tarInfo := mkTar (info f) (pad f) (headerBuf f) p (state f).
Definition set_state (s : tarState) (f : tarInfo) : tarInfo := mkTar (info f) (pad f) (headerBuf f) (pos f) s.

Section read.
  Context (fs : gostring → result gostring gostring).

(** The bytes that are copied into a slice of length [room]. *)
Definition writeHeader (room : nat) (f : tarInfo) : result gostring (tarInfo * gostring) :=
  let! buf := match headerBuf f with Some b => Ok b | None => encoded (info f) end in
  Ok (set_buf (drop room buf) f, take room buf).
Definition writeFile (room : nat) (f : tarInfo) : result gostring gostring :=
  let! c := fs (path (info f)) in Ok (take room (drop (pos f) c)).
Definition writePad (room : nat) (f : tarInfo) : gostring := take room (zeros (pad f)).

Inductive loopResult := LDone (f : tarInfo) (data : gostring) | LErr (e : gostring) | LSpins.
(** The loop of [Read]: [n] bytes of [length] are written, the slice [p] has [room]
    bytes.  It may go on forever: [LSpins] says that the fuel is used up. *)
Fixpoint read_loop (fuel length n room : nat) (f : tarInfo) (acc : gostring) : loopResult :=
  match fuel with
  | O => LSpins
  | S fuel =>
      if negb (n <? length) then LDone f acc
      else
        match state f with
        | TARINFO_FINISHED => LDone f acc
        | TARINFO_HEADER =>
            match writeHeader room f with
            | Err e => LErr e
            | Ok (f, data) =>
                let n := n + List.length data in
                let room := room - n in
                let f := match headerBuf f with
                         | Some (_ :: _) => f
                         | _ => set_state (if regular (info f) then TARINFO_FILE else TARINFO_UPLOADED) f
                         end in
                read_loop fuel length n room f (acc ++ data)
            end
        | TARINFO_FILE =>
            match writeFile room f with
            | Err e => LErr e
            | Ok data =>
                let ret := List.length data in
                let f := set_pos (pos f + ret) f in
                let f := if Size (info f) <=? pos f then set_state TARINFO_PAD (set_pos 0 f) else f in
                read_loop fuel length (n + ret) (room - ret) f (acc ++ data)
            end
        | TARINFO_PAD =>
            if pad f =? 0 then read_loop fuel length n room (set_state TARINFO_UPLOADED f) acc
            else
              let data := writePad room f in
              let ret := List.length data in
              let f := set_pos (pos f + ret) f in
              let f := if pad f <=? pos f then set_state TARINFO_UPLOADED f else f in
              read_loop fuel length (n + ret) (room - ret) f (acc ++ data)
        | TARINFO_UPLOADED => read_loop fuel length n room (set_state TARINFO_FINISHED f) acc
        end
  end.

Inductive readResult := RData (data : gostring) | REOF (data : gostring) | RErr (e : gostring) | RSpins.
(** [writeClose]: the zeros at the end of an archive. *)
Definition writeClose (room : nat) (t : TarFile) : TarFile * readResult :=
  let data := take room (zeros (endPad t)) in
  let t' := mkTarFile (fileList t) (blockSize t) (endPad t - length data) (closed t) in
  if endPad t' <=? 0 then (Close t', REOF data) else (t', RData data).

Definition finished (f : tarInfo) : bool := match state f with TARINFO_FINISHED => true | _ => false end.
(** The first file that is not finished, with those before and after it. *)
Fixpoint current (l : list tarInfo) : option (list tarInfo * tarInfo * list tarInfo) :=
  match l with
  | [] => None
  | f :: l => if finished f then match current l with Some (a, x, b) => Some (f :: a, x, b) | None => None end else Some ([], f, l)
  end.
Definition Read (k : nat) (t : TarFile) : TarFile * readResult :=
  if k =? 0 then (t, RData [])
  else if closed t then (t, REOF [])
  else
    match current (fileList t) with
    | None => writeClose k t
    | Some (before, f, after) =>
        match read_loop (k + 5) k 0 k f [] with
        | LDone f data => (mkTarFile (before ++ f :: after) (blockSize t) (endPad t) (closed t), RData data)
        | LErr e => (Close t, RErr e)
        | LSpins => (t, RSpins)
        end
    end.
End read.

(** Reading into slices of the given lengths until the end: what was read, and whether
    the end was reached. *)
Fixpoint read_all (fs : gostring → result gostring gostring) (ks : list nat) (t : TarFile) : gostring * bool :=
  match ks with
  | [] => ([], false)
  | k :: ks =>
      match Read fs k t with
      | (t, RData data) => let '(rest, b) := read_all fs ks t in (data ++ rest, b)
      | (_, REOF data) => (data, true)
      | (_, RErr _) | (_, RSpins) => ([], false)
      end
  end.
End TarUpload.
Import TarUpload.

(** ** The archive is complete *)

Section archive.
  Context (fs : gostring → result gostring gostring) (bs : nat) (Hbs : 0 < bs).
  Implicit Types (f : tarInfo) (t : TarFile) (i : fileInfo).

(** A file that does not change: its header is encoded, in whole blocks, and it has the
    size that it had when it was added. *)
Definition stable i (h c : gostring) : Prop :=
  encoded i = Ok h ∧ length h mod bs = 0 ∧ if regular i then fs (path i) = Ok c ∧ length c = Size i else c = [].
Definition padding i : nat := if regular i then (bs - Size i mod bs) mod bs else 0.
Definition entry i (h c : gostring) : gostring := h ++ c ++ zeros (padding i).

(** What is still to be read of a file, by its state. *)
Definition left_ f (h c : gostring) : gostring :=
  match state f with
  | TARINFO_HEADER => default h (headerBuf f) ++ c ++ zeros (padding (info f))
  | TARINFO_FILE => drop (pos f) c ++ zeros (pad f)
  | TARINFO_PAD => zeros (pad f)
  | TARINFO_UPLOADED | TARINFO_FINISHED => []
  end.
Definition good f (h c : gostring) : Prop :=
  stable (info f) h c ∧ pad f = (bs - Size (info f) mod bs) mod bs ∧
  match state f with
  | TARINFO_HEADER => pos f = 0
  | TARINFO_FILE => pos f ≤ Size (info f) ∧ regular (info f) = true
  | TARINFO_PAD => pos f = 0 ∧ regular (info f) = true
  | _ => True
  end.
Definition rank (s : tarState) : nat :=
  match s with TARINFO_HEADER => 4 | TARINFO_FILE => 3 | TARINFO_PAD => 2 | TARINFO_UPLOADED => 1 | TARINFO_FINISHED => 0 end.

Lemma zeros_length n : length (zeros n) = n.
Proof. apply length_replicate. Qed.
(** Equal up to whole blocks. *)
Definition cong (x y : nat) : Prop := ∃ a b, x + a * bs = y + b * bs.
Lemma cong_mod x y : cong x y → x mod bs = y mod bs.
Proof using Hbs. intros (a&b&E). apply (f_equal (fun z => z mod bs)) in E. by rewrite !Nat.Div0.mod_add in E. Qed.
Lemma mod_cong x : x mod bs = 0 → cong x 0.
Proof using Hbs. intros H. exists 0, (x / bs). pose proof (Nat.div_mod_eq x bs). lia. Qed.
Lemma cong_sub r x y : x ≤ r → cong r (x + y) → cong (r - x) y.
Proof using Hbs. intros Hle (a&b&E). exists a, b. lia. Qed.
Lemma cong_add x y x' y' : cong x x' → cong y y' → cong (x + y) (x' + y').
Proof using Hbs. intros (a&b&E) (a'&b'&E'). exists (a + a'), (b + b'). lia. Qed.
Lemma cong_sym x y : cong x y → cong y x.
Proof using Hbs. intros (a&b&E). exists b, a. lia. Qed.
Lemma cong_trans x y z : cong x y → cong y z → cong x z.
Proof using Hbs. intros (a&b&E) (a'&b'&E'). exists (a + a'), (b + b'). lia. Qed.
Lemma cong_small r p : 0 < r → p < bs → cong r p → p ≤ r.
Proof using Hbs. intros Hr Hp (a&b&E). destruct (decide (p ≤ r)); [done|]. exfalso. assert (a ≤ b ∨ b < a) as [H|H] by lia; nia. Qed.
Lemma padding_whole n : cong (n + (bs - n mod bs) mod bs) 0.
Proof using Hbs.
  pose proof (Nat.mod_upper_bound n bs ltac:(lia)). pose proof (Nat.div_mod_eq n bs). pose proof (Nat.div_mod_eq (bs - n mod bs) bs) as H2.
  set (q := (bs - n mod bs) / bs) in *. set (r := (bs - n mod bs) mod bs) in *. exists q, (S (n / bs)). lia.
Qed.
Lemma entry_whole i h c : stable i h c → cong (length (entry i h c)) 0.
Proof using Hbs.
  intros (_&Hh&Hc). unfold entry. rewrite !length_app, zeros_length. apply (cong_add _ _ 0 0); [by apply mod_cong|].
  unfold padding. destruct (regular i); [|subst c; by exists 0, 0]. destruct Hc as [_ ->]. apply padding_whole.
Qed.

(** One turn of the loop moves on in the file or in its states. *)
Definition meas f (h c : gostring) : nat := rank (state f) + length (left_ f h c).
Definition takes (room : nat) f (h c : gostring) f' (data : gostring) : Prop :=
  good f' h c ∧ left_ f h c = data ++ left_ f' h c ∧ info f' = info f ∧ length data ≤ room ∧ meas f' h c < meas f h c ∧
  rank (state f') + (room - length data) < rank (state f) + room.

(** The loop takes from what is left as much as the slice holds, if the slice ends where
    a block ends. *)
Lemma tar_loop_spec fuel len n room f h c acc :
  good f h c → n + room = len → (state f = TARINFO_HEADER → n = 0) → cong room (length (left_ f h c)) → room + rank (state f) < fuel →
  ∃ f', read_loop fs fuel len n room f acc = LDone f' (acc ++ take room (left_ f h c)) ∧
    good f' h c ∧ left_ f' h c = drop room (left_ f h c) ∧ info f' = info f ∧ meas f' h c ≤ meas f h c ∧ (0 < room → state f ≠ TARINFO_FINISHED → meas f' h c < meas f h c).
Proof using Hbs.
  revert n room f acc. induction fuel as [|fuel IH]; intros n room f acc Hg Hlen Hn Hal Hf; [lia|]. cbn [read_loop].
  destruct (Nat.ltb_spec n len) as [Hlt|Hge]; cbn [negb].
  2:{ assert (room = 0) as -> by lia. exists f. rewrite take_0, drop_0, app_nil_r. split_and!; try done. lia. }
  (* a turn of the loop, and the rest by induction *)
  assert (Hturn : ∀ f1 data, takes room f h c f1 data → state f1 ≠ TARINFO_HEADER → ∃ f',
    read_loop fs fuel len (n + length data) (room - length data) f1 (acc ++ data) = LDone f' (acc ++ take room (left_ f h c)) ∧
    good f' h c ∧ left_ f' h c = drop room (left_ f h c) ∧ info f' = info f ∧ meas f' h c ≤ meas f h c ∧ (0 < room → state f ≠ TARINFO_FINISHED → meas f' h c < meas f h c)).
  { intros f1 data (Hg1&Hl1&Hi1&Hd&Hm&Hrk) Hne. destruct (IH (n + length data) (room - length data) f1 (acc ++ data) Hg1) as (f'&->&Hg'&Hl'&Hi'&Hm'&_).
    - lia.
    - done.
    - rewrite Hl1, length_app in Hal. by apply cong_sub.
    - lia.
    - exists f'. rewrite Hl1, take_app, drop_app, (take_ge data), (drop_ge data), <-app_assoc by lia. split_and!; try done; [congruence|lia|lia]. }
  pose proof Hg as (Hst&Hpad&Hs). assert (Hlp : pad f < bs) by (rewrite Hpad; apply Nat.mod_upper_bound; lia).
  unfold left_ in Hal. destruct (state f) eqn:Es; cbn [rank] in *.
  - set (b := default h (headerBuf f)) in *. specialize (Hn eq_refl). subst n. rewrite Nat.add_0_l in *. subst len.
    assert (Hw : writeHeader room f = Ok (set_buf (drop room b) f, take room b)).
    { unfold writeHeader, b. destruct Hst as (He&_). destruct (headerBuf f); [done|]. by rewrite He. }
    rewrite Hw. cbn [set_buf headerBuf info]. destruct (drop room b) as [|x y] eqn:Ed.
    + assert (Hle : length b ≤ room) by (apply (f_equal length) in Ed; rewrite length_drop in Ed; simpl in Ed; lia).
      rewrite (take_ge b) by lia. apply (Hturn _ b); [|simpl; by destruct (regular _)]. set (f1 := set_state _ _).
      assert (Hleft : left_ f1 h c = c ++ zeros (padding (info f))).
      { unfold left_, f1, padding. simpl. destruct (regular (info f)) eqn:Er; simpl; [by rewrite Hs, drop_0, Hpad|]. destruct Hst as (_&_&Hc). rewrite Er in Hc. by rewrite Hc. }
      assert (Hrk : rank (state f1) ≤ 3) by (unfold f1; simpl; destruct (regular _); simpl; lia). unfold takes, meas. rewrite Hleft. unfold left_. rewrite Es. fold b. rewrite !length_app. cbn [rank].
      split_and!; try done; try lia. split; [done|]. split; [done|]. unfold f1. simpl. destruct (regular (info f)) eqn:Er; simpl; [|done]. rewrite Hs. split; [lia|done].
    + assert (Hlt2 : room < length b) by (destruct (decide (length b ≤ room)); [|lia]; rewrite drop_ge in Ed by lia; done).
      assert (Hln : length (take room b) = room) by (rewrite length_take; lia). rewrite Hln. replace (0 + room) with room by lia. rewrite Nat.sub_diag.
      destruct fuel as [|fuel]; [lia|]. cbn [read_loop]. rewrite Nat.ltb_irrefl. cbn [negb]. eexists. split; [|].
      { f_equal. unfold left_. rewrite Es. fold b. by rewrite take_app_le by lia. }
      unfold meas, left_. simpl. rewrite Es. fold b. split; [by split; simpl; rewrite ?Es|]. split; [by rewrite (drop_app_le b), Ed by lia|]. split; [done|].
      rewrite app_comm_cons, <-Ed, !length_app, length_drop. simpl. lia.
  - destruct Hs as [Hp Hr]. pose proof Hst as (He&Hh&Hc). rewrite Hr in Hc. destruct Hc as [Hc Hsz]. unfold writeFile. rewrite Hc. cbn [rbind].
    set (data := take room (drop (pos f) c)). assert (Hld : length data = Nat.min room (Size (info f) - pos f)) by (unfold data; by rewrite length_take, length_drop, Hsz).
    cbn [set_pos pos info]. destruct (Nat.leb_spec (Size (info f)) (pos f + length data)) as [Hle|Hgt].
    + apply Hturn; [|done]. assert (Hdata : data = drop (pos f) c) by (unfold data; apply take_ge; rewrite length_drop; lia).
      unfold takes, meas, left_. simpl. rewrite Es. cbn [rank]. rewrite Hdata, !length_app in *. split_and!; try done; try lia.
    + apply Hturn; [|simpl; by rewrite Es]. assert (Hl : left_ f h c = data ++ drop (pos f + length data) c ++ zeros (pad f)).
      { unfold left_. rewrite Es, app_assoc. f_equal. rewrite <-drop_drop. rewrite <-(take_drop (length data) (drop (pos f) c)) at 1. f_equal. unfold data. rewrite length_take, length_drop.
        destruct (decide (room ≤ length c - pos f)); [by rewrite Nat.min_l by lia|rewrite Nat.min_r by lia; rewrite !take_ge by (rewrite length_drop; lia); done]. }
      unfold takes, meas. rewrite Hl. unfold left_. simpl. rewrite Es. cbn [rank]. rewrite !length_app. split_and!; try done; try lia.
      split; [done|]. split; [done|]. simpl. rewrite Es. split; [lia|done].
  - destruct Hs as [Hp Hr]. destruct (Nat.eqb_spec (pad f) 0) as [Hz|Hz].
    + pose proof (Hturn (set_state TARINFO_UPLOADED f) []) as H. rewrite Nat.add_0_r, Nat.sub_0_r, app_nil_r in H. apply H; [|done].
      unfold takes, meas, left_. simpl. rewrite Es, Hz. cbn [rank]. simpl. split_and!; try done; lia.
    + rewrite zeros_length in Hal. pose proof (cong_small room (pad f) ltac:(lia) Hlp Hal) as Hle. unfold writePad. rewrite take_ge by (rewrite zeros_length; lia).
      cbn [set_pos pos pad]. rewrite zeros_length. assert ((pad f <=? pos f + pad f) = true) as -> by (apply Nat.leb_le; lia).
      pose proof (Hturn (set_state TARINFO_UPLOADED (set_pos (pos f + pad f) f)) (zeros (pad f))) as H. rewrite zeros_length in H. apply H; [|done].
      unfold takes, meas, left_. simpl. rewrite Es. cbn [rank]. rewrite zeros_length, app_nil_r. split_and!; try done; lia.
  - pose proof (Hturn (set_state TARINFO_FINISHED f) []) as H. rewrite Nat.add_0_r, Nat.sub_0_r, app_nil_r in H. apply H; [|done].
    unfold takes, meas, left_. simpl. rewrite Es. cbn [rank]. simpl. split_and!; try done; lia.
  - exists f. unfold left_. rewrite Es, take_nil, drop_nil, app_nil_r. split_and!; done.
Qed.

(** The files of an archive with their headers and contents, and what is left of it. *)
Definition file_ok f (hc : gostring * gostring) : Prop := good f hc.1 hc.2 ∧ cong (length (left_ f hc.1 hc.2)) 0.
Fixpoint lefts (l : list tarInfo) (hcs : list (gostring * gostring)) : gostring :=
  match l, hcs with f :: l, hc :: hcs => left_ f hc.1 hc.2 ++ lefts l hcs | _, _ => [] end.
Fixpoint steps (l : list tarInfo) (hcs : list (gostring * gostring)) : nat :=
  match l, hcs with f :: l, hc :: hcs => meas f hc.1 hc.2 + steps l hcs | _, _ => 0 end.
Definition remaining t hcs : gostring := lefts (fileList t) hcs ++ zeros (endPad t).
Definition tar_ok t hcs : Prop := Forall2 file_ok (fileList t) hcs ∧ closed t = false ∧ 0 < endPad t.

Lemma current_Some l a f b : current l = Some (a, f, b) → l = a ++ f :: b ∧ Forall (fun f => finished f = true) a ∧ finished f = false.
Proof using.
  revert a. induction l as [|x l IH]; intros a; [done|]. cbn [current]. destruct (finished x) eqn:Ex.
  - destruct (current l) as [[[a' x'] b']|]; [|done]. intros [= <- <- <-]. destruct (IH a' eq_refl) as (->&Ha&Hf). auto.
  - intros [= <- <- <-]. auto.
Qed.
Lemma current_None l : current l = None → Forall (fun f => finished f = true) l.
Proof using.
  induction l as [|x l IH]; [done|]. cbn [current]. destruct (finished x) eqn:Ex; [|done]. destruct (current l) as [[[??]?]|]; [done|]. auto.
Qed.
Lemma finished_left f h c : finished f = true → left_ f h c = [].
Proof using. unfold finished, left_. by destruct (state f). Qed.
Lemma finished_lefts l hcs : Forall (fun f => finished f = true) l → length l = length hcs → lefts l hcs = [].
Proof using. clear Hbs. intros Hl. revert hcs. induction Hl as [|f l Hf Hl IH]; intros [|hc hcs] E; try done. simpl. rewrite finished_left by done. apply IH. simpl in E. lia. Qed.
Lemma lefts_app a b hcs hcs' : length a = length hcs → lefts (a ++ b) (hcs ++ hcs') = lefts a hcs ++ lefts b hcs'.
Proof using. clear Hbs. revert hcs. induction a as [|f a IH]; intros [|hc hcs] E; simplify_eq/=; [done|]. by rewrite IH, app_assoc. Qed.
Lemma steps_app a b hcs hcs' : length a = length hcs → steps (a ++ b) (hcs ++ hcs') = steps a hcs + steps b hcs'.
Proof using. clear Hbs. revert hcs. induction a as [|f a IH]; intros [|hc hcs] E; simplify_eq/=; [done|]. rewrite IH; [lia|done]. Qed.

Lemma drop_cong k n : cong k 0 → cong n 0 → cong (n - k) 0.
Proof using Hbs.
  intros Hk Hn. destruct (decide (k ≤ n)); [|replace (n - k) with 0 by lia; by exists 0, 0]. apply cong_sub; [lia|].
  rewrite Nat.add_0_r. apply (cong_trans _ 0); [done|by apply cong_sym].
Qed.
Lemma Read_spec k t hcs : tar_ok t hcs → 0 < k → cong k 0 →
  match Read fs k t with
  | (t', RData data) => tar_ok t' hcs ∧ remaining t hcs = data ++ remaining t' hcs ∧ steps (fileList t') hcs + endPad t' < steps (fileList t) hcs + endPad t
  | (_, REOF data) => data = remaining t hcs
  | _ => False
  end.
Proof using Hbs.
  intros (Hfs&Hcl&He) Hk Hal. unfold Read. destruct (Nat.eqb_spec k 0) as [|_]; [lia|]. rewrite Hcl. destruct (current (fileList t)) as [[[a f] b]|] eqn:Ec.
  - apply current_Some in Ec as (El&Ha&Hf). rewrite El in Hfs. apply Forall2_app_inv_l in Hfs as (h1&h2&Hfa&Hfb&->). apply Forall2_cons_inv_l in Hfb as ([h c]&h3&[Hg Hw]&Hfb&->).
    cbn [fst snd] in *. destruct (tar_loop_spec (k + 5) k 0 k f h c []) as (f'&->&Hg'&Hl'&Hi'&_&Hm'); [done|lia|done|by apply (cong_trans _ 0), cong_sym|destruct (state f); simpl; lia|].
    pose proof (Forall2_length _ _ _ Hfa) as Hlen. assert (Hm2 : meas f' h c < meas f h c) by (apply Hm'; [lia|]; intros E; unfold finished in Hf; by rewrite E in Hf).
    split; [|split].
    + split; [|done]. cbn [fileList]. apply Forall2_app; [done|]. constructor; [|done]. split; [done|]. cbn [fst snd]. rewrite Hl', length_drop. by apply drop_cong.
    + unfold remaining. cbn [fileList endPad]. rewrite El, !lefts_app by done. cbn [lefts fst snd]. rewrite !(finished_lefts a) by done. rewrite Hl'. cbn [app]. by rewrite !app_assoc, take_drop.
    + cbn [fileList endPad]. rewrite El, !steps_app by done. cbn [steps fst snd]. lia.
  - apply current_None in Ec. pose proof (Forall2_length _ _ _ Hfs) as Hlen. unfold writeClose. cbn [endPad].
    assert (Hlz : length (take k (zeros (endPad t))) = Nat.min k (endPad t)) by (by rewrite length_take, zeros_length). rewrite Hlz.
    unfold remaining. rewrite finished_lefts by done. cbn [app]. destruct (Nat.leb_spec (endPad t - Nat.min k (endPad t)) 0) as [Hle|Hgt].
    + apply take_ge. rewrite zeros_length. lia.
    + split; [|split]; cbn [fileList endPad]; [by split|rewrite finished_lefts by done|lia]. cbn [app]. unfold zeros. rewrite take_replicate, <-replicate_add. f_equal. lia.
Qed.
Lemma read_all_spec ks t hcs : tar_ok t hcs → Forall (fun k => 0 < k ∧ k mod bs = 0) ks → steps (fileList t) hcs + endPad t ≤ length ks → read_all fs ks t = (remaining t hcs, true).
Proof using Hbs.
  intros Ht Hks. revert t Ht. induction Hks as [|k ks [Hk Hmod] Hks IH]; intros t Ht Hlen.
  { destruct Ht as (_&_&He). simpl in Hlen. lia. }
  cbn [read_all]. pose proof (Read_spec k t hcs Ht Hk (mod_cong _ Hmod)) as H. destruct (Read fs k t) as [t' [data|data|e|]]; [|by rewrite H|done|done].
  destruct H as (Ht'&->&Hlt). rewrite IH; [done|done|]. simpl in Hlen. lia.
Qed.
End archive.

(** The archive of some files: their entries, and two blocks of zeros. *)
Definition archive (bs : nat) (files : list (fileInfo * gostring * gostring)) : gostring :=
  concat ((fun x => entry bs x.1.1 x.1.2 x.2) <$> files) ++ zeros (bs * 2).
Definition add_all (bs : nat) (files : list (fileInfo * gostring * gostring)) : TarFile :=
  foldl (fun t x => AddFile x.1.1 t) (NewTarFile bs) files.

Lemma add_all_ok fs bs files : 0 < bs → Forall (fun x => stable fs bs x.1.1 x.1.2 x.2) files →
  let hcs := (fun x => (x.1.2, x.2)) <$> files in
  tar_ok fs bs (add_all bs files) hcs ∧ remaining bs (add_all bs files) hcs = archive bs files ∧
  steps bs (fileList (add_all bs files)) hcs + endPad (add_all bs files) = length (archive bs files) + 4 * length files.
Proof.
  intros Hbs Hst. cbv zeta. assert (H : ∃ l, add_all bs files = mkTarFile l bs (bs * 2) false ∧ Forall2 (file_ok fs bs) l ((fun x => (x.1.2, x.2)) <$> files) ∧
    lefts bs l ((fun x => (x.1.2, x.2)) <$> files) = concat ((fun x => entry bs x.1.1 x.1.2 x.2) <$> files) ∧
    steps bs l ((fun x => (x.1.2, x.2)) <$> files) = length (concat ((fun x => entry bs x.1.1 x.1.2 x.2) <$> files)) + 4 * length files).
  { induction files as [|[[i h] c] files IH] using rev_ind; [by exists []|]. apply Forall_app in Hst as [Hst [Hx _]%Forall_cons]. cbn [fst snd] in Hx.
    destruct (IH Hst) as (l&E&Hf&Hl&Hs). unfold add_all in *. rewrite foldl_app, E. cbn [foldl fst]. unfold AddFile. cbn [fileList blockSize endPad closed].
    eexists. split; [done|]. set (f := mkTar _ _ _ _ _). pose proof (Forall2_length _ _ _ Hf) as Hlen. rewrite !fmap_app. cbn [fmap list_fmap fst snd].
    assert (Hleft : left_ bs f h c = entry bs i h c) by done. split; [|split].
    - apply Forall2_app; [done|]. constructor; [|done]. split; [by split|]. cbn [fst snd]. rewrite Hleft. by apply (entry_whole fs).
    - rewrite lefts_app by done. rewrite Hl, concat_app. cbn [lefts fst snd]. by rewrite Hleft.
    - rewrite steps_app, Hs, concat_app, !length_app by done. cbn [steps fst snd concat]. unfold meas. rewrite Hleft, app_nil_r. unfold f. cbn [state rank length]. lia. }
  destruct H as (l&->&Hf&Hl&Hs). unfold remaining, archive. cbn [fileList endPad]. rewrite Hl, length_app, zeros_length. split; [|split; [done|lia]]. split; [done|]. split; [done|]. simpl. nia.
Qed.

(** C29: an archive of files that do not change while they are sent, read into slices of
    any positive multiples of the block size, is complete: the calls give every header,
    the contents, the padding to whole blocks, and the two blocks of zeros, and then end. *)
Theorem upload_archive fs bs files ks :
  0 < bs → Forall (fun x => stable fs bs x.1.1 x.1.2 x.2) files → Forall (fun k => 0 < k ∧ k mod bs = 0) ks →
  length (archive bs files) + 4 * length files ≤ length ks → read_all fs ks (add_all bs files) = (archive bs files, true).
Proof.
  intros Hbs Hst Hks Hlen. destruct (add_all_ok fs bs files Hbs Hst) as (Hok&Hr&Hs). rewrite <-Hr. apply (read_all_spec fs bs Hbs); [done|done|lia].
Qed.
Definition demo_fs (p : gostring) : result gostring gostring := if p =s "/v/a" then Ok "hello" else Err "no such file".
Definition demo_files : list (fileInfo * gostring * gostring) :=
  [(mkInfo (Ok "DIRH") false 4096 "/v", "DIRH", []); (mkInfo (Ok "AHDR") true 5 "/v/a", "AHDR", "hello")].
Example upload_archive_witness : read_all demo_fs (replicate 40 8) (add_all 4 demo_files) = ("DIRHAHDRhello" ++ zeros 3 ++ zeros 8, true).
Proof.
  rewrite (upload_archive demo_fs 4 demo_files (replicate 40 8)); [vm_compute; reflexivity|lia| | |vm_compute; lia].
  - repeat constructor.
  - apply Forall_replicate. vm_compute. split; [lia|reflexivity].
Defined.

(** A slice that ends within the padding of a file: the padding is sent again from its
    start, and the rest of the archive is shifted. *)
Example padding_sent_twice : read_all demo_fs (replicate 40 5) (add_all 4 demo_files) = ("DIRHAHDRhello" ++ zeros 4 ++ zeros 8, true).
Proof. vm_compute. done. Qed.
(** A file that becomes shorter while it is sent: [Read] does not return. *)
Example shrunk_file_spins : (Read (fun _ => Ok "hel") 64 (add_all 4 [(mkInfo (Ok "AHDR") true 5 "/v/a", [], [])])).2 = RSpins.
Proof. vm_compute. done. Qed.
(** A file that becomes longer: more is sent than the header says. *)
Example grown_file_overruns : read_all (fun _ => Ok "hello world") (replicate 40 64) (add_all 4 [(mkInfo (Ok "AHDR") true 5 "/v/a", [], [])]) = ("AHDRhello world" ++ zeros 3 ++ zeros 8, true).
Proof. vm_compute. done. Qed.
