(* ===== verification/JsonEncode.v ===== *)
(** * JsonEncode: what the program uses of the encoder of [encoding/json]

    [json.MarshalIndent(v, _, _)] with no prefix and a tab, for values of strings,
    booleans, arrays and objects, and the theorem that the decoder of [Json] reads back
    what it writes.  Bytes of a string that are not UTF-8 are written as the replacement
    character. *)

From S2P Require Import Prelude Json Utf8.
Import Strings Json Utf8.Utf8.

Module JsonEncode.

Definition hex_digit (n : N) : ascii := ascii_of_N (if (n <? 10)%N then 48 + n else 87 + n).
(** A character below 128: printed as it is, escaped by a letter, or by its code; the
    characters that are special in HTML are escaped too. *)
Definition esc_char (c : ascii) : gostring :=
  let n := N_of_ascii c in
  if (c =c "034") || (c =c "\") then [ch "\"; c]
  else if c =c "010" then "\n"
  else if c =c "013" then "\r"
  else if c =c "009" then "\t"
  else if (n <? 32)%N || (c =c "<") || (c =c ">") || (c =c "&") then "\u00" ++ [hex_digit (n / 16); hex_digit (n mod 16)]
  else [c].
(** A rune: the line separators U+2028 and U+2029 are escaped by their codes, and a byte
    that is no UTF-8 is replaced. *)
Definition esc_rune (c : N) (b : gostring) : gostring :=
  match b with
  | [a] => if (N_of_ascii a <? 0x80)%N then esc_char a else "\ufffd"
  | _ => if (c =? 0x2028)%N || (c =? 0x2029)%N then "\u202" ++ [hex_digit (c mod 16)] else b
  end.
Definition esc (s : gostring) : gostring := by_rune esc_rune (length s) s.
Definition quoted (s : gostring) : gostring := "034"%char :: esc s ++ ["034"%char].

Definition newline (ind : nat) : gostring := "010"%char :: replicate ind "009"%char.
(** Elements of an array or an object, at one level of indentation. *)
Definition block (o c : ascii) (ind : nat) (l : list gostring) : gostring :=
  match l with
  | [] => [o; c]
  | _ => o :: newline (S ind) ++ Join l (ch "," :: newline (S ind)) ++ newline ind ++ [c]
  end.
Fixpoint indented (ind : nat) (v : json) : gostring :=
  match v with
  | JString s => quoted s
  | JNumber n => n
  | JBool b => if b then "true" else "false"
  | JNull => "null"
  | JArray l => block "[" "]" ind (indented (S ind) <$> l)
  | JObject l => block "{" "}" ind ((fun kv => quoted kv.1 ++ ": " ++ indented (S ind) kv.2) <$> l)
  end.
Definition MarshalIndent (v : json) : gostring := indented 0 v.

(** A value whose strings were decoded: [unquote] replaces the bytes that are no UTF-8. *)
Fixpoint clean (v : json) : json :=
  match v with
  | JString s => JString (sanitize s)
  | JArray l => JArray (clean <$> l)
  | JObject l => JObject ((fun kv => (sanitize kv.1, clean kv.2)) <$> l)
  | v => v
  end.
End JsonEncode.
Import JsonEncode.

(** ** The decoder reads back what the encoder writes *)

Section roundtrip.
  Implicit Types (s rest : gostring) (v : json).

(** Induction on values with their elements. *)
Lemma json_nested_ind (P : json → Prop) :
  (∀ s, P (JString s)) → (∀ n, P (JNumber n)) → (∀ b, P (JBool b)) → P JNull →
  (∀ l, Forall P l → P (JArray l)) → (∀ l, Forall (fun kv => P kv.2) l → P (JObject l)) → ∀ v, P v.
Proof.
  intros Hs Hn Hb H0 Ha Ho. fix IH 1. intros [s|n|b| |l|l]; [done..| |].
  - apply Ha. induction l; constructor; [apply IH|done].
  - apply Ho. induction l as [|[k v] l IHl]; constructor; [apply IH|done].
Qed.

Lemma esc_char_emits c : emits (esc_char c) [c] 1.
Proof. intros fuel rest. destruct c as [[] [] [] [] [] [] [] []]; reflexivity. Qed.
Lemma esc_step c b t : DecodeRune (b ++ t) = (c, length b) → 1 ≤ length b → esc (b ++ t) = esc_rune c b ++ esc t.
Proof. apply by_rune_step. Qed.
Lemma esc_rune_wide c b : 2 ≤ length b → esc_rune c b = if (c =? 0x2028)%N || (c =? 0x2029)%N then "\u202" ++ [hex_digit (c mod 16)] else b.
Proof. by destruct b as [|? [|]]; simpl; [lia|lia|]. Qed.
Lemma esc_rune_emits t c b : rune t c b → ∃ k, k ≤ length b ∧ emits (esc_rune c b) (clean_rune c b) k.
Proof.
  intros [a u Ha|a u Ha|w u c' Hw Hh Hu].
  - exists 1. split; [done|]. unfold esc_rune, clean_rune, invalid. destruct (N.ltb_spec (N_of_ascii a) 128); [|lia].
    destruct (N.eqb_spec (N_of_ascii a) RuneError) as [E|]; [unfold RuneError in E; lia|]. apply esc_char_emits.
  - exists 1. split; [done|]. unfold esc_rune, clean_rune. unfold high in Ha. destruct (N.ltb_spec (N_of_ascii a) 128); [lia|]. intros fuel rest. reflexivity.
  - assert (clean_rune c' w = w) as ->.
    { unfold clean_rune, invalid. destruct (Nat.eqb_spec (length w) 1); [lia|]. by rewrite andb_false_r. }
    rewrite esc_rune_wide by done. destruct (N.eqb_spec c' 0x2028) as [->|]; [|destruct (N.eqb_spec c' 0x2029) as [->|]].
    + exists 1. split; [lia|]. rewrite Hu. intros fuel rest. reflexivity.
    + exists 1. split; [lia|]. rewrite Hu. intros fuel rest. reflexivity.
    + exists (length w). split; [done|]. by apply emits_high.
Qed.
Lemma esc_spec s rest fuel : length s < fuel → json_string fuel (esc s ++ "034"%char :: rest) = Some (sanitize s, rest).
Proof.
  revert fuel. induction s as [|c b t Hd Hr Hb IH] using text_rune_ind; intros fuel Hf; [destruct fuel; [simpl in Hf; lia|done]|].
  rewrite (esc_step c), (sanitize_step c) by done. destruct (esc_rune_emits _ _ _ Hr) as (k&Hk&He). rewrite length_app in Hf.
  replace fuel with (k + (fuel - k)) by lia. rewrite <-app_assoc, He, IH by lia. done.
Qed.
Lemma esc_rune_length t c b : rune t c b → length b ≤ length (esc_rune c b).
Proof.
  intros [a u Ha|a u Ha|w u c' Hw Hh Hu].
  - unfold esc_rune. destruct (N.ltb_spec (N_of_ascii a) 128); [|lia]. unfold esc_char. repeat case_match; simpl; lia.
  - unfold esc_rune. unfold high in Ha. destruct (N.ltb_spec (N_of_ascii a) 128); [lia|]. simpl. lia.
  - rewrite esc_rune_wide by done. destruct (_ || _); [|done]. rewrite Hu. unfold utf8. repeat case_match; simpl; lia.
Qed.
Lemma esc_length s : length s ≤ length (esc s).
Proof.
  induction s as [|c b t Hd Hr Hb IH] using text_rune_ind; [done|]. rewrite (esc_step c), !length_app by done. pose proof (esc_rune_length _ _ _ Hr). lia.
Qed.
Lemma quoted_spec s rest : json_string (S (length ((esc s ++ ["034"%char]) ++ rest))) ((esc s ++ ["034"%char]) ++ rest) = Some (sanitize s, rest).
Proof. rewrite <-app_assoc. apply esc_spec. pose proof (esc_length s). rewrite length_app. simpl. lia. Qed.

(** White space before a value. *)
Lemma skip_newline ind s : skip (newline ind ++ s) = skip s.
Proof. unfold newline, skip. simpl. induction ind as [|ind IH]; [done|]. exact IH. Qed.
Lemma skip_cons c s : json_space c = false → skip (c :: s) = c :: s.
Proof. intros H. unfold skip. simpl. by rewrite H. Qed.
Lemma value_newline fuel ind s : json_value fuel (newline ind ++ s) = json_value fuel s.
Proof. destruct fuel as [|fuel]; [done|]. cbn [json_value]. by rewrite skip_newline. Qed.
Lemma value_space fuel s : json_value fuel (ch " " :: s) = json_value fuel s.
Proof. destruct fuel; done. Qed.

(** The fuel that a value takes, and the values without numbers. *)
Fixpoint need v : nat :=
  match v with
  | JArray l => S (foldr (fun v n => S (need v) + n) 0 l)
  | JObject l => S (foldr (fun kv n => S (need kv.2) + n) 0 l)
  | _ => 1
  end.
Fixpoint numberless v : Prop :=
  match v with
  | JNumber _ => False
  | JArray l => foldr (fun v P => numberless v ∧ P) True l
  | JObject l => foldr (fun kv P => numberless kv.2 ∧ P) True l
  | _ => True
  end.
Definition reads v : Prop := ∀ ind rest fuel, numberless v → need v ≤ fuel → json_value fuel (indented ind v ++ rest) = Some (clean v, rest).

Definition member (ind : nat) (kv : gostring * json) : gostring := quoted kv.1 ++ ": " ++ indented ind kv.2.
Lemma members_step fuel i j k v t : json_members (S fuel) (newline i ++ member j (k, v) ++ t) =
  ('(v, rest) ← json_value fuel (indented j v ++ t);
   match skip rest with
   | c :: rest =>
       if c =c "}" then Some ([(sanitize k, v)], rest)
       else if c =c "," then '(l, rest) ← json_members fuel rest; Some ((sanitize k, v) :: l, rest)
       else None
   | [] => None
   end).
Proof.
  replace (member j (k, v) ++ t) with (ch "034" :: (esc k ++ [ch "034"]) ++ ch ":" :: ch " " :: indented j v ++ t) by (unfold member, quoted; simpl; by rewrite <-!app_assoc).
  cbn [json_members]. rewrite skip_newline, skip_cons by done. change (ch "034" =c "034") with true. cbn match. rewrite quoted_spec. cbn [mbind option_bind].
  rewrite skip_cons by done. change (ch ":" =c ":") with true. cbn match. by rewrite value_space.
Qed.
(** The members of an object, each read back, and its end. *)
Lemma members_spec l i j m rest fuel : l ≠ [] → Forall (fun kv => reads kv.2) l → foldr (fun kv P => numberless kv.2 ∧ P) True l →
  foldr (fun kv n => S (need kv.2) + n) 0 l ≤ fuel →
  json_members fuel (newline i ++ Join (member j <$> l) (ch "," :: newline i) ++ newline m ++ ch "}" :: rest) = Some ((fun kv => (sanitize kv.1, clean kv.2)) <$> l, rest).
Proof.
  intros Hne Hl. revert fuel. induction Hl as [|[k v] l Hv Hl IH]; intros fuel Hn Hf; [done|]. destruct Hn as [Hn1 Hn]. simpl in Hf. destruct fuel as [|fuel]; [lia|].
  destruct l as [|kv l].
  - cbn [fmap list_fmap Join]. rewrite members_step, Hv by (done || simpl; lia). cbn [mbind option_bind]. rewrite skip_newline. done.
  - change (Join (member j <$> (k, v) :: kv :: l) (ch "," :: newline i)) with (member j (k, v) ++ (ch "," :: newline i) ++ Join (member j <$> kv :: l) (ch "," :: newline i)).
    rewrite <-!app_assoc, members_step, Hv by (done || simpl; lia). cbn [mbind option_bind]. rewrite <-app_comm_cons. rewrite skip_cons by done. change (ch "," =c "}") with false. change (ch "," =c ",") with true. cbn match. rewrite IH; [done|done|done|]. simpl in *. lia.
Qed.
Lemma elems_spec l i j m rest fuel : l ≠ [] → Forall reads l → foldr (fun v P => numberless v ∧ P) True l →
  foldr (fun v n => S (need v) + n) 0 l ≤ fuel →
  json_elems fuel (newline i ++ Join (indented j <$> l) (ch "," :: newline i) ++ newline m ++ ch "]" :: rest) = Some (clean <$> l, rest).
Proof.
  intros Hne Hl. revert fuel. induction Hl as [|v l Hv Hl IH]; intros fuel Hn Hf; [done|]. destruct Hn as [Hn1 Hn]. simpl in Hf. destruct fuel as [|fuel]; [lia|].
  destruct l as [|w l].
  - cbn [fmap list_fmap Join]. rewrite json_elems_S, value_newline, Hv by (done || simpl; lia). cbn [mbind option_bind]. rewrite skip_newline. done.
  - change (Join (indented j <$> v :: w :: l) (ch "," :: newline i)) with (indented j v ++ (ch "," :: newline i) ++ Join (indented j <$> w :: l) (ch "," :: newline i)).
    rewrite <-!app_assoc, json_elems_S, value_newline, Hv by (done || simpl; lia). cbn [mbind option_bind]. rewrite <-app_comm_cons. rewrite skip_cons by done. change (ch "," =c "]") with false. change (ch "," =c ",") with true. cbn match. rewrite IH; [done|done|done|]. simpl in *. lia.
Qed.
(** What follows the opening bracket of a block that is not empty. *)
Lemma skip_newline_head i s c t : skip s = c :: t → skip (newline i ++ s) = c :: t.
Proof. intros <-. apply skip_newline. Qed.
Lemma indented_head j v : numberless v → ∃ c t, indented j v = c :: t ∧ json_space c = false ∧ (c =c "]") = false.
Proof. destruct v as [s|n|[]| |l|l]; intros H; [by do 2 eexists|done|by do 2 eexists|by do 2 eexists|by do 2 eexists| |]; simpl; unfold block; case_match; by do 2 eexists. Qed.

Lemma reads_all v : reads v.
Proof.
  induction v as [s|n|b| |l Hl|l Hl] using json_nested_ind; intros ind rest fuel Hn Hf; destruct fuel as [|fuel]; try (simpl in Hf; lia).
  - cbn [indented json_value]. unfold quoted. rewrite <-app_comm_cons, skip_cons by done. change (ch "034" =c "034") with true. cbn match. by rewrite quoted_spec.
  - destruct Hn.
  - by destruct b.
  - done.
  - cbn [indented]. destruct l as [|v l]; [done|]. unfold block. set (ls := indented (S ind) <$> v :: l). assert (Hls : ∃ a b, ls = a :: b) by (by do 2 eexists). destruct Hls as (a&b&Els). rewrite Els, <-Els. clear a b Els.
    cbn [json_value]. rewrite <-app_comm_cons, <-!app_assoc. cbn [app]. set (x := newline (S ind) ++ _). change (skip (ch "[" :: x)) with (ch "[" :: x). cbn match.
    change (ch "[" =c "034") with false. change (ch "[" =c "[") with true. cbn match.
    pose proof Hn as [Hv _]. destruct (indented_head (S ind) v Hv) as (c&t&Et&Hsp&Hc).
    assert (Hx : ∃ t', skip x = c :: t').
    { unfold x, ls. rewrite skip_newline. destruct l as [|w l]; cbn [fmap list_fmap Join]; rewrite Et; unfold skip; simpl; rewrite Hsp; eauto. }
    destruct Hx as (t'&Ex). rewrite Ex, Hc. unfold x, ls. rewrite elems_spec; [done|done|done|done|simpl in *; lia].
  - cbn [indented]. destruct l as [|[k v] l]; [done|]. fold (member (S ind)). change (fun kv => quoted kv.1 ++ ": " ++ indented (S ind) kv.2) with (member (S ind)).
    unfold block. set (ls := member (S ind) <$> (k, v) :: l). assert (Hls : ∃ a b, ls = a :: b) by (by do 2 eexists). destruct Hls as (a&b&Els). rewrite Els, <-Els. clear a b Els.
    cbn [json_value]. rewrite <-app_comm_cons, <-!app_assoc. cbn [app]. set (x := newline (S ind) ++ _). change (skip (ch "{" :: x)) with (ch "{" :: x). cbn match.
    change (ch "{" =c "034") with false. change (ch "{" =c "[") with false. change (ch "{" =c "{") with true. cbn match.
    assert (Hx : ∃ t', skip x = ch "034" :: t').
    { unfold x, ls. rewrite skip_newline. destruct l as [|w l]; eexists; reflexivity. }
    destruct Hx as (t'&Ex). rewrite Ex. change (ch "034" =c "}") with false. cbn match. unfold x, ls. rewrite members_spec; [done|done|done|done|simpl in *; lia].
Qed.

(** The fuel is enough. *)
Lemma Join_length_in l sep : foldr (fun x n => length x + n) 0 l ≤ length (Join l sep).
Proof.
  induction l as [|x l IH]; [done|]. destruct l as [|y l]; [simpl; lia|].
  change (Join (x :: y :: l) sep) with (x ++ sep ++ Join (y :: l) sep). rewrite !length_app. simpl in *. lia.
Qed.
Lemma block_length o c ind l : 2 + foldr (fun x n => length x + n) 0 l ≤ length (block o c ind l).
Proof. unfold block. destruct l as [|x l]; [simpl; lia|]. pose proof (Join_length_in (x :: l) (ch "," :: newline (S ind))). simpl in *. rewrite !length_app. simpl. lia. Qed.
Lemma need_length v ind : numberless v → S (need v) ≤ 2 * length (indented ind v).
Proof.
  revert ind. induction v as [s|n|b| |l Hl|l Hl] using json_nested_ind; intros ind Hn; try done.
  - simpl. rewrite length_app. simpl. lia.
  - destruct b; simpl; lia.
  - simpl. lia.
  - cbn [need indented]. pose proof (block_length "[" "]" ind (indented (S ind) <$> l)) as Hb.
    assert (foldr (fun v n => S (need v) + n) 0 l ≤ 2 * foldr (fun x n => length x + n) 0 (indented (S ind) <$> l)); [|lia].
    clear Hb. induction Hl as [|v l Hv Hl IH]; [done|]. destruct Hn as [Hn1 Hn]. specialize (IH Hn). specialize (Hv (S ind) Hn1). cbn [foldr fmap list_fmap] in *. lia.
  - cbn [need indented]. change (fun kv => quoted kv.1 ++ ": " ++ indented (S ind) kv.2) with (member (S ind)). set (g := member (S ind)). pose proof (block_length "{" "}" ind (g <$> l)) as Hb.
    assert (foldr (fun kv n => S (need kv.2) + n) 0 l ≤ 2 * foldr (fun x n => length x + n) 0 (g <$> l)); [|lia].
    clear Hb. induction Hl as [|[k v] l Hv Hl IH]; [done|]. destruct Hn as [Hn1 Hn]. specialize (IH Hn). specialize (Hv (S ind) Hn1). cbn [foldr fmap list_fmap snd] in *.
    assert (length (indented (S ind) v) ≤ length (g (k, v))); [|lia]. unfold g, member. rewrite !length_app. simpl. lia.
Qed.
End roundtrip.

(** A value without numbers is read back from what is written, with the replacement
    character for what is not UTF-8, whatever follows. *)
Theorem Decode_MarshalIndent v rest : numberless v → Decode (MarshalIndent v ++ rest) = Some (clean v).
Proof.
  intros Hn. unfold Decode, decode_fuel, MarshalIndent. rewrite (reads_all v 0 rest); [done|done|]. pose proof (need_length v 0 Hn). rewrite length_app. lia.
Qed.

(** Values whose strings are UTF-8 are not changed. *)
Fixpoint valid_json (v : json) : Prop :=
  match v with
  | JString s => Valid s = true
  | JArray l => foldr (fun v P => valid_json v ∧ P) True l
  | JObject l => foldr (fun kv P => (Valid kv.1 = true ∧ valid_json kv.2) ∧ P) True l
  | _ => True
  end.
Lemma clean_valid v : valid_json v → clean v = v.
Proof.
  induction v as [s|n|b| |l Hl|l Hl] using json_nested_ind; try done.
  - simpl. intros Hs. by rewrite Valid_sanitize.
  - cbn [clean valid_json]. intros Hv. f_equal. induction Hl as [|v l Hx Hl IH]; [done|]. destruct Hv as [Hv1 Hv]. cbn. by rewrite Hx, IH.
  - cbn [clean valid_json]. intros Hv. f_equal. induction Hl as [|[k v] l Hx Hl IH]; [done|]. destruct Hv as [[Hk Hv1] Hv]. rewrite fmap_cons. cbn [fst snd] in *. by rewrite Hx, IH, (Valid_sanitize k Hk).
Qed.
