(* ===== verification/CliConfig.v ===== *)
(** * CliConfig: the configuration file of the client

    [src/cliconfig/config.go]: credentials of registries and clouds, how they are written
    as JSON and read back, and the old formats; of [src/api/client], the commands that
    change them ([configureCloud] of [config.go], [configureAuth] of [login.go], [logout.go]),
    the choice of credentials when a command starts ([cli.go]) and of those for a
    registry ([resolveAuthConfig] of [utils.go]).

    The files are read as texts, with the replacement character for bytes that are not
    UTF-8, in both directions; the terminal is the list of the chunks that a read
    returns, a line each if somebody types. *)

From S2P Require Import Prelude Json Utf8 JsonEncode.
Import Strings Json JsonEncode.

(** ** Base 64 *)

Module Base64.
Local Open Scope N_scope.

Definition alphabet (last : gostring) : gostring := "ABCDEFGHIJKLMNOPQRSTUVWXYZabcdefghijklmnopqrstuvwxyz0123456789" ++ last.
Definition std : gostring := alphabet "+/".
Definition url : gostring := alphabet "-_".

Section encoding.
  Context (enc : gostring).

Definition digit (n : N) : ascii := nth (N.to_nat n) enc "A"%char.
Fixpoint index (l : gostring) (c : ascii) : option N :=
  match l with [] => None | d :: l => if d =c c then Some 0 else N.succ <$> index l c end.
Definition value (c : ascii) : option N := index enc c.

(** Three bytes are four digits; one or two at the end are padded. *)
Fixpoint EncodeToString (s : gostring) : gostring :=
  match s with
  | [] => []
  | [a] => let a := N_of_ascii a in [digit (a / 4); digit (a mod 4 * 16); ch "="; ch "="]
  | [a; b] => let a := N_of_ascii a in let b := N_of_ascii b in [digit (a / 4); digit (a mod 4 * 16 + b / 16); digit (b mod 16 * 4); ch "="]
  | a :: b :: c :: s =>
      let a := N_of_ascii a in let b := N_of_ascii b in let c := N_of_ascii c in
      digit (a / 4) :: digit (a mod 4 * 16 + b / 16) :: digit (b mod 16 * 4 + c / 64) :: digit (c mod 64) :: EncodeToString s
  end.
(** Digits in fours; padding ends the text. *)
Fixpoint decode_quads (s : gostring) : option gostring :=
  match s with
  | [] => Some []
  | a :: b :: c :: d :: s =>
      a ← value a; b ← value b;
      if (c =c "=") && (d =c "=") && bool_decide (s = []) then Some [ascii_of_N ((a * 4 + b / 16) mod 256)]
      else
        c ← value c;
        if (d =c "=") && bool_decide (s = []) then Some [ascii_of_N ((a * 4 + b / 16) mod 256); ascii_of_N ((b mod 16 * 16 + c / 4) mod 256)]
        else
          d ← value d; rest ← decode_quads s;
          Some (ascii_of_N ((a * 4 + b / 16) mod 256) :: ascii_of_N ((b mod 16 * 16 + c / 4) mod 256) :: ascii_of_N ((c mod 4 * 64 + d) mod 256) :: rest)
  | _ => None
  end.
(** Line ends are skipped. *)
Definition DecodeString (s : gostring) : option gostring := decode_quads (List.filter (fun c => negb ((c =c "010") || (c =c "013"))) s).
End encoding.
Definition DecodedLen (n : nat) : nat := (n / 4 * 3)%nat.
End Base64.

Module CliConfig.

Record AuthConfig := mkAuth {
  Username : gostring; Password : gostring; Auth : gostring; Email : gostring; ServerAddress : gostring;
  IdentityToken : gostring; RegistryToken : gostring
}.
Record CloudConfig := mkCloud { AccessKey : gostring; SecretKey : gostring; Region : gostring }.
Record ConfigFile := mkConfig {
  AuthConfigs : gmap gostring AuthConfig; CloudConfigs : gmap gostring CloudConfig; HTTPHeaders : gmap gostring gostring;
  PsFormat : gostring; ImagesFormat : gostring; VolumesFormat : gostring; DetachKeys : gostring; filename : gostring
}.
Definition no_auth : AuthConfig := mkAuth [] [] [] [] [] [] [].
Definition no_cloud : CloudConfig := mkCloud [] [] [].
Definition NewConfigFile (fn : gostring) : ConfigFile := mkConfig ∅ ∅ ∅ [] [] [] [] fn.
Definition with_auths (m : gmap gostring AuthConfig) (c : ConfigFile) : ConfigFile :=
  mkConfig m (CloudConfigs c) (HTTPHeaders c) (PsFormat c) (ImagesFormat c) (VolumesFormat c) (DetachKeys c) (filename c).
Definition with_clouds (m : gmap gostring CloudConfig) (c : ConfigFile) : ConfigFile :=
  mkConfig (AuthConfigs c) m (HTTPHeaders c) (PsFormat c) (ImagesFormat c) (VolumesFormat c) (DetachKeys c) (filename c).
Definition with_credentials (u p : gostring) (a : AuthConfig) : AuthConfig :=
  mkAuth u p (Auth a) (Email a) (ServerAddress a) (IdentityToken a) (RegistryToken a).
Definition with_auth (x server : gostring) (a : AuthConfig) : AuthConfig :=
  mkAuth (Username a) (Password a) x (Email a) server (IdentityToken a) (RegistryToken a).

Definition defaultIndexserver : gostring := "https://index.docker.io/v1/".
Definition DefaultHyperFormat : gostring := "tcp://*.hyper.sh:443".
Definition DefaultHyperRegion : gostring := "us-west-1".
Definition DefaultHyperEndpoint : gostring := "hyper.sh:443".

(** ** Credentials of a registry *)

Inductive configError := DecodeError | ErrInvalidAuth | ErrEmpty | ErrInvalidFile | ErrType | ErrStat (e : gostring) | ErrOpen (e : gostring) | ErrNoFilename | ErrWrite (e : gostring).

Definition encodeAuth (a : AuthConfig) : gostring := Base64.EncodeToString Base64.std (Username a ++ ":" ++ Password a).
(** The buffer is longer than what is decoded into it; the zeros behind are trimmed from
    the password. *)
Definition decodeAuth (authStr : gostring) : result configError (gostring * gostring) :=
  match Base64.DecodeString Base64.std authStr with
  | None => Err DecodeError
  | Some d =>
      let decoded := d ++ replicate (Base64.DecodedLen (length authStr) - length d) "000"%char in
      match SplitN decoded ":" 2 with
      | [u; p] => Ok (u, Trim p ["000"%char])
      | _ => Err ErrInvalidAuth
      end
  end.

(** ** The file as JSON *)

Definition key_le {A} (x y : gostring * A) : Prop := leb x.1 y.1 = true.
#[global] Instance key_le_dec {A} (x y : gostring * A) : Decision (key_le x y).
Proof. unfold key_le. apply _. Defined.
(** A map is written in the order of its keys; an empty field may be left out. *)
Definition sorted_members {A} (f : A → json) (m : gmap gostring A) : list (gostring * json) := (fun kv => (kv.1, f kv.2)) <$> merge_sort key_le (map_to_list m).
Definition omitempty (k s : gostring) : list (gostring * json) := if s =s [] then [] else [(k, JString s)].
Definition auth_json (a : AuthConfig) : json :=
  JObject (omitempty "username" (Username a) ++ omitempty "password" (Password a) ++ omitempty "auth" (Auth a) ++ omitempty "email" (Email a) ++
    omitempty "serveraddress" (ServerAddress a) ++ omitempty "identitytoken" (IdentityToken a) ++ omitempty "registrytoken" (RegistryToken a)).
Definition cloud_json (c : CloudConfig) : json :=
  JObject [("accesskey", JString (AccessKey c)); ("secretkey", JString (SecretKey c)); ("region", JString (Region c))].
Definition config_json (c : ConfigFile) : json :=
  JObject ([("auths", JObject (sorted_members auth_json (AuthConfigs c))); ("clouds", JObject (sorted_members cloud_json (CloudConfigs c)))] ++
    (if bool_decide (HTTPHeaders c = ∅) then [] else [("HttpHeaders", JObject (sorted_members JString (HTTPHeaders c)))]) ++
    omitempty "psFormat" (PsFormat c) ++ omitempty "imagesFormat" (ImagesFormat c) ++ omitempty "volumesFormat" (VolumesFormat c) ++ omitempty "detachKeys" (DetachKeys c)).

(** Decoding goes on after a value of another type; the error is returned at the end.
    Members of a struct are found by their names in any case, other ones are ignored. *)
Definition into_string (v : json) (old : gostring) : gostring * bool :=
  match v with JString s => (s, false) | JNull => (old, false) | _ => (old, true) end.
Definition into_struct {A} (set : gostring → json → A → A * bool) (v : json) (old : A) : A * bool :=
  match v with
  | JObject l => foldl (fun '(x, e) kv => let '(x, e') := set (ToLower kv.1) kv.2 x in (x, e || e')) (old, false) l
  | JNull => (old, false)
  | _ => (old, true)
  end.
Definition into_map {A} (dec : json → A * bool) (v : json) (old : gmap gostring A) : gmap gostring A * bool :=
  match v with
  | JObject l => foldl (fun '(m, e) kv => let '(x, e') := dec kv.2 in (<[kv.1 := x]> m, e || e')) (old, false) l
  | JNull => (∅, false)
  | _ => (old, true)
  end.
Definition auth_field (k : gostring) (v : json) (a : AuthConfig) : AuthConfig * bool :=
  let '(mkAuth u p x em sa it rt) := a in
  if k =s "username" then let '(s, e) := into_string v u in (mkAuth s p x em sa it rt, e)
  else if k =s "password" then let '(s, e) := into_string v p in (mkAuth u s x em sa it rt, e)
  else if k =s "auth" then let '(s, e) := into_string v x in (mkAuth u p s em sa it rt, e)
  else if k =s "email" then let '(s, e) := into_string v em in (mkAuth u p x s sa it rt, e)
  else if k =s "serveraddress" then let '(s, e) := into_string v sa in (mkAuth u p x em s it rt, e)
  else if k =s "identitytoken" then let '(s, e) := into_string v it in (mkAuth u p x em sa s rt, e)
  else if k =s "registrytoken" then let '(s, e) := into_string v rt in (mkAuth u p x em sa it s, e)
  else (a, false).
Definition cloud_field (k : gostring) (v : json) (c : CloudConfig) : CloudConfig * bool :=
  let '(mkCloud a s r) := c in
  if k =s "accesskey" then let '(x, e) := into_string v a in (mkCloud x s r, e)
  else if k =s "secretkey" then let '(x, e) := into_string v s in (mkCloud a x r, e)
  else if k =s "region" then let '(x, e) := into_string v r in (mkCloud a s x, e)
  else (c, false).
Definition into_auth (v : json) : AuthConfig * bool := into_struct auth_field v no_auth.
Definition into_cloud (v : json) : CloudConfig * bool := into_struct cloud_field v no_cloud.
Definition config_field (k : gostring) (v : json) (c : ConfigFile) : ConfigFile * bool :=
  let '(mkConfig au cl hh ps im vo dk fn) := c in
  if k =s "auths" then let '(m, e) := into_map into_auth v au in (mkConfig m cl hh ps im vo dk fn, e)
  else if k =s "clouds" then let '(m, e) := into_map into_cloud v cl in (mkConfig au m hh ps im vo dk fn, e)
  else if k =s "httpheaders" then let '(m, e) := into_map (fun v => into_string v []) v hh in (mkConfig au cl m ps im vo dk fn, e)
  else if k =s "psformat" then let '(s, e) := into_string v ps in (mkConfig au cl hh s im vo dk fn, e)
  else if k =s "imagesformat" then let '(s, e) := into_string v im in (mkConfig au cl hh ps s vo dk fn, e)
  else if k =s "volumesformat" then let '(s, e) := into_string v vo in (mkConfig au cl hh ps im s dk fn, e)
  else if k =s "detachkeys" then let '(s, e) := into_string v dk in (mkConfig au cl hh ps im vo s fn, e)
  else (c, false).

(** ** Reading and writing *)

Section load.
  Context (range : gmap gostring AuthConfig → list (gostring * AuthConfig)).

(** The credentials of the entries, and the entries under their addresses, in the order
    in which the map is gone through; the first error ends the loop. *)
Fixpoint load_auths (l : list (gostring * AuthConfig)) (m : gmap gostring AuthConfig) : gmap gostring AuthConfig * option configError :=
  match l with
  | [] => (m, None)
  | (addr, a) :: l =>
      match decodeAuth (Auth a) with
      | Err e => (m, Some e)
      | Ok (u, p) => load_auths l (<[addr := with_auth [] addr (with_credentials u p a)]> m)
      end
  end.
(** [None] is the panic of a file that holds [null]: it makes the pointer nil. *)
Definition LoadFromReader (data : gostring) (c : ConfigFile) : option (ConfigFile * option configError) :=
  match clean <$> Decode data with
  | None => Some (c, Some DecodeError)
  | Some JNull => None
  | Some j =>
      let '(c, e) := into_struct config_field j c in
      if e then Some (c, Some ErrType)
      else let '(m, e) := load_auths (range (AuthConfigs c)) (AuthConfigs c) in Some (with_auths m c, e)
  end.
(** [json.Unmarshal]: nothing may follow the value. *)
Definition Unmarshal (data : gostring) : option json :=
  '(j, rest) ← json_value (decode_fuel data) data; if skip rest =s [] then Some (clean j) else None.
(** The old files: a map of entries, or two lines. *)
Definition legacy_lines (data : gostring) (m : gmap gostring AuthConfig) : result configError (gmap gostring AuthConfig) :=
  match Split data ["010"%char] with
  | l0 :: l1 :: _ =>
      match Split l0 " = " with
      | [_; auth] =>
          let! (u, p) := decodeAuth auth in
          match Split l1 " = " with
          | [_; email] => Ok (<[defaultIndexserver := mkAuth u p [] email defaultIndexserver [] []]> m)
          | _ => Err ErrInvalidFile
          end
      | _ => Err ErrInvalidFile
      end
  | _ => Err ErrEmpty
  end.
Definition LegacyLoadFromReader (data : gostring) (c : ConfigFile) : ConfigFile * option configError :=
  let '(m, e) := match Unmarshal data with Some j => into_map into_auth j (AuthConfigs c) | None => (AuthConfigs c, true) end in
  if e then match legacy_lines data m with Ok m => (with_auths m c, None) | Err e => (with_auths m c, Some e) end
  else let '(m, e) := load_auths (range m) m in (with_auths m c, e).

(** A file: it is missing, it cannot be looked at or opened, or its contents. *)
Inductive file := Missing | StatError (e : gostring) | OpenError (e : gostring) | Contents (data : gostring).
Definition Load (dir : gostring) (new old : file) : option (ConfigFile * option configError) :=
  let c := mkConfig ∅ ∅ ∅ [] [] [] [] (dir ++ "/config.json") in
  match new with
  | OpenError e => Some (c, Some (ErrOpen e))
  | Contents data => LoadFromReader data c
  | StatError e => Some (c, Some (ErrStat e))
  | Missing =>
      match old with
      | Missing | StatError _ => Some (c, None)
      | OpenError e => Some (c, Some (ErrOpen e))
      | Contents data => Some (LegacyLoadFromReader data c)
      end
  end.
End load.

Definition save_auth (a : AuthConfig) : AuthConfig := with_auth (encodeAuth a) [] (with_credentials [] [] a).
Definition SaveToWriter (c : ConfigFile) : gostring := MarshalIndent (config_json (with_auths (save_auth <$> AuthConfigs c) c)).
(** What is written to the file, if it can be made and opened. *)
Definition Save (can_open : option gostring) (c : ConfigFile) : result configError gostring :=
  if filename c =s [] then Err ErrNoFilename
  else match can_open with Some e => Err (ErrWrite e) | None => Ok (SaveToWriter c) end.

(** ** The commands *)

(** [readInput] makes a new buffered reader: it takes chunks up to the end of a line, and
    what follows it in the last chunk is lost.  [None] is the exit at the end of the input. *)
Fixpoint read_line (acc : gostring) (input : list gostring) : option (gostring * list gostring) :=
  match input with
  | [] => if acc =s [] then None else Some (acc, [])
  | c :: input =>
      match Cut ["010"%char] c with
      | Some (l, _) => Some (TrimSuffix (acc ++ l) ["013"%char], input)
      | None => read_line (acc ++ c) input
      end
  end.
Definition readInput (input : list gostring) : option (gostring * list gostring) := read_line [] input.

Definition getDefaultRegion (c : ConfigFile) : gostring :=
  match CloudConfigs c !! DefaultHyperFormat with
  | Some cc => if Region cc =s [] then DefaultHyperRegion else Region cc
  | None => DefaultHyperRegion
  end.
(** A value of a flag, or one that is typed, or the one that is known. *)
Definition ask (flag known : gostring) (input : list gostring) : option (gostring * list gostring) :=
  let flag := TrimSpace flag in
  if flag =s [] then
    '(line, input) ← readInput input;
    let line := TrimSpace line in Some (if line =s [] then known else line, input)
  else Some (flag, input).
Definition legacyHost : gostring := "tcp://" ++ DefaultHyperRegion ++ "." ++ DefaultHyperEndpoint.
(** The entry of a server, or the one of the old format, which is removed. *)
Definition known_cloud (server : gostring) (c : ConfigFile) : CloudConfig * ConfigFile :=
  if server =s [] then (no_cloud, c)
  else
    match CloudConfigs c !! server with
    | Some cc => (cc, c)
    | None =>
        match CloudConfigs c !! legacyHost with
        | Some cc => (cc, with_clouds (delete legacyHost (CloudConfigs c)) c)
        | None => (no_cloud, c)
        end
    end.
Definition configureCloud (server flRegion flAccess flSecret : gostring) (c : ConfigFile) (input : list gostring) : option (CloudConfig * ConfigFile * list gostring) :=
  let '(cc, c) := known_cloud server c in
  let defaultRegion := if Region cc =s [] then getDefaultRegion c else Region cc in
  '(access, input) ← ask flAccess (AccessKey cc) input;
  '(secret, input) ← ask flSecret (SecretKey cc) input;
  '(region, input) ← ask flRegion defaultRegion input;
  let cc := mkCloud access secret region in
  Some (cc, if server =s [] then c else with_clouds (<[server := cc]> (CloudConfigs c)) c, input).
(** [CmdConfig]: what is in the file afterwards. *)
Definition CmdConfig (args : list gostring) (region access secret : gostring) (can_open : option gostring) (c : ConfigFile) (input : list gostring)
    : option (ConfigFile * result configError gostring) :=
  let server := default DefaultHyperFormat (head args) in
  '(_, c, _) ← configureCloud server region access secret c input; Some (c, Save can_open c).
Definition checkCloudConfig (host : gostring) (c : ConfigFile) : bool :=
  bool_decide (is_Some (CloudConfigs c !! host)) || bool_decide (is_Some (CloudConfigs c !! DefaultHyperFormat)).

(** The keys and the region of a command: those of the default entry for a region of the
    default cloud, those of the host, or those of the environment. *)
Definition select_cloud (c : ConfigFile) (host : gostring) (dft : bool) (env_access env_secret : gostring) : gostring * gostring * CloudConfig :=
  match CloudConfigs c !! DefaultHyperFormat, dft with
  | Some cc, true => (AccessKey cc, SecretKey cc, cc)
  | _, _ =>
      match CloudConfigs c !! host with
      | Some cc => (AccessKey cc, SecretKey cc, cc)
      | None => (env_access, env_secret, no_cloud)
      end
  end.
Definition select_region (c : ConfigFile) (flag : gostring) (dft : bool) (cc : CloudConfig) : gostring :=
  let r := if flag =s [] then (if Region cc =s [] then getDefaultRegion c else Region cc) else flag in
  if dft then r else if Region cc =s [] then DefaultHyperRegion else Region cc.

(** [configureAuth]; [echo] is the error of the terminal when the password is asked for. *)
Inductive authError := ErrUsername | ErrPassword | ErrTerminal (e : gostring).
Definition configureAuth (echo : option gostring) (flUser flPassword flEmail server : gostring) (c : ConfigFile) (input : list gostring)
    : option (ConfigFile * result authError AuthConfig * list gostring) :=
  let a := default no_auth (AuthConfigs c !! server) in
  let known := TrimSpace (Username a) in
  '(user, input) ← ask flUser known input;
  if user =s [] then Some (c, Err ErrUsername, input)
  else
    match (if flPassword =s [] then match echo with Some e => inl e | None => inr (readInput input) end else inr (Some (flPassword, input))) with
    | inl e => Some (c, Err (ErrTerminal e), input)
    | inr None => None
    | inr (Some (password, input)) =>
        if password =s [] then Some (c, Err ErrPassword, input)
        else
          '(email, input) ←
            (if negb (user =s known) && (flEmail =s []) then
               '(line, input) ← readInput input; Some (if line =s [] then Email a else line, input)
             else Some (if flEmail =s [] then Email a else flEmail, input));
          let a := mkAuth user password (Auth a) email server (IdentityToken a) (RegistryToken a) in
          Some (with_auths (<[server := a]> (AuthConfigs c)) c, Ok a, input)
    end.
(** [CmdLogout] of a server. *)
Definition logout (server : gostring) (can_open : option gostring) (c : ConfigFile) : ConfigFile * option (result configError gostring) :=
  if bool_decide (is_Some (AuthConfigs c !! server)) then
    let c := with_auths (delete server (AuthConfigs c)) c in (c, Some (Save can_open c))
  else (c, None).

(** [encodeAuthToBase64]: JSON without white space. *)
Definition compact_auth (a : AuthConfig) : gostring :=
  match auth_json a with
  | JObject l => ch "{" :: Join ((fun kv => quoted kv.1 ++ ":" ++ match kv.2 with JString s => quoted s | _ => [] end) <$> l) "," ++ "}"
  | _ => []
  end.
Definition encodeAuthToBase64 (a : AuthConfig) : gostring := Base64.EncodeToString Base64.url (compact_auth a).

(** [resolveAuthConfig]: by the name of the index, or by the host of an old entry, in the
    order in which the map is gone through. *)
Definition convertToHostname (url : gostring) : gostring :=
  let stripped := if HasPrefix url "http://" then TrimPrefix url "http://" else TrimPrefix url "https://" in
  default [] (head (SplitN stripped "/" 2)).
Definition resolveAuthConfig (range : gmap gostring AuthConfig → list (gostring * AuthConfig)) (official : bool) (name elected : gostring) (m : gmap gostring AuthConfig) : AuthConfig :=
  let key := if official then elected else name in
  match m !! key, official with
  | Some a, _ => a
  | None, true => no_auth
  | None, false => default no_auth (snd <$> List.find (fun kv => key =s convertToHostname kv.1) (range m))
  end.
End CliConfig.
