(* ===== verification/CliConfigFacts.v ===== *)
(** * CliConfigFacts: what is saved is what is loaded and used

    Theorems about [CliConfig]: base 64 and the credentials of a registry, the file as a
    whole, and the keys that a command uses after they were configured. *)

From S2P Require Import Prelude Json Utf8 JsonEncode CliConfig.
Import Strings Json Utf8.Utf8 JsonEncode CliConfig.

(** ** Base 64 *)

Section base64.
  Import Base64.
  Local Open Scope N_scope.

Definition alphabet_ok (enc : gostring) : bool :=
  forallb (fun n => let c := digit enc (N.of_nat n) in bool_decide (value enc c = Some (N.of_nat n)) && negb (c =c "=") && negb (c =c "010") && negb (c =c "013")) (seq 0 64).
Lemma std_ok : alphabet_ok std = true.
Proof. vm_compute. done. Qed.

  Context (enc : gostring) (Henc : alphabet_ok enc = true).

Lemma digit_spec n : n < 64 → value enc (digit enc n) = Some n ∧ (digit enc n =c "=") = false ∧ (digit enc n =c "010") = false ∧ (digit enc n =c "013") = false.
Proof using Henc.
  intros Hn. assert (Hin : N.to_nat n ∈ seq 0 64) by (apply elem_of_seq; lia). apply list_elem_of_In in Hin.
  pose proof (proj1 (forallb_forall _ _) Henc _ Hin) as H. cbv beta zeta in H. rewrite N2Nat.id in H.
  repeat (apply andb_true_iff in H as [H ?]). apply bool_decide_eq_true in H. rewrite H. repeat match goal with E : negb _ = true |- _ => apply negb_true_iff in E; rewrite E end. done.
Qed.
Lemma byte_bound a : N_of_ascii a < 256.
Proof. apply N_ascii_bounded. Qed.
Lemma byte_back a n : n = N_of_ascii a → ascii_of_N (n mod 256) = a.
Proof. intros ->. rewrite N.mod_small by apply byte_bound. apply ascii_N_embedding. Qed.

(** The digits of up to three bytes are below 64, and the bytes come back. *)
Ltac bound := match goal with |- _ < 64 => idtac end; repeat match goal with |- context [N_of_ascii ?a] => pose proof (byte_bound a); generalize dependent (N_of_ascii a); intros ? end; zify; Z.to_euclidean_division_equations; lia.

Lemma encode_no_eol s : List.filter (fun c => negb ((c =c "010") || (c =c "013"))) (EncodeToString enc s) = EncodeToString enc s.
Proof using Henc.
  assert (Hd : ∀ n, n < 64 → negb ((digit enc n =c "010") || (digit enc n =c "013")) = true) by (intros n Hn; destruct (digit_spec n Hn) as (_&_&->&->); done).
  induction s as [s IH] using (induction_ltof1 _ (@length ascii)); unfold ltof in IH. destruct s as [|a [|b [|c s]]]; [done|..]; cbn [EncodeToString List.filter].
  1, 2: rewrite !Hd by bound; done.
  rewrite !Hd by bound. rewrite IH by (simpl; lia). done.
Qed.
Theorem Decode_Encode s : DecodeString enc (EncodeToString enc s) = Some s.
Proof using Henc.
  unfold DecodeString. rewrite encode_no_eol. induction s as [s IH] using (induction_ltof1 _ (@length ascii)); unfold ltof in IH.
  assert (Hv : ∀ n, n < 64 → value enc (digit enc n) = Some n) by (intros n Hn; apply (digit_spec n Hn)).
  assert (He : ∀ n, n < 64 → (digit enc n =c "=") = false) by (intros n Hn; apply (digit_spec n Hn)).
  destruct s as [|a [|b [|c s]]]; [done|..]; cbn [EncodeToString decode_quads].
  - rewrite !Hv by bound. cbn [mbind option_bind]. change (ch "=" =c "=") with true. cbn [andb bool_decide decide]. rewrite bool_decide_eq_true_2 by done. do 2 f_equal.
    apply byte_back. pose proof (byte_bound a). generalize dependent (N_of_ascii a). intros x Hx. zify; Z.to_euclidean_division_equations; lia.
  - rewrite !Hv, !He by bound. cbn [mbind option_bind andb]. change (ch "=" =c "=") with true. rewrite bool_decide_eq_true_2 by done. cbn [andb].
    pose proof (byte_bound a). pose proof (byte_bound b). rewrite (byte_back a), (byte_back b); [done|..]; generalize dependent (N_of_ascii a); generalize dependent (N_of_ascii b); intros; zify; Z.to_euclidean_division_equations; lia.
  - rewrite !Hv, !He by bound. cbn [mbind option_bind andb]. rewrite IH by (simpl; lia). cbn [mbind option_bind].
    pose proof (byte_bound a). pose proof (byte_bound b). pose proof (byte_bound c). rewrite (byte_back a), (byte_back b), (byte_back c); [done|..];
      generalize dependent (N_of_ascii a); generalize dependent (N_of_ascii b); generalize dependent (N_of_ascii c); intros; zify; Z.to_euclidean_division_equations; lia.
Qed.
Lemma encode_length s : (length (EncodeToString enc s) mod 4 = 0)%nat ∧ (length s ≤ DecodedLen (length (EncodeToString enc s)))%nat.
Proof using.
  assert (H : ∃ k, length (EncodeToString enc s) = (k * 4)%nat ∧ (length s ≤ k * 3)%nat).
  { induction s as [s IH] using (induction_ltof1 _ (@length ascii)); unfold ltof in IH. destruct s as [|a [|b [|c s]]]; [by exists 0%nat|by exists 1%nat; simpl; split; [|lia]|by exists 1%nat; simpl; split; [|lia]|].
    destruct (IH s) as (k&E&Hk); [simpl; lia|]. exists (S k). cbn [EncodeToString length]. lia. }
  destruct H as (k&->&Hk). unfold DecodedLen. rewrite Nat.div_mul by lia. split; [apply Nat.Div0.mod_mul|done].
Qed.
End base64.

(** ** Credentials of a registry *)

Definition nul : gostring := ["000"%char].
Lemma drop_while_all f s t : Forall (fun c => f c = true) s → drop_while f (s ++ t) = drop_while f t.
Proof. induction 1 as [|c s Hc _ IH]; [done|]. simpl. by rewrite Hc. Qed.
(** Zeros behind a password are trimmed with it. *)
Lemma Trim_zeros p n : Trim (p ++ replicate n "000"%char) nul = Trim p nul.
Proof.
  unfold Trim, TrimFunc, TrimLeftFunc, TrimRightFunc. set (f := fun c => bool_decide (c ∈ nul)).
  assert (Hz : Forall (fun c => f c = true) (replicate n "000"%char)) by (apply Forall_replicate; reflexivity).
  assert (H : ∀ q, rev (drop_while f (rev (q ++ replicate n "000"%char))) = rev (drop_while f (rev q))).
  { intros q. rewrite rev_app_distr. f_equal. apply drop_while_all. by apply Forall_rev. }
  destruct (drop_while_suffix f p) as (a&E&Ha). destruct (drop_while f p) as [|c t] eqn:Ed.
  - rewrite app_nil_r in E. subst a. rewrite drop_while_all by done. rewrite <-(app_nil_r (replicate n "000"%char)), drop_while_all by done. done.
  - rewrite E, <-app_assoc, drop_while_all by done. pose proof (drop_while_head f p c t Ed) as Hc. rewrite <-app_comm_cons. cbn [drop_while]. rewrite Hc, app_comm_cons. apply H.
Qed.
Lemma decode_encode_auth a : ":"%char ∉ Username a → decodeAuth (encodeAuth a) = Ok (Username a, Trim (Password a) nul).
Proof.
  intros Hu. unfold decodeAuth, encodeAuth. rewrite (Decode_Encode _ std_ok). set (z := replicate _ _).
  assert (E : (Username a ++ ":" ++ Password a) ++ z = Username a ++ ch ":" :: (Password a ++ z)) by by rewrite <-app_assoc. rewrite E, SplitN_2_char, Cut_char_app by done. unfold z. by rewrite Trim_zeros.
Qed.
(** A name with a colon is cut there. *)
Example colon_moves : decodeAuth (encodeAuth (mkAuth "a:b" "c" [] [] [] [] [])) = Ok ("a"%go, "b:c"%go).
Proof. vm_compute. done. Qed.
(** An entry without credentials, with a token only, makes the file unreadable. *)
Example token_entry_unreadable : LoadFromReader map_to_list
  (MarshalIndent (JObject [("auths", JObject [("r", JObject [("identitytoken", JString "t")])])])) (NewConfigFile []) =
  Some (with_auths {["r" := mkAuth [] [] [] [] [] "t" []]} (NewConfigFile []), Some ErrInvalidAuth).
Proof. vm_compute. done. Qed.

(** ** The file *)

Section file.
  Context (range : gmap gostring AuthConfig → list (gostring * AuthConfig)) (Hrange : ∀ m, range m ≡ₚ map_to_list m).
  Implicit Types (c : ConfigFile) (a : AuthConfig).

Lemma auth_roundtrip a : into_auth (auth_json a) = (a, false).
Proof. destruct a as [[|? ?] [|? ?] [|? ?] [|? ?] [|? ?] [|? ?] [|? ?]]; reflexivity. Qed.
Lemma cloud_roundtrip cc : into_cloud (cloud_json cc) = (cc, false).
Proof. by destruct cc. Qed.
Lemma into_map_list {A} (dec : json → A * bool) (enc : A → json) l m : (∀ x, dec (enc x) = (x, false)) →
  foldl (fun '(m, e) kv => let '(x, e') := dec kv.2 in (<[kv.1 := x]> m, e || e')) (m, false) ((fun kv => (kv.1, enc kv.2)) <$> l) =
  (foldl (fun m kv => <[kv.1 := kv.2]> m) m l : gmap gostring A, false).
Proof. intros Hd. revert m. induction l as [|[k x] l IH]; intros m; [done|]. simpl. rewrite Hd. apply IH. Qed.
Lemma insert_list {A} (l : list (gostring * A)) (m : gmap gostring A) : NoDup l.*1 → foldl (fun m kv => <[kv.1 := kv.2]> m) m l = list_to_map l ∪ m.
Proof.
  revert m. induction l as [|[k x] l IH]; intros m Hnd; [symmetry; apply (left_id_L ∅ (∪))|]. apply NoDup_cons in Hnd as [Hk Hnd]. cbn [foldl fst snd]. rewrite IH by done.
  rewrite list_to_map_cons, <-insert_union_l. symmetry. apply insert_union_r. by apply not_elem_of_list_to_map.
Qed.
Lemma map_roundtrip {A} (dec : json → A * bool) (enc : A → json) (m : gmap gostring A) : (∀ x, dec (enc x) = (x, false)) →
  into_map dec (JObject (sorted_members enc m)) ∅ = (m, false).
Proof.
  intros Hd. unfold into_map, sorted_members. rewrite into_map_list by done. f_equal. set (l := merge_sort key_le (map_to_list m)).
  assert (Hp : l ≡ₚ map_to_list m) by apply merge_sort_Permutation. assert (Hnd : NoDup l.*1) by (rewrite Hp; apply NoDup_fst_map_to_list).
  rewrite insert_list, (right_id_L ∅ (∪)) by done. rewrite (list_to_map_proper _ _ Hnd Hp). apply list_to_map_to_list.
Qed.

Lemma foldl_omitempty {A} (F : A * bool → gostring * json → A * bool) k s st st' : (s = [] → st' = st) → (s ≠ [] → F st (k, JString s) = st') → foldl F st (omitempty k s) = st'.
Proof. intros H0 H1. unfold omitempty. destruct s as [|x s]; [by rewrite H0|]. simpl. by apply H1. Qed.
Lemma config_roundtrip c : into_struct config_field (config_json c) (NewConfigFile (filename c)) = (c, false).
Proof.
  destruct c as [au cl hh ps im vo dk fn]. unfold into_struct, config_json, NewConfigFile. cbn [AuthConfigs CloudConfigs HTTPHeaders PsFormat ImagesFormat VolumesFormat DetachKeys filename]. set (F := fun '(x, e) kv => _).
  rewrite foldl_app. assert (E1 : foldl F (mkConfig ∅ ∅ ∅ [] [] [] [] fn, false) [("auths", JObject (sorted_members auth_json au)); ("clouds", JObject (sorted_members cloud_json cl))] = (mkConfig au cl ∅ [] [] [] [] fn, false)).
  { cbn [foldl]. unfold F at 2. cbn [fst snd]. change (ToLower "auths") with ("auths" : gostring). unfold config_field at 1. change ("auths" =s "auths") with true. cbn match.
    rewrite (map_roundtrip into_auth auth_json au auth_roundtrip). unfold F. cbn [fst snd orb]. change (ToLower "clouds") with ("clouds" : gostring). unfold config_field.
    change ("clouds" =s "auths") with false. change ("clouds" =s "clouds") with true. cbn match. by rewrite (map_roundtrip into_cloud cloud_json cl cloud_roundtrip). }
  rewrite E1. clear E1. rewrite foldl_app. assert (E2 : foldl F (mkConfig au cl ∅ [] [] [] [] fn, false) (if bool_decide (hh = ∅) then [] else [("HttpHeaders", JObject (sorted_members JString hh))]) = (mkConfig au cl hh [] [] [] [] fn, false)).
  { destruct (bool_decide_reflect (hh = ∅)) as [->|Hne]; [done|]. cbn [foldl]. unfold F. cbn [fst snd]. change (ToLower "HttpHeaders") with ("httpheaders" : gostring). unfold config_field.
    change ("httpheaders" =s "auths") with false. change ("httpheaders" =s "clouds") with false. change ("httpheaders" =s "httpheaders") with true. cbn match. by rewrite (map_roundtrip _ JString hh). }
  rewrite E2. clear E2. rewrite foldl_app, (foldl_omitempty F "psFormat" ps _ (mkConfig au cl hh ps [] [] [] fn, false)) by (by (intros -> || intros _)).
  rewrite foldl_app, (foldl_omitempty F "imagesFormat" im _ (mkConfig au cl hh ps im [] [] fn, false)) by (by (intros -> || intros _)).
  rewrite foldl_app, (foldl_omitempty F "volumesFormat" vo _ (mkConfig au cl hh ps im vo [] fn, false)) by (by (intros -> || intros _)).
  by rewrite (foldl_omitempty F "detachKeys" dk _ (mkConfig au cl hh ps im vo dk fn, false)) by (by (intros -> || intros _)).
Qed.

(** What the file can hold: names without a colon, passwords without zeros around them,
    every entry under its address, and text in UTF-8 everywhere but in names and passwords,
    which are in base 64. *)
Definition auth_ok (addr : gostring) a : Prop :=
  (":"%char ∉ Username a ∧ Trim (Password a) nul = Password a ∧ Auth a = [] ∧ ServerAddress a = addr) ∧
  Valid addr = true ∧ Valid (Email a) = true ∧ Valid (IdentityToken a) = true ∧ Valid (RegistryToken a) = true.
Definition cloud_ok (host : gostring) (cc : CloudConfig) : Prop :=
  Valid host = true ∧ Valid (AccessKey cc) = true ∧ Valid (SecretKey cc) = true ∧ Valid (Region cc) = true.
Definition header_ok (k v : gostring) : Prop := Valid k = true ∧ Valid v = true.
Record savable c : Prop := {
  sv_auths : map_Forall auth_ok (AuthConfigs c);
  sv_clouds : map_Forall cloud_ok (CloudConfigs c);
  sv_headers : map_Forall header_ok (HTTPHeaders c);
  sv_formats : Forall (fun s => Valid s = true) [PsFormat c; ImagesFormat c; VolumesFormat c; DetachKeys c]
}.

Lemma load_save_auth addr a : auth_ok addr a → ∃ u p, decodeAuth (Auth (save_auth a)) = Ok (u, p) ∧ with_auth [] addr (with_credentials u p (save_auth a)) = a.
Proof.
  intros ((Hu&Hp&Ha&Hs)&_). exists (Username a), (Password a). unfold save_auth. cbn [Auth with_auth]. rewrite decode_encode_auth, Hp by done. split; [done|]. destruct a. simpl in *. by subst.
Qed.
Lemma load_auths_spec (l : list (gostring * AuthConfig)) (m au : gmap gostring AuthConfig) : (∀ addr a', (addr, a') ∈ l → ∃ a, au !! addr = Some a ∧ auth_ok addr a ∧ a' = save_auth a) →
  ∃ m', load_auths l m = (m', None) ∧ ∀ k, m' !! k = if decide (k ∈ l.*1) then au !! k else m !! k.
Proof.
  revert m. induction l as [|[addr a'] l IH]; intros m Hl; [by exists m|]. cbn [load_auths].
  destruct (Hl addr a') as (a&Ea&Hok&->); [by left|]. destruct (load_save_auth addr a Hok) as (u&p&->&->).
  destruct (IH (<[addr := a]> m)) as (m'&->&Hm'); [intros ???; apply Hl; by right|]. exists m'. split; [done|]. intros k. rewrite Hm'. cbn [fmap list_fmap fst].
  destruct (decide (k ∈ l.*1)) as [Hk|Hk]; destruct (decide (k ∈ addr :: l.*1)) as [Hk'|Hk']; try done.
  - exfalso. apply Hk'. by right.
  - apply elem_of_cons in Hk' as [->|?]; [|done]. by rewrite lookup_insert_eq.
  - rewrite lookup_insert_ne; [done|]. intros ->. apply Hk'. by left.
Qed.
Lemma load_save_auths (m : gmap gostring AuthConfig) : map_Forall auth_ok m → load_auths (range (save_auth <$> m)) (save_auth <$> m) = (m, None).
Proof using Hrange.
  intros Hok. destruct (load_auths_spec (range (save_auth <$> m)) (save_auth <$> m) m) as (m'&->&Hm').
  - intros addr a' Hin. rewrite Hrange in Hin. apply elem_of_map_to_list in Hin. rewrite lookup_fmap in Hin. destruct (m !! addr) as [a|] eqn:Ea; [|done]. injection Hin as <-. eauto.
  - f_equal. apply map_eq. intros k. rewrite Hm'. case_decide as Hk; [done|]. rewrite lookup_fmap. destruct (m !! k) as [a|] eqn:Ea; [|done]. destruct Hk.
    rewrite Hrange. apply list_elem_of_fmap. exists (k, save_auth a). split; [done|]. apply elem_of_map_to_list. by rewrite lookup_fmap, Ea.
Qed.
(** Encoded values have no numbers. *)
Lemma numberless_object l : Forall (fun kv => numberless kv.2) l → numberless (JObject l).
Proof. induction 1 as [|kv l Hkv Hl IH]; [done|]. simpl. auto. Qed.
Lemma omitempty_numberless k s : Forall (fun kv => numberless kv.2) (omitempty k s).
Proof. unfold omitempty. destruct s; simpl; [constructor|by repeat constructor]. Qed.
Lemma sorted_numberless {A} (f : A → json) (m : gmap gostring A) : (∀ x, numberless (f x)) → numberless (JObject (sorted_members f m)).
Proof. intros Hf. apply numberless_object. unfold sorted_members. rewrite Forall_fmap. apply Forall_forall. intros [k x] _. apply Hf. Qed.
Lemma auth_numberless a : numberless (auth_json a).
Proof. apply numberless_object. rewrite !Forall_app. split_and!; apply omitempty_numberless. Qed.
Lemma config_numberless c : numberless (config_json c).
Proof.
  apply numberless_object. rewrite !Forall_app. split_and!; try apply omitempty_numberless.
  - repeat constructor; apply sorted_numberless; [apply auth_numberless|done].
  - destruct (bool_decide _); repeat constructor. by apply sorted_numberless.
Qed.
(** Encoded values of a configuration that can be saved are UTF-8. *)
Lemma valid_object l : Forall (fun kv => Valid kv.1 = true ∧ valid_json kv.2) l → valid_json (JObject l).
Proof. induction 1 as [|kv l Hkv Hl IH]; [done|]. simpl. auto. Qed.
Lemma omitempty_valid k s : Valid k = true → Valid s = true → Forall (fun kv => Valid kv.1 = true ∧ valid_json kv.2) (omitempty k s).
Proof. intros Hk Hs. unfold omitempty. destruct s; simpl; [constructor|]. by repeat constructor. Qed.
Lemma sorted_valid {A} (f : A → json) (m : gmap gostring A) : map_Forall (fun k x => Valid k = true ∧ valid_json (f x)) m → valid_json (JObject (sorted_members f m)).
Proof.
  intros Hm. apply valid_object. unfold sorted_members. rewrite Forall_fmap. apply Forall_forall. intros [k x] Hx. apply (Hm k x).
  apply elem_of_map_to_list. by rewrite merge_sort_Permutation in Hx.
Qed.
Lemma digit_ascii n : (N_of_ascii (Base64.digit Base64.std n) < 128)%N.
Proof.
  unfold Base64.digit. assert (H : Forall (fun x : ascii => (N_of_ascii x < 128)%N) Base64.std) by (vm_compute; repeat constructor).
  destruct (nth_in_or_default (N.to_nat n) Base64.std "A"%char) as [Hin| ->]; [|done]. rewrite Forall_forall in H. by apply H, list_elem_of_In.
Qed.
Lemma Encode_ascii s : Forall (fun x : ascii => (N_of_ascii x < 128)%N) (Base64.EncodeToString Base64.std s).
Proof.
  induction s as [s IH] using (induction_ltof1 _ (@length ascii)); unfold ltof in IH. destruct s as [|a [|b [|c s]]]; [done| | |];
    cbn [Base64.EncodeToString]; repeat (apply Forall_cons_2; [apply digit_ascii || done|]); try done.
  apply IH. simpl. lia.
Qed.
Lemma save_auth_valid addr a : auth_ok addr a → Valid addr = true ∧ valid_json (auth_json (save_auth a)).
Proof.
  intros (_&Ha&He&Hi&Hr). split; [done|]. apply valid_object. rewrite !Forall_app. split_and!; apply omitempty_valid; try done.
  apply ascii_Valid, Encode_ascii.
Qed.
Lemma saved_valid c : savable c → valid_json (config_json (with_auths (save_auth <$> AuthConfigs c) c)).
Proof.
  intros [Ha Hc Hh Hf]. apply valid_object. rewrite !Forall_app. cbn [AuthConfigs CloudConfigs HTTPHeaders PsFormat ImagesFormat VolumesFormat DetachKeys with_auths].
  rewrite !Forall_cons in Hf. destruct Hf as (?&?&?&?&_). split_and!; try (by apply omitempty_valid).
  - apply Forall_cons_2; [split; [done|]|apply Forall_cons_2; [split; [done|]|done]]; apply sorted_valid.
    + intros addr a' Hl. rewrite lookup_fmap in Hl. apply fmap_Some in Hl as (a&Hl&->). apply save_auth_valid. by apply Ha.
    + intros host cc Hl. destruct (Hc host cc Hl) as (?&?&?&?). split; [done|]. apply valid_object. by repeat (apply Forall_cons_2; [split; done|]).
  - destruct (bool_decide _); [constructor|]. apply Forall_cons_2; [split; [done|]|done]. apply sorted_valid. intros k v Hl. apply (Hh k v Hl).
Qed.
Lemma load_saved c fn : savable c → LoadFromReader range (SaveToWriter c) (NewConfigFile fn) =
  Some (mkConfig (AuthConfigs c) (CloudConfigs c) (HTTPHeaders c) (PsFormat c) (ImagesFormat c) (VolumesFormat c) (DetachKeys c) fn, None).
Proof using Hrange.
  intros Hok. unfold LoadFromReader, SaveToWriter. rewrite <-(app_nil_r (MarshalIndent _)), Decode_MarshalIndent by apply config_numberless. change (clean <$> Some ?v) with (Some (clean v)).
  rewrite !(clean_valid _ (saved_valid c Hok)). set (c' := with_auths _ c).
  change (config_json c') with (config_json (mkConfig (AuthConfigs c') (CloudConfigs c) (HTTPHeaders c) (PsFormat c) (ImagesFormat c) (VolumesFormat c) (DetachKeys c) fn)).
  set (c2 := mkConfig _ _ _ _ _ _ _ fn). assert (Hj : ∃ l, config_json c2 = JObject l) by (by eexists). destruct Hj as (l&El).
  pose proof (config_roundtrip c2) as Hc. change (filename c2) with fn in Hc. rewrite El in *. rewrite Hc. unfold c2. cbn [AuthConfigs]. unfold c'. cbn [AuthConfigs with_auths]. by rewrite load_save_auths by apply Hok.
Qed.
End file.

(** C27: a configuration that the file can hold ([savable]: no colon in the names of users,
    no zero bytes around passwords, every registry entry under its own address and with no
    encoded credentials of its own, text in UTF-8 outside of names and passwords) is the one
    that is read back from the file it is written to, through the JSON of the file and the
    base 64 of the credentials, whatever the order of the maps. *)
Theorem config_file_roundtrip range c dir :
  (∀ m, range m ≡ₚ map_to_list m) → savable c → filename c = dir ++ "/config.json" →
  ∃ data, Save None c = Ok data ∧ Load range dir (Contents data) Missing = Some (c, None).
Proof.
  intros Hr Hok Hfn. exists (SaveToWriter c). unfold Save, Load. rewrite Hfn, streqb_ne by (by destruct dir). split; [done|]. cbv zeta.
  change (mkConfig ∅ ∅ ∅ [] [] [] [] (dir ++ "/config.json")) with (NewConfigFile (dir ++ "/config.json")). rewrite load_saved, <-Hfn by done. by destruct c.
Qed.
(** A byte of a key that is not UTF-8 comes back as the replacement character. *)
Example bytes_replaced :
  (fun r => (fun cc => AccessKey cc) <$> CloudConfigs r.1 !! ("h" : gostring)) <$>
    LoadFromReader map_to_list (SaveToWriter (with_clouds {[("h" : gostring) := mkCloud ["255"%char] [] []]} (NewConfigFile "f"))) (NewConfigFile "f") =
  Some (Some (utf8 0xFFFD)).
Proof. vm_compute. done. Qed.
Definition demo_config : ConfigFile :=
  mkConfig {[defaultIndexserver := mkAuth "joe" "p:w" [] "joe@x.io" defaultIndexserver [] []]} {[DefaultHyperFormat := mkCloud "AK" "SK<&>" "eu-central-1"]} ∅ "{{.ID}}" [] [] [] "/home/joe/.hyper/config.json".
Lemma demo_savable access secret region :
  Valid access = true → Valid secret = true → Valid region = true →
  savable (with_clouds {[DefaultHyperFormat := mkCloud access secret region]} demo_config).
Proof.
  intros. split; [apply map_Forall_singleton|apply map_Forall_singleton|apply map_Forall_empty|repeat (apply Forall_cons_2; [reflexivity|]); constructor].
  - split_and!; [vm_decide|reflexivity..].
  - by split_and!.
Qed.
Example config_file_roundtrip_witness : ∃ data, Save None demo_config = Ok data ∧ Load map_to_list "/home/joe/.hyper" (Contents data) Missing = Some (demo_config, None).
Proof.
  apply (config_file_roundtrip map_to_list demo_config "/home/joe/.hyper"); [done|by apply (demo_savable "AK" "SK<&>" "eu-central-1")|reflexivity].
Defined.

(** ** The keys of a command *)

Lemma known_cloud_auths server c : AuthConfigs (known_cloud server c).2 = AuthConfigs c ∧ filename (known_cloud server c).2 = filename c.
Proof. unfold known_cloud. repeat case_match; done. Qed.
Lemma getDefaultRegion_ne c : getDefaultRegion c ≠ [].
Proof. unfold getDefaultRegion. repeat case_match; try done. by str_bool. Qed.
Lemma ask_spec flag known input x rest : ask flag known input = Some (x, rest) → (TrimSpace flag ≠ [] → x = TrimSpace flag) ∧ (known ≠ [] → x ≠ []).
Proof.
  unfold ask. destruct (bool_decide_reflect (TrimSpace flag = [])) as [E|E]; unfold streqb.
  - rewrite E, bool_decide_eq_true_2 by done. destruct (readInput input) as [[l r]|]; [|done]. cbn [mbind option_bind]. case_bool_decide as El; intros [= <- <-]; done.
  - rewrite bool_decide_eq_false_2 by done. intros [= <- <-]. done.
Qed.
(** What [configureCloud] stores, and what it leaves. *)
Lemma configureCloud_spec server region access secret c input cc c' rest : server ≠ [] →
  configureCloud server region access secret c input = Some (cc, c', rest) →
  CloudConfigs c' !! server = Some cc ∧ AuthConfigs c' = AuthConfigs c ∧ filename c' = filename c ∧ Region cc ≠ [] ∧
  (TrimSpace access ≠ [] → AccessKey cc = TrimSpace access) ∧ (TrimSpace secret ≠ [] → SecretKey cc = TrimSpace secret) ∧ (TrimSpace region ≠ [] → Region cc = TrimSpace region).
Proof.
  intros Hs. unfold configureCloud. destruct (known_cloud server c) as [k c1] eqn:Ek. pose proof (known_cloud_auths server c) as [Ha Hf]. rewrite Ek in Ha, Hf.
  destruct (ask access (AccessKey k) input) as [[a i1]|] eqn:E1; [|done]. cbn [mbind option_bind]. destruct (ask secret (SecretKey k) i1) as [[s i2]|] eqn:E2; [|done]. cbn [mbind option_bind].
  set (dr := if Region k =s [] then _ else _). destruct (ask region dr i2) as [[r i3]|] eqn:E3; [|done]. cbn [mbind option_bind]. rewrite streqb_ne by done. intros [= <- <- <-].
  assert (Hdr : dr ≠ []) by (unfold dr; destruct (Region k); [apply getDefaultRegion_ne|done]).
  apply ask_spec in E1 as [E1 _], E2 as [E2 _], E3 as [E3 E3']. cbn [CloudConfigs with_clouds AuthConfigs filename AccessKey SecretKey Region]. rewrite lookup_insert_eq. auto 10.
Qed.

Definition typed : list gostring := ["AK2" ++ ["010"%char]; " SK2 " ++ ["013"; "010"]%char; ["010"%char]].
Definition new_config : ConfigFile := with_clouds (<[DefaultHyperFormat := mkCloud "AK2" "SK2" "eu-central-1"]> (CloudConfigs demo_config)) demo_config.

(** The environment is looked at last. *)
Example environment_last : (select_cloud demo_config "tcp://eu-central-1.hyper.sh:443" true "E" "F").1 = ("AK", "SK<&>").
Proof. vm_compute. done. Qed.
(** Lines that come in one piece, from a pipe: the first is taken, the others are lost with
    the buffered reader, and the command exits. *)
Example piped_lines_lost : configureCloud DefaultHyperFormat [] [] [] (NewConfigFile []) ["AK" ++ ["010"%char] ++ "SK" ++ ["010"%char] ++ "r" ++ ["010"%char]] = None.
Proof. vm_compute. done. Qed.
(** A file that holds [null] makes the client panic. *)
Example null_panics range : Load range "d" (Contents "null") Missing = None.
Proof. done. Qed.
