(* ===== verification/ClientRun.v ===== *)
(** * ClientRun: creating and running a container from the client

    [createContainer] of [src/api/client/create.go] with the volumes that are made for
    sources of a bind ([initVolumes] of [volume.go]), and [CmdCreate] and [CmdRun]
    of [run.go] after their arguments are parsed.

    A command is a program of calls: to the server, to the file system and to the user.
    What it calls, in which order and with which answers is its trace; the other side may
    answer anything, depending on what it was asked before.  Uploads, which run at the
    same time, are made one after the other. *)

From S2P Require Import Prelude Strconv Prog Opts RunConfig Reference.
Import Strings Strconv.

Import Prog.
Local Open Scope prog_scope.

Module ClientRun.
Import RunConfig.

(** The answer to a question for a path. *)
Inductive stat := StatErr (e : gostring) | DirOrRegular | OtherMode (m : gostring).
Record initResponse := mkInit { Session : gostring; Uploaders : gmap gostring gostring; Cookie : gostring }.
Inductive createAnswer := Created (id : gostring) | ImageNotFound (e : gostring) | CreateFailed (e : gostring).
Inductive inspectAnswer := Inspected (running paused : bool) (code : Z) | ConnectionFailed | InspectFailed (e : gostring).

Inductive call : Type → Type :=
| VolumeCreate : call (result gostring gostring)
| VolumeRemove (v : gostring) : call (option gostring)
| Stat (p : gostring) : call stat
| VolumeInitialize (vols : list (gostring * gostring)) (reload : bool) : call (result gostring initResponse)
| Upload (source url cookie : gostring) : call (option gostring)
| VolumeUploadFinish (session : gostring) : call (option gostring)
| TrustedReference (ref : Reference.Named) : call (result gostring gostring)
| TagTrusted (trusted ref : gostring) : call (option gostring)
| ContainerCreate (c : Config) (h : HostConfig) (n : NetworkingConfig) (name : gostring) : call createAnswer
| PullImage (image : gostring) : call (option gostring)
| CidNew (path : gostring) : call (option gostring)
| CidWrite (id : gostring) : call (option gostring)
| CidRemove : call (option gostring)
| ContainerAttach (id : gostring) : call (option gostring)
| RawTerminal : call (option gostring)
| Hijacked : call (option gostring)
| ContainerStart (id : gostring) : call (option gostring)
| ContainerInspect (id : gostring) : call inspectAnswer
| ContainerWait (id : gostring) : call (result gostring Z)
| ContainerRemove (id : gostring) (volumes links force : bool) : call (option gostring).
Abbreviation cmd := (prog call).

(** ** Volumes from sources *)

(** The text before and after the last colon. *)
Fixpoint last_colon (s : gostring) : option (gostring * gostring) :=
  match s with
  | [] => None
  | c :: s =>
      match last_colon s with
      | Some (a, b) => Some (c :: a, b)
      | None => if c =c ":" then Some ([], s) else None
      end
  end.
Definition remote (s : gostring) : bool := HasPrefix s "git://" || HasPrefix s "http://" || HasPrefix s "https://".
Definition parseProtoAndLocalBind (b : gostring) : option (gostring * gostring) :=
  if (if remote b then Nat.ltb (Count b ":") 2 else if HasPrefix b "/" then Nat.ltb (Count b ":") 1 else true) then None
  else
    match last_colon b with
    | Some (source, []) => None
    | r => r
    end.

Inductive volumeError := ErrStat (e : gostring) | ErrMode (source m : gostring) | ErrSource (source : gostring) | ErrFormat (desc : gostring) | ErrServer (e : gostring).
Definition validateVolumeSource (source : gostring) : cmd (option volumeError) :=
  if remote source then Ret None
  else if HasPrefix source "/" then
    r <- ask (Stat source) ;;
    Ret (match r with StatErr e => Some (ErrStat e) | DirOrRegular => None | OtherMode m => Some (ErrMode source m) end)
  else Ret (Some (ErrSource source)).
(** The volumes with their sources. *)
Fixpoint validateVolumeInitArgs (args : list gostring) (req : list (gostring * gostring)) : cmd (result volumeError (list (gostring * gostring))) :=
  match args with
  | [] => Ret (Ok req)
  | desc :: args =>
      match last_colon desc with
      | None | Some (_, []) => Ret (Err (ErrFormat desc))
      | Some (source, name) =>
          e <- validateVolumeSource source ;;
          match e with Some e => Ret (Err e) | None => validateVolumeInitArgs args (req ++ [(name, source)]) end
      end
  end.
Fixpoint upload_all (req : list (gostring * gostring)) (r : initResponse) (err : option gostring) : cmd (option gostring) :=
  match req with
  | [] => Ret err
  | (name, source) :: req =>
      match Uploaders r !! name with
      | None => upload_all req r err
      | Some url => e <- ask (Upload source url (Cookie r)) ;; upload_all req r (match e with Some e => Some e | None => err end)
      end
  end.
Definition initVolumes (vols : list gostring) (reload : bool) : cmd (option volumeError) :=
  req <- validateVolumeInitArgs vols [] ;;
  match req with
  | Err e => Ret (Some e)
  | Ok req =>
      r <- ask (VolumeInitialize req reload) ;;
      match r with
      | Err e => Ret (Some (ErrServer e))
      | Ok r =>
          if Session r =s [] then Ret None
          else
            err <- upload_all req r None ;;
            fin <- ask (VolumeUploadFinish (Session r)) ;;
            Ret (ErrServer <$> match err with Some e => Some e | None => fin end)
      end
  end.

(** ** [createContainer] *)

Inductive createError := CidExists (e : gostring) | VolumeFailed (e : gostring) | InitFailed (e : volumeError) | InvalidReference (e : Reference.error) | TrustFailed (e : gostring)
  | PullFailed (e : gostring) | TagFailed (e : gostring) | CreateError (e : gostring) | CidWriteFailed (e : gostring).

Definition with_image (i : gostring) (c : Config) : Config :=
  mkConfig (Hostname c) (Domainname c) (ExposedPorts c) (User c) (Tty c) (NetworkDisabled c) (OpenStdin c) (StdinOnce c) (AttachStdin c) (AttachStdout c)
    (AttachStderr c) (Env c) (Cmd c) i (Volumes c) (MacAddress c) (Entrypoint c) (WorkingDir c) (Labels c) (StopSignal c).
Definition with_binds (b : list gostring) (h : HostConfig) : HostConfig :=
  mkHostConfig b (ContainerIDFile h) (OomScoreAdj h) (Privileged h) (PortBindings h) (Links h) (PublishAllPorts h) (DNS h) (DNSSearch h) (DNSOptions h) (ExtraHosts h)
    (VolumesFrom h) (NetworkMode h) (IpcMode h) (PidMode h) (UTSMode h) (CapAdd h) (CapDrop h) (GroupAdd h) (hc_RestartPolicy h) (SecurityOpt h) (ReadonlyRootfs h)
    (LogConfig h) (VolumeDriver h) (ShmSize h) (hc_Resources h) (Tmpfs h).

(** A volume for every bind with a source: the binds, what is to be initialised, and the
    volumes that were made. *)
Fixpoint bind_volumes (binds ready initvols volumeList : list gostring) : cmd (list gostring * list gostring * list gostring * option gostring) :=
  match binds with
  | [] => Ret (ready, initvols, volumeList, None)
  | b :: binds =>
      match parseProtoAndLocalBind b with
      | None => bind_volumes binds (ready ++ [b]) initvols volumeList
      | Some (source, dest) =>
          r <- ask VolumeCreate ;;
          match r with
          | Err e => Ret (ready ++ b :: binds, initvols, volumeList, Some e)
          | Ok v => bind_volumes binds (ready ++ [v ++ ":" ++ dest]) (initvols ++ [source ++ ":" ++ v]) (volumeList ++ [v])
          end
      end
  end.
(** The creation itself: an image that is not there is pulled, and the creation tried once more. *)
Definition create_image (trusted : bool) (config : Config) (host : HostConfig) (net : NetworkingConfig) (name : gostring) : cmd (result createError gostring) :=
  match Reference.ParseNamed (Image config) with
  | Err e => Ret (Err (InvalidReference e))
  | Ok ref =>
      let ref := Reference.WithDefaultTag ref in
      let tagged := match ref with Reference.taggedRef _ _ => trusted | _ => false end in
      t <- (if tagged then r <- ask (TrustedReference ref) ;; Ret (match r with Ok t => Ok (Some t) | Err e => Err e end) else Ret (Ok None)) ;;
      match t with
      | Err e => Ret (Err (TrustFailed e))
      | Ok t =>
          let config := match t with Some t => with_image t config | None => config end in
          r <- ask (ContainerCreate config host net name) ;;
          match r with
          | Created id => Ret (Ok id)
          | CreateFailed e => Ret (Err (CreateError e))
          | ImageNotFound _ =>
              e <- ask (PullImage (Image config)) ;;
              match e with
              | Some e => Ret (Err (PullFailed e))
              | None =>
                  e <- (match t with Some t => ask (TagTrusted t (Reference.String ref)) | None => Ret None end) ;;
                  match e with
                  | Some e => Ret (Err (TagFailed e))
                  | None =>
                      r <- ask (ContainerCreate config host net name) ;;
                      Ret (match r with Created id => Ok id | ImageNotFound e | CreateFailed e => Err (CreateError e) end)
                  end
              end
          end
      end
  end.
(** What is done between the deferred calls: the result, the volumes that are to be
    removed, and whether the ID was written. *)
Definition create_body (trusted : bool) (config : Config) (host : HostConfig) (net : NetworkingConfig) (cidfile name : gostring)
    : cmd (result createError gostring * list gostring * bool) :=
  '(binds, initvols, volumeList, e) <- bind_volumes (Binds host) [] [] [] ;;
  match e with
  | Some e => Ret (Err (VolumeFailed e), volumeList, false)
  | None =>
      e <- (if Nat.ltb 0 (length initvols) then initVolumes initvols false else Ret None) ;;
      match e with
      | Some e => Ret (Err (InitFailed e), volumeList, false)
      | None =>
          r <- create_image trusted config (with_binds binds host) net name ;;
          match r with
          | Err e => Ret (Err e, volumeList, false)
          | Ok id =>
              if cidfile =s [] then Ret (Ok id, [], false)
              else
                e <- ask (CidWrite id) ;;
                Ret (match e with Some e => (Err (CidWriteFailed e), [], false) | None => (Ok id, [], true) end)
          end
      end
  end.
Definition createContainer (trusted : bool) (config : Config) (host : HostConfig) (net : NetworkingConfig) (cidfile name : gostring) : cmd (result createError gostring) :=
  e <- (if cidfile =s [] then Ret None else ask (CidNew cidfile)) ;;
  match e with
  | Some e => Ret (Err (CidExists e))
  | None =>
      '(r, volumeList, written) <- create_body trusted config host net cidfile name ;;
      _ <- for_each (fun v => _ <- ask (VolumeRemove v) ;; Ret tt) volumeList ;;
      _ <- (if negb (cidfile =s []) && negb written then ask CidRemove else Ret None) ;;
      Ret r
  end.

Definition CmdCreate (trusted : bool) (config : Config) (host : HostConfig) (net : NetworkingConfig) (name : gostring) : cmd (result createError (option gostring)) :=
  if Image config =s [] then Ret (Ok None)
  else
    r <- createContainer trusted config host net (ContainerIDFile host) name ;;
    Ret (match r with Ok id => Ok (Some id) | Err e => Err e end).

(** ** [hyper run] *)

Record runFlags := mkFlags { flAutoRemove : bool; flDetach : bool; flName : gostring; flAttachSet : bool }.
Inductive runOutcome := Done | Status (code : Z) | Conflict (what : gostring) | RunErr (e : gostring).

(** [runStartContainerErr]: the exit status of a message of the server, whose prefix is
    removed as a set of characters. *)
Definition runStartContainerErr (e : gostring) : runOutcome :=
  let t := Trim e "Error response from daemon: " in
  if t =s "Container command not found or does not exist." then Status 127
  else if t =s "Container command could not be invoked." then Status 126
  else Status 125.
(** The text of an error of [createContainer], where it is the server's. *)
Definition create_message (e : createError) : gostring :=
  match e with
  | VolumeFailed e | InitFailed (ErrServer e) | TrustFailed e | PullFailed e | TagFailed e | CreateError e => e
  | _ => "local error"
  end.
Definition detached (c : Config) : Config :=
  mkConfig (Hostname c) (Domainname c) (ExposedPorts c) (User c) (Tty c) (NetworkDisabled c) (OpenStdin c) false false false
    false (Env c) (Cmd c) (Image c) (Volumes c) (MacAddress c) (Entrypoint c) (WorkingDir c) (Labels c) (StopSignal c).
Definition attached (c : Config) : bool := AttachStdin c || AttachStdout c || AttachStderr c.

(** [getExitCode]. *)
Definition getExitCode (id : gostring) : cmd (result gostring Z) :=
  r <- ask (ContainerInspect id) ;;
  Ret (match r with Inspected _ _ code => Ok code | ConnectionFailed => Ok (-1)%Z | InspectFailed e => Err e end).
Definition finish (status : Z) : runOutcome := if (status =? 0)%Z then Done else Status status.
(** After the end of the connection: the exit status. *)
Definition run_status (fl : runFlags) (c : Config) (id : gostring) : cmd runOutcome :=
  if flAutoRemove fl then
    r <- ask (ContainerInspect id) ;;
    match r with
    | InspectFailed e => Ret (runStartContainerErr e)
    | ConnectionFailed => Ret (Status 125)
    | Inspected _ _ _ =>
        w <- ask (ContainerWait id) ;;
        match w with
        | Err e => Ret (runStartContainerErr e)
        | Ok _ => r <- getExitCode id ;; Ret (match r with Ok code => finish code | Err e => RunErr e end)
        end
    end
  else if negb (Tty c) then w <- ask (ContainerWait id) ;; Ret (match w with Ok code => finish code | Err e => RunErr e end)
  else r <- getExitCode id ;; Ret (match r with Ok code => finish code | Err e => RunErr e end).
(** From the start of the container on. *)
Definition run_started (fl : runFlags) (c : Config) (id : gostring) : cmd runOutcome :=
  e <- ask (ContainerStart id) ;;
  match e with
  | Some e => Ret (runStartContainerErr e)
  | None =>
      e <- (if attached c then ask Hijacked else Ret None) ;;
      match e with
      | Some e => Ret (RunErr e)
      | None => if negb (AttachStdout c) && negb (AttachStderr c) then Ret Done else run_status fl c id
      end
  end.
(** What is checked once the container exists. *)
Definition late_conflict (fl : runFlags) (c : Config) (host : HostConfig) : option gostring :=
  if flAutoRemove fl then
    let policy := RunOpts.rp_Name (hc_RestartPolicy host) in
    if (policy =s "always") || (policy =s "on-failure") then Some "--restart and --rm"
    else if bool_decide (is_Some (Labels c !! ("sh_hyper_container_protection" : gostring))) then Some "--rm and --protection"
    else None
  else None.
Definition CmdRun (trusted isTerminalIn : bool) (fl : runFlags) (c : Config) (host : HostConfig) (net : NetworkingConfig) : cmd runOutcome :=
  if Image c =s [] then Ret Done
  else if negb (flDetach fl) && Tty c && AttachStdin c && negb isTerminalIn then Ret (RunErr "cannot enable tty mode on non tty input")
  else if flDetach fl && flAttachSet fl then Ret (Conflict "-a and -d")
  else if flDetach fl && flAutoRemove fl then Ret (Conflict "--rm and -d")
  else
    let c := if flDetach fl then detached c else c in
    r <- createContainer trusted c host net (ContainerIDFile host) (flName fl) ;;
    match r with
    | Err e => Ret (runStartContainerErr (create_message e))
    | Ok id =>
        match late_conflict fl c host with
        | Some w => Ret (Conflict w)
        | None =>
            e <- (if attached c then
                    e <- ask (ContainerAttach id) ;;
                    match e with
                    | Some e => Ret (Some e)
                    | None => if AttachStdin c && Tty c then ask RawTerminal else Ret None
                    end
                  else Ret None) ;;
            match e with
            | Some e => Ret (RunErr e)
            | None =>
                o <- run_started fl c id ;;
                _ <- (if flAutoRemove fl then ask (ContainerRemove id true false false) else Ret None) ;;
                Ret o
            end
        end
    end.
End ClientRun.

(** ** Traces *)

Section trace.
  Context {call : Type → Type}.
Lemma run_bind {A B} srv h (p : prog call A) (f : A → prog call B) :
  run srv h (bind p f) = let '(t, a) := run srv h p in let '(t', b) := run srv (h ++ t) (f a) in (t ++ t', b).
Proof.
  revert h. induction p as [a|C c k IH]; intros h; cbn [bind run].
  - rewrite app_nil_r. by destruct (run srv h (f a)).
  - rewrite IH. destruct (run srv (h ++ [mkEvent _ c (srv h C c)]) (k (srv h C c))) as [t a]. rewrite <-app_assoc. cbn [app].
    by destruct (run srv (h ++ mkEvent _ c (srv h C c) :: t) (f a)).
Qed.
Lemma run_ask {B} srv h (c : call B) : run srv h (ask c) = ([mkEvent _ c (srv h B c)], srv h B c).
Proof. done. Qed.
End trace.

(** ** What a program does

    The effects of a trace are those of its events that count; which ones do is stated for
    the calls at hand. *)

Class Observer (call : Type → Type) (effect : Type) := effect_of : event call → option effect.

Section observed.
  Context {call : Type → Type} {effect : Type} `{!Observer call effect}.

Fixpoint effects (t : list (event call)) : list effect :=
  match t with [] => [] | e :: t => match effect_of e with Some x => x :: effects t | None => effects t end end.
Definition quiet {A} (p : prog call A) : Prop := ∀ srv h, effects (run srv h p).1 = [].

Lemma effects_app t t' : effects (t ++ t') = effects t ++ effects t'.
Proof. induction t as [|e t IH]; [done|]. simpl. rewrite IH. by destruct (effect_of e). Qed.
Lemma quiet_ret {A} (a : A) : quiet (Ret a).
Proof. done. Qed.
Lemma quiet_bind {A B} (p : prog call A) (f : A → prog call B) : quiet p → (∀ a, quiet (f a)) → quiet (bind p f).
Proof.
  intros Hp Hf srv h. rewrite run_bind. specialize (Hp srv h). destruct (run srv h p) as [t a]. specialize (Hf a srv (h ++ t)). destruct (run srv (h ++ t) (f a)) as [t' b].
  simpl in *. by rewrite effects_app, Hp, Hf.
Qed.
(** The effects of a program, by its result. *)
Definition does {A} (p : prog call A) (P : A → list effect → Prop) : Prop := ∀ srv h, P (run srv h p).2 (effects (run srv h p).1).
Lemma does_ret {A} (a : A) (P : A → list effect → Prop) : P a [] → does (Ret a) P.
Proof. by intros ???. Qed.
Lemma does_bind {A B} (p : prog call A) (f : A → prog call B) (Q : A → list effect → Prop) (P : B → list effect → Prop) :
  does p Q → (∀ a es, Q a es → does (f a) (fun b es' => P b (es ++ es'))) → does (bind p f) P.
Proof.
  intros Hp Hf srv h. rewrite run_bind. specialize (Hp srv h). destruct (run srv h p) as [t a]. specialize (Hf a _ Hp srv (h ++ t)). destruct (run srv (h ++ t) (f a)) as [t' b].
  simpl in *. by rewrite effects_app.
Qed.
Lemma does_quiet {A} (p : prog call A) (P : A → list effect → Prop) : quiet p → (∀ a, P a []) → does p P.
Proof. intros Hq HP srv h. rewrite (Hq srv h). apply HP. Qed.
(** A quiet program first. *)
Lemma does_quiet_bind {A B} (p : prog call A) (f : A → prog call B) (P : B → list effect → Prop) : quiet p → (∀ a, does (f a) P) → does (bind p f) P.
Proof. intros Hq Hf. apply (does_bind _ _ (fun _ es => es = [])); [by apply does_quiet|]. intros a es ->. apply Hf. Qed.
Lemma does_ask {B} (c : call B) (P : B → list effect → Prop) : (∀ r, P r (effects [mkEvent _ c r])) → does (ask c) P.
Proof. intros HP srv h. apply HP. Qed.

End observed.
Create HintDb quiet.
#[export] Hint Resolve quiet_ret quiet_bind : quiet.
Ltac quiet := repeat first [apply quiet_ret | apply quiet_bind; [|intros ?] | case_match | (intros ??; reflexivity) ]; eauto with quiet.


Module Effects.
Import ClientRun RunConfig.

(** What a command leaves behind or takes away. *)
Inductive effect := Made (v : gostring) | Removed (v : gostring) | Started (id : gostring) | Existed (id : gostring) | Deleted (id : gostring)
  | FileMade | FileWritten (id : gostring) | FileGone.
#[global] Instance run_observer : Observer call effect := fun e =>
  match asked e in call B return B → option effect with
  | VolumeCreate => fun r => match r with Ok v => Some (Made v) | Err _ => None end
  | VolumeRemove v => fun _ => Some (Removed v)
  | ContainerCreate _ _ _ _ => fun r => match r with Created id => Some (Existed id) | _ => None end
  | ContainerStart id => fun _ => Some (Started id)
  | ContainerRemove id _ _ _ => fun _ => Some (Deleted id)
  | CidNew _ => fun r => match r with None => Some FileMade | Some _ => None end
  | CidWrite id => fun r => match r with None => Some (FileWritten id) | Some _ => None end
  | CidRemove => fun _ => Some FileGone
  | _ => fun _ => None
  end (reply e).
Lemma validateVolumeSource_quiet s : quiet (validateVolumeSource s).
Proof. unfold validateVolumeSource. quiet. Qed.
#[export] Hint Resolve validateVolumeSource_quiet : quiet.
Lemma validateVolumeInitArgs_quiet args req : quiet (validateVolumeInitArgs args req).
Proof. revert req. induction args as [|d args IH]; intros req; cbn [validateVolumeInitArgs]; quiet. Qed.
Lemma upload_all_quiet req r e : quiet (upload_all req r e).
Proof. revert e. induction req as [|[n s] req IH]; intros e; cbn [upload_all]; quiet. Qed.
#[export] Hint Resolve validateVolumeInitArgs_quiet upload_all_quiet : quiet.
Lemma initVolumes_quiet vols reload : quiet (initVolumes vols reload).
Proof. unfold initVolumes. quiet. Qed.

Lemma bind_volumes_does binds ready iv vl : does (bind_volumes binds ready iv vl) (fun r es => ∃ news, es = Made <$> news ∧ r.1.2 = vl ++ news).
Proof.
  revert ready iv vl. induction binds as [|b binds IH]; intros ready iv vl; cbn [bind_volumes].
  { apply does_ret. exists []. by rewrite app_nil_r. }
  destruct (parseProtoAndLocalBind b) as [[source dest]|]; [|apply IH]. eapply does_bind; [apply (does_ask _ (fun r es => es = match r with Ok v => [Made v] | Err _ => [] end)); by intros []|].
  intros [v|e] es ->; [|apply does_ret; exists []; simpl; by rewrite app_nil_r]. intros srv h. destruct (IH (ready ++ [v ++ ":" ++ dest]) (iv ++ [source ++ ":" ++ v]) (vl ++ [v]) srv h) as (news&->&->).
  exists (v :: news). by rewrite <-app_assoc.
Qed.
Lemma create_image_does trusted c h n name : does (create_image trusted c h n name) (fun r es => match r with Ok id => es = [Existed id] | Err (CidWriteFailed _ | CidExists _) => False | Err _ => es = [] end).
Proof.
  unfold create_image. destruct (Reference.ParseNamed (Image c)) as [ref|e]; [|by apply does_ret].
  apply does_quiet_bind; [by quiet|]. intros [t|e]; [|by apply does_ret]. set (c' := match t with Some _ => _ | None => _ end). clearbody c'.
  eapply does_bind; [apply (does_ask _ (fun r es => es = match r with Created id => [Existed id] | _ => [] end)); by intros []|]. intros [id|e|e] es ->; [by apply does_ret| |by apply does_ret].
  apply does_quiet_bind; [by quiet|]. intros [e'|]; [by apply does_ret|]. apply does_quiet_bind; [by quiet|]. intros [e'|]; [by apply does_ret|].
  eapply does_bind; [apply (does_ask _ (fun r es => es = match r with Created id => [Existed id] | _ => [] end)); by intros []|]. intros [id|e'|e'] es ->; by apply does_ret.
Qed.
(** The volumes of a creation, that are to be removed unless there is a container, and
    the file of its ID. *)
Definition accounted (cid : gostring) (r : result createError gostring) (news : list gostring) (es : list effect) (vols : list gostring) (written : bool) : Prop :=
  match r with
  | Ok id => es = (Made <$> news) ++ Existed id :: (if cid =s [] then [] else [FileWritten id]) ∧ vols = [] ∧ written = negb (cid =s [])
  | Err (CidExists _) => False
  | Err (CidWriteFailed _) => ∃ id, es = (Made <$> news) ++ [Existed id] ∧ vols = [] ∧ written = false ∧ cid =s [] = false
  | Err _ => es = Made <$> news ∧ vols = news ∧ written = false
  end.
Lemma create_body_does trusted c h n cid name :
  does (create_body trusted c h n cid name) (fun r es => ∃ news, accounted cid r.1.1 news es r.1.2 r.2).
Proof.
  unfold create_body. eapply does_bind; [apply bind_volumes_does|]. intros [[[b iv] vl] e] es (news&->&Hvl). simpl in Hvl. subst vl.
  destruct e as [e|]; [apply does_ret; exists news; simpl; by rewrite app_nil_r|]. apply does_quiet_bind; [case_match; [apply initVolumes_quiet|by quiet]|].
  intros [e|]; [apply does_ret; exists news; simpl; by rewrite app_nil_r|]. eapply does_bind; [apply create_image_does|]. intros [id|e] es Hes.
  - subst es. destruct (cid =s []) eqn:Hc; [apply does_ret; exists news; simpl; by rewrite Hc|].
    eapply does_bind; [apply (does_ask _ (fun r es => es = match r with None => [FileWritten id] | Some _ => [] end)); by intros []|].
    intros [e|] es ->; apply does_ret; exists news; simpl; rewrite Hc; eauto.
  - apply does_ret. exists news. simpl. destruct e; simpl in *; subst; rewrite ?app_nil_r; done.
Qed.
Lemma remove_all_does vols : does (for_each (fun v => _ <- ask (VolumeRemove v) ;; Ret tt) vols) (fun _ es => es = Removed <$> vols).
Proof.
  induction vols as [|v vols IH]; cbn [for_each]; [by apply does_ret|].
  eapply (does_bind _ _ (fun _ es => es = [Removed v])); [by intros srv h|]. intros _ es ->. intros srv h. by rewrite (IH srv h).
Qed.
Definition created (cid : gostring) (r : result createError gostring) (es : list effect) : Prop :=
  let made := if cid =s [] then [] else [FileMade] in
  let gone := if cid =s [] then [] else [FileGone] in
  match r with
  | Err (CidExists _) => es = []
  | Ok id => ∃ news, es = made ++ (Made <$> news) ++ Existed id :: (if cid =s [] then [] else [FileWritten id])
  | Err (CidWriteFailed _) => ∃ news id, es = made ++ (Made <$> news) ++ [Existed id] ++ gone
  | Err _ => ∃ news, es = made ++ (Made <$> news) ++ (Removed <$> news) ++ gone
  end.
Lemma createContainer_does trusted c h n cid name : does (createContainer trusted c h n cid name) (created cid).
Proof.
  unfold createContainer. set (made := if cid =s [] then [] else [FileMade]).
  eapply (does_bind _ _ (fun e es => es = match e with Some _ => [] | None => made end)).
  { destruct (cid =s []); [by apply does_ret|]. apply does_ask. by intros []. }
  intros [e|] es ->; [by apply does_ret|]. eapply does_bind; [apply create_body_does|]. intros [[r vols] written] es (news&Hacc). simpl in Hacc.
  eapply does_bind; [apply remove_all_does|]. intros _ es' ->.
  eapply (does_bind _ _ (fun _ es => es = if negb (cid =s []) && negb written then [FileGone] else [])); [destruct (negb (cid =s []) && negb written); [by apply does_ask|by apply does_ret]|].
  intros _ es' ->. apply does_ret. rewrite app_nil_r. unfold created, made. unfold accounted in Hacc. clear made.
  destruct r as [id|[]]; simpl; try done; repeat match goal with H : ∃ _, _ |- _ => destruct H | H : _ ∧ _ |- _ => destruct H end; subst;
    destruct (cid =s []) eqn:Hc; try done; eauto; repeat eexists; simpl; rewrite ?app_nil_r, <-?app_assoc; done.
Qed.

(** *** Running *)

Lemma run_status_quiet fl c id : quiet (run_status fl c id).
Proof. unfold run_status, getExitCode. quiet. Qed.
#[export] Hint Resolve run_status_quiet : quiet.
Lemma run_started_does fl c id : does (run_started fl c id) (fun _ es => es = [Started id]).
Proof.
  unfold run_started. eapply (does_bind _ _ (fun _ es => es = [Started id])); [by apply does_ask|]. intros e es ->. apply does_quiet; [|done]. quiet.
Qed.
(** An effect that neither starts nor deletes a container. *)
Definition passive (e : effect) : Prop := match e with Started _ | Deleted _ => False | _ => True end.
Lemma created_passive cid r es : created cid r es → Forall passive es.
Proof.
  unfold created. intros H. destruct r as [id|[]]; repeat match goal with H : ∃ _, _ |- _ => destruct H end; subst; repeat case_match; try done;
    rewrite ?Forall_app, ?Forall_cons, ?Forall_fmap; repeat split; try done; by apply Forall_true.
Qed.
Lemma created_existed cid id es : created cid (Ok id) es → Existed id ∈ es.
Proof. intros [news ->]. rewrite !elem_of_app, elem_of_cons. eauto. Qed.
(** The effects of a run: a container that was created is started last, and deleted after
    that exactly when it was asked for. *)
Definition ran (fl : runFlags) (es : list effect) : Prop :=
  Forall passive es
  ∨ ∃ before id, Forall passive before ∧ Existed id ∈ before ∧ es = before ++ Started id :: (if flAutoRemove fl then [Deleted id] else []).
Lemma CmdRun_does trusted term fl c host net : does (CmdRun trusted term fl c host net) (fun _ => ran fl).
Proof.
  assert (Hnil : ran fl []) by (left; done). unfold CmdRun. repeat (case_match; [by apply does_ret|]). set (c' := if flDetach fl then _ else _).
  eapply does_bind; [apply createContainer_does|]. intros r es Hes. pose proof (created_passive _ _ _ Hes) as Hp.
  assert (Hleft : ran fl (es ++ [])) by (rewrite app_nil_r; by left).
  destruct r as [id|e]; [|by apply does_ret]. case_match; [by apply does_ret|]. apply does_quiet_bind; [quiet|].
  intros [e|]; [by apply does_ret|]. eapply does_bind; [apply run_started_does|]. intros o es' ->.
  eapply (does_bind _ _ (fun _ es => es = if flAutoRemove fl then [Deleted id] else [])); [destruct (flAutoRemove fl); [by apply does_ask|by apply does_ret]|].
  intros _ es' ->. apply does_ret. right. exists es, id. split_and!; [done|by eapply created_existed|]. by rewrite app_nil_r.
Qed.

(** C23: [createContainer], whatever the server, the registry and the file system answer:
    the volumes it made for the sources of binds are all removed, in their order, when no
    container comes out of it, and none is removed once there is a container; at most one
    container is created; the file for the ID is removed unless the ID was written, also
    when the write itself fails, and nothing at all is done where that file cannot be
    made. *)
Theorem createContainer_cleans_up trusted c host net cid name srv h :
  let '(trace, r) := run srv h (createContainer trusted c host net cid name) in
  let file := if cid =s [] then [] else [FileMade] in
  let gone := if cid =s [] then [] else [FileGone] in
  match r with
  | Ok id => ∃ vols, effects trace = file ++ (Made <$> vols) ++ Existed id :: (if cid =s [] then [] else [FileWritten id])
  | Err (CidExists _) => effects trace = []
  | Err (CidWriteFailed _) => ∃ vols id, effects trace = file ++ (Made <$> vols) ++ [Existed id] ++ gone
  | Err _ => ∃ vols, effects trace = file ++ (Made <$> vols) ++ (Removed <$> vols) ++ gone
  end.
Proof.
  pose proof (createContainer_does trusted c host net cid name srv h) as H. by destruct (run srv h (createContainer trusted c host net cid name)) as [t r].
Qed.
(** C24: [CmdRun] starts at most one container, which it created before; with [--rm] the
    container it started is deleted after that, last and once, whatever is answered in
    between, and without it no container is deleted. *)
Theorem run_deletes_what_it_starts trusted term fl c host net srv h :
  let es := effects (run srv h (CmdRun trusted term fl c host net)).1 in
  Forall passive es
  ∨ ∃ before id, Forall passive before ∧ Existed id ∈ before ∧ es = before ++ Started id :: (if flAutoRemove fl then [Deleted id] else []).
Proof. exact (CmdRun_does trusted term fl c host net srv h). Qed.
End Effects.

(** ** What is left behind *)

Module Left.
Import RunConfig ClientRun Effects.

Definition config (labels : gmap gostring gostring) : Config :=
  mkConfig [] [] ∅ [] false false false false false true true [] ["true" : gostring] "busybox" ∅ [] [] [] labels [].
Definition host (binds : list gostring) (policy : gostring) : HostConfig :=
  mkHostConfig binds [] 0 false ∅ [] false [] [] [] [] [] [] [] [] [] [] [] [] (RunOpts.mkRestart policy 0) [] false ([], ∅) [] 0
    (mkResources [] 0 0 0 0 0 false 0 0 [] [] 0 0 [] [] [] [] [] [] []) ∅.
(** A server at which all goes well, but for the attachment where that is asked for. *)
Definition answer (attach : option gostring) (created : createAnswer) : server call := fun _ B c =>
  match c in call B return B with
  | VolumeCreate => Ok "v1"
  | VolumeRemove _ => None
  | Stat _ => DirOrRegular
  | VolumeInitialize _ _ => Ok (mkInit [] ∅ [])
  | Upload _ _ _ => None
  | VolumeUploadFinish _ => None
  | TrustedReference _ => Ok "busybox"
  | TagTrusted _ _ => None
  | ContainerCreate _ _ _ _ => created
  | PullImage _ => None
  | CidNew _ => None
  | CidWrite _ => None
  | CidRemove => None
  | ContainerAttach _ => attach
  | RawTerminal => None
  | Hijacked => None
  | ContainerStart _ => None
  | ContainerInspect _ => Inspected false false 3
  | ContainerWait _ => Ok 3%Z
  | ContainerRemove _ _ _ _ => None
  end.
Definition result_of (srv : server call) (fl : runFlags) (c : Config) (h : HostConfig) (net : NetworkingConfig) : list effect * runOutcome :=
  let '(t, r) := run srv [] (CmdRun false true fl c h net) in (effects t, r).
Definition rm : runFlags := mkFlags true false [] false.

(** [--rm] that goes well, and a creation that fails after a volume was made. *)
Example rm_removes net : result_of (answer None (Created "c1")) rm (config ∅) (host [] []) net = ([Existed "c1"; Started "c1"; Deleted "c1"], Status 3).
Proof. vm_compute. reflexivity. Qed.
Example volume_goes net :
  result_of (answer None (CreateFailed "no")) rm (config ∅) (host ["/src:/dst" : gostring] []) net = ([Made "v1"; Removed "v1"], Status 125).
Proof. vm_compute. reflexivity. Qed.
(** [--rm] with [--restart] is refused once the container exists, and the container stays. *)
Example conflict_leaves_container net :
  result_of (answer None (Created "c1")) rm (config ∅) (host [] "always") net = ([Existed "c1"], Conflict "--restart and --rm").
Proof. vm_compute. reflexivity. Qed.
(** So does the container to which the client cannot attach. *)
Example attach_error_leaves_container net :
  result_of (answer (Some "broken pipe") (Created "c1")) rm (config ∅) (host [] []) net = ([Existed "c1"], RunErr "broken pipe").
Proof. vm_compute. reflexivity. Qed.
(** The exit statuses of the messages of the daemon. *)
Example start_statuses :
  runStartContainerErr ("Error response from daemon: Container command not found or does not exist." : gostring) = Status 127
  ∧ runStartContainerErr ("Error response from daemon: Container command could not be invoked." : gostring) = Status 126
  ∧ runStartContainerErr ("Error response from daemon: Conflict" : gostring) = Status 125.
Proof. by vm_compute. Qed.
(** A source with a port and no destination is taken for a source and a destination. *)
Example port_taken_for_destination : parseProtoAndLocalBind "http://host:8080/data" = Some ("http://host" : gostring, "8080/data" : gostring).
Proof. by vm_compute. Qed.
End Left.
