(* ===== verification/ClientCommands.v ===== *)
(** * ClientCommands: commands over several names, and floating IPs

    The commands of [src/api/client] that do one thing to every name they are given
    ([stop.go], [kill.go], [restart.go], [pause.go], [unpause.go], [wait.go], [rm.go],
    [start.go], and [rm] of [volume.go], [snapshot.go] and [fip.go]), [rename.go], the
    floating IPs of [fip.go] and their distribution over the services of [compose up]
    ([compose.go]).

    They are programs of calls ([Prog]), as in [ClientRun]; what is printed is a call too.  The
    lines a user types are an argument: a line is one that was ended. *)

From S2P Require Import Prelude Strconv Prog ClientRun.
Import Strings Strconv Prog.
Local Open Scope prog_scope.

Module Commands.

Inductive op := Stop (name : gostring) (seconds : Z) | Kill (name signal : gostring) | RestartOp (name : gostring) (seconds : Z) | PauseOp (name : gostring) | UnpauseOp (name : gostring)
  | WaitOp (name : gostring) | Remove (name : gostring) (volumes links force : bool) | Start (name : gostring) | VolumeRm (name : gostring) | SnapshotRm (name : gostring)
  | Release (ip : gostring) | AttachFip (ip container : gostring) | DetachFip (container : gostring) | ClearServiceFip (service : gostring) | RenameOp (old new : gostring).
(** A floating IP as the server lists it. *)
Record fip := mkFip { ip : gostring; fip_container : gostring; fip_service : gostring }.
Record inspected := mkInspected { ins_tty : bool; ins_openstdin : bool; ins_code : Z }.
Inductive inspectError := NoConnection | OtherError (e : gostring).
Inductive call : Type → Type :=
| Api (o : op) : call (result gostring gostring)
| FipList (dangling : bool) : call (result gostring (list fip))
| FipAllocate (count : gostring) : call (result gostring (list gostring))
| Inspect (name : gostring) : call (result inspectError inspected)
| Attach (name : gostring) (stdin : bool) : call (option gostring)
| Raw : call (option gostring)
| Hold : call (option gostring)
| ComposeUp (fips : list gostring) : call (option gostring)
| Out (line : gostring) : call unit
| ErrOut (line : gostring) : call unit.
Abbreviation cmd := (prog call).

(** The end of a command: an error, an exit status, or the end of the process by a failed
    read and by an index out of range. *)
Inductive failure := Error (e : gostring) | StatusError (code : Z) | Fatal | Panic.
Abbreviation outcome := (option failure).

(** ** One call per name *)

(** The loop with [errs]. *)
Fixpoint errs_loop (f : gostring → op) (shown : gostring → gostring → gostring) (names : list gostring) (errs : list gostring) : cmd (list gostring) :=
  match names with
  | [] => Ret errs
  | name :: names =>
      r <- ask (Api (f name)) ;;
      match r with
      | Err e => errs_loop f shown names (errs ++ [e])
      | Ok v => _ <- ask (Out (shown name v)) ;; errs_loop f shown names errs
      end
  end.
Definition joined (errs : list gostring) : outcome := match errs with [] => None | _ => Some (Error (Join errs ["010"%char])) end.
Definition on_names (f : gostring → op) (shown : gostring → gostring → gostring) (names : list gostring) : cmd outcome :=
  errs <- errs_loop f shown names [] ;; Ret (joined errs).
Definition CmdStop (seconds : Z) : list gostring → cmd outcome := on_names (fun n => Stop n seconds) (fun n _ => n).
Definition CmdKill (signal : gostring) : list gostring → cmd outcome := on_names (fun n => Kill n signal) (fun n _ => n).
Definition CmdRestart (seconds : Z) : list gostring → cmd outcome := on_names (fun n => RestartOp n seconds) (fun n _ => n).
Definition Pause : list gostring → cmd outcome := on_names PauseOp (fun n _ => n).
Definition Unpause : list gostring → cmd outcome := on_names UnpauseOp (fun n _ => n).
Definition CmdWait : list gostring → cmd outcome := on_names WaitOp (fun _ status => status).
(** [CmdRm], which gives up at a name that is empty; the warnings of the server are left out. *)
Fixpoint rm_loop (v link force : bool) (names errs : list gostring) : cmd outcome :=
  match names with
  | [] => Ret (joined errs)
  | name :: names =>
      if name =s [] then Ret (Some (Error "Container name cannot be empty"))
      else
        let name := Trim name "/" in
        r <- ask (Api (Remove name v link force)) ;;
        match r with
        | Err e => rm_loop v link force names (errs ++ [e])
        | Ok _ => _ <- ask (Out name) ;; rm_loop v link force names errs
        end
  end.
Definition CmdRm (v link force : bool) (names : list gostring) : cmd outcome := rm_loop v link force names [].
(** The loop with [status]. *)
Fixpoint status_loop (f : gostring → op) (print : bool) (names : list gostring) (status : Z) : cmd outcome :=
  match names with
  | [] => Ret (if (status =? 0)%Z then None else Some (StatusError status))
  | name :: names =>
      r <- ask (Api (f name)) ;;
      match r with
      | Err e => _ <- ask (ErrOut e) ;; status_loop f print names 1
      | Ok _ => _ <- (if print then ask (Out name) else Ret tt) ;; status_loop f print names status
      end
  end.
Definition CmdVolumeRm (names : list gostring) : cmd outcome := status_loop VolumeRm true names 0.
Definition CmdSnapshotRm (names : list gostring) : cmd outcome := status_loop SnapshotRm true names 0.
Definition CmdFipRelease (names : list gostring) : cmd outcome := status_loop Release false names 0.

(** ** [hyper start] and [hyper rename] *)

Fixpoint start_loop (ids failed : list gostring) : cmd (list gostring) :=
  match ids with
  | [] => Ret failed
  | id :: ids =>
      r <- ask (Api (Start id)) ;;
      match r with
      | Err e => _ <- ask (ErrOut e) ;; start_loop ids (failed ++ [id])
      | Ok _ => _ <- ask (Out id) ;; start_loop ids failed
      end
  end.
Definition startContainersWithoutAttachments (ids : list gostring) : cmd outcome :=
  failed <- start_loop ids [] ;;
  Ret (match failed with [] => None | _ => Some (Error ("Error: failed to start containers: " ++ Join failed ", ")) end).
Definition exit_code (id : gostring) : cmd (result gostring Z) :=
  r <- ask (Inspect id) ;;
  Ret (match r with Ok i => Ok (ins_code i) | Err NoConnection => Ok (-1)%Z | Err (OtherError e) => Err e end).
Definition inspect_message (e : inspectError) : gostring := match e with NoConnection => "Cannot connect to the Docker daemon" | OtherError e => e end.
(** With [-a] or [-i], from the name of the one container on; there is at least one name. *)
Definition start_attached (openStdin : bool) (id : gostring) : cmd outcome :=
  r <- ask (Inspect id) ;;
  match r with
  | Err e => Ret (Some (Error (inspect_message e)))
  | Ok c =>
      let stdin := openStdin && ins_openstdin c in
      e <- ask (Attach id stdin) ;;
      match e with
      | Some e => Ret (Some (Error e))
      | None =>
          e <- (if stdin && ins_tty c then ask Raw else Ret None) ;;
          match e with
          | Some e => Ret (Some (Error e))
          | None =>
              r <- ask (Api (Start id)) ;;
              match r with
              | Err e => Ret (Some (Error e))
              | Ok _ =>
                  e <- ask Hold ;;
                  match e with
                  | Some e => Ret (Some (Error e))
                  | None =>
                      r <- exit_code id ;;
                      Ret (match r with Err e => Some (Error e) | Ok code => if (code =? 0)%Z then None else Some (StatusError code) end)
                  end
              end
          end
      end
  end.
Definition CmdStart (attach openStdin : bool) (names : list gostring) : cmd outcome :=
  if attach || openStdin then
    match names with
    | [id] => start_attached openStdin id
    | _ => Ret (Some (Error "You cannot start and attach multiple containers at once."))
    end
  else startContainersWithoutAttachments names.
Definition CmdRename (old new : gostring) : cmd outcome :=
  let old := TrimSpace old in let new := TrimSpace new in
  if (old =s []) || (new =s []) then Ret (Some (Error "Error: Neither old nor new names may be empty"))
  else
    r <- ask (Api (RenameOp old new)) ;;
    match r with
    | Err e => _ <- ask (ErrOut e) ;; Ret (Some (Error ("Error: failed to rename container named " ++ old)))
    | Ok _ => Ret None
    end.

(** ** Floating IPs *)

(** [askForConfirmation]: the answer with the lines behind it; the process ends with the input. *)
Fixpoint askForConfirmation (stdin : list gostring) : option (bool * list gostring) :=
  match stdin with
  | [] => None
  | line :: stdin =>
      let r := ToLower (TrimSpace line) in
      if (r =s "y") || (r =s "yes") then Some (true, stdin)
      else if (r =s "n") || (r =s "no") then Some (false, stdin)
      else askForConfirmation stdin
  end.
Definition free (f : fip) : bool := (fip_container f =s []) && (fip_service f =s []).
Definition print_all : list gostring → cmd unit := for_each (fun l => ask (Out l)).
Definition allocate (count : gostring) : cmd outcome :=
  r <- ask (FipAllocate count) ;;
  match r with Err e => Ret (Some (Error e)) | Ok ips => _ <- print_all ips ;; Ret None end.
Definition CmdFipAllocate (pick yes : bool) (count : gostring) (stdin : list gostring) : cmd outcome :=
  picked <- (if pick then r <- ask (FipList true) ;; Ret (match r with Ok fips => find free fips | Err _ => None end) else Ret None) ;;
  match picked with
  | Some f => _ <- ask (Out (ip f)) ;; Ret None
  | None =>
      if yes then allocate count
      else match askForConfirmation stdin with
           | None => Ret (Some Fatal)
           | Some (false, _) => Ret None
           | Some (true, _) => allocate count
           end
  end.
Definition attach_fip (i c : gostring) : cmd outcome :=
  r <- ask (Api (AttachFip i c)) ;; Ret (match r with Ok _ => None | Err e => Some (Error e) end).
Definition CmdFipAttach (force : bool) (i container : gostring) : cmd outcome :=
  if force then
    r <- ask (FipList false) ;;
    match r with
    | Err e => Ret (Some (Error e))
    | Ok fips =>
        _ <- (match find (fun f => ip f =s i) fips with
              | None => Ret tt
              | Some f =>
                  if negb (fip_container f =s []) then _ <- ask (Api (DetachFip (fip_container f))) ;; Ret tt
                  else if negb (fip_service f =s []) then _ <- ask (Api (ClearServiceFip (fip_service f))) ;; Ret tt
                  else Ret tt
              end) ;;
        attach_fip i container
    end
  else attach_fip i container.
Definition CmdFipDetach (container : gostring) : cmd outcome :=
  r <- ask (Api (DetachFip container)) ;;
  match r with Err e => Ret (Some (Error e)) | Ok i => _ <- ask (Out i) ;; Ret None end.
(** [associateNewFip]; the release, which is started on its own, is made before the return. *)
Definition associateNewFip (container : gostring) : cmd (result gostring gostring) :=
  r <- ask (FipAllocate "1") ;;
  match r with
  | Err e => Ret (Err e)
  | Ok [] => Ret (Err "Server failed to create new fip")
  | Ok (i :: _) =>
      r <- ask (Api (AttachFip i container)) ;;
      match r with
      | Err e => _ <- ask (Api (Release i)) ;; Ret (Err e)
      | Ok _ => Ret (Ok i)
      end
  end.
Definition releaseContainerFip (container : gostring) : cmd (option gostring) :=
  r <- ask (Api (DetachFip container)) ;;
  match r with
  | Err e => Ret (Some e)
  | Ok i => r <- ask (Api (Release i)) ;; Ret (match r with Ok _ => None | Err e => Some e end)
  end.

(** ** The addresses of [compose up] *)

Definition ComposeFipAuto : gostring := "auto".
(** The loop that hands the addresses out, in the order in which the services come; an
    address that is not there ends the process. *)
Fixpoint hand_out (newFipNum i : nat) (fips services : list gostring) : option (list gostring) :=
  match services with
  | [] => Some []
  | s :: services =>
      if s =s ComposeFipAuto then
        if Nat.leb newFipNum i then cons [] <$> hand_out newFipNum i fips services
        else match fips !! i with None => None | Some a => cons a <$> hand_out newFipNum (S i) fips services end
      else cons s <$> hand_out newFipNum i fips services
  end.
Definition compose_up (services stdin : list gostring) : cmd outcome :=
  let newFipNum := length (List.filter (fun s => s =s ComposeFipAuto) services) in
  r <- ask (FipList true) ;;
  let fips := match r with Ok l => ip <$> List.filter free l | Err _ => [] end in
  let up fips := match hand_out newFipNum 0 fips services with
                 | None => Ret (Some Panic)
                 | Some addresses => e <- ask (ComposeUp addresses) ;; Ret (Error <$> e)
                 end in
  if Nat.ltb (length fips) newFipNum then
    match askForConfirmation stdin with
    | None => Ret (Some Fatal)
    | Some (false, _) => up fips
    | Some (true, _) =>
        r <- ask (FipAllocate (FormatInt (Z.of_nat newFipNum - Z.of_nat (length fips)))) ;;
        match r with Err e => Ret (Some (Error e)) | Ok new => up (fips ++ new) end
    end
  else up fips.
End Commands.

(** ** What the commands do *)

Module CommandFacts.
Import Commands.

Inductive did := Called (o : op) (r : result gostring gostring) | Printed (l : gostring) | PrintedErr (l : gostring) | Allocated (ips : list gostring) | Upped (fips : list gostring).
#[global] Instance commands_observer : Observer call did := fun e =>
  match asked e in call B return B → option did with
  | Api o => fun r => Some (Called o r)
  | FipAllocate _ => fun r => match r with Ok ips => Some (Allocated ips) | Err _ => None end
  | ComposeUp fips => fun _ => Some (Upped fips)
  | Out l => fun _ => Some (Printed l)
  | ErrOut l => fun _ => Some (PrintedErr l)
  | _ => fun _ => None
  end (reply e).
Definition errors_of {A} (rs : list (A * result gostring gostring)) : list gostring :=
  flat_map (fun '(_, r) => match r with Err e => [e] | Ok _ => [] end) rs.
Definition failed_of {A} (rs : list (A * result gostring gostring)) : list A :=
  flat_map (fun '(a, r) => match r with Err _ => [a] | Ok _ => [] end) rs.
(** One call for every name, and what is printed after it. *)
Definition calls (f : gostring → op) (show : gostring → result gostring gostring → list did) (rs : list (gostring * result gostring gostring)) : list did :=
  flat_map (fun '(n, r) => Called (f n) r :: show n r) rs.

(** A loop that makes one call per name and then goes on with what the answer leaves. *)
Lemma does_each {S A} (f : gostring → op) show (body : list gostring → S → cmd A) (next : S → gostring → result gostring gostring → S) (fin : S → A) :
  (∀ s, does (body [] s) (fun a es => a = fin s ∧ es = [])) →
  (∀ n names s (P : A → list did → Prop), (∀ r, does (body names (next s n r)) (fun a es => P a (Called (f n) r :: show n r ++ es))) → does (body (n :: names) s) P) →
  ∀ names s, does (body names s) (fun a es => ∃ rs, rs.*1 = names ∧ es = calls f show rs ∧ a = fin (foldl (fun s nr => next s nr.1 nr.2) s rs)).
Proof.
  intros Hnil Hcons names. induction names as [|n names IH]; intros s.
  { intros srv h. destruct (Hnil s srv h) as [-> ->]. by exists []. }
  apply Hcons. intros r srv h. destruct (IH (next s n r) srv h) as (rs&<-&->&->). by exists ((n, r) :: rs).
Qed.
(** The call of a round. *)
Lemma does_api {A} o (k : result gostring gostring → cmd A) (P : A → list did → Prop) : (∀ r, does (k r) (fun a es => P a (Called o r :: es))) → does (bind (ask (Api o)) k) P.
Proof. intros H. eapply does_bind; [by apply (does_ask _ (fun r es => es = [Called o r]))|]. intros r es ->. apply H. Qed.
Lemma does_out {A} l (k : unit → cmd A) (P : A → list did → Prop) : does (k tt) (fun a es => P a (Printed l :: es)) → does (bind (ask (Out l)) k) P.
Proof. intros H. eapply does_bind; [by apply (does_ask _ (fun r es => es = [Printed l]))|]. intros [] es ->. apply H. Qed.
Lemma does_err {A} l (k : unit → cmd A) (P : A → list did → Prop) : does (k tt) (fun a es => P a (PrintedErr l :: es)) → does (bind (ask (ErrOut l)) k) P.
Proof. intros H. eapply does_bind; [by apply (does_ask _ (fun r es => es = [PrintedErr l]))|]. intros [] es ->. apply H. Qed.
(** A round of a loop: the call, what is printed, and the loop again. *)
Ltac round := cbn; intros ? ? ? ? HP; apply does_api; intros [v|e]; [specialize (HP (Ok v))|specialize (HP (Err e))]; repeat first [exact HP | apply does_out | apply does_err].

Definition show_ok (shown : gostring → gostring → gostring) (n : gostring) (r : result gostring gostring) : list did := match r with Ok v => [Printed (shown n v)] | Err _ => [] end.
Definition show_both (print : bool) (n : gostring) (r : result gostring gostring) : list did := match r with Ok _ => if print then [Printed n] else [] | Err e => [PrintedErr e] end.
Lemma errs_loop_does f shown names errs :
  does (errs_loop f shown names errs) (fun a es => ∃ rs, rs.*1 = names ∧ es = calls f (show_ok shown) rs ∧ a = errs ++ errors_of rs).
Proof.
  intros srv h. destruct (does_each f (show_ok shown) (errs_loop f shown) (fun errs _ r => match r with Ok _ => errs | Err e => errs ++ [e] end) (fun errs => errs))
    with (names := names) (s := errs) (srv := srv) (h := h) as (rs&Hn&He&Hr); [intros s; by apply does_ret|by round|].
  exists rs. split_and!; [done..|]. rewrite Hr. clear. revert errs. induction rs as [|[n [v|e]] rs IH]; intros errs; simpl; [by rewrite app_nil_r|apply IH|].
  rewrite IH, <-app_assoc. done.
Qed.
Lemma start_loop_does names failed :
  does (start_loop names failed) (fun a es => ∃ rs, rs.*1 = names ∧ es = calls Start (show_both true) rs ∧ a = failed ++ failed_of rs).
Proof.
  intros srv h. destruct (does_each Start (show_both true) start_loop (fun l n r => match r with Ok _ => l | Err e => l ++ [n] end) (fun l => l))
    with (names := names) (s := failed) (srv := srv) (h := h) as (rs&Hn&He&Hr); [intros s; by apply does_ret|by round|].
  exists rs. split_and!; [done..|]. rewrite Hr. clear. revert failed. induction rs as [|[n [v|e]] rs IH]; intros l; simpl; [by rewrite app_nil_r|apply IH|].
  rewrite IH, <-app_assoc. done.
Qed.
Lemma status_loop_does f print names :
  does (status_loop f print names 0) (fun a es => ∃ rs, rs.*1 = names ∧ es = calls f (show_both print) rs ∧ a = match errors_of rs with [] => None | _ => Some (StatusError 1) end).
Proof.
  intros srv h. destruct (does_each f (show_both print) (status_loop f print) (fun st _ r => match r with Ok _ => st | Err e => 1%Z end)
    (fun st => if (st =? 0)%Z then None else Some (StatusError st))) with (names := names) (s := 0%Z) (srv := srv) (h := h) as (rs&Hn&He&Hr); [intros s; by apply does_ret| |].
  { destruct print; [by round|]. by round. }
  exists rs. split_and!; [done..|]. rewrite Hr. clear.
  assert (H1 : foldl (fun st nr => match nr.2 with Ok _ => st | Err _ => 1%Z end) 1%Z rs = 1%Z) by (induction rs as [|[n [v|e]] rs IH]; done).
  induction rs as [|[n [v|e]] rs IH]; simpl in *; [done|auto|]. by rewrite H1.
Qed.

Lemma rm_loop_does v link force names errs : Forall (fun n => n ≠ []) names →
  does (rm_loop v link force names errs) (fun a es => ∃ rs, rs.*1 = names ∧ es = calls (fun n => Remove (Trim n "/") v link force) (show_ok (fun n _ => Trim n "/")) rs ∧ a = joined (errs ++ errors_of rs)).
Proof.
  intros Hn. revert errs. induction Hn as [|n names Hn _ IH]; intros errs; cbn [rm_loop].
  { apply does_ret. exists []. by rewrite app_nil_r. }
  rewrite streqb_ne by done. apply does_api. intros [x|e]; [apply does_out|]; intros srv h.
  - destruct (IH errs srv h) as (rs&Hr&->&->). exists ((n, Ok x) :: rs). by rewrite <-Hr.
  - destruct (IH (errs ++ [e]) srv h) as (rs&Hr&->&->). exists ((n, Err e) :: rs). rewrite <-Hr, <-app_assoc. done.
Qed.

(** A command makes one call for every name, in their order and whatever was answered
    before, prints what belongs to an answer right after it, and ends as its answers say. *)
Definition tries (p : cmd outcome) (names : list gostring) (f : gostring → op) (show : gostring → result gostring gostring → list did)
    (ends : list (gostring * result gostring gostring) → outcome) : Prop :=
  ∀ srv h, let '(trace, r) := run srv h p in ∃ rs, rs.*1 = names ∧ effects trace = flat_map (fun '(n, r) => Called (f n) r :: show n r) rs ∧ r = ends rs.
(** The names, or what was answered, of those that went well. *)
Definition names_ok (n : gostring) (r : result gostring gostring) : list did := match r with Ok _ => [Printed n] | Err _ => [] end.
Definition answers_ok (n : gostring) (r : result gostring gostring) : list did := match r with Ok v => [Printed v] | Err _ => [] end.
Definition both (n : gostring) (r : result gostring gostring) : list did := match r with Ok _ => [Printed n] | Err e => [PrintedErr e] end.
(** The three ways to fail: with all messages, with the names that failed, with a status. *)
Definition all_messages (rs : list (gostring * result gostring gostring)) : outcome :=
  match errors_of rs with [] => None | es => Some (Error (Join es ["010"%char])) end.
Definition failed_names (rs : list (gostring * result gostring gostring)) : outcome :=
  match failed_of rs with [] => None | l => Some (Error ("Error: failed to start containers: " ++ Join l ", ")) end.
Definition status_one (rs : list (gostring * result gostring gostring)) : outcome := match errors_of rs with [] => None | _ => Some (StatusError 1) end.

Lemma does_tries p names f show ends :
  does p (fun a es => ∃ rs, rs.*1 = names ∧ es = calls f show rs ∧ a = ends rs) → tries p names f show ends.
Proof. intros H srv h. specialize (H srv h). destruct (run srv h p) as [t r]. destruct H as (rs&Hn&He&Hr). by exists rs. Qed.
Lemma on_names_tries f shown names : tries (on_names f shown names) names f (show_ok shown) all_messages.
Proof. apply does_tries. unfold on_names. eapply does_bind; [apply errs_loop_does|]. intros a es (rs&Hn&->&->). apply does_ret. exists rs. rewrite app_nil_r. split_and!; [done..|]. unfold all_messages, joined. by destruct (errors_of rs). Qed.
Lemma status_tries f print names : tries (status_loop f print names 0) names f (show_both print) status_one.
Proof. apply does_tries, status_loop_does. Qed.


(** ** Floating IPs *)

(** Of the addresses that [associateNewFip] gets, the first is attached or released. *)
Lemma associateNewFip_does c :
  does (associateNewFip c) (fun r es =>
    match r with
    | Ok i => ∃ rest v, es = [Allocated (i :: rest); Called (AttachFip i c) (Ok v)]
    | Err e => es = [] ∨ es = [Allocated []] ∨ ∃ i rest r', es = [Allocated (i :: rest); Called (AttachFip i c) (Err e); Called (Release i) r']
    end).
Proof.
  unfold associateNewFip. eapply does_bind; [apply (does_ask _ (fun r es => es = match r with Ok ips => [Allocated ips] | Err _ => [] end)); by intros []|].
  intros [[|i rest]|e] es ->; [apply does_ret; auto| |apply does_ret; auto]. apply does_api. intros [v|e].
  - apply does_ret. eauto.
  - apply does_api. intros r. apply does_ret. do 2 right. eauto.
Qed.
(** Nothing is allocated unless the user agrees, by [--yes] or at the prompt. *)
Lemma CmdFipAllocate_consent pick count stdin :
  (∀ rest, askForConfirmation stdin ≠ Some (true, rest)) → does (CmdFipAllocate pick false count stdin) (fun _ es => ∀ ips, Allocated ips ∉ es).
Proof.
  intros Hno. unfold CmdFipAllocate. apply does_quiet_bind; [destruct pick; by quiet|]. intros [f|].
  - apply does_out, does_ret. intros ips. by rewrite list_elem_of_singleton.
  - destruct (askForConfirmation stdin) as [[[] rest]|] eqn:E; [by destruct (Hno rest)|apply does_ret; intros ?; apply not_elem_of_nil..].
Qed.

(** How many of the services ask for an address. *)
Definition autos (services : list gostring) : nat := length (List.filter (fun s => s =s ComposeFipAuto) services).
Lemma hand_out_spec n i fips services :
  n = (i + autos services)%nat → (n <= length fips)%nat →
  ∃ a, hand_out n i fips services = Some a ∧ length a = length services
    ∧ ∀ k s, services !! k = Some s → a !! k = if s =s ComposeFipAuto then fips !! (i + autos (take k services))%nat else Some s.
Proof.
  revert i. induction services as [|s services IH]; intros i Hn Hle; [by exists []|]. unfold autos in *. cbn [hand_out List.filter] in *.
  destruct (s =s ComposeFipAuto) eqn:Hs; cbn [length] in *.
  - destruct (Nat.leb_spec n i); [lia|]. destruct (lookup_lt_is_Some_2 fips i) as [a Ha]; [lia|]. rewrite Ha.
    destruct (IH (S i)) as (l&->&Hl&Hk); [lia..|]. exists (a :: l). split_and!; [done|simpl; lia|]. intros [|k] s' Hs'; simpl in *.
    + injection Hs' as <-. rewrite Hs, Nat.add_0_r. done.
    + rewrite (Hk _ _ Hs'), Hs. simpl. destruct (s' =s ComposeFipAuto); [f_equal; lia|done].
  - destruct (IH i) as (l&->&Hl&Hk); [lia..|]. exists (s :: l). split_and!; [done|simpl; lia|]. intros [|k] s' Hs'; simpl in *.
    + injection Hs' as <-. by rewrite Hs.
    + rewrite (Hk _ _ Hs'), Hs. done.
Qed.
End CommandFacts.

(** ** Where the commands go wrong *)

Module CommandCases.
Import Commands CommandFacts.

(** A server with given free addresses, that gives one more when it is asked. *)
Definition answer (frees : list fip) (bad : gostring) : server call := fun _ B c =>
  match c in call B return B with
  | Api (Remove n _ _ _) => if n =s bad then Err "no such container" else Ok []
  | Api _ => Ok []
  | FipList _ => Ok frees
  | FipAllocate _ => Ok ["9.9.9.9" : gostring]
  | Inspect _ => Ok (mkInspected false false 0)
  | Attach _ _ => None
  | Raw => None
  | Hold => None
  | ComposeUp _ => None
  | Out _ => tt
  | ErrOut _ => tt
  end.
Definition result_of {A} (srv : server call) (p : cmd A) : list did * A := let '(t, r) := run srv [] p in (effects t, r).

(** [compose up] with one free address for two services: with the user's consent both get
    one, and without it the process panics. *)
Example compose_agreed :
  result_of (answer [mkFip "1.1.1.1" [] []; mkFip "2.2.2.2" "c" []] []) (compose_up ["auto" : gostring; [] : gostring; "auto" : gostring] ["maybe" : gostring; " Yes " : gostring])
  = ([Allocated ["9.9.9.9" : gostring]; Upped ["1.1.1.1" : gostring; [] : gostring; "9.9.9.9" : gostring]], None).
Proof. vm_compute. reflexivity. Qed.
Example compose_declined_panics :
  result_of (answer [mkFip "1.1.1.1" [] []] []) (compose_up ["auto" : gostring; "auto" : gostring] ["n" : gostring]) = ([], Some Panic).
Proof. vm_compute. reflexivity. Qed.
(** An empty name makes [rm] forget the errors of the names before it. *)
Example rm_forgets_errors :
  result_of (answer [] "c1") (CmdRm false false false ["c1" : gostring; [] : gostring])
  = ([Called (Remove "c1" false false false) (Err ("no such container" : gostring))], Some (Error "Container name cannot be empty")).
Proof. vm_compute. reflexivity. Qed.
(** A name of slashes is empty once they are cut, and is asked for. *)
Example rm_of_slashes :
  result_of (answer [] "c1") (CmdRm false false false ["//" : gostring]) = ([Called (Remove [] false false false) (Ok []); Printed []], None).
Proof. vm_compute. reflexivity. Qed.
End CommandCases.
