(* ===== verification/HostConfigCheck.v ===== *)
(** * HostConfigCheck: what the daemon makes of a host configuration

    The checks of the daemon before a container is created, started or updated:
    [verifyContainerSettings], [verifyPlatformContainerSettings] and
    [verifyContainerResources] ([src/daemon/daemon.go], [daemon_unix.go]) with the defaults
    of [adaptContainerSettings], the update of resources ([src/daemon/update.go],
    [UpdateContainer] of [src/container/container_unix.go]), the sets of processors
    ([src/pkg/sysinfo/sysinfo.go], [src/pkg/parsers/parsers.go]), and the decoding of
    requests ([src/runconfig/config.go], [config_unix.go], [hostconfig_unix.go]).

    Fields that are pointers are options.  What the kernel supports is an argument. *)

From S2P Require Import Prelude Strconv GoPath Opts Ports RunConfig Builder.
Import Strings Strconv Nat_ RunConfig.

Local Open Scope Z_scope.

(** ** Lists of numbers *)

Module Cpuset.

Inductive listError := InvalidFormat | Endless.
(** A range up to the greatest integer is an endless loop: the counter wraps around. *)
Definition add_range (r : gostring) (acc : gset Z) : result listError (gset Z) :=
  if negb (Contains r "-") then
    match Atoi r with (v, None) => Ok ({[v]} ∪ acc) | _ => Err InvalidFormat end
  else
    match SplitN r "-" 2 with
    | [a; b] =>
        match Atoi a, Atoi b with
        | (min, None), (max, None) =>
            if max <? min then Err InvalidFormat
            else if max =? 2 ^ 63 - 1 then Err Endless
            else Ok (list_to_set (seqZ min (max - min + 1)) ∪ acc)
        | _, _ => Err InvalidFormat
        end
    | _ => Err InvalidFormat
    end.
Definition ParseUintList (val : gostring) : result listError (gset Z) :=
  if val =s [] then Ok ∅
  else foldl (fun acc r => match acc with Ok acc => add_range r acc | Err e => Err e end) (Ok ∅) (Split val ",").
Definition isCpusetListAvailable (provided available : gostring) : result listError bool :=
  let! p := ParseUintList provided in
  let! a := ParseUintList available in
  Ok (bool_decide (p ⊆ a)).
End Cpuset.

(** ** Resources *)

Module Checks.

Record Res := mkRes {
  Memory : Z; MemorySwap : Z; MemorySwappiness : option Z; MemoryReservation : Z; KernelMemory : Z; OomKillDisable : option bool;
  CPUShares : Z; CPUPeriod : Z; CPUQuota : Z; CpusetCpus : gostring; CpusetMems : gostring; BlkioWeight : Z;
  WeightDevices : list Opts.RunOpts.WeightDevice; ReadBps : list Opts.RunOpts.ThrottleDevice; WriteBps : list Opts.RunOpts.ThrottleDevice;
  ReadIOps : list Opts.RunOpts.ThrottleDevice; WriteIOps : list Opts.RunOpts.ThrottleDevice }.
Record SysInfo := mkSys {
  s_MemoryLimit : bool; s_SwapLimit : bool; s_MemoryReservation : bool; s_OomKillDisable : bool; s_MemorySwappiness : bool; s_KernelMemory : bool;
  s_CPUShares : bool; s_CPUCfsPeriod : bool; s_CPUCfsQuota : bool;
  s_BlkioWeight : bool; s_WeightDevice : bool; s_ReadBps : bool; s_WriteBps : bool; s_ReadIOps : bool; s_WriteIOps : bool;
  s_Cpuset : bool; s_Cpus : gostring; s_Mems : gostring; kernel_4 : bool }.
Definition set_memory x0 x1 (r : Res) : Res :=
  mkRes x0 x1 (MemorySwappiness r) (MemoryReservation r) (KernelMemory r) (OomKillDisable r) (CPUShares r) (CPUPeriod r) (CPUQuota r) (CpusetCpus r) (CpusetMems r) (BlkioWeight r) (WeightDevices r) (ReadBps r) (WriteBps r) (ReadIOps r) (WriteIOps r).
Definition set_swap x0 (r : Res) : Res :=
  mkRes (Memory r) x0 (MemorySwappiness r) (MemoryReservation r) (KernelMemory r) (OomKillDisable r) (CPUShares r) (CPUPeriod r) (CPUQuota r) (CpusetCpus r) (CpusetMems r) (BlkioWeight r) (WeightDevices r) (ReadBps r) (WriteBps r) (ReadIOps r) (WriteIOps r).
Definition set_swappiness x0 (r : Res) : Res :=
  mkRes (Memory r) (MemorySwap r) x0 (MemoryReservation r) (KernelMemory r) (OomKillDisable r) (CPUShares r) (CPUPeriod r) (CPUQuota r) (CpusetCpus r) (CpusetMems r) (BlkioWeight r) (WeightDevices r) (ReadBps r) (WriteBps r) (ReadIOps r) (WriteIOps r).
Definition set_reservation x0 (r : Res) : Res :=
  mkRes (Memory r) (MemorySwap r) (MemorySwappiness r) x0 (KernelMemory r) (OomKillDisable r) (CPUShares r) (CPUPeriod r) (CPUQuota r) (CpusetCpus r) (CpusetMems r) (BlkioWeight r) (WeightDevices r) (ReadBps r) (WriteBps r) (ReadIOps r) (WriteIOps r).
Definition set_kernel x0 (r : Res) : Res :=
  mkRes (Memory r) (MemorySwap r) (MemorySwappiness r) (MemoryReservation r) x0 (OomKillDisable r) (CPUShares r) (CPUPeriod r) (CPUQuota r) (CpusetCpus r) (CpusetMems r) (BlkioWeight r) (WeightDevices r) (ReadBps r) (WriteBps r) (ReadIOps r) (WriteIOps r).
Definition set_oom x0 (r : Res) : Res :=
  mkRes (Memory r) (MemorySwap r) (MemorySwappiness r) (MemoryReservation r) (KernelMemory r) x0 (CPUShares r) (CPUPeriod r) (CPUQuota r) (CpusetCpus r) (CpusetMems r) (BlkioWeight r) (WeightDevices r) (ReadBps r) (WriteBps r) (ReadIOps r) (WriteIOps r).
Definition set_shares x0 (r : Res) : Res :=
  mkRes (Memory r) (MemorySwap r) (MemorySwappiness r) (MemoryReservation r) (KernelMemory r) (OomKillDisable r) x0 (CPUPeriod r) (CPUQuota r) (CpusetCpus r) (CpusetMems r) (BlkioWeight r) (WeightDevices r) (ReadBps r) (WriteBps r) (ReadIOps r) (WriteIOps r).
Definition set_period x0 (r : Res) : Res :=
  mkRes (Memory r) (MemorySwap r) (MemorySwappiness r) (MemoryReservation r) (KernelMemory r) (OomKillDisable r) (CPUShares r) x0 (CPUQuota r) (CpusetCpus r) (CpusetMems r) (BlkioWeight r) (WeightDevices r) (ReadBps r) (WriteBps r) (ReadIOps r) (WriteIOps r).
Definition set_quota x0 (r : Res) : Res :=
  mkRes (Memory r) (MemorySwap r) (MemorySwappiness r) (MemoryReservation r) (KernelMemory r) (OomKillDisable r) (CPUShares r) (CPUPeriod r) x0 (CpusetCpus r) (CpusetMems r) (BlkioWeight r) (WeightDevices r) (ReadBps r) (WriteBps r) (ReadIOps r) (WriteIOps r).
Definition set_cpuset x0 x1 (r : Res) : Res :=
  mkRes (Memory r) (MemorySwap r) (MemorySwappiness r) (MemoryReservation r) (KernelMemory r) (OomKillDisable r) (CPUShares r) (CPUPeriod r) (CPUQuota r) x0 x1 (BlkioWeight r) (WeightDevices r) (ReadBps r) (WriteBps r) (ReadIOps r) (WriteIOps r).
Definition set_weight x0 (r : Res) : Res :=
  mkRes (Memory r) (MemorySwap r) (MemorySwappiness r) (MemoryReservation r) (KernelMemory r) (OomKillDisable r) (CPUShares r) (CPUPeriod r) (CPUQuota r) (CpusetCpus r) (CpusetMems r) x0 (WeightDevices r) (ReadBps r) (WriteBps r) (ReadIOps r) (WriteIOps r).
Definition set_devices x0 (r : Res) : Res :=
  mkRes (Memory r) (MemorySwap r) (MemorySwappiness r) (MemoryReservation r) (KernelMemory r) (OomKillDisable r) (CPUShares r) (CPUPeriod r) (CPUQuota r) (CpusetCpus r) (CpusetMems r) (BlkioWeight r) x0 (ReadBps r) (WriteBps r) (ReadIOps r) (WriteIOps r).
Definition set_readbps x0 (r : Res) : Res :=
  mkRes (Memory r) (MemorySwap r) (MemorySwappiness r) (MemoryReservation r) (KernelMemory r) (OomKillDisable r) (CPUShares r) (CPUPeriod r) (CPUQuota r) (CpusetCpus r) (CpusetMems r) (BlkioWeight r) (WeightDevices r) x0 (WriteBps r) (ReadIOps r) (WriteIOps r).
Definition set_writebps x0 (r : Res) : Res :=
  mkRes (Memory r) (MemorySwap r) (MemorySwappiness r) (MemoryReservation r) (KernelMemory r) (OomKillDisable r) (CPUShares r) (CPUPeriod r) (CPUQuota r) (CpusetCpus r) (CpusetMems r) (BlkioWeight r) (WeightDevices r) (ReadBps r) x0 (ReadIOps r) (WriteIOps r).
Definition set_readiops x0 (r : Res) : Res :=
  mkRes (Memory r) (MemorySwap r) (MemorySwappiness r) (MemoryReservation r) (KernelMemory r) (OomKillDisable r) (CPUShares r) (CPUPeriod r) (CPUQuota r) (CpusetCpus r) (CpusetMems r) (BlkioWeight r) (WeightDevices r) (ReadBps r) (WriteBps r) x0 (WriteIOps r).
Definition set_writeiops x0 (r : Res) : Res :=
  mkRes (Memory r) (MemorySwap r) (MemorySwappiness r) (MemoryReservation r) (KernelMemory r) (OomKillDisable r) (CPUShares r) (CPUPeriod r) (CPUQuota r) (CpusetCpus r) (CpusetMems r) (BlkioWeight r) (WeightDevices r) (ReadBps r) (WriteBps r) (ReadIOps r) x0.

Inductive warning := NoMemoryLimit | NoSwapLimit | NoSwappiness | NoReservation | NoKernelMemory | OldKernelMemory | NoOomKillDisable | NoCPUShares | NoCPUPeriod | NoCPUQuota
  | NoCpuset | NoBlkioWeight | NoWeightDevice | NoReadBps | NoWriteBps | NoReadIOps | NoWriteIOps | NoForwarding.
Inductive verifyError := MemoryTooSmall | SwapBelowMemory | SwapWithoutMemory | BadSwappiness | ReservationAboveMemory | KernelMemoryTooSmall
  | InvalidCpus | CpusNotAvailable | InvalidMems | MemsNotAvailable | BadBlkioWeight | EndlessList
  | NegativeShm | BadOomScore | UsernsPrivileged | UsernsNetwork | UsernsPid | UsernsIpc | UsernsReadonly | BadCgroupParent
  | BadWorkingDir | BadSignal | BadPort (p : gostring) | Experimental (e : gostring).
(** One check of the function: what the kernel does not support is discarded with a
    warning, and what makes no sense is refused. *)
Inductive check := Discard (cond : Res → bool) (warn : Res → list warning) (change : Res → Res) | Reject (cond : Res → bool) (e : Res → verifyError).
Definition linuxMinMemory : Z := 4194304.
Definition is_some_and {A} (o : option A) (f : A → bool) : bool := match o with Some x => f x | None => false end.
Definition nonempty {A} (l : list A) : bool := match l with [] => false | _ => true end.
Definition unavailable (provided available : gostring) : bool :=
  match Cpuset.isCpusetListAvailable provided available with Ok b => negb b | Err _ => true end.
Definition cpuset_error (invalid missing : verifyError) (provided available : gostring) : verifyError :=
  match Cpuset.isCpusetListAvailable provided available with Ok _ => missing | Err Cpuset.InvalidFormat => invalid | Err Cpuset.Endless => EndlessList end.
Definition memory_checks (sys : SysInfo) : list check := [
  Reject (fun r => negb (Memory r =? 0) && (Memory r <? linuxMinMemory)) (fun _ => MemoryTooSmall);
  Discard (fun r => (0 <? Memory r) && negb (s_MemoryLimit sys)) (fun _ => [NoMemoryLimit]) (set_memory 0 (-1));
  Discard (fun r => (0 <? Memory r) && negb (MemorySwap r =? -1) && negb (s_SwapLimit sys)) (fun _ => [NoSwapLimit]) (set_swap (-1));
  Reject (fun r => (0 <? Memory r) && (0 <? MemorySwap r) && (MemorySwap r <? Memory r)) (fun _ => SwapBelowMemory);
  Reject (fun r => (Memory r =? 0) && (0 <? MemorySwap r)) (fun _ => SwapWithoutMemory);
  Discard (fun r => is_some_and (MemorySwappiness r) (fun n => negb (n =? -1)) && negb (s_MemorySwappiness sys)) (fun _ => [NoSwappiness]) (set_swappiness None);
  Reject (fun r => is_some_and (MemorySwappiness r) (fun n => (n <? -1) || (100 <? n))) (fun _ => BadSwappiness);
  Discard (fun r => (0 <? MemoryReservation r) && negb (s_MemoryReservation sys)) (fun _ => [NoReservation]) (set_reservation 0);
  Reject (fun r => (0 <? Memory r) && (0 <? MemoryReservation r) && (Memory r <? MemoryReservation r)) (fun _ => ReservationAboveMemory);
  Discard (fun r => (0 <? KernelMemory r) && negb (s_KernelMemory sys)) (fun _ => [NoKernelMemory]) (set_kernel 0);
  Reject (fun r => (0 <? KernelMemory r) && (KernelMemory r <? linuxMinMemory)) (fun _ => KernelMemoryTooSmall)].
Definition kernel_warning (sys : SysInfo) (r : Res) : list warning := if (0 <? KernelMemory r) && negb (kernel_4 sys) then [OldKernelMemory] else [].
Definition oom_check (sys : SysInfo) : check :=
  Discard (fun r => is_some_and (OomKillDisable r) (fun _ => true) && negb (s_OomKillDisable sys))
    (fun r => if is_some_and (OomKillDisable r) id then [NoOomKillDisable] else []) (set_oom None).
Definition other_checks (sys : SysInfo) : list check := [
  Discard (fun r => (0 <? CPUShares r) && negb (s_CPUShares sys)) (fun _ => [NoCPUShares]) (set_shares 0);
  Discard (fun r => (0 <? CPUPeriod r) && negb (s_CPUCfsPeriod sys)) (fun _ => [NoCPUPeriod]) (set_period 0);
  Discard (fun r => (0 <? CPUQuota r) && negb (s_CPUCfsQuota sys)) (fun _ => [NoCPUQuota]) (set_quota 0);
  Discard (fun r => (nonempty (CpusetCpus r) || nonempty (CpusetMems r)) && negb (s_Cpuset sys)) (fun _ => [NoCpuset]) (set_cpuset [] []);
  Reject (fun r => unavailable (CpusetCpus r) (s_Cpus sys)) (fun r => cpuset_error InvalidCpus CpusNotAvailable (CpusetCpus r) (s_Cpus sys));
  Reject (fun r => unavailable (CpusetMems r) (s_Mems sys)) (fun r => cpuset_error InvalidMems MemsNotAvailable (CpusetMems r) (s_Mems sys));
  Discard (fun r => (0 <? BlkioWeight r) && negb (s_BlkioWeight sys)) (fun _ => [NoBlkioWeight]) (set_weight 0);
  Reject (fun r => (0 <? BlkioWeight r) && ((BlkioWeight r <? 10) || (1000 <? BlkioWeight r))) (fun _ => BadBlkioWeight);
  Discard (fun r => nonempty (WeightDevices r) && negb (s_WeightDevice sys)) (fun _ => [NoWeightDevice]) (set_devices []);
  Discard (fun r => nonempty (ReadBps r) && negb (s_ReadBps sys)) (fun _ => [NoReadBps]) (set_readbps []);
  Discard (fun r => nonempty (WriteBps r) && negb (s_WriteBps sys)) (fun _ => [NoWriteBps]) (set_writebps []);
  Discard (fun r => nonempty (ReadIOps r) && negb (s_ReadIOps sys)) (fun _ => [NoReadIOps]) (set_readiops []);
  Discard (fun r => nonempty (WriteIOps r) && negb (s_WriteIOps sys)) (fun _ => [NoWriteIOps]) (set_writeiops [])].
(** The checks in their order, on the resources, which are changed as they go. *)
Fixpoint run_checks (cs : list check) (r : Res) (ws : list warning) : Res * list warning * option verifyError :=
  match cs with
  | [] => (r, ws, None)
  | Discard cond warn change :: cs => if cond r then run_checks cs (change r) (ws ++ warn r) else run_checks cs r ws
  | Reject cond e :: cs => if cond r then (r, ws, Some (e r)) else run_checks cs r ws
  end.
Definition verifyContainerResources (sys : SysInfo) (r : Res) : Res * list warning * option verifyError :=
  match run_checks (memory_checks sys) r [] with
  | (r, ws, Some e) => (r, ws, Some e)
  | (r, ws, None) => run_checks (oom_check sys :: other_checks sys) r (ws ++ kernel_warning sys r)
  end.

(** ** The host configuration *)

(** What the daemon looks at besides the resources; the bindings of ports as their list. *)
Record Host := mkHost {
  Resources : Res; ShmSize : Z; OomScoreAdj : Z; Privileged : bool; NetworkMode : gostring; PidMode : gostring; IpcMode : gostring; ReadonlyRootfs : bool; CgroupParent : gostring;
  SecurityOpt : option (list gostring); PortBindings : list (gostring * list gostring) }.
Record DaemonConfig := mkDaemon { RemappedRoot : gostring; ExecOptions : list gostring }.
Definition with_resources (r : Res) (h : Host) : Host :=
  mkHost r (ShmSize h) (OomScoreAdj h) (Privileged h) (NetworkMode h) (PidMode h) (IpcMode h) (ReadonlyRootfs h) (CgroupParent h) (SecurityOpt h) (PortBindings h).
Definition ParseKeyValueOpt (opt : gostring) : option (gostring * gostring) :=
  match SplitN opt "=" 2 with [k; v] => Some (TrimSpace k, TrimSpace v) | _ => None end.
Definition usingSystemd (c : DaemonConfig) : bool :=
  existsb (fun o => match ParseKeyValueOpt o with Some (k, v) => (ToLower k =s "native.cgroupdriver") && (v =s "systemd") | None => false end) (ExecOptions c).
(** The refusals of [verifyPlatformContainerSettings] after those of the resources, the
    first that applies; the first two come before the warning about forwarding. *)
Definition platform_checks (c : DaemonConfig) (h : Host) : option verifyError :=
  if ShmSize h <? 0 then Some NegativeShm
  else if (OomScoreAdj h <? -1000) || (1000 <? OomScoreAdj h) then Some BadOomScore
  else
    let userns := negb (RemappedRoot c =s []) in
    if userns && Privileged h then Some UsernsPrivileged
    else if userns && ((NetworkMode h =s "host") || IsContainer (NetworkMode h)) then Some UsernsNetwork
    else if userns && (PidMode h =s "host") then Some UsernsPid
    else if userns && IsContainer (IpcMode h) then Some UsernsIpc
    else if userns && ReadonlyRootfs h then Some UsernsReadonly
    else if negb (CgroupParent h =s []) && usingSystemd c && (Nat.leb (length (CgroupParent h)) 6 || negb (HasSuffix (CgroupParent h) ".slice")) then Some BadCgroupParent
    else None.
Definition verifyPlatformContainerSettings (sys : SysInfo) (c : DaemonConfig) (forwarding : bool) (h : Host) : Host * list warning * option verifyError :=
  match verifyContainerResources sys (Resources h) with
  | (r, _, Some e) => (with_resources r h, [], Some e)
  | (r, ws, None) =>
      let h := with_resources r h in
      let e := platform_checks c h in
      let early := match e with Some NegativeShm | Some BadOomScore => true | _ => false end in
      (h, ws ++ (if forwarding || early then [] else [NoForwarding]), e)
  end.
Definition ParsePort (p : gostring) : result goerror Z := if p =s [] then Ok 0 else num_result (ParseUint p 10 16).
Definition bad_port (pb : gostring * list gostring) : option verifyError :=
  let portStr := (SplitProtoPort pb.1).2 in
  match ParsePort portStr with
  | Err _ => Some (BadPort portStr)
  | Ok _ => BadPort <$> find (fun hp => let '(proto, p) := SplitProtoPort hp in match NewPort proto p with Ok _ => false | Err _ => true end) pb.2
  end.
Fixpoint bad_ports (l : list (gostring * list gostring)) : option verifyError :=
  match l with [] => None | pb :: l => match bad_port pb with Some e => Some e | None => bad_ports l end end.
(** [verifyContainerSettings]; of the configuration the working directory and the signal are looked at. *)
Definition verifyContainerSettings (sys : SysInfo) (c : DaemonConfig) (forwarding : bool) (h : option Host) (config : option (gostring * gostring)) : option Host * list warning * option verifyError :=
  let bad := match config with
             | Some (wd, sig) =>
                 if negb (wd =s []) && negb (HasPrefix wd "/") then Some BadWorkingDir
                 else if nonempty sig && match Signal.ParseSignal sig with Ok _ => false | Err _ => true end then Some BadSignal
                 else None
             | None => None
             end in
  match bad, h with
  | Some e, _ => (h, [], Some e)
  | None, None => (None, [], None)
  | None, Some h =>
      match bad_ports (PortBindings h) with
      | Some e => (Some h, [], Some e)
      | None => let '(h, ws, e) := verifyPlatformContainerSettings sys c forwarding h in (Some h, ws, e)
      end
  end.

(** ** Defaults and updates *)

Definition linuxMinCPUShares : Z := 2.
Definition linuxMaxCPUShares : Z := 262144.
Definition DefaultSHMSize : Z := 67108864.
Definition adjust_shares (adjustCPUShares : bool) (r : Res) : Res :=
  if adjustCPUShares && (0 <? CPUShares r) then
    if CPUShares r <? linuxMinCPUShares then set_shares linuxMinCPUShares r
    else if linuxMaxCPUShares <? CPUShares r then set_shares linuxMaxCPUShares r else r
  else r.
Definition default_swap (r : Res) : Res := if (0 <? Memory r) && (MemorySwap r =? 0) then set_swap (to_int64 (Memory r * 2)) r else r.
Definition default_swappiness (r : Res) : Res := match MemorySwappiness r with None => set_swappiness (Some (-1)) r | Some _ => r end.
Definition default_oom (r : Res) : Res := match OomKillDisable r with None => set_oom (Some false) r | Some _ => r end.
Definition adapt_resources (adjustCPUShares : bool) (r : Res) : Res := default_oom (default_swappiness (default_swap (adjust_shares adjustCPUShares r))).
(** [adaptContainerSettings]; the options of security come from labels of other containers. *)
Definition adaptContainerSettings (secopt : gostring → gostring → result gostring (option (list gostring))) (adjustCPUShares : bool) (h : Host) : result gostring Host :=
  let! sec := match SecurityOpt h with Some l => Ok (Some l) | None => secopt (IpcMode h) (PidMode h) end in
  Ok (mkHost (adapt_resources adjustCPUShares (Resources h)) (if ShmSize h =? 0 then DefaultSHMSize else ShmSize h) (OomScoreAdj h) (Privileged h) (NetworkMode h) (PidMode h)
        (IpcMode h) (ReadonlyRootfs h) (CgroupParent h) sec (PortBindings h)).
(** [UpdateContainer]: a field of the update that is not zero replaces the container's. *)
Definition UpdateContainer (u c : Res) : Res :=
  let z (a b : Z) := if a =? 0 then b else a in
  let s (a b : gostring) := if a =s [] then b else a in
  mkRes (z (Memory u) (Memory c)) (z (MemorySwap u) (MemorySwap c)) (MemorySwappiness c) (z (MemoryReservation u) (MemoryReservation c)) (z (KernelMemory u) (KernelMemory c)) (OomKillDisable c)
    (z (CPUShares u) (CPUShares c)) (z (CPUPeriod u) (CPUPeriod c)) (z (CPUQuota u) (CPUQuota c)) (s (CpusetCpus u) (CpusetCpus c)) (s (CpusetMems u) (CpusetMems c)) (z (BlkioWeight u) (BlkioWeight c))
    (WeightDevices c) (ReadBps c) (WriteBps c) (ReadIOps c) (WriteIOps c).
Inductive updateError := Verify (e : verifyError) | BeingRemoved | KernelMemoryRunning.
(** [update] on the configuration [h] of a container that was found, up to the execution
    driver. *)
Definition update (removing running : bool) (u : option Host) (h : Host) : result updateError Host :=
  match u with
  | None => Ok h
  | Some u =>
      if removing then Err BeingRemoved
      else if running && negb (KernelMemory (Resources u) =? 0) then Err KernelMemoryRunning
      else Ok (with_resources (UpdateContainer (Resources u) (Resources h)) h)
  end.
(** The update itself is verified, not what it makes of the container. *)
Definition ContainerUpdate (sys : SysInfo) (c : DaemonConfig) (forwarding removing running : bool) (u : option Host) (h : Host) : list warning * result updateError Host :=
  match verifyContainerSettings sys c forwarding u None with
  | (_, ws, Some e) => (ws, Err (Verify e))
  | (u, ws, None) => (ws, update removing running u h)
  end.

(** ** Requests *)

(** A configuration as far as the network mode is concerned. *)
Record NetConfig := mkNet { nc_Hostname : gostring; nc_MacAddress : gostring; nc_Exposed : bool }.
Record NetHost := mkNetHost { nh_Mode : gostring; nh_Links : bool; nh_DNS : bool; nh_ExtraHosts : bool; nh_Published : bool }.
Inductive netError := BadContainerFormat | ErrConflictNetworkHostname | ErrConflictHostNetworkAndLinks | ErrConflictContainerNetworkAndLinks | ErrConflictNetworkAndDNS
  | ErrConflictNetworkHosts | ErrConflictContainerNetworkAndMac | ErrConflictNetworkPublishPorts | ErrConflictNetworkExposePorts | NilPanic.
Definition IsHost (m : gostring) : bool := m =s "host".
(** [ValidateNetMode]; a configuration that is missing is a nil pointer. *)
Definition ValidateNetMode (c : option NetConfig) (h : option NetHost) : option netError :=
  match h with
  | None => None
  | Some h =>
      let mode := nh_Mode h in
      let shared := IsHost mode || IsContainer mode in
      match Split mode ":" with
      | k :: rest =>
          if (k =s "container") && match rest with [] | [] :: _ => true | _ => false end then Some BadContainerFormat
          else if shared && match c with None => true | Some _ => false end then Some NilPanic
          else if shared && is_some_and c (fun c => negb (nc_Hostname c =s [])) then Some ErrConflictNetworkHostname
          else if IsHost mode && nh_Links h then Some ErrConflictHostNetworkAndLinks
          else if IsContainer mode && nh_Links h then Some ErrConflictContainerNetworkAndLinks
          else if shared && nh_DNS h then Some ErrConflictNetworkAndDNS
          else if shared && nh_ExtraHosts h then Some ErrConflictNetworkHosts
          else if shared && is_some_and c (fun c => negb (nc_MacAddress c =s [])) then Some ErrConflictContainerNetworkAndMac
          else if IsContainer mode && nh_Published h then Some ErrConflictNetworkPublishPorts
          else if IsContainer mode && is_some_and c nc_Exposed then Some ErrConflictNetworkExposePorts
          else None
      | [] => None
      end
  end.
(** [getHostConfig]: fields of the deprecated outer configuration fill those that the inner
    one leaves empty; the network mode has a default. *)
Record Wrapped := mkWrapped { w_Resources : Res; w_VolumeDriver : gostring; w_Mode : gostring }.
Definition SetDefaultNetModeIfBlank (w : Wrapped) : Wrapped := if w_Mode w =s [] then mkWrapped (w_Resources w) (w_VolumeDriver w) "default" else w.
Definition fill_outer (o i : Wrapped) : Wrapped :=
  let ro := w_Resources o in let ri := w_Resources i in
  let z (a b : Z) := if negb (a =? 0) && (b =? 0) then a else b in
  let s (a b : gostring) := if nonempty a && negb (nonempty b) then a else b in
  mkWrapped (mkRes (z (Memory ro) (Memory ri)) (z (MemorySwap ro) (MemorySwap ri)) (MemorySwappiness ri) (MemoryReservation ri) (KernelMemory ri) (OomKillDisable ri)
      (z (CPUShares ro) (CPUShares ri)) (CPUPeriod ri) (CPUQuota ri) (s (CpusetCpus ro) (CpusetCpus ri)) (CpusetMems ri) (BlkioWeight ri)
      (WeightDevices ri) (ReadBps ri) (WriteBps ri) (ReadIOps ri) (WriteIOps ri))
    (s (w_VolumeDriver o) (w_VolumeDriver i)) (w_Mode i).
Definition getHostConfig (outer inner : option Wrapped) (cpuset : gostring) : option Wrapped :=
  let hc := match outer, inner with
            | None, i => i
            | Some o, Some i => Some (fill_outer o i)
            | Some o, None => Some o
            end in
  match hc with
  | None => None
  | Some w =>
      let r := w_Resources w in
      let r := if nonempty cpuset && negb (nonempty (CpusetCpus r)) then set_cpuset cpuset (CpusetMems r) r else r in
      Some (SetDefaultNetModeIfBlank (mkWrapped r (w_VolumeDriver w) (w_Mode w)))
  end.
End Checks.

Import Checks.

(** ** Checks that settle what they check *)

Section settle.
  Implicit Types (r : Res) (c : check) (cs : list check) (ws : list warning).

Definition cond_of c : Res → bool := match c with Discard cond _ _ => cond | Reject cond _ => cond end.
Definition change_of c r : Res := match c with Discard _ _ change => change r | Reject _ _ => r end.
(** Nothing is left to discard or to refuse. *)
Definition settled cs r : Prop := Forall (fun c => cond_of c r = false) cs.
(** What a check changes does not make an earlier one apply. *)
Definition keeps (d c : check) : Prop := ∀ r, cond_of c r = false → cond_of c (change_of d r) = false.
Definition removes (d : check) : Prop := match d with Discard cond _ change => ∀ r, cond r = true → cond (change r) = false | Reject _ _ => True end.
Inductive ordered : list check → list check → Prop :=
| ordered_nil pre : ordered pre []
| ordered_cons pre d cs : Forall (keeps d) pre → removes d → ordered (d :: pre) cs → ordered pre (d :: cs).
Lemma settled_run cs r ws : settled cs r → run_checks cs r ws = (r, ws, None).
Proof. induction 1 as [|[cond warn change|cond e] cs Hc Hs IH]; [done|..]; simpl in *; by rewrite Hc. Qed.
Lemma run_settles pre cs r ws r' ws' : ordered pre cs → settled pre r → run_checks cs r ws = (r', ws', None) → settled pre r' ∧ settled cs r'.
Proof.
  intros Ho. revert r ws. induction Ho as [pre|pre d cs Hk Hr Ho IH]; intros r ws Hp Hrun; [injection Hrun as <- _; split; [done|constructor]|].
  assert (Hnext : ∀ r1 ws1, settled (d :: pre) r1 → run_checks cs r1 ws1 = (r', ws', None) → settled pre r' ∧ settled (d :: cs) r').
  { intros r1 ws1 H1 H2. destruct (IH _ _ H1 H2) as [Hdp Hcs]. apply Forall_cons in Hdp as [Hd Hpre]. split; [done|by constructor]. }
  destruct d as [cond warn change|cond e]; simpl in *; destruct (cond r) eqn:E; try done.
  - eapply Hnext; [|exact Hrun]. constructor; [by apply Hr|]. rewrite Forall_forall in Hk. apply Forall_forall. intros c Hc. apply (Hk c Hc). by apply (proj1 (Forall_forall _ _) Hp).
  - eapply Hnext; [|exact Hrun]. by constructor.
  - eapply Hnext; [|exact Hrun]. by constructor.
Qed.
Lemma run_checks_app cs cs' r ws : run_checks (cs ++ cs') r ws = match run_checks cs r ws with (r, ws, Some e) => (r, ws, Some e) | (r, ws, None) => run_checks cs' r ws end.
Proof. revert r ws. induction cs as [|[cond warn change|cond e] cs IH]; intros r ws; [done|..]; simpl; destruct (cond r); done. Qed.
Lemma run_checks_warnings cs r ws ws' : (run_checks cs r ws).1.1 = (run_checks cs r ws').1.1 ∧ (run_checks cs r ws).2 = (run_checks cs r ws').2.
Proof. revert r ws ws'. induction cs as [|[cond warn change|cond e] cs IH]; intros r ws ws'; [done|..]; simpl; destruct (cond r); try apply IH; done. Qed.
Lemma run_checks_keeps (P : Res → Prop) cs r ws : Forall (fun c => ∀ r, P r → P (change_of c r)) cs → P r → P (run_checks cs r ws).1.1.
Proof. intros H. revert r ws. induction H as [|[cond warn change|cond e] cs Hc Hs IH]; intros r ws Hr; [done|..]; simpl in *; destruct (cond r); auto. Qed.
(** Where every change comes with a warning, resources without warnings are unchanged. *)
Lemma run_checks_silent cs r ws r' ws' e : Forall (fun c => match c with Discard _ warn _ => ∀ r, warn r ≠ [] | Reject _ _ => True end) cs →
  run_checks cs r ws = (r', ws', e) → ws `prefix_of` ws' ∧ (ws' = ws → r' = r).
Proof.
  intros H. revert r ws. induction H as [|[cond warn change|cond e'] cs Hc Hs IH]; intros r ws Hr; simpl in *; [by simplify_eq|..]; destruct (cond r); [|by apply IH|by simplify_eq|by apply IH].
  destruct (IH _ _ Hr) as [[k ->] _]. split; [by rewrite <- app_assoc; eexists|]. rewrite <- app_assoc. intros Hw. destruct (Hc r). apply (f_equal length) in Hw. rewrite !length_app in Hw. apply length_zero_iff_nil. lia.
Qed.
End settle.

(** The conditions are comparisons of fields. *)
Ltac fields := repeat match goal with r : Res |- _ => destruct r end; simpl in *;
  repeat match goal with
    | |- context [match ?o with Some _ => _ | None => _ end] => destruct o; simpl in *
    | H : context [?a <? ?b] |- _ => destruct (Z.ltb_spec a b); simpl in *
    | H : context [?a =? ?b] |- _ => destruct (Z.eqb_spec a b); simpl in *
    | |- context [?a <? ?b] => destruct (Z.ltb_spec a b); simpl in *
    | |- context [?a =? ?b] => destruct (Z.eqb_spec a b); simpl in *
    end; try done; try lia.

Section verified.
  Context (sys : SysInfo).
  Implicit Types (r : Res).

Definition all_checks : list check := memory_checks sys ++ oom_check sys :: other_checks sys.
Lemma keeps_reject cond e c : keeps (Reject cond e) c.
Proof. by intros r. Qed.
Ltac settles := repeat match goal with
  | |- ordered _ [] => apply ordered_nil
  | |- ordered _ (_ :: _) => apply ordered_cons
  | |- Forall _ _ => constructor
  | |- removes (Reject _ _) => exact I
  | |- removes _ => intros r H; first [done | fields]
  | |- keeps (Reject _ _) _ => apply keeps_reject
  | |- keeps _ _ => intros r H; first [exact H | fields]
  end.
Lemma checks_ordered : ordered [] all_checks.
Proof. unfold all_checks, memory_checks, other_checks, oom_check. cbn [app]. settles. Qed.
(** What was accepted is settled, and the settled is accepted as it is. *)
Lemma verified_settled r r' ws : verifyContainerResources sys r = (r', ws, None) → settled all_checks r'.
Proof.
  unfold verifyContainerResources. intros H.
  destruct (run_checks (memory_checks sys) r []) as [[r1 ws1] [e|]] eqn:E; [done|].
  assert (H' : run_checks all_checks r [] = (r', (run_checks all_checks r []).1.2, None)).
  { unfold all_checks. rewrite run_checks_app, E. destruct (run_checks_warnings (oom_check sys :: other_checks sys) r1 ws1 (ws1 ++ kernel_warning sys r1)) as [H1 H2].
    rewrite H in H1, H2. apply injective_projections; [apply injective_projections|]; [exact H1|done|exact H2]. }
  exact (proj2 (run_settles [] _ _ _ _ _ checks_ordered (Forall_nil_2 _) H')).
Qed.
Lemma settled_verified r : settled all_checks r → verifyContainerResources sys r = (r, kernel_warning sys r, None).
Proof. intros [Hm Ho]%Forall_app. unfold verifyContainerResources. by rewrite (settled_run _ _ _ Hm), (settled_run _ _ _ Ho). Qed.

(** The defaults leave nothing to refuse; that the out-of-memory killer stays enabled is
    discarded silently where it cannot be disabled, and filled in again. *)
Definition restarted (r : Res) : Res := if s_OomKillDisable sys then r else set_oom None r.
Lemma double_swap m : 0 < m < 2 ^ 63 → m ≤ to_int64 (m * 2) ∨ to_int64 (m * 2) < 0.
Proof. intros H. unfold to_int64. destruct (Z.lt_ge_cases m (2 ^ 62)); [left|right].
  - rewrite Z.mod_small by lia. lia.
  - replace (m * 2 + 2 ^ 63) with ((m * 2 - 2 ^ 63) + 1 * 2 ^ 64) by lia. rewrite Z_mod_plus_full, Z.mod_small by lia. lia.
Qed.
Ltac each_check H := unfold settled, all_checks, memory_checks, oom_check, other_checks in *; cbn [app] in *;
  repeat (let Hc := fresh "Hc" in apply Forall_cons in H as [Hc H]; apply Forall_cons_2; [first [exact Hc | clear H; simpl in Hc |- *] |]); [..|apply Forall_nil_2].
Lemma shares_settled adj r : settled (all_checks) r → settled all_checks (adjust_shares adj r).
Proof.
  intros H. unfold adjust_shares. destruct (adj && (0 <? CPUShares r)) eqn:E; [|done]. apply andb_true_iff in E as [_ E].
  destruct (CPUShares r <? linuxMinCPUShares), (linuxMaxCPUShares <? CPUShares r); try exact H; each_check H; by rewrite E in *.
Qed.
Lemma swap_settled r : Memory r < 2 ^ 63 → settled all_checks r → settled all_checks (default_swap r).
Proof.
  intros Hm H. unfold default_swap. destruct (_ && _) eqn:E; [|done]. apply andb_true_iff in E as [E1 E2].
  pose proof (double_swap (Memory r)) as Hd. each_check H; revert Hd; generalize (to_int64 (Memory r * 2)); intros x Hd; apply Z.ltb_lt in E1; apply Z.eqb_eq in E2; rewrite E2 in *.
  - by destruct (s_SwapLimit sys), (0 <? Memory r), (x =? -1).
  - destruct (Hd (conj E1 Hm)); destruct (Z.ltb_spec 0 x), (Z.ltb_spec x (Memory r)), (Z.ltb_spec 0 (Memory r)); try done; lia.
  - destruct (Z.eqb_spec (Memory r) 0); [lia|done].
Qed.
Lemma swappiness_settled r : settled all_checks r → settled all_checks (default_swappiness r).
Proof. intros H. unfold default_swappiness. destruct (MemorySwappiness r) eqn:E; [done|]. each_check H; done. Qed.
Lemma oom_settled o r : settled (memory_checks sys) r → settled (other_checks sys) r → settled (memory_checks sys) (set_oom o r) ∧ settled (other_checks sys) (set_oom o r).
Proof. intros Hm Ho. unfold settled, memory_checks, other_checks in *. split; [revert Hm|revert Ho]; rewrite !Forall_cons, !Forall_nil; exact id. Qed.
Lemma adapt_settled adj r : Memory r < 2 ^ 63 → settled all_checks r → settled all_checks (default_swappiness (default_swap (adjust_shares adj r))).
Proof. intros Hm H. apply swappiness_settled, swap_settled, shares_settled, H. unfold adjust_shares. by repeat case_match. Qed.
Lemma run_oom cs o r ws : run_checks (oom_check sys :: cs) (set_oom (Some o) r) ws =
  if s_OomKillDisable sys then run_checks cs (set_oom (Some o) r) ws else run_checks cs (set_oom None r) (ws ++ if o then [NoOomKillDisable] else []).
Proof. simpl. by destruct (s_OomKillDisable sys), o. Qed.
Lemma adapt_verified adj r : Memory r < 2 ^ 63 → settled all_checks r → verifyContainerResources sys (adapt_resources adj r) = (restarted (adapt_resources adj r), kernel_warning sys r, None).
Proof.
  intros Hm H. pose proof (adapt_settled adj r Hm H) as Ha.
  assert (Hk : KernelMemory (default_swappiness (default_swap (adjust_shares adj r))) = KernelMemory r).
  { unfold default_swappiness, default_swap, adjust_shares. by repeat case_match. }
  assert (Ho : OomKillDisable (default_swappiness (default_swap (adjust_shares adj r))) = OomKillDisable r).
  { unfold default_swappiness, default_swap, adjust_shares. by repeat case_match. }
  unfold adapt_resources. set (a := default_swappiness _) in *. clearbody a. unfold restarted.
  unfold default_oom. destruct (OomKillDisable a) eqn:E.
  - rewrite (settled_verified a Ha). unfold kernel_warning. rewrite Hk. apply Forall_app in Ha as [_ Ha]. apply Forall_cons in Ha as [Ha _]. simpl in Ha. rewrite E in Ha. simpl in Ha.
    by destruct (s_OomKillDisable sys).
  - apply Forall_app in Ha as [Hmem Hoth]. apply Forall_cons in Hoth as [_ Hoth].
    unfold verifyContainerResources. rewrite (settled_run (memory_checks sys) (set_oom (Some false) a) [] (proj1 (oom_settled _ _ Hmem Hoth))). rewrite run_oom. unfold kernel_warning. cbn [KernelMemory set_oom app]. rewrite Hk.
    destruct (s_OomKillDisable sys).
    + by rewrite (settled_run _ (set_oom (Some false) a) _ (proj2 (oom_settled _ _ Hmem Hoth))).
    + rewrite app_nil_r. by rewrite (settled_run _ (set_oom None a) _ (proj2 (oom_settled None _ Hmem Hoth))).
Qed.
Lemma verified_memory r : Memory r < 2 ^ 63 → Memory (verifyContainerResources sys r).1.1 < 2 ^ 63.
Proof.
  intros H. unfold verifyContainerResources.
  assert (Hp : ∀ cs r ws, cs ⊆ all_checks → Memory r < 2 ^ 63 → Memory (run_checks cs r ws).1.1 < 2 ^ 63).
  { intros cs r0 ws Hcs. apply (run_checks_keeps (fun r => Memory r < 2 ^ 63)). refine (proj2 (Forall_forall _ _) (fun c Hc => proj1 (Forall_forall _ _) _ c (Hcs c Hc))).
    unfold all_checks, memory_checks, oom_check, other_checks. cbn [app]. repeat (apply Forall_cons_2; [intros ? Hr; first [exact Hr | cbn; lia]|]). apply Forall_nil_2. }
  pose proof (Hp (memory_checks sys) r [] ltac:(intros c Hc; apply elem_of_app; by left) H) as H1.
  destruct (run_checks _ r []) as [[r1 ws] [e|]]; [done|]. apply Hp; [intros c Hc; apply elem_of_app; by right|done].
Qed.
(** What is discarded is reported, but for an out-of-memory killer that stays enabled. *)
Lemma discards_reported r r' e : verifyContainerResources sys r = (r', [], e) → r' = r ∨ OomKillDisable r = Some false ∧ r' = set_oom None r.
Proof.
  unfold verifyContainerResources. destruct (run_checks _ r []) as [[r1 ws1] e1] eqn:E1. intros H.
  assert (Hm : [] `prefix_of` ws1 ∧ (ws1 = [] → r1 = r)).
  { eapply run_checks_silent; [|exact E1]. unfold memory_checks. repeat constructor; done. }
  assert (Ho : ∀ r ws r' ws', run_checks (other_checks sys) r ws = (r', ws', e) → ws `prefix_of` ws' ∧ (ws' = ws → r' = r)).
  { intros *. apply run_checks_silent. unfold other_checks. repeat constructor; done. }
  destruct e1 as [e1|]; [simplify_eq; left; by apply Hm|]. change (run_checks (oom_check sys :: other_checks sys) r1 (ws1 ++ kernel_warning sys r1)) with
    (if is_some_and (OomKillDisable r1) (fun _ => true) && negb (s_OomKillDisable sys)
     then run_checks (other_checks sys) (set_oom None r1) ((ws1 ++ kernel_warning sys r1) ++ if is_some_and (OomKillDisable r1) id then [NoOomKillDisable] else [])
     else run_checks (other_checks sys) r1 (ws1 ++ kernel_warning sys r1)) in H.
  destruct (is_some_and _ _ && _) eqn:Ec; destruct (Ho _ _ _ _ H) as [Hw%prefix_nil_inv Hr]; rewrite Hw in Hr; specialize (Hr eq_refl) as ->.
  - apply app_nil in Hw as [[-> _]%app_nil Hw]. rewrite (proj2 Hm eq_refl) in *. right. destruct (OomKillDisable r) as [[]|]; done.
  - apply app_nil in Hw as [-> _]. left. by apply Hm.
Qed.
End verified.

Lemma adapt_kernel adj r : KernelMemory (adapt_resources adj r) = KernelMemory r.
Proof. unfold adapt_resources, default_oom, default_swappiness, default_swap, adjust_shares. by repeat case_match. Qed.
Lemma adapt_restarted sys adj r : settled (all_checks sys) r → adapt_resources false (restarted sys (adapt_resources adj r)) = adapt_resources adj r.
Proof.
  intros [_ Hoth]%Forall_app. apply Forall_cons in Hoth as [Ho _]. simpl in Ho.
  assert (Hx : OomKillDisable (adjust_shares adj r) = OomKillDisable r) by (unfold adjust_shares; by repeat case_match).
  unfold adapt_resources. change (adjust_shares false) with (fun r : Res => r). cbn beta. rewrite <- Hx in Ho. generalize dependent (adjust_shares adj r). intros a Ha Ho.
  unfold restarted, default_oom, default_swappiness, default_swap. destruct a as [m sw sn ? ? oom]. simpl in *.
  destruct (0 <? m) eqn:Em, (sw =? 0) eqn:Es; simpl; destruct sn; simpl; destruct oom; simpl in *; destruct (s_OomKillDisable sys); simpl; rewrite ?Em, ?Es; simpl; try done;
    destruct (to_int64 (m * 2) =? 0); done.
Qed.

Section started.
  Context (sys : SysInfo) (c : DaemonConfig) (forwarding : bool) (secopt : gostring → gostring → result gostring (option (list gostring))).
  Implicit Types (h : Host) (r : Res).

Lemma verifyContainerSettings_ok h config h' ws : verifyContainerSettings sys c forwarding (Some h) config = (Some h', ws, None) →
  ∃ r ws', verifyContainerResources sys (Resources h) = (r, ws', None) ∧ h' = with_resources r h ∧ ws = ws' ++ (if forwarding then [] else [NoForwarding])
    ∧ platform_checks c h' = None ∧ bad_ports (PortBindings h) = None.
Proof.
  unfold verifyContainerSettings. intros H. destruct (match config with Some _ => _ | None => _ end); [done|].
  destruct (bad_ports (PortBindings h)) eqn:Eb; [done|]. unfold verifyPlatformContainerSettings in H.
  destruct (verifyContainerResources sys (Resources h)) as [[r ws'] [e|]]; [done|].
  injection H as <- <- Hp. exists r, ws'. rewrite Hp. split_and!; try done. by rewrite orb_false_r.
Qed.
Lemma verifyContainerSettings_Ok h r ws : verifyContainerResources sys (Resources h) = (r, ws, None) → platform_checks c h = None → bad_ports (PortBindings h) = None →
  verifyContainerSettings sys c forwarding (Some h) None = (Some (with_resources r h), ws ++ (if forwarding then [] else [NoForwarding]), None).
Proof.
  intros Hr Hp Hb. unfold verifyContainerSettings, verifyPlatformContainerSettings. rewrite Hb, Hr.
  change (platform_checks c (with_resources r h)) with (platform_checks c h). rewrite Hp. by rewrite orb_false_r.
Qed.

(** C40: A host configuration that was accepted when a container was created is accepted
    when it starts, on the same kernel: with the defaults that were filled in nothing is
    refused and no limit is discarded any more, the warnings are those about old kernels
    and forwarding only, and the defaults leave it as it was stored. *)
Theorem created_settings_start h config adj h1 ws h2 :
  Memory (Resources h) < 2 ^ 63 →
  verifyContainerSettings sys c forwarding (Some h) config = (Some h1, ws, None) →
  adaptContainerSettings secopt adj h1 = Ok h2 →
  ∃ h3, verifyContainerSettings sys c forwarding (Some h2) None = (Some h3, kernel_warning sys (Resources h2) ++ (if forwarding then [] else [NoForwarding]), None) ∧
    Resources h3 = restarted sys (Resources h2) ∧ adaptContainerSettings secopt false h3 = Ok h2.
Proof.
  intros Hm Hv Ha. apply verifyContainerSettings_ok in Hv as (r & ws' & Hr & -> & -> & Hp & Hb).
  pose proof (verified_memory sys _ Hm) as Hm'. rewrite Hr in Hm'. simpl in Hm'.
  pose proof (verified_settled sys _ _ _ Hr) as Hs.
  unfold adaptContainerSettings in Ha. simpl in Ha. destruct (match SecurityOpt h with Some _ => _ | None => _ end) as [sec|] eqn:Esec; [|done]. injection Ha as <-.
  exists (with_resources (restarted sys (adapt_resources adj r)) (mkHost (adapt_resources adj r) (if ShmSize h =? 0 then DefaultSHMSize else ShmSize h) (OomScoreAdj h) (Privileged h)
    (NetworkMode h) (PidMode h) (IpcMode h) (ReadonlyRootfs h) (CgroupParent h) sec (PortBindings h))).
  split_and!; [|done|].
  - apply verifyContainerSettings_Ok; [|..|done].
    + simpl. rewrite (adapt_verified sys adj r Hm' Hs). unfold kernel_warning. by rewrite adapt_kernel.
    + revert Hp. unfold platform_checks. simpl. by destruct (Z.eqb_spec (ShmSize h) 0) as [->|].
  - unfold adaptContainerSettings. simpl. rewrite (adapt_restarted sys adj r Hs).
    replace (match sec with Some l => Ok (Some l) | None => secopt (IpcMode h) (PidMode h) end) with (Ok (E := gostring) sec) by (destruct sec, (SecurityOpt h); congruence).
    simpl. destruct (Z.eqb_spec (ShmSize h) 0) as [_|Hn%Z.eqb_neq]; [done|]. by rewrite Hn.
Qed.
End started.

(** ** Examples *)

Module HostCases.
Definition no_resources : Res := mkRes 0 0 None 0 0 None 0 0 0 [] [] 0 [] [] [] [] [].
Definition plain_kernel : SysInfo := mkSys true false true false true true true true true true true true true true true true "0-3" "0" false.
Definition full_kernel : SysInfo := mkSys true true true true true true true true true true true true true true true true "0-3" "0" true.
Definition host (r : Res) : Host := mkHost r 0 0 false "default" [] [] false [] None [].
Definition daemon : DaemonConfig := mkDaemon [] [].
Definition no_labels (_ _ : gostring) : result gostring (option (list gostring)) := Ok None.
Definition mb (n : Z) : Z := n * 1048576.
Definition asked : Res := set_cpuset "0-1,3" "0" (set_shares 1 (set_kernel (mb 64) (set_memory (mb 512) 0 no_resources))).
(** A kernel without limits of swap and before 4.0: the swap is discarded with a warning
    at the creation, and not at the start. *)
Definition asked_stored : Res := set_oom (Some false) (set_swappiness (Some (-1)) (set_swap (-1) (set_shares 2 asked))).
Definition created : Host := mkHost asked_stored DefaultSHMSize 0 false "default" [] [] false [] None [].
Lemma created_settings_start_witness :
  ∃ h3, verifyContainerSettings plain_kernel daemon false (Some created) None = (Some h3, [OldKernelMemory; NoForwarding], None) ∧
    Resources h3 = restarted plain_kernel asked_stored ∧ adaptContainerSettings no_labels false h3 = Ok created.
Proof.
  apply (created_settings_start plain_kernel daemon false no_labels (host asked) (Some ("/tmp"%go, "TERM"%go)) true (host (set_swap (-1) asked)) [NoSwapLimit; OldKernelMemory; NoForwarding]); vm_compute; reflexivity.
Defined.
Example cpus_missing : (verifyContainerResources full_kernel (set_cpuset "2-4" [] no_resources)).2 = Some CpusNotAvailable.
Proof. vm_compute. reflexivity. Qed.

(** An update of the memory alone is accepted, and the next start is refused: the swap of
    the container was twice the old memory. *)
Definition stored : Host := host (adapt_resources false (set_memory (mb 300) 0 no_resources)).
Definition updated : Host := host (set_memory (mb 700) (mb 600) (Resources stored)).
Example update_accepted : ContainerUpdate full_kernel daemon true false false (Some (host (set_memory (mb 700) 0 no_resources))) stored = ([], Ok updated).
Proof. vm_compute. reflexivity. Qed.
Example update_breaks_start : verifyContainerSettings full_kernel daemon true (Some updated) None = (Some updated, [], Some SwapBelowMemory).
Proof. vm_compute. reflexivity. Qed.
(** A range up to the greatest integer is never finished. *)
Example endless_cpuset : Cpuset.ParseUintList "0-9223372036854775807" = Err Cpuset.Endless.
Proof. vm_compute. reflexivity. Qed.
(** A request with a host configuration and without a configuration. *)
Example nil_config : ValidateNetMode None (Some (mkNetHost "host" false false false false)) = Some NilPanic.
Proof. reflexivity. Qed.
(** Twice the memory overflows: the swap is no limit. *)
Example swap_overflows : MemorySwap (adapt_resources false (set_memory (2 ^ 62) 0 no_resources)) = - 2 ^ 63.
Proof. reflexivity. Qed.
End HostCases.
