(* ===== verification/JsonLog.v ===== *)
(** * JsonLog: the entries of a JSON log file

    [src/pkg/jsonlog]: the encoding of an entry ([jsonlogbytes.go] and
    [jsonlog_marshalling.go]) and its time stamp ([time_marshalling.go]), with what the
    reader uses of [encoding/json] and [time]; for runes see [Utf8].

    Times are those of the universal time zone, as dates and times of the day; a log is
    written with such times only. *)

From S2P Require Import Prelude Json Utf8 JsonEncode.
Import Strings Json.

(** ** Time stamps *)

Module Time.

Record Time := mkTime { Year : Z; Month : Z; Day : Z; Hour : Z; Minute : Z; Second : Z; Nanosecond : Z }.
#[global] Instance Time_eq_dec : EqDecision Time.
Proof. solve_decision. Defined.
Definition zeroTime : Time := mkTime 1 1 1 0 0 0 0.
Definition IsZero (t : Time) : bool := bool_decide (t = zeroTime).
Local Open Scope Z_scope.
(** The order of times: dates and times of the day as numbers to mixed bases. *)
Definition key (t : Time) : Z :=
  (((((Year t * 13 + Month t) * 32 + Day t) * 24 + Hour t) * 60 + Minute t) * 60 + Second t) * 1000000000 + Nanosecond t.
Definition Before (t u : Time) : bool := key t <? key u.
Definition leap (y : Z) : bool := (y mod 4 =? 0) && (negb (y mod 100 =? 0) || (y mod 400 =? 0)).
Definition daysIn (m y : Z) : Z :=
  if m =? 2 then if leap y then 29 else 28 else if (m =? 4) || (m =? 6) || (m =? 9) || (m =? 11) then 30 else 31.
Definition within (lo hi n : Z) : bool := (lo <=? n) && (n <=? hi).
Definition in_calendar (t : Time) : bool :=
  within 1 12 (Month t) && within 1 (daysIn (Month t) (Year t)) (Day t) && within 0 23 (Hour t) && within 0 59 (Minute t) && within 0 59 (Second t)
  && within 0 999999999 (Nanosecond t).

Definition digit (n : Z) : ascii := ascii_of_N (48 + Z.to_N n).
(** A number in [w] digits. *)
Fixpoint padded (w : nat) (n : Z) : gostring := match w with O => [] | S w => padded w (n / 10) ++ [digit (n mod 10)] end.
Fixpoint strip_zeros (s : gostring) : gostring :=
  match s with
  | [] => []
  | c :: s => match strip_zeros s with [] => if c =c "0" then [] else [c] | r => c :: r end
  end.
(** The layouts [time.RFC3339Nano] and [RFC3339NanoFixed]. *)
Definition date_time (t : Time) : gostring :=
  padded 4 (Year t) ++ "-" ++ padded 2 (Month t) ++ "-" ++ padded 2 (Day t) ++ "T" ++ padded 2 (Hour t) ++ ":" ++ padded 2 (Minute t) ++ ":" ++ padded 2 (Second t).
Definition fraction (t : Time) : gostring := match strip_zeros (padded 9 (Nanosecond t)) with [] => [] | d => ch "." :: d end.
Definition RFC3339Nano (t : Time) : gostring := date_time t ++ fraction t ++ "Z".
Definition RFC3339NanoFixed (t : Time) : gostring := date_time t ++ "." ++ padded 9 (Nanosecond t) ++ "Z".
(** [time.Parse] with the layout [time.RFC3339], of a time without offset. *)
Fixpoint number (w : nat) (acc : Z) (s : gostring) : option (Z * gostring) :=
  match w, s with
  | O, _ => Some (acc, s)
  | S w, c :: s => if is_digit c then number w (acc * 10 + Z.of_N (N_of_ascii c - 48)) s else None
  | S _, [] => None
  end.
Definition expect (c : gostring) (s : gostring) : option gostring := strip_prefix c s.
Definition parse_fraction (s : gostring) : option (Z * gostring) :=
  match strip_prefix "." s with
  | None => Some (0, s)
  | Some s =>
      let d := take_while is_digit s in
      if (1 <=? length d)%nat && (length d <=? 9)%nat then '(n, _) ← number (length d) 0 d; Some (n * 10 ^ (9 - Z.of_nat (length d)), drop (length d) s) else None
  end.
Definition Parse (s : gostring) : option Time :=
  '(y, s) ← number 4 0 s; s ← expect "-" s; '(mo, s) ← number 2 0 s; s ← expect "-" s; '(d, s) ← number 2 0 s; s ← expect "T" s;
  '(h, s) ← number 2 0 s; s ← expect ":" s; '(mi, s) ← number 2 0 s; s ← expect ":" s; '(sec, s) ← number 2 0 s;
  '(ns, s) ← parse_fraction s; s ← expect "Z" s;
  let t := mkTime y mo d h mi sec ns in
  if bool_decide (s = []) && in_calendar t then Some t else None.
End Time.

(** ** Entries *)

Module JsonLog.
Import Utf8.Utf8 Time.

Record JSONLog := mkLog { Log : gostring; Stream : gostring; Created : Time }.
(** [JSONLogs], with the encoded time and attributes. *)
Record JSONLogs := mkLogs { ls_Log : gostring; ls_Stream : gostring; ls_Created : gostring; RawAttrs : gostring }.
Definition quote : ascii := "034"%char.
Definition FastTimeMarshalJSON (t : Time) : option gostring :=
  if (Year t <? 0)%Z || (10000 <=? Year t)%Z then None else Some (quote :: RFC3339Nano t ++ [quote]).

Definition hex (n : N) : gostring := [JsonEncode.hex_digit n].
Definition plain (b : ascii) : bool :=
  (32 <=? N_of_ascii b)%N && negb (b =c "\") && negb (b =c "034") && negb (b =c "<") && negb (b =c ">") && negb (b =c "&").
Definition escape (b : ascii) : gostring :=
  if (b =c "\") || (b =c "034") then [ch "\"; b]
  else if b =c "010" then "\n" else if b =c "013" then "\r"
  else "\u00" ++ hex (N.shiftr (N_of_ascii b) 4) ++ hex (N.land (N_of_ascii b) 15).
Definition slice (s : gostring) (i j : nat) : gostring := take (j - i) (drop i s).
(** The loop of [ffjsonWriteJSONBytesAsString]: what is plain is written when something
    else is met. *)
Fixpoint write_loop (fuel : nat) (s : gostring) (start i : nat) (buf : gostring) : gostring :=
  match fuel with
  | O => buf
  | S fuel =>
      match s !! i with
      | None => (if Nat.ltb start (length s) then buf ++ drop start s else buf) ++ [quote]
      | Some b =>
          let pending := if Nat.ltb start i then buf ++ slice s start i else buf in
          if (N_of_ascii b <? 0x80)%N then
            if plain b then write_loop fuel s start (S i) buf else write_loop fuel s (S i) (S i) (pending ++ escape b)
          else
            let '(c, size) := DecodeRune (drop i s) in
            if (c =? RuneError)%N && (size =? 1)%nat then write_loop fuel s (i + size) (i + size) (pending ++ "\ufffd")
            else if (c =? 0x2028)%N || (c =? 0x2029)%N then write_loop fuel s (i + size) (i + size) (pending ++ "\u202" ++ hex (N.land c 15))
            else write_loop fuel s start (i + size) buf
      end
  end.
Definition ffjsonWriteJSONBytesAsString (buf s : gostring) : gostring := write_loop (S (length s)) s 0 0 (buf ++ [quote]).
(** [ffjsonWriteJSONString] is the same on a string. *)
Definition ffjsonWriteJSONString : gostring → gostring → gostring := ffjsonWriteJSONBytesAsString.

Definition comma (first : bool) (buf : gostring) : gostring := if first then buf else buf ++ ",".
Definition field_name (n : gostring) : gostring := quote :: n ++ [quote; ch ":"].
Definition logs_MarshalJSONBuf (mj : JSONLogs) (buf : gostring) : gostring :=
  let buf := buf ++ "{" in
  let '(first, buf) := if ls_Log mj =s [] then (true, buf) else (false, ffjsonWriteJSONBytesAsString (buf ++ field_name "log") (ls_Log mj)) in
  let '(first, buf) := if ls_Stream mj =s [] then (first, buf) else (false, ffjsonWriteJSONString (comma first buf ++ field_name "stream") (ls_Stream mj)) in
  let '(first, buf) := if RawAttrs mj =s [] then (first, buf) else (false, comma first buf ++ field_name "attrs" ++ RawAttrs mj) in
  comma first buf ++ field_name "time" ++ ls_Created mj ++ "}".
Definition log_MarshalJSONBuf (mj : JSONLog) (buf : gostring) : option gostring :=
  let buf := buf ++ "{" in
  let '(first, buf) := if Log mj =s [] then (true, buf) else (false, ffjsonWriteJSONString (buf ++ field_name "log") (Log mj)) in
  let '(first, buf) := if Stream mj =s [] then (first, buf) else (false, ffjsonWriteJSONString (comma first buf ++ field_name "stream") (Stream mj)) in
  let buf := comma first buf ++ field_name "time" in
  timestamp ← FastTimeMarshalJSON (Created mj); Some (buf ++ timestamp ++ "}").
Definition MarshalJSON (mj : JSONLog) : option gostring := log_MarshalJSONBuf mj [].
(** [Format]; a layout other than JSON is a parameter. *)
Definition Format (layout : gostring → Time → gostring) (jl : JSONLog) (format : gostring) : option gostring :=
  if format =s [] then Some (Log jl)
  else if format =s "json" then MarshalJSON jl
  else Some (layout format (Created jl) ++ " " ++ Log jl).

(** ** Decoding

    A value into a [JSONLog] that was reset: names are compared without regard to case,
    other fields are skipped, and [null] changes nothing. *)
Inductive decodeError := SyntaxError | TypeError.
Definition named (n k : gostring) : bool := ToLower k =s n.
Definition set_field (l : JSONLog) (kv : gostring * json) : option JSONLog :=
  let '(k, v) := kv in
  if named "log" k then match v with JString s => Some (mkLog s (Stream l) (Created l)) | JNull => Some l | _ => None end
  else if named "stream" k then match v with JString s => Some (mkLog (Log l) s (Created l)) | JNull => Some l | _ => None end
  else if named "time" k then match v with JString s => t ← Parse s; Some (mkLog (Log l) (Stream l) t) | JNull => Some l | _ => None end
  else Some l.
Definition Reset : JSONLog := mkLog [] [] zeroTime.
Definition decode_into (v : json) : option JSONLog :=
  match v with
  | JObject fields => foldl (fun l kv => l ← l; set_field l kv) (Some Reset) fields
  | JNull => Some Reset
  | _ => None
  end.
(** [dec.Decode] until the end of the text or an error. *)
Fixpoint decode_all (fuel : nat) (s : gostring) : list JSONLog * option decodeError :=
  match fuel with
  | O => ([], None)
  | S fuel =>
      match skip s with
      | [] => ([], None)
      | _ =>
          match json_value (decode_fuel s) s with
          | None => ([], Some SyntaxError)
          | Some (v, rest) =>
              match decode_into v with
              | None => ([], Some TypeError)
              | Some l => let '(ls, e) := decode_all fuel rest in (l :: ls, e)
              end
          end
      end
  end.
Definition DecodeAll (s : gostring) : list JSONLog * option decodeError := decode_all (S (length s)) s.
End JsonLog.
