(* ===== verification/JsonLogFacts.v ===== *)
(** * JsonLogFacts: an entry of a log is read back as it was written *)

From S2P Require Import Prelude Json Utf8 JsonEncode JsonLog.
Import Strings Json Utf8.Utf8 Time JsonLog.

Local Ltac Zify.zify_post_hook ::= Z.to_euclidean_division_equations.

Section strings.
  Implicit Types (s t rest : gostring) (c : N).

(** ** Strings *)

(** What is written for a rune. *)
Definition enc_rune c (b : gostring) : gostring :=
  match b with
  | [a] => if (N_of_ascii a <? 0x80)%N then if plain a then [a] else escape a else "\ufffd"
  | _ => if (c =? 0x2028)%N || (c =? 0x2029)%N then "\u202" ++ hex (N.land c 15) else b
  end.
Definition enc s : gostring := by_rune enc_rune (length s) s.
Lemma enc_step c b t : DecodeRune (b ++ t) = (c, length b) → (1 <= length b)%nat → enc (b ++ t) = enc_rune c b ++ enc t.
Proof. apply by_rune_step. Qed.


Lemma emits_ascii a : (N_of_ascii a < 128)%N → emits (if plain a then [a] else escape a) [a] 1.
Proof. intros _ fuel rest. destruct a as [[] [] [] [] [] [] [] []]; reflexivity. Qed.
Lemma enc_rune_emits s c b : rune s c b → ∃ k, (k <= length b)%nat ∧ emits (enc_rune c b) (clean_rune c b) k.
Proof.
  intros [a t Ha|a t Ha|w t c' Hw Hh Hu].
  - exists 1%nat. split; [done|]. unfold enc_rune, clean_rune, invalid. destruct (N.ltb_spec (N_of_ascii a) 128); [|lia].
    destruct (N.eqb_spec (N_of_ascii a) RuneError) as [E|]; [unfold RuneError in E; lia|]. by apply emits_ascii.
  - exists 1%nat. split; [done|]. unfold enc_rune, clean_rune. unfold high in Ha. destruct (N.ltb_spec (N_of_ascii a) 128); [lia|]. intros fuel rest. reflexivity.
  - assert (clean_rune c' w = w) as ->.
    { unfold clean_rune, invalid. destruct (Nat.eqb_spec (length w) 1); [lia|]. by rewrite andb_false_r. }
    assert (enc_rune c' w = if (c' =? 0x2028)%N || (c' =? 0x2029)%N then "\u202" ++ hex (N.land c' 15) else w) as -> by (destruct w as [|? [|]]; simpl in Hw; [lia|lia|done]).
    destruct (N.eqb_spec c' 0x2028) as [->|]; [|destruct (N.eqb_spec c' 0x2029) as [->|]].
    + exists 1%nat. split; [lia|]. rewrite Hu. intros fuel rest. reflexivity.
    + exists 1%nat. split; [lia|]. rewrite Hu. intros fuel rest. reflexivity.
    + exists (length w). split; [done|]. by apply emits_high.
Qed.
(** The string that is read is the one that was written, with the replacement character
    for what is not UTF-8. *)
Lemma enc_spec s fuel rest : (length s < fuel)%nat → json_string fuel (enc s ++ quote :: rest) = Some (sanitize s, rest).
Proof.
  revert fuel. induction s as [|c b t Hd Hr Hb IH] using text_rune_ind; intros fuel Hf; [destruct fuel; [simpl in Hf; lia|done]|].
  rewrite (enc_step c), (sanitize_step c) by done. destruct (enc_rune_emits _ _ _ Hr) as (k&Hk&He). rewrite length_app in Hf.
  replace fuel with (k + (fuel - k))%nat by lia. rewrite <-app_assoc, He, IH by lia. done.
Qed.
(** No character of an encoding is a control character. *)
Definition printable (a : ascii) : Prop := (32 <= N_of_ascii a)%N.
Lemma utf8_nonempty c : utf8 c ≠ [].
Proof. unfold utf8. by repeat case_match. Qed.
Lemma ascii_printable a : Forall printable (if plain a then [a] else escape a).
Proof.
  assert (H : forallb (fun a => 32 <=? N_of_ascii a)%N (if plain a then [a] else escape a) = true) by (destruct a as [[] [] [] [] [] [] [] []]; reflexivity).
  apply Forall_forall. intros x Hx%list_elem_of_In. rewrite forallb_forall in H. by apply N.leb_le, H.
Qed.
Lemma enc_printable s : Forall printable (enc s).
Proof.
  induction s as [|c b t Hd Hr Hb IH] using text_rune_ind; [done|]. rewrite (enc_step c) by done. apply Forall_app. split; [|done].
  destruct Hr as [a u Ha|a u Ha|w u c' Hw Hh Hu]; unfold enc_rune.
  - destruct (N.ltb_spec (N_of_ascii a) 128); [apply ascii_printable|lia].
  - unfold high in Ha. destruct (N.ltb_spec (N_of_ascii a) 128); [lia|]. repeat constructor; vm_compute; discriminate.
  - assert (Forall printable w) by (eapply Forall_impl; [exact Hh|]; unfold high, printable; lia).
    destruct w as [|? [|]]; simpl in Hw; [lia|lia|]. destruct (N.eqb_spec c' 0x2028) as [->|]; [|destruct (N.eqb_spec c' 0x2029) as [->|]]; [repeat constructor; vm_compute; discriminate..|done].
Qed.
End strings.

(** ** The loop over the bytes *)

Section writer.
  Implicit Types (s t buf : gostring).

Lemma slice_same s i : slice s i i = [].
Proof. unfold slice. by rewrite Nat.sub_diag, take_0. Qed.
Lemma slice_extend s i j b t : (i <= j)%nat → drop j s = b ++ t → slice s i (j + length b) = slice s i j ++ b.
Proof.
  intros Hij Hd. unfold slice. replace (j + length b - i)%nat with ((j - i) + length b)%nat by lia.
  assert (Hj : drop (j - i) (drop i s) = b ++ t) by (rewrite drop_drop; replace (i + (j - i))%nat with j by lia; done).
  rewrite <-(take_drop (j - i) (drop i s)) at 1. rewrite Hj. destruct (decide (j <= length s)%nat) as [Hl|Hl].
  - rewrite take_app. rewrite (take_ge (take _ _)) by (rewrite length_take; lia). f_equal. rewrite length_take, length_drop.
    replace (j - i + length b - Nat.min (j - i) (length s - i))%nat with (length b) by lia. apply take_app_length.
  - rewrite drop_ge in Hd by lia. destruct b, t; try done. rewrite !app_nil_r. simpl. rewrite Nat.add_0_r, take_take. f_equal. lia.
Qed.
Lemma pending_spec s start i buf : (start <= i)%nat → (if Nat.ltb start i then buf ++ slice s start i else buf) = buf ++ slice s start i.
Proof. intros H. destruct (Nat.ltb_spec start i); [done|]. replace i with start by lia. by rewrite slice_same, app_nil_r. Qed.
(** The optimised loop writes what the runes of the text are encoded to. *)
Lemma json_write_loop fuel s start i buf :
  (start <= i <= length s)%nat → (length s - i < fuel)%nat → write_loop fuel s start i buf = buf ++ slice s start i ++ enc (drop i s) ++ [quote].
Proof.
  revert start i buf. induction fuel as [|fuel IH]; intros start i buf Hi Hf; [lia|]. cbn [write_loop]. destruct (s !! i) as [a|] eqn:Ha.
  2:{ apply lookup_ge_None in Ha. assert (i = length s) as -> by lia. rewrite (drop_ge s (length s)) by lia. simpl. rewrite app_assoc. f_equal.
      unfold slice. rewrite take_ge by (rewrite length_drop; lia). destruct (Nat.ltb_spec start (length s)); [done|]. by rewrite drop_ge, app_nil_r by lia. }
  pose proof (lookup_lt_Some _ _ _ Ha) as Hlt. rewrite pending_spec by lia. pose proof (drop_S s a i Ha) as Hd.
  destruct (DecodeRune_split (drop i s)) as (c&b&t&Hc&Hs&Hr&Hb); [rewrite Hd; done|]. rewrite Hs in Hc. rewrite Hs.
  assert (Ht : drop (i + length b) s = t) by (rewrite <-drop_drop, Hs; apply drop_app_length).
  assert (Hl : (i + length b <= length s)%nat) by (pose proof (f_equal length Hs) as E; rewrite length_drop, length_app in E; lia).
  assert (Hskip : write_loop fuel s start (i + length b) buf = buf ++ slice s start i ++ b ++ enc t ++ [quote]).
  { rewrite IH by lia. rewrite (slice_extend s start i b t), Ht, <-app_assoc by (done || lia). done. }
  assert (Hput : ∀ x, write_loop fuel s (i + length b) (i + length b) ((buf ++ slice s start i) ++ x) = buf ++ slice s start i ++ x ++ enc t ++ [quote]).
  { intros x. rewrite IH by lia. rewrite slice_same, Ht, <-!app_assoc. done. }
  rewrite (enc_step c), Hc by done. rewrite Hs in Hr, Hd. rewrite <-(app_assoc (enc_rune c b) (enc t) [quote]). cbv zeta. clear IH Hc Hs Ht. remember (b ++ t) as bt eqn:Hbt. clear Hbt.
  destruct Hr as [a' u Ha'|a' u Ha'|w u c' Hw Hh Hu]; cbn [enc_rune length] in *.
  - injection Hd as -> _. destruct (N.ltb_spec (N_of_ascii a) 128); [|lia]. rewrite Nat.add_1_r in *. destruct (plain a); [apply Hskip|apply Hput].
  - injection Hd as -> _. unfold high in Ha'. destruct (N.ltb_spec (N_of_ascii a) 128); [lia|]. apply Hput.
  - destruct w as [|x w]; [simpl in Hw; lia|]. injection Hd as -> _. apply Forall_cons in Hh as [Hx Hh]. unfold high in Hx.
    destruct (N.ltb_spec (N_of_ascii a) 128); [lia|]. destruct w as [|y w]; [simpl in Hw; lia|]. cbn [enc_rune].
    destruct (Nat.eqb_spec (length (a :: y :: w)) 1); [done|]. rewrite andb_false_r. destruct ((c' =? 0x2028)%N || (c' =? 0x2029)%N); [apply Hput|apply Hskip].
Qed.
Lemma writer_spec buf s : ffjsonWriteJSONBytesAsString buf s = buf ++ quote :: enc s ++ [quote].
Proof. unfold ffjsonWriteJSONBytesAsString. rewrite json_write_loop by lia. rewrite slice_same, drop_0, <-app_assoc. done. Qed.
End writer.

(** ** Time stamps *)

Section times.
  Local Open Scope Z_scope.
  Implicit Types (s d rest : gostring) (n acc v : Z).

Lemma digit_value n : 0 <= n < 10 → is_digit (digit n) = true ∧ Z.of_N (N_of_ascii (digit n) - 48) = n.
Proof. intros H. assert (n = 0 ∨ n = 1 ∨ n = 2 ∨ n = 3 ∨ n = 4 ∨ n = 5 ∨ n = 6 ∨ n = 7 ∨ n = 8 ∨ n = 9) by lia. by repeat destruct_or?; subst. Qed.
Lemma number_app w d k acc v rest : length d = w → number w acc d = Some (v, []) → number (w + k) acc (d ++ rest) = number k v rest.
Proof.
  revert w acc. induction d as [|c d IH]; intros w acc Hw H; subst w; simpl in *; [by injection H as ->|].
  destruct (is_digit c); [|done]. by apply IH.
Qed.
Lemma padded_length w n : length (padded w n) = w.
Proof. revert n. induction w as [|w IH]; intros n; [done|]. simpl. rewrite length_app, IH. simpl. lia. Qed.
Lemma number_padded w n acc rest : 0 <= n < 10 ^ Z.of_nat w → number w acc (padded w n ++ rest) = Some (acc * 10 ^ Z.of_nat w + n, rest).
Proof.
  revert n acc rest. induction w as [|w IH]; intros n acc rest Hn; [simpl in *; f_equal; f_equal; lia|].
  rewrite Nat2Z.inj_succ, Z.pow_succ_r in * by lia. cbn [padded]. rewrite <-app_assoc.
  replace (S w) with (w + 1)%nat by lia. erewrite number_app; [|apply padded_length|].
  2:{ rewrite <-(app_nil_r (padded w (n / 10))). apply IH. lia. }
  simpl. destruct (digit_value (n mod 10)) as [-> ->]; [lia|]. f_equal. f_equal. lia.
Qed.
Lemma padded_digits w n : 0 <= n → Forall (fun c => is_digit c = true) (padded w n).
Proof.
  revert n. induction w as [|w IH]; intros n Hn; [done|]. simpl. apply Forall_app. split; [apply IH; lia|]. constructor; [|done]. apply digit_value. lia.
Qed.
Lemma number_zeros k acc : number k acc (replicate k "0"%char) = Some (acc * 10 ^ Z.of_nat k, []).
Proof.
  revert acc. induction k as [|k IH]; intros acc; [simpl; f_equal; f_equal; lia|]. cbn [replicate number]. rewrite IH, Nat2Z.inj_succ, Z.pow_succ_r by lia. simpl. f_equal. f_equal. lia.
Qed.
Lemma strip_zeros_spec s : ∃ k, s = strip_zeros s ++ replicate k "0"%char.
Proof.
  induction s as [|c s [k IH]]; [by exists 0%nat|]. simpl. destruct (strip_zeros s) as [|x r].
  - destruct (c =c "0") eqn:E; [apply bool_decide_eq_true in E as ->; exists (S k); by rewrite IH|]. exists k. by rewrite IH.
  - exists k. simpl in *. by rewrite <-IH.
Qed.
Lemma take_while_app f d c rest : Forall (fun c => f c = true) d → f c = false → take_while f (d ++ c :: rest) = d.
Proof. induction 1 as [|x d Hx Hd IH]; intros Hc; simpl; [by rewrite Hc|]. by rewrite Hx, IH. Qed.
Lemma number_some d acc : Forall (fun c => is_digit c = true) d → ∃ v, number (length d) acc d = Some (v, []).
Proof. revert acc. induction d as [|c d IH]; intros acc H; [by eexists|]. apply Forall_cons in H as [Hc Hd]. simpl. rewrite Hc. by apply IH. Qed.
Lemma parse_fraction_spec t rest : 0 <= Nanosecond t < 10 ^ 9 → parse_fraction (fraction t ++ "Z" ++ rest) = Some (Nanosecond t, "Z" ++ rest).
Proof.
  intros Hn. unfold fraction. destruct (strip_zeros_spec (padded 9 (Nanosecond t))) as [k Hk]. set (d := strip_zeros _) in *.
  pose proof (number_padded 9 (Nanosecond t) 0 [] Hn) as Hv. rewrite app_nil_r, Hk in Hv. pose proof (padded_digits 9 (Nanosecond t) ltac:(lia)) as Hd. rewrite Hk in Hd.
  apply Forall_app in Hd as [Hd _]. destruct (number_some d 0 Hd) as [v Hdv]. pose proof (f_equal length Hk) as Hl. rewrite padded_length, length_app, length_replicate in Hl.
  rewrite Hl, (number_app _ d k 0 v), number_zeros in Hv by done. injection Hv as Hv. clearbody d. destruct d as [|x d].
  { assert (v = 0) as -> by (simpl in Hdv; congruence). rewrite Z.mul_0_l in Hv. replace (Nanosecond t) with 0 by lia. reflexivity. }
  unfold parse_fraction. change ((ch "." :: x :: d) ++ "Z" ++ rest) with ("." ++ ((x :: d) ++ "Z" ++ rest)). rewrite strip_prefix_app.
  change ("Z" ++ rest) with ("Z"%char :: rest). rewrite take_while_app by done. destruct (Nat.leb_spec 1 (length (x :: d))); [|simpl in *; lia].
  destruct (Nat.leb_spec (length (x :: d)) 9); [|lia]. cbv zeta. cbn [andb]. rewrite Hdv, drop_app_length. cbn [mbind option_bind]. f_equal. f_equal.
  replace (9 - Z.of_nat (length (x :: d))) with (Z.of_nat k) by lia. lia.
Qed.
Definition four_digit_year (t : Time) : Prop := 0 <= Year t < 10000.
Lemma within_spec lo hi n : within lo hi n = true → lo <= n <= hi.
Proof. unfold within. rewrite andb_true_iff, !Z.leb_le. done. Qed.
Lemma Parse_RFC3339Nano t : four_digit_year t → in_calendar t = true → Parse (RFC3339Nano t) = Some t.
Proof.
  intros Hy Hc. pose proof Hc as Hc'. unfold in_calendar in Hc'. rewrite !andb_true_iff in Hc'. destruct Hc' as [[[[[Hmo%within_spec Hd%within_spec] Hh%within_spec] Hmi%within_spec] Hs%within_spec] Hn%within_spec].
  assert (Day t <= 31) by (unfold daysIn in Hd; repeat case_match; lia). unfold four_digit_year in Hy.
  unfold Parse, RFC3339Nano, date_time, expect. rewrite <-!app_assoc.
  repeat (rewrite number_padded by (simpl; lia); cbn [mbind option_bind]; rewrite ?strip_prefix_app; cbn [mbind option_bind]).
  rewrite <-(app_nil_r "Z"), parse_fraction_spec by lia. cbn [mbind option_bind]. rewrite strip_prefix_app. cbn [mbind option_bind].
  rewrite !Z.mul_0_l, !Z.add_0_l. destruct t. cbv zeta. simpl in *. by rewrite Hc.
Qed.
End times.

(** ** Objects without white space *)

Section compact.
  Implicit Types (s rest txt : gostring) (v : json).

(** A text that is read as a value with [n] units of fuel or more, whatever follows, and the
    inside of a string literal. *)
Definition text_of txt v (n : nat) : Prop := ∀ fuel rest, (n <= fuel)%nat → json_value fuel (txt ++ rest) = Some (v, rest).
Definition inside_of (k : gostring) txt : Prop := ∀ rest, json_string (S (length (txt ++ quote :: rest))) (txt ++ quote :: rest) = Some (k, rest).
Record member := mkMember { m_text : gostring; m_key : gostring; v_text : gostring; m_value : json }.
Definition member_text (m : member) : gostring := quote :: m_text m ++ [quote; ch ":"] ++ v_text m.
Definition object_text (l : list member) : gostring := "{" ++ Join (member_text <$> l) "," ++ "}".
Definition good_member (n : nat) (m : member) : Prop := inside_of (m_key m) (m_text m) ∧ text_of (v_text m) (m_value m) n.

Lemma inside_text k txt : inside_of k txt → text_of (quote :: txt ++ [quote]) (JString k) 1.
Proof.
  intros H [|fuel] rest Hf; [lia|]. simpl app. rewrite <-app_assoc. cbn [json_value app]. rewrite skip_cons by done. change (quote =c "034") with true. cbn match. by rewrite H.
Qed.
Lemma inside_plain s : plain_json s → inside_of s s.
Proof. intros Hs rest. apply json_string_plain; [done|]. rewrite length_app. simpl. lia. Qed.
Lemma inside_esc s : inside_of (sanitize s) (JsonEncode.esc s).
Proof. intros rest. pose proof (quoted_spec s rest) as H. by rewrite <-app_assoc in H. Qed.
Lemma enc_rune_length s c b : rune s c b → (length b <= length (enc_rune c b))%nat.
Proof.
  intros [a t Ha|a t Ha|w t c' Hw Hh Hu]; cbn [enc_rune].
  - assert (H : Nat.leb 1 (length (if plain a then [a] else escape a)) = true) by (destruct a as [[] [] [] [] [] [] [] []]; reflexivity).
    apply Nat.leb_le in H. destruct (N.ltb_spec (N_of_ascii a) 128); [done|simpl; lia].
  - unfold high in Ha. destruct (N.ltb_spec (N_of_ascii a) 128); [lia|simpl; lia].
  - destruct w as [|? [|]]; simpl in Hw; [lia|lia|]. cbn [enc_rune]. destruct (N.eqb_spec c' 0x2028) as [->|]; [rewrite Hu; vm_compute; lia|].
    destruct (N.eqb_spec c' 0x2029) as [->|]; [rewrite Hu; vm_compute; lia|apply Nat.le_refl].
Qed.
Lemma enc_length s : (length s <= length (enc s))%nat.
Proof.
  induction s as [|c b t Hd Hr Hb IH] using text_rune_ind; [done|]. rewrite (enc_step c), !length_app by done. pose proof (enc_rune_length _ _ _ Hr). lia.
Qed.
Lemma inside_enc s : inside_of (sanitize s) (enc s).
Proof. intros rest. apply enc_spec. pose proof (enc_length s). rewrite length_app. simpl. lia. Qed.

Lemma members_compact n l rest fuel : l ≠ [] → Forall (good_member n) l → (n + length l <= fuel)%nat →
  json_members fuel (Join (member_text <$> l) "," ++ "}" ++ rest) = Some ((fun m => (m_key m, m_value m)) <$> l, rest).
Proof.
  intros Hne Hl. revert fuel. induction Hl as [|m l [Hk Hv] Hl IH]; intros fuel Hf; [done|]. destruct fuel as [|fuel]; [simpl in Hf; lia|].
  assert (Hstep : ∀ t, json_members (S fuel) (member_text m ++ t) =
    match skip t with
    | c :: rest => if c =c "}" then Some ([(m_key m, m_value m)], rest)
                   else if c =c "," then '(l, rest) ← json_members fuel rest; Some ((m_key m, m_value m) :: l, rest) else None
    | [] => None
    end).
  { intros t. unfold member_text. simpl app. rewrite <-!app_assoc. cbn [json_members app]. rewrite skip_cons by done. change (quote =c "034") with true. cbn match.
    rewrite Hk. cbn [mbind option_bind]. rewrite skip_cons by done. change (ch ":" =c ":") with true. cbn match. rewrite Hv by (simpl in Hf; lia). done. }
  destruct l as [|m' l].
  - cbn [fmap list_fmap Join]. rewrite Hstep. done.
  - change (Join (member_text <$> m :: m' :: l) ",") with (member_text m ++ "," ++ Join (member_text <$> m' :: l) ","). rewrite <-!app_assoc, Hstep.
    change (skip ("," ++ ?x)) with (ch "," :: x). cbn match. change (ch "," =c "}") with false. change (ch "," =c ",") with true. cbn match.
    rewrite IH by (done || simpl in *; lia). done.
Qed.
Lemma object_compact n l : l ≠ [] → Forall (good_member n) l → text_of (object_text l) (JObject ((fun m => (m_key m, m_value m)) <$> l)) (S (n + length l)).
Proof.
  intros Hne Hl [|fuel] rest Hf; [lia|]. unfold object_text. rewrite <-!app_assoc. cbn [json_value app]. rewrite skip_cons by done.
  change (ch "{" =c "034") with false. change (ch "{" =c "[") with false. change (ch "{" =c "{") with true. cbn match.
  assert (∃ t, Join (member_text <$> l) "," ++ ch "}" :: rest = quote :: t) as [t Ht] by (destruct l as [|? [|]]; [done| |]; by eexists).
  rewrite Ht, skip_cons by done. change (quote =c "}") with false. cbn match. rewrite <-Ht.
  change (ch "}" :: rest) with ("}" ++ rest). rewrite (members_compact n) by (done || lia). done.
Qed.
End compact.

(** ** Entries *)

Section entries.
  Implicit Types (s rest txt attrs log stream : gostring) (t : Time) (v : json).

Lemma digits_plain s : Forall (fun c => is_digit c = true) s → plain_json s.
Proof.
  intros Hs. eapply Forall_impl; [exact Hs|]. intros c Hc. cbv beta in Hc. assert (H : implb (is_digit c) (negb (c =c "034") && negb (c =c "\") && (32 <=? N_of_ascii c)%N) = true) by (destruct c as [[] [] [] [] [] [] [] []]; reflexivity).
  rewrite Hc in H. simpl in H. rewrite !andb_true_iff, !negb_true_iff, N.leb_le in H. destruct H as [[H1%bool_decide_eq_false H2%bool_decide_eq_false] H3]. done.
Qed.
Lemma strip_zeros_sub (P : ascii → Prop) s : Forall P s → Forall P (strip_zeros s).
Proof. intros H. destruct (strip_zeros_spec s) as [k Hk]. rewrite Hk in H. by apply Forall_app in H as [? _]. Qed.
Lemma RFC3339Nano_plain t : four_digit_year t → in_calendar t = true → plain_json (RFC3339Nano t).
Proof.
  intros Hy Hc. unfold in_calendar in Hc. rewrite !andb_true_iff in Hc. destruct Hc as [[[[[Hmo%within_spec Hd%within_spec] Hh%within_spec] Hmi%within_spec] Hs%within_spec] Hn%within_spec].
  unfold four_digit_year in Hy. unfold RFC3339Nano, date_time, fraction, plain_json.
  assert (Hp : ∀ w n, (0 <= n)%Z → plain_json (padded w n)) by (intros; apply digits_plain; by apply padded_digits).
  assert (Hf : Forall (fun c => c ≠ "034"%char ∧ c ≠ ch "\" ∧ (32 <= N_of_ascii c)%N) (strip_zeros (padded 9 (Nanosecond t)))) by (apply strip_zeros_sub, Hp; lia).
  assert (Hf' : plain_json (match strip_zeros (padded 9 (Nanosecond t)) with [] => [] | d => ch "." :: d end)).
  { destruct (strip_zeros (padded 9 (Nanosecond t))); [done|]. by constructor. }
  rewrite !Forall_app. split_and!; first [exact Hf' | apply Hp; lia | apply (bool_decide_eq_true_1 (plain_json _)); vm_compute; reflexivity].
Qed.

(** The members of an entry, and its text. *)
Definition entry_members log stream attrs v t : list member :=
  (if log =s [] then [] else [mkMember "log" "log" (quote :: enc log ++ [quote]) (JString (sanitize log))]) ++
  (if stream =s [] then [] else [mkMember "stream" "stream" (quote :: enc stream ++ [quote]) (JString (sanitize stream))]) ++
  (if attrs =s [] then [] else [mkMember "attrs" "attrs" attrs v]) ++
  [mkMember "time" "time" (quote :: RFC3339Nano t ++ [quote]) (JString (RFC3339Nano t))].
Definition entry_text log stream attrs t : gostring := logs_MarshalJSONBuf (mkLogs log stream (quote :: RFC3339Nano t ++ [quote]) attrs) [].
Lemma entry_object log stream attrs v t : entry_text log stream attrs t = object_text (entry_members log stream attrs v t).
Proof.
  unfold entry_text, logs_MarshalJSONBuf, entry_members, ffjsonWriteJSONString, object_text. cbn [ls_Log ls_Stream ls_Created RawAttrs].
  destruct (log =s []), (stream =s []), (attrs =s []); cbn [comma app fmap list_fmap Join]; rewrite ?writer_spec; unfold member_text, field_name; cbn [m_text v_text app];
    repeat (rewrite <-?app_assoc; cbn [app]); reflexivity.
Qed.
(** Attributes that are left out, or a text that is read as some value. *)
Definition good_attrs attrs : Prop := attrs = [] ∨ Forall printable attrs ∧ ∃ v n, text_of attrs v n ∧ (n <= length attrs)%nat.
Definition good_time t : Prop := four_digit_year t ∧ in_calendar t = true.
Lemma entry_good log stream attrs v n t : good_time t → (attrs = [] ∨ text_of attrs v n) → Forall (good_member (S n)) (entry_members log stream attrs v t).
Proof.
  intros [Hy Hc] Ha. assert (Hm : ∀ txt w k, (k <= S n)%nat → text_of txt w k → text_of txt w (S n)) by (intros txt w k Hk H fuel rest Hf; apply H; lia).
  assert (Hs : ∀ s, text_of (quote :: enc s ++ [quote]) (JString (sanitize s)) (S n)) by (intros s; eapply (Hm _ _ 1); [lia|]; apply inside_text, inside_enc).
  unfold entry_members. repeat apply Forall_app_2; repeat case_match; constructor; try done; (split; [by apply inside_plain, (bool_decide_eq_true_1 (plain_json _))|]); cbn [v_text m_value]; try apply Hs.
  - destruct Ha as [->|Ha]; [done|]. by apply (Hm _ _ n); [lia|].
  - eapply (Hm _ _ 1); [lia|]. by apply inside_text, inside_plain, RFC3339Nano_plain.
Qed.
Lemma set_log l s : set_field l ("log" : gostring, JString s) = Some (mkLog s (Stream l) (Created l)).
Proof. reflexivity. Qed.
Lemma set_stream l s : set_field l ("stream" : gostring, JString s) = Some (mkLog (Log l) s (Created l)).
Proof. reflexivity. Qed.
Lemma set_attrs l v : set_field l ("attrs" : gostring, v) = Some l.
Proof. reflexivity. Qed.
Lemma set_time t l : four_digit_year t → in_calendar t = true → set_field l ("time" : gostring, JString (RFC3339Nano t)) = Some (mkLog (Log l) (Stream l) t).
Proof.
  intros Hy Hc. transitivity (t' ← Parse (RFC3339Nano t); Some (mkLog (Log l) (Stream l) t')); [reflexivity|]. by rewrite Parse_RFC3339Nano.
Qed.
Lemma entry_decodes log stream attrs v t : good_time t →
  decode_into (JObject ((fun m => (m_key m, m_value m)) <$> entry_members log stream attrs v t)) = Some (mkLog (sanitize log) (sanitize stream) t).
Proof.
  intros [Hy Hc]. pose proof (set_time t (mkLog (sanitize log) (sanitize stream) zeroTime) Hy Hc) as Ht. unfold decode_into, entry_members.
  destruct (log =s []) eqn:El, (stream =s []) eqn:Es, (attrs =s []); cbn [app fmap list_fmap foldl m_key m_value mbind option_bind];
    rewrite ?set_log, ?set_stream, ?set_attrs; cbn [mbind option_bind]; rewrite ?set_stream, ?set_attrs; cbn [mbind option_bind]; rewrite ?set_attrs; cbn [mbind option_bind];
    try apply bool_decide_eq_true in El as ->; try apply bool_decide_eq_true in Es as ->; exact Ht.
Qed.
Lemma member_text_length l : (3 * length l + length (flat_map v_text l) <= length (Join (member_text <$> l) ","))%nat.
Proof.
  induction l as [|m [|m' l] IH]; [done| |].
  - cbn [fmap list_fmap Join flat_map]. unfold member_text. cbn [length]. rewrite !length_app. cbn [length]. lia.
  - change (Join (member_text <$> m :: m' :: l) ",") with (member_text m ++ "," ++ Join (member_text <$> m' :: l) ",").
    cbn [flat_map] in *. rewrite !length_app in *. unfold member_text at 1. cbn [length] in *. rewrite !length_app. cbn [length]. lia.
Qed.
(** An entry is read as a value with the fuel of its length. *)
Lemma entry_reads log stream attrs t : good_time t → good_attrs attrs →
  ∃ w, text_of (entry_text log stream attrs t) w (length (entry_text log stream attrs t)) ∧ decode_into w = Some (mkLog (sanitize log) (sanitize stream) t).
Proof.
  intros Ht Ha. assert (∃ v n, (attrs = [] ∨ text_of attrs v n) ∧ (n <= length attrs)%nat) as (v&n&Hv&Hn).
  { destruct Ha as [->|(_&v&n&Hv&Hn)]; [exists JNull, 0%nat; auto|exists v, n; auto]. }
  exists (JObject ((fun m => (m_key m, m_value m)) <$> entry_members log stream attrs v t)). split; [|by apply entry_decodes].
  rewrite (entry_object log stream attrs v). intros fuel rest Hf. set (l := entry_members log stream attrs v t) in *.
  assert (Hl : l ≠ []) by (unfold l, entry_members; intros H; by apply app_nil in H as [_ [_ [_ ?]%app_nil]%app_nil]).
  apply (object_compact (S n)); [done|by apply entry_good|]. pose proof (member_text_length l) as Hlen. unfold object_text in Hf. rewrite !length_app in Hf. cbn [length] in Hf.
  assert (length attrs <= length (flat_map v_text l))%nat.
  { unfold l, entry_members. rewrite !flat_map_app, !length_app. destruct (decide (attrs = [])) as [->|Hne]; [simpl; lia|].
    assert (attrs =s [] = false) as -> by (apply bool_decide_eq_false; done). cbn [flat_map v_text]. rewrite length_app. lia. }
  assert (0 < length l)%nat by (destruct l; [done|simpl; lia]). lia.
Qed.
(** An entry is one line. *)
Lemma plain_printable s : plain_json s → Forall printable s.
Proof. intros Hs. eapply Forall_impl; [exact Hs|]. by intros c (_&_&?). Qed.
Lemma Join_Forall {P : ascii → Prop} l sep : Forall P sep → Forall (Forall P) l → Forall P (Join l sep).
Proof. intros Hs. induction 1 as [|x [|y l] Hx Hl IH]; [done|done|]. change (Join (x :: y :: l) sep) with (x ++ sep ++ Join (y :: l) sep). rewrite !Forall_app. done. Qed.
Lemma entry_printable log stream attrs t : good_time t → good_attrs attrs → Forall printable (entry_text log stream attrs t).
Proof.
  intros [Hy Hc] Ha. rewrite (entry_object _ _ _ JNull). assert (Hlit : ∀ s, bool_decide (plain_json s) = true → Forall printable s) by (intros s Hs%bool_decide_eq_true; by apply plain_printable).
  assert (Hq : printable quote) by (vm_compute; discriminate). unfold object_text. rewrite !Forall_app. split_and!; [by apply Hlit| |by apply Hlit].
  apply Join_Forall; [by apply Hlit|]. apply Forall_fmap. unfold entry_members.
  assert (Hm : ∀ k txt v, bool_decide (plain_json k) = true → Forall printable txt → (Forall printable ∘ member_text) (mkMember k k txt v)).
  { intros k txt v Hk Htxt. simpl. unfold member_text. constructor; [done|]. cbn [m_text v_text]. rewrite !Forall_app. split_and!; [by apply Hlit| |done]. repeat constructor; [done|vm_compute; discriminate]. }
  assert (Hstr : ∀ s, Forall printable (quote :: enc s ++ [quote])) by (intros s; constructor; [done|]; apply Forall_app; split; [apply enc_printable|by constructor]).
  repeat apply Forall_app_2; repeat case_match; constructor; try done; apply Hm; try reflexivity; try apply Hstr.
  - by destruct Ha as [->|[? _]].
  - constructor; [done|]. apply Forall_app. split; [by apply plain_printable, RFC3339Nano_plain|by constructor].
Qed.

(** Texts of entries in a row, each behind a newline; a newline may follow. *)
Definition nl : gostring := ["010"%char].
Definition is_entry txt (l : JSONLog) : Prop :=
  (∃ w, text_of txt w (length txt) ∧ decode_into w = Some l) ∧ ∃ u, txt = ch "{" :: u.
Lemma decode_entry txt l fuel ws rest : (ws = [] ∨ ws = nl) → is_entry txt l →
  decode_all (S fuel) (ws ++ txt ++ rest) = let '(ls, e) := decode_all fuel rest in (l :: ls, e).
Proof.
  intros Hws ((w&Hw&Hl)&u&->). assert (Hskip : skip (ws ++ (ch "{" :: u) ++ rest) = (ch "{" :: u) ++ rest) by (by destruct Hws as [->| ->]).
  assert (Hval : json_value (decode_fuel (ws ++ (ch "{" :: u) ++ rest)) (ws ++ (ch "{" :: u) ++ rest) = Some (w, rest)).
  { unfold decode_fuel. replace (2 * length (ws ++ (ch "{" :: u) ++ rest) + 2)%nat with (S (S (2 * length (ws ++ (ch "{" :: u) ++ rest))))%nat by lia.
    rewrite <-(Hw (S (S (2 * length (ws ++ (ch "{" :: u) ++ rest)))) rest) by (rewrite !length_app; lia). destruct Hws as [->| ->]; reflexivity. }
  cbn [decode_all]. rewrite Hskip. cbn [app]. cbn [app] in Hval. rewrite Hval, Hl. done.
Qed.
Lemma decode_entries txts ls tail fuel : (tail = [] ∨ tail = nl) → Forall2 is_entry txts ls → (length txts < fuel)%nat →
  decode_all fuel (flat_map (fun e => nl ++ e) txts ++ tail) = (ls, None).
Proof.
  intros Ht Hl. revert fuel. induction Hl as [|x l txts ls Hx Hl IH]; intros fuel Hf; (destruct fuel as [|fuel]; [simpl in Hf; lia|]).
  - by destruct Ht as [->| ->].
  - cbn [flat_map]. rewrite <-!app_assoc. rewrite (decode_entry x l) by auto. rewrite IH by (simpl in Hf; lia). done.
Qed.
Lemma entry_is_entry log stream attrs t : good_time t → good_attrs attrs → is_entry (entry_text log stream attrs t) (mkLog (sanitize log) (sanitize stream) t).
Proof. intros Ht Ha. split; [by apply entry_reads|]. rewrite (entry_object _ _ _ JNull). by eexists. Qed.
(** A file of entries that end with newlines, and entries joined with newlines. *)
Lemma DecodeAll_lines txts ls : Forall2 is_entry txts ls → DecodeAll (flat_map (fun e => e ++ nl) txts) = (ls, None).
Proof.
  intros Hl. destruct Hl as [|x l txts ls Hx Hl]; [done|]. unfold DecodeAll.
  assert (Heq : flat_map (fun e => e ++ nl) (x :: txts) = [] ++ x ++ (flat_map (fun e => nl ++ e) txts ++ nl)).
  { cbn [flat_map app]. rewrite <-app_assoc. f_equal. clear. induction txts as [|y txts IH]; [done|]. cbn [flat_map]. rewrite <-!app_assoc. do 2 f_equal. exact IH. }
  rewrite Heq. rewrite (decode_entry x l), (decode_entries txts ls) by (auto || (clear -txts; cbn [app]; rewrite !length_app; induction txts as [|y txts IH]; cbn [flat_map length] in *; rewrite ?length_app in *; simpl in *; lia)).
  done.
Qed.
Lemma DecodeAll_joined txts ls : Forall2 is_entry txts ls → DecodeAll (Join txts nl) = (ls, None).
Proof.
  intros Hl. destruct Hl as [|x l txts ls Hx Hl]; [done|]. unfold DecodeAll.
  assert (Heq : Join (x :: txts) nl = [] ++ x ++ (flat_map (fun e => nl ++ e) txts ++ [])).
  { rewrite app_nil_r. cbn [app]. clear. revert x. induction txts as [|y txts IH]; intros x; [by rewrite app_nil_r|]. change (Join (x :: y :: txts) nl) with (x ++ nl ++ Join (y :: txts) nl). rewrite IH. cbn [flat_map]. by rewrite <-!app_assoc. }
  rewrite Heq. destruct Hx as [Hx (u&Hu)]. rewrite (decode_entry x l), (decode_entries txts ls); [done|auto|done| |auto|by split; eauto].
  rewrite Hu. cbn [app length]. rewrite !length_app. clear. induction txts as [|y txts IH]; cbn [flat_map length] in *; rewrite ?length_app in *; simpl in *; lia.
Qed.
End entries.
