(* ===== verification/JsonFileLog.v ===== *)
(** * JsonFileLog: the logs of a container

    The way of a container's output to [docker logs]: the copier that cuts it into lines
    ([src/daemon/logger/copier.go]), the JSON log ([jsonfilelog/jsonfilelog.go]) with the
    files it rotates ([loggerutils/rotatefilewriter.go]), the reader of these files
    ([jsonfilelog/read.go], without following) and [ContainerLogs] of
    [src/daemon/logs.go].

    Calls of the file system may fail, as an argument tells.  Of the files with a path only
    the log and its numbered copies matter: they are a map from numbers to contents, zero
    being the log itself.  The open file is always this one. *)

From S2P Require Import Prelude Strconv Regexp Opts Ioutils Json JsonEncode CliConfig JsonLog StdCopy.
Import Strings Strconv JsonLog Time.

Local Open Scope Z_scope.

(** ** Files that are rotated *)

Module Rotate.

Inductive fsop := FClose | FStat | FRemove (n : nat) | FRename (a b : nat) | FOpen | FWrite.
Definition faults := fsop → option gostring.
Inductive rotateError := NotExist | FileClosed | Failed (e : gostring).
Record RotateFileWriter := mkWriter { files : gmap nat gostring; closed : bool; capacity : Z; maxFiles : Z }.
Definition set_files (fs : gmap nat gostring) (w : RotateFileWriter) : RotateFileWriter := mkWriter fs (closed w) (capacity w) (maxFiles w).

(** [NewRotateFileWriter] opens the log and keeps what is in it. *)
Definition NewRotateFileWriter (io : faults) (fs : gmap nat gostring) (cap max : Z) : result rotateError RotateFileWriter :=
  match io FOpen with
  | Some e => Err (Failed e)
  | None => Ok (mkWriter (<[0%nat := default [] (fs !! 0%nat)]> fs) false cap max)
  end.
(** [backup] renames a file; one that is in the way is removed. *)
Definition backup (io : faults) (from to : nat) (fs : gmap nat gostring) : gmap nat gostring * option rotateError :=
  match fs !! from with
  | None => (fs, Some NotExist)
  | Some data =>
      match fs !! to, io (FRemove to) with
      | Some _, Some e => (fs, Some (Failed e))
      | _, _ =>
          let fs := delete to fs in
          match io (FRename from to) with
          | Some e => (fs, Some (Failed e))
          | None => (<[to := data]> (delete from fs), None)
          end
      end
  end.
(** The loop of [rotate], from [i] down to two. *)
Fixpoint rotate_loop (io : faults) (i : nat) (fs : gmap nat gostring) : gmap nat gostring * option rotateError :=
  match i with
  | S (S _ as j) =>
      match backup io j i fs with
      | (fs, Some (Failed e)) => (fs, Some (Failed e))
      | (fs, _) => rotate_loop io j fs
      end
  | _ => (fs, None)
  end.
Definition rotate (io : faults) (max : Z) (fs : gmap nat gostring) : gmap nat gostring * option rotateError :=
  if max <? 2 then (fs, None)
  else
    match rotate_loop io (Z.to_nat (max - 1)) fs with
    | (fs, Some e) => (fs, Some e)
    | (fs, None) => backup io 0 1 fs
    end.
Definition size_of (w : RotateFileWriter) : Z := Z.of_nat (length (default [] (files w !! 0%nat))).
(** [checkCapacityAndRotate]: the log is closed before it is renamed, and opened anew. *)
Definition checkCapacityAndRotate (io : faults) (w : RotateFileWriter) : RotateFileWriter * option rotateError :=
  if capacity w =? -1 then (w, None)
  else if closed w then (w, Some FileClosed)
  else
    match io FStat with
    | Some e => (w, Some (Failed e))
    | None =>
        if capacity w <=? size_of w then
          match io FClose with
          | Some e => (w, Some (Failed e))
          | None =>
              let w := mkWriter (files w) true (capacity w) (maxFiles w) in
              match rotate io (maxFiles w) (files w) with
              | (fs, Some e) => (set_files fs w, Some e)
              | (fs, None) =>
                  match io FOpen with
                  | Some e => (set_files fs w, Some (Failed e))
                  | None => (mkWriter (<[0%nat := []]> fs) false (capacity w) (maxFiles w), None)
                  end
              end
          end
        else (w, None)
    end.
Definition Write (io : faults) (message : gostring) (w : RotateFileWriter) : RotateFileWriter * option rotateError :=
  match checkCapacityAndRotate io w with
  | (w, Some e) => (w, Some e)
  | (w, None) =>
      if closed w then (w, Some FileClosed)
      else match io FWrite with
           | Some e => (w, Some (Failed e))
           | None => (set_files (<[0%nat := default [] (files w !! 0%nat) ++ message]> (files w)) w, None)
           end
  end.
End Rotate.

(** ** The logger *)

Module Logger.
Import Rotate.

Record Message := mkMsg { Line : gostring; Source : gostring; Timestamp : Time }.
(** What [New] uses of [logger.Context]. *)
Record Context := mkContext { Config : gmap gostring gostring; ContainerEnv : list gostring; ContainerLabels : gmap gostring gostring }.
Record JSONFileLogger := mkLogger { writer : RotateFileWriter; extra : gostring }.
Inductive logError := BadSize (e : goerror) | BadMaxFile (e : goerror) | FileError (e : rotateError) | BadYear | UnknownOpt (k : gostring).

(** [ExtraAttributes] without a function for the keys. *)
Definition pick (m : gmap gostring gostring) (names : gostring) (acc : gmap gostring gostring) : gmap gostring gostring :=
  foldl (fun acc l => match m !! l with Some v => <[l := v]> acc | None => acc end) acc (Split names ",").
Definition envMapping (env : list gostring) : gmap gostring gostring :=
  foldl (fun m e => match SplitN e "=" 2 with [k; v] => <[k := v]> m | _ => m end) ∅ env.
Definition ExtraAttributes (ctx : Context) : gmap gostring gostring :=
  let acc := match Config ctx !! ("labels" : gostring) with Some (c :: l) => pick (ContainerLabels ctx) (c :: l) ∅ | _ => ∅ end in
  match Config ctx !! ("env" : gostring) with Some (c :: l) => pick (envMapping (ContainerEnv ctx)) (c :: l) acc | _ => acc end.
(** [json.Marshal] of a map of strings. *)
Definition Marshal (m : gmap gostring gostring) : gostring :=
  "{" ++ Join ((fun kv => JsonEncode.quoted kv.1 ++ ":" ++ JsonEncode.quoted kv.2) <$> merge_sort CliConfig.key_le (map_to_list m)) "," ++ "}".
(** [units.FromHumanSize]. *)
Definition decimalMap (u : gostring) : option Z :=
  if u =s "k" then Some (10 ^ 3) else if u =s "m" then Some (10 ^ 6)
  else if u =s "g" then Some (10 ^ 9) else if u =s "t" then Some (10 ^ 12)
  else if u =s "p" then Some (10 ^ 15) else None.
Definition FromHumanSize (s : gostring) : result goerror Z :=
  match Regexp.FullMatch Units.sizeRegex s with
  | None => Err (Errorf "invalid size: '%s'" [s])
  | Some m =>
      let! size := num_result (ParseInt (Regexp.group m 1) 10 64) in
      match decimalMap (ToLower (Regexp.group m 2)) with
      | Some mul => Ok (to_int64 (size * mul))
      | None => Ok size
      end
  end.
Definition New (io : faults) (fs : gmap nat gostring) (ctx : Context) : result logError JSONFileLogger :=
  let! capval := match Config ctx !! ("max-size" : gostring) with
                 | None => Ok (-1)
                 | Some c => match FromHumanSize c with Ok n => Ok n | Err e => Err (BadSize e) end
                 end in
  let! maxFiles := match Config ctx !! ("max-file" : gostring) with
                   | None => Ok 1
                   | Some c => match num_result (Atoi c) with
                               | Err e => Err (BadMaxFile e)
                               | Ok n => if n <? 1 then Err (BadMaxFile (Errorf "max-file cannot be less than 1" [])) else Ok n
                               end
                   end in
  match NewRotateFileWriter io fs capval maxFiles with
  | Err e => Err (FileError e)
  | Ok w => let attrs := ExtraAttributes ctx in Ok (mkLogger w (if bool_decide (attrs = ∅) then [] else Marshal attrs))
  end.
Definition nl : gostring := ["010"%char].
Definition Log (io : faults) (msg : Message) (l : JSONFileLogger) : JSONFileLogger * option logError :=
  match FastTimeMarshalJSON (Timestamp msg) with
  | None => (l, Some BadYear)
  | Some timestamp =>
      let buf := logs_MarshalJSONBuf (mkLogs (Line msg ++ nl) (Source msg) timestamp (extra l)) [] ++ nl in
      let '(w, e) := Write io buf (writer l) in
      (mkLogger w (extra l), FileError <$> e)
  end.
(** [ValidateLogOpt]: the names that are known. *)
Definition ValidateLogOpt (cfg : list gostring) : option logError :=
  UnknownOpt <$> find (fun k => negb (bool_decide (k ∈ ["max-file" : gostring; "max-size" : gostring; "labels" : gostring; "env" : gostring]))) cfg.

(** ** The reader *)

Inductive readError := OpenFailed (e : gostring) | LogMissing | TailFailed (e : TailFile.tailError) | DecodeFailed (e : decodeError).
Record ReadConfig := mkRead { Since : Time; Tail : Z }.
Section read.
  (** The size of the blocks of [TailFile] and of the buffer of the decoder. *)
  Context (blockSize : nat).

(** The files of [readLogs], from the oldest on; the ones that are not there are skipped. *)
Fixpoint open_files (i : nat) (fs : gmap nat gostring) : list ReadSeeker.reader :=
  match i with
  | O => []
  | S j => match fs !! i with Some data => [ReadSeeker.mkReader data 0] | None => [] end ++ open_files j fs
  end.
Definition decodeLogLine (l : JSONLog) : Message := mkMsg (JsonLog.Log l) (Stream l) (Created l).
Definition keep (since : Time) (m : Message) : bool := IsZero since || negb (Before (Timestamp m) since).
(** Reading to the end, as the decoder does. *)
Fixpoint read_to_end `{ReadSeeker.ReadSeeker R} (fuel : nat) (r : R) : gostring :=
  match fuel with
  | O => []
  | S fuel => match ReadSeeker.Read blockSize r with (r, ReadSeeker.RData d) => d ++ read_to_end fuel r | _ => [] end
  end.
Definition tailFile (fuel : nat) (f : ReadSeeker.reader + MultiReader.multiReadSeeker) (tail : Z) (since : Time) : list Message * option readError :=
  let decode text := let '(ls, e) := DecodeAll text in (List.filter (keep since) (decodeLogLine <$> ls), DecodeFailed <$> e) in
  if 0 <? tail then
    match (TailFile.TailFile blockSize f tail).2 with
    | Err e => ([], Some (TailFailed e))
    | Ok ls => decode (Join ls nl)
    end
  else decode (read_to_end fuel f).
(** [readLogs] without [Follow]. *)
Definition readLogs (config : ReadConfig) (l : JSONFileLogger) : list Message * option readError :=
  let fs := files (writer l) in
  match fs !! 0%nat with
  | None => ([], Some LogMissing)
  | Some data =>
      let opened := open_files (Z.to_nat (maxFiles (writer l) - 1)) fs ++ [ReadSeeker.mkReader data 0] in
      let fuel := S (length (concat (ReadSeeker.content <$> opened))) in
      if Tail config =? 0 then ([], None) else tailFile fuel (MultiReader.MultiReadSeeker opened) (Tail config) (Since config)
  end.

(** ** [ContainerLogs] *)

Record LogsConfig := mkLogsConfig { Timestamps : bool; lc_Tail : gostring; lc_Since : Time; UseStdout : bool; UseStderr : bool }.
Definition log_line (config : LogsConfig) (m : Message) : gostring :=
  (if Timestamps config then RFC3339NanoFixed (Timestamp m) ++ " " else []) ++ Line m.
(** The writes of a message: to which stream, and what. *)
Definition show (config : LogsConfig) (m : Message) : list (Z * gostring) :=
  (if (Source m =s "stdout") && UseStdout config then [(StdCopy.Stdout, log_line config m)] else []) ++
  (if (Source m =s "stderr") && UseStderr config then [(StdCopy.Stderr, log_line config m)] else []).
Definition tail_lines (config : LogsConfig) : Z := match num_result (Atoi (lc_Tail config)) with Ok n => n | Err _ => -1 end.
(** The writes, in their order; without a terminal each is a frame of the stream. *)
Definition ContainerLogs (config : LogsConfig) (l : JSONFileLogger) : result gostring (list (Z * gostring)) :=
  if negb (UseStdout config || UseStderr config) then Err "You must choose at least one stream"
  else Ok (flat_map (show config) (readLogs (mkRead (lc_Since config) (tail_lines config)) l).1).
End read.

(** ** The copier *)

(** [ReadBytes] up to a newline; without one, what there is. *)
Fixpoint ReadBytes (s : gostring) : gostring * option gostring :=
  match s with
  | [] => ([], None)
  | c :: s => if c =c "010" then ([c], Some s) else let '(line, r) := ReadBytes s in (c :: line, r)
  end.
Fixpoint copy_loop (fuel : nat) (s : gostring) : list gostring :=
  match fuel with
  | O => []
  | S fuel =>
      let '(line, r) := ReadBytes s in
      let line := TrimSuffix line nl in
      match r with
      | Some s => line :: copy_loop fuel s
      | None => if line =s [] then [] else [line]
      end
  end.
(** The lines of [copySrc], until the end of the source. *)
Definition copySrc (s : gostring) : list gostring := copy_loop (S (length s)) s.
End Logger.
