(* ===== verification/JsonFileLogFacts.v ===== *)
(** * JsonFileLogFacts: what a container writes is what [docker logs] shows *)

From S2P Require Import Prelude Strconv Ioutils IoutilsFacts Json Utf8 JsonEncode JsonLog JsonLogFacts JsonFileLog StdCopy.
Import Strings Utf8.Utf8 JsonLog Time Rotate Logger.

Local Open Scope Z_scope.

(** ** Rotation

    Without errors of the file system the files are a list of segments, the newest first:
    a write goes to the first one, or to a new one before it when the first one is full,
    and of the segments no more than the maximum are kept. *)

Section rotation.
  Implicit Types (fs : gmap nat gostring) (segs : list (list gostring)) (w : RotateFileWriter).

Definition no_faults : faults := fun _ => None.
Definition full (cap : Z) (seg : list gostring) : bool := negb (cap =? -1) && (cap <=? Z.of_nat (length (concat seg))).
Definition rot {A} (text : A → gostring) (cap max : Z) (segs : list (list A)) (e : A) : list (list A) :=
  match segs with
  | [] => [[e]]
  | seg :: rest => if full cap (text <$> seg) then take (Z.to_nat max) ([e] :: segs) else (seg ++ [e]) :: rest
  end.
(** A writer whose files hold the segments. *)
Definition holds w segs : Prop :=
  closed w = false ∧ (∀ i, files w !! i = @concat ascii <$> segs !! i) ∧ (1 <= length segs <= Z.to_nat (maxFiles w))%nat.

Lemma rotate_loop_spec n fs : (∀ i, (1 <= i < n)%nat → fs !! i = None → fs !! S i = None) →
  ∃ fs', rotate_loop no_faults n fs = (fs', None) ∧
    ∀ i, fs' !! i = if Nat.eqb i 0 || Nat.ltb n i || Nat.leb n 1 then fs !! i else if Nat.eqb i 1 then None else fs !! pred i.
Proof.
  revert fs. induction n as [|[|m] IH]; intros fs Hfs.
  1,2: by exists fs; split; [done|]; intros i; rewrite !orb_true_r.
  cbn [rotate_loop]. set (j := S m) in *.
  assert (∃ fs1 e, backup no_faults j (S j) fs = (fs1, e) ∧ (∀ x, e ≠ Some (Failed x)) ∧ fs1 !! S j = fs !! j ∧ fs1 !! j = None ∧ ∀ i, i ≠ j → i ≠ S j → fs1 !! i = fs !! i)
    as (fs1&e&->&He&H1&H2&H3).
  { unfold backup. destruct (fs !! j) as [d|] eqn:Hd.
    - exists (<[S j := d]> (delete j (delete (S j) fs))), None. split_and!; [by destruct (fs !! S j)|done|apply lookup_insert_eq| |].
      + rewrite lookup_insert_ne, lookup_delete_eq by lia. done.
      + intros i Hi Hi'. rewrite lookup_insert_ne, !lookup_delete_ne by lia. done.
    - exists fs, (Some NotExist). split_and!; [done..| |done|done]. apply Hfs; [lia|done]. }
  destruct (IH fs1) as (fs'&Hr&Hfs').
  { intros i Hi Hn. destruct (decide (S i = j)) as [<-|]; [done|]. rewrite H3 in Hn |- * by lia. apply Hfs; [lia|done]. }
  exists fs'. split; [destruct e as [[]|]; [done|done|by destruct (He e)|done]|]. intros i. rewrite Hfs'.
  destruct (Nat.eqb_spec i 0) as [->|]; [simpl; apply H3; lia|]. cbn [orb]. destruct (Nat.leb_spec (S j) 1); [lia|].
  destruct (Nat.ltb_spec (S j) i).
  { destruct (Nat.ltb_spec j i); [|lia]. cbn [orb]. apply H3; lia. }
  destruct (Nat.ltb_spec j i).
  { assert (i = S j) as -> by lia. cbn [orb]. rewrite H1. destruct (Nat.eqb_spec (S j) 1); [lia|done]. }
  cbn [orb]. destruct (Nat.leb_spec j 1).
  { assert (i = j) as -> by lia. rewrite H2. destruct (Nat.eqb_spec j 1); [done|lia]. }
  destruct (Nat.eqb_spec i 1); [done|]. apply H3; lia.
Qed.
Lemma rotate_spec max fs d : 1 <= max → fs !! 0%nat = Some d → (∀ i, fs !! i = None → fs !! S i = None) → (∀ i, (Z.to_nat max <= i)%nat → fs !! i = None) →
  ∃ fs', rotate no_faults max fs = (fs', None) ∧ ∀ i, fs' !! S i = if Nat.ltb (S i) (Z.to_nat max) then fs !! i else None.
Proof.
  intros Hmax H0 Hc Hm. unfold rotate. destruct (Z.ltb_spec max 2).
  { exists fs. split; [done|]. intros i. destruct (Nat.ltb_spec (S i) (Z.to_nat max)); [lia|]. apply Hm. lia. }
  destruct (rotate_loop_spec (Z.to_nat (max - 1)) fs) as (fs1&->&Hfs1); [intros; by apply Hc|].
  assert (fs1 !! 0%nat = Some d) as Hd by (rewrite Hfs1; done). unfold backup. rewrite Hd.
  exists (<[1%nat := d]> (delete 0%nat (delete 1%nat fs1))). split; [by destruct (fs1 !! 1%nat)|]. intros i. destruct (decide (i = 0%nat)) as [->|Hi].
  { rewrite lookup_insert_eq, H0. destruct (Nat.ltb_spec 1 (Z.to_nat max)); [done|lia]. }
  rewrite lookup_insert_ne, !lookup_delete_ne, Hfs1 by lia. cbn [Nat.eqb orb]. destruct (Nat.ltb_spec (Z.to_nat (max - 1)) (S i)).
  { destruct (Nat.ltb_spec (S i) (Z.to_nat max)); [lia|]. cbn [orb]. apply Hm. lia. }
  destruct (Nat.ltb_spec (S i) (Z.to_nat max)); [|lia]. cbn [orb]. destruct (Nat.leb_spec (Z.to_nat (max - 1)) 1); [lia|].
  destruct i as [|i]; [done|]. done.
Qed.
(** The files implement the list of segments. *)
Lemma Write_holds w segs e : holds w segs → 1 <= maxFiles w →
  ∃ w', Write no_faults e w = (w', None) ∧ holds w' (rot id (capacity w) (maxFiles w) segs e) ∧ capacity w' = capacity w ∧ maxFiles w' = maxFiles w.
Proof.
  intros (Hcl&Hf&Hlen) Hmax. destruct segs as [|seg segs]; [simpl in Hlen; lia|]. pose proof (Hf 0%nat) as H0. simpl in H0.
  unfold Write, checkCapacityAndRotate, rot, full. rewrite Hcl. unfold size_of. rewrite H0. change (default [] (Some (concat seg))) with (concat seg). cbn [no_faults]. rewrite list_fmap_id.
  destruct (Z.eqb_spec (capacity w) (-1)) as [Hcap|Hcap]; [|destruct (Z.leb_spec (capacity w) (Z.of_nat (length (concat seg))))]; cbn [negb andb].
  1,3: rewrite Hcl, H0; eexists; split_and!; [done| |done|done]; split; [exact Hcl|]; split; [|exact Hlen].
  1,2: intros [|i]; cbn [files set_files]; [rewrite lookup_insert_eq; simpl; by rewrite concat_app; simpl; rewrite app_nil_r|rewrite lookup_insert_ne by lia; apply (Hf (S i))].
  destruct (rotate_spec (maxFiles w) (files w) (concat seg)) as (fs'&Hr&Hfs'); [done|done| | |].
  { intros i Hi. rewrite Hf in Hi |- *. apply fmap_None in Hi. rewrite (proj2 (fmap_None _ _)); [done|]. apply lookup_ge_None in Hi. apply lookup_ge_None. lia. }
  { intros i Hi. rewrite Hf. rewrite (proj2 (fmap_None _ _)); [done|]. apply lookup_ge_None. lia. }
  cbn [maxFiles files closed]. rewrite Hr. cbn [closed files]. rewrite lookup_insert_eq. change (default [] (Some []) ++ e) with e. eexists. split_and!; [done| |done|done].
  split; [done|]. split.
  - intros [|i]; cbn [files set_files].
    + rewrite lookup_insert_eq, lookup_take_lt by lia. simpl. by rewrite app_nil_r.
    + rewrite !lookup_insert_ne, Hfs' by lia. destruct (Nat.ltb_spec (S i) (Z.to_nat (maxFiles w))); [rewrite lookup_take_lt by lia; apply Hf|]. rewrite lookup_take_ge by lia. done.
  - cbn [maxFiles set_files]. rewrite length_take. simpl in *. lia.
Qed.
End rotation.

(** ** The attributes *)

Section attributes.
  Implicit Types (m : gmap gostring gostring).

Lemma esc_char_printable c : Forall printable (JsonEncode.esc_char c).
Proof.
  assert (H : forallb (fun a => 32 <=? N_of_ascii a)%N (JsonEncode.esc_char c) = true) by (destruct c as [[] [] [] [] [] [] [] []]; reflexivity).
  apply Forall_forall. intros x Hx%list_elem_of_In. rewrite forallb_forall in H. by apply N.leb_le, H.
Qed.
Lemma esc_printable (s : gostring) : Forall printable (JsonEncode.esc s).
Proof.
  induction s as [|c b t Hd Hr Hb IH] using text_rune_ind; [done|]. rewrite (esc_step c) by done. apply Forall_app. split; [|done].
  destruct Hr as [a u Ha|a u Ha|w u c' Hw Hh Hu].
  - unfold JsonEncode.esc_rune. destruct (_ <? _)%N; [apply esc_char_printable|repeat (constructor; [vm_compute; discriminate|]); constructor].
  - unfold JsonEncode.esc_rune. destruct (_ <? _)%N; [apply esc_char_printable|repeat (constructor; [vm_compute; discriminate|]); constructor].
  - rewrite esc_rune_wide by done. destruct (N.eqb_spec c' 0x2028) as [->|]; [|destruct (N.eqb_spec c' 0x2029) as [->|]]; cbn [orb];
      [repeat (constructor; [vm_compute; discriminate|]); constructor..|].
    eapply Forall_impl; [exact Hh|]. unfold high, printable. lia.
Qed.
Lemma quoted_printable (s : gostring) : Forall printable (JsonEncode.quoted s).
Proof. unfold JsonEncode.quoted. constructor; [vm_compute; discriminate|]. apply Forall_app. split; [apply esc_printable|]. constructor; [vm_compute; discriminate|done]. Qed.
(** The text of the attributes is one that an entry can carry. *)
Lemma Marshal_good m : m ≠ ∅ → good_attrs (Marshal m).
Proof.
  intros Hm. right. unfold Marshal. set (l := merge_sort _ _). assert (Hne : l ≠ []).
  { intros Hl. apply Hm, map_to_list_empty_iff. apply Permutation_nil_r. rewrite <-Hl. unfold l. symmetry. apply merge_sort_Permutation. }
  split.
  - assert (Hlit : ∀ s, bool_decide (plain_json s) = true → Forall printable s) by (intros s Hs%bool_decide_eq_true; by apply plain_printable).
    rewrite !Forall_app. split_and!; [by apply Hlit| |by apply Hlit]. apply Join_Forall; [by apply Hlit|]. apply Forall_fmap, Forall_true. intros [k v]. unfold compose. cbn [fst snd].
    rewrite !Forall_app. split_and!; [apply quoted_printable|by apply Hlit|apply quoted_printable].
  - set (mem (kv : gostring * gostring) := mkMember (JsonEncode.esc kv.1) (sanitize kv.1) (JsonEncode.quoted kv.2) (Json.JString (sanitize kv.2))).
    assert (Heq : (fun kv => JsonEncode.quoted kv.1 ++ ":" ++ JsonEncode.quoted kv.2) <$> l = member_text <$> (mem <$> l)).
    { rewrite <-list_fmap_compose. apply list_fmap_ext. intros _ [k v] _. unfold member_text, mem, JsonEncode.quoted. simpl. by rewrite <-!app_assoc. }
    rewrite Heq. fold (object_text (mem <$> l)). eexists _, _. split.
    + apply (object_compact 1); [by destruct l|]. apply Forall_fmap, Forall_true. intros [k v]. split; [apply inside_esc|]. apply inside_text, inside_esc.
    + unfold object_text. rewrite !length_app. pose proof (member_text_length (mem <$> l)). rewrite length_fmap in *. destruct l; [done|]. simpl length in *. lia.
Qed.
End attributes.

(** ** Logging *)

Section logging.
  Implicit Types (l : JSONFileLogger) (m : Message) (ms : list Message) (segs : list (list Message)).

(** The line of a message in the log, and the message that is read from it. *)
Definition entry_of (extra : gostring) m : gostring := entry_text (Line m ++ nl) (Source m) extra (Timestamp m).
Definition line_of (extra : gostring) m : gostring := entry_of extra m ++ nl.
Definition seen m : Message := mkMsg (sanitize (Line m ++ nl)) (sanitize (Source m)) (Timestamp m).
Definition texts_of {A} (text : A → gostring) (segs : list (list A)) : list (list gostring) := (fun seg : list A => text <$> seg) <$> segs.
(** A logger whose files hold the messages, the newest segment first. *)
Definition logged l segs : Prop :=
  holds (writer l) (texts_of (line_of (extra l)) segs) ∧ 1 <= maxFiles (writer l) ∧ good_attrs (extra l) ∧ Forall (Forall (fun m => good_time (Timestamp m))) segs.
Definition kept segs : list Message := concat (reverse segs).

Lemma rot_fmap {A} (text : A → gostring) cap max (sg : list (list A)) e :
  texts_of text (rot text cap max sg e) = rot id cap max (texts_of text sg) (text e).
Proof.
  unfold texts_of.   destruct sg as [|seg sg]; [done|]. cbn [rot fmap list_fmap]. rewrite list_fmap_id. destruct (full cap (text <$> seg)).
  - rewrite fmap_take. done.
  - cbn [fmap list_fmap]. by rewrite fmap_app.
Qed.
Lemma rot_Forall {A} (P : A → Prop) (text : A → gostring) cap max (sg : list (list A)) e : P e → Forall (Forall P) sg → Forall (Forall P) (rot text cap max sg e).
Proof.
  intros He Hs. destruct Hs as [|seg sg Hseg Hs]; [by repeat constructor|]. cbn [rot]. destruct (full cap (text <$> seg)).
  - apply Forall_take. repeat constructor; done.
  - constructor; [|done]. apply Forall_app. split; [done|by constructor].
Qed.
Lemma FastTime_good t : good_time t → FastTimeMarshalJSON t = Some (quote :: RFC3339Nano t ++ [quote]).
Proof.
  intros [Hy _]. unfold four_digit_year in Hy. unfold FastTimeMarshalJSON. destruct (Z.ltb_spec (Year t) 0); [lia|]. destruct (Z.leb_spec 10000 (Year t)); [lia|]. done.
Qed.
(** Every message is written, and the files go on holding what was logged. *)
Lemma Log_logged l segs m : logged l segs → good_time (Timestamp m) →
  ∃ l', Log no_faults m l = (l', None) ∧ logged l' (rot (line_of (extra l)) (capacity (writer l)) (maxFiles (writer l)) segs m)
    ∧ extra l' = extra l ∧ capacity (writer l') = capacity (writer l) ∧ maxFiles (writer l') = maxFiles (writer l).
Proof.
  intros (Hh&Hmax&Ha&Hg) Ht. unfold Log. rewrite FastTime_good by done. fold (entry_text (Line m ++ nl) (Source m) (extra l) (Timestamp m)).
  fold (entry_of (extra l) m). fold (line_of (extra l) m). destruct (Write_holds _ _ (line_of (extra l) m) Hh Hmax) as (w'&->&Hw&Hc&Hm).
  eexists. split; [reflexivity|]. cbn [writer extra]. split_and!; [|done..]. split; cbn [writer extra]; [by rewrite rot_fmap|]. split_and!; [lia|done|by apply rot_Forall].
Qed.
(** The messages a logger gets one after the other. *)
Definition log_all l ms : JSONFileLogger := foldl (fun l m => (Log no_faults m l).1) l ms.
Definition segments (extra : gostring) (cap max : Z) segs ms : list (list Message) := foldl (rot (line_of extra) cap max) segs ms.
Lemma log_all_logged l segs ms : logged l segs → Forall (fun m => good_time (Timestamp m)) ms →
  logged (log_all l ms) (segments (extra l) (capacity (writer l)) (maxFiles (writer l)) segs ms)
  ∧ extra (log_all l ms) = extra l ∧ maxFiles (writer (log_all l ms)) = maxFiles (writer l).
Proof.
  intros Hl Hms. revert l segs Hl. induction Hms as [|m ms Hm Hms IH]; intros l segs Hl; [done|].
  destruct (Log_logged _ _ m Hl Hm) as (l'&Hlog&Hl'&He&Hc&Hx). unfold log_all, segments. cbn [foldl]. rewrite Hlog. cbn [fst].
  specialize (IH l' _ Hl'). rewrite He, Hc, Hx in IH. exact IH.
Qed.

(** ** Reading *)

Lemma holds_open (fs : gmap nat gostring) (texts : list gostring) k : (∀ i, fs !! i = texts !! i) →
  ReadSeeker.content <$> open_files k fs = reverse (take k (drop 1 texts)) ∧ fresh (open_files k fs).
Proof.
  intros Hfs. induction k as [|k [IH1 IH2]]; [by split; [|constructor]|]. cbn [open_files]. rewrite (Hfs (S k)). split.
  - rewrite fmap_app, IH1. destruct (texts !! S k) as [d|] eqn:Hd.
    + rewrite (take_S_r _ _ d) by (rewrite lookup_drop; done). by rewrite reverse_app.
    + cbn [fmap list_fmap app]. apply lookup_ge_None in Hd. rewrite !(take_ge (drop 1 texts)) by (rewrite length_drop; lia). done.
  - apply Forall_app. split; [destruct (texts !! S k); by repeat constructor|done].
Qed.
Lemma take_and_rest n (s : gostring) : take n s ++ drop (length (take n s)) s = s.
Proof. rewrite length_take. destruct (Nat.min_spec n (length s)) as [[? ->]|[? ->]]; [apply take_drop|]. by rewrite take_ge, drop_ge, app_nil_r by lia. Qed.
(** A reader that stands for some text is read to its end. *)
Lemma read_to_end_spec `{ReadSeeker.ReadSeekerLaws R} blockSize all p r fuel :
  (0 < blockSize)%nat → 0 <= p → ReadSeeker.stands all p r → (length (drop (Z.to_nat p) all) < fuel)%nat → read_to_end blockSize fuel r = drop (Z.to_nat p) all.
Proof.
  intros HB. revert p r. induction fuel as [|fuel IH]; intros p r Hp Hs Hf; [lia|]. cbn [read_to_end].
  pose proof (ReadSeeker.step_stands all p r (ReadSeeker.MRead blockSize) Hs eq_refl) as Hst. cbn [ReadSeeker.step ReadSeeker.flat_step] in Hst.
  destruct (ReadSeeker.Read blockSize r) as [r' res]. destruct Hst as [Hs' Hres]. injection Hres as ->. set (data := take blockSize (drop (Z.to_nat p) all)) in *.
  destruct (Nat.eqb_spec blockSize 0); [lia|]. rewrite andb_true_r. case_bool_decide as Hd.
  - destruct (drop (Z.to_nat p) all); [done|]. destruct blockSize; [lia|]. done.
  - assert (Hlen : (0 < length data)%nat) by (destruct data; [done|simpl; lia]). assert (Hle : (length data <= length (drop (Z.to_nat p) all))%nat) by (unfold data; rewrite length_take; lia).
    rewrite (IH (p + Z.of_nat (length data)) r'); [|lia|done|].
    + rewrite Z2Nat.inj_add, Nat2Z.id, <-drop_drop by lia. apply take_and_rest.
    + rewrite Z2Nat.inj_add, Nat2Z.id by lia. rewrite length_drop in *. lia.
Qed.
(** The last messages; all of them for a negative number. *)
Definition lastn {A} (n : Z) (l : list A) : list A := if n <? 0 then l else drop (length l - Z.to_nat n) l.
Definition decoded m : JSONLog := mkLog (sanitize (Line m ++ nl)) (sanitize (Source m)) (Timestamp m).
Lemma entries_decode (extra : gostring) ms : good_attrs extra → Forall (fun m => good_time (Timestamp m)) ms → Forall2 is_entry (entry_of extra <$> ms) (decoded <$> ms).
Proof. intros Ha. induction 1 as [|m ms Hm Hms IH]; constructor; [by apply entry_is_entry|done]. Qed.
Lemma entries_lines (extra : gostring) ms : good_attrs extra → Forall (fun m => good_time (Timestamp m)) ms →
  removelast (Split (flat_map (fun e => e ++ nl) (entry_of extra <$> ms)) TailFile.eol) = entry_of extra <$> ms.
Proof.
  intros Ha Hms. set (es := entry_of extra <$> ms).
  assert (Heq : flat_map (fun e => e ++ nl) es = Join (es ++ [[]]) TailFile.eol).
  { induction es as [|e es IH]; [done|]. cbn [flat_map app]. rewrite IH, <-app_assoc. destruct es; done. }
  rewrite Heq. change TailFile.eol with [TailFile.newline]. rewrite Split_Join_char; [apply removelast_last|by destruct es|]. apply Forall_app. split; [|by repeat constructor; apply not_elem_of_nil].
  apply Forall_fmap. eapply Forall_impl; [exact Hms|]. intros m Hm Hin. pose proof (entry_printable (Line m ++ nl) (Source m) extra (Timestamp m) Hm Ha) as Hp.
  rewrite Forall_forall in Hp. specialize (Hp _ Hin). by vm_compute in Hp.
Qed.
Lemma concat_texts {A} (text : A → gostring) (sg : list (list A)) : concat (reverse ((@concat ascii) <$> texts_of text sg)) = flat_map text (concat (reverse sg)).
Proof.
  unfold texts_of. rewrite <-list_fmap_compose, <-fmap_reverse. induction (reverse sg) as [|seg l IH]; [done|]. cbn [fmap list_fmap concat]. rewrite IH, flat_map_app. f_equal.
  unfold compose. by rewrite flat_map_concat_map.
Qed.
(** The messages of the log, from the oldest on. *)
Lemma readLogs_logged blockSize l segs config : (0 < blockSize)%nat → logged l segs →
  readLogs blockSize config l = (List.filter (keep (Since config)) (seen <$> lastn (Tail config) (kept segs)), None).
Proof.
  intros HB ((Hcl&Hf&Hlen)&Hmax&Ha&Hg). set (texts := (@concat ascii) <$> texts_of (line_of (extra l)) segs).
  assert (Hfs : ∀ i, files (writer l) !! i = texts !! i) by (intros i; rewrite Hf; unfold texts; by rewrite list_lookup_fmap).
  assert (Htl : length texts = length (texts_of (line_of (extra l)) segs)) by (unfold texts; by rewrite length_fmap).
  destruct texts as [|d texts'] eqn:Et; [simpl in Htl; lia|]. destruct (holds_open _ (d :: texts') (Z.to_nat (maxFiles (writer l) - 1)) Hfs) as [Hopen Hfresh].
  change (drop 1 (d :: texts')) with texts' in Hopen. cbn [length] in Htl. rewrite take_ge in Hopen by lia. unfold readLogs. rewrite (Hfs 0%nat). cbn [lookup list_lookup].
  set (opened := open_files _ _ ++ [_]).
  assert (Hgood : Forall (fun m => good_time (Timestamp m)) (kept segs)) by (apply Forall_concat, Forall_reverse; done).
  assert (Hflat : flat opened = flat_map (fun e => e ++ nl) (entry_of (extra l) <$> kept segs)).
  { unfold flat, opened. rewrite fmap_app, Hopen. cbn [fmap list_fmap ReadSeeker.content]. rewrite <-reverse_cons, <-Et. unfold texts. rewrite concat_texts.
    unfold kept. rewrite !flat_map_concat_map. f_equal. rewrite <-(list_fmap_compose (entry_of (extra l))). done. }
  assert (Hstands : ReadSeeker.stands (flat opened) 0 (MultiReader.MultiReadSeeker opened)).
  { apply MultiReadSeeker_stands; [unfold opened; by destruct (open_files _ _)|]. apply Forall_app. split; [done|by repeat constructor]. }
  assert (Hseen : ∀ ms, decodeLogLine <$> (decoded <$> ms) = seen <$> ms) by (intros ms; by rewrite <-list_fmap_compose).
  pose proof (entries_lines _ _ Ha Hgood) as Hlines. pose proof (entries_decode _ _ Ha Hgood) as Hdec. unfold tailFile, lastn.
  destruct (Z.eqb_spec (Tail config) 0) as [E|E]; [|destruct (Z.ltb_spec 0 (Tail config))].
  - rewrite E. cbn [Z.ltb]. change (0 <? 0) with false. cbn match. rewrite drop_ge by lia. done.
  - rewrite (TailFile_lines blockSize HB _ _ _ _ Hstands) by done. cbv zeta. rewrite Hflat, Hlines, length_fmap. destruct (Z.ltb_spec (Tail config) 0); [lia|].
    rewrite (DecodeAll_joined _ (drop (length (kept segs) - Z.to_nat (Tail config)) (decoded <$> kept segs))) by (by apply Forall2_drop).
    rewrite <-fmap_drop, Hseen. done.
  - destruct (Z.ltb_spec (Tail config) 0); [|lia]. rewrite (read_to_end_spec blockSize (flat opened) 0) by (done || (rewrite drop_0; unfold flat; lia)).
    rewrite drop_0, Hflat, (DecodeAll_lines _ (decoded <$> kept segs)) by done. rewrite Hseen. done.
Qed.
End logging.

(** ** What is kept *)

Section retention.
  Context {A : Type} (text : A → gostring) (cap max : Z).
  Implicit Types (sg : list (list A)) (lost ms : list A).

Definition all_of sg : list A := concat (reverse sg).
Definition bytes sg : Z := Z.of_nat (length (flat_map text (all_of sg))).
Lemma all_of_cons seg sg : all_of (seg :: sg) = all_of sg ++ seg.
Proof. unfold all_of. rewrite reverse_cons, concat_app. simpl. by rewrite app_nil_r. Qed.
(** Nothing is lost before the files are as many as there may be, and those that are
    rotated were full. *)
Definition retains lost sg : Prop :=
  (1 <= length sg)%nat ∧ Forall (fun seg => full cap (text <$> seg) = true) (tail sg) ∧ (lost ≠ [] → length sg = Z.to_nat max ∧ cap ≠ -1).
Lemma rot_retains lost sg e : 1 <= max → (1 <= length sg)%nat → retains lost sg →
  ∃ lost', all_of sg ++ [e] = lost' ++ all_of (rot text cap max sg e) ∧ retains (lost ++ lost') (rot text cap max sg e) ∧ last (all_of (rot text cap max sg e)) = Some e.
Proof.
  intros Hmax Hlen (_&Hfull&Hlost). destruct sg as [|seg sg]; [simpl in Hlen; lia|]. cbn [rot tail] in *. destruct (full cap (text <$> seg)) eqn:Hf.
  - assert (Hc : cap ≠ -1) by (unfold full in Hf; destruct (Z.eqb_spec cap (-1)); done). set (L := [e] :: seg :: sg).
    assert (HL : all_of (seg :: sg) ++ [e] = all_of L) by (unfold L; by rewrite (all_of_cons [e])).
    exists (all_of (drop (Z.to_nat max) L)). split_and!.
    + rewrite HL. unfold all_of. rewrite <-concat_app, <-reverse_app, take_drop. done.
    + split_and!; [rewrite length_take; unfold L; simpl; lia| |].
      * unfold L. destruct (Z.to_nat max); [done|]. cbn [take tail]. apply Forall_take. by constructor.
      * intros Hne. split; [|done]. rewrite length_take. unfold L in *. cbn [length] in *. destruct (decide (Z.to_nat max <= S (S (length sg)))%nat) as [|Hgt]; [lia|].
        rewrite drop_ge in Hne by (cbn [length]; lia). rewrite app_nil_r in Hne. destruct (Hlost Hne). lia.
    + unfold L. destruct (Z.to_nat max) as [|k] eqn:E; [lia|]. cbn [take]. rewrite all_of_cons. by rewrite last_snoc.
  - exists []. rewrite app_nil_r. split_and!; [rewrite !all_of_cons; by rewrite <-app_assoc| |rewrite all_of_cons, app_assoc; by rewrite last_snoc].
    split_and!; [simpl; lia|done|done].
Qed.
Lemma rots_retain ms sg lost : 1 <= max → (1 <= length sg)%nat → retains lost sg →
  ∃ lost', all_of sg ++ ms = lost' ++ all_of (foldl (rot text cap max) sg ms) ∧ retains (lost ++ lost') (foldl (rot text cap max) sg ms)
    ∧ (ms ≠ [] → last (all_of (foldl (rot text cap max) sg ms)) = last ms).
Proof.
  intros Hmax. revert sg lost. induction ms as [|e ms IH]; intros sg lost Hlen Hr; [exists []; rewrite !app_nil_r; by split_and!|].
  destruct (rot_retains lost sg e Hmax Hlen Hr) as (l1&H1&Hr1&Hlast). cbn [foldl].
  destruct (IH (rot text cap max sg e) (lost ++ l1) (proj1 Hr1) Hr1) as (l2&H2&Hr2&Hlast2). exists (l1 ++ l2). split_and!.
  - rewrite <-app_assoc, <-H2, app_assoc, <-H1, <-app_assoc. done.
  - by rewrite app_assoc.
  - intros _. destruct ms as [|e' ms]; [done|]. rewrite Hlast2 by done. done.
Qed.
Lemma full_bytes seg : full cap (text <$> seg) = true → cap <= Z.of_nat (length (flat_map text seg)).
Proof. unfold full. rewrite andb_true_iff, Z.leb_le, flat_map_concat_map. by intros [_ ?]. Qed.
(** The files that are kept hold at least all but one times the size at which they are rotated. *)
Lemma retains_bytes lost sg : 1 <= max → retains lost sg → lost ≠ [] → (max - 1) * cap <= bytes sg.
Proof.
  intros Hmax (Hlen&Hfull&Hlost) Hne. destruct (Hlost Hne) as [Hl _]. destruct sg as [|seg sg]; [simpl in Hlen; lia|]. cbn [tail length] in *.
  unfold bytes. rewrite all_of_cons, flat_map_app, length_app. assert (Hn : Z.of_nat (length sg) = max - 1) by lia. rewrite <-Hn. clear Hl Hn Hlost Hlen.
  assert (H : Z.of_nat (length sg) * cap <= Z.of_nat (length (flat_map text (all_of sg)))); [|lia].
  induction Hfull as [|x sg Hx Hfull IH]; [done|]. rewrite all_of_cons, flat_map_app, length_app. pose proof (full_bytes x Hx). cbn [length]. lia.
Qed.
(** No file is longer than this size and one entry. *)
Lemma rots_bounded M ms sg : cap ≠ -1 → Forall (fun e => Z.of_nat (length (text e)) <= M) ms →
  Forall (fun seg => Z.of_nat (length (concat (text <$> seg))) <= Z.max 0 cap + M) sg →
  Forall (fun seg => Z.of_nat (length (concat (text <$> seg))) <= Z.max 0 cap + M) (foldl (rot text cap max) sg ms).
Proof.
  intros Hc Hms. revert sg. induction Hms as [|e ms He Hms IH]; intros sg Hsg; [done|]. cbn [foldl]. apply IH. destruct Hsg as [|seg sg Hseg Hsg].
  - repeat constructor. simpl. rewrite app_nil_r. lia.
  - cbn [rot]. destruct (full cap (text <$> seg)) eqn:Hf.
    + apply Forall_take. repeat constructor; [|done|done]. simpl. rewrite app_nil_r. lia.
    + constructor; [|done]. rewrite fmap_app, concat_app, length_app. simpl. rewrite app_nil_r. unfold full in Hf. destruct (Z.eqb_spec cap (-1)); [done|].
      destruct (Z.leb_spec cap (Z.of_nat (length (concat (text <$> seg))))); [done|]. lia.
Qed.
End retention.

(** ** A logger from its start *)

Section logger.
  Implicit Types (ctx : Context) (l : JSONFileLogger) (ms : list Message).

Lemma New_logged ctx l : New no_faults ∅ ctx = Ok l → logged l [[]].
Proof.
  unfold New. intros H. destruct (match Config ctx !! _ with None => Ok (-1) | Some _ => _ end) as [cap|]; [|done]. cbn in H.
  destruct (match Config ctx !! ("max-file" : gostring) with None => _ | Some _ => _ end) as [max|] eqn:Hm; [|done]. cbn in H. injection H as <-.
  assert (Hmax : 1 <= max).
  { destruct (Config ctx !! ("max-file" : gostring)); [|by injection Hm as <-]. destruct (num_result _) as [n|]; [|done]. destruct (Z.ltb_spec n 1); [done|]. by injection Hm as <-. }
  split; cbn [writer extra].
  - split; [done|]. split; [|cbn [maxFiles length texts_of fmap list_fmap]; lia]. intros [|i]; cbn [files]; [by rewrite lookup_insert_eq|]. rewrite lookup_insert_ne, lookup_empty by lia. done.
  - split_and!; [done| |by repeat constructor]. case_bool_decide; [by left|]. by apply Marshal_good.
Qed.

(** C12: when no file operation fails, what is logged is what is read, with the replacement
    character for bytes that are not UTF-8 and a newline behind every message, through the
    JSON text of the entries and the files that are rotated, for any time stamps with a year of four digits, any attributes of
    the container and any bytes: reading the last
    [Tail] messages that are not older than [Since] gives these of the messages that are
    kept; these are the last ones, all of them if no maximal size is set, and messages are
    lost only when the other files hold at least their number times that size. *)
Theorem logs_read_back blockSize ctx l ms :
  (0 < blockSize)%nat → New no_faults ∅ ctx = Ok l → Forall (fun m => good_time (Timestamp m)) ms →
  let cap := capacity (writer l) in
  let max := maxFiles (writer l) in
  ∃ lost kept, ms = lost ++ kept
    ∧ (cap = -1 → lost = [])
    ∧ (ms ≠ [] → last kept = last ms)
    ∧ (lost ≠ [] → (max - 1) * cap <= Z.of_nat (length (flat_map (line_of (extra l)) kept)))
    ∧ ∀ config, readLogs blockSize config (log_all l ms) = (List.filter (keep (Since config)) (seen <$> lastn (Tail config) kept), None).
Proof.
  intros HB Hnew Hms cap max. pose proof (New_logged _ _ Hnew) as Hl. pose proof Hl as (_&Hmax&_). destruct (log_all_logged l _ ms Hl Hms) as (Hlog&_&_).
  destruct (rots_retain (line_of (extra l)) cap max ms [[]] []) as (lost&Heq&Hr&Hlast); [done|done|by split_and!|].
  exists lost, (all_of (segments (extra l) cap max [[]] ms)). change (all_of [[]] ++ ms) with ms in Heq. change ([] ++ lost) with lost in Hr. split_and!; [done| |done| |].
  - intros Hc. destruct lost; [done|]. by destruct (proj2 (proj2 Hr)).
  - intros Hne. by apply (retains_bytes (line_of (extra l)) cap max lost).
  - intros config. by apply readLogs_logged.
Qed.
(** C26: with a maximal size the log never has more files than it may have, and none of them
    is longer than that size and one entry. *)
Theorem logs_bounded ctx l ms M :
  New no_faults ∅ ctx = Ok l → Forall (fun m => good_time (Timestamp m)) ms → capacity (writer l) ≠ -1 → 0 <= M →
  Forall (fun m => Z.of_nat (length (line_of (extra l) m)) <= M) ms →
  ∀ i data, files (writer (log_all l ms)) !! i = Some data → Z.of_nat i < maxFiles (writer l) ∧ Z.of_nat (length data) <= Z.max 0 (capacity (writer l)) + M.
Proof.
  intros Hnew Hms Hc HM Hlen i data Hi. pose proof (New_logged _ _ Hnew) as Hl. destruct (log_all_logged l _ ms Hl Hms) as (((_&Hf&Hn)&Hmx&_)&He&Hm).
  assert (Hb := rots_bounded (line_of (extra l)) (capacity (writer l)) (maxFiles (writer l)) M ms [[]] Hc Hlen ltac:(repeat constructor; simpl; lia)).
  rewrite Hf in Hi. apply fmap_Some in Hi as (seg&Hseg&->). pose proof (lookup_lt_Some _ _ _ Hseg) as Hlt. rewrite He in Hseg. unfold texts_of in Hseg.
  apply list_lookup_fmap_Some in Hseg as (seg'&->&Hseg').
  rewrite Forall_lookup in Hb. split; [rewrite Hm in Hn; lia|]. by eapply Hb.
Qed.
End logger.

(** ** From the container to the client *)

Section shown.
  Implicit Types (s t out err : gostring) (m : Message) (ms : list Message).

(** *** Lines *)

(** The replacement of bytes does not look beyond the end of a line. *)
Lemma sanitize_line s t : sanitize (s ++ "010"%char :: t) = sanitize s ++ "010"%char :: sanitize t.
Proof. by apply sanitize_mid. Qed.
Lemma sanitize_length s : (length (sanitize s) <= 3 * length s)%nat.
Proof.
  induction s as [|c b u Hd Hr Hb IH] using text_rune_ind; [done|]. rewrite (sanitize_step c), !length_app by done. unfold clean_rune. destruct (invalid c b); [simpl; lia|lia].
Qed.
Lemma ReadBytes_spec s : match ReadBytes s with
  | (line, Some t) => ∃ u, line = u ++ nl ∧ s = u ++ "010"%char :: t ∧ "010"%char ∉ u
  | (line, None) => line = s ∧ "010"%char ∉ s
  end.
Proof.
  induction s as [|c s IH]; [split; [done|apply not_elem_of_nil]|]. cbn [ReadBytes]. destruct (c =c "010") eqn:E.
  - apply bool_decide_eq_true in E as ->. exists []. split_and!; [done..|apply not_elem_of_nil].
  - apply bool_decide_eq_false in E. destruct (ReadBytes s) as [line [t|]].
    + destruct IH as (u&->&->&Hu). exists (c :: u). split_and!; [done..|]. rewrite elem_of_cons. naive_solver.
    + destruct IH as [-> Hs]. split; [done|]. rewrite elem_of_cons. naive_solver.
Qed.
(** What was written, with a newline behind its last line. *)
Definition ended s : gostring := match last s with None => [] | Some c => if c =c "010" then s else s ++ nl end.
Lemma ended_line u t : ended (u ++ "010"%char :: t) = u ++ "010"%char :: ended t.
Proof.
  unfold ended. rewrite last_app_cons. destruct t as [|c t]; [done|]. change (last ("010"%char :: c :: t)) with (last (c :: t)). destruct (last (c :: t)) as [x|] eqn:E; [|by rewrite last_None in E].
  destruct (x =c "010"); [done|]. by rewrite <-app_assoc.
Qed.
Lemma TrimSuffix_nl u : TrimSuffix (u ++ nl) nl = u.
Proof. unfold TrimSuffix, TrimPrefix, nl. rewrite rev_app_distr. change (rev ["010"%char]) with ["010"%char]. rewrite (strip_prefix_app ["010"%char]). apply rev_involutive. Qed.
Lemma TrimSuffix_other u : "010"%char ∉ u → TrimSuffix u nl = u.
Proof.
  intros Hu. unfold TrimSuffix, TrimPrefix, nl. destruct (strip_prefix _ (rev u)) as [t|] eqn:E; [|apply rev_involutive]. exfalso.
  apply strip_prefix_Some in E. apply Hu. apply list_elem_of_In, in_rev. rewrite E. by left.
Qed.
Lemma copied_lines fuel s : (length s < fuel)%nat → flat_map (fun line => line ++ nl) (copy_loop fuel s) = ended s
  ∧ flat_map (fun line => sanitize (line ++ nl)) (copy_loop fuel s) = sanitize (ended s).
Proof.
  revert s. induction fuel as [|fuel IH]; intros s Hf; [lia|]. cbn [copy_loop]. pose proof (ReadBytes_spec s) as H. destruct (ReadBytes s) as [line [t|]].
  - destruct H as (u&->&->&Hu). rewrite TrimSuffix_nl. rewrite length_app in Hf. simpl in Hf. destruct (IH t) as [IH1 IH2]; [lia|]. cbn [flat_map]. rewrite IH1, IH2, ended_line, sanitize_line.
    split; [by rewrite <-app_assoc|]. rewrite (sanitize_line u [] : sanitize (u ++ nl) = sanitize u ++ nl). by rewrite <-app_assoc.
  - destruct H as [-> Hs]. rewrite TrimSuffix_other by done. unfold ended. destruct (last s) as [c|] eqn:Hl.
    + apply last_Some in Hl as [u ->]. assert (c =c "010" = false) as -> by (apply bool_decide_eq_false; intros ->; apply Hs; rewrite elem_of_app; right; by left).
      assert ((u ++ [c]) =s [] = false) as -> by (apply bool_decide_eq_false; by destruct u). cbn [flat_map]. by rewrite !app_nil_r.
    + apply last_None in Hl as ->. done.
Qed.
Lemma copySrc_sanitized s : flat_map (fun line => sanitize (line ++ nl)) (copySrc s) = sanitize (ended s).
Proof. apply copied_lines. lia. Qed.
Lemma ended_length s : (length (ended s) <= S (length s))%nat.
Proof. unfold ended. destruct (last s) as [c|]; [|simpl; lia]. destruct (c =c "010"); [lia|]. rewrite length_app. simpl. lia. Qed.

(** *** Frames *)

(** The default of [docker logs]: all lines of both streams. *)
Definition default_logs : LogsConfig := mkLogsConfig false "all" zeroTime true true.
(** Messages as the copiers of the two streams make them, in some order. *)
Definition copied ms out err : Prop :=
  Forall (fun m => Source m = "stdout" ∨ Source m = "stderr") ms
  ∧ Line <$> filter (fun m => Source m = "stdout") ms = copySrc out ∧ Line <$> filter (fun m => Source m = "stderr") ms = copySrc err.
Lemma show_seen m : Source m = "stdout" ∨ Source m = "stderr" →
  show default_logs (seen m) = [(if decide (Source m = "stdout") then StdCopy.Stdout else StdCopy.Stderr, sanitize (Line m ++ nl))].
Proof. destruct m as [line src t]. simpl. by intros [-> | ->]. Qed.
Lemma payloads_in fds fd (b : gostring) fs : fd ∈ fds → payloads fds ((fd, b) :: fs) = b ++ payloads fds fs.
Proof. intros H. unfold payloads. by rewrite filter_cons_True. Qed.
Lemma payloads_out fds fd (b : gostring) fs : fd ∉ fds → payloads fds ((fd, b) :: fs) = payloads fds fs.
Proof. intros H. unfold payloads. by rewrite filter_cons_False. Qed.
(** The lines of a source, as they are shown. *)
Definition text_from (src : gostring) ms : gostring := flat_map (fun line => sanitize (line ++ nl)) (Line <$> filter (fun m => Source m = src) ms).
Lemma text_from_in src m ms : Source m = src → text_from src (m :: ms) = sanitize (Line m ++ nl) ++ text_from src ms.
Proof. intros H. unfold text_from. by rewrite filter_cons_True. Qed.
Lemma text_from_out src m ms : Source m ≠ src → text_from src (m :: ms) = text_from src ms.
Proof. intros H. unfold text_from. by rewrite filter_cons_False. Qed.
Lemma shown_payloads ms : Forall (fun m => Source m = "stdout" ∨ Source m = "stderr") ms →
  let frames := flat_map (show default_logs) (seen <$> ms) in
  payloads [StdCopy.Stdin; StdCopy.Stdout] frames = text_from "stdout" ms ∧ payloads [StdCopy.Stderr] frames = text_from "stderr" ms
  ∧ length (concat (snd <$> frames)) = (length (text_from "stdout" ms) + length (text_from "stderr" ms))%nat ∧ Forall (fun f => StdCopy.known_fd f.1) frames.
Proof.
  induction 1 as [|m ms Hm Hms (IH1&IH2&IH3&IH4)]; [done|]. cbn [fmap list_fmap flat_map]. rewrite show_seen by done. cbv zeta. cbn [app].
  destruct Hm as [Hm|Hm].
  - rewrite decide_True by done. rewrite payloads_in, payloads_out, text_from_in, text_from_out by (done || (rewrite Hm; done) || (by apply (bool_decide_eq_true_1 _))).
    split_and!; [by rewrite IH1|done|cbn [fmap list_fmap concat snd]; rewrite !length_app, IH3; lia|constructor; [right; by left|done]].
  - assert (Source m ≠ "stdout") by (rewrite Hm; done). rewrite decide_False by done.
    rewrite payloads_out, payloads_in, text_from_out, text_from_in by (done || (by apply (bool_decide_eq_true_1 _))).
    split_and!; [done|by rewrite IH2|cbn [fmap list_fmap concat snd]; rewrite !length_app, IH3; lia|constructor; [right; by right|done]].
Qed.
Lemma concat_elem (l : list gostring) x : x ∈ l → (length x <= length (concat l))%nat.
Proof. induction 1 as [|x y l Hx IH]; cbn [concat]; rewrite length_app; lia. Qed.
Lemma keep_all (l : list Message) : List.filter (keep zeroTime) l = l.
Proof. induction l as [|m l IH]; [done|]. change (List.filter (keep zeroTime) (m :: l)) with (m :: List.filter (keep zeroTime) l). by rewrite IH. Qed.
End shown.

(** C11: With a log that has no maximal size, when no file operation fails and both outputs
    together are shorter than a third of 2^32 bytes: the client of [docker logs] gets, on
    each of the two outputs, what the container wrote there, with the replacement character
    for bytes that are not UTF-8 and a newline behind a last line that had none.  It goes
    through the lines of the copier, the JSON log, its reader, the frames of the connection
    and the copy that takes them apart, for every order in which the lines of the two
    streams are logged and every way in which the bytes arrive.  (Once a log with a maximal
    size has rotated, its oldest lines are gone.) *)
Theorem output_is_shown blockSize ctx l (out err : gostring) (ms : list Message) {R} (Read : R → nat → gostring * option ioError * R) `{!ReaderLaws Read} (r : R) (frames : list (Z * gostring)) fuel :
  (0 < blockSize)%nat → New no_faults ∅ ctx = Ok l → capacity (writer l) = -1 → Forall (fun m => good_time (Timestamp m)) ms →
  copied ms out err → 3 * (Z.of_nat (length out) + Z.of_nat (length err) + 2) < 2 ^ 32 →
  ContainerLogs blockSize default_logs (log_all l ms) = Ok frames →
  pending r = sent frames [] → ending r = EOF → (reads r + length (pending r) < fuel)%nat →
  ∃ n, StdCopy.StdCopy Read to_out to_err fuel r ([], []) = Some (n, None, (sanitize (ended out), sanitize (ended err))).
Proof.
  intros HB Hnew Hcap Ht (Hsrc&Hout&Herr) Hlen Hframes Hp He Hf. pose proof (New_logged _ _ Hnew) as Hl. pose proof Hl as (_&Hmax&_). destruct (log_all_logged l _ ms Hl Ht) as (Hlog&_&_).
  destruct (rots_retain (line_of (extra l)) (-1) (maxFiles (writer l)) ms [[]] []) as (lost&Heq&Hr&_); [done|done|by split_and!|].
  assert (lost = []) as -> by (destruct lost; [done|]; by destruct (proj2 (proj2 Hr))). rewrite Hcap in Hlog.
  assert (Hkept : kept (segments (extra l) (-1) (maxFiles (writer l)) [[]] ms) = ms) by (symmetry; exact Heq).
  assert (Hfr : frames = flat_map (show default_logs) (seen <$> ms)).
  { unfold ContainerLogs in Hframes. rewrite (readLogs_logged blockSize _ _ _ HB Hlog), Hkept in Hframes. cbn [negb orb UseStdout default_logs Since Tail fst] in Hframes. injection Hframes as <-. by rewrite keep_all. }
  subst frames. destruct (shown_payloads ms Hsrc) as (P1&P2&P3&P4). unfold text_from in P1, P2, P3. rewrite Hout, !copySrc_sanitized in P1, P3. rewrite Herr, !copySrc_sanitized in P2, P3. set (frames := flat_map (show default_logs) (seen <$> ms)) in *.
  pose proof (sanitize_length (ended out)). pose proof (sanitize_length (ended err)). pose proof (ended_length out). pose proof (ended_length err).
  eexists. rewrite <-P1, <-P2. apply (StdCopy_frames Read r frames [] fuel); [|by left; simpl; unfold StdCopy.stdWriterPrefixLen; lia|lia|by rewrite app_nil_r|done|done].
  apply Forall_forall. intros f Hin. split; [by apply (proj1 (Forall_forall _ _) P4)|]. pose proof (concat_elem (snd <$> frames) f.2 ltac:(by apply list_elem_of_fmap_2)). lia.
Qed.

(** ** Examples *)

Module LogCases.

Definition at_second (n : Z) : Time := mkTime 2017 3 1 12 0 n 5000000.
Definition options (l : list (gostring * gostring)) : Context :=
  mkContext (list_to_map l) ["HOME=/root" : gostring; "EMPTY" : gostring] {["tier" := "front"]}.
Definition plain_ctx : Context := options [("labels", "tier,none"); ("env", "HOME")]%go.
Definition small_ctx : Context := options [("max-size", "60"); ("max-file", "2")]%go.
Definition started (ctx : Context) : JSONFileLogger := match New no_faults ∅ ctx with Ok l => l | Err _ => mkLogger (mkWriter ∅ true 0 0) [] end.
Definition say (n : Z) (src line : gostring) : Message := mkMsg line src (at_second n).
Definition five : list Message := [say 1 "stdout" "one"; say 2 "stderr" "two"; say 3 "stdout" "three"; say 4 "stdout" "four"; say 5 "stdout" "five"].
Lemma five_good : Forall (fun m => good_time (Timestamp m)) five.
Proof. repeat constructor; unfold four_digit_year; simpl; lia. Qed.

(** The attributes, an entry with a byte that is not UTF-8, and its reading. *)
Example entry_example :
  files (writer (log_all (started plain_ctx) [say 7 "stderr" ("a<" ++ ["255"; "009"]%char)])) !! 0%nat
  = Some (concat [["{"; "034"]%char; "log"; ["034"; ":"; "034"]%char; "a\u003c\ufffd\u0009\n"; ["034"; ","; "034"]%char; "stream"; ["034"; ":"; "034"]%char; "stderr";
      ["034"; ","; "034"]%char; "attrs"; ["034"; ":"; "{"; "034"]%char; "HOME"; ["034"; ":"; "034"]%char; "/root"; ["034"; ","; "034"]%char; "tier"; ["034"; ":"; "034"]%char; "front";
      ["034"; "}"; ","; "034"]%char; "time"; ["034"; ":"; "034"]%char; "2017-03-01T12:00:07.005Z"; ["034"; "}"; "010"]%char]).
Proof. vm_compute. reflexivity. Qed.
(** Two files of an entry each are kept; a tail of two reaches into the older one. *)
Example rotated_example : readLogs 16 (mkRead zeroTime 2) (log_all (started small_ctx) five) = ([say 4 "stdout" ("four" ++ nl); say 5 "stdout" ("five" ++ nl)], None)
  ∧ length (readLogs 16 (mkRead zeroTime (-1)) (log_all (started small_ctx) five)).1 = 2%nat.
Proof. vm_compute. done. Qed.
Lemma logs_read_back_witness : ∃ lost kept, five = lost ++ kept ∧ last kept = last five
  ∧ readLogs 16 (mkRead zeroTime 1) (log_all (started small_ctx) five) = (List.filter (keep zeroTime) (seen <$> lastn 1 kept), None).
Proof.
  destruct (logs_read_back 16 small_ctx (started small_ctx) five ltac:(lia) ltac:(vm_compute; reflexivity) five_good) as (lost&kept&H1&_&H2&_&H3).
  exists lost, kept. split; [exact H1|]. split; [apply H2; discriminate|apply (H3 (mkRead zeroTime 1))].
Defined.
Lemma logs_bounded_witness :
  match files (writer (log_all (started small_ctx) five)) !! 1%nat with Some data => Z.of_nat 1 < 2 ∧ Z.of_nat (length data) <= 60 + 100 | None => False end.
Proof.
  destruct (files (writer (log_all (started small_ctx) five)) !! 1%nat) as [data|] eqn:E; [|vm_compute in E; discriminate E].
  apply (logs_bounded small_ctx (started small_ctx) five 100); [vm_compute; reflexivity|exact five_good|vm_compute; discriminate|lia| |exact E].
  repeat constructor; apply Z.leb_le; vm_compute; reflexivity.
Defined.
(** Two streams whose lines alternate; the last line of one is not ended. *)
Definition two_streams : list Message := [say 1 "stdout" "one"; say 2 "stderr" "oops"; say 3 "stdout" ""; say 4 "stdout" "two"].
Definition stdout_text : gostring := "one" ++ nl ++ nl ++ "two".
Definition stderr_text : gostring := "oops" ++ nl.
Definition shown_frames : list (Z * gostring) := match ContainerLogs 16 default_logs (log_all (started plain_ctx) two_streams) with Ok fs => fs | Err _ => [] end.
Definition shown_reader : Pieces.pieces :=
  let s := sent shown_frames [] in {| Pieces.glue := false; Pieces.todo := [take 3 s; drop 3 s]; Pieces.final := EOF |}.
Lemma output_is_shown_witness :
  ∃ n, StdCopy.StdCopy Pieces.Read to_out to_err 100 shown_reader ([], []) = Some (n, None, (sanitize (ended stdout_text), sanitize (ended stderr_text))).
Proof.
  apply (output_is_shown 16 plain_ctx (started plain_ctx) stdout_text stderr_text two_streams Pieces.Read shown_reader shown_frames 100).
  - lia.
  - vm_compute; reflexivity.
  - vm_compute; reflexivity.
  - repeat constructor; unfold four_digit_year; simpl; lia.
  - split; [repeat constructor; first [by left | by right]|]. split; vm_compute; reflexivity.
  - vm_compute. reflexivity.
  - vm_compute; reflexivity.
  - vm_compute; reflexivity.
  - reflexivity.
  - apply Nat.ltb_lt. vm_compute. reflexivity.
Defined.

(** A rotation that fails after the log was closed leaves it closed: every message after it
    is lost, also when the cause is gone. *)
Definition no_rename : faults := fun o => match o with FRename _ _ => Some "no space" | _ => None end.
Example failed_rotation_is_final :
  let l := log_all (started small_ctx) [say 1 "stdout" "one"; say 2 "stdout" "two"] in
  let '(l, e) := Log no_rename (say 3 "stdout" "three") l in
  let '(l, e') := Log no_faults (say 4 "stdout" "four") l in
  let '(l, e'') := Log no_faults (say 5 "stdout" "five") l in
  (e, e', e'') = (Some (FileError (Failed "no space")), Some (FileError FileClosed), Some (FileError FileClosed)).
Proof. vm_compute. reflexivity. Qed.
End LogCases.
