(* ===== verification/DeviceSet.v ===== *)
(** * DeviceSet: the devices of the devicemapper graph driver

    The bookkeeping of [src/daemon/graphdriver/devmapper/deviceset.go]: which thin
    device stands for which layer.  There are four places that must agree: the map of
    devices and the bitmap of device IDs in memory, the metadata files and the
    transaction file on disk, and the thin pool in the kernel with its transaction ID.
    A change is a transaction: its intent is written to a file, the pool and the
    metadata are changed, and the transaction ID of the pool is advanced; a transaction
    that was not closed is rolled back at the next start.

    The kernel and the file system are a state of their own; each call of them takes
    its outcome from a list: it succeeds, fails, or the machine stops just before it.
    A call that succeeds still reports what the kernel would: an ID that exists cannot
    be created, one that does not exist cannot be deleted, and the transaction ID is
    compared before it is set.  Reading files does not fail.  Operations hold the lock
    of the device set, so that each is one step.  Device IDs have [idBits] bits, which
    are 24 in the source. *)

From S2P Require Import Prelude Strconv.
Import Strings.

Local Open Scope Z_scope.

Module DeviceSet.

(** ** Data *)

Record devInfo := mkDev {
  DeviceID : Z; Size : Z; dev_TransactionID : Z; Initialized : bool; Deleted : bool; mountCount : Z; mountPath : gostring
}.
Record transaction := mkTrans { OpenTransactionID : Z; DeviceIDHash : gostring; trans_DeviceID : Z }.

(** The fields in memory. *)
Record set := mkSet {
  Devices : gmap gostring devInfo; TransactionID : Z; NextDeviceID : Z; deviceIDMap : gmap Z Z; trans : transaction;
  nrDeletedDevices : Z
}.

(** What the fields of [devInfo] in a metadata file are when they are read back. *)
Definition stored (i : devInfo) : devInfo := mkDev (DeviceID i) (Size i) (dev_TransactionID i) (Initialized i) (Deleted i) 0 [].

Inductive dmError := EExists | EBusy | EOther.
Inductive outcome := Good | Bad (e : dmError) | Stop.

(** Memory, files, the pool, and the outcomes of the calls to come; [rm_failed] records
    that a metadata file could not be removed. *)
Record world := mkWorld {
  mem : set; files : gmap gostring devInfo; transFile : option transaction; savedNext : option Z;
  pool : gset Z; poolTid : Z; outcomes : list outcome; rm_failed : bool
}.

Definition set_mem (f : set → set) (w : world) : world :=
  mkWorld (f (mem w)) (files w) (transFile w) (savedNext w) (pool w) (poolTid w) (outcomes w) (rm_failed w).
Definition set_files (f : gmap gostring devInfo → gmap gostring devInfo) (w : world) : world :=
  mkWorld (mem w) (f (files w)) (transFile w) (savedNext w) (pool w) (poolTid w) (outcomes w) (rm_failed w).
Definition set_transFile (t : option transaction) (w : world) : world :=
  mkWorld (mem w) (files w) t (savedNext w) (pool w) (poolTid w) (outcomes w) (rm_failed w).
Definition set_savedNext (n : Z) (w : world) : world :=
  mkWorld (mem w) (files w) (transFile w) (Some n) (pool w) (poolTid w) (outcomes w) (rm_failed w).
Definition set_pool (f : gset Z → gset Z) (w : world) : world :=
  mkWorld (mem w) (files w) (transFile w) (savedNext w) (f (pool w)) (poolTid w) (outcomes w) (rm_failed w).
Definition set_poolTid (t : Z) (w : world) : world :=
  mkWorld (mem w) (files w) (transFile w) (savedNext w) (pool w) t (outcomes w) (rm_failed w).
Definition set_outcomes (o : list outcome) (w : world) : world :=
  mkWorld (mem w) (files w) (transFile w) (savedNext w) (pool w) (poolTid w) o (rm_failed w).
Definition set_rm_failed (w : world) : world :=
  mkWorld (mem w) (files w) (transFile w) (savedNext w) (pool w) (poolTid w) (outcomes w) true.

Definition set_Devices (f : gmap gostring devInfo → gmap gostring devInfo) (s : set) : set :=
  mkSet (f (Devices s)) (TransactionID s) (NextDeviceID s) (deviceIDMap s) (trans s) (nrDeletedDevices s).
Definition set_TransactionID (t : Z) (s : set) : set :=
  mkSet (Devices s) t (NextDeviceID s) (deviceIDMap s) (trans s) (nrDeletedDevices s).
Definition set_NextDeviceID (n : Z) (s : set) : set :=
  mkSet (Devices s) (TransactionID s) n (deviceIDMap s) (trans s) (nrDeletedDevices s).
Definition set_deviceIDMap (f : gmap Z Z → gmap Z Z) (s : set) : set :=
  mkSet (Devices s) (TransactionID s) (NextDeviceID s) (f (deviceIDMap s)) (trans s) (nrDeletedDevices s).
Definition set_trans (t : transaction) (s : set) : set :=
  mkSet (Devices s) (TransactionID s) (NextDeviceID s) (deviceIDMap s) t (nrDeletedDevices s).
Definition set_nrDeleted (f : Z → Z) (s : set) : set :=
  mkSet (Devices s) (TransactionID s) (NextDeviceID s) (deviceIDMap s) (trans s) (f (nrDeletedDevices s)).

(** ** Programs *)

(** [None] is a machine that has stopped. *)
Abbreviation M A := (world → world * option A).
Definition ret {A} (x : A) : M A := fun w => (w, Some x).
Definition bind {A B} (m : M A) (k : A → M B) : M B :=
  fun w => match m w with (w, Some x) => k x w | (w, None) => (w, None) end.
Definition modify (f : world → world) : M unit := fun w => (f w, Some tt).
Definition gets {A} (f : world → A) : M A := fun w => (w, Some (f w)).
(** A call: what it does when it succeeds, and when it fails. *)
Definition call {A} (good : M A) (bad : dmError → M A) : M A :=
  fun w =>
    match outcomes w with
    | [] => good w
    | Good :: o => good (set_outcomes o w)
    | Bad e :: o => bad e (set_outcomes o w)
    | Stop :: o => (set_outcomes o w, None)
    end.

Declare Scope dm_scope.
Delimit Scope dm_scope with dm.
Notation "x <- m ;; k" := (bind m (fun x => k)) (at level 100, m at next level, right associativity) : dm_scope.
Notation "m ;; k" := (bind m (fun _ => k)) (at level 100, right associativity) : dm_scope.
Open Scope dm_scope.

(** Whether a call failed. *)
Abbreviation err := (option dmError).
Definition fails (e : dmError) : M err := ret (Some e).

(** ** The kernel and the files *)

Definition dm_CreateDevice (id : Z) : M err :=
  call (fun w => if bool_decide (id ∈ pool w) then (w, Some (Some EExists)) else (set_pool (fun s => {[id]} ∪ s) w, Some None)) fails.
(** The last call is the one that resumes the base: when it fails the device is there. *)
Definition dm_CreateSnapDevice (base id : Z) : M err :=
  call (fun w =>
    if bool_decide (base ∉ pool w) then (w, Some (Some EOther))
    else if bool_decide (id ∈ pool w) then (w, Some (Some EExists))
    else call (ret None) (fun _ => fails EOther) (set_pool (fun s => {[id]} ∪ s) w)) fails.
Definition dm_DeleteDevice (id : Z) : M err :=
  call (fun w => if bool_decide (id ∈ pool w) then (set_pool (fun s => s ∖ {[id]}) w, Some None) else (w, Some (Some EOther))) fails.
Definition dm_SetTransactionID (old new : Z) : M err :=
  call (fun w => if poolTid w =? old then (set_poolTid new w, Some None) else (w, Some (Some EOther))) fails.
(** A call that changes nothing here: activation, deactivation, mounts. *)
Definition dm_other : M err := call (ret None) fails.

Definition saveMetadata (h : gostring) (i : devInfo) : M err :=
  call (modify (set_files (fun m => <[h := stored i]> m)) ;; ret None) fails.
Definition removeMetadata (h : gostring) : M err :=
  call (modify (set_files (delete h)) ;; ret None) (fun e => modify set_rm_failed ;; fails e).

(** ** The bitmap *)

Section ids.
  Context (idBits : nat).
Definition maxDeviceID : Z := 2 ^ Z.of_nat idBits - 1.

Definition byte_of (m : gmap Z Z) (id : Z) : Z := default 0 (m !! (id / 8)).
Definition markDeviceIDUsed (id : Z) (m : gmap Z Z) : gmap Z Z :=
  <[id / 8 := Z.lor (byte_of m id) (Z.shiftl 1 (id mod 8))]> m.
Definition markDeviceIDFree (id : Z) (m : gmap Z Z) : gmap Z Z :=
  <[id / 8 := Z.land (byte_of m id) (Z.lxor 255 (Z.shiftl 1 (id mod 8)))]> m.
Definition isDeviceIDFree (id : Z) (m : gmap Z Z) : bool :=
  Z.land (byte_of m id) (Z.shiftl 1 (id mod 8)) =? 0.

Definition incNextDeviceID (n : Z) : Z := Z.land (n + 1) maxDeviceID.

(** The loop of [getNextFreeDeviceID]: at most every ID is tried. *)
Fixpoint find_free (fuel : nat) (next : Z) (m : gmap Z Z) : option Z * Z :=
  match fuel with
  | O => (None, next)
  | S fuel => if isDeviceIDFree next m then (Some next, next) else find_free fuel (incNextDeviceID next) m
  end.
Definition getNextFreeDeviceID : M (option Z) :=
  fun w =>
    let '(r, next) := find_free (Z.to_nat (maxDeviceID + 1)) (incNextDeviceID (NextDeviceID (mem w))) (deviceIDMap (mem w)) in
    let w := set_mem (set_NextDeviceID next) w in
    match r with
    | Some id => (set_mem (set_deviceIDMap (markDeviceIDUsed id)) w, Some (Some id))
    | None => (w, Some None)
    end.
Definition free_id (id : Z) : M unit := modify (set_mem (set_deviceIDMap (markDeviceIDFree id))).

(** ** Transactions *)

Definition saveTransactionMetaData : M err :=
  call (fun w => (set_transFile (Some (trans (mem w))) w, Some None)) fails.

Definition openTransaction (h : gostring) (id : Z) : M err :=
  modify (fun w => set_mem (set_trans (mkTrans ((TransactionID (mem w) + 1) mod 2 ^ 64) h id)) w) ;;
  saveTransactionMetaData.
Definition refreshTransaction (id : Z) : M err :=
  modify (fun w => set_mem (set_trans (mkTrans (OpenTransactionID (trans (mem w))) (DeviceIDHash (trans (mem w))) id)) w) ;;
  saveTransactionMetaData.
(** [closeTransaction] and [updatePoolTransactionID]. *)
Definition closeTransaction : M err :=
  fun w =>
    (e <- dm_SetTransactionID (TransactionID (mem w)) (OpenTransactionID (trans (mem w))) ;;
     match e with
     | Some e => fails e
     | None => modify (fun w => set_mem (set_TransactionID (OpenTransactionID (trans (mem w)))) w) ;; ret None
     end) w.

(** ** Devices *)

Inductive dsError :=
| NoFreeID | IOError (e : dmError) | UnknownDevice (h : gostring) | AlreadyExists (h : gostring) | MarkedForDeletion (h : gostring)
| StillMounted (h : gostring) | OtherPath (h : gostring) | TooSmall | PoolInUse | DsFuel.
Abbreviation dsResult A := (result dsError A).

Definition loadMetadata (h : gostring) (w : world) : option devInfo :=
  match files w !! h with
  | Some i => if maxDeviceID <? DeviceID i then None else Some i
  | None => None
  end.
(** A device that is only on disk is loaded. *)
Definition lookupDevice (h : gostring) : M (option devInfo) :=
  fun w =>
    match Devices (mem w) !! h with
    | Some i => (w, Some (Some i))
    | None =>
        match loadMetadata h w with
        | Some i => (set_mem (set_Devices (fun m => <[h := i]> m)) w, Some (Some i))
        | None => (w, Some None)
        end
    end.

Definition registerDevice (id : Z) (h : gostring) (size tid : Z) : M err :=
  let info := mkDev id size tid false false 0 [] in
  modify (set_mem (set_Devices (fun m => <[h := info]> m))) ;;
  e <- saveMetadata h info ;;
  match e with
  | Some e => modify (set_mem (set_Devices (delete h))) ;; fails e
  | None => ret None
  end.
Definition unregisterDevice (h : gostring) : M err :=
  modify (set_mem (set_Devices (delete h))) ;; removeMetadata h.

(** The loop of [createRegisterDevice] and [createRegisterSnapDevice]: an ID that the
    pool has is left marked as used, and the next one is tried. *)
Fixpoint create_loop (fuel : nat) (create : Z → M err) (id : Z) : M (dsResult Z) :=
  match fuel with
  | O => ret (Err DsFuel)
  | S fuel =>
      e <- create id ;;
      match e with
      | None => ret (Ok id)
      | Some EExists =>
          next <- getNextFreeDeviceID ;;
          match next with
          | None => ret (Err NoFreeID)
          | Some id => refreshTransaction id ;; create_loop fuel create id
          end
      | Some e => free_id id ;; ret (Err (IOError e))
      end
  end.
(** After the last ID there is none left. *)
Definition create_fuel : nat := S (S (Z.to_nat (maxDeviceID + 1))).

Definition create_register (create : Z → M err) (h : gostring) (size : Z) : M (dsResult unit) :=
  next <- getNextFreeDeviceID ;;
  match next with
  | None => ret (Err NoFreeID)
  | Some id =>
      e <- openTransaction h id ;;
      match e with
      | Some e => free_id id ;; ret (Err (IOError e))
      | None =>
          r <- create_loop create_fuel create id ;;
          match r with
          | Err e => ret (Err e)
          | Ok id =>
              tid <- gets (fun w => OpenTransactionID (trans (mem w))) ;;
              e <- registerDevice id h size tid ;;
              match e with
              | Some e => dm_DeleteDevice id ;; free_id id ;; ret (Err (IOError e))
              | None =>
                  e <- closeTransaction ;;
                  match e with
                  | Some e => unregisterDevice h ;; dm_DeleteDevice id ;; free_id id ;; ret (Err (IOError e))
                  | None => ret (Ok tt)
                  end
              end
          end
      end
  end.
Definition createRegisterDevice (h : gostring) (baseFsSize : Z) : M (dsResult unit) := create_register dm_CreateDevice h baseFsSize.
Definition createRegisterSnapDevice (h : gostring) (baseInfo : devInfo) : M (dsResult unit) :=
  create_register (dm_CreateSnapDevice (DeviceID baseInfo)) h (Size baseInfo).

Definition AddDevice (h baseHash : gostring) : M (dsResult unit) :=
  b <- lookupDevice baseHash ;;
  match b with
  | None => ret (Err (UnknownDevice baseHash))
  | Some baseInfo =>
      if Deleted baseInfo then ret (Err (MarkedForDeletion baseHash))
      else
        i <- lookupDevice h ;;
        match i with
        | Some _ => ret (Err (AlreadyExists h))
        | None => createRegisterSnapDevice h baseInfo
        end
  end.

(** The device in memory is marked when its file could be written. *)
Definition markForDeferredDeletion (h : gostring) (i : devInfo) : M err :=
  if Deleted i then ret None
  else
    let i' := mkDev (DeviceID i) (Size i) (dev_TransactionID i) (Initialized i) true (mountCount i) (mountPath i) in
    e <- saveMetadata h i' ;;
    match e with
    | Some e => fails e
    | None => modify (set_mem (fun s => set_nrDeleted (fun n => (n + 1) mod 2 ^ 64) (set_Devices (fun m => <[h := i']> m) s))) ;; ret None
    end.

(** [deleteTransaction]; the transaction is closed whatever happens, and the error of
    closing it is not looked at. *)
Definition delete_body (deferredDelete syncDelete : bool) (h : gostring) (i : devInfo) : M err :=
  e <- dm_DeleteDevice (DeviceID i) ;;
  match e with
  | None =>
      e <- unregisterDevice h ;;
      match e with
      | Some e => fails e
      | None =>
          modify (set_mem (fun s => set_deviceIDMap (markDeviceIDFree (DeviceID i))
            (if Deleted i then set_nrDeleted (fun n => (n - 1) mod 2 ^ 64) s else s))) ;;
          ret None
      end
  | Some e =>
      if syncDelete || negb deferredDelete || negb (match e with EBusy => true | _ => false end) then fails e
      else markForDeferredDeletion h i
  end.
Definition deleteTransaction (deferredDelete syncDelete : bool) (h : gostring) (i : devInfo) : M err :=
  e <- openTransaction h (DeviceID i) ;;
  match e with
  | Some e => fails e
  | None =>
      r <- delete_body deferredDelete syncDelete h i ;;
      closeTransaction ;;
      ret r
  end.

(** The device is deactivated first; discarding its blocks has no effect here. *)
Definition deleteDevice (deferredDelete syncDelete : bool) (h : gostring) (i : devInfo) : M (dsResult unit) :=
  e <- dm_other ;;
  match e with
  | Some e => ret (Err (IOError e))
  | None =>
      e <- deleteTransaction deferredDelete syncDelete h i ;;
      ret (match e with Some e => Err (IOError e) | None => Ok tt end)
  end.

Definition DeleteDevice (deferredDelete syncDelete : bool) (h : gostring) : M (dsResult unit) :=
  i <- lookupDevice h ;;
  match i with
  | None => ret (Err (UnknownDevice h))
  | Some i =>
      if negb (mountCount i =? 0) then ret (Err (StillMounted h))
      else deleteDevice deferredDelete syncDelete h i
  end.

(** The worker that tries again what could not be deleted at once. *)
Fixpoint delete_all (deferredDelete : bool) (hs : list gostring) : M unit :=
  match hs with
  | [] => ret tt
  | h :: hs => DeleteDevice deferredDelete false h ;; delete_all deferredDelete hs
  end.
Definition cleanupDeletedDevices (deferredDelete : bool) (range : gmap gostring devInfo → list (gostring * devInfo)) : M unit :=
  fun w =>
    if nrDeletedDevices (mem w) =? 0 then (w, Some tt)
    else delete_all deferredDelete ((filter (fun kv => Deleted kv.2 = true) (range (Devices (mem w)))).*1) w.

(** ** Mounts *)

Definition set_mount (h : gostring) (count : Z) (path : gostring) : M unit :=
  modify (set_mem (set_Devices (alter (fun i => mkDev (DeviceID i) (Size i) (dev_TransactionID i) (Initialized i) (Deleted i) count path) h))).

(** [dm_other] is the activation with the probe of the file system, and the mount. *)
Definition MountDevice (h path : gostring) : M (dsResult unit) :=
  i <- lookupDevice h ;;
  match i with
  | None => ret (Err (UnknownDevice h))
  | Some i =>
      if Deleted i then ret (Err (MarkedForDeletion h))
      else if 0 <? mountCount i then
        if negb (path =s mountPath i) then ret (Err (OtherPath h))
        else set_mount h (mountCount i + 1) (mountPath i) ;; ret (Ok tt)
      else
        e <- dm_other ;;
        match e with
        | Some e => ret (Err (IOError e))
        | None =>
            e <- dm_other ;;
            match e with
            | Some e => ret (Err (IOError e))
            | None => set_mount h 1 path ;; ret (Ok tt)
            end
        end
  end.

(** The count does not become negative. *)
Definition UnmountDevice (h path : gostring) : M (dsResult unit) :=
  i <- lookupDevice h ;;
  match i with
  | None => ret (Err (UnknownDevice h))
  | Some i =>
      let count := mountCount i - 1 in
      if 0 <? count then set_mount h count (mountPath i) ;; ret (Ok tt)
      else
        set_mount h 0 (mountPath i) ;;
        e <- dm_other ;;
        match e with
        | Some e => ret (Err (IOError e))
        | None =>
            e <- dm_other ;;
            match e with
            | Some e => ret (Err (IOError e))
            | None => set_mount h 0 [] ;; ret (Ok tt)
            end
        end
  end.

(** ** Starting *)

Definition removeTransactionMetaData : M err := call (modify (set_transFile None) ;; ret None) fails.

(** The transaction in memory is undone; the map of devices is left as it is. *)
Definition rollbackTransaction : M unit :=
  fun w =>
    let t := trans (mem w) in
    (dm_DeleteDevice (trans_DeviceID t) ;;
     e <- removeMetadata (DeviceIDHash t) ;;
     (match e with Some _ => ret tt | None => free_id (trans_DeviceID t) end) ;;
     removeTransactionMetaData ;;
     ret tt) w.

Definition loadTransactionMetaData : M unit :=
  modify (fun w => set_mem (set_trans
    (match transFile w with
     | None => mkTrans (TransactionID (mem w)) (DeviceIDHash (trans (mem w))) (trans_DeviceID (trans (mem w)))
     | Some t => t
     end)) w).

Definition processPendingTransaction : M unit :=
  loadTransactionMetaData ;;
  fun w =>
    let t := trans (mem w) in
    if (TransactionID (mem w) =? OpenTransactionID t) || (OpenTransactionID t <? TransactionID (mem w)) then (w, Some tt)
    else
      (rollbackTransaction ;;
       modify (fun w => set_mem (set_trans (mkTrans (TransactionID (mem w)) (DeviceIDHash (trans (mem w))) (trans_DeviceID (trans (mem w))))) w)) w.

(** [constructDeviceIDMap] and [countDeletedDevices]. *)
Definition constructDeviceIDMap (ds : gmap gostring devInfo) : gmap Z Z := map_fold (fun _ i m => markDeviceIDUsed (DeviceID i) m) ∅ ds.
Definition countDeletedDevices (ds : gmap gostring devInfo) : Z := Z.of_nat (size (filter (fun kv => Deleted kv.2 = true) ds)).

(** [NewDeviceSet] and [initMetaData], then [loadDeviceSetMetaData]; a metadata file that
    does not load makes the start fail. *)
Definition restart : M (dsResult unit) :=
  fun w =>
    if bool_decide (map_Forall (fun _ i => DeviceID i ≤ maxDeviceID) (files w)) then
      (modify (set_mem (fun _ =>
         mkSet (files w) (poolTid w) 0 (constructDeviceIDMap (files w)) (mkTrans 0 [] 0) (countDeletedDevices (files w)))) ;;
       processPendingTransaction ;;
       modify (fun w => match savedNext w with Some n => set_mem (set_NextDeviceID n) w | None => w end) ;;
       ret (Ok tt)) w
    else (w, Some (Err (UnknownDevice []))).

(** The part of [Shutdown] that is kept. *)
Definition saveDeviceSetMetaData : M err := call (fun w => (set_savedNext (NextDeviceID (mem w)) w, Some None)) fails.

(** ** The base image *)

(** What follows only if a call succeeded. *)
Definition andThen (m : M err) (k : M (dsResult unit)) : M (dsResult unit) :=
  e <- m ;; match e with Some e => ret (Err (IOError e)) | None => k end.

(** The fields of a device in memory. *)
Definition set_Initialized (h : gostring) (b : bool) : M unit :=
  modify (set_mem (set_Devices (alter (fun i => mkDev (DeviceID i) (Size i) (dev_TransactionID i) b (Deleted i) (mountCount i) (mountPath i)) h))).
Definition set_Size (h : gostring) (n : Z) : M unit :=
  modify (set_mem (set_Devices (alter (fun i => mkDev (DeviceID i) n (dev_TransactionID i) (Initialized i) (Deleted i) (mountCount i) (mountPath i)) h))).
Definition save_device (h : gostring) : M err :=
  i <- gets (fun w => Devices (mem w) !! h) ;; match i with Some i => saveMetadata h i | None => ret None end.

(** The device is activated and its UUID is read. *)
Definition saveBaseDeviceUUID : M (dsResult unit) := andThen dm_other (andThen dm_other (andThen saveDeviceSetMetaData (ret (Ok tt)))).
Definition createFilesystem (k : M (dsResult unit)) : M (dsResult unit) := andThen saveDeviceSetMetaData (andThen dm_other k).

Definition createBaseImage (baseFsSize : Z) : M (dsResult unit) :=
  r <- createRegisterDevice [] baseFsSize ;;
  match r with
  | Err e => ret (Err e)
  | Ok _ =>
      andThen dm_other
        (createFilesystem
           (set_Initialized [] true ;;
            e <- save_device [] ;;
            match e with
            | Some e => set_Initialized [] false ;; ret (Err (IOError e))
            | None => saveBaseDeviceUUID
            end))
  end.

(** Whether the UUID and the file system of the base image were saved before. *)
Definition setupVerifyBaseImageUUIDFS (haveUUID haveFS : bool) : M (dsResult unit) :=
  if negb haveUUID then saveBaseDeviceUUID
  else andThen dm_other (andThen dm_other (if haveFS then ret (Ok tt) else andThen dm_other (andThen saveDeviceSetMetaData (ret (Ok tt))))).
Definition checkGrowBaseDeviceFS (userBaseSize : bool) (baseFsSize : Z) (i : devInfo) : M (dsResult unit) :=
  if negb userBaseSize then ret (Ok tt)
  else if baseFsSize <? Size i then ret (Err TooSmall)
  else if baseFsSize =? Size i then ret (Ok tt)
  else
    set_Size [] baseFsSize ;;
    e <- save_device [] ;;
    match e with
    | Some e => modify (set_mem (set_Devices (delete []))) ;; ret (Err (IOError e))
    | None => andThen dm_other (ret (Ok tt))
    end.
(** The pool must be empty, and no transaction may have been made. *)
Definition checkThinPool (k : M (dsResult unit)) : M (dsResult unit) :=
  andThen dm_other (fun w => if negb (poolTid w =? 0) then (w, Some (Err PoolInUse)) else k w).

Definition setupBaseImage (deferredDelete thinPoolDevice userBaseSize haveUUID haveFS : bool) (baseFsSize : Z) : M (dsResult unit) :=
  oldInfo <- lookupDevice [] ;;
  match oldInfo with
  | Some i =>
      if Initialized i && negb (Deleted i) then
        r <- setupVerifyBaseImageUUIDFS haveUUID haveFS ;;
        match r with
        | Err e => ret (Err e)
        | Ok _ => checkGrowBaseDeviceFS userBaseSize baseFsSize i
        end
      else
        r <- DeleteDevice deferredDelete true [] ;;
        match r with
        | Err e => ret (Err e)
        | Ok _ => createBaseImage baseFsSize
        end
  | None => if thinPoolDevice then checkThinPool (createBaseImage baseFsSize) else createBaseImage baseFsSize
  end.

(** ** The driver *)

Definition HasDevice (h : gostring) : M bool := i <- lookupDevice h ;; ret (match i with Some _ => true | None => false end).
Definition Create (id parent : gostring) : M (dsResult unit) := AddDevice id parent.
(** A device that does not exist is removed already. *)
Definition Remove (deferredDelete : bool) (id : gostring) : M (dsResult unit) :=
  b <- HasDevice id ;;
  if negb b then ret (Ok tt)
  else
    r <- DeleteDevice deferredDelete false id ;;
    match r with Err e => ret (Err e) | Ok _ => andThen dm_other (ret (Ok tt)) end.
(** The directories are made, the device is mounted, and unmounted again if it cannot
    be prepared. *)
Definition Get (mp id : gostring) : M (dsResult unit) :=
  andThen dm_other
    (r <- MountDevice id mp ;;
     match r with
     | Err e => ret (Err e)
     | Ok _ =>
         e <- dm_other ;;
         match e with
         | Some e => UnmountDevice id mp ;; ret (Err (IOError e))
         | None => ret (Ok tt)
         end
     end).
Definition Put (mp id : gostring) : M (dsResult unit) := UnmountDevice id mp.

End ids.
End DeviceSet.
