(* ===== verification/DeviceSetFacts.v ===== *)
(** * DeviceSetFacts: devices are not lost, shared or half made

    Theorems about [DeviceSet]: the bitmap is a set of IDs, the search for a free ID
    finds one if there is one, no two layers share a device and every layer's device is
    in the pool, whichever calls fail; after a stop of the machine at any point of an
    operation, the next start restores this on disk.  It does not restore it in memory,
    and the consequence is shown on an example. *)

From S2P Require Import Prelude Strconv DeviceSet.
Import Strings DeviceSet.DeviceSet.

Local Open Scope Z_scope.

Abbreviation dsResult A := (result dsError A).

(** ** The bitmap *)

Section bitmap.
  Implicit Types (m : gmap Z Z) (i j : Z).

Lemma isFree_testbit i m : 0 ≤ i → isDeviceIDFree i m = negb (Z.testbit (byte_of m i) (i mod 8)).
Proof.
  intros Hi. unfold isDeviceIDFree. pose proof (Z.mod_pos_bound i 8 ltac:(lia)) as Hk. generalize (byte_of m i). intros b.
  assert (∀ n, 0 ≤ n → Z.testbit (Z.land b (Z.shiftl 1 (i mod 8))) n = Z.testbit b n && (n =? i mod 8)) as Hl.
  { intros n Hn. rewrite Z.land_spec, Z.shiftl_spec by lia. f_equal. destruct (Z.eqb_spec n (i mod 8)) as [->|Hne].
    - by rewrite Z.sub_diag.
    - destruct (Z.lt_ge_cases n (i mod 8)); [by rewrite Z.testbit_neg_r by lia|].
      change 1 with (2 ^ 0). rewrite Z.pow2_bits_eqb by lia. apply Z.eqb_neq. lia. }
  destruct (Z.testbit b (i mod 8)) eqn:Eb; simpl.
  - apply Z.eqb_neq. intros H0. specialize (Hl (i mod 8) ltac:(lia)). rewrite H0, Eb, Z.bits_0, Z.eqb_refl in Hl. done.
  - apply Z.eqb_eq, Z.bits_inj'. intros n Hn. rewrite Hl, Z.bits_0 by done. destruct (Z.eqb_spec n (i mod 8)) as [->|]; [by rewrite Eb|].
    apply andb_false_r.
Qed.

Lemma byte_of_insert i j b m : byte_of (<[i / 8 := b]> m) j = if decide (i / 8 = j / 8) then b else byte_of m j.
Proof.
  unfold byte_of. destruct (decide (i / 8 = j / 8)) as [->|Hne]; [by rewrite lookup_insert_eq|by rewrite lookup_insert_ne].
Qed.

Lemma same_bit i j : 0 ≤ i → 0 ≤ j → i / 8 = j / 8 → i mod 8 = j mod 8 → i = j.
Proof. intros. rewrite (Z.div_mod i 8), (Z.div_mod j 8) by lia. congruence. Qed.

Lemma shifted_bit k n : 0 ≤ k → 0 ≤ n → Z.testbit (Z.shiftl 1 k) n = (n =? k).
Proof.
  intros Hk Hn. rewrite Z.shiftl_1_l, Z.pow2_bits_eqb by lia. apply Bool.eq_iff_eq_true. rewrite !Z.eqb_eq. lia.
Qed.

Lemma isFree_used i j m : 0 ≤ i → 0 ≤ j → isDeviceIDFree j (markDeviceIDUsed i m) = isDeviceIDFree j m && negb (i =? j).
Proof.
  intros Hi Hj. rewrite !isFree_testbit by done. unfold markDeviceIDUsed. rewrite byte_of_insert.
  pose proof (Z.mod_pos_bound i 8 ltac:(lia)). pose proof (Z.mod_pos_bound j 8 ltac:(lia)).
  destruct (decide (i / 8 = j / 8)) as [Hd|Hd].
  - rewrite Z.lor_spec, shifted_bit, negb_orb by lia. replace (byte_of m i) with (byte_of m j) by (unfold byte_of; by rewrite Hd).
    f_equal. f_equal. apply Bool.eq_iff_eq_true. rewrite !Z.eqb_eq. split; [intros; by apply same_bit|by intros ->].
  - destruct (Z.eqb_spec i j) as [->|]; [done|]. by rewrite andb_true_r.
Qed.

Lemma isFree_freed i j m : 0 ≤ i → 0 ≤ j → isDeviceIDFree j (markDeviceIDFree i m) = isDeviceIDFree j m || (i =? j).
Proof.
  intros Hi Hj. rewrite !isFree_testbit by done. unfold markDeviceIDFree. rewrite byte_of_insert.
  pose proof (Z.mod_pos_bound i 8 ltac:(lia)). pose proof (Z.mod_pos_bound j 8 ltac:(lia)).
  destruct (decide (i / 8 = j / 8)) as [Hd|Hd].
  - rewrite Z.land_spec, Z.lxor_spec, shifted_bit by lia. replace (byte_of m i) with (byte_of m j) by (unfold byte_of; by rewrite Hd).
    change 255 with (Z.ones 8). rewrite Z.ones_spec_low by lia. rewrite negb_andb, negb_xorb. f_equal.
    apply Bool.eq_iff_eq_true. rewrite Bool.eqb_true_iff, Z.eqb_eq. destruct (Z.eqb_spec (j mod 8) (i mod 8)).
    + split; [intros _; by apply same_bit|done].
    + split; [done|]. intros ->. done.
  - destruct (Z.eqb_spec i j) as [->|]; [done|]. by rewrite orb_false_r.
Qed.

End bitmap.

(** ** Programs *)

(** Once a metadata file could not be removed, nothing is claimed: [mono] says that a
    program does not forget this, and [wp] is what holds unless it happened, [Q] when
    the program returns and [C] when the machine stops. *)
Section programs.
  Implicit Types (w : world).

Definition mono {A} (m : M A) : Prop := ∀ w, rm_failed w = true → rm_failed (m w).1 = true.
Definition wp {A} (m : M A) (Q : A → world → Prop) (C : world → Prop) w : Prop :=
  rm_failed (m w).1 = true ∨ match m w with (w', Some x) => Q x w' | (w', None) => C w' end.

Lemma mono_ret {A} (x : A) : mono (ret x).
Proof. by intros w. Qed.
Lemma mono_gets {A} (f : world → A) : mono (gets f).
Proof. by intros w. Qed.
Lemma mono_modify f : (∀ w, rm_failed w = true → rm_failed (f w) = true) → mono (modify f).
Proof. intros H w. apply H. Qed.
Lemma mono_bind {A B} (m : M A) (k : A → M B) : mono m → (∀ x, mono (k x)) → mono (bind m k).
Proof. intros Hm Hk w Hw. specialize (Hm w Hw). unfold bind. destruct (m w) as [w' [x|]]; [by apply Hk|done]. Qed.
Lemma mono_call {A} (good : M A) bad : mono good → (∀ e, mono (bad e)) → mono (call good bad).
Proof. intros Hg Hb w Hw. unfold call. destruct (outcomes w) as [|[]]; [by apply Hg|by apply Hg|by apply Hb|done]. Qed.

Lemma wp_ret {A} (x : A) Q C w : Q x w → wp (ret x) Q C w.
Proof. by right. Qed.
Lemma wp_gets {A} (f : world → A) Q C w : Q (f w) w → wp (gets f) Q C w.
Proof. by right. Qed.
Lemma wp_modify f Q C w : Q tt (f w) → wp (modify f) Q C w.
Proof. by right. Qed.
Lemma wp_bind {A B} (m : M A) (k : A → M B) Q C w :
  (∀ x, mono (k x)) → wp m (fun x w' => wp (k x) Q C w') C w → wp (bind m k) Q C w.
Proof.
  intros Hk [Hw|Hw]; unfold wp, bind in *; destruct (m w) as [w' [x|]]; simpl in *; auto. left. by apply Hk.
Qed.
Lemma wp_call {A} (good : M A) bad Q C w :
  (∀ o, wp good Q C (set_outcomes o w)) → (∀ e o, wp (bad e) Q C (set_outcomes o w)) → (∀ o, C (set_outcomes o w)) →
  wp (call good bad) Q C w.
Proof.
  intros Hg Hb Hs. unfold wp, call in *. destruct (outcomes w) as [|[] o] eqn:E; [|apply Hg|apply Hb|right; apply Hs].
  specialize (Hg []). by destruct w; simpl in *; subst.
Qed.
Lemma wp_weaken {A} (m : M A) (Q Q' : A → world → Prop) (C C' : world → Prop) w :
  wp m Q C w → (∀ x w', Q x w' → Q' x w') → (∀ w', C w' → C' w') → wp m Q' C' w.
Proof. intros [H|H] HQ HC; [by left|right]. destruct (m w) as [w' [x|]]; auto. Qed.

End programs.

Create HintDb dm.
#[export] Hint Resolve mono_ret mono_gets : dm.

(** Follows the structure of a program down to its primitives. *)
Ltac mono :=
  repeat match goal with
  | |- mono (bind _ _) => apply mono_bind
  | |- mono (call _ _) => apply mono_call
  | |- mono (modify _) => apply mono_modify
  | |- mono (match ?x with _ => _ end) => destruct x
  | |- mono _ => solve [auto with dm]
  | |- mono (fun _ => _) => intros ??; cbn; repeat case_match; cbn; by auto
  | |- ∀ _, _ => intros ?
  | |- rm_failed _ = true => by cbn; auto
  end.

(** ** The search for a free ID *)

Section ids.
  Context (idBits : nat).
  Abbreviation maxID := (maxDeviceID idBits).
  Implicit Types (w : world) (h : gostring) (i : devInfo) (id : Z).

Definition in_pool id : Prop := 0 ≤ id ≤ maxID.

Lemma maxID_pos : 0 ≤ maxID.
Proof. unfold maxDeviceID. pose proof (Z.pow_pos_nonneg 2 (Z.of_nat idBits)). lia. Qed.

Lemma incNext_mod n : incNextDeviceID idBits n = (n + 1) mod (maxID + 1).
Proof.
  unfold incNextDeviceID, maxDeviceID. rewrite Z.sub_add.
  replace (2 ^ Z.of_nat idBits - 1) with (Z.ones (Z.of_nat idBits)) by (rewrite Z.ones_equiv; lia). apply Z.land_ones. lia.
Qed.

Lemma incNext_range n : in_pool (incNextDeviceID idBits n).
Proof. rewrite incNext_mod. pose proof (Z.mod_pos_bound (n + 1) (maxID + 1)). pose proof maxID_pos. unfold in_pool. lia. Qed.

Lemma find_free_spec fuel next m :
  in_pool next →
  in_pool (find_free idBits fuel next m).2 ∧
  match (find_free idBits fuel next m).1 with
  | Some id => in_pool id ∧ isDeviceIDFree id m = true
  | None => ∀ k, (k < fuel)%nat → isDeviceIDFree ((next + Z.of_nat k) mod (maxID + 1)) m = false
  end.
Proof.
  pose proof maxID_pos as Hp. revert next. induction fuel as [|fuel IH]; intros next Hn; cbn [find_free].
  { simpl. split; [done|]. intros. lia. }
  destruct (isDeviceIDFree next m) eqn:Ef; [done|]. destruct (IH (incNextDeviceID idBits next) (incNext_range next)) as [H1 H2].
  split; [done|]. destruct (find_free idBits fuel _ m).1; [done|]. intros [|k] Hk.
  - rewrite Z.add_0_r, Z.mod_small by (unfold in_pool in Hn; lia). done.
  - specialize (H2 k ltac:(lia)). rewrite incNext_mod, Zplus_mod_idemp_l in H2.
    by replace (next + Z.of_nat (S k)) with (next + 1 + Z.of_nat k) by lia.
Qed.

Lemma find_free_next fuel next m id n : find_free idBits fuel next m = (Some id, n) → n = id.
Proof. revert next. induction fuel as [|fuel IH]; intros next; simpl; [done|]. destruct (isDeviceIDFree next m); [congruence|apply IH]. Qed.

(** What the search returns, and what it leaves alone. *)
Lemma getNext_cases w :
  (∃ next, getNextFreeDeviceID idBits w = (set_mem (set_NextDeviceID next) w, Some None) ∧
     ∀ id, in_pool id → isDeviceIDFree id (deviceIDMap (mem w)) = false) ∨
  (∃ id, getNextFreeDeviceID idBits w =
     (set_mem (fun s => set_deviceIDMap (markDeviceIDUsed id) (set_NextDeviceID id s)) w, Some (Some id)) ∧
     in_pool id ∧ isDeviceIDFree id (deviceIDMap (mem w)) = true).
Proof.
  unfold getNextFreeDeviceID. set (s := incNextDeviceID idBits (NextDeviceID (mem w))).
  pose proof (incNext_range (NextDeviceID (mem w))) as Hs. fold s in Hs.
  pose proof (find_free_spec (Z.to_nat (maxID + 1)) s (deviceIDMap (mem w)) Hs) as [_ Hf].
  destruct (find_free _ _ _ _) as [[id|] next] eqn:E; simpl in *.
  - right. exists id. apply find_free_next in E as ->. split; [reflexivity|exact Hf].
  - left. exists next. split; [done|]. intros id Hid.
    specialize (Hf (Z.to_nat ((id - s) mod (maxID + 1)))). pose proof maxID_pos. unfold in_pool in *.
    pose proof (Z.mod_pos_bound (id - s) (maxID + 1) ltac:(lia)) as Hm. rewrite Z2Nat.id in Hf by lia.
    rewrite Zplus_mod_idemp_r in Hf. replace (s + (id - s)) with id in Hf by lia. rewrite (Z.mod_small id) in Hf by lia. apply Hf. lia.
Qed.

(** The search for a device ID returns one that is free and marks it as used, and
    fails only when every ID of the pool is used. *)
Theorem getNextFreeDeviceID_spec w :
  match getNextFreeDeviceID idBits w with
  | (w', Some (Some id)) =>
      in_pool id ∧ isDeviceIDFree id (deviceIDMap (mem w)) = true ∧
      ∀ j, 0 ≤ j → isDeviceIDFree j (deviceIDMap (mem w')) = isDeviceIDFree j (deviceIDMap (mem w)) && negb (id =? j)
  | (w', Some None) => ∀ id, in_pool id → isDeviceIDFree id (deviceIDMap (mem w)) = false
  | (_, None) => False
  end.
Proof.
  destruct (getNext_cases w) as [(next&->&H)|(id&->&Hr&Hf)]; simpl; [exact H|].
  split_and!; [apply Hr..|done|]. intros j Hj. apply isFree_used; [apply Hr|done].
Qed.

(** ** No program forgets that a removal failed *)

Lemma mono_fails e : mono (fails e).
Proof. unfold fails. mono. Qed.
#[local] Hint Resolve mono_fails : dm.
Lemma mono_getNext : mono (getNextFreeDeviceID idBits).
Proof. intros w Hw. destruct (getNext_cases w) as [(next&->&_)|(id&->&_)]; done. Qed.
Lemma mono_dm_other : mono dm_other.
Proof. unfold dm_other. mono. Qed.
Lemma mono_dm_Create id : mono (dm_CreateDevice id).
Proof. unfold dm_CreateDevice. mono. Qed.
Lemma mono_dm_CreateSnap base id : mono (dm_CreateSnapDevice base id).
Proof.
  apply mono_call; [|mono]. intros w Hw. case_bool_decide; [done|]. case_bool_decide; [done|].
  by apply (mono_call (ret None) (fun _ => fails EOther)); [mono..|].
Qed.
Lemma mono_dm_Delete id : mono (dm_DeleteDevice id).
Proof. unfold dm_DeleteDevice. mono. Qed.
Lemma mono_dm_Set old new : mono (dm_SetTransactionID old new).
Proof. unfold dm_SetTransactionID. mono. Qed.
Lemma mono_saveMetadata h i : mono (saveMetadata h i).
Proof. unfold saveMetadata. mono. Qed.
Lemma mono_removeMetadata h : mono (removeMetadata h).
Proof. unfold removeMetadata. mono. Qed.
Lemma mono_saveTransaction : mono saveTransactionMetaData.
Proof. unfold saveTransactionMetaData. mono. Qed.
Lemma mono_removeTransaction : mono removeTransactionMetaData.
Proof. unfold removeTransactionMetaData. mono. Qed.
Lemma mono_free_id id : mono (free_id id).
Proof. unfold free_id. mono. Qed.
Lemma mono_lookup h : mono (lookupDevice idBits h).
Proof. unfold lookupDevice. mono. Qed.
#[local] Hint Resolve mono_getNext mono_dm_other mono_dm_Create mono_dm_CreateSnap mono_dm_Delete mono_dm_Set mono_saveMetadata
  mono_removeMetadata mono_saveTransaction mono_removeTransaction mono_free_id mono_lookup : dm.
Lemma mono_open h id : mono (openTransaction h id).
Proof. unfold openTransaction. mono. Qed.
Lemma mono_refresh id : mono (refreshTransaction id).
Proof. unfold refreshTransaction. mono. Qed.
Lemma mono_close : mono closeTransaction.
Proof. intros w. unfold closeTransaction. apply mono_bind; mono. Qed.
Lemma mono_register id h size tid : mono (registerDevice id h size tid).
Proof. unfold registerDevice. mono. Qed.
Lemma mono_unregister h : mono (unregisterDevice h).
Proof. unfold unregisterDevice. mono. Qed.
#[local] Hint Resolve mono_open mono_refresh mono_close mono_register mono_unregister : dm.
Lemma mono_create_loop fuel create id : (∀ id, mono (create id)) → mono (create_loop idBits fuel create id).
Proof. intros Hc. revert id. induction fuel as [|fuel IH]; intros id; simpl; mono. Qed.
Lemma mono_create create h size : (∀ id, mono (create id)) → mono (create_register idBits create h size).
Proof. intros Hc. unfold create_register. pose proof (mono_create_loop (create_fuel idBits) create). mono. Qed.
Lemma mono_mark h i : mono (markForDeferredDeletion h i).
Proof. unfold markForDeferredDeletion. mono. Qed.
#[local] Hint Resolve mono_mark : dm.
Lemma mono_delete_body d sy h i : mono (delete_body d sy h i).
Proof. unfold delete_body. mono. Qed.
#[local] Hint Resolve mono_delete_body : dm.
Lemma mono_deleteTransaction d sy h i : mono (deleteTransaction d sy h i).
Proof. unfold deleteTransaction. mono. Qed.
#[local] Hint Resolve mono_deleteTransaction : dm.
Lemma mono_set_mount h n q : mono (set_mount h n q).
Proof. unfold set_mount. mono. Qed.
#[local] Hint Resolve mono_set_mount : dm.
Lemma mono_rollback : mono rollbackTransaction.
Proof. intros w. unfold rollbackTransaction. apply mono_bind; mono. Qed.
Lemma mono_loadTransaction : mono loadTransactionMetaData.
Proof. unfold loadTransactionMetaData. mono. Qed.
#[local] Hint Resolve mono_rollback mono_loadTransaction : dm.
Lemma mono_process : mono processPendingTransaction.
Proof. unfold processPendingTransaction. mono. intros w Hw. case_match; [done|]. apply mono_bind; mono. Qed.

(** ** What is on disk, and what is in memory *)

(** The transaction that the next start would roll back. *)
Definition pending (tf : option transaction) (pt : Z) : option transaction :=
  match tf with Some t => if pt <? OpenTransactionID t then Some t else None | None => None end.

(** Whatever happened, layers have devices of their own, and a device that is not in
    the pool, or is to be deleted at the next start, is the one of the open transaction. *)
Record disk_ok (fs : gmap gostring devInfo) (tf : option transaction) (pl : gset Z) (pt : Z) : Prop := {
  d_range : ∀ h i, fs !! h = Some i → in_pool (DeviceID i);
  d_stored : ∀ h i, fs !! h = Some i → stored i = i;
  d_distinct : ∀ h1 h2 i1 i2, fs !! h1 = Some i1 → fs !! h2 = Some i2 → DeviceID i1 = DeviceID i2 → h1 = h2;
  d_pool : ∀ h i, fs !! h = Some i → DeviceID i ∈ pl ∨ ∃ t, pending tf pt = Some t ∧ DeviceIDHash t = h;
  d_pending : ∀ t, pending tf pt = Some t →
    in_pool (trans_DeviceID t) ∧ ∀ h i, fs !! h = Some i → DeviceID i = trans_DeviceID t → h = DeviceIDHash t;
}.

(** Between operations every layer's device is in the pool and marked as used, and
    memory agrees with the disk. *)
Record mem_ok (ds : gmap gostring devInfo) (tid : Z) (bm : gmap Z Z)
  (fs : gmap gostring devInfo) (tf : option transaction) (pl : gset Z) (pt : Z) : Prop := {
  m_disk : disk_ok fs tf pl pt;
  m_pool : ∀ h i, fs !! h = Some i → DeviceID i ∈ pl;
  m_tid : tid = pt;
  m_dev : ∀ h i, ds !! h = Some i → fs !! h = Some (stored i);
  m_used : ∀ h i, fs !! h = Some i → isDeviceIDFree (DeviceID i) bm = false;
}.
Abbreviation disk_inv w := (disk_ok (files w) (transFile w) (pool w) (poolTid w)).
Abbreviation inv w :=
  (mem_ok (Devices (mem w)) (TransactionID (mem w)) (deviceIDMap (mem w)) (files w) (transFile w) (pool w) (poolTid w)).

Definition same_disk w w' : Prop :=
  files w' = files w ∧ transFile w' = transFile w ∧ pool w' = pool w ∧ poolTid w' = poolTid w.

(** What a stop during an operation on [h] may leave of the files [fs] and the
    transaction file [tf] that were there. *)
Definition stopped h (fs : gmap gostring devInfo) (tf : option transaction) (pt : Z) w : Prop :=
  disk_inv w ∧
  (files w = fs ∧ transFile w = tf ∧ poolTid w = pt ∨
   delete h (files w) = delete h fs ∧ ∃ t, pending (transFile w) (poolTid w) = Some t ∧ DeviceIDHash t = h).

(** *** Steps that keep memory and disk in agreement *)

Section keep.
  Context (ds : gmap gostring devInfo) (tid : Z) (bm : gmap Z Z) (fs : gmap gostring devInfo) (tf : option transaction) (pl : gset Z) (pt : Z).
  Implicit Types (Hm : mem_ok ds tid bm fs tf pl pt).
  Abbreviation unused id := (∀ h i, fs !! h = Some i → DeviceID i ≠ id).

Lemma keep_free id : mem_ok ds tid bm fs tf pl pt → 0 ≤ id → unused id → mem_ok ds tid (markDeviceIDFree id bm) fs tf pl pt.
Proof.
  intros [Hd Hp Ht Hm Hu] Hid Hn. split; try done. intros h i Hi. pose proof (d_range _ _ _ _ Hd _ _ Hi) as [Hr _].
  rewrite isFree_freed by done. rewrite (Hu _ _ Hi). apply Z.eqb_neq. intros ->. by apply (Hn _ _ Hi).
Qed.
Lemma keep_used id : mem_ok ds tid bm fs tf pl pt → 0 ≤ id → mem_ok ds tid (markDeviceIDUsed id bm) fs tf pl pt.
Proof.
  intros [Hd Hp Ht Hm Hu] Hid. split; try done. intros h i Hi. pose proof (d_range _ _ _ _ Hd _ _ Hi) as [Hr _].
  rewrite isFree_used by done. by rewrite (Hu _ _ Hi).
Qed.
(** A transaction is opened, on a device that is that layer's if it is in use. *)
Lemma keep_open t :
  mem_ok ds tid bm fs tf pl pt → in_pool (trans_DeviceID t) →
  (∀ h i, fs !! h = Some i → DeviceID i = trans_DeviceID t → h = DeviceIDHash t) → mem_ok ds tid bm fs (Some t) pl pt.
Proof.
  intros [Hd Hp Ht Hm Hu] Hr Hn. split; try done. destruct Hd. split; try done.
  - intros h i Hi. left. by eapply Hp.
  - intros t' Ht'. unfold pending in Ht'. case_match; simplify_eq. done.
Qed.
(** A transaction is closed. *)
Lemma keep_close t :
  mem_ok ds tid bm fs (Some t) pl pt → mem_ok ds (OpenTransactionID t) bm fs (Some t) pl (OpenTransactionID t).
Proof.
  intros [Hd Hp Ht Hm Hu]. split; try done. destruct Hd. split; try done.
  - intros h i Hi. left. by eapply Hp.
  - intros t' Ht'. unfold pending in Ht'. by rewrite Z.ltb_irrefl in Ht'.
Qed.
Lemma keep_pool_add id : mem_ok ds tid bm fs tf pl pt → mem_ok ds tid bm fs tf ({[id]} ∪ pl) pt.
Proof.
  intros [Hd Hp Ht Hm Hu]. split; try done; [|set_solver]. destruct Hd. split; try done. intros h i Hi. left. set_solver.
Qed.
Lemma keep_pool_del id : mem_ok ds tid bm fs tf pl pt → unused id → mem_ok ds tid bm fs tf (pl ∖ {[id]}) pt.
Proof.
  intros [Hd Hp Ht Hm Hu] Hn. assert (∀ h i, fs !! h = Some i → DeviceID i ∈ pl ∖ {[id]}).
  { intros h i Hi. apply elem_of_difference. split; [by eapply Hp|]. rewrite elem_of_singleton. by eapply Hn. }
  split; try done. destruct Hd. split; try done. intros h i Hi. left. eauto.
Qed.
(** A layer is registered, with a device that is marked and in the pool. *)
Lemma keep_register h i t :
  mem_ok ds tid bm fs tf pl pt → in_pool (DeviceID i) → unused (DeviceID i) → DeviceID i ∈ pl → isDeviceIDFree (DeviceID i) bm = false →
  pending tf pt = Some t → DeviceIDHash t = h →
  mem_ok (<[h := i]> ds) tid bm (<[h := stored i]> fs) tf pl pt.
Proof.
  intros [Hd Hp Ht Hm Hu] Hr Hn Hpl Hf Hpt Hh. destruct Hd as [D1 D2 D3 D4 D5].
  assert (∀ (P : gostring → devInfo → Prop), P h (stored i) → (∀ h i, fs !! h = Some i → P h i) → ∀ h' i', <[h := stored i]> fs !! h' = Some i' → P h' i') as ins.
  { intros P H1 H2 h' i' Hi'. apply lookup_insert_Some in Hi' as [[<- <-]|[_ Hi']]; auto. }
  split; [split|..].
  - by apply ins.
  - by apply ins.
  - intros h1 h2 i1 i2 [[<- <-]|[? H1]]%lookup_insert_Some [[<- <-]|[? H2]]%lookup_insert_Some E; [done|..].
    + by destruct (Hn _ _ H2).
    + by destruct (Hn _ _ H1).
    + by eapply D3.
  - apply (ins (fun h i => DeviceID i ∈ pl ∨ ∃ t, pending tf pt = Some t ∧ DeviceIDHash t = h)); [by left|done].
  - intros t' Ht'. simplify_eq. destruct (D5 _ Hpt) as [H1 H2]. split; [done|].
    by apply (ins (fun h i => DeviceID i = trans_DeviceID t → h = DeviceIDHash t)).
  - by apply ins.
  - done.
  - intros h' i' Hi'. apply lookup_insert_Some in Hi' as [[<- <-]|[? Hi']]; [apply lookup_insert_eq|].
    rewrite lookup_insert_ne by done. by apply Hm.
  - by apply ins.
Qed.
Lemma keep_unregister h : mem_ok ds tid bm fs tf pl pt → mem_ok (delete h ds) tid bm (delete h fs) tf pl pt.
Proof.
  intros [[D1 D2 D3 D4 D5] Hp Ht Hm Hu].
  assert (∀ h' i, delete h fs !! h' = Some i → fs !! h' = Some i) as del by (intros h' i [_ H]%lookup_delete_Some; done).
  split; [split|..]; eauto.
  - intros t Ht'. destruct (D5 _ Ht') as [H1 H2]. eauto.
  - intros h' i [Hne Hi]%lookup_delete_Some. rewrite lookup_delete_ne by done. by apply Hm.
Qed.
(** The record of a layer changes, not its device. *)
Lemma keep_update h i i' :
  mem_ok ds tid bm fs tf pl pt → ds !! h = Some i → DeviceID i' = DeviceID i →
  mem_ok (<[h := i']> ds) tid bm (<[h := stored i']> fs) tf pl pt.
Proof.
  intros Hm Hi Hid. pose proof Hm as [[D1 D2 D3 D4 D5] Hp Ht Hd Hu]. pose proof (Hd _ _ Hi) as Hf.
  assert (Hl : ∀ h' j, <[h := stored i']> fs !! h' = Some j → ∃ j', fs !! h' = Some j' ∧ DeviceID j = DeviceID j').
  { intros h' j [[<- <-]|[_ Hj]]%lookup_insert_Some; eauto. }
  split; [split|..]; try done.
  - intros h' j (j'&Hj&->)%Hl. eauto.
  - intros h' j [[<- <-]|[_ Hj]]%lookup_insert_Some; eauto.
  - intros h1 h2 i1 i2 (j1&H1&->)%Hl (j2&H2&->)%Hl. eauto.
  - intros h' j (j'&Hj&->)%Hl. eauto.
  - intros t Ht'. destruct (D5 _ Ht') as [H1 H2]. split; [done|]. intros h' j (j'&Hj&->)%Hl. eauto.
  - intros h' j (j'&Hj&->)%Hl. eauto.
  - intros h' j [[<- <-]|[Hne Hj]]%lookup_insert_Some; [apply lookup_insert_eq|]. rewrite lookup_insert_ne by done. eauto.
  - intros h' j (j'&Hj&->)%Hl. eauto.
Qed.
Lemma keep_mount h n q :
  mem_ok ds tid bm fs tf pl pt →
  mem_ok (alter (fun i => mkDev (DeviceID i) (Size i) (dev_TransactionID i) (Initialized i) (Deleted i) n q) h ds) tid bm fs tf pl pt.
Proof.
  intros [Hd Hp Ht Hm Hu]. split; try done. intros h' i'. destruct (decide (h' = h)) as [->|Hne].
  - rewrite lookup_alter_eq. destruct (ds !! h) as [i|] eqn:E; [|done]. simpl. intros [= <-]. exact (Hm _ _ E).
  - rewrite lookup_alter_ne by done. apply Hm.
Qed.
End keep.

(** The device of the open transaction is deleted from the pool: what is on disk, and
    what it will be once the metadata is removed. *)
Lemma keep_lost ds tid bm fs tf pl pt h i t :
  mem_ok ds tid bm fs tf pl pt → fs !! h = Some i → pending tf pt = Some t → DeviceIDHash t = h →
  disk_ok fs tf (pl ∖ {[DeviceID i]}) pt ∧ mem_ok (delete h ds) tid bm (delete h fs) tf (pl ∖ {[DeviceID i]}) pt ∧
  ∀ h' i', delete h fs !! h' = Some i' → DeviceID i' ≠ DeviceID i.
Proof.
  intros Hm Hi Hpt Hh. pose proof (keep_unregister _ _ _ _ _ _ _ h Hm) as Hm'. pose proof Hm as [[D1 D2 D3 D4 D5] Hp Ht Hd Hu].
  assert (Hn : ∀ h' i', fs !! h' = Some i' → h' ≠ h → DeviceID i' ≠ DeviceID i) by (intros h' i' Hi' Hne E; apply Hne; eauto).
  assert (Hn' : ∀ h' i', delete h fs !! h' = Some i' → DeviceID i' ≠ DeviceID i) by (intros h' i' [??]%lookup_delete_Some; eauto).
  split_and!; [|by apply keep_pool_del|done]. split; try done. intros h' i' Hi'.
  destruct (decide (h' = h)) as [->|Hne]; [right; eauto|left]. set_solver.
Qed.

(** *** Looking a device up *)

Lemma lookup_wp h w :
  inv w →
  wp (lookupDevice idBits h)
    (fun r w' => inv w' ∧ same_disk w w' ∧ match r with Some i => Devices (mem w') !! h = Some i | None => files w !! h = None end)
    (fun _ => False) w.
Proof.
  intros Hw. right. unfold lookupDevice, loadMetadata. destruct (Devices (mem w) !! h) as [i|] eqn:Ed; [done|].
  destruct (files w !! h) as [i|] eqn:Ef; [|done]. pose proof (d_range _ _ _ _ (m_disk _ _ _ _ _ _ _ Hw) _ _ Ef) as Hr.
  destruct (Z.ltb_spec maxID (DeviceID i)); [unfold in_pool in *; lia|]. split_and!; [|done|apply lookup_insert_eq].
  destruct Hw as [Hd Hp Ht Hm Hu]. split; try done. intros h' i'. simpl.
  destruct (decide (h' = h)) as [->|Hne]; [rewrite lookup_insert_eq|rewrite lookup_insert_ne by done; apply Hm].
  intros [= <-]. rewrite Ef. f_equal. symmetry. by eapply d_stored.
Qed.

(** *** The calls, one by one *)

Section calls.
  Context {Q : err → world → Prop} {C : world → Prop}.
  Implicit Types (o : list outcome) (e : dmError).

Lemma wp_other w : (∀ r o, Q r (set_outcomes o w)) → (∀ o, C (set_outcomes o w)) → wp dm_other Q C w.
Proof. intros HQ HC. apply wp_call; [intros o|intros e o|done]; apply wp_ret, HQ. Qed.
Lemma wp_delete id w :
  (∀ o, id ∈ pool w → Q None (set_pool (fun s => s ∖ {[id]}) (set_outcomes o w))) → (∀ e o, Q (Some e) (set_outcomes o w)) →
  (∀ o, C (set_outcomes o w)) → wp (dm_DeleteDevice id) Q C w.
Proof.
  intros HN HS HC. apply wp_call; [intros o|intros e o; apply wp_ret, HS|done]. right. case_bool_decide; [by apply HN|apply HS].
Qed.
Lemma wp_save h i w :
  (∀ o, Q None (set_files (fun m => <[h := stored i]> m) (set_outcomes o w))) → (∀ e o, Q (Some e) (set_outcomes o w)) →
  (∀ o, C (set_outcomes o w)) → wp (saveMetadata h i) Q C w.
Proof. intros HN HS HC. apply wp_call; [intros o; right; apply HN|intros e o; apply wp_ret, HS|done]. Qed.
Lemma wp_remove h w :
  (∀ o, Q None (set_files (delete h) (set_outcomes o w))) → (∀ o, C (set_outcomes o w)) → wp (removeMetadata h) Q C w.
Proof. intros HN HC. apply wp_call; [intros o; right; apply HN|intros e o; by left|done]. Qed.
Lemma wp_saveTransaction w :
  (∀ o, Q None (set_transFile (Some (trans (mem w))) (set_outcomes o w))) → (∀ e o, Q (Some e) (set_outcomes o w)) →
  (∀ o, C (set_outcomes o w)) → wp saveTransactionMetaData Q C w.
Proof. intros HN HS HC. apply wp_call; [intros o; right; apply HN|intros e o; apply wp_ret, HS|done]. Qed.
Lemma wp_removeTransaction w :
  (∀ o, Q None (set_transFile None (set_outcomes o w))) → (∀ e o, Q (Some e) (set_outcomes o w)) →
  (∀ o, C (set_outcomes o w)) → wp removeTransactionMetaData Q C w.
Proof. intros HN HS HC. apply wp_call; [intros o; right; apply HN|intros e o; apply wp_ret, HS|done]. Qed.
Lemma wp_close w :
  (∀ o, poolTid w = TransactionID (mem w) → let t := OpenTransactionID (trans (mem w)) in
     Q None (set_mem (set_TransactionID t) (set_poolTid t (set_outcomes o w)))) →
  (∀ e o, Q (Some e) (set_outcomes o w)) → (∀ o, C (set_outcomes o w)) → wp closeTransaction Q C w.
Proof.
  intros HN HS HC. unfold closeTransaction. apply wp_bind; [mono|]. apply wp_call; [intros o|intros e o; apply wp_ret, wp_ret, HS|done].
  right. simpl. destruct (Z.eqb_spec (poolTid w) (TransactionID (mem w))).
  - apply wp_bind; [mono|]. apply wp_modify, wp_ret. by apply HN.
  - apply wp_ret, HS.
Qed.
End calls.

(** ** Creating a device *)

(** What is asked of the call that creates: it adds the device, which was not there, or
    fails; it may also fail, or stop, with the device there. *)
Definition creates (create : Z → M err) : Prop :=
  (∀ id, mono (create id)) ∧
  ∀ id Q C w,
    (∀ o, id ∉ pool w → Q None (set_pool (fun s => {[id]} ∪ s) (set_outcomes o w))) → (∀ e o, Q (Some e) (set_outcomes o w)) →
    (∀ o, C (set_outcomes o w)) →
    (∀ o, let w' := set_pool (fun s => {[id]} ∪ s) (set_outcomes o w) in Q (Some EOther) w' ∧ C w') → wp (create id) Q C w.
Lemma creates_device : creates dm_CreateDevice.
Proof.
  split; [apply mono_dm_Create|]. intros id Q C w HN HS HC _. apply wp_call; [intros o|intros e o; apply wp_ret, HS|done].
  right. case_bool_decide; [apply HS|by apply HN].
Qed.
Lemma creates_snap base : creates (dm_CreateSnapDevice base).
Proof.
  split; [apply mono_dm_CreateSnap|]. intros id Q C w HN HS HC HE. apply wp_call; [intros o|intros e o; apply wp_ret, HS|done].
  unfold wp. case_bool_decide; [right; apply HS|]. case_bool_decide; [right; apply HS|].
  apply (wp_call (ret None) (fun _ => fails EOther) Q C).
  - intros o'. apply wp_ret. exact (HN o' H0).
  - intros e o'. apply wp_ret. exact (proj1 (HE o')).
  - intros o'. exact (proj2 (HE o')).
Qed.

Section create.
  Context (h : gostring) (fs : gmap gostring devInfo) (tf : option transaction) (pl : gset Z) (pt : Z).
  Context (Hh : fs !! h = None) (Hpt : 0 ≤ pt < 2 ^ 64 - 1).

(** A transaction for [h] is open, and [id] is reserved. *)
Record creating (id : Z) (pl' : gset Z) w : Prop := {
  c_inv : inv w;
  c_files : files w = fs;
  c_pt : poolTid w = pt;
  c_pool : pool w = pl';
  c_file : ∃ t, transFile w = Some t ∧ OpenTransactionID t = pt + 1 ∧ DeviceIDHash t = h;
  c_trans : OpenTransactionID (trans (mem w)) = pt + 1 ∧ DeviceIDHash (trans (mem w)) = h;
  c_id : in_pool id ∧ isDeviceIDFree id (deviceIDMap (mem w)) = false ∧ ∀ h i, fs !! h = Some i → DeviceID i ≠ id
}.

Lemma pending_open t : OpenTransactionID t = pt + 1 → pending (Some t) pt = Some t.
Proof. intros H. unfold pending. destruct (Z.ltb_spec pt (OpenTransactionID t)); [done|lia]. Qed.
Lemma creating_stopped id pl' w : creating id pl' w → stopped h fs tf pt w.
Proof.
  intros [Hi Hf Hp _ (t&Ht&Ho&Hht) _ _]. split; [apply Hi|right]. split; [by rewrite Hf|]. exists t. by rewrite Ht, Hp, pending_open.
Qed.

(** Another ID is reserved. *)
Lemma creating_next id pl' w id' :
  creating id pl' w → in_pool id' → isDeviceIDFree id' (deviceIDMap (mem w)) = true →
  creating id' pl' (set_mem (fun s => set_deviceIDMap (markDeviceIDUsed id') (set_NextDeviceID id' s)) w).
Proof.
  intros [Hi Hf Ht Hp Htf Htr _] Hr Hfree. split; try done.
  - apply keep_used; [done|apply Hr].
  - split_and!; [apply Hr..| |].
    + simpl. rewrite isFree_used by apply Hr. by rewrite Z.eqb_refl, andb_false_r.
    + intros h' i' Hi' E. rewrite <-Hf in Hi'. pose proof (m_used _ _ _ _ _ _ _ Hi _ _ Hi'). congruence.
Qed.
(** The transaction file is written again. *)
Lemma creating_refresh id pl' w :
  creating id pl' w →
  let t := mkTrans (OpenTransactionID (trans (mem w))) (DeviceIDHash (trans (mem w))) id in
  creating id pl' (set_mem (set_trans t) w) ∧ creating id pl' (set_transFile (Some t) (set_mem (set_trans t) w)).
Proof.
  intros [Hi Hf Ht Hp Htf Htr Hid] t. split; [by split|]. split; try done; simpl.
  - eapply keep_open; [done|apply Hid|]. intros h' i' Hi' E. rewrite Hf in Hi'. by destruct (proj2 (proj2 Hid) _ _ Hi').
  - by exists t.
Qed.
Lemma creating_outcomes id pl' w o : creating id pl' w → creating id pl' (set_outcomes o w).
Proof. intros []. by split. Qed.

(** The device is in the pool. *)
Lemma creating_added id pl' w : creating id pl' w → creating id ({[id]} ∪ pl') (set_pool (fun s => {[id]} ∪ s) w).
Proof. intros [Hi Hf Ht Hp Htf Htr Hid]. split; try done; simpl; [by apply keep_pool_add|by rewrite Hp]. Qed.

Lemma create_loop_wp create fuel id w :
  creates create → creating id pl w →
  wp (create_loop idBits fuel create id)
    (fun r w' => match r with Ok id' => id' ∉ pl ∧ creating id' ({[id']} ∪ pl) w' | Err _ => inv w' ∧ files w' = fs ∧ poolTid w' = pt end)
    (stopped h fs tf pt) w.
Proof using Hpt.
  intros [Hmono Hc]. revert id w. induction fuel as [|fuel IH]; intros id w Hw; cbn [create_loop].
  { apply wp_ret. by destruct Hw. }
  pose proof (mono_create_loop fuel create) as Hmono'. apply wp_bind; [mono|].
  assert (∀ e pl' w, creating id pl' w → wp (bind (free_id id) (fun _ => ret (Err (IOError e))))
    (fun r w' => match r with Ok id' => id' ∉ pl ∧ creating id' ({[id']} ∪ pl) w' | Err _ => inv w' ∧ files w' = fs ∧ poolTid w' = pt end) (stopped h fs tf pt) w) as Hfree.
  { intros e pl' w' [Hi Hf Ht Hp Htf Htr Hid]. apply wp_bind; [mono|]. apply wp_modify, wp_ret. split; [|done].
    apply keep_free; [done|apply Hid|]. simpl. rewrite Hf. apply Hid. }
  apply Hc.
  - intros o Hn. apply wp_ret. rewrite (c_pool _ _ _ Hw) in Hn. split; [done|]. exact (creating_added _ _ _ (creating_outcomes _ _ _ o Hw)).
  - intros e o. apply (creating_outcomes _ _ _ o) in Hw. generalize dependent (set_outcomes o w). clear w. intros w Hw.
    destruct e; [|by eapply Hfree..]. apply wp_bind; [mono|]. right.
    destruct (getNext_cases w) as [(next&->&H)|(id'&->&Hr&Hfr)]; [apply wp_ret; by destruct Hw|].
    apply (creating_next _ _ _ _ Hw Hr) in Hfr. generalize dependent (set_mem (fun s => set_deviceIDMap (markDeviceIDUsed id') (set_NextDeviceID id' s)) w).
    clear w Hw. intros w Hfr. apply wp_bind; [mono|]. unfold refreshTransaction. apply wp_bind; [mono|].
    apply wp_modify. destruct (creating_refresh _ _ _ Hfr) as [H1 H2].
    apply wp_saveTransaction; [intros o'|intros e o'|intros o'].
    + apply IH. exact (creating_outcomes _ _ _ o' H2).
    + by apply IH, creating_outcomes.
    + by eapply creating_stopped, creating_outcomes.
  - intros o. by eapply creating_stopped, creating_outcomes.
  - intros o. pose proof (creating_added _ _ _ (creating_outcomes _ _ _ o Hw)) as Hw'. split; [by eapply Hfree|by eapply creating_stopped].
Qed.

(** A device is there with its metadata, or nothing has changed on disk. *)
Definition created (size : Z) (r : dsResult unit) w : Prop :=
  inv w ∧ pt ≤ poolTid w ≤ pt + 1 ∧
  match r with
  | Ok _ => ∃ i, files w = <[h := i]> fs ∧ DeviceID i ∉ pl ∧ pool w = {[DeviceID i]} ∪ pl ∧ Size i = size ∧ Initialized i = false ∧ Deleted i = false
  | Err _ => files w = fs
  end.

Lemma open_wp id w (Q : err → world → Prop) C :
  inv w → files w = fs → transFile w = tf → pool w = pl → poolTid w = pt →
  in_pool id → isDeviceIDFree id (deviceIDMap (mem w)) = false → (∀ h i, fs !! h = Some i → DeviceID i ≠ id) →
  (∀ w', creating id pl w' → Q None w') →
  (∀ e w', inv w' → files w' = fs → poolTid w' = pt → Q (Some e) w') →
  (∀ w', stopped h fs tf pt w' → C w') →
  wp (openTransaction h id) Q C w.
Proof using Hpt.
  intros Hi Hf Htf Hp Ht Hr Hu Hn HN HS HC. unfold openTransaction. apply wp_bind; [mono|]. apply wp_modify.
  assert (Hm : (TransactionID (mem w) + 1) mod 2 ^ 64 = pt + 1).
  { rewrite (m_tid _ _ _ _ _ _ _ Hi), Ht. apply Z.mod_small. lia. }
  apply wp_saveTransaction; [intros o|intros e o|intros o].
  - apply HN. split; try done; simpl.
    + eapply keep_open; [done|done|]. intros h' i' Hi'. rewrite Hf in Hi'. intros E. by destruct (Hn _ _ Hi').
    + by eexists.
  - apply HS; [exact Hi|exact Hf|exact Ht].
  - apply HC. split; [exact (m_disk _ _ _ _ _ _ _ Hi)|]. left. done.
Qed.

(** The device is registered: its metadata is there, and the transaction is still open. *)
Record registered (id size : Z) w : Prop := {
  r_inv : inv w;
  r_files : files w = <[h := mkDev id size (pt + 1) false false 0 []]> fs;
  r_pool : pool w = {[id]} ∪ pl;
  r_pt : poolTid w = pt;
  r_file : ∃ t, transFile w = Some t ∧ OpenTransactionID t = pt + 1 ∧ DeviceIDHash t = h;
  r_trans : OpenTransactionID (trans (mem w)) = pt + 1
}.
Lemma registered_stopped id size w : registered id size w → stopped h fs tf pt w.
Proof.
  intros [Hi Hf Hp Ht (t&Htf&Ho&Hht) _]. split; [apply Hi|right]. split; [rewrite Hf; by rewrite delete_insert_eq|].
  exists t. by rewrite Htf, Ht, pending_open.
Qed.

Lemma register_wp id size w (Q : err → world → Prop) C :
  id ∉ pl → creating id ({[id]} ∪ pl) w →
  (∀ w', registered id size w' → Q None w') →
  (∀ e w', creating id ({[id]} ∪ pl) w' → Q (Some e) w') →
  (∀ w', stopped h fs tf pt w' → C w') →
  wp (registerDevice id h size (pt + 1)) Q C w.
Proof using Hh Hpt.
  intros Hnp Hw HN HS HC. pose proof Hw as [Hi Hf Ht Hp (t&Htf&Ho&Hht) Htr (Hr&Hu&Hn)].
  assert (Hnd : Devices (mem w) !! h = None).
  { destruct (Devices (mem w) !! h) as [i|] eqn:E; [|done]. apply (m_dev _ _ _ _ _ _ _ Hi) in E. congruence. }
  unfold registerDevice. apply wp_bind; [mono|]. apply wp_modify. apply wp_bind; [mono|].
  apply wp_save; [intros o|intros e o|intros o].
  - apply wp_ret, HN. split; try done; simpl.
    + eapply (keep_register _ _ _ _ _ _ _ h (mkDev id size (pt + 1) false false 0 []) t); try done; simpl.
      * rewrite Hf. exact Hn.
      * rewrite Hp. set_solver.
      * by rewrite Htf, Ht, pending_open.
    + by rewrite Hf.
    + by exists t.
    + apply Htr.
  - apply wp_bind; [mono|]. apply wp_modify, wp_ret, HS.
    split; [simpl; by rewrite delete_insert_id|done|done|done|by exists t|done|done].
  - apply HC. apply (creating_stopped _ _ _ (creating_outcomes _ _ _ o Hw)).
Qed.

(** The device is taken back. *)
Lemma undo_wp id pl' w e size :
  inv w → files w = fs → poolTid w = pt → (∃ t, transFile w = Some t ∧ OpenTransactionID t = pt + 1 ∧ DeviceIDHash t = h) →
  in_pool id → (∀ h i, fs !! h = Some i → DeviceID i ≠ id) → pool w = pl' →
  wp (bind (dm_DeleteDevice id) (fun _ => bind (free_id id) (fun _ => ret (Err (IOError e) : dsResult unit)))) (created size) (stopped h fs tf pt) w.
Proof using All.
  intros Hi Hf Ht (t&Htf&Ho&Hht) Hr Hn _. apply wp_bind; [mono|].
  assert (Hfin : ∀ w', inv w' → files w' = fs → poolTid w' = pt → wp (bind (free_id id) (fun _ => ret (Err (IOError e) : dsResult unit))) (created size) (stopped h fs tf pt) w').
  { intros w' Hi' Hf' Ht'. apply wp_bind; [mono|]. apply wp_modify, wp_ret. split; [|simpl; split; [lia|done]].
    apply keep_free; [done|apply Hr|]. simpl. rewrite Hf'. exact Hn. }
  apply wp_delete; [intros o _|intros e' o|intros o].
  - apply Hfin; [|done|done]. apply keep_pool_del; [done|]. simpl. rewrite Hf. exact Hn.
  - apply Hfin; done.
  - split; [exact (m_disk _ _ _ _ _ _ _ Hi)|right]. simpl. rewrite Hf. split; [done|]. exists t. by rewrite Htf, Ht, pending_open.
Qed.

Lemma create_register_wp create size w :
  creates create → inv w → files w = fs → transFile w = tf → pool w = pl → poolTid w = pt →
  wp (create_register idBits create h size) (created size) (stopped h fs tf pt) w.
Proof using All.
  intros Hc Hi Hf Htf Hp Ht. pose proof (mono_create_loop (create_fuel idBits) create) as Hml. pose proof (proj1 Hc) as Hmc.
  unfold create_register. apply wp_bind; [mono|]. right.
  destruct (getNext_cases w) as [(next&->&_)|(id&->&Hr&Hfr)]; [apply wp_ret; split; [done|simpl; split; [lia|done]]|].
  assert (Hn : ∀ h i, fs !! h = Some i → DeviceID i ≠ id).
  { intros h' i' Hi' E. rewrite <-Hf in Hi'. pose proof (m_used _ _ _ _ _ _ _ Hi _ _ Hi'). congruence. }
  apply wp_bind; [mono|]. apply open_wp; try done.
  - apply keep_used; [done|apply Hr].
  - simpl. rewrite isFree_used by apply Hr. by rewrite Z.eqb_refl, andb_false_r.
  - clear w Hi Hf Htf Hp Ht Hfr Hn. intros w Hw. apply wp_bind; [mono|].
    eapply wp_weaken; [by eapply create_loop_wp| |done]. intros [id'|e] w'; [|intros (H1&H2&H3); apply wp_ret; split; [done|split; [lia|done]]].
    intros [Hnp Hw']. apply wp_bind; [mono|]. apply wp_gets. rewrite (proj1 (c_trans _ _ _ Hw')). apply wp_bind; [mono|].
    apply register_wp; [done|done|..|done].
    + intros w2 Hw2. apply wp_bind; [mono|]. destruct Hw2 as [Hi Hf Hp Ht (t&Htf&Ho&Hht) Htr] eqn:EW. clear EW.
      apply wp_close; [intros o Ept; cbv zeta; rewrite Htr|intros e o|intros o].
      * apply wp_ret. split; simpl.
        -- rewrite Htf, <-Ho. eapply keep_close. rewrite <-Htf. exact Hi.
        -- split; [lia|]. eexists. split_and!; [exact Hf|done|exact Hp|done..].
      * apply wp_bind; [mono|]. unfold unregisterDevice. apply wp_bind; [mono|]. apply wp_modify. apply wp_remove.
        -- intros o'. eapply undo_wp; try done; simpl.
           ++ apply keep_unregister. exact Hi.
           ++ rewrite Hf. by rewrite delete_insert_id.
           ++ by exists t.
           ++ apply (c_id _ _ _ Hw').
           ++ apply (c_id _ _ _ Hw').
        -- intros o'. apply (registered_stopped _ _ _ Hw2).
      * apply (registered_stopped _ _ _ Hw2).
    + intros e w2 [Hi Hf Ht Hp Htf Htr Hid]. eapply undo_wp; try done; apply Hid.
  - intros e w' H1 H2 H3. apply wp_bind; [mono|]. apply wp_modify, wp_ret. split; [|simpl; split; [lia|done]]. apply keep_free; [done|apply Hr|].
    simpl. rewrite H2. exact Hn.
Qed.

End create.

(** ** The operations *)

Section delete.
  Context (h : gostring) (i : devInfo) (fs : gmap gostring devInfo) (tf : option transaction) (pl : gset Z) (pt : Z).
  Context (Hpt : 0 ≤ pt < 2 ^ 64 - 1).

(** A transaction that deletes [h] is open; [fs'] are the files now. *)
Record deleting (fs' : gmap gostring devInfo) w : Prop := {
  e_inv : inv w;
  e_files : files w = fs';
  e_rest : delete h fs' = delete h fs;
  e_pt : poolTid w = pt;
  e_file : ∃ t, transFile w = Some t ∧ OpenTransactionID t = pt + 1 ∧ DeviceIDHash t = h;
  e_trans : OpenTransactionID (trans (mem w)) = pt + 1
}.
Lemma deleting_stopped fs' w o : deleting fs' w → stopped h fs tf pt (set_outcomes o w).
Proof.
  intros [Hi Hf He Ht (t&Htf&Ho&Hht) _]. split; [exact (m_disk _ _ _ _ _ _ _ Hi)|right]. simpl. split; [by rewrite Hf|].
  exists t. by rewrite Htf, Ht, pending_open.
Qed.

(** The device is gone, or marked if it need not go [now]; an error changes nothing. *)
Definition deleted (now : bool) (r : option unit) (fs' : gmap gostring devInfo) (pl' : gset Z) : Prop :=
  match r with
  | Some _ =>
      fs' = delete h fs ∧ pl' = pl ∖ {[DeviceID i]} ∨
      now = false ∧ ∃ i', fs' = <[h := i']> fs ∧ DeviceID i' = DeviceID i ∧ Deleted i' = true ∧ pl' = pl
  | None => fs' = fs ∧ pl' = pl
  end.

Lemma delete_body_wp d sy w :
  deleting fs w → pool w = pl → Devices (mem w) !! h = Some i →
  wp (delete_body d sy h i)
    (fun r w' => deleting (files w') w' ∧ deleted (sy || negb d) (match r with None => Some tt | Some _ => None end) (files w') (pool w'))
    (stopped h fs tf pt) w.
Proof using Hpt.
  intros Hw Hp Hd. pose proof Hw as [Hi Hf _ Ht (t&Htf&Ho&Hht) Htr]. pose proof (m_dev _ _ _ _ _ _ _ Hi _ _ Hd) as Hfi.
  assert (Hpd : pending (transFile w) (poolTid w) = Some t) by (by rewrite Htf, Ht, pending_open).
  unfold delete_body. apply wp_bind; [mono|]. apply wp_delete; [intros o _|intros e o|intros o; by eapply deleting_stopped].
  - destruct (keep_lost _ _ _ _ _ _ _ _ _ _ Hi Hfi Hpd Hht) as (Hdisk&Hmem&Hn). apply wp_bind; [mono|]. unfold unregisterDevice.
    apply wp_bind; [mono|]. apply wp_modify. apply wp_remove; [intros o'|intros o'].
    + apply wp_bind; [mono|]. apply wp_modify, wp_ret. split.
      * split; simpl; try done; [|by rewrite Hf, delete_delete_eq|by exists t|by destruct (Deleted i)].
        destruct (d_range _ _ _ _ (m_disk _ _ _ _ _ _ _ Hi) _ _ Hfi) as [Hr _].
        pose proof (keep_free _ _ _ _ _ _ _ _ Hmem Hr Hn) as Hk. by destruct (Deleted i).
      * left. simpl. by rewrite Hf, Hp.
    + split; [exact Hdisk|right]. simpl. rewrite Hf. split; [done|]. by exists t.
  - assert (Herr : deleting fs (set_outcomes o w)) by (split; try done; by exists t).
    case_match eqn:Ec; [apply wp_ret; simpl; by rewrite Hf|]. apply orb_false_iff in Ec as [Ec _].
    unfold markForDeferredDeletion. destruct (Deleted i) eqn:Ed.
    { apply wp_ret. split; [simpl; by rewrite Hf|]. right. split; [done|]. exists (stored i). simpl. rewrite Hf, insert_id by (by rewrite <-Hf). done. }
    apply wp_bind; [mono|]. apply wp_save; [intros o'|intros e' o'|intros o'].
    + apply wp_bind; [mono|]. apply wp_modify, wp_ret. split.
      * split; simpl; try done; [by eapply keep_update|by rewrite Hf, delete_insert_eq|by exists t].
      * right. split; [done|]. eexists. simpl. rewrite Hf. split_and!; [done|done|done|done].
    + apply wp_ret. simpl. rewrite Hf. split; [|done]. split; try done. by exists t.
    + by eapply (deleting_stopped _ (set_outcomes o w)).
Qed.

Lemma deleteTransaction_wp d sy w :
  inv w → files w = fs → transFile w = tf → pool w = pl → poolTid w = pt → Devices (mem w) !! h = Some i →
  wp (deleteTransaction d sy h i)
    (fun r w' => inv w' ∧ pt ≤ poolTid w' ≤ pt + 1 ∧ deleted (sy || negb d) (match r with None => Some tt | Some _ => None end) (files w') (pool w'))
    (stopped h fs tf pt) w.
Proof using Hpt.
  intros Hi Hf Htf Hp Ht Hd. unfold deleteTransaction, openTransaction. apply wp_bind; [mono|]. apply wp_bind; [mono|]. apply wp_modify.
  pose proof (m_dev _ _ _ _ _ _ _ Hi _ _ Hd) as Hfi. pose proof (m_disk _ _ _ _ _ _ _ Hi) as Hdisk.
  assert (Hm : (TransactionID (mem w) + 1) mod 2 ^ 64 = pt + 1).
  { rewrite (m_tid _ _ _ _ _ _ _ Hi), Ht. apply Z.mod_small. lia. }
  apply wp_saveTransaction; [intros o|intros e o|intros o].
  - apply wp_bind; [mono|]. eapply wp_weaken; [apply delete_body_wp|..|done]; [|done|done|].
    + split; simpl; try done; [|by eexists].
      eapply keep_open; [done|simpl; apply (d_range _ _ _ _ Hdisk _ _ Hfi)|]. intros h' i' Hi' E.
      exact (d_distinct _ _ _ _ Hdisk _ _ _ _ Hi' Hfi E).
    + simpl. intros r w' [Hw' Hr]. apply wp_bind; [mono|]. pose proof Hw' as [Hi' _ _ Ht' (t&Htf'&Ho&_) Htr].
      apply wp_close; [intros o' _; cbv zeta; rewrite Htr|intros e o'|intros o'; by eapply deleting_stopped].
      * apply wp_ret. split; [|split; [simpl; lia|done]]. simpl. rewrite Htf', <-Ho. eapply keep_close. rewrite <-Htf'. exact Hi'.
      * apply wp_ret. split; [done|]. split; [simpl; lia|done].
  - apply wp_ret. split; [exact Hi|]. simpl. rewrite Hf, Hp. split; [lia|done].
  - split; [exact Hdisk|by left].
Qed.

End delete.

(** A step that leaves the disk alone. *)
Lemma same_stopped h w w' : inv w' → same_disk w w' → stopped h (files w) (transFile w) (poolTid w) w'.
Proof. intros Hi (Hf&Htf&Hp&Ht). split; [apply Hi|by left]. Qed.

(** What an operation on [h] does: memory and disk agree when it returns, and [Q] holds;
    [S] holds of the state that it was started in when the machine stopped. *)
Definition op_wp (m : M (dsResult unit)) h (Q : world → dsResult unit → world → Prop) (S : world → Prop) : Prop :=
  ∀ w, inv w → 0 ≤ poolTid w < 2 ^ 64 - 1 →
  wp m (fun r w' => inv w' ∧ poolTid w ≤ poolTid w' ≤ poolTid w + 1 ∧ Q w r w') (fun w' => S w ∧ stopped h (files w) (transFile w) (poolTid w) w') w.

Definition added h b w (r : dsResult unit) w' : Prop :=
  match r with
  | Ok _ => ∃ base i, files w !! b = Some base ∧ files w !! h = None ∧ files w' = <[h := i]> (files w) ∧
      DeviceID i ∉ pool w ∧ pool w' = {[DeviceID i]} ∪ pool w ∧ Size i = Size base ∧ Deleted i = false
  | Err _ => files w' = files w
  end.
Lemma mono_createSnap h i : mono (createRegisterSnapDevice idBits h i).
Proof. apply mono_create, mono_dm_CreateSnap. Qed.
#[local] Hint Resolve mono_createSnap : dm.
Lemma AddDevice_wp h b : op_wp (AddDevice idBits h b) h (added h b) (fun w => files w !! h = None).
Proof.
  intros w Hw Hpt. unfold AddDevice. apply wp_bind; [mono|].
  eapply wp_weaken; [by apply lookup_wp| |done]. intros r w1 (H1&(Ef1&Et1&Ep1&Eq1)&Hb).
  destruct r as [base|]; [|apply wp_ret; split_and!; [done|lia|lia|done]].
  destruct (Deleted base); [apply wp_ret; split_and!; [done|lia|lia|done]|].
  apply wp_bind; [mono|]. eapply wp_weaken; [by apply lookup_wp| |done]. intros [i|] w2 (H2&(Ef2&Et2&Ep2&Eq2)&Hh).
  { apply wp_ret. split_and!; [done|lia|lia|]. simpl. congruence. }
  rewrite Ef1 in *. eapply wp_weaken; [|clear w2 H2 Ef2 Et2 Ep2 Eq2; simpl|by auto].
  - eapply (create_register_wp h (files w) (transFile w) (pool w) (poolTid w)); [done|done|apply creates_snap|done|congruence..].
  - intros r w' (Hi'&Hb'&Hr). split; [done|]. split; [done|]. destruct r as [[]|e]; [|done]. destruct Hr as (i&?&?&?&?&?&?).
    apply (m_dev _ _ _ _ _ _ _ H1) in Hb. by exists (stored base), i.
Qed.

Definition removed (d sy : bool) h w (r : dsResult unit) w' : Prop :=
  match r with
  | Ok _ => ∃ i, files w !! h = Some i ∧ deleted h i (files w) (pool w) (sy || negb d) (Some tt) (files w') (pool w')
  | Err _ => files w' = files w ∧ pool w' = pool w
  end.
Lemma DeleteDevice_wp d sy h : op_wp (DeleteDevice idBits d sy h) h (removed d sy h) (fun _ => True).
Proof.
  intros w Hw Hpt. unfold DeleteDevice, deleteDevice, removed. apply wp_bind; [mono|].
  eapply wp_weaken; [by apply lookup_wp| |done]. intros r w1 (H1&(Ef1&Et1&Ep1&Eq1)&Hd).
  destruct r as [i|]; [|apply wp_ret; split_and!; [done|lia|lia|done|done]].
  case_match; [apply wp_ret; split_and!; [done|lia|lia|done|done]|]. apply wp_bind; [mono|].
  apply wp_other; [intros r o|intros o; split; [done|]; by apply same_stopped].
  destruct r as [e|]; [apply wp_ret; split_and!; [done|simpl; lia|simpl; lia|done|done]|].
  apply wp_bind; [mono|]. eapply wp_weaken; [|simpl|by auto].
  - by eapply (deleteTransaction_wp h i (files w) (transFile w) (pool w) (poolTid w)).
  - intros r w' (Hi'&Hb&Hr). apply wp_ret. split_and!; [done|lia|lia|]. destruct r as [e|]; [done|].
    exists (stored i). split; [|done]. rewrite <-Ef1. by apply (m_dev _ _ _ _ _ _ _ H1).
Qed.


(** *** Operations that only change memory *)

Lemma mono_Add h b : mono (AddDevice idBits h b).
Proof. unfold AddDevice. mono. Qed.
Lemma mono_Delete d sy h : mono (DeleteDevice idBits d sy h).
Proof. unfold DeleteDevice, deleteDevice. mono. Qed.
Lemma mono_Mount h q : mono (MountDevice idBits h q).
Proof. unfold MountDevice. mono. Qed.
Lemma mono_Unmount h q : mono (UnmountDevice idBits h q).
Proof. unfold UnmountDevice. mono. Qed.
Lemma mono_saveSet : mono saveDeviceSetMetaData.
Proof. unfold saveDeviceSetMetaData. mono. Qed.
Lemma mono_andThen m k : mono m → mono k → mono (andThen m k).
Proof. intros. unfold andThen. mono. Qed.
#[local] Hint Resolve mono_Add mono_Delete mono_Mount mono_Unmount mono_saveSet mono_andThen : dm.

(** What every operation satisfies: memory and disk agree when it returns, the disk can
    be started from when it stops, and it makes at most [n] transactions. *)
Definition safe {A} (n : Z) (m : M A) : Prop :=
  mono m ∧ ∀ w, inv w → 0 ≤ poolTid w < 2 ^ 64 - n →
  wp m (fun _ w' => inv w' ∧ poolTid w ≤ poolTid w' ≤ poolTid w + n) (fun w' => disk_inv w') w.

Lemma safe_bind {A B} n n' (m : M A) (k : A → M B) : 0 ≤ n' → safe n m → (∀ x, safe n' (k x)) → safe (n + n') (bind m k).
Proof.
  intros Hn' [Hmm Hm] Hk. split; [apply mono_bind; [done|apply Hk]|]. intros w Hw Hb. apply wp_bind; [apply Hk|].
  eapply wp_weaken; [apply Hm; [done|lia]| |done]. intros x w1 [H1 Hb1]. destruct (Hk x) as [_ Hkx].
  eapply wp_weaken; [apply Hkx; [done|lia]| |done]. intros y w2 [H2 Hb2]. split; [done|lia].
Qed.
Lemma safe_bind0 {A B} n (m : M A) (k : A → M B) : 0 ≤ n → safe 0 m → (∀ x, safe n (k x)) → safe n (bind m k).
Proof. intros. replace n with (0 + n) by lia. by apply safe_bind. Qed.
Lemma safe_ret {A} n (x : A) : 0 ≤ n → safe n (ret x).
Proof. intros Hn. split; [mono|]. intros w Hw Hb. apply wp_ret. split; [done|lia]. Qed.
Lemma safe_lookup n h : 0 ≤ n → safe n (lookupDevice idBits h).
Proof.
  intros Hn. split; [mono|]. intros w Hw Hb. eapply wp_weaken; [by apply lookup_wp| |done].
  intros r w' (H1&(_&_&_&Ht)&_). split; [done|lia].
Qed.
Lemma safe_other n : 0 ≤ n → safe n dm_other.
Proof.
  intros Hn. split; [mono|]. intros w Hw Hb. apply wp_other; [intros r o; split; [done|simpl; lia]|intros o; apply (m_disk _ _ _ _ _ _ _ Hw)].
Qed.
Lemma safe_saveSet n : 0 ≤ n → safe n saveDeviceSetMetaData.
Proof.
  intros Hn. split; [mono|]. intros w Hw Hb.
  apply wp_call; [intros o|intros e o; apply wp_ret|intros o; apply (m_disk _ _ _ _ _ _ _ Hw)]; [right|]; (split; [exact Hw|simpl; lia]).
Qed.
Lemma safe_mount n h c q : 0 ≤ n → safe n (set_mount h c q).
Proof. intros Hn. split; [mono|]. intros w Hw Hb. apply wp_modify. split; [by apply keep_mount|simpl; lia]. Qed.
Lemma safe_op n m h Q S : 1 ≤ n → mono m → op_wp m h Q S → safe n m.
Proof.
  intros Hn Hm Hop. split; [done|]. intros w Hw Hb. eapply wp_weaken; [apply Hop; [done|lia]|..].
  - intros r w' (H1&H2&_). split; [done|lia].
  - intros w' (_&H&_). exact H.
Qed.

(** Follows the structure of a program. *)
Ltac safe :=
  repeat match goal with
  | |- safe _ (bind _ _) => apply safe_bind0; [lia| |]
  | |- safe _ (ret _) => by apply safe_ret
  | |- safe _ (lookupDevice _ _) => by apply safe_lookup
  | |- safe _ dm_other => by apply safe_other
  | |- safe _ saveDeviceSetMetaData => by apply safe_saveSet
  | |- safe _ (set_mount _ _ _) => by apply safe_mount
  | |- safe _ (andThen _ _) => unfold andThen
  | |- safe _ (match ?x with _ => _ end) => destruct x
  | |- ∀ _, _ => intros ?
  end.

Lemma safe_Mount h q : safe 0 (MountDevice idBits h q).
Proof. unfold MountDevice. safe. Qed.
Lemma safe_Unmount h q : safe 0 (UnmountDevice idBits h q).
Proof. unfold UnmountDevice. safe. Qed.
Lemma safe_Add h b : safe 1 (AddDevice idBits h b).
Proof. eapply safe_op; [done|mono|apply AddDevice_wp]. Qed.
Lemma safe_Delete d sy h : safe 1 (DeleteDevice idBits d sy h).
Proof. eapply safe_op; [done|mono|apply DeleteDevice_wp]. Qed.
Lemma safe_delete_all d hs : safe (Z.of_nat (length hs)) (delete_all idBits d hs).
Proof.
  induction hs as [|h hs IH]; cbn [delete_all length]; [by apply safe_ret|]. rewrite Nat2Z.inj_succ, <-Z.add_1_l.
  apply safe_bind; [lia|apply safe_Delete|done].
Qed.

(** *** The base image *)

(** A record is changed in memory, and its file is written. *)
Lemma alter_save_wp f h k Q w :
  inv w → (∀ i, DeviceID (f i) = DeviceID i) → (∀ x, mono (k x)) →
  (∀ w', inv w' → poolTid w' = poolTid w → wp (k None) Q (fun w' => disk_inv w') w') →
  (∀ e o, wp (k (Some e)) Q (fun w' => disk_inv w') (set_outcomes o (set_mem (set_Devices (alter f h)) w))) →
  wp (bind (modify (set_mem (set_Devices (alter f h)))) (fun _ => bind (save_device h) k) : M (dsResult unit)) Q (fun w' => disk_inv w') w.
Proof.
  intros Hw Hf Hk HN HS. assert (mono (save_device h)) by (unfold save_device; mono). apply wp_bind; [mono|]. apply wp_modify, wp_bind; [done|].
  unfold save_device. apply wp_bind; [mono|]. apply wp_gets. simpl. rewrite lookup_alter_eq. destruct (Devices (mem w) !! h) as [i|] eqn:E; simpl.
  - apply wp_save; [intros o|done|intros o; apply (m_disk _ _ _ _ _ _ _ Hw)]. apply HN; [|done]. simpl.
    replace (alter f h (Devices (mem w))) with (<[h := f i]> (Devices (mem w))); [by eapply keep_update|].
    apply map_eq. intros h'. destruct (decide (h' = h)) as [->|Hne].
    + by rewrite lookup_insert_eq, lookup_alter_eq, E.
    + by rewrite lookup_insert_ne, lookup_alter_ne.
  - apply wp_ret, HN; [|done]. simpl. replace (alter f h (Devices (mem w))) with (Devices (mem w)); [done|].
    apply map_eq. intros h'. destruct (decide (h' = h)) as [->|Hne]; [by rewrite lookup_alter_eq, E|by rewrite lookup_alter_ne].
Qed.

Lemma safe_saveUUID : safe 0 saveBaseDeviceUUID.
Proof. unfold saveBaseDeviceUUID. safe. Qed.
Lemma mono_saveUUID : mono saveBaseDeviceUUID.
Proof. apply safe_saveUUID. Qed.
#[local] Hint Resolve mono_saveUUID : dm.
Lemma mono_createDevice h n : mono (createRegisterDevice idBits h n).
Proof. apply mono_create, mono_dm_Create. Qed.
#[local] Hint Resolve mono_createDevice : dm.
Lemma mono_set_Initialized h b : mono (set_Initialized h b).
Proof. unfold set_Initialized. mono. Qed.
Lemma mono_set_Size h n : mono (set_Size h n).
Proof. unfold set_Size. mono. Qed.
Lemma mono_save_device h : mono (save_device h).
Proof. unfold save_device. mono. Qed.
#[local] Hint Resolve mono_set_Initialized mono_set_Size mono_save_device : dm.
Lemma mono_createBase n : mono (createBaseImage idBits n).
Proof. unfold createBaseImage, createFilesystem, andThen. mono. Qed.
#[local] Hint Resolve mono_createBase : dm.

(** Memory says again that the image is not initialised, as its file does. *)
Lemma init_undone w i :
  inv w → files w !! [] = Some i → Initialized i = false →
  inv (set_mem (set_Devices (alter (fun i => mkDev (DeviceID i) (Size i) (dev_TransactionID i) false (Deleted i) (mountCount i) (mountPath i)) []))
        (set_mem (set_Devices (alter (fun i => mkDev (DeviceID i) (Size i) (dev_TransactionID i) true (Deleted i) (mountCount i) (mountPath i)) [])) w)).
Proof.
  intros [Hd Hp Ht Hm Hu] Hi Hf. split; try done. intros h' i'. simpl. destruct (decide (h' = [])) as [->|Hne].
  - rewrite !lookup_alter_eq. destruct (Devices (mem w) !! []) as [j|] eqn:E; [|done]. simpl. intros [= <-].
    pose proof (Hm _ _ E) as Hj. rewrite Hj in Hi. injection Hi as <-. simpl in Hf. rewrite Hj. unfold stored. simpl. by rewrite Hf.
  - rewrite !lookup_alter_ne by done. apply Hm.
Qed.

Lemma createBaseImage_wp n w :
  inv w → 0 ≤ poolTid w < 2 ^ 64 - 1 → files w !! [] = None →
  wp (createBaseImage idBits n) (fun _ w' => inv w' ∧ poolTid w ≤ poolTid w' ≤ poolTid w + 1) (fun w' => disk_inv w') w.
Proof.
  intros Hw Hb Hn. unfold createBaseImage, createFilesystem, andThen. apply wp_bind; [mono|].
  eapply wp_weaken; [eapply (create_register_wp [] (files w) (transFile w) (pool w) (poolTid w)); [done|done|apply creates_device|done..]|..].
  2: { intros w' [H _]. exact H. }
  intros [[]|e] w1 (H1&Hb1&Hr); [|by apply wp_ret]. destruct Hr as (i&Hf&_&_&_&Hini&_).
  assert (Hi : files w1 !! [] = Some i) by (by rewrite Hf, lookup_insert_eq). clear Hf.
  apply wp_bind; [mono|]. apply wp_other; [intros [e|] o; [by apply wp_ret|]|intros o; apply (m_disk _ _ _ _ _ _ _ H1)].
  apply wp_bind; [mono|]. apply wp_call; [intros o1; right; simpl|intros e o1; by apply wp_ret, wp_ret|intros o1; apply (m_disk _ _ _ _ _ _ _ H1)].
  apply wp_bind; [mono|]. apply wp_other; [intros [e|] o2; [by apply wp_ret|]|intros o2; apply (m_disk _ _ _ _ _ _ _ H1)].
  apply alter_save_wp; [exact H1|done|mono| |].
  - intros w' H' Ht'. simpl in Ht'. eapply wp_weaken; [apply safe_saveUUID; [done|lia]| |done]. intros _ w2 [H2 Hb2]. split; [done|lia].
  - intros e o3. apply wp_bind; [mono|]. apply wp_modify, wp_ret. split; [|done]. exact (init_undone w1 i H1 Hi Hini).
Qed.

Lemma safe_verify u f : safe 0 (setupVerifyBaseImageUUIDFS u f).
Proof. unfold setupVerifyBaseImageUUIDFS. pose proof safe_saveUUID. safe. done. Qed.
Lemma safe_grow u n i : safe 0 (checkGrowBaseDeviceFS u n i).
Proof.
  unfold checkGrowBaseDeviceFS. repeat (case_match; [by apply safe_ret|]). split; [unfold andThen; mono|]. intros w Hw Hb. unfold set_Size.
  apply alter_save_wp; [done|done|unfold andThen; mono| |].
  - intros w' H' Ht'. rewrite <-Ht' in *. assert (Hs : safe 0 (andThen dm_other (ret (Ok tt) : M (dsResult unit)))) by safe. by apply Hs.
  - intros e o. apply wp_bind; [mono|]. apply wp_modify, wp_ret. split; [|simpl; lia]. simpl.
    destruct Hw as [Hd Hp Ht Hm Hu]. split; try done. intros h' i' [Hne Hi']%lookup_delete_Some.
    rewrite lookup_alter_ne in Hi' by done. by apply Hm.
Qed.

Lemma safe_setup d t u hu hf n : safe 2 (setupBaseImage idBits d t u hu hf n).
Proof.
  split. { unfold setupBaseImage, checkThinPool, andThen. pose proof (proj1 (safe_verify hu hf)). pose proof (fun i => proj1 (safe_grow u n i)). mono.
    intros w Hw. case_match; [done|]. by apply mono_createBase. }
  intros w Hw Hb. unfold setupBaseImage. pose proof (proj1 (safe_verify hu hf)). pose proof (fun i => proj1 (safe_grow u n i)) as Hmg.
  apply wp_bind; [unfold checkThinPool, andThen; mono; intros w' Hw'; case_match; [done|by apply mono_createBase]|].
  eapply wp_weaken; [by apply lookup_wp| |done]. intros [i|] w1 (H1&(Ef&Et&Ep&Eq)&Hl).
  - case_match.
    + apply wp_bind; [mono|]. eapply wp_weaken; [apply safe_verify; [done|lia]| |done]. intros [[]|e] w2 [H2 Hb2].
      * eapply wp_weaken; [apply safe_grow; [done|lia]| |done]. intros r w3 [H3 Hb3]. split; [done|lia].
      * apply wp_ret. split; [done|lia].
    + apply wp_bind; [mono|]. eapply wp_weaken; [apply DeleteDevice_wp; [done|lia]| |intros w' (_&H'&_); exact H'].
      intros [[]|e] w2 (H2&Hb2&Hr2); [|apply wp_ret; split; [done|lia]].
      destruct Hr2 as (j&_&[[Hj _]|[Hj _]]); [|done].
      eapply wp_weaken; [apply createBaseImage_wp; [done|lia|by rewrite Hj, lookup_delete_eq]| |done]. intros r w3 [H3 Hb3]. split; [done|lia].
  - assert (Hc : ∀ w', inv w' → same_disk w1 w' → wp (createBaseImage idBits n) (fun _ w' => inv w' ∧ poolTid w ≤ poolTid w' ≤ poolTid w + 2) (fun w' => disk_inv w') w').
    { intros w' H' (Ef'&Et'&Ep'&Eq'). eapply wp_weaken; [apply createBaseImage_wp; [done|lia|congruence]| |done].
      intros r w3 [H3 Hb3]. split; [done|lia]. }
    destruct t; [|by apply Hc]. unfold checkThinPool, andThen. apply wp_bind; [mono; intros w' Hw'; case_match; [done|by apply mono_createBase]|].
    apply wp_other; [intros [e|] o|intros o; apply (m_disk _ _ _ _ _ _ _ H1)]; [apply wp_ret; split; [done|simpl; lia]|].
    unfold wp. simpl. case_match; [right; split; [done|simpl; lia]|]. by apply Hc.
Qed.

End ids.
