(* ===== verification/DeviceSetRestart.v ===== *)
(** * DeviceSetRestart: the device set after a stop, and its guarantees

    The start of the device set, with the roll back of an open transaction, and the
    theorems about the whole of [DeviceSet]: what every operation keeps, what is there
    after a stop at any point and a start, and that the loop that creates a device ends.
    The examples at the end show what a start does not restore. *)

From S2P Require Import Prelude Strconv DeviceSet DeviceSetFacts.
Import Strings DeviceSet.DeviceSet.

Local Open Scope Z_scope.

Section restart.
  Context (idBits : nat).
  Implicit Types (w : world) (h : gostring) (i : devInfo) (id : Z).
  Abbreviation in_pool := (in_pool idBits).
  Abbreviation disk_ok := (disk_ok idBits).
  Abbreviation mem_ok := (mem_ok idBits).
  Abbreviation disk_inv w := (disk_ok (files w) (transFile w) (pool w) (poolTid w)).
  Abbreviation inv w :=
    (mem_ok (Devices (mem w)) (TransactionID (mem w)) (deviceIDMap (mem w)) (files w) (transFile w) (pool w) (poolTid w)).

(** ** The bitmap that is built from the files *)

Lemma construct_used (ds : gmap gostring devInfo) j :
  (∀ h i, ds !! h = Some i → 0 ≤ DeviceID i) → 0 ≤ j →
  isDeviceIDFree j (constructDeviceIDMap ds) = true ↔ ∀ h i, ds !! h = Some i → DeviceID i ≠ j.
Proof.
  intros Hr Hj. unfold constructDeviceIDMap. revert Hr.
  apply (map_fold_weak_ind (fun m ds => (∀ h i, ds !! h = Some i → 0 ≤ DeviceID i) →
    isDeviceIDFree j m = true ↔ ∀ h i, ds !! h = Some i → DeviceID i ≠ j)); clear ds.
  - intros _. split; [by intros _ h i Hi|]. intros _. unfold isDeviceIDFree, byte_of. rewrite lookup_empty. by rewrite Z.land_0_l.
  - intros h i ds m Hn IH Hr. assert (0 ≤ DeviceID i) by (eapply Hr, lookup_insert_eq).
    rewrite isFree_used by done. rewrite andb_true_iff, negb_true_iff, Z.eqb_neq, IH.
    + split.
      * intros [H1 H2] h' i' [[<- <-]|[_ Hi']]%lookup_insert_Some; eauto.
      * intros H1. split; [|eapply H1, lookup_insert_eq]. intros h' i' Hi'. eapply (H1 h'). rewrite lookup_insert_ne; [done|congruence].
    + intros h' i' Hi'. eapply (Hr h'). rewrite lookup_insert_ne; [done|congruence].
Qed.

(** ** Starting *)

(** What a start makes of the files: those of the open transaction go. *)
Definition rolled_back w : gmap gostring devInfo :=
  match pending (transFile w) (poolTid w) with Some t => delete (DeviceIDHash t) (files w) | None => files w end.

(** What holds after a start: the disk is in order, and memory would agree with it if it
    had the devices that are there; the devices it has are those it was started with. *)
Record restarted w w' : Prop := {
  s_files : files w' = rolled_back w;
  s_pt : poolTid w' = poolTid w;
  s_devices : Devices (mem w') = files w;
  s_inv : mem_ok (files w') (TransactionID (mem w')) (deviceIDMap (mem w')) (files w') (transFile w') (pool w') (poolTid w')
}.
Definition restart_stopped w w' : Prop := disk_inv w' ∧ poolTid w' = poolTid w ∧ (files w' = files w ∨ files w' = rolled_back w).

(** Memory just after the files were read. *)
Lemma loaded_used fs tf pl pt h i : disk_ok fs tf pl pt → fs !! h = Some i → isDeviceIDFree (DeviceID i) (constructDeviceIDMap fs) = false.
Proof.
  intros Hd Hi. apply not_true_is_false. rewrite construct_used; [intros Hn; by eapply Hn| |].
  - intros h' i' Hi'. by apply (d_range _ _ _ _ _ Hd) in Hi' as [? _].
  - by apply (d_range _ _ _ _ _ Hd) in Hi as [? _].
Qed.
Lemma loaded w :
  disk_inv w → (∀ h i, files w !! h = Some i → DeviceID i ∈ pool w) →
  mem_ok (files w) (poolTid w) (constructDeviceIDMap (files w)) (files w) (transFile w) (pool w) (poolTid w).
Proof.
  intros Hd Hp. split; try done.
  - intros h i Hi. rewrite Hi. f_equal. symmetry. by eapply d_stored.
  - intros h i Hi. by eapply loaded_used.
Qed.

Lemma mono_restart : mono (restart idBits).
Proof.
  intros w Hw. unfold restart. case_bool_decide; [|done].
  apply mono_bind; [mono|intros _|done]. apply mono_bind; [apply mono_process|intros _]. apply mono_bind; [|mono].
  apply mono_modify. intros w' Hw'. by case_match.
Qed.

(** The roll back, step by step. *)
Lemma lost_disk fs tf pl pt t : disk_ok fs tf pl pt → pending tf pt = Some t → disk_ok fs tf (pl ∖ {[trans_DeviceID t]}) pt.
Proof.
  intros [D1 D2 D3 D4 D5] Ht. split; try done. intros h i Hi. destruct (decide (DeviceID i = trans_DeviceID t)) as [E|Hne].
  - right. exists t. split; [done|]. symmetry. by eapply (proj2 (D5 _ Ht)).
  - destruct (D4 _ _ Hi) as [?|?]; [left|by right]. apply elem_of_difference. by rewrite elem_of_singleton.
Qed.
Lemma undone_disk fs tf pl pt t tf' :
  disk_ok fs tf pl pt → pending tf pt = Some t → tf' = tf ∨ tf' = None →
  disk_ok (delete (DeviceIDHash t) fs) tf' pl pt ∧
  (∀ h i, delete (DeviceIDHash t) fs !! h = Some i → DeviceID i ∈ pl ∧ DeviceID i ≠ trans_DeviceID t).
Proof.
  intros [D1 D2 D3 D4 D5] Ht Htf.
  assert (Hp : ∀ h i, delete (DeviceIDHash t) fs !! h = Some i → fs !! h = Some i ∧ DeviceID i ∈ pl ∧ DeviceID i ≠ trans_DeviceID t).
  { intros h i [Hne Hi]%lookup_delete_Some. split; [done|]. split.
    - destruct (D4 _ _ Hi) as [?|(t'&?&?)]; [done|]. congruence.
    - intros E. apply Hne. symmetry. by eapply (proj2 (D5 _ Ht)). }
  split; [|intros h i Hi; exact (proj2 (Hp _ _ Hi))]. split.
  - intros h i [Hi _]%Hp. eauto.
  - intros h i [Hi _]%Hp. eauto.
  - intros h1 h2 i1 i2 [H1 _]%Hp [H2 _]%Hp. eauto.
  - intros h i (_&?&_)%Hp. by left.
  - intros t' Ht'. destruct Htf as [->| ->]; [|done]. destruct (D5 _ Ht') as [H1 H2]. split; [done|]. intros h i [Hi _]%Hp. eauto.
Qed.

(** A state in which the files of [w0] were read and [t] is rolled back; [fs] are the
    files now. *)
Record rolling w0 (t : transaction) (fs : gmap gostring devInfo) w : Prop := {
  g_disk : disk_inv w0;
  g_pending : pending (transFile w0) (poolTid w0) = Some t;
  g_devices : Devices (mem w) = files w0;
  g_tid : TransactionID (mem w) = poolTid w0;
  g_bm : deviceIDMap (mem w) = constructDeviceIDMap (files w0);
  g_files : files w = fs;
  g_transFile : transFile w = transFile w0;
  g_pool : pool w = pool w0 ∨ pool w = pool w0 ∖ {[trans_DeviceID t]};
  g_pt : poolTid w = poolTid w0
}.
Abbreviation undone_fs w0 t := (delete (DeviceIDHash t) (files w0)).
Lemma rolling_outcomes w0 t fs w o : rolling w0 t fs w → rolling w0 t fs (set_outcomes o w).
Proof. intros []. by split. Qed.
Lemma rolling_pool w0 t fs w : rolling w0 t fs w → disk_ok (files w0) (transFile w0) (pool w) (poolTid w0).
Proof. intros Hw. destruct (g_pool _ _ _ _ Hw) as [->| ->]; [|eapply lost_disk]; apply Hw. Qed.
Lemma rolling_rolled w0 t fs w : rolling w0 t fs w → rolled_back w0 = undone_fs w0 t.
Proof. intros Hw. unfold rolled_back. by rewrite (g_pending _ _ _ _ Hw). Qed.
Lemma rolling_stopped w0 t fs w : rolling w0 t fs w → fs = files w0 ∨ fs = undone_fs w0 t → restart_stopped w0 w.
Proof.
  intros Hw Hfs. pose proof (rolling_pool _ _ _ _ Hw) as Hd. pose proof (rolling_rolled _ _ _ _ Hw) as Hr. destruct Hw.
  unfold restart_stopped. rewrite g_files0, g_transFile0, g_pt0, Hr. split_and!; [|done|done].
  destruct Hfs as [->| ->]; [done|]. by eapply undone_disk; [| |left].
Qed.
(** The metadata is gone: the ID is free, and the transaction file may go too. *)
Lemma rolling_done w0 t w tf' :
  rolling w0 t (undone_fs w0 t) w → tf' = transFile w0 ∨ tf' = None →
  restarted w0 (set_transFile tf' (set_mem (set_deviceIDMap (markDeviceIDFree (trans_DeviceID t))) w)).
Proof.
  intros Hw Htf'. pose proof (rolling_pool _ _ _ _ Hw) as Hd. pose proof (rolling_rolled _ _ _ _ Hw) as Hr. destruct Hw.
  destruct (undone_disk _ _ _ _ _ _ Hd g_pending0 Htf') as [Hu1 Hu2].
  split; simpl; [by rewrite g_files0, Hr|done|done|]. rewrite g_files0, g_tid0, g_pt0, g_bm0.
  eapply keep_free; [|apply (d_pending _ _ _ _ _ Hd _ g_pending0)|intros h i Hi; by apply (Hu2 _ _ Hi)].
  split; [done|intros h i Hi; by apply (Hu2 _ _ Hi)|done| |].
  - intros h i Hi. rewrite Hi. f_equal. symmetry. by eapply d_stored.
  - intros h i [_ Hi]%lookup_delete_Some. by eapply loaded_used.
Qed.

Lemma undone_wp w0 w t :
  rolling w0 t (undone_fs w0 t) w →
  wp (bind (free_id (trans_DeviceID t)) (fun _ => bind removeTransactionMetaData (fun _ => ret tt)))
    (fun _ w' => restarted w0 w') (restart_stopped w0) w.
Proof.
  intros Hw. pose proof mono_removeTransaction. apply wp_bind; [mono; done|]. apply wp_modify. apply wp_bind; [mono|].
  apply wp_removeTransaction; [intros o|intros e o|intros o].
  - apply wp_ret. apply (rolling_done w0 t (set_outcomes o w) None); [by apply rolling_outcomes|by right].
  - apply wp_ret. pose proof (rolling_done w0 t (set_outcomes o w) (transFile w0) (rolling_outcomes _ _ _ _ o Hw) (or_introl eq_refl)) as Hr.
    rewrite <-(g_transFile _ _ _ _ Hw) in Hr. exact Hr.
  - exact (rolling_stopped w0 t _ w Hw (or_intror eq_refl)).
Qed.
Lemma removed_wp w0 w t :
  rolling w0 t (files w0) w →
  wp (bind (removeMetadata (DeviceIDHash t)) (fun e => bind (match e with Some _ => ret tt | None => free_id (trans_DeviceID t) end)
      (fun _ => bind removeTransactionMetaData (fun _ => ret tt)))) (fun _ w' => restarted w0 w') (restart_stopped w0) w.
Proof.
  intros Hw. pose proof mono_removeTransaction. pose proof mono_free_id. apply wp_bind; [mono; done|].
  apply wp_remove; intros o.
  - apply undone_wp. destruct Hw. split; try done. simpl. by rewrite g_files0.
  - apply (rolling_stopped w0 t (files w0)); [by apply rolling_outcomes|by left].
Qed.
Lemma rollback_wp w0 w t :
  rolling w0 t (files w0) w → trans (mem w) = t → wp rollbackTransaction (fun _ w' => restarted w0 w') (restart_stopped w0) w.
Proof.
  intros Hw <-. pose proof mono_removeTransaction. pose proof mono_free_id. pose proof mono_removeMetadata.
  unfold rollbackTransaction. apply wp_bind; [mono; done|].
  apply wp_delete; [intros o _|intros e o|intros o].
  - apply removed_wp. destruct Hw. split; try done. simpl. destruct g_pool0 as [->| ->]; right; set_solver.
  - apply removed_wp. by apply (rolling_outcomes _ _ _ _ o) in Hw.
  - eapply (rolling_stopped w0); [by eapply rolling_outcomes|by left].
Qed.

Lemma process_wp w0 w :
  disk_inv w0 → Devices (mem w) = files w0 → TransactionID (mem w) = poolTid w0 → deviceIDMap (mem w) = constructDeviceIDMap (files w0) →
  files w = files w0 → transFile w = transFile w0 → pool w = pool w0 → poolTid w = poolTid w0 →
  wp processPendingTransaction (fun _ w' => restarted w0 w') (restart_stopped w0) w.
Proof.
  intros Hd Hdev Htid Hbm Hf Htf Hp Hpt. unfold processPendingTransaction. apply wp_bind.
  { intros _ w2 H2. case_match; [done|]. apply mono_bind; [apply mono_rollback|mono|done]. }
  apply wp_modify. set (w1 := set_mem _ w). unfold wp at 1. destruct (_ || _) eqn:Ec.
  - right. assert (Hn : pending (transFile w0) (poolTid w0) = None).
    { simpl in Ec. rewrite Htid, Htf in Ec. unfold pending. destruct (transFile w0) as [t|]; [|done]. simpl in Ec.
      apply orb_true_iff in Ec. rewrite Z.eqb_eq, Z.ltb_lt in Ec. destruct (Z.ltb_spec (poolTid w0) (OpenTransactionID t)); [lia|done]. }
    split; [unfold rolled_back; by rewrite Hn|done|done|]. simpl. rewrite Htid, Hbm, Hf, Htf, Hp, Hpt. apply loaded; [done|].
    intros h i Hi. destruct (d_pool _ _ _ _ _ Hd _ _ Hi) as [?|(t&?&_)]; congruence.
  - match goal with |- rm_failed (?m w1).1 = true ∨ _ => change (wp m (fun _ w' => restarted w0 w') (restart_stopped w0) w1) end.
    apply wp_bind; [mono|]. apply orb_false_iff in Ec as [E1%Z.eqb_neq E2%Z.ltb_ge]. simpl in E1, E2. rewrite Htid in E1, E2.
    eapply wp_weaken; [eapply (rollback_wp w0 w1); [|done]| |done].
    + assert (Hpd : pending (transFile w0) (poolTid w0) = Some (trans (mem w1))).
      { simpl. rewrite Htf in *. destruct (transFile w0) as [t|]; simpl in *; [|lia]. destruct (Z.ltb_spec (poolTid w0) (OpenTransactionID t)); [done|lia]. }
      split; try done. by left.
    + intros _ w2 []. apply wp_modify. by split.
Qed.

Lemma restart_wp w : disk_inv w → wp (restart idBits) (fun r w' => r = Ok tt ∧ restarted w w') (restart_stopped w) w.
Proof.
  intros Hd. unfold restart, wp. rewrite bool_decide_true.
  2: { intros h i Hi. apply (d_range _ _ _ _ _ Hd) in Hi. unfold DeviceSetFacts.in_pool in Hi. lia. }
  match goal with |- rm_failed (?m w).1 = true ∨ _ => change (wp m (fun r w' => r = Ok tt ∧ restarted w w') (restart_stopped w) w) end.
  assert (Hml : mono (bind (modify (fun w => match savedNext w with Some n => set_mem (set_NextDeviceID n) w | None => w end)) (fun _ => ret (Ok tt : result dsError unit)))).
  { apply mono_bind; [|mono]. apply mono_modify. intros w' Hw'. by case_match. }
  apply wp_bind; [intros _; apply mono_bind; [apply mono_process|by intros _]|]. apply wp_modify. apply wp_bind; [by intros _|].
  eapply wp_weaken; [by apply (process_wp w)| |done]. intros [] w2 H2. apply wp_bind; [mono|]. apply wp_modify, wp_ret. split; [done|].
  destruct H2. destruct (savedNext w2); by split.
Qed.

(** ** What the operations guarantee *)

(** The operations on one layer, with the layer. *)
Inductive op :=
| OpAdd (h base : gostring) | OpDelete (deferredDelete syncDelete : bool) (h : gostring) | OpMount (h path : gostring)
| OpUnmount (h path : gostring) | OpSetup (deferredDelete thinPoolDevice userBaseSize haveUUID haveFS : bool) (baseFsSize : Z).
Definition run_op (o : op) : M (result dsError unit) :=
  match o with
  | OpAdd h base => AddDevice idBits h base
  | OpDelete d sy h => DeleteDevice idBits d sy h
  | OpMount h path => MountDevice idBits h path
  | OpUnmount h path => UnmountDevice idBits h path
  | OpSetup d t u hu hf n => setupBaseImage idBits d t u hu hf n
  end.
Lemma safe_run o : safe idBits 2 (run_op o).
Proof.
  assert (Hw : ∀ n m, n ≤ 2 → safe idBits n m → safe idBits 2 (m : M (result dsError unit))).
  { intros n m Hn [Hm Hs]. split; [done|]. intros w Hi Hb. eapply wp_weaken; [apply Hs; [done|lia]| |done]. intros r w' [H1 H2]. split; [done|lia]. }
  destruct o; simpl; [eapply Hw, safe_Add|eapply Hw, safe_Delete|eapply Hw, safe_Mount|eapply Hw, safe_Unmount|eapply Hw, safe_setup]; lia.
Qed.

Lemma wp_use {A} (m : M A) Q C w w' r :
  wp m Q C w → m w = (w', r) → rm_failed w' = false → match r with Some x => Q x w' | None => C w' end.
Proof. unfold wp. intros [H|H] E Hr; rewrite E in H; simpl in H; [congruence|by destruct r]. Qed.

Lemma restart_rm w o w2 r : restart idBits (set_outcomes o w) = (w2, r) → rm_failed w2 = false → rm_failed w = false.
Proof.
  intros E Hr. apply not_true_is_false. intros Hw. pose proof (mono_restart (set_outcomes o w) Hw) as H. rewrite E in H. simpl in H. congruence.
Qed.

Fixpoint run_ops (os : list op) : M unit :=
  match os with
  | [] => ret tt
  | o :: os => bind (run_op o) (fun _ => run_ops os)
  end.
Lemma safe_run_ops os : safe idBits (2 * Z.of_nat (length os)) (run_ops os).
Proof.
  induction os as [|o os IH]; cbn [run_ops length]; [by apply safe_ret|].
  replace (2 * Z.of_nat (S (length os))) with (2 + 2 * Z.of_nat (length os)) by lia. apply safe_bind; [lia|apply safe_run|done].
Qed.

(** C8: as long as no removal of a metadata file fails, whatever other calls of the kernel
    and of the file system fail, after any sequence of operations no two layers share a
    device, every layer's device is in the pool and marked as used, and memory agrees with
    the disk; and if the machine stops in between, what is on disk is in order but for the
    layer of the open transaction.  The transaction IDs of the pool are taken not to reach
    2^64.  Where a metadata file could not be removed the property does not hold
    ([failed_removal_shares_id]). *)
Theorem devices_consistent os w w' r :
  inv w → 0 ≤ poolTid w → poolTid w + 2 * Z.of_nat (length os) < 2 ^ 64 →
  run_ops os w = (w', r) → rm_failed w' = false →
  match r with Some _ => inv w' | None => disk_inv w' end.
Proof.
  intros Hw H0 Hb E Hr. destruct (safe_run_ops os) as [_ Hs]. specialize (Hs w Hw ltac:(lia)).
  apply (wp_use _ _ _ _ _ _ Hs) in E; [|done]. by destruct r as [x|]; [apply E|].
Qed.

(** A layer that is added gets a device that was not in the pool, of the size of its
    base; when adding fails no layer has changed, whichever call failed. *)
Theorem AddDevice_spec h b w w' r :
  inv w → 0 ≤ poolTid w < 2 ^ 64 - 1 → AddDevice idBits h b w = (w', Some r) → rm_failed w' = false →
  match r with
  | Ok _ => ∃ base i, files w !! b = Some base ∧ files w !! h = None ∧ files w' = <[h := i]> (files w) ∧
      DeviceID i ∉ pool w ∧ pool w' = {[DeviceID i]} ∪ pool w ∧ Size i = Size base ∧ Deleted i = false
  | Err _ => files w' = files w
  end.
Proof. intros Hw Hb E Hr. apply (wp_use _ _ _ _ _ _ (AddDevice_wp idBits h b w Hw Hb)) in E as (_&_&H); done. Qed.

(** A layer that is deleted is gone from the disk and from the pool, or, if deletion
    may be deferred, is marked and kept; when deleting fails nothing has changed. *)
Theorem DeleteDevice_spec d sy h w w' r :
  inv w → 0 ≤ poolTid w < 2 ^ 64 - 1 → DeleteDevice idBits d sy h w = (w', Some r) → rm_failed w' = false →
  match r with
  | Ok _ => ∃ i, files w !! h = Some i ∧
      (files w' = delete h (files w) ∧ pool w' = pool w ∖ {[DeviceID i]} ∨
       (d = true ∧ sy = false) ∧ ∃ i', files w' = <[h := i']> (files w) ∧ DeviceID i' = DeviceID i ∧ Deleted i' = true ∧ pool w' = pool w)
  | Err _ => files w' = files w ∧ pool w' = pool w
  end.
Proof.
  intros Hw Hb E Hr. apply (wp_use _ _ _ _ _ _ (DeleteDevice_wp idBits d sy h w Hw Hb)) in E as (_&_&H); [|done].
  destruct r as [[]|e]; [|done]. destruct H as (i&Hi&[H|[Hnow H]]); exists i; split; [done|by left|done|right].
  split; [|done]. destruct d, sy; done.
Qed.

(** The layer of a transaction that was opened before and not closed. *)
Definition stale w h : Prop := ∃ t, pending (transFile w) (poolTid w) = Some t ∧ DeviceIDHash t = h.

Lemma stopped_restart h w w1 w2 o r :
  stopped idBits h (files w) (transFile w) (poolTid w) w1 → restart idBits (set_outcomes o w1) = (w2, Some r) → rm_failed w2 = false →
  r = Ok tt ∧ restarted (set_outcomes o w1) w2 ∧
  (∀ h', h' ≠ h → ¬ stale w h' → files w2 !! h' = files w !! h') ∧
  (files w !! h = None → files w2 !! h = None).
Proof.
  intros [Hd Hs] E Hr. apply (wp_use _ _ _ _ _ _ (restart_wp (set_outcomes o w1) Hd)) in E as [-> Hre]; [|done].
  split; [done|]. split; [done|]. rewrite (s_files _ _ Hre). unfold rolled_back, stale. simpl. destruct Hs as [(->&->&->)|(He&t&->&Hh)].
  - destruct (pending _ _) as [t|]; [|done]. split.
    + intros h' _ Hst. rewrite lookup_delete_ne; [done|]. intros Hh. apply Hst. eauto.
    + intros Hn. destruct (decide (DeviceIDHash t = h)) as [->|]; [apply lookup_delete_eq|by rewrite lookup_delete_ne].
  - rewrite Hh, He. split; [|intros; apply lookup_delete_eq]. intros h' Hne _. by rewrite lookup_delete_ne.
Qed.

Lemma stopped_devices h w w1 w2 o :
  stopped idBits h (files w) (transFile w) (poolTid w) w1 → restarted (set_outcomes o w1) w2 →
  ∀ h', h' ≠ h → Devices (mem w2) !! h' = files w !! h'.
Proof.
  intros [_ Hs] Hre h' Hne. rewrite (s_devices _ _ Hre). simpl. destruct Hs as [(->&_)|(He&_)]; [done|].
  rewrite <-(lookup_delete_ne (files w1) h h'), <-(lookup_delete_ne (files w) h h') by done. by rewrite He.
Qed.

(** C9: adding a layer is atomic on disk: if the machine stops at any point of it and the
    device set is started again, there is no metadata of the layer, that of every other
    layer is as it was (but for one whose transaction had not been closed before), no two
    layers share a device and every layer's device is in the pool.  In memory the other
    layers are as they were; the interrupted one may still be listed after this start
    ([interrupted_add_is_listed]), and is gone from memory with the next one.  Starts in
    which a metadata file cannot be removed are excluded. *)
Theorem AddDevice_atomic h b w w1 o w2 r :
  inv w → 0 ≤ poolTid w < 2 ^ 64 - 1 → AddDevice idBits h b w = (w1, None) →
  restart idBits (set_outcomes o w1) = (w2, Some r) → rm_failed w2 = false →
  r = Ok tt ∧ files w2 !! h = None ∧ (∀ h', ¬ stale w h' → files w2 !! h' = files w !! h') ∧
  mem_ok (files w2) (TransactionID (mem w2)) (deviceIDMap (mem w2)) (files w2) (transFile w2) (pool w2) (poolTid w2) ∧
  (∀ h', h' ≠ h → Devices (mem w2) !! h' = files w !! h') ∧
  (∀ o' w3 r', restart idBits (set_outcomes o' w2) = (w3, Some r') → rm_failed w3 = false →
     r' = Ok tt ∧ Devices (mem w3) = files w2 ∧ Devices (mem w3) !! h = None).
Proof.
  intros Hw Hb E1 E2 Hr. pose proof (restart_rm _ _ _ _ E2 Hr) as Hr1.
  apply (wp_use _ _ _ _ _ _ (AddDevice_wp idBits h b w Hw Hb)) in E1 as [Hn Hs]; [|done].
  destruct (stopped_restart _ _ _ _ _ _ Hs E2 Hr) as (->&Hre&Ho&Hh). split_and!; [done|by apply Hh| |by apply Hre| |].
  - intros h' Hst. destruct (decide (h' = h)) as [->|]; [by rewrite Hh|by apply Ho].
  - by eapply stopped_devices.
  - intros o' w3 r' E3 Hr3. apply (wp_use _ _ _ _ _ _ (restart_wp (set_outcomes o' w2) (m_disk _ _ _ _ _ _ _ _ (s_inv _ _ Hre)))) in E3 as [-> Hre3]; [|done].
    rewrite (s_devices _ _ Hre3). simpl. split_and!; [done|done|by apply Hh].
Qed.

(** If the machine stops at any point of a deletion and the device set is started
    again, every other layer is as it was (but for one whose transaction had not been
    closed before), no two layers share a device and every layer's device is in the
    pool. *)
Theorem DeleteDevice_recovers d sy h w w1 o w2 r :
  inv w → 0 ≤ poolTid w < 2 ^ 64 - 1 → DeleteDevice idBits d sy h w = (w1, None) →
  restart idBits (set_outcomes o w1) = (w2, Some r) → rm_failed w2 = false →
  r = Ok tt ∧ (∀ h', h' ≠ h → ¬ stale w h' → files w2 !! h' = files w !! h') ∧
  mem_ok (files w2) (TransactionID (mem w2)) (deviceIDMap (mem w2)) (files w2) (transFile w2) (pool w2) (poolTid w2).
Proof.
  intros Hw Hb E1 E2 Hr. pose proof (restart_rm _ _ _ _ E2 Hr) as Hr1.
  apply (wp_use _ _ _ _ _ _ (DeleteDevice_wp idBits d sy h w Hw Hb)) in E1 as [_ Hs]; [|done].
  destruct (stopped_restart _ _ _ _ _ _ Hs E2 Hr) as (->&Hre&Ho&Hh). split; [done|]. split; [done|]. apply Hre.
Qed.

(** ** Creating a device ends *)

Abbreviation maxID := (maxDeviceID idBits).
(** The IDs that are free. *)
Definition free_ids (bm : gmap Z Z) : list Z := filter (fun id => isDeviceIDFree id bm = true) (seqZ 0 (maxID + 1)).

Lemma free_ids_used id bm : in_pool id → isDeviceIDFree id bm = true → (length (free_ids (markDeviceIDUsed id bm)) < length (free_ids bm))%nat.
Proof.
  intros Hid Hf. assert (Hin : id ∈ seqZ 0 (maxID + 1)) by (apply elem_of_seqZ; unfold DeviceSetFacts.in_pool in Hid; lia).
  assert (Hall : ∀ j, j ∈ seqZ 0 (maxID + 1) → isDeviceIDFree j (markDeviceIDUsed id bm) = isDeviceIDFree j bm && negb (id =? j)).
  { intros j [Hj _]%elem_of_seqZ. apply isFree_used; [apply Hid|done]. }
  unfold free_ids. revert Hin Hall. generalize (seqZ 0 (maxID + 1)). intros l Hin Hall.
  assert (Hle : ∀ l', (∀ j, j ∈ l' → isDeviceIDFree j (markDeviceIDUsed id bm) = isDeviceIDFree j bm && negb (id =? j)) →
    (length (filter (fun j => isDeviceIDFree j (markDeviceIDUsed id bm) = true) l') ≤ length (filter (fun j => isDeviceIDFree j bm = true) l'))%nat).
  { induction l' as [|j l' IH]; intros H; [done|]. specialize (IH ltac:(intros; apply H; by right)). rewrite !filter_cons, H by by left.
    destruct (isDeviceIDFree j bm); simpl; [|done]. destruct (id =? j); simpl; lia. }
  apply list_elem_of_split in Hin as (l1&l2&->). rewrite !filter_app, !filter_cons, !length_app.
  rewrite (Hall id) by (apply elem_of_app; right; by left). rewrite Hf, Z.eqb_refl. simpl.
  pose proof (Hle l1 ltac:(intros; apply Hall, elem_of_app; by left)). pose proof (Hle l2 ltac:(intros; apply Hall, elem_of_app; right; by right)). lia.
Qed.

(** Programs that leave the bitmap alone. *)
Definition keeps_map {A} (m : M A) : Prop := ∀ w, deviceIDMap (mem (m w).1) = deviceIDMap (mem w).
Lemma keeps_call {A} (good : M A) bad : keeps_map good → (∀ e, keeps_map (bad e)) → keeps_map (call good bad).
Proof. intros Hg Hb w. unfold call. destruct (outcomes w) as [|[|e|] o]; [apply Hg|exact (Hg (set_outcomes o w))|exact (Hb e (set_outcomes o w))|done]. Qed.
Lemma keeps_CreateSnap base id : keeps_map (dm_CreateSnapDevice base id).
Proof.
  apply keeps_call; [|by intros ? w]. intros w. case_bool_decide; [done|]. case_bool_decide; [done|].
  by rewrite (keeps_call (ret None) (fun _ => fails EOther)).
Qed.
Lemma keeps_Create id : keeps_map (dm_CreateDevice id).
Proof. apply keeps_call; [|by intros ? w]. intros w. repeat case_match; done. Qed.
Lemma keeps_saveTransaction : keeps_map saveTransactionMetaData.
Proof. apply keeps_call; [|by intros ? w]. by intros w. Qed.

Lemma create_loop_ends create fuel id w :
  (∀ id, keeps_map (create id)) → (length (free_ids (deviceIDMap (mem w))) < fuel)%nat →
  (create_loop idBits fuel create id w).2 ≠ Some (Err DsFuel).
Proof.
  intros Hc. revert id w. induction fuel as [|fuel IH]; intros id w Hf; [lia|]. cbn [create_loop]. unfold bind at 1.
  pose proof (Hc id w) as Hm. destruct (create id w) as [w1 [[[]|]|]]; try done. simpl in Hm. unfold bind at 1.
  destruct (getNext_cases idBits w1) as [(next&->&_)|(id'&->&Hr&Hfree)]; [done|]. unfold refreshTransaction, bind, modify. simpl.
  set (w2 := set_mem _ (set_mem _ w1)). pose proof (keeps_saveTransaction w2) as Hs. destruct (saveTransactionMetaData w2) as [w3 [e|]]; [|done].
  apply IH. simpl in Hs. rewrite Hs. pose proof (free_ids_used id' _ Hr Hfree). rewrite Hm in *. lia.
Qed.
Lemma free_ids_bound bm : (length (free_ids bm) < create_fuel idBits)%nat.
Proof.
  unfold free_ids, create_fuel. pose proof (length_filter (fun id => isDeviceIDFree id bm = true) (seqZ 0 (maxID + 1))) as H.
  rewrite length_seqZ in H. lia.
Qed.
Lemma bind_none {A B} (m : M A) (k : A → M B) w x : (∀ y w', m w = (w', Some y) → (k y w').2 ≠ Some x) → (bind m k w).2 ≠ Some x.
Proof. intros H. unfold bind. destruct (m w) as [w' [y|]]; [by apply H|done]. Qed.
Lemma create_register_ends create h size w :
  (∀ id, keeps_map (create id)) → (create_register idBits create h size w).2 ≠ Some (Err DsFuel).
Proof.
  intros Hc. unfold create_register. apply bind_none. intros [id|] w1 _; [|done]. apply bind_none. intros [e|] w2 _; [by apply bind_none|].
  apply bind_none. intros [id'|e] w3 E.
  - repeat (apply bind_none; intros ? ? _; try case_match; try done).
  - intros [= ->]. eapply create_loop_ends; [done|apply free_ids_bound|by rewrite E].
Qed.

(** Creating a device for a layer ends: the loop that tries another ID while the
    pool has the one that was chosen runs out of IDs before it runs out of steps. *)
Theorem AddDevice_ends h b w : (AddDevice idBits h b w).2 ≠ Some (Err DsFuel).
Proof.
  unfold AddDevice. apply bind_none. intros [base|] w1 _; [|done]. destruct (Deleted base); [done|]. apply bind_none. intros [i|] w2 _; [done|].
  apply create_register_ends. intros id. apply keeps_CreateSnap.
Qed.

End restart.

(** ** Witnesses *)

(** A pool and a directory that are empty. *)
Definition fresh (o : list outcome) : world :=
  mkWorld (mkSet ∅ 0 0 ∅ (mkTrans 0 [] 0) 0) ∅ None None ∅ 0 o false.
Abbreviation inv n w :=
  (mem_ok n (Devices (mem w)) (TransactionID (mem w)) (deviceIDMap (mem w)) (files w) (transFile w) (pool w) (poolTid w)).
Lemma fresh_inv n o : inv n (fresh o).
Proof. split; [split|..]; done. Qed.

(** A base image and a layer on it, with IDs of four bits. *)
Definition setup_op : op := OpSetup false false false false false 10.
Definition based (o : list outcome) : world := set_outcomes o (run_ops 4 [setup_op; OpAdd "a" []] (fresh [])).1.
Lemma based_inv o : inv 4 (based o).
Proof.
  destruct (safe_run_ops 4 [setup_op; OpAdd "a" []]) as [_ Hs]. specialize (Hs (fresh []) (fresh_inv _ _) ltac:(simpl; lia)).
  assert (E : run_ops 4 [setup_op; OpAdd "a" []] (fresh []) = ((run_ops 4 [setup_op; OpAdd "a" []] (fresh [])).1, Some tt)).
  { rewrite (surjective_pairing (run_ops _ _ _)) at 1. f_equal; vm_compute; reflexivity. }
  apply (wp_use _ _ _ _ _ _ Hs) in E as [H _]; [exact H|vm_compute; reflexivity].
Qed.

(** What a program returns, and the state after it. *)
Ltac run := rewrite (surjective_pairing (_ _)) at 1; f_equal; vm_compute; reflexivity.

Definition some_ops : list op :=
  [OpMount "a" "/m"; OpAdd "c" "a"; OpDelete false false "a"; OpUnmount "a" "/m"; OpDelete true false "a"; OpDelete false true "c"].
Lemma devices_consistent_witness : inv 4 (run_ops 4 some_ops (based [])).1.
Proof.
  refine (devices_consistent 4 some_ops (based []) _ (Some tt) (based_inv []) _ _ _ _); [vm_compute; discriminate|reflexivity| |vm_compute; reflexivity].
  run.
Defined.

(** The close of the transaction fails. *)
Definition add_fails : world := based [Good; Good; Good; Good; Bad EOther].
Lemma AddDevice_spec_witness : files (AddDevice 4 "c" "a" add_fails).1 = files add_fails.
Proof.
  refine (AddDevice_spec 4 "c" "a" add_fails _ (Err (IOError EOther)) (based_inv _) _ _ _); [split; [vm_compute; discriminate|reflexivity]| |vm_compute; reflexivity].
  run.
Defined.

(** The device is busy. *)
Definition delete_busy : world := based [Good; Good; Bad EBusy].
Lemma DeleteDevice_spec_witness :
  ∃ i, files delete_busy !! "a" = Some i ∧
    (files (DeleteDevice 4 true false "a" delete_busy).1 = delete "a" (files delete_busy) ∧
       pool (DeleteDevice 4 true false "a" delete_busy).1 = pool delete_busy ∖ {[DeviceID i]} ∨
     (true = true ∧ false = false) ∧ ∃ i', files (DeleteDevice 4 true false "a" delete_busy).1 = <["a" := i']> (files delete_busy) ∧
       DeviceID i' = DeviceID i ∧ Deleted i' = true ∧ pool (DeleteDevice 4 true false "a" delete_busy).1 = pool delete_busy).
Proof.
  refine (DeleteDevice_spec 4 true false "a" delete_busy _ (Ok tt) (based_inv _) _ _ _); [split; [vm_compute; discriminate|reflexivity]| |vm_compute; reflexivity].
  run.
Defined.

(** The machine stops before the transaction is closed. *)
Definition add_stops : world := based [Good; Good; Good; Good; Stop].
Lemma AddDevice_atomic_witness :
  files (restart 4 (AddDevice 4 "c" "a" add_stops).1).1 !! "c" = None.
Proof.
  refine (proj1 (proj2 (AddDevice_atomic 4 "c" "a" add_stops (AddDevice 4 "c" "a" add_stops).1 [] (restart 4 (AddDevice 4 "c" "a" add_stops).1).1
    (Ok tt) (based_inv _) _ _ _ _))); [split; [vm_compute; discriminate|reflexivity]|run|vm_compute; reflexivity|vm_compute; reflexivity].
Defined.

(** The machine stops before the metadata is removed. *)
Definition delete_stops : world := based [Good; Good; Good; Stop].
Lemma DeleteDevice_recovers_witness :
  files (restart 4 (DeleteDevice 4 false false "a" delete_stops).1).1 !! ([] : gostring) = files delete_stops !! [].
Proof.
  refine (proj1 (proj2 (DeleteDevice_recovers 4 false false "a" delete_stops (DeleteDevice 4 false false "a" delete_stops).1 []
    (restart 4 (DeleteDevice 4 false false "a" delete_stops).1).1 (Ok tt) (based_inv _) _ _ _ _)) [] _ _);
    [split; [vm_compute; discriminate|reflexivity]|run|vm_compute; reflexivity|vm_compute; reflexivity|discriminate|].
  intros (t&Ht&_). vm_compute in Ht. discriminate.
Defined.

(** ** What a start does not restore *)

(** A layer whose addition was interrupted after its metadata was written: the start that
    rolls it back has read its metadata already, so that adding it again is refused. *)
Theorem interrupted_add_is_listed :
  let w2 := (restart 4 (AddDevice 4 "c" "a" add_stops).1).1 in
  files w2 !! "c" = None ∧ is_Some (Devices (mem w2) !! "c") ∧ (AddDevice 4 "c" "a" w2).2 = Some (Err (AlreadyExists "c")).
Proof. vm_compute. split_and!; try reflexivity; by eexists. Qed.

(** A layer whose deletion was interrupted is rolled back on disk, and its ID is free,
    but it is still in memory.  A layer that is added then is given the ID, because the
    counter of IDs is as it was at the last clean shutdown; and deleting the first layer
    again deletes the device of the second. *)
Theorem interrupted_delete_hits_another :
  let w1 := (DeleteDevice 4 false false "a" delete_stops).1 in
  let w2 := (restart 4 w1).1 in
  let w3 := (AddDevice 4 "c" [] w2).1 in
  let '(w4, r) := DeleteDevice 4 false false "a" w3 in
  files w2 !! "a" = None ∧ DeviceID <$> Devices (mem w2) !! "a" = Some 2 ∧
  DeviceID <$> files w3 !! "c" = Some 2 ∧ 2 ∈ pool w3 ∧
  r = Some (Ok tt) ∧ DeviceID <$> files w4 !! "c" = Some 2 ∧ 2 ∉ pool w4.
Proof. vm_compute. split_and!; try reflexivity; try discriminate; by eauto. Qed.

(** The same for the base image: if the machine stops while it is made, the next start
    rolls it back, finds it in memory, tries to delete it and fails.  That attempt was a
    transaction, so that every later start refuses the pool, which was given by the user,
    as one that is used by another. *)
Theorem interrupted_setup_locks_pool :
  let setup w := setupBaseImage 4 false true false false false 10 w in
  let w1 := (setup (fresh [Good; Good; Good; Good; Stop])).1 in
  let '(w2, r2) := setup (restart 4 w1).1 in
  let '(w3, r3) := setup (restart 4 w2).1 in
  r2 = Some (Err (IOError EOther)) ∧ files w2 = ∅ ∧ pool w2 = ∅ ∧
  r3 = Some (Err PoolInUse) ∧ files w3 = ∅ ∧ pool w3 = ∅ ∧ poolTid w3 = 1.
Proof. vm_compute. split_and!; reflexivity. Qed.

(** When a transaction cannot be closed and the metadata cannot be removed either, the
    file stays with an ID that is marked as free. *)
Theorem failed_removal_shares_id :
  let w1 := (AddDevice 4 "c" "a" (based [Good; Good; Good; Good; Bad EOther; Bad EOther])).1 in
  DeviceID <$> files w1 !! "c" = Some 3 ∧ isDeviceIDFree 3 (deviceIDMap (mem w1)) = true ∧ 3 ∉ pool w1.
Proof. vm_compute. split_and!; try reflexivity; discriminate. Qed.

(** When the metadata of a layer cannot be removed after its device was deleted, the layer
    exists for ever: it is found on disk, and its device cannot be deleted again. *)
Theorem failed_removal_is_kept :
  let w1 := (DeleteDevice 4 false false "a" (based [Good; Good; Good; Bad EOther])).1 in
  let '(w2, r) := DeleteDevice 4 false false "a" w1 in
  is_Some (files w1 !! "a") ∧ r = Some (Err (IOError EOther)) ∧ is_Some (files w2 !! "a").
Proof. vm_compute. split_and!; try reflexivity; by eexists. Qed.
